(* ===== verification/_CoqProject ===== *)
-Q . S2P
Prelude.v
CString.v
BPTree.v
BPTreeProofs.v
BPTreeSpec.v
BPTreeScan.v
BPTreeString.v
BPTreeIndex.v
Lexer.v
Parser.v
ParserProofs.v
Mvcc.v
Values.v
Table.v
TableProofs.v
InsertProofs.v
WriteProofs.v
SelectProofs.v
Samples.v
TableClaims.v
Store.v
StoreProofs.v
Db.v
DbProofs.v
Isolation.v
Commit.v
System.v
Single.v
Batch.v
SystemClaims.v
Pool.v
QueryCache.v
CacheProofs.v
Resp.v
Json.v
Stats.v
Http.v
HttpProofs.v
JsonText.v
Render.v
RenderProofs.v
Route.v
Moved.v
CacheFresh.v
RouteProofs.v
SqlProofs.v
RouteClaims.v
Server.v
LegacyRow.v
LegacyRowProofs.v
LegacyCache.v
LegacyCacheProofs.v
LegacyIndex.v
LegacyIndexProofs.v
DeltaLog.v
DeltaLogProofs.v
LegacyTable.v
LegacyTableProofs.v
LegacyLoadProofs.v
LegacyClaims.v
LegacySelect.v
LegacySelectProofs.v
LegacyWrite.v
LegacyWriteProofs.v
LegacyUpdateProofs.v
LegacyWriteClaims.v
Scanf.v
LegacySnapshot.v
Executor.v
Jungle.v
LegacySnapshotProofs.v
LegacyReopenProofs.v
ReopenClaims.v
JungleProofs.v
PerfProofs.v
Cli.v
Workload.v
CliProofs.v
ScriptProofs.v
WorkloadProofs.v
