(* ===== verification/Prelude.v ===== *)
(** Verification of the SQL server of this repository: tables in memory behind
    B+ trees, multi-version transactions, CSV files, a worker pool, a query cache
    and an HTTP front end, all in C; with it the stand-alone executor for SQL scripts,
    its command line and the generator of its workloads.

    * The program

    A request arrives on a connection ([src/api/srv.c]), which a thread of the
    worker pool ([src/thr/pool.c]) serves.  The router ([src/api/route.c])
    decodes the JSON body, asks the query cache ([src/api/cache/query_cache.c])
    and else the database ([src/db/dbapi.c]), and writes a JSON answer
    ([src/api/resp.c]); [src/api/stats/stats.c] counts.  The database parses the
    statement ([src/legacy/lexer.c], [parser.c]), takes a version of the table
    that the clock ([src/db/mvcc.c]) makes visible, runs the statement on it
    through the indexes ([src/legacy/bptree.c]), and publishes and saves the new
    version.

    * The files

    - [Prelude]: the notation [let*] of steps that may leave the defined
      behaviour of C, tactics, hint databases, lemmas on lists and machine
      integers.  [CString]: C strings as lists of bytes, and the routines of the
      C library that the sources call.
    - [BPTree] models the B+ tree for [long] keys, generic in the order of keys;
      [BPTreeString] the string tree, whose insertion, deletion and bulk load
      differ (they copy keys).  [BPTreeProofs] (invariant, search, insertion,
      deletion), [BPTreeScan] (leaf chain, bulk load), [BPTreeSpec] (refinement
      of sorted association lists), [BPTreeIndex] (the class [OrderedIndex] of
      what the tables ask of an index, its two instances, the properties).
    - [Lexer], [Parser] model the SQL front end; [ParserProofs]: buffers and
      arrays are never overrun, and printed statements are read back.
    - [Mvcc] models the clock and the live snapshots, with its properties.
    - [Values], [Table] model one table version and the statements on it
      ([sel_do], [ins_do], [upd_do], [del_do], [exec_stmt]); [TableProofs] the
      invariant [tab_ok] (rows fit the columns, the trees hold exactly the keys of
      the rows); [InsertProofs], [WriteProofs], [SelectProofs] one statement each;
      [TableClaims] their properties, [Samples] a table to try them on.
    - [Store] models [tab_load] and [tab_save]; [StoreProofs] the round trip.
    - [Db] models the database: version chains in a heap of addresses, so that a
      dangling pointer can be told; transactions, commit, abort, garbage
      collection, single statements with their retries, batches.  [DbProofs]
      (what a snapshot sees, what collection keeps), [Isolation] (the invariant
      [db_ok] and the views of snapshots under each operation), [Commit] (commit,
      abort and release), [System] (any number of clients as a step relation, and
      its reachable states), [Single] and [Batch] ([db_exec] and [db_batch]),
      [SystemClaims] (the properties).
    - [Pool] models the worker pool as a transition system and proves it.
    - [QueryCache] models the cache; [CacheProofs] refines it to a finite map
      with a time to live.
    - [Resp] models the response buffers, [Json] the decoding of requests,
      [Stats] the counters, [Http] the connection; [HttpProofs] its framing.
    - [JsonText]: JSON values, their text, and a reader; [Render] models how the
      router writes its answers, [RenderProofs] that they are the text of a value.
    - [Route] models the handlers ([do_sql], [do_batch], [do_page], [do_mst],
      [do_asset], [route_do]) as functions of the server and of what surrounds a
      request ([Env]).  [Moved] (how the newest versions move under every step of
      [System], and that what a read answers does not depend on what was loaded
      before), [CacheFresh] (queries in flight with the cache as a step relation
      over [System]), [RouteProofs] (reads in the pool), [SqlProofs] ([do_sql] is a
      path of [CacheFresh]), [RouteClaims] (the dispatch).
    - [Server] models [srv_new], the accept loop, [srv_stop] and [srv_del], and
      the configuration of [src/dbsrv.c].
    - The second program, the stand-alone executor ([src/legacy/executor.c], with
      the same parser and trees): [LegacyRow] rows as text, [LegacyCache] where
      rows are kept (slots, the caches of rows and pages, the free list, the file),
      [LegacyIndex] the trees over them and the application of logged changes,
      [DeltaLog] the log of changes and its replay, [LegacyTable] opening,
      rewriting and inserting, [LegacySelect] SELECT, [LegacyWrite] UPDATE and
      DELETE, [Scanf] the formats that [LegacySnapshot] prints and scans for the snapshot
      of the indexes, [Executor] the open tables (opening by name, closing, the four
      statements).  [LegacyRowProofs], [LegacyCacheProofs] (refinement
      of a list of rows), [LegacyIndexProofs] (the trees hold exactly the keys of
      the rows), [DeltaLogProofs] (an abstract log of batches,
      implemented by the writers, and a crash at any byte), [LegacyTableProofs],
      [LegacyLoadProofs], [LegacySelectProofs], [LegacyWriteProofs] (DELETE),
      [LegacyUpdateProofs], [LegacySnapshotProofs] (a snapshot is read back),
      [LegacyReopenProofs] (opening by a snapshot), [LegacyClaims], [LegacyWriteClaims]
      and [ReopenClaims] (the properties).
    - Around it: [Cli] the command line ([src/cli/main.c]: the quick readers of a
      line, the loop that cuts a script into statements, the arguments, the counting
      allocator), [CliProofs] and [ScriptProofs]; [Jungle] the generated applicants,
      their data set and the two benchmarks (also [executor.c]), [JungleProofs] and
      [PerfProofs];
      [Workload] the generator of SQL workloads
      ([src/tools/bench/bench_workload_generator.c]) and the texts of the benchmarks'
      runner ([benchmark_runner.c]), [WorkloadProofs].

    * How the code is modelled

    Definitions have the names of the C functions; a loop or a block of a long
    function has a definition of its own, and the longer function calls it.  A
    function returns [None] where the C code would access memory outside an
    object or follow a freed pointer (or where the fuel of a loop is gone), so a
    theorem that it returns [Some] is a theorem of memory safety and
    termination.  What the environment decides is an argument: which allocations
    succeed ([alloc_ok], [realloc_ok], [calloc_ok]), which writes of files succeed ([io_ok]), what
    the sockets deliver, the time, the environment variables, which sleeper a
    signal wakes, what the router answers.  Unsigned integers wrap ([wrap64]);
    the sizes of the buffers of the source cut texts where the source cuts them.

    Concurrency: the code takes one lock per shared object, so a critical
    section is one transition of the pool ([Pool.step]), one call of the clock
    and of the cache, and one operation of a client of the database
    ([System.step]).  An operation of the database that holds the lock more than
    once is one step of [System]; where that is not faithful the code goes
    wrong, and [gc_race_loses_visible_version] shows the interleaving.
    Data races without any lock are outside the model.

    * What the theorems show

    - Database: snapshot isolation, first committer wins, atomic batches,
      rollback without a trace, and single writes as one statement on the newest
      version, for every interleaving of clients whose saves succeed.
    - Tables: each statement does what its reference on the list of rows does,
      through an index or not, and no statement leaves its buffers.
    - B+ trees: search, scans, insertion, deletion and bulk load refine a sorted
      association list and keep the tree balanced, linked and within its order.
    - Front end and files: the parser stays within the arrays of [Statement]; SQL
      texts, CSV files and JSON texts are read back as they were written.
    - Pool: bounded first-in-first-out queue, no lost wake-up, drained when
      stopped.  Cache: hits only of the body, version and time they were stored
      with; a store drops at most one other key.  HTTP: requests are framed the
      same way however the network cuts them, and each is answered once, in order.
    - Router: a query answered out of the cache, however it interleaves with
      writers and other queries, gets an answer that was right at some moment
      while it ran, and a request on its own the answer the database would give;
      reads spread over the pool answer as in turn, whatever the schedule; every
      answer is the JSON text of the value meant; each request gets the answer of
      its route.  Server: every connection accepted is handed over, refused or
      closed, and none is handed over after a stop.
    - Stand-alone executor: rows read the same from memory, cache or file; an INSERT
      adds exactly its row and keeps the trees exact; a SELECT prints the rows that
      match, whichever index it goes by; a DELETE takes away and an UPDATE changes
      exactly those, and what they log replays to the same rows; a table that is closed opens
      with the same rows, by its file or by the snapshot of its indexes; replaying the
      log after a crash applies every flushed batch and no batch that was not closed.
    - Command line: a script runs the statements that the parser accepts, however they are
      laid out over lines, and the quick readers read a line as the parser does; the
      counters of the allocator hold the bytes in use.
    - Benchmarks: the generated applicants are all accepted and found by each of their
      keys, and the benchmark's table is the data set that the generator writes; the
      benchmark of the trees, whose bulk load gives the table that INSERTs would give,
      finds every row it looks up and changes and removes every row; the
      INSERTs of a workload, run as a script, rebuild the data set, its UPDATEs and
      DELETEs name different applicants, and the generator reads back the options that
      the runner passes on.
    - Defects are theorems and lemmas too: a failed save leaves a dangling head, garbage
      collection can lose a visible version, the ninth table moves the entries, a
      delete breaks the capacity of the rows, an empty key of a unique column is
      not found, a quoted leading space is lost by the file, the cache evicts its
      newest entry, trees lose keys when memory runs out at the root and break after a
      refused load; the executor cannot open a table with a pending log and no index
      snapshot, cannot rewrite the file of a table with a row outside memory, loses the
      index entry of a row whose key a DELETE spells otherwise, quotes fields
      twice in an UPDATE over all rows, closes a table whose rows are partly in memory
      with a snapshot that does not fit its file, and after opening by its rows gives
      automatic keys out anew; a comment with a semicolon changes what a script runs;
      the allocator keeps counting a block reallocated to nothing; the workload
      generator keeps a source that is too short, and repeats unique telephone numbers;
      a report made anew has no score;
      the benchmark of the trees leaves the snapshot of an earlier run in place and fails
      when it is taken for that of the new file.
      The theorems of the other groups say which hypotheses keep
      clear of them.

    * Bounds and fuel

    Recursion over the tree uses its height, scans the number of leaves; the
    lexer and the parser the length of the text; [tab_load] the length of the
    file; the write of a single statement the retries of the source
    ([WRITE_RETRY_MAX]); the chains of the cache the number of its entries, and a
    doubling capacity 64 rounds, after which the size would have wrapped.
    [Http.net_rounds] counts one round for each event and each byte of a socket,
    [HEAD_FUEL] one for each byte of a head, and [conn_run] one for each request.
    The rounds of the page are at most its four queries ([PAGE_QUERY_COUNT]).
    A script takes one round for each of its lines, and the text bounds their number.
    The theorems above show that each of these is enough: they state a result.

    * What is not modelled

    The text on standard output, the exit codes of [main] in [src/dbsrv.c], the
    arrays [db_batch] allocates, the waiting of a job that is delayed
    ([sleep_ms]), the time counters inside a connection.  Of the stand-alone
    executor: messages and the times that the benchmarks measure; its allocations, seeks
    and flushes are taken to succeed.
    Of the tools what [benchmark_runner.c] does with programs and times, the scores that it
    and [bench_formula_test.c] compute with floating-point numbers.  The tests, the
    scripts and the web page, which are clients of the two programs. *)

From Stdlib Require Import Ascii String ZArith Lia.
From stdpp Require Import base numbers list sorting gmap.

#[export] Set Default Goal Selector "!".
Local Open Scope Z_scope.

(** ** Notation, hint databases and tactics *)

Declare Scope dbms_scope.
Delimit Scope dbms_scope with dbms.

(** The result of a step that may leave the defined behaviour of C ([None]). *)
Notation "'let*' p ':=' e 'in' k" := (match e with Some p => k | None => None end)
  (at level 10, p pattern, e at level 200, k at level 200) : dbms_scope.
Open Scope dbms_scope.

Create HintDb dbms.
Create Rewrite HintDb lenZ.

(** [split_and_all]: split every conjunction of the goal and of the context. *)
Ltac split_and_all :=
  repeat match goal with
  | H : _ ∧ _ |- _ => destruct H
  | |- _ ∧ _ => split
  end.

(** [case_if]: case analysis on the first [if] of the goal, keeping its equation. *)
Ltac case_if :=
  match goal with
  | |- context [if ?b then _ else _] => let E := fresh "E" in destruct b eqn:E
  end.

(** [bool_to_prop]: turn boolean integer tests of the context into propositions. *)
Ltac bool_to_prop :=
  repeat match goal with
  | H : (_ =? _) = true |- _ => apply Z.eqb_eq in H
  | H : (_ =? _) = false |- _ => apply Z.eqb_neq in H
  | H : (_ <? _) = true |- _ => apply Z.ltb_lt in H
  | H : (_ <? _) = false |- _ => apply Z.ltb_ge in H
  | H : (_ <=? _) = true |- _ => apply Z.leb_le in H
  | H : (_ <=? _) = false |- _ => apply Z.leb_gt in H
  | H : (_ =? _)%nat = true |- _ => apply Nat.eqb_eq in H
  | H : (_ =? _)%nat = false |- _ => apply Nat.eqb_neq in H
  | H : (_ <? _)%nat = true |- _ => apply Nat.ltb_lt in H
  | H : (_ <? _)%nat = false |- _ => apply Nat.ltb_ge in H
  | H : (_ <=? _)%nat = true |- _ => apply Nat.leb_le in H
  | H : (_ <=? _)%nat = false |- _ => apply Nat.leb_gt in H
  | H : _ && _ = true |- _ => apply andb_true_iff in H; destruct H
  | H : _ || _ = false |- _ => apply orb_false_iff in H; destruct H
  | H : negb _ = true |- _ => apply negb_true_iff in H
  | H : negb _ = false |- _ => apply negb_false_iff in H
  end.

(** [len]: length arithmetic on lists. *)
Ltac len :=
  autorewrite with lenZ in *; simpl in *; lia.

(** ** Array operations of the C code on lists *)

Section array_ops.
Context {A : Type}.
Implicit Types (l : list A) (x : A) (i : nat).

(** [memmove] one place right at [i], then store [x] there. *)
Definition insert_at i x l : list A := take i l ++ x :: drop i l.

(** [memmove] one place left over index [i]. *)
Definition remove_at i l : list A := take i l ++ drop (S i) l.

Lemma length_insert_at i x l : length (insert_at i x l) = S (length l).
Proof.
  unfold insert_at. rewrite length_app. simpl. rewrite length_take, length_drop. lia.
Qed.

Lemma length_remove_at i l :
  (i < length l)%nat → length (remove_at i l) = (length l - 1)%nat.
Proof.
  intros. unfold remove_at. rewrite length_app, length_take, length_drop. lia.
Qed.

Lemma insert_at_app_l i x l1 l2 :
  (i ≤ length l1)%nat → insert_at i x (l1 ++ l2) = insert_at i x l1 ++ l2.
Proof.
  intros. unfold insert_at. rewrite take_app_le, drop_app_le by lia.
  by rewrite <- app_assoc.
Qed.

Lemma insert_at_split l1 l2 x : insert_at (length l1) x (l1 ++ l2) = l1 ++ x :: l2.
Proof. unfold insert_at. by rewrite take_app_length, drop_app_length. Qed.

Lemma remove_at_split l1 l2 x : remove_at (length l1) (l1 ++ x :: l2) = l1 ++ l2.
Proof.
  unfold remove_at. rewrite take_app_length.
  change (x :: l2) with ([x] ++ l2). rewrite app_assoc.
  replace (S (length l1)) with (length (l1 ++ [x])) by (rewrite length_app; simpl; lia).
  by rewrite drop_app_length.
Qed.

Lemma lookup_insert_at_lt i x l j : (j < i)%nat → (i ≤ length l)%nat →
  insert_at i x l !! j = l !! j.
Proof.
  intros. unfold insert_at. rewrite lookup_app_l by (rewrite length_take; lia).
  by rewrite lookup_take_lt.
Qed.

Lemma lookup_insert_at_eq i x l : (i ≤ length l)%nat → insert_at i x l !! i = Some x.
Proof.
  intros. unfold insert_at. rewrite lookup_app_r by (rewrite length_take; lia).
  rewrite length_take. by replace (i - min i (length l))%nat with 0%nat by lia.
Qed.

Lemma lookup_insert_at_gt i x l j : (i < j)%nat → (i ≤ length l)%nat →
  insert_at i x l !! j = l !! (j - 1)%nat.
Proof.
  intros. unfold insert_at. rewrite lookup_app_r by (rewrite length_take; lia).
  rewrite length_take. replace (j - min i (length l))%nat with (S (j - i - 1)) by lia.
  simpl. rewrite lookup_drop. f_equal. lia.
Qed.

Lemma elem_of_insert_at i x y l : y ∈ insert_at i x l ↔ y = x ∨ y ∈ l.
Proof.
  unfold insert_at. rewrite elem_of_app, elem_of_cons.
  rewrite <- (take_drop i l) at 3. rewrite elem_of_app. tauto.
Qed.

Lemma Forall_insert_at (P : A → Prop) i x l :
  Forall P (insert_at i x l) ↔ P x ∧ Forall P l.
Proof.
  unfold insert_at. rewrite Forall_app, Forall_cons.
  rewrite <- (take_drop i l) at 3. rewrite Forall_app. tauto.
Qed.

Lemma Permutation_insert_at i x l : insert_at i x l ≡ₚ x :: l.
Proof. unfold insert_at. rewrite <- Permutation_middle. by rewrite take_drop. Qed.
End array_ops.

#[export] Hint Rewrite @length_app @length_take @length_drop @length_insert_at
  @length_map @length_fmap @length_zip_with @length_reverse : lenZ.

Section array_zip.
Context {A B : Type}.
Implicit Types (ks : list A) (vs : list B).

Lemma zip_insert_at i k v ks vs :
  length ks = length vs →
  zip (insert_at i k ks) (insert_at i v vs) = insert_at i (k, v) (zip ks vs).
Proof.
  revert ks vs; induction i as [|i IH]; intros [|k' ks] [|v' vs] H; simpl in *;
    try done; try lia.
  injection H as H. unfold insert_at in *. simpl. f_equal. by apply IH.
Qed.

Lemma zip_remove_at i ks vs :
  length ks = length vs →
  zip (remove_at i ks) (remove_at i vs) = remove_at i (zip ks vs).
Proof.
  revert ks vs; induction i as [|i IH]; intros [|k' ks] [|v' vs] H; simpl in *;
    try done; try lia.
  injection H as H. unfold remove_at in *. simpl. f_equal. by apply IH.
Qed.

Lemma zip_take i ks vs : zip (take i ks) (take i vs) = take i (zip ks vs).
Proof. revert ks vs; induction i; intros [|??] [|??]; simpl; f_equal; auto. Qed.

Lemma zip_drop i ks vs :
  length ks = length vs → zip (drop i ks) (drop i vs) = drop i (zip ks vs).
Proof.
  revert ks vs; induction i; intros [|??] [|??] H; simpl in *; try done; try lia.
  injection H as H. auto.
Qed.

Lemma lookup_zip_Some i k v ks vs :
  zip ks vs !! i = Some (k, v) ↔ ks !! i = Some k ∧ vs !! i = Some v.
Proof.
  revert ks vs; induction i as [|i IH]; intros [|k0 ks] [|v0 vs]; simpl;
    first [apply IH | naive_solver].
Qed.
End array_zip.

(** ** Sorted lists *)

Section sorted.
Context {A : Type} (R : A → A → Prop) `{!Transitive R}.

Lemma StronglySorted_app_iff l1 l2 :
  StronglySorted R (l1 ++ l2) ↔
    StronglySorted R l1 ∧ StronglySorted R l2 ∧ (∀ x y, x ∈ l1 → y ∈ l2 → R x y).
Proof using Type.
  induction l1 as [|x l1 IH]; simpl.
  - split; [|tauto]. intros H. split_and!; [constructor|done|].
    intros ? ? Hin. by apply not_elem_of_nil in Hin.
  - split.
    + intros H. apply StronglySorted_inv in H as [H Hx].
      apply IH in H as (H1 & H2 & H3). apply Forall_app in Hx as [Hx1 Hx2].
      split_and!; [by constructor|done|].
      intros y z Hy Hz. apply elem_of_cons in Hy as [->|Hy]; [|by apply H3].
      by eapply Forall_forall in Hx2.
    + intros (H1 & H2 & H3). apply StronglySorted_inv in H1 as [H1 Hx].
      constructor.
      * apply IH. split_and!; [done|done|]. intros; apply H3; [by right|done].
      * apply Forall_app. split; [done|]. apply Forall_forall.
        intros y Hy. apply H3; [by left|done].
Qed.

Lemma StronglySorted_cons_iff x l :
  StronglySorted R (x :: l) ↔ Forall (R x) l ∧ StronglySorted R l.
Proof using Type.
  split; [intros H; apply StronglySorted_inv in H; tauto|].
  intros [? ?]; by constructor.
Qed.

Lemma StronglySorted_take n l : StronglySorted R l → StronglySorted R (take n l).
Proof using Type.
  rewrite <- (take_drop n l) at 1. rewrite StronglySorted_app_iff. tauto.
Qed.

Lemma StronglySorted_drop n l : StronglySorted R l → StronglySorted R (drop n l).
Proof using Type.
  rewrite <- (take_drop n l) at 1. rewrite StronglySorted_app_iff. tauto.
Qed.

Lemma StronglySorted_lookup l i j x y :
  StronglySorted R l → (i < j)%nat → l !! i = Some x → l !! j = Some y → R x y.
Proof using Type.
  intros Hs Hij Hi Hj. rewrite <- (take_drop (S i) l) in Hs.
  apply StronglySorted_app_iff in Hs as (_ & _ & H). apply H.
  - apply list_elem_of_lookup. exists i. rewrite lookup_take_lt by lia. done.
  - apply list_elem_of_lookup. exists (j - S i)%nat. rewrite lookup_drop.
    by replace (S i + (j - S i))%nat with j by lia.
Qed.

Lemma StronglySorted_insert_at i x l :
  StronglySorted R l →
  (∀ j y, (j < i)%nat → l !! j = Some y → R y x) →
  (∀ j y, (i ≤ j)%nat → l !! j = Some y → R x y) →
  StronglySorted R (insert_at i x l).
Proof using All.
  intros Hs Hlt Hge. unfold insert_at.
  assert (Forall (R x) (drop i l)) as Hd.
  { apply Forall_forall. intros y Hy. apply list_elem_of_lookup in Hy as [j Hj].
    rewrite lookup_drop in Hj. eapply Hge; [|done]. lia. }
  apply StronglySorted_app_iff. split_and!.
  - by apply StronglySorted_take.
  - apply StronglySorted_cons_iff. split; [done|]. by apply StronglySorted_drop.
  - intros y z Hy Hz. apply list_elem_of_lookup in Hy as [j Hj].
    assert (j < i)%nat by (apply lookup_lt_Some in Hj; rewrite length_take in Hj; lia).
    rewrite lookup_take_lt in Hj by lia. assert (R y x) by by eapply Hlt.
    apply elem_of_cons in Hz as [->|Hz]; [done|].
    etrans; [done|]. by eapply Forall_forall in Hd.
Qed.
End sorted.

(** ** Machine integers *)

(** [unsigned long] and [size_t] are 64 bits wide; [long] is 64 bits, [int] is 32. *)
Definition U64 : Z := 2 ^ 64.
Definition LONG_MAX : Z := 2 ^ 63 - 1.
Definition LONG_MIN : Z := - 2 ^ 63.
Definition INT_MAX : Z := 2 ^ 31 - 1.

Definition wrap64 (x : Z) : Z := x mod U64.

Lemma wrap64_small x : 0 ≤ x < U64 → wrap64 x = x.
Proof. apply Z.mod_small. Qed.

Lemma wrap64_range x : 0 ≤ wrap64 x < U64.
Proof. apply Z.mod_pos_bound. unfold U64. lia. Qed.
