(* ===== verification/CString.v ===== *)
(** C strings: the characters before the terminating NUL, as a list of
    unsigned bytes, and the routines of <ctype.h>, <string.h> and <stdlib.h>
    that the sources call.  The program never calls [setlocale], so the
    character classes are those of the C locale. *)

From Stdlib Require Import Ascii String.
From S2P Require Import Prelude.
From stdpp Require Import base numbers list.
Local Open Scope Z_scope.

(** A C string. *)
Abbreviation cstr := (list Z).

(** The bytes of a string literal of the source. *)
Definition lit (s : string) : cstr :=
  map (fun a => Z.of_N (N_of_ascii a)) (list_ascii_of_string s).

(** The same with every backquote standing for a double quote (JSON text). *)
Definition qlit (s : string) : cstr := map (fun c => if c =? 96 then 34 else c) (lit s).

Definition QUOTE : Z := 39.
Definition COMMA : Z := 44.
Definition NL : Z := 10.
Definition CR : Z := 13.

(** No NUL inside: what makes a byte list a C string. *)
Definition is_cstr (s : cstr) : Prop := Forall (fun c => 0 < c < 256) s.

(** ** <ctype.h> *)

Definition isspace (c : Z) : bool := (c =? 32) || ((9 <=? c) && (c <=? 13)).
Definition isdigit (c : Z) : bool := (48 <=? c) && (c <=? 57).
Definition isupper (c : Z) : bool := (65 <=? c) && (c <=? 90).
Definition islower (c : Z) : bool := (97 <=? c) && (c <=? 122).
Definition isalpha (c : Z) : bool := isupper c || islower c.
Definition isalnum (c : Z) : bool := isalpha c || isdigit c.
Definition toupper (c : Z) : Z := if islower c then c - 32 else c.
Definition tolower (c : Z) : Z := if isupper c then c + 32 else c.

(** ** <string.h> *)

(** [strcmp]: the sign of the first difference of unsigned bytes. *)
Fixpoint strcmp (a b : cstr) : comparison :=
  match a, b with
  | [], [] => Eq
  | [], _ :: _ => Lt
  | _ :: _, [] => Gt
  | x :: a', y :: b' => match x ?= y with Eq => strcmp a' b' | c => c end
  end.

Definition streq (a b : cstr) : bool := match strcmp a b with Eq => true | _ => false end.

(** [strncpy(dst, src, size - 1); dst[size - 1] = 0]. *)
Definition strcpy_sz (size : nat) (src : cstr) : cstr := take (size - 1) src.

(** [strchr]: the index of the first occurrence. *)
Fixpoint strchr (s : cstr) (c : Z) : option nat :=
  match s with
  | [] => None
  | x :: s' => if x =? c then Some 0%nat else S <$> strchr s' c
  end.

Fixpoint is_prefix (p s : cstr) : bool :=
  match p, s with
  | [], _ => true
  | _ :: _, [] => false
  | x :: p', y :: s' => (x =? y) && is_prefix p' s'
  end.

(** [strstr]: the index of the first occurrence of a substring. *)
Fixpoint strstr (s p : cstr) : option nat :=
  if is_prefix p s then Some 0%nat
  else match s with [] => None | _ :: s' => S <$> strstr s' p end.

(** Skip leading white space. *)
Fixpoint skip_space (s : cstr) : cstr :=
  match s with
  | c :: s' => if isspace c then skip_space s' else s
  | [] => []
  end.

(** Drop trailing white space. *)
Definition rstrip (s : cstr) : cstr := reverse (skip_space (reverse s)).

(** ** <stdlib.h>: [strtol] in base 10 *)

(** The digits at the head of [s], accumulated on [acc], and what follows. *)
Fixpoint digits (acc : Z) (s : cstr) : Z * cstr :=
  match s with
  | c :: s' => if isdigit c then digits (acc * 10 + (c - 48)) s' else (acc, s)
  | [] => (acc, [])
  end.

Record strtol_res := { st_val : Z; st_rest : cstr; st_conv : bool; st_erange : bool }.

(** [strtol(s, &end, 10)]: value clamped to [long], the text after the number,
    whether a conversion took place ([end != s]) and whether [errno] is ERANGE. *)
Definition strtol (s : cstr) : strtol_res :=
  let s1 := skip_space s in
  let '(neg, s2) :=
    match s1 with
    | c :: s' => if c =? 45 then (true, s') else if c =? 43 then (false, s') else (false, s1)
    | [] => (false, s1)
    end in
  match s2 with
  | c :: _ =>
      if isdigit c then
        let '(m, rest) := digits 0 s2 in
        let v := if neg then - m else m in
        if v <? LONG_MIN then {| st_val := LONG_MIN; st_rest := rest; st_conv := true; st_erange := true |}
        else if LONG_MAX <? v then {| st_val := LONG_MAX; st_rest := rest; st_conv := true; st_erange := true |}
        else {| st_val := v; st_rest := rest; st_conv := true; st_erange := false |}
      else {| st_val := 0; st_rest := s; st_conv := false; st_erange := false |}
  | [] => {| st_val := 0; st_rest := s; st_conv := false; st_erange := false |}
  end.

(** [printf("%ld")] / [%d] / [%lu]. *)
Fixpoint print_pos (fuel : nat) (n : Z) (acc : cstr) : cstr :=
  match fuel with
  | O => acc
  | S f =>
      let acc' := (48 + n mod 10) :: acc in
      if n / 10 =? 0 then acc' else print_pos f (n / 10) acc'
  end.

Definition print_Z (n : Z) : cstr :=
  if n <? 0 then 45 :: print_pos (S (Z.to_nat (Z.log2 (- n)))) (- n) []
  else print_pos (S (Z.to_nat (Z.log2 n))) n [].

(** [strtoull(s, &end, 10)] and [strtoul]: the value modulo 2^64 (clamped when it is
    too big), and whether [end] is the end of the text. *)
Definition strtoull (s : cstr) : Z * bool :=
  let s1 := skip_space s in
  let '(neg, s2) :=
    match s1 with
    | c :: s' => if c =? 45 then (true, s') else if c =? 43 then (false, s') else (false, s1)
    | [] => (false, s1)
    end in
  match s2 with
  | c :: _ =>
      if isdigit c then
        let '(m, rest) := digits 0 s2 in
        (if U64 <=? m then U64 - 1 else if neg then wrap64 (- m) else m,
         match rest with [] => true | _ => false end)
      else (0, match s with [] => true | _ => false end)
  | [] => (0, match s with [] => true | _ => false end)
  end.

(** ** Laws of the comparison *)

Lemma strcmp_eq a b : strcmp a b = Eq ↔ a = b.
Proof.
  revert b; induction a as [|x a IH]; intros [|y b]; simpl; try done.
  destruct (x ?= y) eqn:E.
  - apply Z.compare_eq in E as ->. rewrite IH. naive_solver.
  - split; [done|]. intros [= -> ->]. by rewrite Z.compare_refl in E.
  - split; [done|]. intros [= -> ->]. by rewrite Z.compare_refl in E.
Qed.

Lemma strcmp_refl a : strcmp a a = Eq.
Proof. by apply strcmp_eq. Qed.

Lemma strcmp_antisym a b : strcmp b a = CompOpp (strcmp a b).
Proof.
  revert b; induction a as [|x a IH]; intros [|y b]; simpl; try done.
  rewrite (Z.compare_antisym x y). destruct (x ?= y); simpl; auto.
Qed.

Lemma strcmp_trans a b c : strcmp a b = Lt → strcmp b c = Lt → strcmp a c = Lt.
Proof.
  revert b c; induction a as [|x a IH]; intros [|y b] [|z c]; simpl; try done.
  destruct (x ?= y) eqn:E1; destruct (y ?= z) eqn:E2; try done; intros H1 H2.
  - apply Z.compare_eq in E1, E2. subst. rewrite Z.compare_refl. by eapply IH.
  - apply Z.compare_eq in E1. subst. by rewrite E2.
  - apply Z.compare_eq in E2. subst. by rewrite E1.
  - rewrite Z.compare_lt_iff in E1, E2.
    assert ((x ?= z) = Lt) as ->; [|done]. apply Z.compare_lt_iff. lia.
Qed.

Lemma streq_true a b : streq a b = true ↔ a = b.
Proof. unfold streq. rewrite <- strcmp_eq. by destruct (strcmp a b). Qed.

Lemma streq_refl a : streq a a = true.
Proof. by apply streq_true. Qed.

Lemma streq_false a b : streq a b = false ↔ a ≠ b.
Proof. rewrite <- streq_true. by destruct (streq a b). Qed.

(** ** Trimming *)

Lemma skip_space_nonspace c s : isspace c = false → skip_space (c :: s) = c :: s.
Proof. intros H. simpl. by rewrite H. Qed.

Lemma skip_space_app_space w s : forallb isspace w = true → skip_space (w ++ s) = skip_space s.
Proof.
  induction w as [|c w IH]; simpl; [done|]. intros H. bool_to_prop. rewrite H. auto.
Qed.

Lemma skip_space_suffix s : ∃ w, s = w ++ skip_space s ∧ forallb isspace w = true.
Proof.
  induction s as [|c s [w [E H]]]; simpl; [by exists []|].
  destruct (isspace c) eqn:Ec.
  - exists (c :: w). simpl. rewrite Ec. split; [by f_equal|done].
  - by exists [].
Qed.

Lemma skip_space_length s : (length (skip_space s) ≤ length s)%nat.
Proof. induction s; simpl; [lia|]. case_if; simpl; lia. Qed.

Lemma skip_space_idem s : skip_space (skip_space s) = skip_space s.
Proof.
  induction s as [|c s IH]; simpl; [done|]. destruct (isspace c) eqn:E; [done|].
  by apply skip_space_nonspace.
Qed.

Lemma rstrip_length s : (length (rstrip s) ≤ length s)%nat.
Proof.
  unfold rstrip. rewrite length_reverse, <- (length_reverse s). apply skip_space_length.
Qed.

(** A string that neither begins nor ends with white space. *)
Definition trimmed (s : cstr) : Prop := skip_space s = s ∧ rstrip s = s.

#[global] Instance trimmed_dec s : Decision (trimmed s).
Proof. unfold trimmed. apply _. Defined.

Lemma rstrip_snoc_nonspace s c : isspace c = false → rstrip (s ++ [c]) = s ++ [c].
Proof.
  intros H. unfold rstrip. rewrite reverse_app. simpl. rewrite H.
  by rewrite reverse_cons, reverse_involutive.
Qed.

Lemma rstrip_space_app w s :
  forallb isspace w = true → rstrip (s ++ w) = rstrip s.
Proof.
  intros H. unfold rstrip. rewrite reverse_app. rewrite skip_space_app_space; [done|].
  apply forallb_forall. intros x Hx. eapply forallb_forall in H; [done|].
  apply list_elem_of_In. apply elem_of_reverse. by apply list_elem_of_In.
Qed.

Lemma rstrip_idem s : rstrip (rstrip s) = rstrip s.
Proof. unfold rstrip. by rewrite reverse_involutive, skip_space_idem. Qed.

(** ** Decimal conversion round trip *)

Lemma isdigit_range c : isdigit c = true ↔ 48 ≤ c ≤ 57.
Proof. unfold isdigit. rewrite andb_true_iff, !Z.leb_le. done. Qed.

Lemma isspace_digit c : isdigit c = true → isspace c = false.
Proof.
  rewrite isdigit_range. intros. unfold isspace.
  apply orb_false_iff. split; [apply Z.eqb_neq; lia|].
  apply andb_false_iff. right. apply Z.leb_gt. lia.
Qed.

Lemma digits_app ds s acc :
  forallb isdigit ds = true → (match s with [] => True | c :: _ => isdigit c = false end) →
  digits acc (ds ++ s) = (fst (digits acc ds), s).
Proof.
  revert acc; induction ds as [|d ds IH]; simpl; intros acc H Hs.
  - destruct s as [|c s]; [done|]. simpl. by rewrite Hs.
  - bool_to_prop. rewrite H. by apply IH.
Qed.

Lemma digits_all ds acc :
  forallb isdigit ds = true → digits acc ds = (fst (digits acc ds), []).
Proof. intros H. rewrite <- (app_nil_r ds) at 1. by rewrite digits_app. Qed.

(** The value of a digit string, most significant digit first. *)
Lemma digits_print_pos fuel n acc :
  0 ≤ n < 2 ^ Z.of_nat fuel → forallb isdigit acc = true →
  (0 < fuel)%nat →
  ∃ ds, print_pos fuel n acc = ds ++ acc ∧ forallb isdigit ds = true ∧ ds ≠ [] ∧
        ∀ a, fst (digits a ds) = a * 10 ^ Z.of_nat (length ds) + n.
Proof.
  revert n acc; induction fuel as [|fuel IH]; intros n acc Hn Hacc Hf; [lia|].
  simpl. assert (isdigit (48 + n mod 10) = true) as Hd.
  { apply isdigit_range. pose proof (Z.mod_pos_bound n 10). lia. }
  destruct (n / 10 =? 0) eqn:E; bool_to_prop.
  - exists [48 + n mod 10]. cbn [app forallb digits length fst]. rewrite Hd. cbn [digits fst andb].
    split_and!; [done|done|done|].
    intros a. change (10 ^ Z.of_nat 1) with 10. pose proof (Z.div_mod n 10). lia.
  - assert (n / 10 < 2 ^ Z.of_nat fuel).
    { rewrite Nat2Z.inj_succ, Z.pow_succ_r in Hn by lia.
      apply Z.div_lt_upper_bound; [lia|]. lia. }
    assert (0 ≤ n / 10) by (apply Z.div_pos; lia).
    assert (0 < fuel)%nat.
    { destruct fuel; [|lia]. simpl in H. lia. }
    destruct (IH (n / 10) ((48 + n mod 10) :: acc)) as (ds & E1 & E2 & E3 & E4);
      [lia|simpl; by rewrite Hd|done|].
    exists (ds ++ [48 + n mod 10]). split_and!.
    + rewrite E1, <- app_assoc. done.
    + rewrite forallb_app. simpl. by rewrite E2, Hd.
    + by destruct ds.
    + intros a. rewrite length_app. simpl.
      assert (digits a (ds ++ [48 + n mod 10]) = digits (fst (digits a ds)) [48 + n mod 10]) as ->.
      { clear -E2. revert a; induction ds as [|d ds IH]; intros a; simpl in *; [done|].
        bool_to_prop. by rewrite H, IH. }
      simpl. rewrite Hd. simpl. rewrite E4.
      rewrite Nat2Z.inj_add, Z.pow_add_r by lia. change (10 ^ Z.of_nat 1) with 10.
      pose proof (Z.div_mod n 10). lia.
Qed.

(** [strtol] reads back what [%ld] prints. *)
Lemma strtol_print n :
  LONG_MIN ≤ n ≤ LONG_MAX →
  strtol (print_Z n) = {| st_val := n; st_rest := []; st_conv := true; st_erange := false |}.
Proof.
  intros Hn. unfold print_Z.
  assert (∀ m, 0 ≤ m → 0 ≤ m < 2 ^ Z.of_nat (S (Z.to_nat (Z.log2 m)))) as Hfuel.
  { intros m Hm. split; [done|]. rewrite Nat2Z.inj_succ, Z2Nat.id by apply Z.log2_nonneg.
    destruct (decide (m = 0)) as [->|]; [done|]. apply Z.log2_spec. lia. }
  assert (∀ m, 0 ≤ m → ∃ d ds, print_pos (S (Z.to_nat (Z.log2 m))) m [] = d :: ds ∧
    isdigit d = true ∧ digits 0 (d :: ds) = (m, [])) as Hpos.
  { intros m Hm. destruct (digits_print_pos _ m [] (Hfuel m Hm)) as (ds & E1 & E2 & E3 & E4);
      [done|lia|]. rewrite app_nil_r in E1. destruct ds as [|d ds]; [done|].
    exists d, ds. split; [done|]. split.
    - simpl in E2. by apply andb_true_iff in E2 as [? _].
    - rewrite digits_all by done. rewrite E4. by rewrite Z.mul_0_l, Z.add_0_l. }
  destruct (n <? 0) eqn:Eneg; bool_to_prop.
  - destruct (Hpos (- n)) as (d & ds & E1 & E2 & E3); [lia|]. rewrite E1.
    unfold strtol. change (skip_space (45 :: d :: ds)) with (45 :: d :: ds).
    cbv beta iota. rewrite Z.eqb_refl, E2, E3.
    replace (- - n) with n by lia.
    rewrite (proj2 (Z.ltb_ge n LONG_MIN)), (proj2 (Z.ltb_ge LONG_MAX n)) by lia. done.
  - destruct (Hpos n) as (d & ds & E1 & E2 & E3); [lia|]. rewrite E1.
    pose proof (proj1 (isdigit_range d) E2) as Hd.
    unfold strtol. rewrite skip_space_nonspace by by apply isspace_digit.
    rewrite (proj2 (Z.eqb_neq d 45)), (proj2 (Z.eqb_neq d 43)) by lia.
    rewrite E2, E3.
    rewrite (proj2 (Z.ltb_ge n LONG_MIN)), (proj2 (Z.ltb_ge LONG_MAX n)) by lia. done.
Qed.
