(* ===== verification/BPTree.v ===== *)
(** The B+ tree of [src/legacy/bptree.c], generic in the key order.

    The source has the tree twice, for [long] keys and for string keys.  The
    definitions below are those of the [long] tree with the comparison of keys
    as a class argument; [BPTreeString] instantiates and re-translates the
    string tree.

    A node owns its children, so the children are stored in the node.  A leaf
    is also reachable through the [next] field of its left neighbour: leaves
    therefore carry an address, [next] holds an address, and the range scans
    follow [next] by looking the address up among the leaves of the tree.
    [calloc] hands out consecutive addresses; an oracle [alloc_ok] says which
    of the calls succeed. *)

From S2P Require Import Prelude CString.
From stdpp Require Import base numbers list.
Local Open Scope Z_scope.

(** ** Key orders *)

Class KeyOrder (K : Type) := kcmp : K → K → comparison.

Class KeyOrderLaws (K : Type) `{!KeyOrder K} : Prop := {
  kcmp_eq : ∀ x y : K, kcmp x y = Eq ↔ x = y;
  kcmp_antisym : ∀ x y : K, kcmp y x = CompOpp (kcmp x y);
  kcmp_trans : ∀ x y z : K, kcmp x y = Lt → kcmp y z = Lt → kcmp x z = Lt;
}.

(** [long] keys compare as integers, string keys with [strcmp]. *)
#[global] Instance long_order : KeyOrder Z := Z.compare.
#[global] Instance cstr_order : KeyOrder cstr := strcmp.

#[global] Instance long_order_laws : KeyOrderLaws Z.
Proof.
  split; unfold kcmp, long_order.
  - intros. apply Z.compare_eq_iff.
  - intros. apply Z.compare_antisym.
  - intros x y z. rewrite !Z.compare_lt_iff. lia.
Qed.

#[global] Instance cstr_order_laws : KeyOrderLaws cstr.
Proof.
  split; unfold kcmp, cstr_order;
    eauto using strcmp_eq, strcmp_antisym, strcmp_trans.
Qed.

(** ** Nodes *)

Record leaf (K : Type) := mkLeaf {
  lid : nat;                 (* address of the node *)
  lkeys : list K;            (* keys[0 .. key_count) *)
  lvals : list Z;            (* values[0 .. key_count) *)
  lnext : option nat;        (* next *)
}.
Arguments mkLeaf {K}.
Arguments lid {K}.
Arguments lkeys {K}.
Arguments lvals {K}.
Arguments lnext {K}.

Inductive node (K : Type) :=
| Leaf (l : leaf K)
| Inner (keys : list K) (children : list (node K)).
Arguments Leaf {K}.
Arguments Inner {K}.

Record tree (K : Type) := mkTree {
  root : node K;
  tord : Z;                  (* order *)
  brk : nat;                 (* addresses handed out so far *)
}.
Arguments mkTree {K}.
Arguments root {K}.
Arguments tord {K}.
Arguments brk {K}.

(** [at_child f d cs i]: [f] on child [i]; [d] when there is no such child. *)
Definition at_child {A B : Type} (f : A → B) (d : B) : list A → nat → B :=
  fix go (cs : list A) (i : nat) : B :=
    match cs, i with
    | c :: _, O => f c
    | _ :: cs', S i' => go cs' i'
    | [], _ => d
    end.

(** ** Orders *)

Definition BPTREE_DEFAULT_ORDER : Z := 32.
Definition BPTREE_MAX_ORDER : nat := 64.

Definition normalize_order (order : Z) : nat :=
  if order <=? 8 then 8%nat
  else if order <=? 16 then 16%nat
  else if order <=? 32 then 32%nat
  else 64%nat.

Definition choose_order_for_count (count : Z) : Z :=
  if count <? 4096 then 8
  else if count <? 65536 then 16
  else if count <? 262144 then 32
  else 64.

Section model.
Context {K : Type} `{!KeyOrder K}.
Variable alloc_ok : nat → bool.

Definition kltb (a b : K) : bool := match kcmp a b with Lt => true | _ => false end.
Definition kleb (a b : K) : bool := match kcmp a b with Gt => false | _ => true end.
Definition keqb (a b : K) : bool := match kcmp a b with Eq => true | _ => false end.

Definition tree_order (t : tree K) : nat := normalize_order (tord t).
Definition tree_max_keys (t : tree K) : nat := (tree_order t - 1)%nat.
Definition tree_min_leaf_keys (t : tree K) : nat := (tree_max_keys t / 2)%nat.

(** ** Binary searches *)

Fixpoint lower_bound_loop (fuel : nat) (keys : list K) (key : K) (lo hi : nat) : nat :=
  match fuel with
  | O => lo
  | S f =>
      if (lo <? hi)%nat then
        let mid := (lo + (hi - lo) / 2)%nat in
        match keys !! mid with
        | Some k => if kltb k key then lower_bound_loop f keys key (S mid) hi
                    else lower_bound_loop f keys key lo mid
        | None => lo
        end
      else lo
  end.

Definition lower_bound (keys : list K) (key : K) : nat :=
  lower_bound_loop (length keys) keys key 0 (length keys).

Fixpoint upper_bound_loop (fuel : nat) (keys : list K) (key : K) (lo hi : nat) : nat :=
  match fuel with
  | O => lo
  | S f =>
      if (lo <? hi)%nat then
        let mid := (lo + (hi - lo) / 2)%nat in
        match keys !! mid with
        | Some k => if kleb k key then upper_bound_loop f keys key (S mid) hi
                    else upper_bound_loop f keys key lo mid
        | None => lo
        end
      else lo
  end.

Definition upper_bound (keys : list K) (key : K) : nat :=
  upper_bound_loop (length keys) keys key 0 (length keys).

(** [i < key_count && keys[i] == key]. *)
Definition hit (keys : list K) (i : nat) (key : K) : bool :=
  match keys !! i with Some k => keqb k key | None => false end.

(** ** Creation *)

(** [create_node]: the address when [calloc] succeeds, and the next address. *)
Definition create_node (fr : nat) : option nat * nat :=
  (if alloc_ok fr then Some fr else None, S fr).

Definition empty_leaf (id : nat) : node K := Leaf (mkLeaf id [] [] None).

Definition bptree_create_with_order (ord : Z) : option (tree K) :=
  match create_node 0 with
  | (Some id, fr) => Some (mkTree (empty_leaf id) (Z.of_nat (normalize_order ord)) fr)
  | (None, _) => None
  end.

Definition bptree_create : option (tree K) :=
  match create_node 0 with
  | (Some id, fr) => Some (mkTree (empty_leaf id) BPTREE_DEFAULT_ORDER fr)
  | (None, _) => None
  end.

(** [None]: the root became NULL. *)
Definition bptree_clear (t : tree K) : option (tree K) :=
  match create_node (brk t) with
  | (Some id, fr) => Some (mkTree (empty_leaf id) (tord t) fr)
  | (None, _) => None
  end.

(** ** Lookup *)

(** [while (!node->is_leaf) node = node->children[upper_bound(...)]]. *)
Fixpoint find_leaf (key : K) (n : node K) : option (leaf K) :=
  match n with
  | Leaf l => Some l
  | Inner keys cs => at_child (find_leaf key) None cs (upper_bound keys key)
  end.

Definition bptree_search (t : tree K) (key : K) : option Z :=
  match find_leaf key (root t) with
  | Some l =>
      let i := lower_bound (lkeys l) key in
      if hit (lkeys l) i key then lvals l !! i else None
  | None => None
  end.

(** ** Scans *)

(** The leaves of a subtree, left to right. *)
Fixpoint leaves (n : node K) : list (leaf K) :=
  match n with
  | Leaf l => [l]
  | Inner _ cs => flat_map leaves cs
  end.

(** Dereference of a [next] address. *)
Definition deref (t : tree K) (a : nat) : option (leaf K) :=
  List.find (fun l => Nat.eqb (lid l) a) (leaves (root t)).

Definition entries (l : leaf K) : list (K * Z) := zip (lkeys l) (lvals l).

(** A visitor: the caller's context in, its answer and the context out. *)
Definition visitor (C : Type) : Type := K → Z → C → bool * C.

(** The three ways out of the loop over the entries of one leaf. *)
Inductive scan_out (C : Type) :=
| ScanNext (c : C)       (* go on with the next leaf *)
| ScanEnd (c : C)        (* a key is past the end: return 1 *)
| ScanStop (c : C).      (* the visitor said stop: return 0 *)
Arguments ScanNext {C}.
Arguments ScanEnd {C}.
Arguments ScanStop {C}.

Fixpoint scan_leaf {C} (lo hi : K) (v : visitor C) (es : list (K * Z)) (c : C) : scan_out C :=
  match es with
  | [] => ScanNext c
  | (k, r) :: es' =>
      if kltb k lo then scan_leaf lo hi v es' c
      else if kltb hi k then ScanEnd c
      else match v k r c with
           | (true, c') => scan_leaf lo hi v es' c'
           | (false, c') => ScanStop c'
           end
  end.

(** [while (node) { ...; node = node->next; }]. *)
Fixpoint scan_chain {C} (fuel : nat) (t : tree K) (lo hi : K) (v : visitor C)
    (cur : option (leaf K)) (c : C) : option (bool * C) :=
  match cur with
  | None => Some (true, c)
  | Some l =>
      match fuel with
      | O => None
      | S f =>
          match scan_leaf lo hi v (entries l) c with
          | ScanNext c' =>
              match lnext l with
              | None => Some (true, c')
              | Some a =>
                  match deref t a with
                  | Some l' => scan_chain f t lo hi v (Some l') c'
                  | None => None
                  end
              end
          | ScanEnd c' => Some (true, c')
          | ScanStop c' => Some (false, c')
          end
      end
  end.

(** The result is [None] only if the chain does not end within as many steps
    as the tree has leaves, or [next] dangles. *)
Definition bptree_range_search {C} (t : tree K) (lo hi : K) (v : visitor C) (c : C)
    : option (bool * C) :=
  if kltb hi lo then Some (true, c)
  else scan_chain (length (leaves (root t))) t lo hi v (find_leaf lo (root t)) c.

(** [while (node && !node->is_leaf) node = node->children[0]]. *)
Fixpoint first_leaf (n : node K) : option (leaf K) :=
  match n with
  | Leaf l => Some l
  | Inner _ cs => at_child first_leaf None cs 0
  end.

(** [first_key], [None] for the leaf without keys (the source returns 0). *)
Definition first_key (n : node K) : option K :=
  match first_leaf n with
  | Some l => lkeys l !! 0%nat
  | None => None
  end.

Fixpoint visit_leaf {C} (v : visitor C) (es : list (K * Z)) (c : C) : bool * C :=
  match es with
  | [] => (true, c)
  | (k, r) :: es' =>
      match v k r c with
      | (true, c') => visit_leaf v es' c'
      | (false, c') => (false, c')
      end
  end.

Fixpoint visit_chain {C} (fuel : nat) (t : tree K) (v : visitor C)
    (cur : option (leaf K)) (c : C) : option (bool * C) :=
  match cur with
  | None => Some (true, c)
  | Some l =>
      match fuel with
      | O => None
      | S f =>
          match visit_leaf v (entries l) c with
          | (true, c') =>
              match lnext l with
              | None => Some (true, c')
              | Some a =>
                  match deref t a with
                  | Some l' => visit_chain f t v (Some l') c'
                  | None => None
                  end
              end
          | (false, c') => Some (false, c')
          end
      end
  end.

Definition bptree_visit_pairs {C} (t : tree K) (v : visitor C) (c : C) : option (bool * C) :=
  visit_chain (length (leaves (root t))) t v (first_leaf (root t)) c.

(** ** Insertion *)

(** The outcomes of [insert_recursive]: -1 (the node as the failure leaves
    it), 0, 1 and 2 of the source; [InsCrash] is a write through a NULL
    [right] or a read out of the arrays. *)
Inductive ins_res :=
| InsFail (n : node K)
| InsDup
| InsDone (n : node K)
| InsSplit (n : node K) (promoted_key : K) (new_child : node K)
| InsCrash.

(** [right], created when the node is full: [None] when its [calloc] failed. *)
Definition reserve_right (key_count max_keys fr : nat) : option (option nat) * nat :=
  if (key_count =? max_keys)%nat then
    match create_node fr with
    | (Some id, fr') => (Some (Some id), fr')
    | (None, fr') => (None, fr')
    end
  else (Some None, fr).

(** The leaf branch of [insert_recursive]. *)
Definition leaf_insert (mx mn : nat) (key : K) (row : Z) (l : leaf K) (fr : nat)
    : ins_res * nat :=
  let i := lower_bound (lkeys l) key in
  if hit (lkeys l) i key then (InsDup, fr)
  else
    match reserve_right (length (lkeys l)) mx fr with
    | (None, fr1) => (InsFail (Leaf l), fr1)
    | (Some right_node, fr1) =>
        let ks := insert_at i key (lkeys l) in
        let vs := insert_at i row (lvals l) in
        if (length ks <=? mx)%nat then
          (InsDone (Leaf (mkLeaf (lid l) ks vs (lnext l))), fr1)
        else
          match right_node, drop mn ks with
          | Some rid, pk :: _ =>
              (InsSplit (Leaf (mkLeaf (lid l) (take mn ks) (take mn vs) (Some rid)))
                        pk
                        (Leaf (mkLeaf rid (drop mn ks) (drop mn vs) (lnext l))), fr1)
          | _, _ => (InsCrash, fr1)
          end
    end.

(** The inner branch, after the recursive call on child [i] returned [r]. *)
Definition inner_insert (mx : nat) (keys : list K) (cs : list (node K)) (i : nat)
    (r : ins_res) (fr : nat) : ins_res * nat :=
  match r with
  | InsFail c => (InsFail (Inner keys (<[i:=c]> cs)), fr)
  | InsDup => (InsDup, fr)
  | InsDone c => (InsDone (Inner keys (<[i:=c]> cs)), fr)
  | InsCrash => (InsCrash, fr)
  | InsSplit c child_key child =>
      let cs1 := <[i:=c]> cs in
      match reserve_right (length keys) mx fr with
      | (None, fr1) => (InsFail (Inner keys cs1), fr1)
      | (Some right_node, fr1) =>
          let ks := insert_at i child_key keys in
          let cs2 := insert_at (S i) child cs1 in
          if (length ks <=? mx)%nat then (InsDone (Inner ks cs2), fr1)
          else
            let split := (length ks / 2)%nat in
            match right_node, ks !! split with
            | Some _, Some pk =>
                (InsSplit (Inner (take split ks) (take (S split) cs2))
                          pk
                          (Inner (drop (S split) ks) (drop (S split) cs2)), fr1)
            | _, _ => (InsCrash, fr1)
            end
      end
  end.

Fixpoint insert_recursive (mx mn : nat) (key : K) (row : Z) (n : node K) (fr : nat)
    : ins_res * nat :=
  match n with
  | Leaf l => leaf_insert mx mn key row l fr
  | Inner keys cs =>
      let i := upper_bound keys key in
      let '(r, fr1) :=
        at_child (fun c => insert_recursive mx mn key row c fr) (InsCrash, fr) cs i in
      inner_insert mx keys cs i r fr1
  end.

(** The status of the source and the tree; [None] is a crash. *)
Definition bptree_insert (t : tree K) (key : K) (row : Z) : option (Z * tree K) :=
  match insert_recursive (tree_max_keys t) (tree_min_leaf_keys t) key row (root t) (brk t) with
  | (InsCrash, _) => None
  | (InsFail n, fr) => Some (-1, mkTree n (tord t) fr)
  | (InsDup, fr) => Some (0, mkTree (root t) (tord t) fr)
  | (InsDone n, fr) => Some (1, mkTree n (tord t) fr)
  | (InsSplit n pk child, fr) =>
      match create_node fr with
      | (None, fr1) => Some (-1, mkTree n (tord t) fr1)
      | (Some _, fr1) => Some (1, mkTree (Inner [pk] [n; child]) (tord t) fr1)
      end
  end.

(** ** Deletion: the entry leaves its leaf, the tree is not rebalanced *)

Definition leaf_delete (key : K) (l : leaf K) : option (leaf K) :=
  let i := lower_bound (lkeys l) key in
  if hit (lkeys l) i key
  then Some (mkLeaf (lid l) (remove_at i (lkeys l)) (remove_at i (lvals l)) (lnext l))
  else None.

Fixpoint delete_node (key : K) (n : node K) : option (node K) :=
  match n with
  | Leaf l => Leaf <$> leaf_delete key l
  | Inner keys cs =>
      let i := upper_bound keys key in
      match at_child (delete_node key) None cs i with
      | Some c => Some (Inner keys (<[i:=c]> cs))
      | None => None
      end
  end.

Definition bptree_delete (t : tree K) (key : K) : Z * tree K :=
  match delete_node key (root t) with
  | Some n => (1, mkTree n (tord t) (brk t))
  | None => (0, t)
  end.

(** ** Bulk load *)

(** The check [pairs[i - 1].key >= pairs[i].key] over all pairs. *)
Fixpoint strictly_sorted (ps : list (K * Z)) : bool :=
  match ps with
  | (k1, _) :: (((k2, _) :: _) as ps') => kltb k1 k2 && strictly_sorted ps'
  | _ => true
  end.

(** The leaf level: leaves of [mx] entries, the last with the remainder,
    chained through [next].  Addresses are handed out left to right. *)
Fixpoint build_leaves (fuel mx : nat) (ps : list (K * Z)) (fr : nat)
    : option (list (node K)) * nat :=
  match fuel with
  | O => (Some [], fr)
  | S f =>
      match ps with
      | [] => (Some [], fr)
      | _ =>
          match create_node fr with
          | (None, fr1) => (None, fr1)
          | (Some id, fr1) =>
              let rest := drop mx ps in
              let nxt := match rest with [] => None | _ => Some fr1 end in
              match build_leaves f mx rest fr1 with
              | (None, fr2) => (None, fr2)
              | (Some ns, fr2) =>
                  (Some (Leaf (mkLeaf id (take mx ps).*1 (take mx ps).*2 nxt) :: ns), fr2)
              end
          end
      end
  end.

(** One parent over [group]: its keys are the first keys of all children but
    the first. *)
Definition mk_parent (group : list (node K)) : option (node K) :=
  ks ← mapM first_key (drop 1 group);
  Some (Inner ks group).

(** One round of the [while (level_count > 1)] loop. *)
Fixpoint build_level (fuel ord : nat) (level : list (node K)) (fr : nat)
    : option (list (node K)) * nat :=
  match fuel with
  | O => (Some [], fr)
  | S f =>
      match level with
      | [] => (Some [], fr)
      | _ =>
          match create_node fr with
          | (None, fr1) => (None, fr1)
          | (Some _, fr1) =>
              match mk_parent (take ord level), build_level f ord (drop ord level) fr1 with
              | Some p, (Some ps, fr2) => (Some (p :: ps), fr2)
              | _, (_, fr2) => (None, fr2)
              end
          end
      end
  end.

Fixpoint build_up (fuel ord : nat) (level : list (node K)) (fr : nat)
    : option (node K) * nat :=
  match level with
  | [n] => (Some n, fr)
  | _ =>
      match fuel with
      | O => (None, fr)
      | S f =>
          match build_level (length level) ord level fr with
          | (None, fr1) => (None, fr1)
          | (Some up, fr1) => build_up f ord up fr1
          end
      end
  end.

(** [bptree_build_from_sorted]: the order is chosen before the input is
    checked, and stays changed when the load fails. *)
Definition bptree_build_from_sorted (t : tree K) (ps : list (K * Z)) : bool * tree K :=
  let ord := choose_order_for_count (Z.of_nat (length ps)) in
  let t0 := mkTree (root t) ord (brk t) in
  match ps with
  | [] =>
      match create_node (brk t) with
      | (Some id, fr) => (true, mkTree (empty_leaf id) ord fr)
      | (None, fr) => (false, mkTree (root t) ord fr)
      end
  | _ =>
      if strictly_sorted ps then
        match build_leaves (length ps) (tree_max_keys t0) ps (brk t) with
        | (None, fr) => (false, mkTree (root t) ord fr)
        | (Some level, fr) =>
            match build_up (length level) (tree_order t0) level fr with
            | (Some n, fr1) => (true, mkTree n ord fr1)
            | (None, fr1) => (false, mkTree (root t) ord fr1)
            end
        end
      else (false, t0)
  end.

(** The contents of the tree: the entries of the leaves, left to right. *)
Definition elems_of (n : node K) : list (K * Z) := flat_map entries (leaves n).
Definition elems (t : tree K) : list (K * Z) := elems_of (root t).
End model.

Arguments ScanNext {C}.
Arguments ScanEnd {C}.
Arguments ScanStop {C}.
Arguments InsFail {K}.
Arguments InsDup {K}.
Arguments InsDone {K}.
Arguments InsSplit {K}.
Arguments InsCrash {K}.

(** The oracle of a run without allocation failures. *)
Definition always_ok : nat → bool := fun _ => true.
