(* ===== verification/BPTreeProofs.v ===== *)
(** Correctness of the B+ tree: the ordering invariant of the nodes, the leaf
    chain, and what search, insertion, deletion, range scan and bulk load do to
    the contents. *)

From S2P Require Import Prelude CString BPTree.
From stdpp Require Import base numbers list sorting.
Local Open Scope Z_scope.

(** ** Key order as a relation *)

Section order_facts.
Context {K : Type} `{!KeyOrder K, !KeyOrderLaws K}.
Implicit Types x y z k : K.

Definition klt (x y : K) : Prop := kcmp x y = Lt.
Definition kle (x y : K) : Prop := kcmp x y ≠ Gt.

Lemma kcmp_refl x : kcmp x x = Eq.
Proof using All. by apply kcmp_eq. Qed.

#[global] Instance klt_trans : Transitive klt.
Proof using All. intros x y z. apply kcmp_trans. Qed.

Lemma klt_irrefl x : ¬ klt x x.
Proof using All. unfold klt. by rewrite kcmp_refl. Qed.

Lemma kle_refl x : kle x x.
Proof using All. unfold kle. by rewrite kcmp_refl. Qed.

Lemma kle_lt_eq x y : kle x y ↔ klt x y ∨ x = y.
Proof using All.
  unfold kle, klt. rewrite <- kcmp_eq. destruct (kcmp x y); naive_solver.
Qed.

Lemma not_klt x y : ¬ klt x y ↔ kle y x.
Proof using All.
  unfold kle, klt. rewrite (kcmp_antisym x y). destruct (kcmp x y); naive_solver.
Qed.

Lemma not_kle x y : ¬ kle x y ↔ klt y x.
Proof using All.
  unfold kle, klt. rewrite (kcmp_antisym x y). destruct (kcmp x y); naive_solver.
Qed.

Lemma klt_kle x y : klt x y → kle x y.
Proof using All. rewrite kle_lt_eq. by left. Qed.

Lemma kle_klt_trans x y z : kle x y → klt y z → klt x z.
Proof using All. rewrite kle_lt_eq. intros [?| ->] ?; [by etrans|done]. Qed.

Lemma klt_kle_trans x y z : klt x y → kle y z → klt x z.
Proof using All. rewrite kle_lt_eq. intros ? [?| <-]; [by etrans|done]. Qed.

Lemma kltb_true x y : kltb x y = true ↔ klt x y.
Proof. unfold kltb, klt. destruct (kcmp x y); naive_solver. Qed.

Lemma kltb_false x y : kltb x y = false ↔ kle y x.
Proof using All.
  rewrite <- not_klt, <- kltb_true. destruct (kltb x y); naive_solver.
Qed.

Lemma kleb_true x y : kleb x y = true ↔ kle x y.
Proof. unfold kleb, kle. destruct (kcmp x y); naive_solver. Qed.

Lemma kleb_false x y : kleb x y = false ↔ klt y x.
Proof using All.
  rewrite <- not_kle, <- kleb_true. destruct (kleb x y); naive_solver.
Qed.

Lemma keqb_true x y : keqb x y = true ↔ x = y.
Proof using All. unfold keqb. rewrite <- kcmp_eq. destruct (kcmp x y); naive_solver. Qed.

#[global] Instance key_eq_dec : EqDecision K.
Proof using All.
  intros x y. destruct (kcmp x y) eqn:E.
  - left. by apply kcmp_eq.
  - right. intros ->. by rewrite kcmp_refl in E.
  - right. intros ->. by rewrite kcmp_refl in E.
Qed.

(** *** Binary searches *)

Lemma lower_bound_loop_spec fuel keys key lo hi :
  StronglySorted klt keys → (lo ≤ hi ≤ length keys)%nat → (hi - lo ≤ fuel)%nat →
  (∀ j k, (j < lo)%nat → keys !! j = Some k → klt k key) →
  (∀ j k, (hi ≤ j)%nat → keys !! j = Some k → kle key k) →
  let i := lower_bound_loop fuel keys key lo hi in
  (i ≤ length keys)%nat ∧
  (∀ j k, (j < i)%nat → keys !! j = Some k → klt k key) ∧
  (∀ j k, (i ≤ j)%nat → keys !! j = Some k → kle key k).
Proof using All.
  revert lo hi; induction fuel as [|fuel IH]; intros lo hi Hs Hb Hf Hlo Hhi;
    cbn [lower_bound_loop upper_bound_loop]; cbv zeta.
  - assert (lo = hi) by lia. subst. split_and!; [lia|done|done].
  - destruct (lo <? hi)%nat eqn:E; bool_to_prop;
      [|assert (lo = hi) by lia; subst; split_and!; [lia|done|done]].
    set (mid := (lo + (hi - lo) / 2)%nat).
    assert (lo ≤ mid < hi)%nat.
    { subst mid. pose proof (Nat.div_lt (hi - lo) 2). lia. }
    destruct (lookup_lt_is_Some_2 keys mid) as [km Hm]; [lia|]. rewrite Hm.
    destruct (kltb km key) eqn:Ek.
    + apply kltb_true in Ek. apply IH; [done|lia|lia| |done].
      intros j k Hj Hk. destruct (decide (j = mid)) as [->|]; [congruence|].
      etrans; [|exact Ek]. eapply (StronglySorted_lookup klt); [done| |done|done]. lia.
    + apply kltb_false in Ek. apply IH; [done|lia|lia|done|].
      intros j k Hj Hk. destruct (decide (j = mid)) as [->|]; [congruence|].
      apply klt_kle. eapply kle_klt_trans; [exact Ek|].
      eapply (StronglySorted_lookup klt); [done| |done|done]. lia.
Qed.

Lemma lower_bound_spec keys key :
  StronglySorted klt keys →
  let i := lower_bound keys key in
  (i ≤ length keys)%nat ∧
  (∀ j k, (j < i)%nat → keys !! j = Some k → klt k key) ∧
  (∀ j k, (i ≤ j)%nat → keys !! j = Some k → kle key k).
Proof using All.
  intros Hs. apply lower_bound_loop_spec; [done|lia|lia|lia|].
  intros j k Hj Hk. apply lookup_lt_Some in Hk. lia.
Qed.

Lemma upper_bound_loop_spec fuel keys key lo hi :
  StronglySorted klt keys → (lo ≤ hi ≤ length keys)%nat → (hi - lo ≤ fuel)%nat →
  (∀ j k, (j < lo)%nat → keys !! j = Some k → kle k key) →
  (∀ j k, (hi ≤ j)%nat → keys !! j = Some k → klt key k) →
  let i := upper_bound_loop fuel keys key lo hi in
  (i ≤ length keys)%nat ∧
  (∀ j k, (j < i)%nat → keys !! j = Some k → kle k key) ∧
  (∀ j k, (i ≤ j)%nat → keys !! j = Some k → klt key k).
Proof using All.
  revert lo hi; induction fuel as [|fuel IH]; intros lo hi Hs Hb Hf Hlo Hhi;
    cbn [lower_bound_loop upper_bound_loop]; cbv zeta.
  - assert (lo = hi) by lia. subst. split_and!; [lia|done|done].
  - destruct (lo <? hi)%nat eqn:E; bool_to_prop;
      [|assert (lo = hi) by lia; subst; split_and!; [lia|done|done]].
    set (mid := (lo + (hi - lo) / 2)%nat).
    assert (lo ≤ mid < hi)%nat.
    { subst mid. pose proof (Nat.div_lt (hi - lo) 2). lia. }
    destruct (lookup_lt_is_Some_2 keys mid) as [km Hm]; [lia|]. rewrite Hm.
    destruct (kleb km key) eqn:Ek.
    + apply kleb_true in Ek. apply IH; [done|lia|lia| |done].
      intros j k Hj Hk. destruct (decide (j = mid)) as [->|]; [congruence|].
      apply klt_kle. eapply klt_kle_trans; [|exact Ek].
      eapply (StronglySorted_lookup klt); [done| |done|done]. lia.
    + apply kleb_false in Ek. apply IH; [done|lia|lia|done|].
      intros j k Hj Hk. destruct (decide (j = mid)) as [->|]; [congruence|].
      etrans; [exact Ek|]. eapply (StronglySorted_lookup klt); [done| |done|done]. lia.
Qed.

Lemma upper_bound_spec keys key :
  StronglySorted klt keys →
  let i := upper_bound keys key in
  (i ≤ length keys)%nat ∧
  (∀ j k, (j < i)%nat → keys !! j = Some k → kle k key) ∧
  (∀ j k, (i ≤ j)%nat → keys !! j = Some k → klt key k).
Proof using All.
  intros Hs. apply upper_bound_loop_spec; [done|lia|lia|lia|].
  intros j k Hj Hk. apply lookup_lt_Some in Hk. lia.
Qed.

Lemma hit_lower_bound keys key :
  StronglySorted klt keys → hit keys (lower_bound keys key) key = true ↔ key ∈ keys.
Proof using All.
  intros Hs. destruct (lower_bound_spec keys key Hs) as (Hi & Hlt & Hge). unfold hit. split.
  - destruct (keys !! lower_bound keys key) eqn:E; [|done]. rewrite keqb_true. intros ->.
    eapply list_elem_of_lookup_2; done.
  - intros Hin. apply list_elem_of_lookup in Hin as [j Hj].
    destruct (decide (j < lower_bound keys key)%nat).
    { exfalso. eapply klt_irrefl, Hlt; [|done]. lia. }
    destruct (lookup_lt_is_Some_2 keys (lower_bound keys key)) as [k Hk].
    { apply lookup_lt_Some in Hj. lia. }
    rewrite Hk. apply keqb_true. assert (kle key k) as Hle by (eapply Hge; [|exact Hk]; lia).
    apply kle_lt_eq in Hle as [Hlt'|]; [|done].
    destruct (decide (j = lower_bound keys key)) as [->|]; [congruence|].
    exfalso. eapply (klt_irrefl key). etrans; [exact Hlt'|].
    eapply (StronglySorted_lookup klt); [done| |done|done]. lia.
Qed.

Lemma hit_at keys i key : hit keys i key = true → keys !! i = Some key.
Proof using All.
  unfold hit. destruct (keys !! i); [|done]. rewrite keqb_true. congruence.
Qed.
End order_facts.

(** ** Structure of nodes *)

Lemma at_child_lookup {A B} (f : A → B) d cs i :
  at_child f d cs i = match cs !! i with Some c => f c | None => d end.
Proof. revert i; induction cs as [|c cs IH]; intros [|i]; simpl; done. Qed.

Section tree_facts.
Context {K : Type} `{!KeyOrder K, !KeyOrderLaws K}.
Implicit Types (key k : K) (n c : node K) (l : leaf K) (ls : list (leaf K)).
Implicit Types (keys : list K) (cs : list (node K)).

(** Lower bounds are inclusive, upper bounds exclusive; [None] is no bound. *)
Definition ge_lo (lo : option K) (k : K) : Prop :=
  match lo with Some b => kle b k | None => True end.
Definition gt_lo (lo : option K) (k : K) : Prop :=
  match lo with Some b => klt b k | None => True end.
Definition lt_hi (hi : option K) (k : K) : Prop :=
  match hi with Some b => klt k b | None => True end.

(** The bounds of child [i] of a node with bounds [lo], [hi]. *)
Definition sep_lo (lo : option K) (keys : list K) (i : nat) : option K :=
  match i with O => lo | S j => keys !! j end.
Definition sep_hi (hi : option K) (keys : list K) (i : nat) : option K :=
  match keys !! i with Some k => Some k | None => hi end.

(** The invariant of a subtree of height [h] whose keys lie in [lo, hi):
    sorted keys, no node fuller than [mx], as many values as keys in a leaf
    and one more child than keys in an inner node, all leaves at one depth. *)
Inductive node_ok (mx : nat) : nat → option K → option K → node K → Prop :=
| leaf_node_ok lo hi l :
    (length (lkeys l) ≤ mx)%nat → length (lvals l) = length (lkeys l) →
    StronglySorted klt (lkeys l) → Forall (fun k => ge_lo lo k ∧ lt_hi hi k) (lkeys l) →
    node_ok mx 0 lo hi (Leaf l)
| inner_node_ok h lo hi keys cs :
    (length keys ≤ mx)%nat → length cs = S (length keys) →
    StronglySorted klt keys → Forall (fun k => gt_lo lo k ∧ lt_hi hi k) keys →
    (∀ i c, cs !! i = Some c → node_ok mx h (sep_lo lo keys i) (sep_hi hi keys i) c) →
    node_ok mx (S h) lo hi (Inner keys cs).

(** The leaf chain: every [next] is the address of the following leaf. *)
Definition head_id (ls : list (leaf K)) (e : option nat) : option nat :=
  match ls with [] => e | l :: _ => Some (lid l) end.

Fixpoint chain (ls : list (leaf K)) (e : option nat) : Prop :=
  match ls with
  | [] => True
  | l :: ls' => lnext l = head_id ls' e ∧ chain ls' e
  end.

Definition chain_ok (ls : list (leaf K)) (fr : nat) : Prop :=
  chain ls None ∧ NoDup (lid <$> ls) ∧ Forall (fun l => (lid l < fr)%nat) ls.

(** The invariant of a tree. *)
Definition tree_ok (t : tree K) : Prop :=
  (∃ h, node_ok (tree_max_keys t) h None None (root t)) ∧
  chain_ok (leaves (root t)) (brk t).

Lemma head_id_app ls1 ls2 e : head_id (ls1 ++ ls2) e = head_id ls1 (head_id ls2 e).
Proof. by destruct ls1. Qed.

Lemma chain_app ls1 ls2 e :
  chain (ls1 ++ ls2) e ↔ chain ls1 (head_id ls2 e) ∧ chain ls2 e.
Proof.
  induction ls1 as [|l ls1 IH]; simpl; [tauto|]. rewrite IH, head_id_app. tauto.
Qed.

Lemma leaves_inner keys cs : leaves (Inner keys cs) = flat_map leaves cs.
Proof. done. Qed.

Lemma leaves_split keys cs i c :
  cs !! i = Some c →
  leaves (Inner keys cs) =
    flat_map leaves (take i cs) ++ leaves c ++ flat_map leaves (drop (S i) cs).
Proof.
  intros H. rewrite leaves_inner. rewrite <- (take_drop_middle cs i c H) at 1.
  by rewrite flat_map_app.
Qed.

Lemma elems_of_app ls1 ls2 :
  flat_map entries (ls1 ++ ls2) = flat_map (@entries K) ls1 ++ flat_map entries ls2.
Proof. apply flat_map_app. Qed.

Lemma entries_keys l : length (lvals l) = length (lkeys l) → (entries l).*1 = lkeys l.
Proof. intros H. unfold entries. rewrite fst_zip; [done|]. lia. Qed.

Lemma gt_ge_lo lo k : gt_lo lo k → ge_lo lo k.
Proof using All. destruct lo; simpl; [apply klt_kle|done]. Qed.

Lemma ge_lo_weaken lo lo' k :
  match lo' with Some b => ge_lo lo b | None => lo = None end → ge_lo lo' k → ge_lo lo k.
Proof using All.
  destruct lo' as [b'|]; [|intros ->; done]. destruct lo as [b|]; simpl; [|done].
  rewrite !kle_lt_eq. intros [?| ->] [?| ->]; auto. left. by etrans.
Qed.

(** All keys below a node lie within its bounds. *)
Lemma node_ok_bounds mx h lo hi n :
  node_ok mx h lo hi n →
  Forall (fun l => length (lvals l) = length (lkeys l) ∧
            Forall (fun k => ge_lo lo k ∧ lt_hi hi k) (lkeys l)) (leaves n).
Proof using All.
  induction 1 as [lo hi l ? ? ? ?|h lo hi keys cs Hmx Hlen Hs Hr Hc IH].
  - simpl. by repeat constructor.
  - rewrite leaves_inner. apply Forall_forall. intros l Hl.
    apply list_elem_of_In, in_flat_map in Hl as (c & Hc' & Hl).
    apply list_elem_of_In, list_elem_of_lookup in Hc' as [i Hi].
    apply list_elem_of_In in Hl. specialize (IH i c Hi).
    eapply Forall_forall in IH as [? IH]; [|done]. split; [done|].
    eapply Forall_impl; [exact IH|]. intros k [H1 H2]. simpl in *. split.
    + destruct i as [|j]; [done|]. simpl in H1.
      destruct (lookup_lt_is_Some_2 keys j) as [kj Hj].
      { apply lookup_lt_Some in Hi. lia. }
      rewrite Hj in H1. eapply Forall_lookup_1 in Hr as [Hr _]; [|exact Hj].
      eapply (ge_lo_weaken _ (Some kj)); [|done]. by apply gt_ge_lo.
    + unfold sep_hi in H2. destruct (keys !! i) as [ki|] eqn:Ei; [|done].
      eapply Forall_lookup_1 in Hr as [_ Hr]; [|exact Ei].
      destruct hi; simpl in *; [|done]. by etrans.
Qed.

Lemma node_ok_keys_bounds mx h lo hi n :
  node_ok mx h lo hi n → Forall (fun k => ge_lo lo k ∧ lt_hi hi k) (elems_of n).*1.
Proof using All.
  intros H. apply node_ok_bounds in H. unfold elems_of.
  induction H as [|l ls [Hl1 Hl2] _ IH]; simpl; [done|].
  rewrite fmap_app, Forall_app. split; [|done]. by rewrite entries_keys.
Qed.

(** The contents are strictly sorted by key. *)
Lemma elems_app_of cs : flat_map entries (flat_map leaves cs) = flat_map (@elems_of K) cs.
Proof.
  induction cs as [|c cs IH]; simpl; [done|]. by rewrite flat_map_app, IH.
Qed.

Lemma elems_of_inner keys cs : elems_of (Inner keys cs) = flat_map elems_of cs.
Proof. unfold elems_of at 1. rewrite leaves_inner. apply elems_app_of. Qed.

Lemma children_sorted (cs : list (node K)) (bounds : nat → option K) :
  (∀ i c, cs !! i = Some c →
     StronglySorted klt (elems_of c).*1 ∧
     Forall (fun k => ge_lo (bounds i) k ∧
                      (S i < length cs → lt_hi (bounds (S i)) k)%nat) (elems_of c).*1) →
  (∀ i, (0 < i)%nat → (i < length cs)%nat → is_Some (bounds i)) →
  (∀ i j b b', (i < j)%nat → bounds i = Some b → bounds j = Some b' → (0 < i)%nat →
      (j < length cs)%nat → kle b b') →
  StronglySorted klt (flat_map elems_of cs).*1.
Proof using All.
  intros Hc Hb Hmono.
  induction cs as [|c cs IH] using rev_ind; simpl; [constructor|].
  rewrite flat_map_app. simpl. rewrite app_nil_r, fmap_app.
  apply StronglySorted_app_iff. split_and!.
  - apply IH.
    + intros i d Hi. destruct (Hc i d) as [H1 H2].
      { rewrite lookup_app_l; [done|]. by eapply lookup_lt_Some. }
      split; [done|]. eapply Forall_impl; [exact H2|]. intros k [? H3]. split; [done|].
      intros. apply H3. rewrite length_app. simpl. lia.
    + intros. apply Hb; [done|]. rewrite length_app. simpl. lia.
    + intros. eapply (Hmono i j); [done..|]. rewrite length_app. simpl. lia.
  - apply (Hc (length cs)). by rewrite list_lookup_middle.
  - intros x y Hx Hy. destruct (Hc (length cs) c) as [_ Hlast]; [by rewrite list_lookup_middle|].
    eapply Forall_forall in Hlast as [Hy1 _]; [|exact Hy].
    apply list_elem_of_fmap in Hx as ([x' rx] & -> & Hx). simpl.
    apply list_elem_of_In, in_flat_map in Hx as (d & Hd & Hx).
    apply list_elem_of_In, list_elem_of_lookup in Hd as [i Hi].
    pose proof (lookup_lt_Some _ _ _ Hi).
    destruct (Hc i d) as [_ Hd]; [by rewrite lookup_app_l|].
    eapply Forall_forall in Hd as [_ Hd];
      [|apply list_elem_of_fmap; exists (x', rx); split; [done|by apply list_elem_of_In]].
    simpl in Hd. rewrite length_app in Hd, Hb, Hmono. simpl in Hd, Hb, Hmono.
    specialize (Hd ltac:(lia)).
    destruct (Hb (S i)) as [b Eb]; [lia|lia|]. rewrite Eb in Hd. simpl in Hd.
    destruct (Hb (length cs)) as [b' Eb']; [lia|lia|]. rewrite Eb' in Hy1. simpl in Hy1.
    eapply klt_kle_trans; [exact Hd|].
    destruct (decide (S i = length cs)) as [E|]; [congruence|].
    rewrite kle_lt_eq in Hy1 |- *. assert (kle b b') as Hbb.
    { eapply (Hmono (S i) (length cs)); [lia|done|done|lia|lia]. }
    rewrite kle_lt_eq in Hbb. destruct Hbb as [?| ->], Hy1 as [?| ->]; auto. left. by etrans.
Qed.

Lemma node_ok_sorted mx h lo hi n :
  node_ok mx h lo hi n → StronglySorted klt (elems_of n).*1.
Proof using All.
  induction 1 as [lo hi l ? Hl Hs ?|h lo hi keys cs Hmx Hlen Hs Hr Hc IH].
  - unfold elems_of. simpl. rewrite app_nil_r. by rewrite entries_keys.
  - rewrite elems_of_inner. apply (children_sorted cs (sep_lo lo keys)).
    + intros i c Hi. split; [by eapply IH|].
      eapply Forall_impl; [eapply node_ok_keys_bounds; by eapply Hc|].
      intros k [H1 H2]. split; [done|]. intros Hlt. unfold sep_hi in H2. simpl.
      destruct (lookup_lt_is_Some_2 keys i) as [ki E]; [lia|]. by rewrite E in H2 |- *.
    + intros [|i] ? ?; [lia|]. simpl. apply lookup_lt_is_Some_2. lia.
    + intros [|i] [|j] b b' Hij Hb Hb' ? ?; try lia. simpl in *.
      apply klt_kle. eapply (StronglySorted_lookup klt); [done| |done|done]. lia.
Qed.

Lemma chain_of_sorted_NoDup (es : list (K * Z)) :
  StronglySorted klt es.*1 → NoDup es.*1.
Proof using All.
  induction es as [|[k r] es IH]; simpl; [constructor|].
  rewrite StronglySorted_cons_iff. intros [Hk Hs]. constructor; [|auto].
  intros Hin. eapply Forall_forall in Hk; [|done]. by eapply klt_irrefl.
Qed.
End tree_facts.

(** ** Descent *)

Section descent.
Context {K : Type} `{!KeyOrder K, !KeyOrderLaws K}.
Implicit Types (key k : K) (n c : node K) (l : leaf K) (ls : list (leaf K)).
Implicit Types (keys : list K) (cs : list (node K)).

Definition leaf_below key l : Prop := Forall (fun k => klt k key) (lkeys l).
Definition leaf_above key l : Prop := Forall (fun k => klt key k) (lkeys l).

(** The components of [inner_node_ok] without the bound on the fullness. *)
Definition inner_shape (mx h : nat) (lo hi : option K) keys cs : Prop :=
  length cs = S (length keys) ∧ StronglySorted klt keys ∧
  Forall (fun k => gt_lo lo k ∧ lt_hi hi k) keys ∧
  (∀ i c, cs !! i = Some c → node_ok mx h (sep_lo lo keys i) (sep_hi hi keys i) c).

Lemma node_ok_inner mx h lo hi keys cs :
  (length keys ≤ mx)%nat → inner_shape mx h lo hi keys cs →
  node_ok mx (S h) lo hi (Inner keys cs).
Proof using Type. intros ? (?&?&?&?). by constructor. Qed.

Lemma node_ok_leaf_inv mx h lo hi l :
  node_ok mx h lo hi (Leaf l) →
  h = 0%nat ∧ (length (lkeys l) ≤ mx)%nat ∧ length (lvals l) = length (lkeys l) ∧
  StronglySorted klt (lkeys l) ∧ Forall (fun k => ge_lo lo k ∧ lt_hi hi k) (lkeys l).
Proof using Type. inversion 1; subst; done. Qed.

Lemma node_ok_inner_inv mx h lo hi keys cs :
  node_ok mx h lo hi (Inner keys cs) →
  ∃ h', h = S h' ∧ (length keys ≤ mx)%nat ∧ inner_shape mx h' lo hi keys cs.
Proof using Type. inversion 1; subst. eexists. unfold inner_shape. done. Qed.

(** [upper_bound] picks the child whose bounds enclose the key. *)
Lemma child_choice mx h lo hi keys cs key :
  inner_shape mx h lo hi keys cs → ge_lo lo key → lt_hi hi key →
  let i := upper_bound keys key in
  ∃ c, cs !! i = Some c ∧ node_ok mx h (sep_lo lo keys i) (sep_hi hi keys i) c ∧
       ge_lo (sep_lo lo keys i) key ∧ lt_hi (sep_hi hi keys i) key.
Proof using All.
  intros (Hlen & Hs & Hr & Hc) Hlo Hhi i.
  destruct (upper_bound_spec keys key Hs) as (Hi & Hle & Hgt). fold i in Hi, Hle, Hgt.
  destruct (lookup_lt_is_Some_2 cs i) as [c Ec]; [lia|].
  exists c. split_and!; [done|by apply Hc| |].
  - destruct i as [|j]; [done|]. simpl.
    destruct (lookup_lt_is_Some_2 keys j) as [kj Ej]; [lia|]. rewrite Ej. simpl.
    eapply Hle; [|exact Ej]. lia.
  - unfold sep_hi. destruct (keys !! i) as [ki|] eqn:Ei; [|done]. eapply Hgt; [|exact Ei]. lia.
Qed.

Lemma left_children_below mx h lo hi keys cs key :
  inner_shape mx h lo hi keys cs →
  Forall (leaf_below key) (flat_map leaves (take (upper_bound keys key) cs)).
Proof using All.
  intros (Hlen & Hs & Hr & Hc).
  destruct (upper_bound_spec keys key Hs) as (Hi & Hle & Hgt).
  apply Forall_forall. intros l Hl.
  apply list_elem_of_In, in_flat_map in Hl as (c & Hc' & Hl).
  apply list_elem_of_In, list_elem_of_lookup in Hc' as [j Hj]. apply list_elem_of_In in Hl.
  assert (j < upper_bound keys key)%nat.
  { apply lookup_lt_Some in Hj. rewrite length_take in Hj. lia. }
  rewrite lookup_take_lt in Hj by lia.
  apply Hc, node_ok_bounds in Hj. eapply Forall_forall in Hj as [_ Hj]; [|exact Hl].
  eapply Forall_impl; [exact Hj|]. intros k [_ Hk]. simpl in Hk. unfold sep_hi in Hk.
  destruct (lookup_lt_is_Some_2 keys j) as [kj Ej]; [lia|]. rewrite Ej in Hk. simpl in Hk.
  eapply klt_kle_trans; [exact Hk|]. eapply Hle; [|exact Ej]. lia.
Qed.

Lemma right_children_above mx h lo hi keys cs key :
  inner_shape mx h lo hi keys cs →
  Forall (leaf_above key) (flat_map leaves (drop (S (upper_bound keys key)) cs)).
Proof using All.
  intros (Hlen & Hs & Hr & Hc).
  destruct (upper_bound_spec keys key Hs) as (Hi & Hle & Hgt).
  apply Forall_forall. intros l Hl.
  apply list_elem_of_In, in_flat_map in Hl as (c & Hc' & Hl).
  apply list_elem_of_In, list_elem_of_lookup in Hc' as [j Hj]. apply list_elem_of_In in Hl.
  rewrite lookup_drop in Hj. pose proof (lookup_lt_Some _ _ _ Hj) as Hlt.
  apply Hc, node_ok_bounds in Hj. eapply Forall_forall in Hj as [_ Hj]; [|exact Hl].
  eapply Forall_impl; [exact Hj|]. intros k [Hk _]. simpl in Hk.
  destruct (lookup_lt_is_Some_2 keys (upper_bound keys key + j)) as [kj Ej]; [lia|].
  rewrite Ej in Hk. simpl in Hk.
  eapply klt_kle_trans; [|exact Hk]. eapply Hgt; [|exact Ej]. lia.
Qed.

(** The leaf of a descent, and the leaves on its two sides. *)
Lemma find_leaf_spec mx h lo hi n key :
  node_ok mx h lo hi n → ge_lo lo key → lt_hi hi key →
  ∃ l ls1 ls2, find_leaf key n = Some l ∧ leaves n = ls1 ++ l :: ls2 ∧
    Forall (leaf_below key) ls1 ∧ Forall (leaf_above key) ls2 ∧
    StronglySorted klt (lkeys l) ∧ length (lvals l) = length (lkeys l).
Proof using All.
  intros H. revert key.
  induction H as [lo hi l ? ? ? ?|h lo hi keys cs Hmx Hlen Hs Hr Hc IH]; intros key Hlo Hhi.
  - exists l, [], []. simpl. split_and!; auto.
  - assert (inner_shape mx h lo hi keys cs) as Hsh by done.
    destruct (child_choice mx h lo hi keys cs key Hsh Hlo Hhi) as (c & Ec & Hok & Hl & Hh).
    destruct (IH _ _ Ec key Hl Hh) as (l & ls1 & ls2 & Ef & El & Hb & Ha & ? & ?).
    exists l, (flat_map leaves (take (upper_bound keys key) cs) ++ ls1),
      (ls2 ++ flat_map leaves (drop (S (upper_bound keys key)) cs)).
    split_and!; [| | | |done|done].
    + simpl. by rewrite at_child_lookup, Ec.
    + rewrite (leaves_split keys cs _ c Ec), El. by rewrite <- !app_assoc.
    + apply Forall_app. split; [by eapply left_children_below|done].
    + apply Forall_app. split; [done|by eapply right_children_above].
Qed.

(** *** Changes of one child *)

Lemma inner_shape_update mx h lo hi keys cs i c :
  inner_shape mx h lo hi keys cs → (i < length cs)%nat →
  node_ok mx h (sep_lo lo keys i) (sep_hi hi keys i) c →
  inner_shape mx h lo hi keys (<[i:=c]> cs).
Proof using Type.
  intros (Hlen & Hs & Hr & Hc) Hi Hok. split_and!; [by rewrite length_insert|done|done|].
  intros j d Hj. destruct (decide (i = j)) as [<-|].
  - rewrite list_lookup_insert_eq in Hj by done. by simplify_eq.
  - rewrite list_lookup_insert_ne in Hj by done. auto.
Qed.

Lemma inner_shape_insert mx h lo hi keys cs i cl ck cr :
  inner_shape mx h lo hi keys cs → (i ≤ length keys)%nat →
  gt_lo (sep_lo lo keys i) ck → lt_hi (sep_hi hi keys i) ck →
  node_ok mx h (sep_lo lo keys i) (Some ck) cl →
  node_ok mx h (Some ck) (sep_hi hi keys i) cr →
  gt_lo lo ck → lt_hi hi ck →
  inner_shape mx h lo hi (insert_at i ck keys) (insert_at (S i) cr (<[i:=cl]> cs)).
Proof using All.
  intros (Hlen & Hs & Hr & Hc) Hi Hlo Hhi Hcl Hcr Hlo' Hhi'. split_and!.
  - rewrite !length_insert_at, length_insert. lia.
  - apply StronglySorted_insert_at; [apply _|done| |].
    + intros j y Hj Ey. destruct i as [|i']; [lia|]. simpl in Hlo.
      destruct (lookup_lt_is_Some_2 keys i') as [ki Ei]; [lia|]. rewrite Ei in Hlo. simpl in Hlo.
      destruct (decide (j = i')) as [->|]; [congruence|].
      etrans; [|exact Hlo]. eapply (StronglySorted_lookup klt); [done| |done|done]. lia.
    + intros j y Hj Ey. unfold sep_hi in Hhi.
      destruct (lookup_lt_is_Some_2 keys i) as [ki Ei].
      { apply lookup_lt_Some in Ey. lia. }
      rewrite Ei in Hhi. simpl in Hhi.
      destruct (decide (j = i)) as [->|]; [congruence|].
      etrans; [exact Hhi|]. eapply (StronglySorted_lookup klt); [done| |done|done]. lia.
  - by apply Forall_insert_at.
  - intros j d Ed.
    assert (∀ j', (j' < i)%nat → sep_lo lo (insert_at i ck keys) j' = sep_lo lo keys j') as E1.
    { intros [|j'] ?; [done|]. simpl. by rewrite lookup_insert_at_lt by lia. }
    destruct (decide (j < i)%nat) as [Hlt|].
    { rewrite lookup_insert_at_lt in Ed by (rewrite ?length_insert; lia).
      rewrite list_lookup_insert_ne in Ed by lia. rewrite E1 by done.
      unfold sep_hi. rewrite lookup_insert_at_lt by lia. by apply Hc. }
    destruct (decide (j = i)) as [->|].
    { rewrite lookup_insert_at_lt in Ed by (rewrite ?length_insert; lia).
      rewrite list_lookup_insert_eq in Ed by lia. simplify_eq.
      assert (sep_lo lo (insert_at i ck keys) i = sep_lo lo keys i) as ->.
      { destruct i as [|i']; [done|]. simpl. by rewrite lookup_insert_at_lt by lia. }
      unfold sep_hi. by rewrite lookup_insert_at_eq by lia. }
    destruct (decide (j = S i)) as [->|].
    { rewrite lookup_insert_at_eq in Ed by (rewrite length_insert; lia). simplify_eq.
      simpl. rewrite lookup_insert_at_eq by lia.
      unfold sep_hi at 1. rewrite lookup_insert_at_gt by lia.
      by replace (S i - 1)%nat with i by lia. }
    rewrite lookup_insert_at_gt in Ed by (rewrite ?length_insert; lia).
    rewrite list_lookup_insert_ne in Ed by lia.
    destruct j as [|j]; [lia|]. replace (S j - 1)%nat with j in Ed by lia.
    simpl. rewrite lookup_insert_at_gt by lia.
    unfold sep_hi. rewrite lookup_insert_at_gt by lia.
    replace (S j - 1)%nat with j by lia.
    destruct j as [|j]; [lia|]. replace (S j - 1)%nat with j by lia.
    apply Hc in Ed. simpl in Ed. done.
Qed.

Lemma inner_shape_split mx h lo hi keys cs s pk :
  inner_shape mx h lo hi keys cs → keys !! s = Some pk →
  inner_shape mx h lo (Some pk) (take s keys) (take (S s) cs) ∧
  inner_shape mx h (Some pk) hi (drop (S s) keys) (drop (S s) cs) ∧
  gt_lo lo pk ∧ lt_hi hi pk.
Proof using All.
  intros (Hlen & Hs & Hr & Hc) Epk. pose proof (lookup_lt_Some _ _ _ Epk) as Hlt.
  split_and!.
  - split_and!; [rewrite !length_take; lia|by apply StronglySorted_take| |].
    + apply Forall_lookup. intros j k Ej.
      assert (j < s)%nat.
      { apply lookup_lt_Some in Ej. rewrite length_take in Ej. lia. }
      rewrite lookup_take_lt in Ej by lia. split.
      * by eapply Forall_lookup_1 in Hr as [? _].
      * simpl. eapply (StronglySorted_lookup klt); [done| |done|done]. lia.
    + intros j c Ej.
      assert (j ≤ s)%nat.
      { apply lookup_lt_Some in Ej. rewrite length_take in Ej. lia. }
      rewrite lookup_take_lt in Ej by lia. apply Hc in Ej.
      assert (sep_lo lo (take s keys) j = sep_lo lo keys j) as ->.
      { destruct j as [|j]; [done|]. simpl. by rewrite lookup_take_lt by lia. }
      unfold sep_hi in *. destruct (decide (j = s)) as [->|].
      * rewrite Epk in Ej. rewrite lookup_ge_None_2; [done|]. rewrite length_take. lia.
      * rewrite lookup_take_lt by lia.
        destruct (lookup_lt_is_Some_2 keys j) as [kj E']; [lia|]. by rewrite E' in *.
  - split_and!; [rewrite !length_drop; lia|by apply StronglySorted_drop| |].
    + apply Forall_lookup. intros j k Ej. rewrite lookup_drop in Ej. split.
      * simpl. eapply (StronglySorted_lookup klt); [done| |done|done]. lia.
      * by eapply Forall_lookup_1 in Hr as [_ ?].
    + intros j c Ej. rewrite lookup_drop in Ej. apply Hc in Ej. unfold sep_hi in *.
      rewrite lookup_drop. destruct j as [|j].
      * rewrite Nat.add_0_r in *. simpl in *. by rewrite Epk in Ej.
      * simpl in *. rewrite lookup_drop. by rewrite Nat.add_succ_r in *.
  - by eapply Forall_lookup_1 in Hr as [? _].
  - by eapply Forall_lookup_1 in Hr as [_ ?].
Qed.
End descent.

(** ** Insertion *)

Section insertion.
Context {K : Type} `{!KeyOrder K, !KeyOrderLaws K}.
Implicit Types (key k : K) (n c : node K) (l : leaf K) (ls : list (leaf K)).
Implicit Types (keys : list K) (cs : list (node K)).

(** What an insertion puts in the place of one leaf. *)
Definition leaf_repl key (row : Z) (fr fr' : nat) l ls : Prop :=
  (∃ l', ls = [l'] ∧ lid l' = lid l ∧ lnext l' = lnext l ∧
     entries l' ≡ₚ (key, row) :: entries l) ∨
  (∃ l1 l2, ls = [l1; l2] ∧ lid l1 = lid l ∧ lnext l1 = Some (lid l2) ∧
     lnext l2 = lnext l ∧ (fr ≤ lid l2 < fr')%nat ∧
     entries l1 ++ entries l2 ≡ₚ (key, row) :: entries l).

Definition leaves_repl key row fr fr' ls ls' : Prop :=
  ∃ ls1 l ls2 new, ls = ls1 ++ l :: ls2 ∧ ls' = ls1 ++ new ++ ls2 ∧
    leaf_repl key row fr fr' l new.

(** What [insert_recursive] guarantees when no allocation fails. *)
Definition ins_spec mx h (lo hi : option K) key row n fr (r : ins_res) fr' : Prop :=
  (fr ≤ fr')%nat ∧
  match r with
  | InsDup => key ∈ (elems_of n).*1
  | InsDone n' => node_ok mx h lo hi n' ∧
      leaves_repl key row fr fr' (leaves n) (leaves n')
  | InsSplit n1 pk n2 =>
      gt_lo lo pk ∧ lt_hi hi pk ∧ node_ok mx h lo (Some pk) n1 ∧
      node_ok mx h (Some pk) hi n2 ∧
      leaves_repl key row fr fr' (leaves n) (leaves n1 ++ leaves n2)
  | InsFail _ | InsCrash => False
  end.

Lemma leaf_repl_mono key row fr fr' fr'' l ls :
  (fr' ≤ fr'')%nat → leaf_repl key row fr fr' l ls → leaf_repl key row fr fr'' l ls.
Proof using Type.
  intros Hle [H|(l1 & l2 & ? & ? & ? & ? & ? & ?)]; [by left|right].
  exists l1, l2. split_and!; try done; lia.
Qed.

Lemma leaves_repl_mono key row fr fr' fr'' ls ls' :
  (fr' ≤ fr'')%nat → leaves_repl key row fr fr' ls ls' → leaves_repl key row fr fr'' ls ls'.
Proof using Type.
  intros Hle (ls1 & l & ls2 & new & ? & ? & ?).
  exists ls1, l, ls2, new. eauto using leaf_repl_mono.
Qed.

Lemma leaves_repl_context key row fr fr' ls ls' a b :
  leaves_repl key row fr fr' ls ls' →
  leaves_repl key row fr fr' (a ++ ls ++ b) (a ++ ls' ++ b).
Proof using Type.
  intros (ls1 & l & ls2 & new & -> & -> & H).
  exists (a ++ ls1), l, (ls2 ++ b), new. by rewrite <- !app_assoc.
Qed.

Lemma reserve_right_ok kc mx fr :
  ∃ o fr1, reserve_right always_ok kc mx fr = (Some o, fr1) ∧ (fr ≤ fr1)%nat ∧
    ((kc = mx → o = Some fr ∧ fr1 = S fr)%nat) ∧ (kc ≠ mx → fr1 = fr).
Proof using Type.
  unfold reserve_right. destruct (kc =? mx)%nat eqn:E; bool_to_prop; simpl.
  - exists (Some fr), (S fr). split_and!; [done|lia|done|done].
  - exists None, fr. split_and!; [done|lia|done|done].
Qed.

Lemma leaf_insert_spec mx mn lo hi l key row fr :
  node_ok mx 0 lo hi (Leaf l) → ge_lo lo key → lt_hi hi key → (1 ≤ mn ≤ mx)%nat →
  let '(r, fr') := leaf_insert always_ok mx mn key row l fr in
  ins_spec mx 0 lo hi key row (Leaf l) fr r fr'.
Proof using All.
  intros Hok Hlo Hhi Hmn. apply node_ok_leaf_inv in Hok as (_ & Hmx & Hv & Hs & Hr).
  unfold leaf_insert. set (i := lower_bound (lkeys l) key).
  destruct (hit (lkeys l) i key) eqn:Eh.
  { split; [done|]. unfold elems_of. simpl. rewrite app_nil_r, entries_keys by done.
    eapply list_elem_of_lookup_2, hit_at, Eh. }
  destruct (reserve_right_ok (length (lkeys l)) mx fr) as (o & fr1 & -> & Hfr & Hfull & Hnot).
  destruct (lower_bound_spec (lkeys l) key Hs) as (Hi & Hlt & Hge). fold i in Hi, Hlt, Hge.
  assert (StronglySorted klt (insert_at i key (lkeys l))) as Hs'.
  { apply StronglySorted_insert_at; [apply _|done|done|]. intros j y Hj Ey.
    specialize (Hge j y Hj Ey). apply kle_lt_eq in Hge as [|<-]; [done|].
    exfalso. assert (key ∈ lkeys l) as Hin by by eapply list_elem_of_lookup_2.
    apply (hit_lower_bound (lkeys l)) in Hin; [|done]. fold i in Hin. congruence. }
  assert (Forall (fun k => ge_lo lo k ∧ lt_hi hi k) (insert_at i key (lkeys l))) as Hr'.
  { by apply Forall_insert_at. }
  assert (zip (insert_at i key (lkeys l)) (insert_at i row (lvals l))
            ≡ₚ (key, row) :: entries l) as Hp.
  { rewrite zip_insert_at by done. apply Permutation_insert_at. }
  destruct (length (insert_at i key (lkeys l)) <=? mx)%nat eqn:El; bool_to_prop.
  { split; [done|]. split.
    - constructor; simpl; [done|by rewrite !length_insert_at, Hv|done|done].
    - exists [], l, [], [mkLeaf (lid l) (insert_at i key (lkeys l)) (insert_at i row (lvals l)) (lnext l)].
      split_and!; [done|done|]. left. eexists. split; [done|]. done. }
  rewrite length_insert_at in El. destruct Hfull as [-> ->]; [lia|].
  set (ks := insert_at i key (lkeys l)) in *. set (vs := insert_at i row (lvals l)) in *.
  assert (length ks = S mx) as Lk by (subst ks; rewrite length_insert_at; lia).
  assert (length vs = S mx) as Lv by (subst vs; rewrite length_insert_at; lia).
  destruct (drop mn ks) as [|pk ks2] eqn:Ed.
  { apply (f_equal length) in Ed. rewrite length_drop in Ed. simpl in Ed. lia. }
  rewrite <- Ed.
  assert (ks !! mn = Some pk) as Epk.
  { rewrite <- (Nat.add_0_r mn), <- lookup_drop. by rewrite Ed. }
  destruct (lookup_lt_is_Some_2 ks 0) as [k0 E0]; [lia|].
  split; [lia|]. split_and!.
  - eapply Forall_lookup_1 in Hr' as [Hge0 _]; [|exact E0].
    assert (klt k0 pk) by (eapply (StronglySorted_lookup klt); [done| |done|done]; lia).
    destruct lo; simpl in *; [|done]. by eapply kle_klt_trans.
  - by eapply Forall_lookup_1 in Hr' as [_ ?].
  - constructor; simpl; [rewrite length_take; lia|rewrite !length_take; lia|by apply StronglySorted_take|].
    apply Forall_lookup. intros j k Ej.
    assert (j < mn)%nat by (apply lookup_lt_Some in Ej; rewrite length_take in Ej; lia).
    rewrite lookup_take_lt in Ej by lia. split; [by eapply Forall_lookup_1 in Hr' as [? _]|].
    simpl. eapply (StronglySorted_lookup klt); [done| |done|done]. lia.
  - constructor; simpl; [rewrite length_drop; lia|rewrite !length_drop; lia|by apply StronglySorted_drop|].
    apply Forall_lookup. intros j k Ej. rewrite lookup_drop in Ej.
    split; [|by eapply Forall_lookup_1 in Hr' as [_ ?]]. simpl. apply kle_lt_eq.
    destruct j as [|j]; [right; rewrite Nat.add_0_r in Ej; congruence|left].
    eapply (StronglySorted_lookup klt); [done| |done|done]. lia.
  - exists [], l, [], [mkLeaf (lid l) (take mn ks) (take mn vs) (Some fr); mkLeaf fr (drop mn ks) (drop mn vs) (lnext l)].
    split_and!; [done|done|]. right. do 2 eexists. split; [done|]. simpl.
    split_and!; [done|done|done|lia|lia|]. unfold entries at 1 2. simpl.
    rewrite zip_take, zip_drop by lia. by rewrite take_drop.
Qed.

Lemma flat_map_insert cs i c d :
  cs !! i = Some d →
  flat_map leaves (<[i:=c]> cs) =
    flat_map leaves (take i cs) ++ leaves c ++ flat_map leaves (drop (S i) cs).
Proof using Type.
  intros H. assert (i < length cs)%nat by by eapply lookup_lt_Some.
  rewrite (insert_take_drop cs i c) by done. by rewrite flat_map_app.
Qed.

Lemma flat_map_insert_split cs i c c' d :
  cs !! i = Some d →
  flat_map leaves (insert_at (S i) c' (<[i:=c]> cs)) =
    flat_map leaves (take i cs) ++ (leaves c ++ leaves c') ++ flat_map leaves (drop (S i) cs).
Proof using Type.
  intros H. assert (i < length cs)%nat by by eapply lookup_lt_Some.
  assert (length (take i cs ++ [c]) = S i) as L.
  { rewrite length_app, length_take. simpl. lia. }
  rewrite (insert_take_drop cs i c) by done.
  rewrite cons_middle, app_assoc. rewrite <- L at 1.
  rewrite insert_at_split, <- app_assoc, !flat_map_app. simpl.
  by rewrite <- !app_assoc.
Qed.

Lemma insert_recursive_spec mx mn h lo hi n key row fr :
  node_ok mx h lo hi n → ge_lo lo key → lt_hi hi key → (1 ≤ mn ≤ mx)%nat → (2 ≤ mx)%nat →
  let '(r, fr') := insert_recursive always_ok mx mn key row n fr in
  ins_spec mx h lo hi key row n fr r fr'.
Proof using All.
  intros H Hlo Hhi Hmn Hmx2. revert Hlo Hhi.
  induction H as [lo hi l ? ? ? ?|h lo hi keys cs Hmx Hlen Hs Hr Hc IH]; intros Hlo Hhi.
  { simpl. apply leaf_insert_spec; [by constructor|done|done|done]. }
  assert (inner_shape mx h lo hi keys cs) as Hsh by done.
  destruct (child_choice mx h lo hi keys cs key Hsh Hlo Hhi) as (c & Ec & Hok & Hl & Hh).
  cbn [insert_recursive]. rewrite at_child_lookup, Ec.
  set (i := upper_bound keys key) in *.
  specialize (IH i c Ec Hl Hh).
  destruct (insert_recursive always_ok mx mn key row c fr) as [r fr1] eqn:Er.
  destruct IH as [Hfr IH]. pose proof (lookup_lt_Some _ _ _ Ec) as Hi.
  assert (∀ key', key' ∈ (elems_of c).*1 → key' ∈ (elems_of (Inner keys cs)).*1) as Hsub.
  { intros key' Hk. rewrite elems_of_inner, <- (take_drop_middle cs i c Ec), flat_map_app.
    simpl. rewrite !fmap_app, !elem_of_app. auto. }
  destruct r as [c'| |c'|c' ck cn|]; simpl; try done.
  - split; [done|]. by apply Hsub.
  - destruct IH as [IHok IHl]. split; [done|]. split.
    + apply node_ok_inner; [done|]. by apply inner_shape_update.
    + rewrite (leaves_inner keys (<[i:=c']> cs)), (flat_map_insert _ _ _ _ Ec),
        (leaves_split _ _ _ _ Ec).
      by apply leaves_repl_context.
  - destruct IH as (Hgt & Hlt & Hok1 & Hok2 & Hrep).
    destruct (reserve_right_ok (length keys) mx fr1) as (o & fr2 & -> & Hfr2 & Hfull & _).
    assert (gt_lo lo ck ∧ lt_hi hi ck) as [Hgt' Hlt'].
    { split.
      - destruct i as [|i']; [done|]. simpl in Hgt.
        destruct (lookup_lt_is_Some_2 keys i') as [ki Ei]; [lia|]. rewrite Ei in Hgt.
        eapply Forall_lookup_1 in Hr as [Hr _]; [|exact Ei].
        destruct lo; simpl in *; [|done]. by etrans.
      - unfold sep_hi in Hlt. destruct (keys !! i) as [ki|] eqn:Ei; [|done].
        eapply Forall_lookup_1 in Hr as [_ Hr]; [|exact Ei].
        destruct hi; simpl in *; [|done]. by etrans. }
    assert (inner_shape mx h lo hi (insert_at i ck keys) (insert_at (S i) cn (<[i:=c']> cs))) as Hsh'.
    { apply inner_shape_insert; try done. lia. }
    assert (leaves_repl key row fr fr2 (leaves (Inner keys cs))
      (flat_map leaves (insert_at (S i) cn (<[i:=c']> cs)))) as Hrep'.
    { rewrite (flat_map_insert_split _ _ _ _ _ Ec), (leaves_split _ _ _ _ Ec).
      apply leaves_repl_context. by eapply leaves_repl_mono. }
    destruct (length (insert_at i ck keys) <=? mx)%nat eqn:El; bool_to_prop.
    { split; [lia|]. split; [by apply node_ok_inner|]. exact Hrep'. }
    rewrite length_insert_at in El. destruct Hfull as [-> ->]; [lia|].
    change (fst (Nat.divmod (length (insert_at i ck keys)) 1 0 1))
      with (length (insert_at i ck keys) / 2)%nat.
    set (ks := insert_at i ck keys) in *. set (cs2 := insert_at (S i) cn (<[i:=c']> cs)) in *.
    assert (length ks = S mx) as Lk by (subst ks; rewrite length_insert_at; lia).
    assert (length ks / 2 < S mx)%nat as Hs1.
    { rewrite Lk. apply Nat.div_lt; lia. }
    destruct (lookup_lt_is_Some_2 ks (length ks / 2)) as [pk Epk]; [lia|]. rewrite Epk.
    destruct (inner_shape_split _ _ _ _ _ _ _ _ Hsh' Epk) as (Hs2 & Hs3 & Hs4 & Hs5).
    split; [lia|]. split_and!; [done|done| | |].
    + apply node_ok_inner; [|done]. rewrite length_take. lia.
    + apply node_ok_inner; [|done]. rewrite length_drop. lia.
    + rewrite (leaves_inner (take _ _)), (leaves_inner (drop _ _)), <- flat_map_app, take_drop.
      exact Hrep'.
Qed.
End insertion.
