(* ===== verification/BPTreeSpec.v ===== *)
(** The B+ tree as an ordered map: a specification on sorted association
    lists, the refinement of every tree operation to it, and the interface
    [OrderedIndex] through which the table layer uses an index. *)

From S2P Require Import Prelude CString BPTree BPTreeProofs.
From stdpp Require Import base numbers list sorting.
Local Open Scope Z_scope.

(** ** Sorted association lists *)

Section assoc.
Context {K : Type} `{!KeyOrder K}.

Fixpoint assoc_get (key : K) (es : list (K * Z)) : option Z :=
  match es with
  | [] => None
  | (k, r) :: es' => if keqb k key then Some r else assoc_get key es'
  end.

Fixpoint assoc_put (key : K) (row : Z) (es : list (K * Z)) : list (K * Z) :=
  match es with
  | [] => [(key, row)]
  | (k, r) :: es' => if kltb key k then (key, row) :: es else (k, r) :: assoc_put key row es'
  end.

Definition assoc_del (key : K) (es : list (K * Z)) : list (K * Z) :=
  List.filter (fun e => negb (keqb (fst e) key)) es.

(** The entries with keys in [lo, hi]. *)
Definition assoc_range (lo hi : K) (es : list (K * Z)) : list (K * Z) :=
  List.filter (fun e => kleb lo (fst e) && kleb (fst e) hi) es.
End assoc.

Section assoc_facts.
Context {K : Type} `{!KeyOrder K, !KeyOrderLaws K}.
Implicit Types (key : K) (es : list (K * Z)).

Abbreviation sorted_keys es := (StronglySorted klt (fst <$> es)).

Lemma assoc_get_Some key r es :
  sorted_keys es → assoc_get key es = Some r ↔ (key, r) ∈ es.
Proof using All.
  induction es as [|[k r'] es IH]; simpl.
  - intros _. split; [done|]. by intros ?%not_elem_of_nil.
  - rewrite StronglySorted_cons_iff. intros [Hk Hs]. rewrite elem_of_cons.
    destruct (keqb k key) eqn:E.
    + apply keqb_true in E as ->. split; [intros [= ->]; by left|].
      intros [[= ->]|Hin]; [done|]. exfalso.
      eapply (klt_irrefl key), Forall_forall; [exact Hk|].
      apply list_elem_of_fmap. by exists (key, r).
    + rewrite IH by done. split; [by right|]. intros [[= -> ->]|]; [|done].
      assert (keqb k k = true) by by apply keqb_true. congruence.
Qed.

Lemma assoc_get_None key es : assoc_get key es = None ↔ key ∉ es.*1.
Proof using All.
  induction es as [|[k r'] es IH]; simpl.
  - split; [|done]. intros _. apply not_elem_of_nil.
  - rewrite not_elem_of_cons. destruct (keqb k key) eqn:E.
    + apply keqb_true in E as ->. naive_solver.
    + rewrite IH. split; [|naive_solver]. intros ?. split; [|done]. intros ->.
      assert (keqb k k = true) by by apply keqb_true. congruence.
Qed.

Lemma assoc_put_perm key row es : assoc_put key row es ≡ₚ (key, row) :: es.
Proof.
  induction es as [|[k r] es IH]; simpl; [done|]. case_if; [done|].
  rewrite IH. apply Permutation_swap.
Qed.

Lemma assoc_put_sorted key row es :
  key ∉ es.*1 → sorted_keys es → sorted_keys (assoc_put key row es).
Proof using All.
  induction es as [|[k r] es IH]; simpl; intros Hin Hs; [by repeat constructor|].
  apply not_elem_of_cons in Hin as [Hne Hin].
  apply StronglySorted_cons_iff in Hs as [Hk Hs]. destruct (kltb key k) eqn:E; simpl.
  - apply kltb_true in E. repeat (constructor; try done).
    eapply Forall_impl; [exact Hk|]. intros. by etrans.
  - apply kltb_false, kle_lt_eq in E as [E|]; [|congruence].
    constructor; [by apply IH|]. rewrite assoc_put_perm. simpl. by constructor.
Qed.

(** Strictly sorted lists with the same entries are equal. *)
Lemma sorted_keys_unique es es' :
  sorted_keys es → sorted_keys es' → es ≡ₚ es' → es = es'.
Proof using All.
  revert es'; induction es as [|[k r] es IH]; intros es' Hs Hs' Hp.
  { by apply Permutation_nil_l in Hp. }
  destruct es' as [|[k' r'] es']; [by apply Permutation_nil_r in Hp|].
  simpl in *. apply StronglySorted_cons_iff in Hs as [Hk Hs].
  apply StronglySorted_cons_iff in Hs' as [Hk' Hs'].
  assert ((k, r) ∈ (k', r') :: es') as H1 by (rewrite <- Hp; by left).
  assert ((k', r') ∈ (k, r) :: es) as H2 by (rewrite Hp; by left).
  assert ((k, r) = (k', r')) as [= -> ->].
  { apply elem_of_cons in H1 as [|H1]; [done|]. apply elem_of_cons in H2 as [|H2]; [done|].
    exfalso. eapply (klt_irrefl k). etrans.
    - eapply (Forall_forall _ _) in Hk; [exact Hk|]. apply list_elem_of_fmap. by exists (k', r').
    - eapply (Forall_forall _ _) in Hk'; [exact Hk'|]. apply list_elem_of_fmap. by exists (k, r). }
  f_equal. apply IH; [done|done|]. by apply Permutation_cons_inv in Hp.
Qed.

Lemma assoc_del_notin key es : key ∉ es.*1 → assoc_del key es = es.
Proof using All.
  induction es as [|[k r] es IH]; simpl; [done|]. rewrite not_elem_of_cons. intros [Hne Hin].
  destruct (keqb k key) eqn:E; [by apply keqb_true in E; congruence|]. simpl.
  f_equal. by apply IH.
Qed.

Lemma assoc_del_app key es1 es2 :
  assoc_del key (es1 ++ es2) = assoc_del key es1 ++ assoc_del key es2.
Proof. apply List.filter_app. Qed.

Lemma assoc_range_app lo hi es1 es2 :
  assoc_range lo hi (es1 ++ es2) = assoc_range lo hi es1 ++ assoc_range lo hi es2.
Proof. apply List.filter_app. Qed.

Lemma filter_none {A} (f : A → bool) l : Forall (fun x => f x = false) l → List.filter f l = [].
Proof. induction 1 as [|x l Hx _ IH]; simpl; [done|]. by rewrite Hx. Qed.
Lemma klt_sorted_NoDup (ks : list K) : StronglySorted klt ks → NoDup ks.
Proof.
  induction 1 as [|k ks _ IH Hk]; constructor; [|done].
  intros Hin. eapply Forall_forall in Hk; [|exact Hin]. by eapply klt_irrefl.
Qed.
End assoc_facts.

(** ** Replacement of leaves and the chain *)

Section replace.
Context {K : Type} `{!KeyOrder K, !KeyOrderLaws K}.
Implicit Types (key : K) (ls : list (leaf K)).

Lemma leaves_repl_elems key row fr fr' ls ls' :
  leaves_repl key row fr fr' ls ls' →
  flat_map entries ls' ≡ₚ (key, row) :: flat_map entries ls.
Proof using Type.
  intros (ls1 & l & ls2 & new & -> & -> & H). rewrite !flat_map_app. simpl.
  rewrite (Permutation_middle (flat_map entries ls1)). apply Permutation_app_head.
  destruct H as [(l' & -> & _ & _ & Hp)|(l1 & l2 & -> & _ & _ & _ & _ & Hp)]; simpl.
  - rewrite app_nil_r, Hp. done.
  - rewrite app_nil_r, Hp. done.
Qed.

Lemma leaves_repl_chain key row fr fr' ls ls' :
  (fr ≤ fr')%nat → leaves_repl key row fr fr' ls ls' → chain_ok ls fr → chain_ok ls' fr'.
Proof using Type.
  intros Hle (ls1 & l & ls2 & new & -> & -> & H) (Hc & Hnd & Hlt).
  apply chain_app in Hc as [Hc1 [Hn Hc2]]. simpl in *.
  rewrite fmap_app in Hnd. simpl in Hnd. apply NoDup_app in Hnd as (Hnd1 & Hdisj & Hnd2).
  apply NoDup_cons in Hnd2 as [Hl Hnd2].
  apply Forall_app in Hlt as [Hlt1 Hlt2]. apply Forall_cons in Hlt2 as [Hlt Hlt2].
  assert (∀ x, x ∈ lid <$> ls1 ++ ls2 → (x < fr)%nat) as Hb.
  { intros x Hx. apply list_elem_of_fmap in Hx as (y & -> & Hy).
    apply elem_of_app in Hy as [Hy|Hy]; [eapply Forall_forall in Hlt1|eapply Forall_forall in Hlt2]; done. }
  rewrite fmap_app in Hb. setoid_rewrite elem_of_app in Hb.
  assert (∀ L, Forall (fun l => (lid l < fr)%nat) L → Forall (fun l : leaf K => (lid l < fr')%nat) L) as Hw.
  { intros L HL. eapply Forall_impl; [exact HL|]. simpl. lia. }
  destruct H as [(l' & -> & Ei & En & _)|(l1 & l2 & -> & Ei & En1 & En2 & Hfr & _)].
  - split_and!.
    + apply chain_app. simpl. rewrite Ei, En. done.
    + rewrite fmap_app. simpl. rewrite Ei. apply NoDup_app. split_and!; [done|done|].
      by apply NoDup_cons.
    + apply Forall_app. split; [auto|]. constructor; [rewrite Ei; lia|auto].
  - split_and!.
    + apply chain_app. simpl. rewrite Ei, En1, En2. done.
    + rewrite fmap_app. simpl. rewrite Ei. apply NoDup_app. split_and!; [done| |].
      * intros x Hx. specialize (Hdisj x Hx). rewrite elem_of_cons in Hdisj |- *.
        rewrite elem_of_cons. intros [->|[->|Hin]]; [tauto| |tauto].
        specialize (Hb _ (or_introl Hx)). lia.
      * apply NoDup_cons. split.
        { rewrite elem_of_cons. intros [E|?]; [lia|done]. }
        apply NoDup_cons. split; [|done]. intros Hin. specialize (Hb _ (or_intror Hin)). lia.
    + apply Forall_app. split; [auto|]. constructor; [rewrite Ei; lia|].
      constructor; [lia|auto].
Qed.

(** A leaf whose entries change but not its address or link. *)
Lemma chain_ok_update ls1 l l' ls2 fr :
  lid l' = lid l → lnext l' = lnext l →
  chain_ok (ls1 ++ l :: ls2) fr → chain_ok (ls1 ++ l' :: ls2) fr.
Proof using Type.
  intros Ei En (Hc & Hnd & Hlt). split_and!.
  - apply chain_app in Hc as [Hc1 [Hn Hc2]]. apply chain_app. simpl in *. by rewrite Ei, En.
  - rewrite fmap_app in *. simpl in *. by rewrite Ei.
  - apply Forall_app in Hlt as [? [? ?]%Forall_cons]. apply Forall_app. split; [done|].
    constructor; [by rewrite Ei|done].
Qed.
End replace.

Lemma normalize_order_cases o :
  (normalize_order o = 8 ∨ normalize_order o = 16 ∨ normalize_order o = 32 ∨ normalize_order o = 64)%nat.
Proof. unfold normalize_order. repeat case_if; auto. Qed.

Lemma tree_keys_bounds {K} (t : tree K) :
  (7 ≤ tree_max_keys t ≤ 63)%nat ∧ (1 ≤ tree_min_leaf_keys t ≤ tree_max_keys t)%nat.
Proof.
  unfold tree_min_leaf_keys, tree_max_keys, tree_order.
  destruct (normalize_order_cases (tord t)) as [->|[->|[->| ->]]]; simpl; lia.
Qed.

(** ** Refinement of the operations *)

Section refinement.
Context {K : Type} `{!KeyOrder K, !KeyOrderLaws K}.
Implicit Types (key lo hi : K) (t : tree K) (n : node K) (ls : list (leaf K)).

Lemma tree_ok_sorted t : tree_ok t → StronglySorted klt (elems t).*1.
Proof using All. intros [[h H] _]. by eapply node_ok_sorted. Qed.

Lemma below_notin key (l : list K) : Forall (fun k => klt k key) l → key ∉ l.
Proof using All.
  intros H Hin. eapply Forall_forall in H; [|exact Hin]. by eapply klt_irrefl.
Qed.

Lemma above_notin key (l : list K) : Forall (klt key) l → key ∉ l.
Proof using All.
  intros H Hin. eapply Forall_forall in H; [|exact Hin]. by eapply klt_irrefl.
Qed.

Lemma leaf_below_not_in key ls :
  Forall (leaf_below key) ls → Forall (fun l => length (lvals l) = length (lkeys l)) ls →
  Forall (fun k => klt k key) (flat_map entries ls).*1.
Proof using Type.
  induction ls as [|l ls IH]; simpl; [done|]. intros [? ?]%Forall_cons [? ?]%Forall_cons.
  rewrite fmap_app, Forall_app. split; [by rewrite entries_keys|auto].
Qed.

Lemma leaf_above_not_in key ls :
  Forall (leaf_above key) ls → Forall (fun l => length (lvals l) = length (lkeys l)) ls →
  Forall (fun k => klt key k) (flat_map entries ls).*1.
Proof using Type.
  induction ls as [|l ls IH]; simpl; [done|]. intros [? ?]%Forall_cons [? ?]%Forall_cons.
  rewrite fmap_app, Forall_app. split; [by rewrite entries_keys|auto].
Qed.

Lemma node_ok_lens mx h olo ohi n :
  node_ok mx h olo ohi n → Forall (fun l => length (lvals l) = length (lkeys l)) (leaves n).
Proof using All.
  intros H. eapply Forall_impl; [by eapply node_ok_bounds|]. by intros ? [? _].
Qed.

(** Search finds the row of the key, and nothing for an absent key. *)
Lemma search_refines t key : tree_ok t → bptree_search t key = assoc_get key (elems t).
Proof using All.
  intros Ht. pose proof (tree_ok_sorted t Ht) as Hs. destruct Ht as [[h Hok] _].
  pose proof (node_ok_lens _ _ _ _ _ Hok) as Hlen.
  destruct (find_leaf_spec _ _ _ _ _ key Hok) as (l & ls1 & ls2 & Ef & El & Hb & Ha & Hsl & Hvl);
    [done|done|].
  unfold bptree_search. rewrite Ef. cbv zeta. destruct (hit _ _ key) eqn:Eh.
  - apply hit_at in Eh. destruct (lookup_lt_is_Some_2 (lvals l) (lower_bound (lkeys l) key)) as [r Er].
    { rewrite Hvl. by eapply lookup_lt_Some. }
    rewrite Er. symmetry. apply assoc_get_Some; [done|]. unfold elems, elems_of. rewrite El.
    rewrite flat_map_app. simpl. rewrite !elem_of_app. right. left.
    eapply list_elem_of_lookup_2, lookup_zip_Some. done.
  - symmetry. apply assoc_get_None. unfold elems, elems_of. rewrite El in *.
    apply Forall_app in Hlen as [? [? ?]%Forall_cons].
    rewrite flat_map_app. simpl. rewrite !fmap_app, !elem_of_app, entries_keys by done.
    intros [Hin|[Hin|Hin]].
    + revert Hin. by apply below_notin, leaf_below_not_in.
    + apply hit_lower_bound in Hin; [|done]. congruence.
    + revert Hin. by apply above_notin, leaf_above_not_in.
Qed.

Lemma insert_refines t key row :
  tree_ok t →
  match assoc_get key (elems t) with
  | Some _ => ∃ t', bptree_insert always_ok t key row = Some (0, t') ∧ tree_ok t' ∧
                    elems t' = elems t ∧ tord t' = tord t
  | None => ∃ t', bptree_insert always_ok t key row = Some (1, t') ∧ tree_ok t' ∧
                  elems t' = assoc_put key row (elems t) ∧ tord t' = tord t
  end.
Proof using All.
  intros Ht. pose proof (tree_ok_sorted t Ht) as Hs. destruct Ht as [[h Hok] Hch].
  destruct (tree_keys_bounds t) as [Hb1 Hb2].
  pose proof (insert_recursive_spec _ (tree_min_leaf_keys t) _ _ _ _ key row (brk t) Hok) as Hspec.
  unfold bptree_insert.
  destruct (insert_recursive always_ok _ _ key row (root t) (brk t)) as [r fr'] eqn:Er.
  destruct Hspec as [Hfr Hspec]; [done|done|done|lia|].
  assert (∀ n fr, node_ok (tree_max_keys t) fr None None n →
    flat_map entries (leaves n) ≡ₚ (key, row) :: elems t → assoc_get key (elems t) = None ∧
    elems_of n = assoc_put key row (elems t)) as Hfin.
  { intros n fr Hn Hp. apply node_ok_sorted in Hn.
    assert (key ∉ (elems t).*1) as Hni.
    { apply chain_of_sorted_NoDup in Hn. unfold elems_of in Hn. rewrite Hp in Hn. simpl in Hn.
      by apply NoDup_cons in Hn as [? _]. }
    split; [by apply assoc_get_None|].
    apply sorted_keys_unique; [done|by apply assoc_put_sorted|].
    rewrite assoc_put_perm. exact Hp. }
  destruct r as [n| |n|n1 pk n2|]; [done| | | |done].
  - destruct (assoc_get key (elems t)) eqn:Eg; [|by apply assoc_get_None in Eg].
    exists (mkTree (root t) (tord t) fr'). split_and!; [done| |done|done].
    split; [by exists h|]. destruct Hch as (? & ? & Hlt). split_and!; [done|done|].
    eapply Forall_impl; [exact Hlt|]. simpl. lia.
  - destruct Hspec as [Hn Hrep]. pose proof (leaves_repl_elems _ _ _ _ _ _ Hrep) as Hp.
    destruct (Hfin n h Hn Hp) as [-> He].
    exists (mkTree n (tord t) fr'). split_and!; [done| |done|done].
    split; [by exists h|]. by eapply leaves_repl_chain.
  - destruct Hspec as (_ & _ & H1 & H2 & Hrep).
    assert (leaves (Inner [pk] [n1; n2]) = leaves n1 ++ leaves n2) as El.
    { simpl. by rewrite app_nil_r. }
    assert (node_ok (tree_max_keys t) (S h) None None (Inner [pk] [n1; n2])) as Hn.
    { constructor; simpl; [lia|done|by repeat constructor|by repeat constructor|].
      intros [|[|i]] c; simpl; intros [= <-]; done. }
    pose proof (leaves_repl_elems _ _ _ _ _ _ Hrep) as Hp. rewrite <- El in Hp.
    destruct (Hfin _ _ Hn Hp) as [-> He]. simpl.
    exists (mkTree (Inner [pk] [n1; n2]) (tord t) (S fr')). split_and!; [done| |done|done].
    split; [by exists (S h)|]. cbn [root brk]. rewrite El.
    eapply leaves_repl_chain; [|by eapply leaves_repl_mono, Hrep; lia|done]. lia.
Qed.

(** Deletion of a key from the leaf that holds it. *)
Lemma delete_node_spec mx h olo ohi n key :
  node_ok mx h olo ohi n → ge_lo olo key → lt_hi ohi key →
  match delete_node key n with
  | None => True
  | Some n' => node_ok mx h olo ohi n' ∧
      ∃ l l' ls1 ls2, leaves n = ls1 ++ l :: ls2 ∧ leaves n' = ls1 ++ l' :: ls2 ∧
        leaf_delete key l = Some l'
  end ∧
  (∃ l, find_leaf key n = Some l ∧ (delete_node key n = None ↔ leaf_delete key l = None)).
Proof using All.
  intros H Hlo Hhi. revert Hlo Hhi.
  induction H as [olo ohi l Hmx Hv Hs Hr|h olo ohi keys cs Hmx Hlen Hs Hr Hc IH]; intros Hlo Hhi.
  - simpl. destruct (leaf_delete key l) as [l'|] eqn:E; simpl.
    + split; [|exists l; by rewrite E]. split; [|by exists l, l', [], []].
      unfold leaf_delete in E. destruct (hit _ _ key) eqn:Eh; [|done]. simplify_eq.
      pose proof (lookup_lt_Some _ _ _ (hit_at _ _ _ Eh)).
      assert (∀ P : K → Prop, Forall P (lkeys l) → Forall P (remove_at (lower_bound (lkeys l) key) (lkeys l))) as Hf.
      { intros P HP. unfold remove_at. apply Forall_app. split; [by apply Forall_take|by apply Forall_drop]. }
      constructor; simpl.
      * rewrite length_remove_at by done. lia.
      * rewrite !length_remove_at by lia. lia.
      * unfold remove_at. apply StronglySorted_app_iff. split_and!;
          [by apply StronglySorted_take|by apply StronglySorted_drop|].
        intros x y Hx Hy. apply list_elem_of_lookup in Hx as [i Hi], Hy as [j Hj].
        rewrite lookup_drop in Hj.
        assert (i < lower_bound (lkeys l) key)%nat.
        { apply lookup_lt_Some in Hi. rewrite length_take in Hi. lia. }
        rewrite lookup_take_lt in Hi by lia.
        eapply (StronglySorted_lookup klt); [done| |done|done]. lia.
      * by apply Hf.
    + split; [done|]. exists l. by rewrite E.
  - assert (inner_shape mx h olo ohi keys cs) as Hsh by done.
    destruct (child_choice mx h olo ohi keys cs key Hsh Hlo Hhi) as (c & Ec & Hok & Hl & Hh).
    destruct (IH _ _ Ec Hl Hh) as [IH1 (l & IH2 & IH3)].
    cbn [delete_node find_leaf]. rewrite !at_child_lookup, Ec.
    pose proof (lookup_lt_Some _ _ _ Ec).
    destruct (delete_node key c) as [c'|] eqn:Ed.
    + destruct IH1 as [Hok' (l0 & l0' & ls1 & ls2 & E1 & E2 & E3)]. split.
      * split; [apply node_ok_inner; [done|by apply inner_shape_update]|].
        exists l0, l0', (flat_map leaves (take (upper_bound keys key) cs) ++ ls1),
          (ls2 ++ flat_map leaves (drop (S (upper_bound keys key)) cs)).
        rewrite (leaves_split _ _ _ _ Ec), E1.
        rewrite (leaves_inner _ (<[_:=_]> cs)), (flat_map_insert _ _ _ _ Ec), E2.
        by rewrite <- !app_assoc.
      * exists l. split; [done|]. split; [done|]. by intros ?%IH3.
    + split; [done|]. exists l. split; [done|]. split; [by rewrite <- IH3|done].
Qed.

Lemma leaf_delete_entries key l l' :
  StronglySorted klt (lkeys l) → length (lvals l) = length (lkeys l) →
  leaf_delete key l = Some l' →
  lid l' = lid l ∧ lnext l' = lnext l ∧ key ∈ lkeys l ∧
  entries l' = assoc_del key (entries l).
Proof using All.
  intros Hs Hv E. unfold leaf_delete in E. destruct (hit _ _ key) eqn:Eh; [|done]. simplify_eq.
  apply hit_at in Eh. split_and!; [done|done|by eapply list_elem_of_lookup_2|].
  unfold entries at 1. simpl. rewrite zip_remove_at by done. fold (entries l).
  destruct (lookup_lt_is_Some_2 (lvals l) (lower_bound (lkeys l) key)) as [r Er].
  { rewrite Hv. by eapply lookup_lt_Some. }
  assert (entries l !! lower_bound (lkeys l) key = Some (key, r)) as Ee
    by (apply lookup_zip_Some; done).
  rewrite <- (entries_keys l Hv) in Hs. set (i := lower_bound (lkeys l) key) in *.
  unfold remove_at. rewrite <- (take_drop_middle _ _ _ Ee) in Hs.
  rewrite <- (take_drop_middle _ _ _ Ee) at 3. rewrite assoc_del_app. simpl.
  rewrite (proj2 (keqb_true key key) eq_refl). simpl.
  rewrite fmap_app in Hs. simpl in Hs. apply StronglySorted_app_iff in Hs as (H1 & H2 & H3).
  apply StronglySorted_cons_iff in H2 as [H2 _].
  rewrite !assoc_del_notin; [done| |].
  - by apply above_notin.
  - intros Hin. eapply (klt_irrefl key), H3; [done|by left].
Qed.

Lemma delete_refines t key :
  tree_ok t →
  let '(rc, t') := bptree_delete t key in
  tree_ok t' ∧ elems t' = assoc_del key (elems t) ∧
  rc = (match assoc_get key (elems t) with Some _ => 1 | None => 0 end).
Proof using All.
  intros Ht. pose proof (search_refines t key Ht) as Hsearch.
  pose proof (tree_ok_sorted t Ht) as Hs. destruct (Ht) as [[h Hok] Hch].
  destruct (delete_node_spec _ _ _ _ _ key Hok) as [H1 (l & Hf & H2)]; [done|done|].
  unfold bptree_search in Hsearch. rewrite Hf in Hsearch. cbv zeta in Hsearch.
  destruct (find_leaf_spec _ _ _ _ _ key Hok) as (l0 & _ & _ & Ef & _ & _ & _ & _ & Hvl);
    [done|done|]. rewrite Hf in Ef. injection Ef as <-.
  unfold bptree_delete. destruct (delete_node key (root t)) as [n'|] eqn:Ed.
  - destruct H1 as [Hok' (la & lb & ls1 & ls2 & E1 & E2 & E3)].
    pose proof (node_ok_lens _ _ _ _ _ Hok) as Hlen. rewrite E1 in Hlen.
    apply Forall_app in Hlen as [_ [Hv _]%Forall_cons].
    assert (StronglySorted klt (lkeys la)) as Hsl.
    { unfold elems, elems_of in Hs. rewrite E1, flat_map_app in Hs. simpl in Hs.
      rewrite !fmap_app, entries_keys in Hs by done.
      apply StronglySorted_app_iff in Hs as (_ & Hs & _).
      by apply StronglySorted_app_iff in Hs as (Hs & _ & _). }
    destruct (leaf_delete_entries key la lb Hsl Hv E3) as (Ei & En & Hin & Ee).
    assert (assoc_del key (elems t) = elems_of n') as Hel.
    { unfold elems, elems_of. rewrite E1, E2, !flat_map_app. simpl.
      unfold elems, elems_of in Hs. rewrite E1, flat_map_app in Hs. simpl in Hs.
      rewrite !fmap_app, entries_keys in Hs by done.
      apply StronglySorted_app_iff in Hs as (_ & Hs & Hx).
      apply StronglySorted_app_iff in Hs as (_ & _ & Hy).
      rewrite !assoc_del_app, <- Ee, !assoc_del_notin; [done| |].
      - intros Hk. by eapply klt_irrefl, Hy.
      - intros Hk. eapply (klt_irrefl key), Hx; [done|]. rewrite elem_of_app. by left. }
    split_and!; [|by rewrite Hel|].
    + split; [by exists h|]. simpl. rewrite E2. rewrite E1 in Hch.
      by eapply chain_ok_update.
    + destruct (assoc_get key (elems t)) eqn:Eg; [done|]. apply assoc_get_None in Eg.
      exfalso. apply Eg. unfold elems, elems_of. rewrite E1, flat_map_app. simpl.
      rewrite !fmap_app, !elem_of_app, entries_keys by done. auto.
  - assert (leaf_delete key l = None) as Hn by by apply H2.
    unfold leaf_delete in Hn. destruct (hit _ _ key) eqn:Eh; [done|].
    rewrite <- Hsearch. split_and!; [done| |done].
    symmetry. apply assoc_del_notin, assoc_get_None. done.
Qed.
End refinement.
