(* ===== verification/BPTreeScan.v ===== *)
(** Range scans and full visits along the leaf chain, and the bulk load. *)

From S2P Require Import Prelude CString BPTree BPTreeProofs BPTreeSpec.
From stdpp Require Import base numbers list sorting.
Local Open Scope Z_scope.

Section scans.
Context {K : Type} `{!KeyOrder K, !KeyOrderLaws K}.
Implicit Types (key lo hi : K) (t : tree K) (ls : list (leaf K)) (es : list (K * Z)).

Lemma visit_leaf_app {C} (v : visitor C) es1 es2 (c : C) :
  visit_leaf v (es1 ++ es2) c =
    match visit_leaf v es1 c with
    | (true, c') => visit_leaf v es2 c'
    | (false, c') => (false, c')
    end.
Proof using Type.
  revert c; induction es1 as [|[k r] es1 IH]; intros c; simpl; [done|].
  destruct (v k r c) as [[] c']; [apply IH|done].
Qed.

Lemma assoc_range_above lo hi es :
  Forall (fun k => klt hi k) es.*1 → assoc_range lo hi es = [].
Proof using All.
  intros H. apply filter_none. rewrite Forall_fmap in H.
  eapply Forall_impl; [exact H|]. intros [k r] Hk. simpl in *.
  apply kleb_false in Hk. by rewrite Hk, andb_false_r.
Qed.

Lemma assoc_range_below lo hi es :
  Forall (fun k => klt k lo) es.*1 → assoc_range lo hi es = [].
Proof using All.
  intros H. apply filter_none. rewrite Forall_fmap in H.
  eapply Forall_impl; [exact H|]. intros [k r] Hk. simpl in *.
  apply kleb_false in Hk. by rewrite Hk.
Qed.

(** The loop over one leaf visits the entries in range; it ends the scan only
    when every later key is past the range. *)
Lemma scan_leaf_spec {C} lo hi (v : visitor C) es (c : C) :
  StronglySorted klt es.*1 →
  match scan_leaf lo hi v es c with
  | ScanNext c' => visit_leaf v (assoc_range lo hi es) c = (true, c')
  | ScanEnd c' => visit_leaf v (assoc_range lo hi es) c = (true, c') ∧
                  ∃ k, k ∈ es.*1 ∧ klt hi k
  | ScanStop c' => visit_leaf v (assoc_range lo hi es) c = (false, c')
  end.
Proof using All.
  revert c; induction es as [|[k r] es IH]; intros c Hs; simpl in *; [done|].
  apply StronglySorted_cons_iff in Hs as [Hk Hs].
  destruct (kltb k lo) eqn:E1.
  - apply kltb_true in E1. rewrite (proj2 (kleb_false lo k)) by done. simpl.
    specialize (IH c Hs). destruct (scan_leaf lo hi v es c); try done.
    destruct IH as [? (k' & ? & ?)]. split; [done|]. exists k'. split; [by right|done].
  - apply kltb_false in E1. rewrite (proj2 (kleb_true lo k)) by done. simpl.
    destruct (kltb hi k) eqn:E2.
    + apply kltb_true in E2. rewrite (proj2 (kleb_false k hi)) by done.
      fold (assoc_range lo hi es). rewrite assoc_range_above.
      * split; [done|]. exists k. split; [by left|done].
      * eapply Forall_impl; [exact Hk|]. intros. by etrans.
    + apply kltb_false in E2. rewrite (proj2 (kleb_true k hi)) by done. simpl.
      destruct (v k r c) as [[] c']; [|done].
      specialize (IH c' Hs). destruct (scan_leaf lo hi v es c'); try done.
      destruct IH as [? (k' & ? & ?)]. split; [done|]. exists k'. split; [by right|done].
Qed.

Lemma deref_leaf t l ls1 ls2 :
  leaves (root t) = ls1 ++ l :: ls2 → NoDup (lid <$> leaves (root t)) →
  deref t (lid l) = Some l.
Proof using Type.
  unfold deref. intros -> Hnd. induction ls1 as [|l1 ls1 IH]; simpl in *.
  - by rewrite Nat.eqb_refl.
  - apply NoDup_cons in Hnd as [Hn Hnd].
    destruct (Nat.eqb (lid l1) (lid l)) eqn:E; [|by apply IH].
    apply Nat.eqb_eq in E. exfalso. apply Hn. rewrite E.
    apply list_elem_of_fmap. exists l. split; [done|]. rewrite elem_of_app. right. by left.
Qed.

Lemma scan_chain_spec {C} t lo hi (v : visitor C) ls1 l ls2 fuel (c : C) :
  chain_ok (leaves (root t)) (brk t) → leaves (root t) = ls1 ++ l :: ls2 →
  (S (length ls2) ≤ fuel)%nat →
  StronglySorted klt (flat_map entries (l :: ls2)).*1 →
  scan_chain fuel t lo hi v (Some l) c =
    Some (visit_leaf v (assoc_range lo hi (flat_map entries (l :: ls2))) c).
Proof using All.
  intros (Hch & Hnd & _). revert ls1 l ls2 c.
  induction fuel as [|fuel IH]; intros ls1 l ls2 c El Hf Hs; [lia|].
  cbn [scan_chain]. simpl in Hs. rewrite fmap_app in Hs.
  apply StronglySorted_app_iff in Hs as (Hs1 & Hs2 & Hx).
  pose proof (scan_leaf_spec lo hi v (entries l) c Hs1) as Hl.
  cbn [flat_map]. rewrite assoc_range_app, visit_leaf_app.
  destruct (scan_leaf lo hi v (entries l) c) as [c'|c'|c'].
  - rewrite Hl. rewrite El in Hch. apply chain_app in Hch as [_ [Hn _]]. rewrite Hn.
    destruct ls2 as [|l' ls2]; simpl; [done|].
    rewrite (deref_leaf t l' (ls1 ++ [l]) ls2);
      [|rewrite El; by rewrite <- app_assoc|done].
    apply (IH (ls1 ++ [l])); [rewrite El; by rewrite <- app_assoc|simpl in Hf; lia|done].
  - destruct Hl as [-> (k & Hk & Hhi)].
    rewrite assoc_range_above; [done|]. apply Forall_forall. intros k' Hk'.
    etrans; [exact Hhi|]. by apply Hx.
  - by rewrite Hl.
Qed.

Lemma range_refines {C} t lo hi (v : visitor C) (c : C) :
  tree_ok t →
  bptree_range_search t lo hi v c = Some (visit_leaf v (assoc_range lo hi (elems t)) c).
Proof using All.
  intros Ht. pose proof (tree_ok_sorted t Ht) as Hs. destruct Ht as [[h Hok] Hch].
  unfold bptree_range_search. destruct (kltb hi lo) eqn:E.
  { apply kltb_true in E. assert (assoc_range lo hi (elems t) = []) as ->; [|done].
    apply filter_none, Forall_forall. intros [k r] _. simpl.
    apply andb_false_iff. rewrite !kleb_false.
    destruct (kcmp k lo) eqn:Ek; [|by left|].
    - apply kcmp_eq in Ek as ->. by right.
    - right. etrans; [exact E|]. unfold klt. by rewrite kcmp_antisym, Ek. }
  destruct (find_leaf_spec _ _ _ _ _ lo Hok) as (l & ls1 & ls2 & Ef & El & Hb & _ & _ & _);
    [done|done|].
  pose proof (node_ok_lens _ _ _ _ _ Hok) as Hlen.
  rewrite Ef. unfold elems, elems_of in *. rewrite El in Hs, Hlen.
  rewrite flat_map_app, fmap_app in Hs. apply StronglySorted_app_iff in Hs as (_ & Hs & _).
  apply Forall_app in Hlen as [Hlen _].
  rewrite (scan_chain_spec t lo hi v ls1 l ls2); [|done|done| |done].
  - rewrite El, flat_map_app, assoc_range_app, (assoc_range_below lo hi (flat_map entries ls1)); [done|].
    by apply leaf_below_not_in.
  - rewrite El, length_app. simpl. lia.
Qed.

Lemma first_leaf_spec mx h olo ohi (n : node K) :
  node_ok mx h olo ohi n → ∃ l ls, first_leaf n = Some l ∧ leaves n = l :: ls.
Proof using Type.
  induction 1 as [olo ohi l ? ? ? ?|h olo ohi keys cs Hmx Hlen Hs Hr Hc IH].
  - by exists l, [].
  - destruct cs as [|c cs]; [done|]. destruct (IH 0%nat c) as (l & ls & E1 & E2); [done|].
    exists l, (ls ++ flat_map leaves cs). simpl. by rewrite E1, E2.
Qed.

Lemma visit_chain_spec {C} t (v : visitor C) ls1 l ls2 fuel (c : C) :
  chain_ok (leaves (root t)) (brk t) → leaves (root t) = ls1 ++ l :: ls2 →
  (S (length ls2) ≤ fuel)%nat →
  visit_chain fuel t v (Some l) c = Some (visit_leaf v (flat_map entries (l :: ls2)) c).
Proof using Type.
  intros (Hch & Hnd & _). revert ls1 l ls2 c.
  induction fuel as [|fuel IH]; intros ls1 l ls2 c El Hf; [lia|].
  cbn [visit_chain flat_map]. rewrite visit_leaf_app.
  destruct (visit_leaf v (entries l) c) as [[] c']; [|done].
  rewrite El in Hch. apply chain_app in Hch as [_ [Hn _]]. rewrite Hn.
  destruct ls2 as [|l' ls2]; simpl; [done|].
  rewrite (deref_leaf t l' (ls1 ++ [l]) ls2); [|rewrite El; by rewrite <- app_assoc|done].
  apply (IH (ls1 ++ [l])); [rewrite El; by rewrite <- app_assoc|simpl in Hf; lia].
Qed.

Lemma visit_refines {C} t (v : visitor C) (c : C) :
  tree_ok t → bptree_visit_pairs t v c = Some (visit_leaf v (elems t) c).
Proof using Type.
  intros [[h Hok] Hch]. destruct (first_leaf_spec _ _ _ _ _ Hok) as (l & ls & Ef & El).
  unfold bptree_visit_pairs. rewrite Ef. rewrite (visit_chain_spec t v [] l ls); [|done|done|].
  - unfold elems, elems_of. by rewrite El.
  - rewrite El. simpl. lia.
Qed.
End scans.

(** ** Bulk load *)

Section bulk.
Context {K : Type} `{!KeyOrder K, !KeyOrderLaws K}.
Implicit Types (key : K) (t : tree K) (n : node K) (ls : list (leaf K)) (ps : list (K * Z)).
Implicit Types (level g rest : list (node K)).

(** A level of subtrees of height [h], left to right: each is bounded by the
    first key of its right neighbour. *)
Fixpoint level_ok (mx h : nat) (lo : option K) (level : list (node K)) : Prop :=
  match level with
  | [] => True
  | n :: rest =>
      match rest with
      | [] => node_ok mx h lo None n
      | m :: _ => ∃ k, first_key m = Some k ∧ gt_lo lo k ∧ node_ok mx h lo (Some k) n ∧
                       level_ok mx h (Some k) rest
      end
  end.

Definition head_key (rest : list (node K)) : option K :=
  match rest with [] => None | m :: _ => first_key m end.

Lemma level_ok_lo mx h b g rest :
  g ≠ [] → level_ok mx h (Some b) (g ++ rest) → rest ≠ [] → lt_hi (head_key rest) b.
Proof using All.
  revert b; induction g as [|n g IH]; intros b Hg Hl Hr; [done|].
  destruct rest as [|m rest]; [done|]. destruct g as [|n' g]; simpl in Hl |- *.
  - destruct Hl as (k & -> & Hk & _). done.
  - destruct Hl as (k & Ek & Hk & _ & Hl). specialize (IH k ltac:(done) Hl ltac:(done)).
    simpl in IH. destruct (first_key m); simpl in *; [|done]. by etrans.
Qed.

(** A group of neighbours under one parent. *)
Lemma group_shape mx h lo g rest :
  g ≠ [] → level_ok mx h lo (g ++ rest) →
  ∃ ks, mapM first_key (drop 1 g) = Some ks ∧ inner_shape mx h lo (head_key rest) ks g ∧
    length ks = (length g - 1)%nat.
Proof using All.
  revert lo; induction g as [|n g IH]; intros lo Hg Hl; [done|]. destruct g as [|m g].
  - exists []. split; [done|]. split; [|done].
    split_and!; [done|constructor|constructor|].
    intros [|i] c; simpl; [|done]. intros [= <-]. unfold sep_hi. simpl.
    destruct rest as [|m rest]; simpl in *; [done|].
    destruct Hl as (k & -> & _ & Hl & _). done.
  - simpl in Hl. destruct Hl as (k & Ek & Hk & Hn & Hl).
    destruct (IH (Some k) ltac:(done) Hl) as (ks & Eks & (Hlen & Hs & Hr & Hc) & Hlk).
    change (drop 1 (m :: g)) with g in Eks. exists (k :: ks).
    split; [change (drop 1 (n :: m :: g)) with (m :: g); simpl; rewrite Ek; simpl; by rewrite Eks|].
    split; [|simpl in *; lia]. split_and!.
    + simpl in *. lia.
    + constructor; [done|]. eapply Forall_impl; [exact Hr|]. by intros ? [? _].
    + constructor.
      * split; [done|]. destruct rest as [|m' rest']; [done|].
        by apply (level_ok_lo mx h k (m :: g) (m' :: rest')).
      * eapply Forall_impl; [exact Hr|]. intros x [H1 H2]. split; [|done].
        destruct lo; simpl in *; [|done]. by etrans.
    + intros [|i] c E; simpl in E.
      * injection E as <-. done.
      * apply Hc in E. unfold sep_hi in *. destruct i; simpl in *; done.
Qed.

Lemma level_ok_drop mx h lo g rest :
  g ≠ [] → rest ≠ [] → level_ok mx h lo (g ++ rest) →
  ∃ k, head_key rest = Some k ∧ gt_lo lo k ∧ level_ok mx h (Some k) rest.
Proof using All.
  revert lo; induction g as [|n g IH]; intros lo Hg Hr Hl; [done|]. destruct g as [|m g].
  - destruct rest as [|m rest]; [done|]. simpl in Hl. destruct Hl as (k & ? & ? & _ & ?).
    by exists k.
  - simpl in Hl. destruct Hl as (k & Ek & Hk & _ & Hl).
    destruct (IH (Some k) ltac:(done) Hr Hl) as (k' & ? & Hk' & ?).
    exists k'. split_and!; [done| |done]. destruct lo; simpl in *; [|done]. by etrans.
Qed.

Lemma first_key_parent ks n g : first_key (Inner ks (n :: g)) = first_key n.
Proof using Type. done. Qed.

(** One round of the loop: the parents form a level, over the same leaves,
    and there are fewer of them. *)
Lemma build_level_spec mx h fuel ord lo level fr :
  level_ok mx h lo level → (length level ≤ fuel)%nat → (1 ≤ ord)%nat → (ord - 1 ≤ mx)%nat →
  ∃ up fr', build_level always_ok fuel ord level fr = (Some up, fr') ∧ (fr ≤ fr')%nat ∧
    level_ok mx (S h) lo up ∧ flat_map leaves up = flat_map leaves level ∧
    head_key up = head_key level ∧
    (level ≠ [] → up ≠ []) ∧ (length up * ord ≤ length level + ord - 1)%nat.
Proof using All.
  revert lo level fr; induction fuel as [|fuel IH]; intros lo level fr Hl Hf Ho Hmx.
  { destruct level; [|simpl in Hf; lia]. exists [], fr. simpl. split_and!; try done; lia. }
  destruct level as [|n level0]; [exists [], fr; simpl; split_and!; try done; lia|].
  set (level := n :: level0) in *.
  assert (take ord level ≠ []) as Hg by (destruct ord; [lia|done]).
  rewrite <- (take_drop ord level) in Hl.
  destruct (group_shape mx h lo _ _ Hg Hl) as (ks & Eks & Hsh & Hlk).
  assert (build_level always_ok (S fuel) ord level fr =
    match mk_parent (take ord level), build_level always_ok fuel ord (drop ord level) (S fr) with
    | Some p, (Some ps, fr2) => (Some (p :: ps), fr2)
    | _, (_, fr2) => (None, fr2)
    end) as -> by done.
  assert (mk_parent (take ord level) = Some (Inner ks (take ord level))) as ->.
  { unfold mk_parent. by rewrite Eks. }
  assert (∃ lo', level_ok mx h lo' (drop ord level)) as [lo' Hl'].
  { destruct (decide (drop ord level = [])) as [->|Hr]; [by exists None|].
    destruct (level_ok_drop _ _ _ _ _ Hg Hr Hl) as (k & _ & _ & ?). by exists (Some k). }
  assert (node_ok mx (S h) lo (head_key (drop ord level)) (Inner ks (take ord level))) as Hp.
  { apply node_ok_inner; [|done]. rewrite Hlk, length_take. lia. }
  assert (length (drop ord level) ≤ fuel)%nat as Hfd.
  { rewrite length_drop. simpl in *. lia. }
  destruct (decide (drop ord level = [])) as [Er|Hr].
  - assert (take ord level = level) as Et.
    { rewrite <- (take_drop ord level) at 2. by rewrite Er, app_nil_r. }
    rewrite Er, Et in *.
    assert (build_level always_ok fuel ord [] (S fr) = (Some [], S fr)) as -> by by destruct fuel.
    exists [Inner ks level], (S fr). split_and!; [done|lia|exact Hp| |done|done|simpl; lia].
    cbn [flat_map]. by rewrite leaves_inner, app_nil_r.
  - destruct (level_ok_drop _ _ _ _ _ Hg Hr Hl) as (k & Ek & Hk & Hlk').
    destruct (IH (Some k) (drop ord level) (S fr)) as (up & fr' & E & Hfr & Hup & El & Ehd & Hne & Hlen);
      [done|done|done|done|].
    rewrite E. exists (Inner ks (take ord level) :: up), fr'.
    split_and!; [done|lia| | | |done|].
    + specialize (Hne Hr). destruct up as [|u up]; [done|].
      simpl. exists k. rewrite Ek in Ehd, Hp. simpl in Ehd. done.
    + cbn [flat_map]. rewrite El, leaves_inner, <- flat_map_app, take_drop. done.
    + subst level. destruct ord; [lia|]. done.
    + assert (length (take ord level) = ord)%nat as Lt.
      { rewrite length_take. assert (length (drop ord level) ≠ 0)%nat as Hd.
        { intros H0%length_zero_iff_nil. done. }
        rewrite length_drop in Hd. lia. }
      rewrite length_drop in Hlen. rewrite length_take in Lt. cbn [length]. lia.
Qed.

Lemma build_up_spec mx ord fuel h level fr :
  level_ok mx h None level → level ≠ [] → (length level ≤ S fuel)%nat →
  (2 ≤ ord)%nat → (ord - 1 ≤ mx)%nat →
  ∃ n fr' h', build_up always_ok fuel ord level fr = (Some n, fr') ∧ (fr ≤ fr')%nat ∧
    node_ok mx h' None None n ∧ leaves n = flat_map leaves level.
Proof using All.
  revert h level fr; induction fuel as [|fuel IH]; intros h level fr Hl Hne Hf Ho Hmx.
  - destruct level as [|n [|m level]]; [done| |simpl in Hf; lia].
    exists n, fr, h. simpl. split_and!; [done|lia|done|by rewrite app_nil_r].
  - destruct level as [|n [|m level]]; [done| |].
    { exists n, fr, h. simpl. split_and!; [done|lia|done|by rewrite app_nil_r]. }
    set (lv := n :: m :: level) in *.
    destruct (build_level_spec mx h (length lv) ord None lv fr) as
      (up & fr1 & E & Hfr & Hup & El & _ & Hn & Hlen); [done|lia|lia|lia|].
    change (build_up always_ok (S fuel) ord lv fr) with
      (match build_level always_ok (length lv) ord lv fr with
       | (None, fr1) => (None, fr1)
       | (Some up, fr1) => build_up always_ok fuel ord up fr1
       end).
    rewrite E. destruct (IH (S h) up fr1) as (r & fr' & h' & E' & ? & ? & El'); auto.
    { assert (2 ≤ length lv)%nat by (simpl; lia). nia. }
    exists r, fr', h'. rewrite El'. split_and!; [done|lia|done|done].
Qed.

(** The leaf level over sorted pairs. *)
Lemma build_leaves_spec fuel mx ps lo fr :
  (1 ≤ mx)%nat → (length ps ≤ fuel)%nat → ps ≠ [] → StronglySorted klt ps.*1 →
  Forall (ge_lo lo) ps.*1 →
  ∃ level fr', build_leaves always_ok fuel mx ps fr = (Some level, fr') ∧ (fr < fr')%nat ∧
    level ≠ [] ∧ level_ok mx 0 lo level ∧ flat_map entries (flat_map leaves level) = ps ∧
    head_key level = fst <$> head ps ∧
    head_id (flat_map leaves level) None = Some fr ∧
    chain (flat_map leaves level) None ∧ NoDup (lid <$> flat_map leaves level) ∧
    Forall (fun l => (fr ≤ lid l < fr')%nat) (flat_map leaves level).
Proof using All.
  revert ps lo fr; induction fuel as [|fuel IH]; intros ps lo fr Hmx Hf Hne Hs Hlo.
  { destruct ps; [done|simpl in Hf; lia]. }
  destruct ps as [|p0 ps0] eqn:Eps; [done|]. rewrite <- Eps in *. clear Hne.
  set (l := mkLeaf fr (take mx ps).*1 (take mx ps).*2
              (match drop mx ps with [] => None | _ => Some (S fr) end)).
  assert (build_leaves always_ok (S fuel) mx ps fr =
    match build_leaves always_ok fuel mx (drop mx ps) (S fr) with
    | (None, fr2) => (None, fr2)
    | (Some ns, fr2) => (Some (Leaf l :: ns), fr2)
    end) as ->.
  { subst ps. done. }
  assert (entries l = take mx ps) as Ee.
  { unfold entries. simpl. apply zip_fst_snd. }
  assert (length (lvals l) = length (lkeys l)) as Hv.
  { simpl. by rewrite !length_fmap. }
  assert (lkeys l = (take mx ps).*1) as Ek by done.
  rewrite <- (take_drop mx ps) in Hs, Hlo. rewrite fmap_app in Hs, Hlo.
  apply StronglySorted_app_iff in Hs as (Hs1 & Hs2 & Hx).
  apply Forall_app in Hlo as [Hlo1 Hlo2].
  assert (first_key (Leaf l) = fst <$> head ps) as Hfk.
  { unfold first_key. simpl. subst ps. destruct mx; [lia|]. done. }
  assert (length (lkeys l) ≤ mx)%nat as Hlk by (rewrite Ek, length_fmap, length_take; lia).
  destruct (drop mx ps) as [|q qs] eqn:Ed.
  - assert (build_leaves always_ok fuel mx ([] : list (K * Z)) (S fr) = (Some [], S fr)) as E.
    { by destruct fuel. }
    rewrite E. exists [Leaf l], (S fr). split_and!; [done|lia|done| | |done|done|done| |].
    + simpl. constructor; [done|done|done|]. eapply Forall_impl; [exact Hlo1|]. done.
    + simpl. rewrite !app_nil_r, Ee. rewrite <- (take_drop mx ps) at 2. by rewrite Ed, app_nil_r.
    + simpl. apply NoDup_singleton.
    + simpl. constructor; [simpl; lia|done].
  - destruct (IH (q :: qs) (Some (fst q)) (S fr)) as
      (level & fr' & E & Hfr & Hne & Hl & Hel & Hhd & Hid & Hch & Hnd & Hfa); try done.
    { rewrite <- Ed, length_drop. subst ps. simpl in *. lia. }
    { simpl. constructor; [apply kle_refl|]. simpl in Hs2.
      apply StronglySorted_cons_iff in Hs2 as [Hq _].
      eapply Forall_impl; [exact Hq|]. intros. by apply klt_kle. }
    rewrite E. exists (Leaf l :: level), fr'. split_and!; [done|lia|done| | |done|done| | |].
    + destruct level as [|m level]; [done|]. simpl in Hhd.
      change (level_ok mx 0 lo (Leaf l :: m :: level)) with
        (∃ k, first_key m = Some k ∧ gt_lo lo k ∧ node_ok mx 0 lo (Some k) (Leaf l) ∧
           level_ok mx 0 (Some k) (m :: level)).
      exists (fst q). split_and!; [done| | |done].
      * destruct lo as [b|]; simpl; [|done].
        assert (p0.1 ∈ (take mx ps).*1) as Hin.
        { subst ps. destruct mx; [lia|]. by left. }
        eapply kle_klt_trans; [by eapply (Forall_forall _ _) in Hlo1|].
        apply Hx; [exact Hin|]. by left.
      * constructor; [done|done|done|]. rewrite Ek. apply Forall_forall. intros k Hk.
        eapply Forall_forall in Hlo1; [|exact Hk]. split; [done|]. simpl.
        apply Hx; [done|]. by left.
    + cbn [flat_map]. change (leaves (Leaf l)) with [l]. cbn [app flat_map].
      rewrite Hel, Ee, <- Ed. apply take_drop.
    + simpl. by rewrite Hid.
    + simpl. apply NoDup_cons. split; [|done]. intros Hin.
      apply list_elem_of_fmap in Hin as (l' & El' & Hin).
      eapply Forall_forall in Hfa; [|exact Hin]. lia.
    + simpl. constructor; [simpl; lia|]. eapply Forall_impl; [exact Hfa|]. simpl. lia.
Qed.

Lemma strictly_sorted_spec ps : strictly_sorted ps = true ↔ StronglySorted klt ps.*1.
Proof using All.
  induction ps as [|[k1 r1] ps IH]; [split; [constructor|done]|].
  destruct ps as [|[k2 r2] ps].
  { split; [intros _; by repeat constructor|done]. }
  change (strictly_sorted ((k1, r1) :: (k2, r2) :: ps)) with
    (kltb k1 k2 && strictly_sorted ((k2, r2) :: ps)).
  rewrite andb_true_iff, kltb_true, IH. simpl. rewrite !StronglySorted_cons_iff. split.
  - intros [Hk [Hf Hs]]. split; [|done]. constructor; [done|].
    eapply Forall_impl; [exact Hf|]. intros. by etrans.
  - intros [[Hk _]%Forall_cons [Hf Hs]]. done.
Qed.

Lemma choose_order_order count :
  (8 ≤ normalize_order (choose_order_for_count count))%nat.
Proof using Type.
  destruct (normalize_order_cases (choose_order_for_count count)) as [->|[->|[->| ->]]]; lia.
Qed.

(** Inner nodes carry no address, so a level does not depend on the allocator. *)
Lemma build_level_fr fuel ord level fr1 fr2 :
  fst (build_level always_ok fuel ord level fr1) = fst (build_level always_ok fuel ord level fr2).
Proof using Type.
  revert level fr1 fr2; induction fuel as [|fuel IH]; intros [|n level] fr1 fr2; try done.
  cbn [build_level create_node]. simpl (always_ok _). cbv iota.
  specialize (IH (drop ord (n :: level)) (S fr1) (S fr2)).
  destruct (mk_parent _); destruct (build_level always_ok fuel ord _ (S fr1)) as [[]?],
    (build_level always_ok fuel ord _ (S fr2)) as [[]?]; simpl in *; congruence.
Qed.

(** The two phases of a load of strictly increasing pairs. *)
Lemma build_core (ord : Z) ps fr0 :
  ps ≠ [] → StronglySorted klt ps.*1 → (8 ≤ normalize_order ord)%nat →
  let ob := normalize_order ord in
  ∃ level fr n fr1,
    build_leaves always_ok (length ps) (ob - 1) ps fr0 = (Some level, fr) ∧
    build_up always_ok (length level) ob level fr = (Some n, fr1) ∧ (fr ≤ fr1)%nat ∧
    elems_of n = ps ∧ ∀ fr2, (fr ≤ fr2)%nat → tree_ok (mkTree n ord fr2).
Proof using All.
  intros Hps Hs Hord ob.
  destruct (build_leaves_spec (length ps) (ob - 1) ps None fr0) as
    (level & fr & -> & Hfr & Hne & Hl & Hel & _ & _ & Hch & Hnd & Hfa);
    [lia|lia|done|done|by apply Forall_true|].
  destruct (build_up_spec (ob - 1) ob (length level) 0 level fr) as
    (n & fr' & h' & E & Hfr' & Hn & Eln); [done|done|lia|lia|lia|].
  exists level, fr, n, fr'. split_and!; [done|done|done| |].
  - unfold elems_of. by rewrite Eln.
  - intros fr2 Hfr2. split; [by exists h'|]. simpl. rewrite Eln. split_and!; [done|done|].
    eapply Forall_impl; [exact Hfa|]. simpl. lia.
Qed.

Lemma tree_ok_empty (ord : Z) id fr :
  (id < fr)%nat → tree_ok (mkTree (empty_leaf (K:=K) id) ord fr).
Proof using Type.
  intros. split.
  - exists 0%nat. constructor; simpl; [lia|done|constructor|done].
  - simpl. split_and!; [done|apply NoDup_singleton|]. by constructor.
Qed.

(** A load of strictly increasing pairs succeeds and the tree holds them. *)
Lemma build_refines t ps :
  StronglySorted klt ps.*1 →
  ∃ t', bptree_build_from_sorted always_ok t ps = (true, t') ∧ tree_ok t' ∧ elems t' = ps.
Proof using All.
  intros Hs. unfold bptree_build_from_sorted. destruct ps as [|p ps0] eqn:Eps.
  { eexists. split; [done|]. split; [|done]. apply tree_ok_empty. lia. }
  rewrite <- Eps in *. rewrite (proj2 (strictly_sorted_spec ps) Hs).
  set (ord := choose_order_for_count (Z.of_nat (length ps))).
  destruct (build_core ord ps (brk t)) as (level & fr & n & fr1 & E1 & E2 & Hle & Hel & Hok);
    [by subst ps|done|apply choose_order_order|].
  unfold tree_max_keys, tree_order. cbn [tord]. rewrite E1, E2.
  eexists. split; [done|]. split; [by apply Hok|done].
Qed.

Lemma create_refines :
  ∃ t, bptree_create (K:=K) always_ok = Some t ∧ tree_ok t ∧ elems t = [] ∧
    tord t = BPTREE_DEFAULT_ORDER.
Proof using Type.
  eexists. split; [done|]. split_and!; [|done|done]. apply tree_ok_empty. lia.
Qed.
End bulk.
