(* ===== verification/BPTreeString.v ===== *)
(** The string tree of [src/legacy/bptree.c].  Its nodes, searches and scans
    are the generic ones at string keys under [strcmp]; insertion, deletion
    and bulk load are translated again, because the source copies keys (the
    copies can fail) and picks the separator before it moves the entries. *)

From S2P Require Import Prelude CString BPTree BPTreeProofs BPTreeSpec BPTreeScan.
From stdpp Require Import base numbers list sorting.
Local Open Scope Z_scope.

Section string_tree.
Variable alloc_ok : nat → bool.

(** [dup_key]. *)
Definition dup_key (src : cstr) (fr : nat) : option cstr * nat :=
  (if alloc_ok fr then Some src else None, S fr).

Definition string_leaf_insert (mx mn : nat) (key : cstr) (row : Z) (l : leaf cstr) (fr : nat)
    : ins_res * nat :=
  let i := lower_bound (lkeys l) key in
  if hit (lkeys l) i key then (InsDup, fr)
  else
    match reserve_right alloc_ok (length (lkeys l)) mx fr with
    | (None, fr1) => (InsFail (Leaf l), fr1)
    | (Some right_node, fr1) =>
        match dup_key key fr1 with
        | (None, fr2) => (InsFail (Leaf l), fr2)
        | (Some key_copy, fr2) =>
            let store :=
              let ks := insert_at i key_copy (lkeys l) in
              let vs := insert_at i row (lvals l) in
              (ks, vs) in
            match right_node with
            | None =>
                if (length (fst store) <=? mx)%nat
                then (InsDone (Leaf (mkLeaf (lid l) (fst store) (snd store) (lnext l))), fr2)
                else (InsCrash, fr2)
            | Some rid =>
                let separator :=
                  if (i <? mn)%nat then lkeys l !! (mn - 1)%nat
                  else if (i =? mn)%nat then Some key
                  else lkeys l !! mn in
                match separator with
                | None => (InsCrash, fr2)
                | Some sep =>
                    match dup_key sep fr2 with
                    | (None, fr3) => (InsFail (Leaf l), fr3)
                    | (Some separator_copy, fr3) =>
                        let '(ks, vs) := store in
                        if (length ks <=? mx)%nat
                        then (InsDone (Leaf (mkLeaf (lid l) ks vs (lnext l))), fr3)
                        else
                          (InsSplit
                             (Leaf (mkLeaf (lid l) (take mn ks) (take mn vs) (Some rid)))
                             separator_copy
                             (Leaf (mkLeaf rid (drop mn ks) (drop mn vs) (lnext l))), fr3)
                    end
                end
            end
        end
    end.

Fixpoint string_insert_recursive (mx mn : nat) (key : cstr) (row : Z) (n : node cstr) (fr : nat)
    : ins_res * nat :=
  match n with
  | Leaf l => string_leaf_insert mx mn key row l fr
  | Inner keys cs =>
      let i := upper_bound keys key in
      let '(r, fr1) :=
        at_child (fun c => string_insert_recursive mx mn key row c fr) (InsCrash, fr) cs i in
      inner_insert alloc_ok mx keys cs i r fr1
  end.

(** An empty key is refused with -1. *)
Definition bptree_string_insert (t : tree cstr) (key : cstr) (row : Z)
    : option (Z * tree cstr) :=
  match key with
  | [] => Some (-1, t)
  | _ =>
      match string_insert_recursive (tree_max_keys t) (tree_min_leaf_keys t) key row
              (root t) (brk t) with
      | (InsCrash, _) => None
      | (InsFail n, fr) => Some (-1, mkTree n (tord t) fr)
      | (InsDup, fr) => Some (0, mkTree (root t) (tord t) fr)
      | (InsDone n, fr) => Some (1, mkTree n (tord t) fr)
      | (InsSplit n pk child, fr) =>
          match create_node alloc_ok fr with
          | (None, fr1) => Some (-1, mkTree n (tord t) fr1)
          | (Some _, fr1) => Some (1, mkTree (Inner [pk] [n; child]) (tord t) fr1)
          end
      end
  end.

Definition bptree_string_delete (t : tree cstr) (key : cstr) : Z * tree cstr :=
  match key with
  | [] => (0, t)
  | _ => bptree_delete t key
  end.

Definition bptree_string_create : option (tree cstr) := bptree_create alloc_ok.
Definition bptree_string_create_with_order (ord : Z) : option (tree cstr) :=
  bptree_create_with_order alloc_ok ord.
Definition bptree_string_clear (t : tree cstr) : option (tree cstr) := bptree_clear alloc_ok t.
Definition bptree_string_search (t : tree cstr) (key : cstr) : option Z := bptree_search t key.
Definition bptree_string_range_search {C} (t : tree cstr) (lo hi : cstr) (v : visitor C) (c : C)
    : option (bool * C) := bptree_range_search t lo hi v c.
Definition bptree_string_visit_pairs {C} (t : tree cstr) (v : visitor C) (c : C)
    : option (bool * C) := bptree_visit_pairs t v c.

(** The copies of the separators of one parent. *)
Fixpoint dup_keys (ks : list cstr) (fr : nat) : option (list cstr) * nat :=
  match ks with
  | [] => (Some [], fr)
  | k :: ks' =>
      match dup_key k fr with
      | (None, fr1) => (None, fr1)
      | (Some k', fr1) =>
          match dup_keys ks' fr1 with
          | (None, fr2) => (None, fr2)
          | (Some ks2, fr2) => (Some (k' :: ks2), fr2)
          end
      end
  end.

Definition string_mk_parent (group : list (node cstr)) (fr : nat) : option (node cstr) * nat :=
  match mapM first_key (drop 1 group) with
  | None => (None, fr)
  | Some ks =>
      match dup_keys ks fr with
      | (None, fr1) => (None, fr1)
      | (Some ks', fr1) => (Some (Inner ks' group), fr1)
      end
  end.

Fixpoint string_build_level (fuel ord : nat) (level : list (node cstr)) (fr : nat)
    : option (list (node cstr)) * nat :=
  match fuel with
  | O => (Some [], fr)
  | S f =>
      match level with
      | [] => (Some [], fr)
      | _ =>
          match create_node alloc_ok fr with
          | (None, fr1) => (None, fr1)
          | (Some _, fr1) =>
              match string_mk_parent (take ord level) fr1 with
              | (None, fr2) => (None, fr2)
              | (Some p, fr2) =>
                  match string_build_level f ord (drop ord level) fr2 with
                  | (None, fr3) => (None, fr3)
                  | (Some ps, fr3) => (Some (p :: ps), fr3)
                  end
              end
          end
      end
  end.

Fixpoint string_build_up (fuel ord : nat) (level : list (node cstr)) (fr : nat)
    : option (node cstr) * nat :=
  match level with
  | [n] => (Some n, fr)
  | _ =>
      match fuel with
      | O => (None, fr)
      | S f =>
          match string_build_level (length level) ord level fr with
          | (None, fr1) => (None, fr1)
          | (Some up, fr1) => string_build_up f ord up fr1
          end
      end
  end.

Definition bptree_string_build_from_sorted (t : tree cstr) (ps : list (cstr * Z))
    : bool * tree cstr :=
  let ord := choose_order_for_count (Z.of_nat (length ps)) in
  let t0 := mkTree (root t) ord (brk t) in
  match ps with
  | [] =>
      match create_node alloc_ok (brk t) with
      | (Some id, fr) => (true, mkTree (empty_leaf id) ord fr)
      | (None, fr) => (false, mkTree (root t) ord fr)
      end
  | _ =>
      if strictly_sorted ps then
        match build_leaves alloc_ok (length ps) (tree_max_keys t0) ps (brk t) with
        | (None, fr) => (false, mkTree (root t) ord fr)
        | (Some level, fr) =>
            match string_build_up (length level) (tree_order t0) level fr with
            | (Some n, fr1) => (true, mkTree n ord fr1)
            | (None, fr1) => (false, mkTree (root t) ord fr1)
            end
        end
      else (false, t0)
  end.
End string_tree.

(** ** The string tree behaves as the generic tree *)

Lemma string_leaf_insert_eq mx mn lo hi (l : leaf cstr) key row fr :
  node_ok mx 0 lo hi (Leaf l) → (1 ≤ mn < mx)%nat →
  ∃ fr', string_leaf_insert always_ok mx mn key row l fr =
           (fst (leaf_insert always_ok mx mn key row l fr), fr') ∧
         (snd (leaf_insert always_ok mx mn key row l fr) ≤ fr')%nat.
Proof.
  intros (_ & Hmx & Hv & Hs & _)%node_ok_leaf_inv Hmn.
  unfold string_leaf_insert, leaf_insert. cbv zeta.
  destruct (hit _ _ key); [by exists fr|].
  destruct (lower_bound_spec (lkeys l) key Hs) as (Hi & _ & _).
  set (i := lower_bound (lkeys l) key) in *.
  unfold reserve_right, create_node, dup_key, always_ok.
  destruct (length (lkeys l) =? mx)%nat eqn:Ef; bool_to_prop; cbn [fst snd].
  - rewrite (proj2 (Nat.leb_gt _ _)) by (rewrite length_insert_at; lia).
    assert (∃ sep, (if (i <? mn)%nat then lkeys l !! (mn - 1)%nat
                    else if (i =? mn)%nat then Some key else lkeys l !! mn) = Some sep ∧
                   insert_at i key (lkeys l) !! mn = Some sep) as (sep & -> & Esep).
    { destruct (i <? mn)%nat eqn:E1; bool_to_prop.
      - rewrite lookup_insert_at_gt by lia. destruct (lookup_lt_is_Some_2 (lkeys l) (mn - 1)) as [k ->];
          [lia|by exists k].
      - destruct (i =? mn)%nat eqn:E2; bool_to_prop.
        + subst mn. exists key. by rewrite lookup_insert_at_eq by lia.
        + rewrite lookup_insert_at_lt by lia.
          destruct (lookup_lt_is_Some_2 (lkeys l) mn) as [k ->]; [lia|by exists k]. }
    destruct (drop mn (insert_at i key (lkeys l))) as [|pk rest] eqn:Ed.
    { apply (f_equal length) in Ed. rewrite length_drop, length_insert_at in Ed. simpl in Ed. lia. }
    assert (pk = sep) as ->.
    { rewrite <- (Nat.add_0_r mn), <- lookup_drop, Ed in Esep. simpl in Esep. congruence. }
    exists (S (S (S fr))). simpl. split; [done|lia].
  - rewrite (proj2 (Nat.leb_le _ _)) by (rewrite length_insert_at; lia).
    exists (S fr). simpl. split; [done|lia].
Qed.

Lemma inner_insert_mono mx (keys : list cstr) cs i r fr1 fr2 :
  (fr1 ≤ fr2)%nat →
  fst (inner_insert always_ok mx keys cs i r fr2) = fst (inner_insert always_ok mx keys cs i r fr1) ∧
  (snd (inner_insert always_ok mx keys cs i r fr1) ≤ snd (inner_insert always_ok mx keys cs i r fr2))%nat.
Proof.
  intros H. destruct r; simpl; try done.
  unfold reserve_right, create_node, always_ok.
  repeat (case_match; simplify_eq/=); split; done || lia.
Qed.

Lemma string_insert_recursive_eq mx mn h lo hi n key row fr :
  node_ok mx h lo hi n → ge_lo lo key → lt_hi hi key → (1 ≤ mn < mx)%nat →
  ∃ fr', string_insert_recursive always_ok mx mn key row n fr =
           (fst (insert_recursive always_ok mx mn key row n fr), fr') ∧
         (snd (insert_recursive always_ok mx mn key row n fr) ≤ fr')%nat.
Proof.
  intros H Hlo Hhi Hmn. revert Hlo Hhi.
  induction H as [lo hi l ? ? ? ?|h lo hi keys cs Hmx Hlen Hs Hr Hc IH]; intros Hlo Hhi.
  { by eapply (string_leaf_insert_eq mx mn lo hi); [constructor|]. }
  assert (inner_shape mx h lo hi keys cs) as Hsh by done.
  destruct (child_choice mx h lo hi keys cs key Hsh Hlo Hhi) as (c & Ec & Hok & Hl & Hh).
  destruct (IH _ _ Ec Hl Hh) as (fr' & E & Hfr).
  cbn [string_insert_recursive insert_recursive]. rewrite !at_child_lookup, Ec, E.
  destruct (insert_recursive always_ok mx mn key row c fr) as [r fr1]. cbn [fst snd] in *.
  destruct (inner_insert_mono mx keys cs (upper_bound keys key) r fr1 fr' Hfr) as [E1 E2].
  destruct (inner_insert always_ok mx keys cs (upper_bound keys key) r fr') as [r2 fr2].
  simpl in *. subst r2. by exists fr2.
Qed.

Lemma tree_ok_brk {K} `{!KeyOrder K} (t : tree K) fr :
  (brk t ≤ fr)%nat → tree_ok t → tree_ok (mkTree (root t) (tord t) fr).
Proof.
  intros Hle [H (? & ? & Hlt)]. split; [exact H|]. split_and!; [done|done|].
  eapply Forall_impl; [exact Hlt|]. simpl. lia.
Qed.

Lemma string_insert_refines (t : tree cstr) key row :
  tree_ok t → key ≠ [] →
  match assoc_get key (elems t) with
  | Some _ => ∃ t', bptree_string_insert always_ok t key row = Some (0, t') ∧ tree_ok t' ∧
                    elems t' = elems t ∧ tord t' = tord t
  | None => ∃ t', bptree_string_insert always_ok t key row = Some (1, t') ∧ tree_ok t' ∧
                  elems t' = assoc_put key row (elems t) ∧ tord t' = tord t
  end.
Proof.
  intros Ht Hk. pose proof (insert_refines t key row Ht) as H. destruct (Ht) as [[h Hok] _].
  destruct (tree_keys_bounds t) as [Hb1 Hb2].
  assert (tree_min_leaf_keys t < tree_max_keys t)%nat as Hb3.
  { unfold tree_min_leaf_keys. apply Nat.div_lt; lia. }
  destruct (string_insert_recursive_eq _ (tree_min_leaf_keys t) _ _ _ _ key row (brk t) Hok)
    as (fr' & E & Hfr); [done|done|lia|].
  unfold bptree_string_insert. destruct key as [|b key]; [done|]. rewrite E. clear E.
  unfold bptree_insert in H.
  destruct (insert_recursive always_ok _ _ (b :: key) row (root t) (brk t)) as [r fr].
  cbn [fst snd] in *.
  assert (∀ n fr0 fr1 P, (fr0 ≤ fr1)%nat →
    tree_ok (mkTree n (tord t) fr0) ∧ P n → tree_ok (mkTree n (tord t) fr1) ∧ P n) as Hw.
  { intros n fr0 fr1 P Hle [H1 H2]. split; [|done]. by apply (tree_ok_brk _ fr1) in H1. }
  destruct (assoc_get (b :: key) (elems t)); destruct H as (t' & E & H1 & H2 & H3);
    destruct r; simplify_eq; simpl in *; simplify_eq; eexists; (split; [done|]);
    (split; [eapply (tree_ok_brk (mkTree _ _ _)); [|exact H1]; simpl; lia|done]).
Qed.

Lemma string_build_level_eq fuel ord level fr :
  ∃ fr', string_build_level always_ok fuel ord level fr =
           (fst (build_level always_ok fuel ord level fr), fr') ∧ (fr ≤ fr')%nat.
Proof.
  assert (∀ ks fr, ∃ fr', dup_keys always_ok ks fr = (Some ks, fr') ∧ (fr ≤ fr')%nat) as Hd.
  { induction ks as [|k ks IH]; intros fr0; simpl; [by exists fr0|].
    destruct (IH (S fr0)) as (fr' & -> & ?). exists fr'. split; [done|lia]. }
  revert level fr; induction fuel as [|fuel IH]; intros level fr; [by exists fr|].
  destruct level as [|n level]; [by exists fr|].
  cbn [string_build_level build_level create_node]. simpl (always_ok _). cbv iota.
  unfold string_mk_parent, mk_parent.
  destruct (mapM first_key (drop 1 (take ord (n :: level)))) as [ks|]; simpl (mbind _ _).
  - destruct (Hd ks (S fr)) as (fr1 & -> & Hle).
    destruct (IH (drop ord (n :: level)) fr1) as (fr2 & -> & Hle2).
    rewrite (build_level_fr _ _ _ fr1 (S fr)).
    destruct (build_level always_ok fuel ord _ (S fr)) as [[up|] fr3]; simpl; exists fr2; split; done || lia.
  - exists (S fr). destruct (build_level always_ok fuel ord _ (S fr)) as [? ?]. split; [done|lia].
Qed.

Lemma string_build_up_eq fuel ord level fr0 fr :
  ∃ fr', string_build_up always_ok fuel ord level fr =
           (fst (build_up always_ok fuel ord level fr0), fr') ∧ (fr ≤ fr')%nat.
Proof.
  revert level fr0 fr; induction fuel as [|fuel IH]; intros level fr0 fr.
  { destruct level as [|? [|? ?]]; simpl; by exists fr. }
  destruct level as [|n1 [|n2 level]]; [|by exists fr|].
  - simpl. apply IH.
  - set (lv := n1 :: n2 :: level).
    change (string_build_up always_ok (S fuel) ord lv fr) with
      (match string_build_level always_ok (length lv) ord lv fr with
       | (None, fr1) => (None, fr1)
       | (Some up, fr1) => string_build_up always_ok fuel ord up fr1
       end).
    change (build_up always_ok (S fuel) ord lv fr0) with
      (match build_level always_ok (length lv) ord lv fr0 with
       | (None, fr1) => (None, fr1)
       | (Some up, fr1) => build_up always_ok fuel ord up fr1
       end).
    destruct (string_build_level_eq (length lv) ord lv fr) as (fr1 & -> & Hle).
    rewrite (build_level_fr _ _ _ fr fr0).
    destruct (build_level always_ok (length lv) ord lv fr0) as [[up|] fr2]; simpl.
    + destruct (IH up fr2 fr1) as (fr3 & -> & ?). exists fr3. split; [done|lia].
    + exists fr1. split; [done|lia].
Qed.

Lemma string_build_refines (t : tree cstr) ps :
  StronglySorted klt ps.*1 →
  ∃ t', bptree_string_build_from_sorted always_ok t ps = (true, t') ∧ tree_ok t' ∧ elems t' = ps.
Proof.
  intros Hs. unfold bptree_string_build_from_sorted. destruct ps as [|p ps0] eqn:Eps.
  { eexists. split; [done|]. split; [|done]. apply tree_ok_empty. lia. }
  rewrite <- Eps in *. rewrite (proj2 (strictly_sorted_spec ps) Hs).
  set (ord := choose_order_for_count (Z.of_nat (length ps))).
  destruct (build_core ord ps (brk t)) as (level & fr & n & fr1 & E1 & E2 & Hle & Hel & Hok);
    [by subst ps|done|apply choose_order_order|].
  unfold tree_max_keys, tree_order. cbn [tord]. rewrite E1.
  destruct (string_build_up_eq (length level) (normalize_order ord) level fr fr) as (fr2 & -> & Hle2).
  rewrite E2. eexists. split; [done|]. split; [by apply Hok|done].
Qed.
