(* ===== verification/BPTreeIndex.v ===== *)
(** The interface of an ordered index, the two instances, and the theorems of
    [src/legacy/bptree.c]. *)

From Stdlib Require Import String.
From S2P Require Import Prelude CString BPTree BPTreeProofs BPTreeSpec BPTreeScan BPTreeString.
From stdpp Require Import base numbers list sorting.
Local Open Scope Z_scope.

(** ** What a table relies on *)

(** An ordered index maps keys to row positions.  Its contents are a strictly
    sorted association list; [ix_valid] says which keys it accepts. *)
Class OrderedIndex (K T : Type) `{!KeyOrder K} := {
  ix_valid : K → Prop;
  ix_ok : T → Prop;
  ix_elems : T → list (K * Z);
  ix_create : option T;
  ix_insert : T → K → Z → option (Z * T);
  ix_search : T → K → option Z;
  ix_range : ∀ C : Type, T → K → K → @visitor K C → C → option (bool * C);
}.

Class OrderedIndexLaws (K T : Type) `{!KeyOrder K, !OrderedIndex K T} : Prop := {
  ix_create_ok : ∃ t : T, ix_create = Some t ∧ ix_ok t ∧ ix_elems t = [];
  ix_sorted : ∀ t : T, ix_ok t → StronglySorted klt (ix_elems t).*1;
  ix_insert_new : ∀ (t : T) (key : K) row, ix_ok t → ix_valid key →
    assoc_get key (ix_elems t) = None →
    ∃ t', ix_insert t key row = Some (1, t') ∧ ix_ok t' ∧
          ix_elems t' = assoc_put key row (ix_elems t);
  ix_insert_dup : ∀ (t : T) (key : K) row, ix_ok t → ix_valid key →
    assoc_get key (ix_elems t) ≠ None →
    ∃ t', ix_insert t key row = Some (0, t');
  ix_search_get : ∀ (t : T) (key : K), ix_ok t → ix_search t key = assoc_get key (ix_elems t);
  ix_range_visit : ∀ (C : Type) (t : T) (lo hi : K) (v : @visitor K C) (c : C), ix_ok t →
    ix_range C t lo hi v c = Some (visit_leaf v (assoc_range lo hi (ix_elems t)) c);
}.

#[global] Instance long_index : OrderedIndex Z (tree Z) := {|
  ix_valid := fun _ => True;
  ix_ok := tree_ok;
  ix_elems := elems;
  ix_create := bptree_create always_ok;
  ix_insert := bptree_insert always_ok;
  ix_search := bptree_search;
  ix_range := @bptree_range_search Z _;
|}.

#[global] Instance long_index_laws : OrderedIndexLaws Z (tree Z).
Proof.
  split; simpl.
  - destruct (create_refines (K:=Z)) as (t & ? & ? & ? & _). by exists t.
  - apply tree_ok_sorted.
  - intros t key row Ht _ E. pose proof (insert_refines t key row Ht) as H. rewrite E in H.
    destruct H as (t' & ? & ? & ? & _). by exists t'.
  - intros t key row Ht _ E. pose proof (insert_refines t key row Ht) as H.
    destruct (assoc_get key (elems t)); [|done]. destruct H as (t' & ? & _). by exists t'.
  - intros. by apply search_refines.
  - intros. by apply range_refines.
Qed.

#[global] Instance string_index : OrderedIndex cstr (tree cstr) := {|
  ix_valid := fun k => k ≠ [];
  ix_ok := tree_ok;
  ix_elems := elems;
  ix_create := bptree_string_create always_ok;
  ix_insert := bptree_string_insert always_ok;
  ix_search := bptree_string_search;
  ix_range := @bptree_string_range_search;
|}.

#[global] Instance string_index_laws : OrderedIndexLaws cstr (tree cstr).
Proof.
  split; simpl.
  - destruct (create_refines (K:=cstr)) as (t & ? & ? & ? & _). by exists t.
  - apply tree_ok_sorted.
  - intros t key row Ht Hk E. pose proof (string_insert_refines t key row Ht Hk) as H.
    rewrite E in H. destruct H as (t' & ? & ? & ? & _). by exists t'.
  - intros t key row Ht Hk E. pose proof (string_insert_refines t key row Ht Hk) as H.
    destruct (assoc_get key (elems t)); [|done]. destruct H as (t' & ? & _). by exists t'.
  - intros. by apply search_refines.
  - intros. by apply range_refines.
Qed.

(** ** Sample trees *)

(** The tree of order [ord] after inserting [kvs] one by one. *)
Definition insert_or_keep (t : tree Z) (kv : Z * Z) : tree Z :=
  match bptree_insert always_ok t (fst kv) (snd kv) with Some (_, t') => t' | None => t end.

Definition tree_of (ord : Z) (kvs : list (Z * Z)) : tree Z :=
  match bptree_create_with_order always_ok ord with
  | Some t => fold_left insert_or_keep kvs t
  | None => mkTree (empty_leaf 0) ord 1
  end.

Lemma tree_of_ok ord kvs : tree_ok (tree_of ord kvs).
Proof.
  assert (∀ t : tree Z, tree_ok t → tree_ok (fold_left insert_or_keep kvs t)) as H.
  { induction kvs as [|[k r] kvs IH]; intros t Ht; simpl; [done|]. apply IH.
    unfold insert_or_keep. pose proof (insert_refines t k r Ht) as Hi. simpl.
    destruct (assoc_get k (elems t)); destruct Hi as (t' & -> & ? & _); done. }
  apply H, tree_ok_empty. lia.
Qed.

Definition sample_keys (n : nat) : list (Z * Z) :=
  map (fun i => ((Z.of_nat i * 37) mod 101, Z.of_nat i)) (seq 0 n).

Lemma insert_total (t : tree Z) key row : tree_ok t → bptree_insert always_ok t key row ≠ None.
Proof.
  intros Ht. pose proof (insert_refines t key row Ht) as H.
  destruct (assoc_get key (elems t)); destruct H as (t' & -> & _); done.
Qed.

(** ** Claims *)

(** C10. [bptree_insert] on a well-formed tree, without allocation failure,
    returns 0 and leaves the contents alone when the key is present;
    otherwise it returns 1, and the new tree is well formed (sorted nodes no
    fuller than [order - 1] keys, separators that bound the subtrees, all
    leaves at one depth, [next] links through all leaves) and holds exactly
    the old entries and the new one, in key order. *)
Theorem bptree_insert_correct (t : tree Z) (key row : Z) :
  tree_ok t →
  match assoc_get key (elems t) with
  | Some _ => ∃ t', bptree_insert always_ok t key row = Some (0, t') ∧ tree_ok t' ∧
                    elems t' = elems t
  | None => ∃ t', bptree_insert always_ok t key row = Some (1, t') ∧ tree_ok t' ∧
                  elems t' = assoc_put key row (elems t)
  end.
Proof.
  intros Ht. pose proof (insert_refines t key row Ht) as H.
  destruct (assoc_get key (elems t)); destruct H as (t' & ? & ? & ? & _); by exists t'.
Qed.

Lemma bptree_insert_correct_witness :
  assoc_get 102 (elems (tree_of 8 (sample_keys 60))) = None ∧
  ∃ t', bptree_insert always_ok (tree_of 8 (sample_keys 60)) 102 7 = Some (1, t') ∧ tree_ok t' ∧
        elems t' = assoc_put 102 7 (elems (tree_of 8 (sample_keys 60))).
Proof.
  pose proof (bptree_insert_correct (tree_of 8 (sample_keys 60)) 102 7 (tree_of_ok _ _)) as H.
  assert (assoc_get 102 (elems (tree_of 8 (sample_keys 60))) = None) as E by (vm_compute; reflexivity).
  rewrite E in H. split; [exact E|exact H].
Defined.

(** [bptree_search] finds a row exactly when the key is in the tree, and
    the row it reports is the one stored with the key. *)
Theorem bptree_search_correct (t : tree Z) (key row : Z) :
  tree_ok t → bptree_search t key = Some row ↔ (key, row) ∈ elems t.
Proof.
  intros Ht. rewrite search_refines by done. apply assoc_get_Some. by apply tree_ok_sorted.
Qed.

Lemma bptree_search_correct_witness :
  bptree_search (tree_of 8 (sample_keys 60)) 37 = Some 1 ↔
  (37, 1) ∈ elems (tree_of 8 (sample_keys 60)).
Proof. apply (bptree_search_correct (tree_of 8 (sample_keys 60)) 37 1). apply tree_of_ok. Defined.

(** [bptree_range_search] terminates along the leaf chain and calls the
    visitor on the entries with keys in [start_key, end_key], in increasing key
    order, stopping when the visitor returns 0; an empty range visits nothing. *)
Theorem bptree_range_search_correct {C : Type} (t : tree Z) (start_key end_key : Z)
    (v : @visitor Z C) (ctx : C) :
  tree_ok t →
  bptree_range_search t start_key end_key v ctx =
    Some (visit_leaf v (assoc_range start_key end_key (elems t)) ctx).
Proof. apply range_refines. Qed.

Lemma bptree_range_search_correct_witness :
  bptree_range_search (tree_of 8 (sample_keys 60)) 30 40 (fun k _ ks => (true, ks ++ [k])) [] =
    Some (true, [30; 32; 33; 36; 37; 39; 40]).
Proof.
  rewrite (bptree_range_search_correct (tree_of 8 (sample_keys 60)) 30 40
             (fun k _ ks => (true, ks ++ [k])) [] (tree_of_ok _ _)).
  vm_compute. reflexivity.
Defined.

(** [bptree_delete] returns 1 exactly when the key is present, keeps the
    tree well formed and removes that entry only. *)
Theorem bptree_delete_correct (t : tree Z) (key : Z) :
  tree_ok t →
  tree_ok (snd (bptree_delete t key)) ∧
  elems (snd (bptree_delete t key)) = assoc_del key (elems t) ∧
  (fst (bptree_delete t key) = 1 ↔ key ∈ (elems t).*1).
Proof.
  intros Ht. pose proof (delete_refines t key Ht) as H.
  destruct (bptree_delete t key) as [rc t']. simpl. destruct H as (? & ? & ->).
  split_and!; [done|done|].
  destruct (assoc_get key (elems t)) eqn:E.
  - apply assoc_get_Some in E; [|by apply tree_ok_sorted]. split; [|done]. intros _.
    apply list_elem_of_fmap. by eexists (_, _).
  - apply assoc_get_None in E. split; [done|]. by intros ?%E.
Qed.

Lemma bptree_delete_correct_witness :
  tree_ok (snd (bptree_delete (tree_of 8 (sample_keys 60)) 37)) ∧
  bptree_search (snd (bptree_delete (tree_of 8 (sample_keys 60)) 37)) 37 = None.
Proof.
  split; [apply (bptree_delete_correct (tree_of 8 (sample_keys 60)) 37 (tree_of_ok _ _))|].
  vm_compute. reflexivity.
Defined.

(** [bptree_build_from_sorted] on strictly increasing pairs succeeds, from
    any previous tree, with a well-formed tree that holds exactly the pairs,
    for every count (and so every order the count selects). *)
Theorem bptree_build_from_sorted_correct (t : tree Z) (pairs : list (Z * Z)) :
  StronglySorted Z.lt pairs.*1 →
  ∃ t', bptree_build_from_sorted always_ok t pairs = (true, t') ∧ tree_ok t' ∧ elems t' = pairs.
Proof.
  intros Hs. apply build_refines. revert Hs. generalize pairs.*1. intros ks.
  induction 1 as [|k ks _ IH Hk]; constructor; [done|].
  eapply Forall_impl; [exact Hk|]. intros x. apply Z.compare_lt_iff.
Qed.

Lemma bptree_build_from_sorted_correct_witness :
  ∃ t', bptree_build_from_sorted always_ok (tree_of 8 []) [(1, 10); (5, 11); (9, 12)] = (true, t') ∧
        tree_ok t' ∧ elems t' = [(1, 10); (5, 11); (9, 12)].
Proof.
  apply (bptree_build_from_sorted_correct (tree_of 8 []) [(1, 10); (5, 11); (9, 12)]).
  simpl. repeat constructor; lia.
Defined.

(** The string tree is the same ordered map: [bptree_string_insert]
    refuses the empty key with -1 and no change; for any other key it behaves
    as the [long] tree does, although it chooses and copies the separator
    before moving the entries. *)
Theorem bptree_string_insert_correct (t : tree cstr) (key : cstr) (row : Z) :
  tree_ok t →
  match key, assoc_get key (elems t) with
  | [], _ => bptree_string_insert always_ok t key row = Some (-1, t)
  | _, Some _ => ∃ t', bptree_string_insert always_ok t key row = Some (0, t') ∧ tree_ok t' ∧
                       elems t' = elems t
  | _, None => ∃ t', bptree_string_insert always_ok t key row = Some (1, t') ∧ tree_ok t' ∧
                     elems t' = assoc_put key row (elems t)
  end.
Proof.
  intros Ht. destruct key as [|b key]; [done|].
  pose proof (string_insert_refines t (b :: key) row Ht) as H. specialize (H ltac:(done)).
  destruct (assoc_get (b :: key) (elems t)); destruct H as (t' & ? & ? & ? & _); by exists t'.
Qed.

Lemma bptree_string_insert_correct_witness :
  ∃ t', bptree_string_insert always_ok (mkTree (empty_leaf 0) 8 1) (lit "a@x.com") 3 = Some (1, t') ∧
        tree_ok t' ∧ elems t' = [(lit "a@x.com", 3)].
Proof.
  apply (bptree_string_insert_correct (mkTree (empty_leaf 0) 8 1) (lit "a@x.com") 3).
  apply tree_ok_empty. lia.
Defined.

(** The seven-key tree whose root leaf is full. *)
Definition full_leaf_tree : tree Z := tree_of 8 (map (fun i => (Z.of_nat i, 0)) (seq 1 7)).

(** When the split of the root leaf succeeds but the new root cannot be
    allocated, [bptree_insert] reports -1 and the keys moved to the right half
    are no longer in the tree: a failed insertion loses committed keys. *)
Theorem bptree_insert_oom_loses_keys :
  ∃ (alloc_ok : nat → bool) t',
    bptree_insert alloc_ok full_leaf_tree 8 0 = Some (-1, t') ∧
    (elems full_leaf_tree).*1 = [1; 2; 3; 4; 5; 6; 7] ∧ (elems t').*1 = [1; 2; 3].
Proof.
  exists (fun n => (n <? 2)%nat). eexists. split; [vm_compute; reflexivity|].
  split; vm_compute; reflexivity.
Qed.

(** A bulk load of unsorted pairs is refused, but the tree keeps the order
    chosen for the refused input; with the old, fuller nodes the next insertion
    then splits without having created the right sibling (a write through
    NULL). *)
Theorem bptree_failed_build_breaks_tree :
  ∃ t', let t := tree_of 32 (map (fun i => (Z.of_nat i, 0)) (seq 1 20)) in
    tree_ok t ∧ bptree_build_from_sorted always_ok t [(2, 0); (1, 0)] = (false, t') ∧
    elems t' = elems t ∧ ¬ tree_ok t' ∧ bptree_insert always_ok t' 21 0 = None.
Proof.
  eexists. split_and!; [apply tree_of_ok|reflexivity|vm_compute; reflexivity| |vm_compute; reflexivity].
  intros Ht. apply (insert_total _ 21 0 Ht). vm_compute. reflexivity.
Qed.
