(* ===== verification/Lexer.v ===== *)
(** The SQL lexer, [src/legacy/lexer.c], with the token types of
    [src/legacy/types.h]. *)

From Stdlib Require Import String.
From S2P Require Import Prelude CString.
From stdpp Require Import base numbers list.
Local Open Scope Z_scope.

Inductive SqlTokenType :=
| TOKEN_EOF | TOKEN_ILLEGAL | TOKEN_IDENTIFIER | TOKEN_STRING | TOKEN_NUMBER
| TOKEN_SELECT | TOKEN_INSERT | TOKEN_UPDATE | TOKEN_DELETE | TOKEN_FROM | TOKEN_WHERE
| TOKEN_SET | TOKEN_INTO | TOKEN_VALUES | TOKEN_STAR | TOKEN_COMMA | TOKEN_LPAREN
| TOKEN_RPAREN | TOKEN_EQ | TOKEN_BETWEEN | TOKEN_AND | TOKEN_SEMICOLON.

#[global] Instance SqlTokenType_eq_dec : EqDecision SqlTokenType.
Proof. solve_decision. Defined.

Record Token := mkToken { ttype : SqlTokenType; text : cstr }.
Record Lexer := mkLexer { sql : cstr; pos : nat }.

(** The size of [Token.text]. *)
Definition TEXT_SIZE : nat := 256.

(** The text from the current position on. *)
Definition rest (l : Lexer) : cstr := drop (pos l) (sql l).

Definition init_lexer (s : cstr) : Lexer :=
  match s with
  | a :: b :: c :: _ =>
      if (a =? 239) && (b =? 187) && (c =? 191) then mkLexer s 3 else mkLexer s 0
  | _ => mkLexer s 0
  end.

(** How many characters at the head of [s] satisfy [p]. *)
Fixpoint span_len (p : Z → bool) (s : cstr) : nat :=
  match s with
  | c :: s' => if p c then S (span_len p s') else O
  | [] => O
  end.

(** [isalnum(c) || strchr("_-.", c)]. *)
Definition ident_char (c : Z) : bool :=
  isalnum c || (c =? 95) || (c =? 45) || (c =? 46).

(** [isalpha(c) || c == '_']. *)
Definition ident_start (c : Z) : bool := isalpha c || (c =? 95).

(** The members of ["*,=();"]. *)
Definition punct (c : Z) : option SqlTokenType :=
  if c =? 42 then Some TOKEN_STAR
  else if c =? 44 then Some TOKEN_COMMA
  else if c =? 61 then Some TOKEN_EQ
  else if c =? 40 then Some TOKEN_LPAREN
  else if c =? 41 then Some TOKEN_RPAREN
  else if c =? 59 then Some TOKEN_SEMICOLON
  else None.

Definition keyword (t : cstr) : SqlTokenType :=
  let upper_text := map toupper t in
  if streq upper_text (lit "SELECT") then TOKEN_SELECT
  else if streq upper_text (lit "INSERT") then TOKEN_INSERT
  else if streq upper_text (lit "UPDATE") then TOKEN_UPDATE
  else if streq upper_text (lit "DELETE") then TOKEN_DELETE
  else if streq upper_text (lit "FROM") then TOKEN_FROM
  else if streq upper_text (lit "WHERE") then TOKEN_WHERE
  else if streq upper_text (lit "SET") then TOKEN_SET
  else if streq upper_text (lit "INTO") then TOKEN_INTO
  else if streq upper_text (lit "VALUES") then TOKEN_VALUES
  else if streq upper_text (lit "BETWEEN") then TOKEN_BETWEEN
  else if streq upper_text (lit "AND") then TOKEN_AND
  else TOKEN_IDENTIFIER.

(** The token at the head of [s], white space skipped, and the number of
    characters consumed after the white space. *)
Definition lex_token (s : cstr) : Token * nat :=
  match s with
  | [] => (mkToken TOKEN_EOF [], O)
  | c :: s' =>
      match punct c with
      | Some ty => (mkToken ty [c], 1%nat)
      | None =>
          if c =? QUOTE then
            let len := span_len (fun d => negb (d =? QUOTE)) s' in
            let close := if (len <? length s')%nat then 1%nat else 0%nat in
            (mkToken TOKEN_STRING (strcpy_sz TEXT_SIZE (take len s')), (1 + len + close)%nat)
          else if ident_start c then
            let len := span_len ident_char s in
            let t := strcpy_sz TEXT_SIZE (take len s) in
            (mkToken (keyword t) t, len)
          else if isdigit c then
            let len := span_len ident_char s in
            (mkToken TOKEN_NUMBER (strcpy_sz TEXT_SIZE (take len s)), len)
          else (mkToken TOKEN_ILLEGAL [], O)
      end
  end.

Definition get_next_token (l : Lexer) : Token * Lexer :=
  let ws := span_len isspace (rest l) in
  let '(t, n) := lex_token (drop ws (rest l)) in
  (t, mkLexer (sql l) (pos l + ws + n)%nat).

(** ** Facts *)

Lemma span_len_le p s : (span_len p s ≤ length s)%nat.
Proof. induction s; simpl; [lia|]. case_if; lia. Qed.

Lemma span_len_app p w s :
  forallb p w = true → match s with [] => True | c :: _ => p c = false end →
  span_len p (w ++ s) = length w.
Proof.
  induction w as [|c w IH]; simpl; intros Hw Hs.
  - destruct s as [|c s]; simpl; [done|]. by rewrite Hs.
  - bool_to_prop. rewrite H. f_equal. by apply IH.
Qed.

Lemma span_len_take p s : forallb p (take (span_len p s) s) = true.
Proof. induction s as [|c s IH]; simpl; [done|]. destruct (p c) eqn:E; simpl; [by rewrite E|done]. Qed.

Lemma lex_token_text s : (length (text (fst (lex_token s))) ≤ TEXT_SIZE - 1)%nat.
Proof.
  unfold lex_token, strcpy_sz, TEXT_SIZE. destruct s as [|c s]; simpl; [lia|].
  destruct (punct c); simpl; [lia|].
  repeat case_if; simpl; rewrite ?length_take; lia.
Qed.

Lemma lex_token_consumed s : (snd (lex_token s) ≤ length s)%nat.
Proof.
  unfold lex_token. destruct s as [|c s]; simpl; [lia|].
  destruct (punct c); simpl; [lia|].
  pose proof (span_len_le (fun d => negb (d =? QUOTE)) s). pose proof (span_len_le ident_char (c :: s)) as Hs.
  destruct (c =? QUOTE); simpl; [case_if; bool_to_prop; lia|].
  simpl in Hs. repeat case_if; simpl; lia.
Qed.

Lemma lex_token_progress s :
  let t := fst (lex_token s) in
  ttype t ≠ TOKEN_EOF → ttype t ≠ TOKEN_ILLEGAL → (0 < snd (lex_token s))%nat.
Proof.
  unfold lex_token. destruct s as [|c s]; simpl; [done|].
  destruct (punct c) eqn:Ep; simpl; [lia|].
  destruct (c =? QUOTE) eqn:E1; simpl; [lia|].
  unfold ident_char, ident_start, isalnum. destruct (isalpha c) eqn:E2; simpl; [lia|].
  destruct (c =? 95) eqn:E3; simpl; [rewrite orb_true_r; simpl; lia|].
  destruct (isdigit c) eqn:E4; simpl; [lia|done].
Qed.

(** [Lexes l t l']: reading a token moves the lexer to [s'] within [sql]. *)
Lemma get_next_token_rest l :
  let ws := span_len isspace (rest l) in
  sql (snd (get_next_token l)) = sql l ∧
  fst (get_next_token l) = fst (lex_token (drop ws (rest l))) ∧
  rest (snd (get_next_token l)) = drop (ws + snd (lex_token (drop ws (rest l)))) (rest l).
Proof.
  unfold get_next_token. cbv zeta. destruct (lex_token _) as [t n]. simpl.
  split_and!; [done|done|]. unfold rest. simpl. rewrite drop_drop. f_equal. lia.
Qed.

(** Reading over white space [w], then a token spelt [x], with [s] to follow. *)
Lemma get_next_token_at l w x s t :
  rest l = w ++ x ++ s → forallb isspace w = true →
  match x ++ s with [] => True | c :: _ => isspace c = false end →
  lex_token (x ++ s) = (t, length x) →
  ∃ l', get_next_token l = (t, l') ∧ sql l' = sql l ∧ rest l' = s ∧
        pos l' = (pos l + length w + length x)%nat.
Proof.
  intros Hr Hw Hx Hl. pose proof (get_next_token_rest l) as (E1 & E2 & E3).
  assert (span_len isspace (rest l) = length w) as Hs by (rewrite Hr; by apply span_len_app).
  rewrite Hs, Hr, drop_app_length, Hl in E2, E3. simpl in E2, E3.
  assert (pos (snd (get_next_token l)) = (pos l + length w + length x)%nat) as Ep.
  { unfold get_next_token. rewrite Hs, Hr, drop_app_length, Hl. done. }
  destruct (get_next_token l) as [t' l']. simpl in *. subst t'. exists l'.
  split_and!; [done|done| |done].
  rewrite E3. rewrite <- drop_drop, drop_app_length, drop_app_length. done.
Qed.
