(* ===== verification/Parser.v ===== *)
(** The SQL parser, [src/legacy/parser.c], with the statements of
    [src/legacy/types.h]. *)

From Stdlib Require Import String.
From S2P Require Import Prelude CString Lexer.
From stdpp Require Import base numbers list option.
Local Open Scope Z_scope.

(** ** Statements *)

Inductive StatementType :=
| STMT_INSERT | STMT_SELECT | STMT_DELETE | STMT_UPDATE | STMT_UNRECOGNIZED.

Inductive WhereType := WHERE_NONE | WHERE_EQ | WHERE_BETWEEN.

Record WhereCondition := mkCond {
  wc_type : WhereType;
  wc_col : cstr;
  wc_val : cstr;
  wc_end_val : cstr;
}.

(** [select_col_count] and [where_count] are the lengths of the lists. *)
Record Statement := mkStmt {
  stype : StatementType;
  table_name : cstr;
  row_data : cstr;
  select_all : bool;
  select_cols : list cstr;
  set_col : cstr;
  set_val : cstr;
  where_conditions : list WhereCondition;
  where_type : WhereType;
  where_col : cstr;
  where_val : cstr;
  where_end_val : cstr;
}.

#[global] Instance StatementType_eq_dec : EqDecision StatementType.
Proof. solve_decision. Defined.
#[global] Instance WhereType_eq_dec : EqDecision WhereType.
Proof. solve_decision. Defined.
#[global] Instance WhereCondition_eq_dec : EqDecision WhereCondition.
Proof. solve_decision. Defined.
#[global] Instance Statement_eq_dec : EqDecision Statement.
Proof. solve_decision. Defined.

Definition MAX_COLS : nat := 15.
Definition MAX_WHERE_CONDITIONS : nat := 8.
Definition COL_SIZE : nat := 50.
Definition VAL_SIZE : nat := 256.
Definition TABLE_SIZE : nat := 256.
Definition ROW_DATA_SIZE : nat := 1024.

(** [memset(stmt, 0, ...)] with the type set. *)
Definition stmt0 (ty : StatementType) : Statement :=
  mkStmt ty [] [] false [] [] [] [] WHERE_NONE [] [] [].

(** ** The parser state and its monad: a failure is the return value 0 *)

Record Parser := mkParser { lexer : Lexer; current_token : Token }.

Definition parse (A : Type) : Type := Parser → option (A * Parser).

#[global] Instance parse_ret : MRet parse := fun A x p => Some (x, p).
#[global] Instance parse_bind : MBind parse := fun A B k m p =>
  match m p with Some (x, p') => k x p' | None => None end.

Definition pfail {A} : parse A := fun _ => None.
Definition peek : parse Token := fun p => Some (current_token p, p).
Definition guardb (b : bool) : parse unit := fun p => if b then Some (tt, p) else None.

Definition advance_parser : parse unit := fun p =>
  let '(t, l) := get_next_token (lexer p) in Some (tt, mkParser l t).

Definition is_type (ty : SqlTokenType) (t : Token) : bool := bool_decide (ttype t = ty).

Definition expect_token (ty : SqlTokenType) : parse unit :=
  t ← peek; _ ← guardb (is_type ty t); advance_parser.

Definition finish_statement {A} (m : parse A) : parse A :=
  x ← m; t ← peek; _ ← guardb (is_type TOKEN_EOF t); mret x.

(** The token types of a literal. *)
Definition is_literal (t : Token) : bool :=
  is_type TOKEN_STRING t || is_type TOKEN_NUMBER t || is_type TOKEN_IDENTIFIER t.

Definition parse_literal (dest_size : nat) : parse cstr :=
  t ← peek;
  _ ← guardb (is_literal t);
  _ ← advance_parser;
  mret (strcpy_sz dest_size (text t)).

(** An identifier copied into an array of [dest_size]. *)
Definition parse_identifier (dest_size : nat) : parse cstr :=
  t ← peek;
  _ ← guardb (is_type TOKEN_IDENTIFIER t);
  _ ← advance_parser;
  mret (strcpy_sz dest_size (text t)).

Definition parse_one_condition (where_count : nat) : parse WhereCondition :=
  _ ← guardb (where_count <? MAX_WHERE_CONDITIONS)%nat;
  col ← parse_identifier COL_SIZE;
  t ← peek;
  if is_type TOKEN_BETWEEN t then
    _ ← advance_parser;
    v ← parse_literal VAL_SIZE;
    _ ← expect_token TOKEN_AND;
    e ← parse_literal VAL_SIZE;
    mret (mkCond WHERE_BETWEEN col v e)
  else
    _ ← expect_token TOKEN_EQ;
    v ← parse_literal VAL_SIZE;
    mret (mkCond WHERE_EQ col v []).

(** [while (current == AND) { advance; parse_one_condition; }]: each round adds
    a condition and [parse_one_condition] refuses the ninth, so
    [MAX_WHERE_CONDITIONS] rounds are enough. *)
Fixpoint parse_conditions (fuel : nat) (conds : list WhereCondition)
    : parse (list WhereCondition) :=
  t ← peek;
  if is_type TOKEN_AND t then
    match fuel with
    | O => pfail
    | S f =>
        _ ← advance_parser;
        c ← parse_one_condition (length conds);
        parse_conditions f (conds ++ [c])
    end
  else mret conds.

(** The copies of the first condition into the scalar fields. *)
Definition set_where (st : Statement) (conds : list WhereCondition) : Statement :=
  match conds with
  | [] => st
  | c :: _ =>
      mkStmt (stype st) (table_name st) (row_data st) (select_all st) (select_cols st)
        (set_col st) (set_val st) conds (wc_type c) (strcpy_sz COL_SIZE (wc_col c))
        (strcpy_sz VAL_SIZE (wc_val c)) (strcpy_sz VAL_SIZE (wc_end_val c))
  end.

Definition parse_where_clause (st : Statement) : parse Statement :=
  t ← peek;
  if is_type TOKEN_WHERE t then
    _ ← advance_parser;
    c ← parse_one_condition 0;
    conds ← parse_conditions MAX_WHERE_CONDITIONS [c];
    mret (set_where st conds)
  else mret st.

(** The offset of the first [)] outside single quotes. *)
Fixpoint find_values_close_paren (in_quote : bool) (s : cstr) : option nat :=
  match s with
  | [] => None
  | c :: s' =>
      if c =? QUOTE then S <$> find_values_close_paren (negb in_quote) s'
      else if (c =? 41) && negb in_quote then Some 0%nat
      else S <$> find_values_close_paren in_quote s'
  end.

Definition only_trailing_space (s : cstr) : bool := forallb isspace s.

(** The column list of SELECT; the current token is its first identifier. *)
Fixpoint parse_select_cols (fuel : nat) (cols : list cstr) : parse (list cstr) :=
  match fuel with
  | O => pfail
  | S f =>
      _ ← guardb (length cols <? MAX_COLS)%nat;
      t ← peek;
      let cols' := cols ++ [strcpy_sz COL_SIZE (text t)] in
      _ ← advance_parser;
      t2 ← peek;
      if is_type TOKEN_COMMA t2 then
        _ ← advance_parser;
        t3 ← peek;
        _ ← guardb (is_type TOKEN_IDENTIFIER t3);
        parse_select_cols f cols'
      else mret cols'
  end.

Definition parse_select : parse Statement :=
  _ ← advance_parser;
  t ← peek;
  hd ← (if is_type TOKEN_STAR t then _ ← advance_parser; mret (true, [])
        else if is_type TOKEN_IDENTIFIER t then
          cols ← parse_select_cols (S MAX_COLS) []; mret (false, cols)
        else pfail);
  _ ← expect_token TOKEN_FROM;
  name ← parse_identifier TABLE_SIZE;
  parse_where_clause
    (mkStmt STMT_SELECT name [] (fst hd) (snd hd) [] [] [] WHERE_NONE [] [] []).

(** The text between the parentheses is copied as it stands. *)
Definition parse_values : parse cstr := fun p =>
  let s := rest (lexer p) in
  match find_values_close_paren false s with
  | None => None
  | Some len =>
      if only_trailing_space (drop (S len) s) then
        Some (strcpy_sz ROW_DATA_SIZE (take len s),
              mkParser (mkLexer (sql (lexer p)) (pos (lexer p) + len + 1)) (current_token p))
      else None
  end.

Definition parse_insert : parse Statement :=
  _ ← advance_parser;
  _ ← expect_token TOKEN_INTO;
  name ← parse_identifier TABLE_SIZE;
  _ ← expect_token TOKEN_VALUES;
  t ← peek;
  _ ← guardb (is_type TOKEN_LPAREN t);
  data ← parse_values;
  _ ← advance_parser;
  t' ← peek;
  _ ← guardb (is_type TOKEN_EOF t');
  mret (mkStmt STMT_INSERT name data false [] [] [] [] WHERE_NONE [] [] []).

Definition parse_update : parse Statement :=
  _ ← advance_parser;
  name ← parse_identifier TABLE_SIZE;
  _ ← expect_token TOKEN_SET;
  col ← parse_identifier COL_SIZE;
  _ ← expect_token TOKEN_EQ;
  v ← parse_literal VAL_SIZE;
  parse_where_clause (mkStmt STMT_UPDATE name [] false [] col v [] WHERE_NONE [] [] []).

Definition parse_delete : parse Statement :=
  _ ← advance_parser;
  _ ← expect_token TOKEN_FROM;
  name ← parse_identifier TABLE_SIZE;
  parse_where_clause (mkStmt STMT_DELETE name [] false [] [] [] [] WHERE_NONE [] [] []).

(** [parse_statement]: [None] is the return value 0. *)
Definition parse_statement (s : cstr) : option Statement :=
  let '(t, l) := get_next_token (init_lexer s) in
  let p := mkParser l t in
  let run (m : parse Statement) := fst <$> m p in
  match ttype t with
  | TOKEN_SELECT => run (finish_statement parse_select)
  | TOKEN_INSERT => run parse_insert
  | TOKEN_UPDATE => run (finish_statement parse_update)
  | TOKEN_DELETE => run (finish_statement parse_delete)
  | _ => None
  end.

Example parse_ex1 :
  stype <$> parse_statement (lit "select id,name from users where id between 1 and 5 and name = 'a b'")
  = Some STMT_SELECT.
Proof. vm_compute. reflexivity. Qed.

Example parse_ex2 :
  row_data <$> parse_statement (lit "INSERT INTO users VALUES (1, 'a)b', x)  ") = Some (lit "1, 'a)b', x").
Proof. vm_compute. reflexivity. Qed.

Example parse_ex3 : parse_statement (lit "SELECT * FROM users;") = None.
Proof. vm_compute. reflexivity. Qed.
