(* ===== verification/ParserProofs.v ===== *)
(** What the SQL parser accepts and returns: every parsed statement fits the
    arrays of [Statement], and a statement printed as SQL text parses back. *)

From Stdlib Require Import String.
From S2P Require Import Prelude CString Lexer Parser.
From stdpp Require Import base numbers list option.
Local Open Scope Z_scope.

(** ** Results of the parser monad *)

(** Every successful run of [m] returns a value in [Q]. *)
Definition yields {A} (m : parse A) (Q : A → Prop) : Prop :=
  ∀ p x p', m p = Some (x, p') → Q x.

Lemma bind_Some_inv {A B} (m : parse A) (k : A → parse B) p r :
  (x ← m; k x) p = Some r → ∃ x p', m p = Some (x, p') ∧ k x p' = Some r.
Proof.
  unfold mbind, parse_bind. destruct (m p) as [[x p']|]; [|done]. intros. by exists x, p'.
Qed.

Lemma bind_Some {A B} (m : parse A) (k : A → parse B) p x p' :
  m p = Some (x, p') → (m ≫= k) p = k x p'.
Proof. intros E. unfold mbind, parse_bind. by rewrite E. Qed.

Lemma yields_bind {A B} (m : parse A) (k : A → parse B) P Q :
  yields m P → (∀ x, P x → yields (k x) Q) → yields (x ← m; k x) Q.
Proof.
  intros Hm Hk p y p' (x & p1 & E1 & E2)%bind_Some_inv. eapply Hk; [|exact E2]. by eapply Hm.
Qed.

Lemma yields_ret {A} (x : A) (Q : A → Prop) : Q x → yields (mret x) Q.
Proof. intros H p y p' E. by injection E as <- _. Qed.

Lemma yields_true {A} (m : parse A) : yields m (fun _ => True).
Proof. done. Qed.

Lemma yields_fail {A} (Q : A → Prop) : yields pfail Q.
Proof. by intros p x p'. Qed.

Lemma yields_if {A} (b : bool) (m1 m2 : parse A) Q :
  yields m1 Q → yields m2 Q → yields (if b then m1 else m2) Q.
Proof. by destruct b. Qed.

Lemma yields_guard (b : bool) : yields (guardb b) (fun _ => b = true).
Proof. intros p x p'. unfold guardb. by destruct b. Qed.

(** ** Every field fits its array *)

Definition fits (size : nat) (s : cstr) : Prop := (length s < size)%nat.

Record cond_fits (c : WhereCondition) : Prop := {
  cf_col : fits COL_SIZE (wc_col c);
  cf_val : fits VAL_SIZE (wc_val c);
  cf_end : fits VAL_SIZE (wc_end_val c);
  cf_type : wc_type c ≠ WHERE_NONE;
}.

Record stmt_fits (st : Statement) : Prop := {
  sf_table : fits TABLE_SIZE (table_name st);
  sf_data : fits ROW_DATA_SIZE (row_data st);
  sf_cols : (length (select_cols st) ≤ MAX_COLS)%nat ∧ Forall (fits COL_SIZE) (select_cols st);
  sf_set : fits COL_SIZE (set_col st) ∧ fits VAL_SIZE (set_val st);
  sf_conds : (length (where_conditions st) ≤ MAX_WHERE_CONDITIONS)%nat ∧
             Forall cond_fits (where_conditions st);
  sf_where : fits COL_SIZE (where_col st) ∧ fits VAL_SIZE (where_val st) ∧
             fits VAL_SIZE (where_end_val st);
  sf_type : stype st ≠ STMT_UNRECOGNIZED;
}.

Lemma fits_strcpy size s : (0 < size)%nat → fits size (strcpy_sz size s).
Proof. unfold fits, strcpy_sz. rewrite length_take. lia. Qed.

Lemma yields_identifier size : (0 < size)%nat → yields (parse_identifier size) (fits size).
Proof.
  intros. unfold parse_identifier. eapply yields_bind; [apply yields_true|]. intros t _.
  eapply yields_bind; [apply yields_true|]. intros ? _.
  eapply yields_bind; [apply yields_true|]. intros ? _.
  apply yields_ret. by apply fits_strcpy.
Qed.

Lemma yields_literal size : (0 < size)%nat → yields (parse_literal size) (fits size).
Proof.
  intros. unfold parse_literal. eapply yields_bind; [apply yields_true|]. intros t _.
  eapply yields_bind; [apply yields_true|]. intros ? _.
  eapply yields_bind; [apply yields_true|]. intros ? _.
  apply yields_ret. by apply fits_strcpy.
Qed.

#[export] Hint Resolve yields_true yields_fail yields_identifier yields_literal yields_guard : dbms.

(** One bind whose first part says nothing of interest. *)
Ltac ybind := eapply yields_bind; [apply yields_true|intros ? _].
(** One bind that parses an identifier or a literal. *)
Ltac yfield H := eapply yields_bind;
  [first [apply yields_identifier | apply yields_literal | apply yields_guard];
     unfold COL_SIZE, VAL_SIZE, TABLE_SIZE; lia|intros ? H].

Lemma yields_condition n :
  yields (parse_one_condition n) (fun c => cond_fits c ∧ (n < MAX_WHERE_CONDITIONS)%nat).
Proof.
  unfold parse_one_condition. eapply yields_bind; [apply yields_guard|]. intros ? Hn. cbv beta in Hn. bool_to_prop.
  yfield Hc. ybind. apply yields_if.
  - ybind. yfield Hv. ybind. yfield He. apply yields_ret. split; [by split|done].
  - ybind. yfield Hv. apply yields_ret. split; [|done]. split; try done; unfold fits, VAL_SIZE; simpl; lia.
Qed.

Lemma yields_conditions fuel conds :
  (length conds ≤ MAX_WHERE_CONDITIONS)%nat → Forall cond_fits conds →
  yields (parse_conditions fuel conds)
    (fun cs => (length cs ≤ MAX_WHERE_CONDITIONS)%nat ∧ Forall cond_fits cs ∧ conds `prefix_of` cs).
Proof.
  revert conds; induction fuel as [|fuel IH]; intros conds Hl Hf; cbn [parse_conditions]; ybind;
    apply yields_if; try (apply yields_ret; done); [apply yields_fail|].
  ybind. eapply yields_bind; [apply yields_condition|]. intros c [Hc Hn].
  intros p cs p' E. apply IH in E as (H1 & H2 & H3).
  - split_and!; [done|done|]. etrans; [|exact H3]. by apply prefix_app_r.
  - rewrite length_app. simpl. lia.
  - apply Forall_app. split; [done|by constructor].
Qed.

Lemma yields_where st :
  stmt_fits st → yields (parse_where_clause st) stmt_fits.
Proof.
  intros Hst. unfold parse_where_clause. ybind. apply yields_if; [|by apply yields_ret].
  ybind. eapply yields_bind; [apply yields_condition|]. intros c [Hc _].
  eapply yields_bind; [apply yields_conditions; [unfold MAX_WHERE_CONDITIONS; simpl; lia|by apply Forall_singleton]|].
  intros conds (Hl & Hf & _). apply yields_ret. unfold set_where.
  destruct conds as [|c0 conds]; [done|]. destruct Hst. split; simpl; try done.
  unfold fits. split_and!; apply fits_strcpy; unfold COL_SIZE, VAL_SIZE; lia.
Qed.

Lemma yields_select_cols fuel cols :
  (length cols ≤ MAX_COLS)%nat → Forall (fits COL_SIZE) cols →
  yields (parse_select_cols fuel cols)
    (fun cs => (length cs ≤ MAX_COLS)%nat ∧ Forall (fits COL_SIZE) cs).
Proof.
  revert cols; induction fuel as [|fuel IH]; intros cols Hl Hf; cbn [parse_select_cols];
    [apply yields_fail|].
  eapply yields_bind; [apply yields_guard|]. intros ? Hn. cbv beta in Hn. bool_to_prop. ybind. ybind. ybind.
  assert (∀ s, Forall (fits COL_SIZE) (cols ++ [strcpy_sz COL_SIZE s])) as Hf'.
  { intros s. apply Forall_app. split; [done|]. constructor; [|done].
    apply fits_strcpy. unfold COL_SIZE. lia. }
  apply yields_if.
  - ybind. ybind. ybind. apply IH; [rewrite length_app; simpl; lia|done].
  - apply yields_ret. split; [rewrite length_app; simpl; lia|done].
Qed.

Lemma stmt_fits_intro ty name data all cols col v :
  ty ≠ STMT_UNRECOGNIZED → fits TABLE_SIZE name → fits ROW_DATA_SIZE data →
  (length cols ≤ MAX_COLS)%nat → Forall (fits COL_SIZE) cols → fits COL_SIZE col → fits VAL_SIZE v →
  stmt_fits (mkStmt ty name data all cols col v [] WHERE_NONE [] [] []).
Proof. intros. split; simpl; try done; unfold fits, COL_SIZE, VAL_SIZE, MAX_WHERE_CONDITIONS; simpl; split_and?; try done; lia. Qed.

Lemma fits_nil n : (0 < n)%nat → fits n [].
Proof. done. Qed.

Ltac fits0 := first [done | apply fits_nil; unfold COL_SIZE, VAL_SIZE, TABLE_SIZE, ROW_DATA_SIZE; lia
                    | unfold MAX_COLS; simpl; lia | constructor].

Lemma yields_select : yields parse_select stmt_fits.
Proof.
  unfold parse_select. ybind. ybind.
  eapply (yields_bind _ _ (fun hd => (length (snd hd) ≤ MAX_COLS)%nat ∧ Forall (fits COL_SIZE) (snd hd))).
  - apply yields_if; [ybind; apply yields_ret; simpl; split; [unfold MAX_COLS; lia|constructor]|].
    apply yields_if; [|apply yields_fail].
    eapply yields_bind; [apply yields_select_cols; [unfold MAX_COLS; simpl; lia|constructor]|].
    intros cols Hc. by apply yields_ret.
  - intros [all cols] [Hc1 Hc2]. simpl in *. ybind. yfield Hn.
    apply yields_where, stmt_fits_intro; fits0.
Qed.

Lemma yields_insert : yields parse_insert stmt_fits.
Proof.
  unfold parse_insert. ybind. ybind. yfield Hn. ybind. ybind. ybind.
  eapply (yields_bind _ _ (fits ROW_DATA_SIZE)).
  - intros p dat p'. unfold parse_values. destruct (find_values_close_paren _ _); [|done].
    destruct (only_trailing_space _); [|done]. intros [= <- _].
    apply fits_strcpy. unfold ROW_DATA_SIZE. lia.
  - intros data Hd. ybind. ybind. ybind. apply yields_ret, stmt_fits_intro; fits0.
Qed.

Lemma yields_update : yields parse_update stmt_fits.
Proof.
  unfold parse_update. ybind. yfield Hn. ybind. yfield Hc. ybind. yfield Hv.
  apply yields_where, stmt_fits_intro; fits0.
Qed.

Lemma yields_delete : yields parse_delete stmt_fits.
Proof.
  unfold parse_delete. ybind. ybind. yfield Hn. apply yields_where, stmt_fits_intro; fits0.
Qed.

Lemma yields_finish {A} (m : parse A) Q : yields m Q → yields (finish_statement m) Q.
Proof.
  intros H. unfold finish_statement. eapply yields_bind; [exact H|]. intros x Hx.
  ybind. ybind. by apply yields_ret.
Qed.

Lemma parse_statement_fits s st : parse_statement s = Some st → stmt_fits st.
Proof.
  unfold parse_statement. destruct (get_next_token (init_lexer s)) as [t l].
  assert (∀ m, yields m stmt_fits → fst <$> m (mkParser l t) = Some st → stmt_fits st) as H.
  { intros m Hm. destruct (m (mkParser l t)) as [[x p']|] eqn:E; simpl; [|done].
    intros [= ->]. by eapply Hm. }
  destruct (ttype t); try done; apply H;
    auto using yields_finish, yields_select, yields_insert, yields_update, yields_delete.
Qed.

(** ** Printing *)

(** The statements as abstract syntax; [None] for the columns is [*]. *)
Inductive query :=
| QSelect (cols : option (list cstr)) (table : cstr) (conds : list WhereCondition)
| QInsert (table data : cstr)
| QUpdate (table col v : cstr) (conds : list WhereCondition)
| QDelete (table : cstr) (conds : list WhereCondition).

Definition stmt_of (q : query) : Statement :=
  match q with
  | QSelect cols name conds =>
      set_where (mkStmt STMT_SELECT name [] (match cols with None => true | _ => false end)
        (default [] cols) [] [] [] WHERE_NONE [] [] []) conds
  | QInsert name data => mkStmt STMT_INSERT name data false [] [] [] [] WHERE_NONE [] [] []
  | QUpdate name col v conds =>
      set_where (mkStmt STMT_UPDATE name [] false [] col v [] WHERE_NONE [] [] []) conds
  | QDelete name conds =>
      set_where (mkStmt STMT_DELETE name [] false [] [] [] [] WHERE_NONE [] [] []) conds
  end.

(** A word of SQL text with the token it stands for. *)
Definition word : Type := cstr * Token.

Definition kw (s : string) (ty : SqlTokenType) : word := (lit s, mkToken ty (lit s)).
Definition wident (s : cstr) : word := (s, mkToken TOKEN_IDENTIFIER s).
Definition wstring (s : cstr) : word := (QUOTE :: s ++ [QUOTE], mkToken TOKEN_STRING s).

Definition cond_words (c : WhereCondition) : list word :=
  match wc_type c with
  | WHERE_BETWEEN => [wident (wc_col c); kw "BETWEEN" TOKEN_BETWEEN; wstring (wc_val c);
                      kw "AND" TOKEN_AND; wstring (wc_end_val c)]
  | _ => [wident (wc_col c); kw "=" TOKEN_EQ; wstring (wc_val c)]
  end.

Fixpoint and_words (conds : list WhereCondition) : list word :=
  match conds with
  | [] => []
  | c :: cs => kw "AND" TOKEN_AND :: cond_words c ++ and_words cs
  end.

Definition where_words (conds : list WhereCondition) : list word :=
  match conds with
  | [] => []
  | c :: cs => kw "WHERE" TOKEN_WHERE :: cond_words c ++ and_words cs
  end.

Fixpoint comma_words (cols : list cstr) : list word :=
  match cols with
  | [] => []
  | c :: cs => kw "," TOKEN_COMMA :: wident c :: comma_words cs
  end.

Definition cols_words (cols : option (list cstr)) : list word :=
  match cols with
  | None => [kw "*" TOKEN_STAR]
  | Some [] => []
  | Some (c :: cs) => wident c :: comma_words cs
  end.

Definition query_words (q : query) : list word :=
  match q with
  | QSelect cols name conds =>
      kw "SELECT" TOKEN_SELECT :: cols_words cols ++
      kw "FROM" TOKEN_FROM :: wident name :: where_words conds
  | QInsert name _ => [kw "INSERT" TOKEN_INSERT; kw "INTO" TOKEN_INTO; wident name;
                       kw "VALUES" TOKEN_VALUES]
  | QUpdate name col v conds =>
      kw "UPDATE" TOKEN_UPDATE :: wident name :: kw "SET" TOKEN_SET :: wident col ::
      kw "=" TOKEN_EQ :: wstring v :: where_words conds
  | QDelete name conds =>
      kw "DELETE" TOKEN_DELETE :: kw "FROM" TOKEN_FROM :: wident name :: where_words conds
  end.

Definition print_words (ws : list word) : cstr := flat_map (fun w => 32 :: fst w) ws.

Definition print_query (q : query) : cstr :=
  print_words (query_words q) ++
  match q with QInsert _ data => lit " (" ++ data ++ lit ")" | _ => [] end.

(** An identifier that the lexer reads as one and that fits in [size]. *)
Definition ident_ok (size : nat) (s : cstr) : bool :=
  match s with
  | c :: _ => ident_start c && forallb ident_char s && bool_decide (keyword s = TOKEN_IDENTIFIER) &&
              (length s <? size)%nat
  | [] => false
  end.

Definition string_ok (s : cstr) : bool :=
  forallb (fun c => negb (c =? QUOTE)) s && (length s <? VAL_SIZE)%nat.

Definition cond_ok (c : WhereCondition) : bool :=
  ident_ok COL_SIZE (wc_col c) && string_ok (wc_val c) && string_ok (wc_end_val c) &&
  match wc_type c with
  | WHERE_NONE => false
  | WHERE_EQ => match wc_end_val c with [] => true | _ => false end
  | WHERE_BETWEEN => true
  end.

Definition conds_ok (cs : list WhereCondition) : bool :=
  forallb cond_ok cs && (length cs <=? MAX_WHERE_CONDITIONS)%nat.

(** The values of an INSERT: quotes are balanced and no [)] is outside them. *)
Definition data_ok (s : cstr) : bool :=
  (length s <? ROW_DATA_SIZE)%nat &&
  bool_decide (find_values_close_paren false (s ++ lit ")") = Some (length s)).

Definition query_ok (q : query) : bool :=
  match q with
  | QSelect cols name conds =>
      match cols with
      | None => true
      | Some cs => forallb (ident_ok COL_SIZE) cs && (0 <? length cs)%nat && (length cs <=? MAX_COLS)%nat
      end && ident_ok TABLE_SIZE name && conds_ok conds
  | QInsert name data => ident_ok TABLE_SIZE name && data_ok data
  | QUpdate name col v conds =>
      ident_ok TABLE_SIZE name && ident_ok COL_SIZE col && string_ok v && conds_ok conds
  | QDelete name conds => ident_ok TABLE_SIZE name && conds_ok conds
  end.

(** ** Reading the words back *)

Definition blank (s : cstr) : Prop := match s with [] => True | c :: _ => c = 32 end.

(** The lexer reads the word as its token wherever a space or the end follows. *)
Record good (w : word) : Prop := {
  good_start : match fst w with [] => False | c :: _ => isspace c = false end;
  good_lex : ∀ s, blank s → lex_token (fst w ++ s) = (snd w, length (fst w));
}.

Lemma blank_not_ident s : blank s → match s with [] => True | c :: _ => ident_char c = false end.
Proof. destruct s; [done|]. by intros ->. Qed.

Lemma ident_start_facts c : ident_start c = true →
  punct c = None ∧ (c =? QUOTE) = false ∧ isspace c = false.
Proof.
  unfold ident_start, isalpha, isupper, islower, punct, QUOTE, isspace. intros H.
  repeat match goal with |- context [?a =? ?b] => destruct (Z.eqb_spec a b); [subst; done|] end.
  split_and!; [done|done|]. simpl.
  destruct (Z.leb_spec 9 c), (Z.leb_spec c 13); try done.
  exfalso. repeat (apply orb_true_iff in H as [H|H]); bool_to_prop; lia.
Qed.

Lemma good_ident s ty :
  match s with [] => False | c :: _ => ident_start c = true end → forallb ident_char s = true →
  (length s < TEXT_SIZE)%nat → keyword s = ty → good (s, mkToken ty s).
Proof.
  intros Hs Hc Hl <-. destruct s as [|c s]; [done|].
  pose proof (ident_start_facts c Hs) as (Hp & Hq & Hsp). split; [done|].
  intros r Hr. cbn [fst snd]. unfold lex_token. rewrite <- app_comm_cons, Hp, Hq, Hs.
  rewrite app_comm_cons, span_len_app by (done || by apply blank_not_ident).
  rewrite take_app_length. unfold strcpy_sz. by rewrite take_ge by lia.
Qed.

Lemma good_string s : string_ok s = true → good (wstring s).
Proof.
  unfold string_ok. intros H. bool_to_prop. split; [done|]. intros r _. cbn [fst snd wstring].
  unfold lex_token, QUOTE. change (punct 39) with (@None SqlTokenType). cbn [app].
  rewrite <- app_assoc.
  assert (span_len (fun d => negb (d =? 39)) (s ++ 39 :: r) = length s) as E
    by (apply span_len_app; done).
  cbn [app]. rewrite E, Z.eqb_refl, take_app_length. unfold strcpy_sz, TEXT_SIZE.
  rewrite take_ge by (unfold VAL_SIZE in *; lia). rewrite length_app. simpl.
  rewrite (proj2 (Nat.ltb_lt _ _)) by lia. f_equal. rewrite length_app. simpl. lia.
Qed.

Lemma ident_ok_inv size s : ident_ok size s = true →
  match s with [] => False | c :: _ => ident_start c = true end ∧ forallb ident_char s = true ∧
  keyword s = TOKEN_IDENTIFIER ∧ (length s < size)%nat.
Proof.
  unfold ident_ok. destruct s as [|c s]; [done|]. intros H. bool_to_prop.
  split_and!; try done. by eapply bool_decide_eq_true.
Qed.

Lemma good_wident size s : ident_ok size s = true → (size ≤ TEXT_SIZE)%nat → good (wident s).
Proof. intros (H1 & H2 & H3 & H4)%ident_ok_inv ?. apply good_ident; try done. lia. Qed.

Ltac good_kw := first
  [ apply good_ident; [reflexivity|reflexivity|unfold TEXT_SIZE; simpl; lia|vm_compute; reflexivity]
  | split; [done|intros; reflexivity] ].

Lemma good_cond c : cond_ok c = true → Forall good (cond_words c).
Proof.
  unfold cond_ok, cond_words. intros H. bool_to_prop.
  assert (good (wident (wc_col c))) by (eapply good_wident; [done|unfold COL_SIZE, TEXT_SIZE; lia]).
  destruct (wc_type c); [done| |];
    repeat (constructor; [first [done | by apply good_string | good_kw]|]); constructor.
Qed.

Lemma good_ands cs : forallb cond_ok cs = true → Forall good (and_words cs).
Proof.
  induction cs as [|c cs IH]; simpl; [done|]. intros H. bool_to_prop.
  constructor; [good_kw|]. apply Forall_app. split; [by apply good_cond|auto].
Qed.

Lemma good_wheres cs : forallb cond_ok cs = true → Forall good (where_words cs).
Proof.
  destruct cs as [|c cs]; simpl; [done|]. intros H. bool_to_prop.
  constructor; [good_kw|].
  apply Forall_app. split; [by apply good_cond|by apply good_ands].
Qed.

Lemma good_commas cs : forallb (ident_ok COL_SIZE) cs = true → Forall good (comma_words cs).
Proof.
  induction cs as [|c cs IH]; simpl; [done|]. intros H. bool_to_prop.
  constructor; [good_kw|].
  constructor; [eapply good_wident; [done|unfold COL_SIZE, TEXT_SIZE; lia]|auto].
Qed.

Lemma good_query q : query_ok q = true → Forall good (query_words q).
Proof.
  assert (∀ name, ident_ok TABLE_SIZE name = true → good (wident name)) as Hn
    by (intros; by eapply good_wident).
  assert (∀ name, ident_ok COL_SIZE name = true → good (wident name)) as Hc
    by (intros; eapply good_wident; [done|unfold COL_SIZE, TEXT_SIZE; lia]).
  destruct q as [cols name conds|name data|name col v conds|name conds]; unfold query_ok, conds_ok, query_words;
    intros H; bool_to_prop;
    repeat (constructor; [first [solve [auto using good_string] | good_kw]|]); try (by apply good_wheres);
    try (by constructor).
  apply Forall_app. split.
  - destruct cols as [[|c cs]|]; [done| |]; simpl in *.
    + bool_to_prop. constructor; [auto|by apply good_commas].
    + constructor; [good_kw|constructor].
  - repeat (constructor; [first [solve [auto] | good_kw]|]). by apply good_wheres.
Qed.

(** ** Runs of the parser over a list of words *)

(** What follows the last word: [tail], whose first token is [t0] and leaves [r0]. *)
Record tail_lexes (tail : cstr) (t0 : Token) (r0 : cstr) : Prop := {
  tl_blank : blank tail;
  tl_lex : ∃ w x, tail = w ++ x ++ r0 ∧ forallb isspace w = true ∧
    match x ++ r0 with [] => True | c :: _ => isspace c = false end ∧
    lex_token (x ++ r0) = (t0, length x);
}.

#[local] Arguments parse_conditions : simpl never.
#[local] Arguments parse_select_cols : simpl never.

Section runs.
Context (tail : cstr) (t0 : Token) (r0 : cstr) (Htail : tail_lexes tail t0 r0).

Definition head_tok (ws : list word) : Token := match ws with [] => t0 | w :: _ => snd w end.

Definition at_words (ws : list word) (p : Parser) : Prop :=
  current_token p = head_tok ws ∧ Forall good ws ∧
  rest (lexer p) = match ws with [] => r0 | _ :: ws' => print_words ws' ++ tail end.

Definition runs {A} (m : parse A) (ws : list word) (x : A) (ws' : list word) : Prop :=
  ∀ p, at_words ws p → ∃ p', m p = Some (x, p') ∧ at_words ws' p'.

Lemma blank_words ws : blank (print_words ws ++ tail).
Proof using Htail. destruct ws; [apply Htail|done]. Qed.

Lemma next_word ws l :
  Forall good ws → rest l = print_words ws ++ tail →
  ∃ l', get_next_token l = (head_tok ws, l') ∧ at_words ws (mkParser l' (head_tok ws)).
Proof using Htail.
  intros Hg Hr. destruct ws as [|w ws].
  - destruct Htail as [_ (sp & x & E & Hsp & Hx & Hl)].
    destruct (get_next_token_at l sp x r0 t0) as (l' & E1 & E2 & E3 & _); [by rewrite Hr, E|done..|].
    exists l'. by repeat split.
  - apply Forall_cons_1 in Hg as [Hw Hg].
    destruct (get_next_token_at l [32] (fst w) (print_words ws ++ tail) (snd w)) as (l' & E1 & E2 & E3 & _).
    + rewrite Hr. simpl. by rewrite <- app_assoc.
    + done.
    + pose proof (good_start w Hw) as Hs. by destruct (fst w).
    + apply good_lex; [done|]. apply blank_words.
    + exists l'. split; [done|]. split; [done|]. split; [by constructor|done].
Qed.

Lemma runs_advance w ws : runs advance_parser (w :: ws) tt ws.
Proof using Htail.
  intros p (Hc & Hg & Hr). apply Forall_cons_1 in Hg as [_ Hg].
  destruct (next_word ws (lexer p) Hg Hr) as (l' & E & H).
  exists (mkParser l' (head_tok ws)). split; [|done]. unfold advance_parser. by rewrite E.
Qed.

Lemma runs_bind {A B} (m : parse A) (k : A → parse B) ws ws1 ws2 x y :
  runs m ws x ws1 → runs (k x) ws1 y ws2 → runs (a ← m; k a) ws y ws2.
Proof using Type.
  intros Hm Hk p Hp. destruct (Hm p Hp) as (p1 & E1 & H1). destruct (Hk p1 H1) as (p2 & E2 & H2).
  exists p2. split; [|done]. unfold mbind, parse_bind. by rewrite E1.
Qed.

Lemma runs_ret {A} (x : A) ws : runs (mret x) ws x ws.
Proof using Type. intros p Hp. by exists p. Qed.

Lemma runs_peek ws : runs peek ws (head_tok ws) ws.
Proof using Type. intros p Hp. exists p. split; [|done]. unfold peek. by rewrite (proj1 Hp). Qed.

Lemma runs_guard b ws : b = true → runs (guardb b) ws tt ws.
Proof using Type. intros -> p Hp. by exists p. Qed.

(** Look at the current token and go on. *)
Lemma runs_peek_bind {B} (k : Token → parse B) ws ws' y :
  runs (k (head_tok ws)) ws y ws' → runs (t ← peek; k t) ws y ws'.
Proof using Type. intros. eapply runs_bind; [apply runs_peek|done]. Qed.

Lemma runs_guard_bind {B} b (k : unit → parse B) ws ws' y :
  b = true → runs (k tt) ws y ws' → runs (u ← guardb b; k u) ws y ws'.
Proof using Type. intros. eapply runs_bind; [by apply runs_guard|done]. Qed.

Lemma runs_advance_bind {B} (k : unit → parse B) w ws ws' y :
  runs (k tt) ws y ws' → runs (u ← advance_parser; k u) (w :: ws) y ws'.
Proof using Htail. intros. eapply runs_bind; [apply runs_advance|done]. Qed.

Lemma runs_identifier size s ws :
  (length s < size)%nat → runs (parse_identifier size) (wident s :: ws) s ws.
Proof using Htail.
  intros. unfold parse_identifier. apply runs_peek_bind, runs_guard_bind; [done|].
  apply runs_advance_bind. simpl. unfold strcpy_sz. rewrite take_ge by lia. apply runs_ret.
Qed.

Lemma runs_literal s ws :
  string_ok s = true → runs (parse_literal VAL_SIZE) (wstring s :: ws) s ws.
Proof using Htail.
  unfold string_ok. intros H. bool_to_prop. unfold parse_literal.
  apply runs_peek_bind, runs_guard_bind; [done|].
  apply runs_advance_bind. simpl. unfold strcpy_sz. rewrite take_ge by lia. apply runs_ret.
Qed.

Lemma runs_expect s ty ws : runs (expect_token ty) (kw s ty :: ws) tt ws.
Proof using Htail.
  unfold expect_token. apply runs_peek_bind, runs_guard_bind; [by apply bool_decide_eq_true|].
  apply runs_advance.
Qed.

Lemma runs_condition n c ws :
  cond_ok c = true → (n < MAX_WHERE_CONDITIONS)%nat →
  runs (parse_one_condition n) (cond_words c ++ ws) c ws.
Proof using Htail.
  unfold cond_ok, cond_words. intros H Hn. bool_to_prop.
  match goal with H : ident_ok _ _ = true |- _ => apply ident_ok_inv in H as (_ & _ & _ & Hl) end.
  unfold parse_one_condition. destruct c as [ty col v e]. simpl in *.
  destruct ty; [done| |]; (apply runs_guard_bind; [by apply Nat.ltb_lt|]); simpl;
    (eapply runs_bind; [by apply runs_identifier|]); apply runs_peek_bind; simpl.
  - eapply runs_bind; [apply runs_expect|]. eapply runs_bind; [by apply runs_literal|].
    destruct e; [|done]. apply runs_ret.
  - apply runs_advance_bind. eapply runs_bind; [by apply runs_literal|].
    eapply runs_bind; [apply runs_expect|]. eapply runs_bind; [by apply runs_literal|]. apply runs_ret.
Qed.

Lemma runs_conditions fuel acc cs :
  is_type TOKEN_AND t0 = false → forallb cond_ok cs = true →
  (length acc + length cs ≤ MAX_WHERE_CONDITIONS)%nat → (length cs ≤ fuel)%nat →
  runs (parse_conditions fuel acc) (and_words cs) (acc ++ cs) [].
Proof using Htail.
  intros Ht. revert fuel acc; induction cs as [|c cs IH]; intros fuel acc Hok Hl Hf; simpl in *.
  - destruct fuel; cbn [parse_conditions]; apply runs_peek_bind; simpl; rewrite Ht, app_nil_r; apply runs_ret.
  - bool_to_prop. destruct fuel as [|fuel]; [lia|]. cbn [parse_conditions]. apply runs_peek_bind.
    cbn [head_tok snd kw]. change (is_type TOKEN_AND (mkToken TOKEN_AND (lit "AND"))) with true.
    apply runs_advance_bind. eapply runs_bind; [apply runs_condition; [done|lia]|].
    replace (acc ++ c :: cs) with ((acc ++ [c]) ++ cs) by (by rewrite <- app_assoc).
    apply IH; [done|rewrite length_app; simpl; lia|lia].
Qed.

Lemma runs_where st cs :
  is_type TOKEN_AND t0 = false → is_type TOKEN_WHERE t0 = false → conds_ok cs = true →
  runs (parse_where_clause st) (where_words cs) (set_where st cs) [].
Proof using Htail.
  unfold conds_ok. intros Ha Hw H. bool_to_prop. unfold parse_where_clause. apply runs_peek_bind.
  destruct cs as [|c cs]; simpl; [rewrite Hw; apply runs_ret|]. simpl in *. bool_to_prop.
  change (is_type TOKEN_WHERE _) with true. apply runs_advance_bind.
  eapply runs_bind; [apply runs_condition; [done|unfold MAX_WHERE_CONDITIONS; lia]|].
  eapply runs_bind; [apply (runs_conditions _ [c] cs); try done; simpl; lia|]. apply runs_ret.
Qed.

Lemma runs_select_cols fuel acc c cs w ws :
  forallb (ident_ok COL_SIZE) (c :: cs) = true → is_type TOKEN_COMMA (snd w) = false →
  (length acc + length (c :: cs) ≤ MAX_COLS)%nat → (length cs < fuel)%nat →
  runs (parse_select_cols fuel acc) (wident c :: comma_words cs ++ w :: ws) (acc ++ c :: cs) (w :: ws).
Proof using Htail.
  revert fuel acc c; induction cs as [|c' cs IH]; intros fuel acc c Hok Hw Hl Hf;
    (destruct fuel as [|fuel]; [lia|]); cbn [forallb length comma_words app] in *; bool_to_prop;
    match goal with H : ident_ok _ c = true |- _ => apply ident_ok_inv in H as (_ & _ & _ & Hlc) end;
    cbn [parse_select_cols]; (apply runs_guard_bind; [apply Nat.ltb_lt; lia|]);
    apply runs_peek_bind, runs_advance_bind, runs_peek_bind; cbn [head_tok snd wident text kw];
    unfold strcpy_sz; rewrite take_ge by lia.
  - rewrite Hw. apply runs_ret.
  - change (is_type TOKEN_COMMA (mkToken TOKEN_COMMA (lit ","))) with true.
    apply runs_advance_bind, runs_peek_bind, runs_guard_bind; [done|].
    replace (acc ++ c :: c' :: cs) with ((acc ++ [c]) ++ c' :: cs) by (by rewrite <- app_assoc).
    apply IH; [by apply andb_true_iff|done|rewrite length_app; simpl; lia|lia].
Qed.
End runs.

Lemma tail_lexes_nil : tail_lexes [] (mkToken TOKEN_EOF []) [].
Proof. split; [done|]. by exists [], []. Qed.

(** The data of an INSERT after [VALUES]. *)
Lemma tail_lexes_data data :
  tail_lexes (lit " (" ++ data ++ lit ")") (mkToken TOKEN_LPAREN (lit "(")) (data ++ lit ")").
Proof. split; [done|]. by exists [32], (lit "("). Qed.

Lemma rest_init_lexer s : rest (init_lexer (32 :: s)) = 32 :: s.
Proof. by destruct s as [|? [|??]]. Qed.

(** A statement whose body [m] consumes every word of [q]. *)
Lemma statement_runs tail t0 r0 q w ws :
  tail_lexes tail t0 r0 → query_ok q = true → query_words q = w :: ws →
  print_query q = print_words (query_words q) ++ tail →
  ∃ l, get_next_token (init_lexer (print_query q)) = (snd w, l) ∧
       at_words tail t0 r0 (query_words q) (mkParser l (snd w)).
Proof.
  intros Ht Hok Hw Hp. apply good_query in Hok.
  destruct (next_word tail t0 r0 Ht (query_words q) (init_lexer (print_query q))) as (l & E & H).
  - done.
  - rewrite Hp, Hw. apply rest_init_lexer.
  - rewrite Hw in E, H |- *. by exists l.
Qed.

Lemma runs_finish {A} tail t0 r0 (m : parse A) ws x p :
  ttype t0 = TOKEN_EOF → runs tail t0 r0 m ws x [] → at_words tail t0 r0 ws p →
  fst <$> finish_statement m p = Some x.
Proof.
  intros He Hm Hp.
  assert (runs tail t0 r0 (finish_statement m) ws x []) as H.
  { unfold finish_statement. eapply runs_bind; [exact Hm|]. apply runs_peek_bind, runs_guard_bind; [|apply runs_ret].
    by apply bool_decide_eq_true. }
  destruct (H p Hp) as (p' & E & _). by rewrite E.
Qed.

#[local] Arguments parse_where_clause : simpl never.
#[local] Arguments set_where : simpl never.

Lemma parse_print_select cols name conds :
  query_ok (QSelect cols name conds) = true →
  parse_statement (print_query (QSelect cols name conds)) = Some (stmt_of (QSelect cols name conds)).
Proof.
  intros H. destruct (statement_runs [] _ [] _ _ _ tail_lexes_nil H eq_refl eq_refl) as (l & E & Hp).
  unfold parse_statement. rewrite E. cbn [ttype snd kw]. refine (runs_finish _ _ _ _ _ _ _ _ _ Hp); [done|].
  unfold query_ok in H. bool_to_prop.
  match goal with H : ident_ok TABLE_SIZE name = true |- _ => apply ident_ok_inv in H as (_ & _ & _ & Hn) end.
  pose proof tail_lexes_nil as Ht. unfold parse_select, query_words.
  apply runs_advance_bind; [done|]. apply runs_peek_bind.
  apply (runs_bind _ _ _ _ _ _ (kw "FROM" TOKEN_FROM :: wident name :: where_words conds) _
    (match cols with None => true | _ => false end, default [] cols)).
  - destruct cols as [[|c cs]|]; cbn [cols_words app default from_option].
    + bool_to_prop. simpl in *. lia.
    + cbn [head_tok snd wident].
      change (is_type TOKEN_STAR _) with false. change (is_type TOKEN_IDENTIFIER _) with true.
      cbv iota. bool_to_prop. eapply runs_bind; [|apply runs_ret].
      apply (runs_select_cols _ _ _ Ht _ [] c cs); try done. simpl in *. unfold MAX_COLS in *. lia.
    + apply runs_advance_bind; [done|]. apply runs_ret.
  - eapply runs_bind; [by apply runs_expect|]. eapply runs_bind; [by apply runs_identifier|].
    by apply runs_where.
Qed.

Lemma parse_print_update name col v conds :
  query_ok (QUpdate name col v conds) = true →
  parse_statement (print_query (QUpdate name col v conds)) = Some (stmt_of (QUpdate name col v conds)).
Proof.
  intros H. destruct (statement_runs [] _ [] _ _ _ tail_lexes_nil H eq_refl eq_refl) as (l & E & Hp).
  unfold parse_statement. rewrite E. cbn [ttype snd kw]. refine (runs_finish _ _ _ _ _ _ _ _ _ Hp); [done|].
  unfold query_ok in H. bool_to_prop.
  match goal with H : ident_ok TABLE_SIZE name = true |- _ => apply ident_ok_inv in H as (_ & _ & _ & Hn) end.
  match goal with H : ident_ok COL_SIZE col = true |- _ => apply ident_ok_inv in H as (_ & _ & _ & Hc) end.
  pose proof tail_lexes_nil as Ht. unfold parse_update, query_words.
  apply runs_advance_bind; [done|].
  eapply runs_bind; [by apply runs_identifier|]. eapply runs_bind; [by apply runs_expect|].
  eapply runs_bind; [by apply runs_identifier|]. eapply runs_bind; [by apply runs_expect|].
  eapply runs_bind; [by apply runs_literal|]. by apply runs_where.
Qed.

Lemma parse_print_delete name conds :
  query_ok (QDelete name conds) = true →
  parse_statement (print_query (QDelete name conds)) = Some (stmt_of (QDelete name conds)).
Proof.
  intros H. destruct (statement_runs [] _ [] _ _ _ tail_lexes_nil H eq_refl eq_refl) as (l & E & Hp).
  unfold parse_statement. rewrite E. cbn [ttype snd kw]. refine (runs_finish _ _ _ _ _ _ _ _ _ Hp); [done|].
  unfold query_ok in H. bool_to_prop.
  match goal with H : ident_ok TABLE_SIZE name = true |- _ => apply ident_ok_inv in H as (_ & _ & _ & Hn) end.
  pose proof tail_lexes_nil as Ht. unfold parse_delete, query_words.
  apply runs_advance_bind; [done|]. eapply runs_bind; [by apply runs_expect|].
  eapply runs_bind; [by apply runs_identifier|]. by apply runs_where.
Qed.

(** [parse_values] on the data of an INSERT, up to the end of the text. *)
Lemma parse_values_data data p :
  data_ok data = true → rest (lexer p) = data ++ lit ")" →
  ∃ p', parse_values p = Some (data, p') ∧ rest (lexer p') = [].
Proof.
  unfold data_ok, parse_values. intros H Hr. bool_to_prop. apply bool_decide_eq_true in H0.
  rewrite Hr, H0. rewrite drop_ge by (rewrite length_app; simpl; lia). simpl.
  rewrite take_app_length. unfold strcpy_sz. rewrite take_ge by (unfold ROW_DATA_SIZE in *; lia).
  eexists. split; [done|]. unfold rest in *. simpl.
  rewrite <- Nat.add_assoc, <- drop_drop, Hr. by rewrite drop_ge by (rewrite length_app; simpl; lia).
Qed.

Lemma parse_print_insert name data :
  query_ok (QInsert name data) = true →
  parse_statement (print_query (QInsert name data)) = Some (stmt_of (QInsert name data)).
Proof.
  intros H. pose proof (tail_lexes_data data) as Ht.
  destruct (statement_runs _ _ _ _ _ _ Ht H eq_refl eq_refl) as (l & E & Hp).
  unfold parse_statement. rewrite E. cbn [snd kw] in Hp |- *. change (ttype (mkToken TOKEN_INSERT _)) with TOKEN_INSERT.
  cbv iota. clear E. revert Hp. generalize (mkParser l (mkToken TOKEN_INSERT (lit "INSERT"))).
  intros p Hp. unfold query_ok in H. bool_to_prop.
  match goal with H : ident_ok TABLE_SIZE name = true |- _ => apply ident_ok_inv in H as (_ & _ & _ & Hn) end.
  unfold parse_insert.
  destruct (runs_advance _ _ _ Ht _ _ p Hp) as (p1 & E1 & H1).
  destruct (runs_expect _ _ _ Ht _ _ _ p1 H1) as (p2 & E2 & H2).
  destruct (runs_identifier _ _ _ Ht TABLE_SIZE name _ Hn p2 H2) as (p3 & E3 & H3).
  destruct (runs_expect _ _ _ Ht _ _ _ p3 H3) as (p4 & E4 & (Hc & _ & Hr)).
  destruct (parse_values_data data p4) as (p5 & E5 & Hr5); [done|done|].
  destruct (get_next_token_at (lexer p5) [] [] [] (mkToken TOKEN_EOF [])) as (l6 & E6 & _); [done..|].
  rewrite (bind_Some _ _ _ _ _ E1), (bind_Some _ _ _ _ _ E2), (bind_Some _ _ _ _ _ E3),
    (bind_Some _ _ _ _ _ E4).
  rewrite (bind_Some _ _ _ (current_token p4) p4 eq_refl), Hc.
  rewrite (bind_Some _ _ _ tt p4 eq_refl), (bind_Some _ _ _ _ _ E5).
  assert (advance_parser p5 = Some (tt, mkParser l6 (mkToken TOKEN_EOF []))) as E7
    by (unfold advance_parser; by rewrite E6).
  by rewrite (bind_Some _ _ _ _ _ E7).
Qed.

(** Printing a statement and parsing the text gives the statement back. *)
Lemma parse_print q : query_ok q = true → parse_statement (print_query q) = Some (stmt_of q).
Proof.
  destruct q; auto using parse_print_select, parse_print_insert, parse_print_update, parse_print_delete.
Qed.

(** ** Properties *)

(** C13. Whatever text it is given, a statement that [parse_statement] accepts
    fits the arrays of [Statement]: the table name, the row data, every column,
    value and WHERE condition is shorter than its buffer, at most 15 columns
    and 8 conditions are stored, and no condition is left without its type. *)
Theorem parse_statement_bounds s st : parse_statement s = Some st → stmt_fits st.
Proof. apply parse_statement_fits. Qed.

Definition sample_sql : cstr :=
  lit "select id, name from users where id between 1 and 5 and name = 'a b'".

Lemma parse_statement_bounds_witness :
  ∃ st, parse_statement sample_sql = Some st ∧ stmt_fits st.
Proof.
  eexists. split; [vm_compute; reflexivity|].
  apply (parse_statement_bounds sample_sql). vm_compute. reflexivity.
Defined.

(** C12. Round trip: a SELECT, INSERT, UPDATE or DELETE whose names, values and
    conditions can be spelt in SQL is read back by [parse_statement] from its
    text exactly, with the first condition copied into the scalar fields. *)
Theorem parse_statement_roundtrip q :
  query_ok q = true → parse_statement (print_query q) = Some (stmt_of q).
Proof. apply parse_print. Qed.

Definition sample_query : query :=
  QSelect (Some [lit "id"; lit "name"]) (lit "users")
    [mkCond WHERE_BETWEEN (lit "id") (lit "1") (lit "5"); mkCond WHERE_EQ (lit "name") (lit "a b") []].

Lemma parse_statement_roundtrip_witness :
  query_ok sample_query = true ∧
  parse_statement (print_query sample_query) = Some (stmt_of sample_query).
Proof.
  assert (query_ok sample_query = true) as H by (vm_compute; reflexivity).
  split; [exact H|]. exact (parse_statement_roundtrip sample_query H).
Defined.
