(* ===== verification/Mvcc.v ===== *)
(** The version clock and the live snapshots, [src/db/mvcc.c]. *)

From S2P Require Import Prelude.
From stdpp Require Import base numbers list.
Local Open Scope Z_scope.

(** ** State and operations *)

(** [snap_cnt] is the length of [snaps]; each operation is one critical section
    of [mv->mu]. *)
Record Mvcc := mkMvcc { cur_ver : Z; snaps : list Z; snap_cap : Z }.

Record MvStat := mkMvStat {
  tx_live : Z;
  snap_min_out : Z;
  ver_now : Z;
  gc_wait : Z;
}.

(** The loop of [snap_min] over the snapshots after the first. *)
Fixpoint min_from (acc : Z) (ss : list Z) : Z :=
  match ss with
  | [] => acc
  | s :: ss' => min_from (if s <? acc then s else acc) ss'
  end.

Definition snap_min (mv : Mvcc) : Z :=
  match snaps mv with
  | [] => cur_ver mv
  | s :: ss => min_from s ss
  end.

(** [mv_new]; [None] when [calloc] fails. *)
Definition mv_new (alloc_ok : bool) : option Mvcc :=
  if alloc_ok then Some (mkMvcc 1 [] 0) else None.

(** [mv_snap] returns the snapshot id, 0 when the array cannot grow. *)
Definition mv_snap (alloc_ok : bool) (mv : Mvcc) : Z * Mvcc :=
  let full := Z.of_nat (length (snaps mv)) =? snap_cap mv in
  let cap := if snap_cap mv =? 0 then 8 else snap_cap mv * 2 in
  if full && negb alloc_ok then (0, mv)
  else (cur_ver mv, mkMvcc (cur_ver mv) (snaps mv ++ [cur_ver mv]) (if full then cap else snap_cap mv)).

Definition mv_bump (mv : Mvcc) : Z * Mvcc :=
  let ver := wrap64 (cur_ver mv + 1) in (ver, mkMvcc ver (snaps mv) (snap_cap mv)).

(** The [for] loop of [mv_gc]: drop the first occurrence. *)
Fixpoint drop_first (s : Z) (ss : list Z) : list Z :=
  match ss with
  | [] => []
  | x :: ss' => if x =? s then ss' else x :: drop_first s ss'
  end.

Definition mv_gc (mv : Mvcc) (snap : Z) : Mvcc :=
  if snap =? 0 then mv else mkMvcc (cur_ver mv) (drop_first snap (snaps mv)) (snap_cap mv).

Definition mv_stat (mv : Mvcc) : MvStat :=
  let minv := snap_min mv in
  mkMvStat (Z.of_nat (length (snaps mv))) minv (cur_ver mv)
    (if 0 <? Z.of_nat (length (snaps mv)) then wrap64 (cur_ver mv - minv) else 0).

(** ** Invariant *)

Record mv_ok (mv : Mvcc) : Prop := {
  mo_ver : 1 ≤ cur_ver mv < U64;
  mo_snaps : Forall (fun s => 1 ≤ s ≤ cur_ver mv) (snaps mv);
  mo_cap : Z.of_nat (length (snaps mv)) ≤ snap_cap mv;
}.

Lemma mv_new_ok mv : mv_new true = Some mv → mv_ok mv.
Proof. intros [= <-]. by split; simpl; [unfold U64; lia|constructor|]. Qed.

Lemma mv_snap_ok b mv : mv_ok mv → mv_ok (snd (mv_snap b mv)).
Proof.
  intros [Hv Hs Hc]. unfold mv_snap. destruct (_ && _); [done|]. split; simpl; [done| |].
  - apply Forall_app. split; [done|]. constructor; [lia|constructor].
  - rewrite length_app. simpl. destruct (Z.eqb_spec (Z.of_nat (length (snaps mv))) (snap_cap mv));
      [destruct (Z.eqb_spec (snap_cap mv) 0)|]; lia.
Qed.

Lemma mv_bump_ok mv :
  mv_ok mv → cur_ver mv + 1 < U64 → mv_ok (snd (mv_bump mv)) ∧ fst (mv_bump mv) = cur_ver mv + 1.
Proof.
  intros [Hv Hs Hc] Hlt. unfold mv_bump. simpl. rewrite wrap64_small by lia. split; [|done].
  split; simpl; [lia| |done]. eapply Forall_impl; [exact Hs|]. simpl. intros ? ?. lia.
Qed.

Lemma drop_first_perm s ss : s ∈ ss → ss ≡ₚ s :: drop_first s ss.
Proof.
  induction ss as [|x ss IH]; intros Hin; [by apply not_elem_of_nil in Hin|]. simpl.
  destruct (Z.eqb_spec x s) as [->|Hne]; [done|].
  apply elem_of_cons in Hin as [->|Hin]; [done|]. rewrite Permutation_swap. by rewrite <- IH.
Qed.

Lemma drop_first_notin s ss : s ∉ ss → drop_first s ss = ss.
Proof.
  induction ss as [|x ss IH]; simpl; [done|]. rewrite not_elem_of_cons. intros [Hne Hin].
  destruct (Z.eqb_spec x s); [congruence|]. f_equal. auto.
Qed.

Lemma Forall_drop_first P s ss : Forall P ss → Forall P (drop_first s ss).
Proof. induction 1; simpl; [constructor|]. case_if; [done|by constructor]. Qed.

Lemma length_drop_first s ss : (length (drop_first s ss) ≤ length ss)%nat.
Proof. induction ss; simpl; [lia|]. case_if; simpl; lia. Qed.

Lemma mv_gc_ok mv s : mv_ok mv → mv_ok (mv_gc mv s).
Proof.
  intros [Hv Hs Hc]. unfold mv_gc. destruct (s =? 0); [done|]. split; simpl; [done| |].
  - by apply Forall_drop_first.
  - pose proof (length_drop_first s (snaps mv)). lia.
Qed.

Lemma min_from_spec acc ss :
  min_from acc ss ∈ acc :: ss ∧ Forall (fun s => min_from acc ss ≤ s) (acc :: ss).
Proof.
  revert acc; induction ss as [|s ss IH]; intros acc; simpl.
  - split; [by left|]. constructor; [lia|constructor].
  - destruct (s <? acc) eqn:E; bool_to_prop.
    + destruct (IH s) as [Hin [H1 H2]%Forall_cons].
      split; [by right|]. constructor; [lia|by constructor].
    + destruct (IH acc) as [Hin [H1 H2]%Forall_cons].
      split; [apply elem_of_cons in Hin as [->|Hin]; [by left|by do 2 right]|]. constructor; [lia|]. constructor; [lia|done].
Qed.

Lemma snap_min_spec mv :
  mv_ok mv →
  1 ≤ snap_min mv ≤ cur_ver mv ∧ Forall (fun s => snap_min mv ≤ s) (snaps mv) ∧
  (snaps mv ≠ [] → snap_min mv ∈ snaps mv).
Proof.
  intros [Hv Hs _]. unfold snap_min. destruct (snaps mv) as [|s ss] eqn:E.
  - split_and!; [lia|lia|constructor|done].
  - destruct (min_from_spec s ss) as [Hin Hall].
    pose proof (proj1 (Forall_forall _ _) Hs _ Hin) as Hb. simpl in Hb. split_and!; [lia|lia|done|done].
Qed.

(** ** Runs *)

(** What the callers of the module do: take and release snapshots, commit. *)
Inductive mv_op := OpSnap (alloc_ok : bool) | OpBump | OpGc (snap : Z).

Definition mv_step (mv : Mvcc) (op : mv_op) : Mvcc :=
  match op with
  | OpSnap b => snd (mv_snap b mv)
  | OpBump => snd (mv_bump mv)
  | OpGc s => mv_gc mv s
  end.

Definition mv_run (mv : Mvcc) (ops : list mv_op) : Mvcc := fold_left mv_step ops mv.

(** The number of commits in a run. *)
Definition bumps (ops : list mv_op) : Z :=
  Z.of_nat (length (List.filter (fun op => match op with OpBump => true | _ => false end) ops)).

Lemma cur_ver_snap b mv : cur_ver (snd (mv_snap b mv)) = cur_ver mv.
Proof. unfold mv_snap. by destruct (_ && _). Qed.

Lemma cur_ver_gc mv s : cur_ver (mv_gc mv s) = cur_ver mv.
Proof. unfold mv_gc. by destruct (s =? 0). Qed.

Lemma mv_run_ok mv ops :
  mv_ok mv → cur_ver mv + bumps ops < U64 →
  mv_ok (mv_run mv ops) ∧ cur_ver (mv_run mv ops) = cur_ver mv + bumps ops.
Proof.
  revert mv; induction ops as [|op ops IH]; intros mv Hok Hb; [unfold bumps; simpl; split; [done|lia]|].
  change (mv_run mv (op :: ops)) with (mv_run (mv_step mv op) ops).
  destruct op as [b| |s]; unfold bumps in *; simpl in Hb |- *.
  - rewrite <- (cur_ver_snap b mv) in Hb |- *. by apply IH; [apply mv_snap_ok|].
  - destruct (mv_bump_ok mv Hok) as [H1 H2]; [lia|].
    destruct (IH (snd (mv_bump mv)) H1) as [H3 H4]; simpl in *; [lia|]. split; [done|lia].
  - rewrite <- (cur_ver_gc mv s) in Hb |- *. by apply IH; [apply mv_gc_ok|].
Qed.

(** ** Properties *)

(** From [mv_new], after any sequence of snapshots (with or without memory),
    commits and releases that does not wrap the 64-bit clock: the clock is one
    more than the number of commits, the snapshot array is within its capacity,
    and [mv_stat] reports a [snap_min] that is at most every live snapshot and
    at most the clock, is itself a live snapshot when there is one, and a
    [gc_wait] equal to their distance. *)
Theorem mv_stat_sound (ops : list mv_op) :
  1 + bumps ops < U64 →
  let mv := mv_run (mkMvcc 1 [] 0) ops in
  let st := mv_stat mv in
  mv_new true = Some (mkMvcc 1 [] 0) ∧
  ver_now st = 1 + bumps ops ∧
  Z.of_nat (length (snaps mv)) ≤ snap_cap mv ∧
  Forall (fun s => snap_min_out st ≤ s ≤ ver_now st) (snaps mv) ∧
  (0 < tx_live st → snap_min_out st ∈ snaps mv) ∧
  gc_wait st = (if 0 <? tx_live st then ver_now st - snap_min_out st else 0).
Proof.
  intros Hb mv st. destruct (mv_run_ok (mkMvcc 1 [] 0) ops) as [Hok Hv]; [by apply mv_new_ok|done|].
  fold mv in Hok, Hv. destruct (snap_min_spec mv Hok) as (H1 & H2 & H3). destruct Hok as [Hr Hs Hc].
  split_and!; simpl; [done|done|done| | |].
  - apply Forall_forall. intros s Hin. pose proof (proj1 (Forall_forall _ _) H2 _ Hin).
    pose proof (proj1 (Forall_forall _ _) Hs _ Hin) as ?. simpl in *. lia.
  - intros Hl. apply H3. intros E. rewrite E in Hl. simpl in Hl. lia.
  - case_if; [|done]. apply wrap64_small. lia.
Qed.

Lemma mv_stat_sound_witness :
  let mv := mv_run (mkMvcc 1 [] 0) [OpSnap true; OpBump; OpSnap true; OpBump; OpGc 1] in
  snaps mv = [2] ∧ snap_min_out (mv_stat mv) = 2 ∧ ver_now (mv_stat mv) = 3.
Proof.
  intros mv. split; [reflexivity|]. split; [reflexivity|].
  apply (mv_stat_sound [OpSnap true; OpBump; OpSnap true; OpBump; OpGc 1]). reflexivity.
Defined.

(** Releasing a snapshot removes exactly one live occurrence of it: the
    other holders of the same version keep theirs, and releasing an unknown
    snapshot changes nothing. *)
Theorem mv_gc_releases_one (mv : Mvcc) (s : Z) :
  s ≠ 0 →
  cur_ver (mv_gc mv s) = cur_ver mv ∧
  (s ∈ snaps mv → snaps mv ≡ₚ s :: snaps (mv_gc mv s)) ∧
  (s ∉ snaps mv → snaps (mv_gc mv s) = snaps mv).
Proof.
  intros Hs. unfold mv_gc. destruct (Z.eqb_spec s 0); [done|]. simpl.
  split_and!; [done|apply drop_first_perm|apply drop_first_notin].
Qed.

Lemma mv_gc_releases_one_witness :
  snaps (mv_gc (mkMvcc 2 [1; 2; 1] 8) 1) = [2; 1] ∧ cur_ver (mv_gc (mkMvcc 2 [1; 2; 1] 8) 1) = 2.
Proof.
  split; [reflexivity|]. apply (mv_gc_releases_one (mkMvcc 2 [1; 2; 1] 8) 1). lia.
Defined.
