(* ===== verification/Values.v ===== *)
(** Values and lines of [src/db/dbapi.c]: trimming and unquoting, comparison of
    normalised values, integer parsing, splitting of a CSV line, and the hash
    that picks the write lock of a statement. *)

From Stdlib Require Import String.
From S2P Require Import Prelude CString Parser.
From stdpp Require Import base numbers list option.
Local Open Scope Z_scope.

Definition RECORD_SIZE : nat := 1024.

(** ** The write lock of a statement *)

Fixpoint eq_icase (a b : cstr) : bool :=
  match a, b with
  | [], [] => true
  | x :: a', y :: b' => (tolower x =? tolower y) && eq_icase a' b'
  | _, _ => false
  end.

Fixpoint fnv1a_mix (h : Z) (s : cstr) : Z :=
  match s with
  | [] => h
  | c :: s' => fnv1a_mix (wrap64 (Z.lxor h c * 1099511628211)) s'
  end.

(** The text up to the first comma outside quotes, at most [room] characters. *)
Fixpoint first_csv_token (room : nat) (in_q : bool) (row : cstr) : cstr :=
  match row, room with
  | c :: row', S r =>
      let in_q' := if c =? QUOTE then negb in_q else in_q in
      if (c =? COMMA) && negb in_q' then [] else c :: first_csv_token r in_q' row'
  | _, _ => []
  end.

Definition WRITE_LOCK_SHARDS : Z := 1024.

(** The value of the first [id = v] condition. *)
Fixpoint first_id_eq (conds : list WhereCondition) : cstr :=
  match conds with
  | [] => []
  | c :: cs =>
      match wc_type c with
      | WHERE_EQ => if eq_icase (wc_col c) (lit "id") then strcpy_sz 256 (wc_val c) else first_id_eq cs
      | _ => first_id_eq cs
      end
  end.

Definition stmt_write_lock_idx (stmt : Statement) : Z :=
  let h := fnv1a_mix 1469598103934665603 (table_name stmt) in
  let key :=
    match stype stmt with
    | STMT_INSERT => first_csv_token 255 false (row_data stmt)
    | STMT_UPDATE | STMT_DELETE => first_id_eq (where_conditions stmt)
    | _ => []
    end in
  let h' := match key with
            | [] => fnv1a_mix h (lit "|*")
            | _ => fnv1a_mix (fnv1a_mix h (lit "|")) key
            end in
  h' mod WRITE_LOCK_SHARDS.

(** ** Values *)

(** Strip white space on both sides, then one pair of enclosing quotes. *)
Definition trim_uq (s : cstr) : cstr :=
  let t := rstrip (skip_space s) in
  match t with
  | c :: t' =>
      if (c =? QUOTE) && (2 <=? length t)%nat && (List.last t 0 =? QUOTE)
      then removelast t' else t
  | [] => []
  end.

Definition norm_v (src : cstr) (dsz : nat) : cstr := trim_uq (strcpy_sz dsz src).

Definition cmp_v (lhs rhs : cstr) : bool := streq (norm_v lhs RECORD_SIZE) (norm_v rhs RECORD_SIZE).

Definition str_le (a b : cstr) : bool := match strcmp a b with Gt => false | _ => true end.

Definition cmp_rng (src a0 a1 : cstr) : bool :=
  str_le (norm_v a0 RECORD_SIZE) (norm_v src RECORD_SIZE) &&
  str_le (norm_v src RECORD_SIZE) (norm_v a1 RECORD_SIZE).

Definition parse_l (src : cstr) : option Z :=
  match norm_v src 256 with
  | [] => None
  | buf =>
      let r := strtol buf in
      if negb (st_erange r) && st_conv r && match st_rest r with [] => true | _ => false end
      then Some (st_val r) else None
  end.

(** The scan of [split_csv]: the piece being read and the pieces after it;
    [room] is [maxv - idx]. *)
Fixpoint split_loop (room : nat) (in_q : bool) (s : cstr) : cstr * list cstr :=
  match room with
  | O => (s, [])
  | S r =>
      match s with
      | [] => ([], [])
      | c :: s' =>
          let in_q' := if c =? QUOTE then negb in_q else in_q in
          if (c =? COMMA) && negb in_q' then
            let '(p, ps) := split_loop r in_q' s' in ([], p :: ps)
          else
            let '(p, ps) := split_loop room in_q' s' in (c :: p, ps)
      end
  end.

Definition split_csv (row : cstr) (maxv bsz : nat) : list cstr :=
  let '(p, ps) := split_loop (maxv - 1) false (strcpy_sz bsz row) in p :: ps.

(** ** Facts *)

Lemma split_loop_length room q s : (length (snd (split_loop room q s)) ≤ room)%nat.
Proof.
  revert room q; induction s as [|c s IH]; intros [|r] q; simpl; try lia.
  set (q' := if c =? QUOTE then negb q else q). destruct ((c =? COMMA) && negb q').
  - specialize (IH r q'). destruct (split_loop r q' s). simpl in *. lia.
  - specialize (IH (S r) q'). destruct (split_loop (S r) q' s). simpl in *. lia.
Qed.

Lemma split_csv_length row maxv bsz :
  (0 < maxv)%nat → (1 ≤ length (split_csv row maxv bsz) ≤ maxv)%nat.
Proof.
  intros Hm. unfold split_csv. pose proof (split_loop_length (maxv - 1) false (strcpy_sz bsz row)).
  destruct (split_loop _ _ _). simpl in *. lia.
Qed.

Lemma norm_short a n : (length a < n)%nat → norm_v a n = trim_uq a.
Proof. intros. unfold norm_v, strcpy_sz. by rewrite take_ge by lia. Qed.

Lemma cmp_v_true a b : cmp_v a b = true ↔ norm_v a RECORD_SIZE = norm_v b RECORD_SIZE.
Proof. apply streq_true. Qed.

(** Integer parsing looks at the normalised value only. *)
Lemma parse_l_norm a b :
  (length a < 256)%nat → (length b < 256)%nat →
  norm_v a RECORD_SIZE = norm_v b RECORD_SIZE → parse_l a = parse_l b.
Proof.
  unfold RECORD_SIZE. intros Ha Hb. rewrite !norm_short by lia. intros E. unfold parse_l.
  rewrite !norm_short by lia. by rewrite E.
Qed.

(** A decimal number is not touched by trimming. *)
Lemma print_Z_shape n :
  ∃ c s, print_Z n = c :: s ∧ isspace c = false ∧ c ≠ QUOTE ∧
         rstrip (c :: s) = c :: s.
Proof.
  assert (∀ m, 0 ≤ m → ∃ d ds, print_pos (S (Z.to_nat (Z.log2 m))) m [] = d :: ds ∧
            forallb isdigit (d :: ds) = true) as Hpos.
  { intros m Hm. destruct (digits_print_pos (S (Z.to_nat (Z.log2 m))) m []) as (ds & E1 & E2 & E3 & _).
    - split; [done|]. rewrite Nat2Z.inj_succ, Z2Nat.id by apply Z.log2_nonneg.
      destruct (decide (m = 0)) as [->|]; [done|]. apply Z.log2_spec. lia.
    - done.
    - lia.
    - rewrite app_nil_r in E1. destruct ds as [|d ds]; [done|]. by exists d, ds. }
  assert (∀ d, isdigit d = true → isspace d = false ∧ d ≠ QUOTE) as Hd.
  { intros d Hd. split; [by apply isspace_digit|]. apply isdigit_range in Hd. unfold QUOTE. lia. }
  assert (∀ p d ds, forallb isdigit (d :: ds) = true → rstrip (p ++ d :: ds) = p ++ d :: ds) as Hr.
  { intros p d ds H. destruct (exists_last (l:=d :: ds)) as (l & x & E); [done|]. rewrite E in *.
    rewrite forallb_app in H. bool_to_prop. rewrite app_assoc. apply rstrip_snoc_nonspace.
    simpl in *. bool_to_prop. by apply isspace_digit. }
  unfold print_Z. destruct (n <? 0) eqn:En; bool_to_prop.
  - destruct (Hpos (- n)) as (d & ds & E & H); [lia|]. rewrite E. exists 45, (d :: ds).
    split_and!; [done|done|done|]. by apply (Hr [45]).
  - destruct (Hpos n) as (d & ds & E & H); [lia|]. rewrite E. exists d, ds.
    pose proof H as H'. simpl in H'. bool_to_prop. destruct (Hd d) as [? ?]; [done|].
    split_and!; [done|done|done|]. by apply (Hr []).
Qed.

Lemma trim_print_Z n : trim_uq (print_Z n) = print_Z n.
Proof.
  destruct (print_Z_shape n) as (c & s & E & Hs & Hq & Hr). rewrite E.
  unfold trim_uq. rewrite skip_space_nonspace, Hr by done.
  by rewrite (proj2 (Z.eqb_neq c QUOTE)) by done.
Qed.

Lemma print_pos_length fuel n acc : (length (print_pos fuel n acc) ≤ fuel + length acc)%nat.
Proof.
  revert n acc; induction fuel as [|fuel IH]; intros n acc; simpl; [lia|].
  case_if; simpl; [lia|]. etrans; [apply IH|]. simpl. lia.
Qed.

Lemma print_Z_length n : LONG_MIN ≤ n ≤ LONG_MAX → (length (print_Z n) ≤ 65)%nat.
Proof.
  unfold LONG_MIN, LONG_MAX. intros Hn.
  assert (∀ m, 0 ≤ m ≤ 2 ^ 63 → (length (print_pos (S (Z.to_nat (Z.log2 m))) m []) ≤ 64)%nat) as H.
  { intros m Hm. etrans; [apply print_pos_length|]. simpl.
    assert (Z.log2 m ≤ 63) by (change 63 with (Z.log2 (2 ^ 63)); apply Z.log2_le_mono; lia).
    pose proof (Z.log2_nonneg m). lia. }
  unfold print_Z. destruct (n <? 0) eqn:E; bool_to_prop.
  - pose proof (H (- n)). cbn [length]. lia.
  - pose proof (H n). lia.
Qed.

(** A stored integer parses back to itself. *)
Lemma parse_l_print n : LONG_MIN ≤ n ≤ LONG_MAX → parse_l (print_Z n) = Some n.
Proof.
  intros Hn. unfold parse_l. rewrite norm_short by (pose proof (print_Z_length n Hn); lia).
  rewrite trim_print_Z. destruct (print_Z_shape n) as (c & s & E & _).
  rewrite E, <- E. by rewrite strtol_print.
Qed.

Lemma strtol_range s : LONG_MIN ≤ st_val (strtol s) ≤ LONG_MAX.
Proof.
  unfold strtol. set (x := match skip_space s with [] => _ | c :: s' => _ end).
  destruct x as [neg s2]. assert (LONG_MIN ≤ 0 ≤ LONG_MAX) by (unfold LONG_MIN, LONG_MAX; lia).
  destruct s2 as [|c s2]; [done|]. destruct (isdigit c); [|done].
  destruct (digits 0 (c :: s2)) as [m r]. cbv zeta.
  destruct (_ <? LONG_MIN) eqn:E1; simpl; [unfold LONG_MIN, LONG_MAX; lia|].
  destruct (LONG_MAX <? _) eqn:E2; simpl; bool_to_prop; [unfold LONG_MIN, LONG_MAX; lia|lia].
Qed.

Lemma parse_l_range s n : parse_l s = Some n → LONG_MIN ≤ n ≤ LONG_MAX.
Proof.
  unfold parse_l. destruct (norm_v s 256); [done|]. cbv zeta. case_if; [|done].
  intros [= <-]. apply strtol_range.
Qed.
