(* ===== verification/Table.v ===== *)
(** A table version and the statements on it, [src/db/dbapi.c]: row matching,
    index selection, SELECT, INSERT, UPDATE and DELETE.

    A statement returns [None] where the C code would read or write outside an
    object (it never does on a well-formed table, see [TableProofs]); otherwise
    the return code, the table left behind and the result. *)

From Stdlib Require Import String.
From S2P Require Import Prelude CString BPTree BPTreeIndex Parser Values.
From stdpp Require Import base numbers list option.
Local Open Scope Z_scope.

(** ** Tables and results *)

Inductive ColumnType := COL_NORMAL | COL_PK | COL_UK | COL_NN.

#[global] Instance ColumnType_eq_dec : EqDecision ColumnType.
Proof. solve_decision. Defined.

Record ColumnInfo := mkCol { col_name : cstr; col_type : ColumnType }.

(** The values of a row, one per column. *)
Abbreviation Row := (list cstr).

(** [pk_idx] is -1 in the source when it is [None] here; a tree that has not
    been built is [None], and [uk_tree] has one tree per entry of [uk_idx].
    [row_cap] is the capacity the code believes in, [row_alloc] the number of
    slots the array [rows] was allocated with. *)
Record TabVer := mkTab {
  name : cstr;
  cols : list ColumnInfo;
  pk_idx : option nat;
  uk_idx : list nat;
  rows : list Row;
  row_cap : Z;
  row_alloc : Z;
  next_id : Z;
  ver_id : Z;
  pk_tree : option (tree Z);
  uk_tree : list (tree cstr);
}.

Definition row_cnt (tab : TabVer) : Z := Z.of_nat (length (rows tab)).
Definition col_cnt (tab : TabVer) : nat := length (cols tab).

Definition set_rows (tab : TabVer) (rs : list Row) (cap alloc : Z) : TabVer :=
  mkTab (name tab) (cols tab) (pk_idx tab) (uk_idx tab) rs cap alloc (next_id tab) (ver_id tab)
    (pk_tree tab) (uk_tree tab).
Definition set_next_id (tab : TabVer) (id : Z) : TabVer :=
  mkTab (name tab) (cols tab) (pk_idx tab) (uk_idx tab) (rows tab) (row_cap tab) (row_alloc tab) id (ver_id tab)
    (pk_tree tab) (uk_tree tab).
Definition set_trees (tab : TabVer) (pk : option (tree Z)) (uks : list (tree cstr)) : TabVer :=
  mkTab (name tab) (cols tab) (pk_idx tab) (uk_idx tab) (rows tab) (row_cap tab) (row_alloc tab) (next_id tab)
    (ver_id tab) pk uks.
Definition set_ver_id (tab : TabVer) (v : Z) : TabVer :=
  mkTab (name tab) (cols tab) (pk_idx tab) (uk_idx tab) (rows tab) (row_cap tab) (row_alloc tab) (next_id tab) v
    (pk_tree tab) (uk_tree tab).

(** A result object is its (key, value) cells; [err_code] is empty when there is
    no error. *)
Abbreviation DbObj := (list (cstr * cstr)).

Record DbRes := mkRes {
  res_rows : list DbObj;
  count : Z;
  last_id : Z;
  snap_id : Z;
  err_code : cstr;
  err_msg : cstr;
}.

Definition res_clr : DbRes := mkRes [] 0 0 0 [] [].

(** [code] has room for 15 characters. *)
Definition res_err (res : DbRes) (code msg : string) : DbRes :=
  mkRes (res_rows res) (count res) (last_id res) (snap_id res)
    (strcpy_sz 16 (lit code)) (lit msg).
Definition set_count (res : DbRes) (n : Z) : DbRes :=
  mkRes (res_rows res) n (last_id res) (snap_id res) (err_code res) (err_msg res).
Definition set_last_id (res : DbRes) (n : Z) : DbRes :=
  mkRes (res_rows res) (count res) n (snap_id res) (err_code res) (err_msg res).
Definition set_snap_id (res : DbRes) (n : Z) : DbRes :=
  mkRes (res_rows res) (count res) (last_id res) n (err_code res) (err_msg res).

(** ** Columns *)

Fixpoint find_index {A} (p : A → bool) (i : nat) (l : list A) : option nat :=
  match l with
  | [] => None
  | x :: l' => if p x then Some i else find_index p (S i) l'
  end.

Definition col_idx (tab : TabVer) (nm : cstr) : option nat :=
  find_index (fun c => streq (col_name c) nm) 0 (cols tab).

Definition uk_slot (tab : TabVer) (idx : nat) : option nat :=
  find_index (fun c => (c =? idx)%nat) 0 (uk_idx tab).

Definition is_pk (tab : TabVer) (idx : nat) : bool :=
  match pk_idx tab with Some p => (p =? idx)%nat | None => false end.

(** [row->vals[idx]]. *)
Definition val_at (row : Row) (idx : nat) : cstr := default [] (row !! idx).

Definition type_at (tab : TabVer) (idx : nat) : ColumnType :=
  match cols tab !! idx with Some c => col_type c | None => COL_NORMAL end.

(** ** Matching *)

Definition cond_match (tab : TabVer) (row : Row) (cond : WhereCondition) : bool :=
  match col_idx tab (wc_col cond) with
  | None => false
  | Some idx =>
      match wc_type cond with
      | WHERE_EQ => cmp_v (val_at row idx) (wc_val cond)
      | WHERE_BETWEEN =>
          if is_pk tab idx then
            match parse_l (val_at row idx), parse_l (wc_val cond), parse_l (wc_end_val cond) with
            | Some key, Some a0, Some a1 => negb ((key <? a0) || (a1 <? key))
            | _, _, _ => false
            end
          else cmp_rng (val_at row idx) (wc_val cond) (wc_end_val cond)
      | WHERE_NONE => false
      end
  end.

(** The loop returns 0 at the first condition that fails. *)
Definition row_match (tab : TabVer) (stmt : Statement) (row : Row) : bool :=
  forallb (cond_match tab row) (where_conditions stmt).

(** ** SELECT *)

Definition project (tab : TabVer) (sel : list nat) (row : Row) : DbObj :=
  map (fun i => (match cols tab !! i with Some c => col_name c | None => [] end, val_at row i)) sel.

Definition res_add (res : DbRes) (tab : TabVer) (row : Row) (sel : list nat) : DbRes :=
  let rs := res_rows res ++ [project tab sel row] in
  mkRes rs (Z.of_nat (length rs)) (last_id res) (snap_id res) (err_code res) (err_msg res).

(** [sel_vis] and [sel_svis]: visit a row of the index. *)
Definition sel_vis {K} (tab : TabVer) (stmt : Statement) (sel : list nat) : @visitor K DbRes :=
  fun _ row_idx res =>
    if (row_idx <? 0) || (row_cnt tab <=? row_idx) then (true, res)
    else
      let row := default [] (rows tab !! Z.to_nat row_idx) in
      if row_match tab stmt row then (true, res_add res tab row sel) else (true, res).

(** The score of a condition on column [idx]. *)
Definition cond_score (tab : TabVer) (cond : WhereCondition) (idx : nat) : Z :=
  let uk := match uk_slot tab idx with Some _ => true | None => false end in
  match wc_type cond with
  | WHERE_EQ => if is_pk tab idx then 100 else if uk then 90 else 0
  | WHERE_BETWEEN => if is_pk tab idx then 80 else if uk then 70 else 0
  | WHERE_NONE => 0
  end.

(** The first condition of the best score, with its column. *)
Fixpoint pick_loop (tab : TabVer) (conds : list WhereCondition) (best_s : Z)
    (best : option (WhereCondition * nat)) : option (WhereCondition * nat) :=
  match conds with
  | [] => best
  | c :: cs =>
      match col_idx tab (wc_col c) with
      | None => pick_loop tab cs best_s best
      | Some idx =>
          let sc := cond_score tab c idx in
          if best_s <? sc then pick_loop tab cs sc (Some (c, idx))
          else pick_loop tab cs best_s best
      end
  end.

Definition pick_idx (tab : TabVer) (stmt : Statement) : option (WhereCondition * nat) :=
  pick_loop tab (where_conditions stmt) 0 None.

Fixpoint sel_cols (tab : TabVer) (names : list cstr) : option (list nat) :=
  match names with
  | [] => Some []
  | nm :: ns => i ← col_idx tab nm; rest ← sel_cols tab ns; Some (i :: rest)
  end.

(** The scan over all rows. *)
Fixpoint sel_scan (tab : TabVer) (stmt : Statement) (sel : list nat) (rs : list Row) (res : DbRes)
    : DbRes :=
  match rs with
  | [] => res
  | r :: rs' =>
      sel_scan tab stmt sel rs' (if row_match tab stmt r then res_add res tab r sel else res)
  end.

(** Point lookup: the row the index names is visited. *)
Definition sel_point {K} (tab : TabVer) (stmt : Statement) (sel : list nat) (key : K)
    (found : option Z) (res : DbRes) : Z * DbRes :=
  match found with
  | Some row_idx =>
      match sel_vis tab stmt sel key row_idx res with
      | (true, res') => (0, res')
      | (false, res') => (-1, res_err res' "OOM" "out of memory")
      end
  | None => (0, res)
  end.

Definition bad_pk_between (res : DbRes) : DbRes :=
  match err_code res with [] => res_err res "BAD_SQL" "bad PK BETWEEN" | _ => res end.

Definition sel_do (tab : TabVer) (stmt : Statement) (res : DbRes) : option (Z * DbRes) :=
  match (if select_all stmt then Some (seq 0 (col_cnt tab)) else sel_cols tab (select_cols stmt)) with
  | None => Some (-1, res_err res "BAD_SQL" "unknown SELECT column")
  | Some sel =>
      match pick_idx tab stmt with
      | None => Some (0, sel_scan tab stmt sel (rows tab) res)
      | Some (cond, col) =>
          match wc_type cond with
          | WHERE_EQ =>
              if is_pk tab col then
                match parse_l (wc_val cond) with
                | None => Some (-1, res_err res "BAD_SQL" "PK filter must be integer")
                | Some key =>
                    Some (sel_point tab stmt sel key
                      (t ← pk_tree tab; ix_search t key) res)
                end
              else
                match uk_slot tab col with
                | Some slot =>
                    let key := norm_v (wc_val cond) RECORD_SIZE in
                    Some (sel_point tab stmt sel key (t ← uk_tree tab !! slot; ix_search t key) res)
                | None => Some (0, sel_scan tab stmt sel (rows tab) res)
                end
          | WHERE_BETWEEN =>
              if is_pk tab col then
                match parse_l (wc_val cond), parse_l (wc_end_val cond), pk_tree tab with
                | Some a0, Some a1, Some t =>
                    let* (ok, res') := ix_range _ t a0 a1 (sel_vis tab stmt sel) res in
                    Some (if ok then (0, res') else (-1, bad_pk_between res'))
                | _, _, _ => Some (-1, bad_pk_between res)
                end
              else
                match uk_slot tab col with
                | Some slot =>
                    let a0 := norm_v (wc_val cond) RECORD_SIZE in
                    let a1 := norm_v (wc_end_val cond) RECORD_SIZE in
                    t ← uk_tree tab !! slot;
                    let* (ok, res') := ix_range _ t a0 a1 (sel_vis tab stmt sel) res in
                    Some (if ok then (0, res') else (-1, res_err res' "BAD_SQL" "bad UK BETWEEN"))
                | None => Some (0, sel_scan tab stmt sel (rows tab) res)
                end
          | WHERE_NONE => Some (0, sel_scan tab stmt sel (rows tab) res)
          end
      end
  end.

(** ** INSERT *)

Definition MAX_RECORDS : Z := 2000000.

(** [while (cap < need) cap *= 2], refused when [cap] would overflow an [int]. *)
Fixpoint grow_cap (fuel : nat) (cap need : Z) : option Z :=
  if need <=? cap then Some cap
  else match fuel with
       | O => None
       | S f => if INT_MAX / 2 <? cap then None else grow_cap f (cap * 2) need
       end.

(** The new [row_cap] and [row_alloc].  [cap] at least doubles in every round, so
    32 rounds reach [INT_MAX]. *)
Definition ensure_row_cap (tab : TabVer) (need : Z) : option (Z * Z) :=
  if need <=? row_cap tab then Some (row_cap tab, row_alloc tab)
  else cap ← grow_cap 32 (if 0 <? row_cap tab then row_cap tab else 16) need; Some (cap, cap).

Definition chk_dup_pk (tab : TabVer) (key : Z) : bool :=
  match pk_idx tab, (t ← pk_tree tab; ix_search t key) with
  | Some _, Some _ => true
  | _, _ => false
  end.

(** [skip] is the row that may hold the value. *)
Definition chk_dup_uk (tab : TabVer) (idx : nat) (val : cstr) (skip : Z) : bool :=
  match uk_slot tab idx, val with
  | None, _ | _, [] => false
  | Some slot, _ =>
      match (t ← uk_tree tab !! slot; ix_search t (norm_v val RECORD_SIZE)) with
      | Some row_idx => negb (row_idx =? skip)
      | None => false
      end
  end.

(** [next_id++] on a [long]; the overflow wraps. *)
Definition long_succ (n : Z) : Z := if n =? LONG_MAX then LONG_MIN else n + 1.

(** The text of column [i] of a new row. *)
Definition new_src (tab : TabVer) (vals : list cstr) (miss_pk auto_pk : bool) (new_id : Z) (i : nat)
    : cstr :=
  if is_pk tab i && auto_pk then print_Z new_id
  else
    let src_i := match pk_idx tab with
                 | Some p => if miss_pk && (p <? i)%nat then (i - 1)%nat else i
                 | None => i
                 end in
    default [] (vals !! src_i).

(** The column loop: [None] at an empty NN column. *)
Fixpoint new_vals (tab : TabVer) (vals : list cstr) (miss_pk auto_pk : bool) (new_id : Z)
    (ixs : list nat) : option Row :=
  match ixs with
  | [] => Some []
  | i :: ixs' =>
      let v := trim_uq (new_src tab vals miss_pk auto_pk new_id i) in
      match type_at tab i, v with
      | COL_NN, [] => None
      | _, _ => vs ← new_vals tab vals miss_pk auto_pk new_id ixs'; Some (v :: vs)
      end
  end.

(** [row_new]: the new [next_id], advanced even when the row is refused, and the
    row with its id. *)
Definition row_new (tab : TabVer) (vals : list cstr) : Z * option (Row * Z) :=
  let miss_pk := bool_decide (pk_idx tab = Some 0%nat) && (S (length vals) =? col_cnt tab)%nat in
  if negb (length vals =? col_cnt tab)%nat && negb miss_pk then (next_id tab, None)
  else
    let fill auto_pk new_id :=
      r ← new_vals tab vals (negb (length vals =? col_cnt tab)%nat) auto_pk new_id (seq 0 (col_cnt tab));
      Some (r, new_id) in
    match pk_idx tab with
    | None => (next_id tab, fill false 0)
    | Some p =>
        let pk_src := if negb (length vals =? col_cnt tab)%nat then [] else default [] (vals !! p) in
        if match pk_src with [] => true | _ => cmp_v pk_src (lit "NULL") end then
          (long_succ (next_id tab), fill true (next_id tab))
        else
          match parse_l pk_src with
          | None => (next_id tab, None)
          | Some id =>
              (if next_id tab <=? id then long_succ id else next_id tab, fill false id)
          end
    end.

(** Put row [i] into the UK trees, skipping empty values. *)
Fixpoint index_uks (row : Row) (i : Z) (ucols : list nat) (ts : list (tree cstr))
    : option (bool * list (tree cstr)) :=
  match ucols, ts with
  | c :: cs, t :: ts' =>
      match norm_v (val_at row c) RECORD_SIZE with
      | [] => let* (ok, ts1) := index_uks row i cs ts' in Some (ok, t :: ts1)
      | key =>
          let* (rc, t') := ix_insert t key i in
          if rc =? 1 then let* (ok, ts1) := index_uks row i cs ts' in Some (ok, t' :: ts1)
          else Some (false, t' :: ts')
      end
  | _, _ => Some (true, ts)
  end.

(** The loop over the UK columns of the new row. *)
Definition dup_uk_row (tab : TabVer) (row : Row) : bool :=
  existsb (fun idx => chk_dup_uk tab idx (val_at row idx) (-1)) (uk_idx tab).

Definition ins_do (tab : TabVer) (stmt : Statement) (res : DbRes) : option (Z * TabVer * DbRes) :=
  let vals := split_csv (row_data stmt) MAX_COLS RECORD_SIZE in
  if MAX_RECORDS <=? row_cnt tab then Some (-1, tab, res_err res "BAD_REQ" "table row limit reached")
  else
    match ensure_row_cap tab (row_cnt tab + 1) with
    | None => Some (-1, tab, res_err res "OOM" "out of memory")
    | Some (cap, alloc) =>
        let '(nid, made) := row_new tab vals in
        let tab1 := set_next_id (set_rows tab (rows tab) cap alloc) nid in
        if alloc <=? row_cnt tab then None
        else
        match made with
        | None => Some (-1, tab1, res_err res "BAD_SQL" "invalid INSERT values")
        | Some (row, new_id) =>
            if chk_dup_pk tab1 new_id then Some (-1, tab1, res_err res "BAD_SQL" "duplicate PK")
            else if dup_uk_row tab1 row then Some (-1, tab1, res_err res "BAD_SQL" "duplicate UK")
            else
              let tab2 := set_rows tab1 (rows tab ++ [row]) cap alloc in
              let i := row_cnt tab in
              let* (ok_pk, pk) := match pk_tree tab2 with
                             | None => Some (true, None)
                             | Some t => '(rc, t') ← ix_insert t new_id i; Some (rc =? 1, Some t')
                             end in
              if negb (ok_pk : bool) then
                Some (-1, set_trees tab2 pk (uk_tree tab2), res_err res "INT_ERR" "PK index update failed")
              else
                let* (ok_uk, uks) := index_uks row i (uk_idx tab2) (uk_tree tab2) in
                let tab3 := set_trees tab2 pk uks in
                if negb (ok_uk : bool) then Some (-1, tab3, res_err res "INT_ERR" "UK index update failed")
                else Some (0, tab3, set_last_id (set_count res 1) new_id)
        end
    end.

(** ** Index building *)

Definition create_uks (n : nat) : option (list (tree cstr)) :=
  t ← ix_create; Some (replicate n t).

(** The PK of row [i] put into the PK tree. *)
Definition idx_pk (tab : TabVer) (i : Z) (r : Row) (pk : tree Z) : option (bool * tree Z) :=
  match pk_idx tab with
  | None => Some (true, pk)
  | Some p =>
      match parse_l (val_at r p) with
      | None => Some (false, pk)
      | Some key => let* (rc, t) := ix_insert pk key i in Some (rc =? 1, t)
      end
  end.

(** The loop over the rows from [i] on. *)
Fixpoint idx_rows (tab : TabVer) (i : Z) (rs : list Row) (pk : tree Z) (uks : list (tree cstr))
    : option (bool * tree Z * list (tree cstr)) :=
  match rs with
  | [] => Some (true, pk, uks)
  | r :: rs' =>
      let* (ok, pk') := idx_pk tab i r pk in
      if (ok : bool) then
        let* (ok', uks') := index_uks r i (uk_idx tab) uks in
        if (ok' : bool) then idx_rows tab (i + 1) rs' pk' uks' else Some (false, pk', uks')
      else Some (false, pk', uks)
  end.

Definition idx_build (tab : TabVer) : option (bool * TabVer) :=
  pk ← ix_create;
  uks ← create_uks (length (uk_idx tab));
  let* (ok, pk', uks') := idx_rows tab 0 (rows tab) pk uks in
  Some (ok, set_trees tab (Some pk') uks').

(** [tab_clone]; [None] when the rows cannot be indexed. *)
Definition tab_clone (src : TabVer) : option TabVer :=
  let* (ok, dst) := idx_build (mkTab (name src) (cols src) (pk_idx src) (uk_idx src) (rows src)
                  (row_cnt src) (row_cnt src) (next_id src) 0 None []) in
  if (ok : bool) then Some dst else None.

(** ** UPDATE and DELETE *)

Definition upd_val (row : Row) (idx : nat) (v : cstr) : Row := <[idx := v]> row.

(** The first pass of UPDATE: does some matching row clash with another row? *)
Fixpoint upd_clash (tab : TabVer) (stmt : Statement) (idx : nat) (v : cstr) (i : Z) (rs : list Row)
    : bool :=
  match rs with
  | [] => false
  | r :: rs' =>
      (row_match tab stmt r && bool_decide (type_at tab idx = COL_UK) && chk_dup_uk tab idx v i)
      || upd_clash tab stmt idx v (i + 1) rs'
  end.

(** The second pass: the rows after it, and how many were changed. *)
Fixpoint upd_rows (tab : TabVer) (stmt : Statement) (idx : nat) (v : cstr) (rs : list Row)
    : list Row * Z :=
  match rs with
  | [] => ([], 0)
  | r :: rs' =>
      let '(out, n) := upd_rows tab stmt idx v rs' in
      if row_match tab stmt r then (upd_val r idx v :: out, n + 1) else (r :: out, n)
  end.

Definition upd_do (tab : TabVer) (stmt : Statement) (res : DbRes) : option (Z * TabVer * DbRes) :=
  match where_conditions stmt with
  | [] => Some (-1, tab, res_err res "BAD_SQL" "UPDATE requires WHERE")
  | _ =>
      match col_idx tab (set_col stmt) with
      | None => Some (-1, tab, res_err res "BAD_SQL" "unknown SET column")
      | Some idx =>
          if is_pk tab idx then Some (-1, tab, res_err res "BAD_SQL" "PK update not allowed")
          else
            let v := norm_v (set_val stmt) 256 in
            if bool_decide (type_at tab idx = COL_NN) && bool_decide (v = []) then
              Some (-1, tab, res_err res "BAD_SQL" "NN violation")
            else if upd_clash tab stmt idx v 0 (rows tab) then
              Some (-1, tab, res_err res "BAD_SQL" "duplicate UK")
            else
              let '(rs, n) := upd_rows tab stmt idx v (rows tab) in
              let res1 := set_count res (count res + n) in
              if count res1 =? 0 then Some (0, tab, res1)
              else
                let* (ok, tab1) := idx_build (set_trees (set_rows tab rs (row_cap tab) (row_alloc tab)) None []) in
                if (ok : bool) then Some (0, tab1, res1)
                else Some (-1, tab1, res_err res1 "INT_ERR" "index rebuild failed")
      end
  end.

(** The rows DELETE keeps, and how many it drops. *)
Fixpoint del_rows (tab : TabVer) (stmt : Statement) (rs : list Row) : list Row * Z :=
  match rs with
  | [] => ([], 0)
  | r :: rs' =>
      let '(out, n) := del_rows tab stmt rs' in
      if row_match tab stmt r then (out, n + 1) else (r :: out, n)
  end.

(** The new array has [row_cnt] slots; [row_cap] keeps its old value. *)
Definition del_do (tab : TabVer) (stmt : Statement) (res : DbRes) : option (Z * TabVer * DbRes) :=
  match where_conditions stmt with
  | [] => Some (-1, tab, res_err res "BAD_SQL" "DELETE requires WHERE")
  | _ =>
      let '(rs, n) := del_rows tab stmt (rows tab) in
      let res1 := set_count res (count res + n) in
      let* (ok, tab1) := idx_build (set_trees (set_rows tab rs (row_cap tab) (row_cnt tab)) None []) in
      if (ok : bool) then Some (0, tab1, res1)
      else Some (-1, tab1, res_err res1 "INT_ERR" "index rebuild failed")
  end.

Definition exec_stmt (tab : TabVer) (stmt : Statement) (res : DbRes) : option (Z * TabVer * DbRes) :=
  match stype stmt with
  | STMT_SELECT => let* (rc, res') := sel_do tab stmt res in Some (rc, tab, res')
  | STMT_INSERT => ins_do tab stmt res
  | STMT_UPDATE => upd_do tab stmt res
  | STMT_DELETE => del_do tab stmt res
  | STMT_UNRECOGNIZED => Some (-1, tab, res_err res "BAD_SQL" "unsupported SQL")
  end.
