(* ===== verification/TableProofs.v ===== *)
(** Well-formed tables: the rows fit the columns and the trees of a table hold
    exactly the keys of its rows.  Building the indexes and inserting a row
    keep tables well formed. *)

From S2P Require Import Prelude CString BPTree BPTreeProofs BPTreeSpec BPTreeIndex Parser Values Table.
From stdpp Require Import base numbers list option sorting.
Local Open Scope Z_scope.

#[local] Arguments ix_insert : simpl never.
#[local] Arguments ix_search : simpl never.
#[local] Arguments ix_create : simpl never.

(** ** The entries an index must hold *)

Section keyed.
Context {K : Type} (f : Row → option K).

(** The (key, position) pairs of the rows that have a key. *)
Fixpoint keyed (i : Z) (rs : list Row) : list (K * Z) :=
  match rs with
  | [] => []
  | r :: rs' =>
      match f r with
      | Some k => (k, i) :: keyed (i + 1) rs'
      | None => keyed (i + 1) rs'
      end
  end.

Lemma keyed_app i rs1 rs2 :
  keyed i (rs1 ++ rs2) = keyed i rs1 ++ keyed (i + Z.of_nat (length rs1)) rs2.
Proof.
  revert i; induction rs1 as [|r rs1 IH]; intros i; simpl; [by rewrite Z.add_0_r|].
  rewrite IH. replace (i + 1 + Z.of_nat (length rs1)) with (i + Z.of_nat (S (length rs1))) by lia.
  by destruct (f r).
Qed.

Lemma keyed_fst i rs : (keyed i rs).*1 = omap f rs.
Proof.
  revert i; induction rs as [|r rs IH]; intros i; simpl; [done|].
  destruct (f r); simpl; by rewrite IH.
Qed.

Lemma elem_of_keyed i rs k j :
  (k, j) ∈ keyed i rs ↔ ∃ n r, rs !! n = Some r ∧ f r = Some k ∧ j = i + Z.of_nat n.
Proof.
  revert i; induction rs as [|r rs IH]; intros i; simpl.
  - split; [by intros ?%not_elem_of_nil|]. by intros (n & r & ? & _).
  - assert ((k, j) ∈ keyed (i + 1) rs ↔
      ∃ n r', (r :: rs) !! S n = Some r' ∧ f r' = Some k ∧ j = i + Z.of_nat (S n)) as IH'.
    { rewrite IH. split; intros (n & r' & ? & ? & ?); exists n, r'; split_and!; (done || lia). }
    transitivity ((f r = Some k ∧ j = i) ∨ (k, j) ∈ keyed (i + 1) rs).
    + destruct (f r) as [k'|]; [rewrite elem_of_cons|]; naive_solver.
    + rewrite IH'. split.
      * intros [[? ->]|(n & r' & H)]; [exists 0%nat, r; split_and!; (done || lia)|by exists (S n), r'].
      * intros ([|n] & r' & H1 & H2 & H3); [left|right; by exists n, r'].
        injection H1 as ->. split; [done|lia].
Qed.
End keyed.

Section indexes.
Context {K T : Type} `{!KeyOrder K, !KeyOrderLaws K, !OrderedIndex K T, !OrderedIndexLaws K T}.
Implicit Types (t : T) (f : Row → option K) (rs : list Row).

(** The index [t] holds exactly the keys of the rows. *)
Definition indexes t f rs : Prop := ix_ok t ∧ ix_elems t ≡ₚ keyed f 0 rs.

Lemma indexes_create f : ∃ t, ix_create = Some t ∧ indexes t f [].
Proof using All.
  destruct ix_create_ok as (t & E & Hok & He). exists t. split; [done|]. split; [done|]. by rewrite He.
Qed.

Lemma indexes_NoDup t f rs : indexes t f rs → NoDup (omap f rs).
Proof using All.
  intros [Hok Hp]. rewrite <- (keyed_fst f 0), <- Hp. apply klt_sorted_NoDup. by apply ix_sorted.
Qed.

Lemma indexes_search t f rs k i :
  indexes t f rs → ix_search t k = Some i →
  ∃ n r, i = Z.of_nat n ∧ rs !! n = Some r ∧ f r = Some k.
Proof using All.
  intros [Hok Hp]. rewrite ix_search_get by done. intros E.
  apply assoc_get_Some in E; [|by apply ix_sorted]. rewrite Hp in E.
  apply elem_of_keyed in E as (n & r & ? & ? & ?). exists n, r. split_and!; (done || lia).
Qed.

Lemma indexes_search_in t f rs k n r :
  indexes t f rs → rs !! n = Some r → f r = Some k → ix_search t k = Some (Z.of_nat n).
Proof using All.
  intros [Hok Hp] Hn Hf. rewrite ix_search_get by done.
  apply assoc_get_Some; [by apply ix_sorted|]. rewrite Hp. apply elem_of_keyed.
  exists n, r. split_and!; (done || lia).
Qed.

Lemma indexes_search_None t f rs k : indexes t f rs → ix_search t k = None ↔ k ∉ omap f rs.
Proof using All.
  intros [Hok Hp]. rewrite ix_search_get by done. rewrite assoc_get_None.
  by rewrite <- (keyed_fst f 0), <- Hp.
Qed.

Lemma indexes_snoc_none t f rs r : indexes t f rs → f r = None → indexes t f (rs ++ [r]).
Proof using Type.
  intros [Hok Hp] E. split; [done|]. rewrite keyed_app. simpl. by rewrite E, app_nil_r.
Qed.

(** Adding the next row under its key. *)
Lemma indexes_insert t f rs r k :
  indexes t f rs → f r = Some k → ix_valid (K:=K) (T:=T) k →
  ∃ rc t', ix_insert t k (Z.of_nat (length rs)) = Some (rc, t') ∧
    (rc = 1 ↔ k ∉ omap f rs) ∧ (rc = 1 → indexes t' f (rs ++ [r])).
Proof using All.
  intros Hi E Hv. pose proof Hi as [Hok Hp]. destruct (assoc_get k (ix_elems t)) as [i|] eqn:Eg.
  - destruct (ix_insert_dup t k (Z.of_nat (length rs)) Hok Hv) as (t' & Ht); [by rewrite Eg|].
    exists 0, t'. split; [done|]. split; [|done]. split; [done|]. intros Hn.
    apply (indexes_search_None t f rs k Hi) in Hn. rewrite ix_search_get in Hn by done. congruence.
  - destruct (ix_insert_new t k (Z.of_nat (length rs)) Hok Hv Eg) as (t' & Ht & Hok' & He).
    exists 1, t'. split; [done|]. split.
    + split; [|done]. intros _. apply (indexes_search_None t f rs k Hi). by rewrite ix_search_get.
    + intros _. split; [done|]. rewrite He, assoc_put_perm, Hp, keyed_app. simpl. rewrite E.
      by rewrite <- Permutation_cons_append.
Qed.
End indexes.

(** ** Well-formed tables *)

Definition pk_key (p : nat) (r : Row) : option Z := parse_l (val_at r p).

(** Empty values are not indexed. *)
Definition uk_key (c : nat) (r : Row) : option cstr :=
  match norm_v (val_at r c) RECORD_SIZE with [] => None | k => Some k end.

Record schema_ok (tab : TabVer) : Prop := {
  so_cols : (0 < col_cnt tab ≤ MAX_COLS)%nat;
  so_pk : match pk_idx tab with None => True | Some p => type_at tab p = COL_PK end;
  so_uk : NoDup (uk_idx tab);
  so_uk_type : ∀ c, c ∈ uk_idx tab ↔ type_at tab c = COL_UK;
}.

(** Every PK value is an integer, and no two rows share a PK or a UK value. *)
Definition unique (tab : TabVer) (rs : list Row) : Prop :=
  match pk_idx tab with
  | None => True
  | Some p => Forall (fun r => pk_key p r ≠ None) rs ∧ NoDup (omap (pk_key p) rs)
  end ∧ Forall (fun c => NoDup (omap (uk_key c) rs)) (uk_idx tab).

(** The trees hold the keys of [rs]. *)
Definition pk_for (tab : TabVer) (rs : list Row) (pk : tree Z) : Prop :=
  match pk_idx tab with
  | None => ix_ok pk
  | Some p => Forall (fun r => pk_key p r ≠ None) rs ∧ indexes pk (pk_key p) rs
  end.

Definition trees_for (tab : TabVer) (rs : list Row) (pk : tree Z) (uks : list (tree cstr)) : Prop :=
  pk_for tab rs pk ∧ Forall2 (fun c t => indexes t (uk_key c) rs) (uk_idx tab) uks.

Record tab_ok (tab : TabVer) : Prop := {
  to_schema : schema_ok tab;
  to_rows : Forall (fun r => length r = col_cnt tab) (rows tab);
  to_alloc : row_cnt tab ≤ row_alloc tab;
  to_trees : ∃ pk, pk_tree tab = Some pk ∧ trees_for tab (rows tab) pk (uk_tree tab);
}.

(** The array has the room that [row_cap] promises. *)
Definition cap_ok (tab : TabVer) : Prop := row_cap tab ≤ row_alloc tab.

Lemma trees_unique tab rs pk uks : trees_for tab rs pk uks → unique tab rs.
Proof.
  unfold trees_for, pk_for. intros [Hpk Huk]. split.
  - destruct (pk_idx tab); [|done]. destruct Hpk as [? ?]. split; [done|]. by eapply indexes_NoDup.
  - apply Forall_forall. intros c Hc. apply list_elem_of_lookup in Hc as [i Hi].
    destruct (Forall2_lookup_l _ _ _ _ _ Huk Hi) as (t & _ & Ht). by eapply indexes_NoDup.
Qed.

Lemma unique_prefix tab rs1 rs2 : unique tab (rs1 ++ rs2) → unique tab rs1.
Proof.
  intros [Hpk Huk]. split.
  - destruct (pk_idx tab); [|done]. destruct Hpk as [H1 H2]. apply Forall_app in H1 as [? _].
    rewrite omap_app in H2. by apply NoDup_app in H2 as [? _].
  - eapply Forall_impl; [exact Huk|]. simpl. intros c Hc. rewrite omap_app in Hc.
    by apply NoDup_app in Hc as [? _].
Qed.

(** The value of column [c] of [r] is new among the rows [rs]. *)
Definition uk_fresh (rs : list Row) (r : Row) (c : nat) : Prop :=
  match uk_key c r with Some k => k ∉ omap (uk_key c) rs | None => True end.

Lemma NoDup_omap_snoc {K} (f : Row → option K) rs r :
  NoDup (omap f (rs ++ [r])) ↔
  NoDup (omap f rs) ∧ match f r with Some k => k ∉ omap f rs | None => True end.
Proof.
  rewrite omap_app. simpl. destruct (f r) as [k|]; [|rewrite app_nil_r; tauto].
  rewrite NoDup_app. split.
  - intros (H1 & H2 & _). split; [done|]. intros Hin. apply (H2 k Hin). by left.
  - intros [H1 H2]. split_and!; [done| |apply NoDup_singleton].
    intros x Hx ->%list_elem_of_singleton. done.
Qed.

(** [index_uks] adds one row to every UK tree, or reports a value already there. *)
Lemma index_uks_spec row rs ucols ts :
  Forall2 (fun c t => indexes t (uk_key c) rs) ucols ts →
  ∃ ok ts', index_uks row (Z.of_nat (length rs)) ucols ts = Some (ok, ts') ∧
    (ok = true ↔ Forall (uk_fresh rs row) ucols) ∧
    (ok = true → Forall2 (fun c t => indexes t (uk_key c) (rs ++ [row])) ucols ts').
Proof.
  induction 1 as [|c t cs ts Ht Hts IH]; simpl.
  - exists true, []. split; [done|]. split; [|constructor]. split; [constructor|done].
  - destruct IH as (ok & ts1 & E & Hiff & Hix). rewrite E.
    assert (Forall (uk_fresh rs row) (c :: cs) ↔ uk_fresh rs row c ∧ Forall (uk_fresh rs row) cs) as Hcons
      by apply Forall_cons.
    destruct (norm_v (val_at row c) RECORD_SIZE) as [|b k] eqn:Ek.
    + assert (uk_key c row = None) as Eu by (unfold uk_key; by rewrite Ek).
      exists ok, (t :: ts1). split; [done|]. split.
      * rewrite Hcons, Hiff. unfold uk_fresh at 2. rewrite Eu. tauto.
      * intros Hok. constructor; [by apply indexes_snoc_none|auto].
    + assert (uk_key c row = Some (b :: k)) as Eu by (unfold uk_key; by rewrite Ek).
      destruct (indexes_insert t (uk_key c) rs row (b :: k) Ht Eu) as (rc & t' & Ei & Hrc & Hit); [done|].
      rewrite Ei. destruct (Z.eqb_spec rc 1) as [->|Hne].
      * exists ok, (t' :: ts1). split; [done|]. split.
        -- rewrite Hcons, Hiff. unfold uk_fresh at 2. rewrite Eu. tauto.
        -- intros Hok. constructor; [by apply Hit|auto].
      * exists false, (t' :: ts). split; [done|]. split; [|done]. split; [done|].
        rewrite Hcons. unfold uk_fresh at 1. rewrite Eu. tauto.
Qed.

(** ** Building the indexes *)

(** The PK of [r] is an integer that no row of [rs] has. *)
Definition pk_fresh (tab : TabVer) (rs : list Row) (r : Row) : Prop :=
  match pk_idx tab with
  | None => True
  | Some p => match pk_key p r with Some k => k ∉ omap (pk_key p) rs | None => False end
  end.

Lemma unique_snoc tab rs r :
  unique tab (rs ++ [r]) ↔ unique tab rs ∧ pk_fresh tab rs r ∧ Forall (uk_fresh rs r) (uk_idx tab).
Proof.
  assert (∀ c, NoDup (omap (uk_key c) (rs ++ [r])) ↔ NoDup (omap (uk_key c) rs) ∧ uk_fresh rs r c) as Hu
    by (intros; apply NoDup_omap_snoc).
  assert (Forall (fun c => NoDup (omap (uk_key c) (rs ++ [r]))) (uk_idx tab) ↔
    Forall (fun c => NoDup (omap (uk_key c) rs)) (uk_idx tab) ∧ Forall (uk_fresh rs r) (uk_idx tab)) as HU.
  { rewrite <- Forall_and. apply Forall_iff. done. }
  unfold unique, pk_fresh. rewrite HU. destruct (pk_idx tab) as [p|]; [|tauto].
  rewrite Forall_app, Forall_singleton, NoDup_omap_snoc.
  destruct (pk_key p r) as [k|]; [|tauto]. assert (Some k ≠ None) by done. tauto.
Qed.

(** The PK step of [idx_build] for the next row. *)
Lemma pk_step_spec tab rs r p pk key :
  pk_idx tab = Some p → pk_for tab rs pk → pk_key p r = Some key →
  ∃ rc pk', ix_insert pk key (Z.of_nat (length rs)) = Some (rc, pk') ∧
    (rc = 1 ↔ pk_fresh tab rs r) ∧ (rc = 1 → pk_for tab (rs ++ [r]) pk').
Proof.
  unfold pk_for, pk_fresh. intros -> [Hf Hi] Ek. rewrite Ek.
  destruct (indexes_insert pk (pk_key p) rs r key Hi Ek) as (rc & pk' & E & Hrc & Hit); [done|].
  exists rc, pk'. split; [done|]. split; [done|]. intros H. split; [|by apply Hit].
  apply Forall_app. split; [done|]. apply Forall_singleton. by rewrite Ek.
Qed.

Lemma idx_pk_spec tab pre r pk :
  pk_for tab pre pk →
  ∃ ok pk', idx_pk tab (Z.of_nat (length pre)) r pk = Some (ok, pk') ∧
    (ok = true ↔ pk_fresh tab pre r) ∧ (ok = true → pk_for tab (pre ++ [r]) pk').
Proof.
  intros Hpk. unfold idx_pk. destruct (pk_idx tab) as [p|] eqn:Ep.
  - change (parse_l (val_at r p)) with (pk_key p r). destruct (pk_key p r) as [key|] eqn:Ek.
    + destruct (pk_step_spec tab pre r p pk key Ep Hpk Ek) as (rc & t & -> & Hrc & Ht).
      exists (rc =? 1), t. split; [done|]. by rewrite Z.eqb_eq.
    + exists false, pk. split; [done|]. unfold pk_fresh. by rewrite Ep, Ek.
  - exists true, pk. split; [done|]. unfold pk_fresh, pk_for in *. by rewrite Ep in *.
Qed.

Lemma idx_rows_spec tab pre rs pk uks :
  trees_for tab pre pk uks →
  ∃ ok pk' uks', idx_rows tab (Z.of_nat (length pre)) rs pk uks = Some (ok, pk', uks') ∧
    (ok = true ↔ unique tab (pre ++ rs)) ∧ (ok = true → trees_for tab (pre ++ rs) pk' uks').
Proof.
  revert pre pk uks; induction rs as [|r rs IH]; intros pre pk uks Ht.
  - exists true, pk, uks. rewrite app_nil_r. split; [done|]. split; [|done]. split; [|done].
    intros _. by eapply trees_unique.
  - cbn [idx_rows]. pose proof (trees_unique _ _ _ _ Ht) as Hu. destruct Ht as [Hpk Huk].
    assert (unique tab (pre ++ r :: rs) → unique tab (pre ++ [r])) as Hpre.
    { replace (pre ++ r :: rs) with ((pre ++ [r]) ++ rs) by (by rewrite <- app_assoc). apply unique_prefix. }
    destruct (idx_pk_spec tab pre r pk Hpk) as (ok & pk' & -> & Hok & Hpk').
    rewrite unique_snoc in Hpre. destruct ok.
    + destruct (index_uks_spec r pre (uk_idx tab) uks Huk) as (ok2 & uks' & -> & Hok2 & Huk').
      destruct ok2.
      * replace (Z.of_nat (length pre) + 1) with (Z.of_nat (length (pre ++ [r]))) by (rewrite length_app; simpl; lia).
        destruct (IH (pre ++ [r]) pk' uks') as (ok3 & pk3 & uks3 & E3 & H3); [split; auto|].
        rewrite <- app_assoc in H3. by exists ok3, pk3, uks3.
      * exists false, pk', uks'. split; [done|]. split; [|done]. split; [done|]. intros H.
        apply Hok2. by apply Hpre.
    + exists false, pk', uks. split; [done|]. split; [|done]. split; [done|]. intros H. apply Hok. by apply Hpre.
Qed.

(** [idx_build] succeeds exactly on rows with integer PKs and without
    duplicates, and the trees then hold the rows. *)
Lemma idx_build_spec tab :
  ∃ ok tab', idx_build tab = Some (ok, tab') ∧ (ok = true ↔ unique tab (rows tab)) ∧
    ∃ pk uks, tab' = set_trees tab (Some pk) uks ∧ (ok = true → trees_for tab (rows tab) pk uks).
Proof.
  unfold idx_build, create_uks.
  destruct (ix_create_ok (K:=Z) (T:=tree Z)) as (pk & -> & Hpk & Hpe).
  destruct (ix_create_ok (K:=cstr) (T:=tree cstr)) as (uk & -> & Huk & Hue).
  assert (trees_for tab [] pk (replicate (length (uk_idx tab)) uk)) as Ht.
  { split.
    - unfold pk_for. destruct (pk_idx tab); [|done]. split; [constructor|]. split; [done|]. by rewrite Hpe.
    - induction (uk_idx tab) as [|c cs IH]; constructor; [|done]. split; [done|]. by rewrite Hue. }
  destruct (idx_rows_spec tab [] (rows tab) pk _ Ht) as (ok & pk' & uks' & E & H1 & H2).
  cbn [mbind option_bind]. change (Z.of_nat (length [])) with 0 in E. rewrite E. exists ok, (set_trees tab (Some pk') uks').
  split; [done|]. split; [done|]. by exists pk', uks'.
Qed.

Lemma schema_ok_ext tab tab' :
  cols tab' = cols tab → pk_idx tab' = pk_idx tab → uk_idx tab' = uk_idx tab →
  schema_ok tab → schema_ok tab'.
Proof.
  intros E1 E2 E3 [H1 H2 H3 H4]. unfold col_cnt, type_at in *. split; unfold col_cnt, type_at; by rewrite ?E1, ?E2, ?E3.
Qed.

Lemma trees_for_ext tab tab' rs pk uks :
  pk_idx tab' = pk_idx tab → uk_idx tab' = uk_idx tab →
  trees_for tab rs pk uks → trees_for tab' rs pk uks.
Proof. unfold trees_for, pk_for. by intros -> ->. Qed.

Lemma unique_ext tab tab' rs :
  pk_idx tab' = pk_idx tab → uk_idx tab' = uk_idx tab → unique tab rs ↔ unique tab' rs.
Proof. unfold unique. by intros -> ->. Qed.

(** Rebuilding the trees of a table whose rows fit gives a well-formed table
    exactly when the rows are unique. *)
Lemma idx_build_ok tab :
  schema_ok tab → Forall (fun r => length r = col_cnt tab) (rows tab) → row_cnt tab ≤ row_alloc tab →
  ∃ ok tab', idx_build tab = Some (ok, tab') ∧ (ok = true ↔ unique tab (rows tab)) ∧
    (∃ pk uks, tab' = set_trees tab pk uks) ∧ (ok = true → tab_ok tab').
Proof.
  intros Hs Hr Ha. destruct (idx_build_spec tab) as (ok & tab' & E & Hiff & pk & uks & -> & Ht).
  exists ok, (set_trees tab (Some pk) uks). split_and!; [done|done|by exists (Some pk), uks|].
  intros Hok. split; [by eapply schema_ok_ext; [..|exact Hs]|done|done|].
  exists pk. split; [done|]. simpl. eapply trees_for_ext; [..|by apply Ht]; done.
Qed.

(** A clone of a well-formed table is well formed, with the same rows. *)
Lemma tab_clone_spec tab :
  tab_ok tab → ∃ tab', tab_clone tab = Some tab' ∧ tab_ok tab' ∧ cap_ok tab' ∧
    rows tab' = rows tab ∧ cols tab' = cols tab ∧ pk_idx tab' = pk_idx tab ∧
    uk_idx tab' = uk_idx tab ∧ next_id tab' = next_id tab ∧ name tab' = name tab.
Proof.
  intros [Hs Hr Ha (pk & _ & Ht)]. unfold tab_clone.
  match goal with |- context [idx_build ?t] => set (t0 := t) end.
  destruct (idx_build_ok t0) as (ok & tab' & E & Hiff & (pk' & uks' & ->) & Hok).
  - by eapply schema_ok_ext; [..|exact Hs].
  - done.
  - simpl. unfold row_cnt. simpl. lia.
  - rewrite E. assert (ok = true) as ->.
    { apply Hiff. eapply unique_ext; [..|by eapply trees_unique]; done. }
    exists (set_trees t0 pk' uks'). split_and!; try done; [by apply Hok|].
    unfold cap_ok, t0. simpl. unfold row_cnt. lia.
Qed.
