(* ===== verification/InsertProofs.v ===== *)
(** INSERT on a well-formed table. *)

From Stdlib Require Import String.
From S2P Require Import Prelude CString BPTree BPTreeProofs BPTreeSpec BPTreeIndex Parser Values Table TableProofs.
From stdpp Require Import base numbers list option sorting.
Local Open Scope Z_scope.

#[local] Arguments ix_insert : simpl never.
#[local] Arguments ix_search : simpl never.
#[local] Arguments ix_create : simpl never.

(** ** Integers survive the trimming of stored values *)

Lemma digits_rest_nil acc s m : digits acc s = (m, []) → forallb isdigit s = true.
Proof.
  revert acc; induction s as [|c s IH]; intros acc; simpl; [done|].
  destruct (isdigit c); [apply IH|done].
Qed.

Lemma rstrip_digits p d ds : forallb isdigit (d :: ds) = true → rstrip (p ++ d :: ds) = p ++ d :: ds.
Proof.
  intros H. destruct (exists_last (l:=d :: ds)) as (l & x & E); [done|]. rewrite E in *.
  rewrite forallb_app in H. bool_to_prop. rewrite app_assoc. apply rstrip_snoc_nonspace.
  simpl in *. bool_to_prop. by apply isspace_digit.
Qed.

(** The text that [strtol] reads completely, after its leading white space. *)
Lemma strtol_full t :
  st_conv (strtol t) = true → st_rest (strtol t) = [] →
  strtol (skip_space t) = strtol t ∧ rstrip (skip_space t) = skip_space t ∧
  match skip_space t with [] => False | c :: _ => c ≠ QUOTE end.
Proof.
  assert (∀ c s, digits 0 (c :: s) = (fst (digits 0 (c :: s)), []) → forallb isdigit (c :: s) = true) as Hd
    by (intros; by eapply digits_rest_nil).
  unfold strtol. rewrite skip_space_idem. destruct (skip_space t) as [|c s1]; [done|].
  destruct (Z.eqb_spec c 45) as [->|H45]; [|destruct (Z.eqb_spec c 43) as [->|H43]]; cbv beta iota zeta.
  1,2: destruct s1 as [|d s2]; [done|]; destruct (isdigit d) eqn:Ed; [|done];
    pose proof (Hd d s2) as Hd2; destruct (digits 0 (d :: s2)) as [m r]; intros _ Hr;
    assert (r = []) as -> by (revert Hr; cbv zeta; repeat case_if; done);
    split; [done|]; split; [|done];
    match goal with |- rstrip (?x :: _) = _ => apply (rstrip_digits [x] d s2) end; by apply Hd2.
  destruct (isdigit c) eqn:Ed; [|done].
  pose proof (Hd c s1) as Hd2; destruct (digits 0 (c :: s1)) as [m r]; intros _ Hr.
  assert (r = []) as -> by (revert Hr; cbv zeta; repeat case_if; done).
  split; [done|]. split; [apply (rstrip_digits [] c s1); by apply Hd2|].
  apply isdigit_range in Ed. unfold QUOTE. lia.
Qed.

Lemma trim_uq_length s : (length (trim_uq s) ≤ length s)%nat.
Proof.
  unfold trim_uq. pose proof (rstrip_length (skip_space s)). pose proof (skip_space_length s).
  destruct (rstrip (skip_space s)) as [|c t]; simpl in *; [lia|].
  case_if; simpl; [|lia]. rewrite List.removelast_firstn_len, length_take. lia.
Qed.

(** A value that was accepted as an integer is stored as the same integer. *)
Lemma parse_l_trim s n : (length s < 256)%nat → parse_l s = Some n → parse_l (trim_uq s) = Some n.
Proof.
  intros Hl. unfold parse_l. pose proof (trim_uq_length s).
  rewrite !norm_short by lia. destruct (trim_uq s) as [|c t] eqn:E; [done|].
  set (u := c :: t). cbv zeta. destruct (negb _ && _ && _) eqn:Eb; [|done].
  apply andb_true_iff in Eb as [[Ee%negb_true_iff Ec]%andb_true_iff Er].
  destruct (st_rest (strtol u)) as [|? ?] eqn:Er'; [|done]. intros [= <-].
  destruct (strtol_full u Ec Er') as (H1 & H2 & H3).
  assert (trim_uq u = skip_space u) as ->.
  { unfold trim_uq. rewrite H2. destruct (skip_space u) as [|d v]; [done|].
    by rewrite (proj2 (Z.eqb_neq d QUOTE)) by done. }
  destruct (skip_space u) as [|d v]; [done|]. rewrite H1, Ee, Ec, Er'. done.
Qed.

(** ** The row built by [row_new] *)

Lemma new_vals_spec tab vals miss auto id ixs row :
  new_vals tab vals miss auto id ixs = Some row →
  row = map (fun i => trim_uq (new_src tab vals miss auto id i)) ixs ∧
  Forall (fun i => type_at tab i = COL_NN → trim_uq (new_src tab vals miss auto id i) ≠ []) ixs.
Proof.
  revert row; induction ixs as [|i ixs IH]; intros row; simpl; [intros [= <-]; split; [done|constructor]|].
  set (v := trim_uq (new_src tab vals miss auto id i)).
  destruct (new_vals tab vals miss auto id ixs) as [vs|].
  - destruct (IH vs eq_refl) as [-> Hnn].
    destruct (type_at tab i) eqn:Et, v eqn:Ev; simpl; intros [= <-]; (split; [done|]); constructor;
      first [done | fold v; intros ? ?; congruence].
  - destruct (type_at tab i), v; simpl; done.
Qed.

(** [next_id] is a [long]. *)
Definition next_ok (tab : TabVer) : Prop := LONG_MIN ≤ next_id tab ≤ LONG_MAX.

Lemma long_succ_range n : LONG_MIN ≤ n ≤ LONG_MAX → LONG_MIN ≤ long_succ n ≤ LONG_MAX.
Proof. unfold long_succ. destruct (Z.eqb_spec n LONG_MAX); unfold LONG_MIN, LONG_MAX in *; lia. Qed.

Record new_row_ok (tab : TabVer) (vals : list cstr) (row : Row) (id : Z) : Prop := {
  nr_len : length row = col_cnt tab;
  nr_key : match pk_idx tab with Some p => pk_key p row = Some id | None => id = 0 end;
  nr_nn : ∀ i, (i < col_cnt tab)%nat → type_at tab i = COL_NN → val_at row i ≠ [];
}.

Lemma val_at_map (f : nat → cstr) n i : (i < n)%nat → val_at (map f (seq 0 n)) i = f i.
Proof.
  intros Hi. unfold val_at. change (map f (seq 0 n)) with (f <$> seq 0 n).
  rewrite list_lookup_fmap, lookup_seq_lt by done. done.
Qed.

Lemma new_vals_ok tab vals miss auto id row :
  new_vals tab vals miss auto id (seq 0 (col_cnt tab)) = Some row →
  length row = col_cnt tab ∧
  (∀ i, (i < col_cnt tab)%nat → val_at row i = trim_uq (new_src tab vals miss auto id i)) ∧
  (∀ i, (i < col_cnt tab)%nat → type_at tab i = COL_NN → val_at row i ≠ []).
Proof.
  intros H. apply new_vals_spec in H as [-> Hnn]. split; [by rewrite length_map, length_seq|].
  split; intros i Hi; rewrite val_at_map by done; [done|]. intros Ht.
  rewrite Forall_forall in Hnn. apply Hnn; [|done]. apply elem_of_seq. lia.
Qed.

Lemma schema_pk_lt tab p : schema_ok tab → pk_idx tab = Some p → (p < col_cnt tab)%nat.
Proof.
  intros [_ H _ _] E. rewrite E in H. unfold type_at in H. unfold col_cnt.
  destruct (cols tab !! p) eqn:El; [|done]. by apply lookup_lt_Some in El.
Qed.

Lemma row_new_ok tab vals nid row id :
  schema_ok tab → next_ok tab → Forall (fun v => (length v < 256)%nat) vals →
  row_new tab vals = (nid, Some (row, id)) →
  new_row_ok tab vals row id ∧ LONG_MIN ≤ nid ≤ LONG_MAX.
Proof.
  intros Hs Hn Hshort. unfold row_new.
  destruct (negb (length vals =? col_cnt tab)%nat && negb _) eqn:Ebad; [done|].
  pose proof (schema_pk_lt tab) as Hplt. destruct (pk_idx tab) as [p|] eqn:Ep.
  2:{ destruct (new_vals _ _ _ _ _ _) as [r|] eqn:E; simpl; intros [= <- <- <-].
      apply new_vals_ok in E as (H1 & _ & H3). split; [|done]. split; [done|by rewrite Ep|done]. }
  specialize (Hplt p Hs eq_refl).
  generalize (negb (length vals =? col_cnt tab)%nat). intros miss.
  remember (if miss then [] else default [] (vals !! p)) as pk_src eqn:Esrc.
  destruct (match pk_src with [] => true | _ => cmp_v pk_src (lit "NULL") end) eqn:Eauto.
  - destruct (new_vals _ _ _ _ _ _) as [r|] eqn:E; simpl; intros [= <- <- <-].
    apply new_vals_ok in E as (H1 & H2 & H3). split; [|by apply long_succ_range].
    split; [done| |done]. rewrite Ep. unfold pk_key. rewrite H2 by done. unfold new_src, is_pk.
    rewrite Ep, Nat.eqb_refl. simpl. rewrite trim_print_Z. by apply parse_l_print.
  - destruct (parse_l pk_src) as [k|] eqn:Ek; [|done].
    destruct (new_vals _ _ _ _ _ _) as [r|] eqn:E; simpl; [|by destruct (_ <=? _)].
    intros Heq. assert (nid = (if next_id tab <=? k then long_succ k else next_id tab) ∧ r = row ∧ k = id)
      as (-> & -> & ->) by (by injection Heq). clear Heq.
    pose proof (parse_l_range _ _ Ek) as Hk.
    apply new_vals_ok in E as (H1 & H2 & H3). split.
    2:{ destruct (next_id tab <=? id); [by apply long_succ_range|done]. }
    split; [done| |done]. rewrite Ep. unfold pk_key. rewrite H2 by done. unfold new_src, is_pk.
    rewrite Ep, andb_false_r. destruct miss; [by subst pk_src|]. simpl. rewrite <- Esrc.
    apply parse_l_trim; [|done]. subst pk_src.
    destruct (vals !! p) as [v|] eqn:Ev; [|simpl; lia]. simpl. exact (Forall_lookup_1 _ _ _ _ Hshort Ev).
Qed.

(** ** Duplicate checks are scans of the rows *)

Lemma chk_dup_pk_spec tab pk row id :
  pk_tree tab = Some pk → pk_for tab (rows tab) pk →
  match pk_idx tab with Some p => pk_key p row = Some id | None => True end →
  chk_dup_pk tab id = false ↔ pk_fresh tab (rows tab) row.
Proof.
  unfold chk_dup_pk, pk_for, pk_fresh. intros -> Hpk Hk. destruct (pk_idx tab) as [p|]; [|done].
  rewrite Hk. destruct Hpk as [_ Hi]. simpl.
  rewrite <- (indexes_search_None pk (pk_key p) (rows tab) id Hi). by destruct (ix_search pk id).
Qed.

Lemma find_index_Some {A} (p : A → bool) i l n :
  find_index p i l = Some n → ∃ x, (i ≤ n)%nat ∧ l !! (n - i)%nat = Some x ∧ p x = true.
Proof.
  revert i; induction l as [|x l IH]; intros i; simpl; [done|]. destruct (p x) eqn:E.
  - intros [= <-]. exists x. by rewrite Nat.sub_diag.
  - intros (y & H1 & H2 & H3)%IH. exists y. split; [lia|]. split; [|done].
    by replace (n - i)%nat with (S (n - S i)) by lia.
Qed.

Lemma find_index_None {A} (p : A → bool) i l :
  find_index p i l = None ↔ Forall (fun x => p x = false) l.
Proof.
  revert i; induction l as [|x l IH]; intros i; simpl; [split; [constructor|done]|].
  rewrite Forall_cons. destruct (p x); [naive_solver|]. rewrite IH. naive_solver.
Qed.

Lemma uk_slot_Some tab c s : uk_slot tab c = Some s → uk_idx tab !! s = Some c.
Proof.
  intros (x & _ & H & E)%find_index_Some. rewrite Nat.sub_0_r in H. apply Nat.eqb_eq in E. by subst.
Qed.

Lemma uk_slot_in tab c : c ∈ uk_idx tab ↔ uk_slot tab c ≠ None.
Proof.
  split.
  - intros Hin E. apply find_index_None in E. eapply Forall_forall in E; [|exact Hin].
    by rewrite Nat.eqb_refl in E.
  - destruct (uk_slot tab c) as [s|] eqn:E; [|done]. intros _.
    apply uk_slot_Some in E. by eapply list_elem_of_lookup_2.
Qed.

Lemma trim_uq_nil : trim_uq [] = [].
Proof. done. Qed.

(** The UK tree of a column, through its slot. *)
Lemma uk_tree_at tab rs c :
  Forall2 (fun c t => indexes t (uk_key c) rs) (uk_idx tab) (uk_tree tab) → c ∈ uk_idx tab →
  ∃ s t, uk_slot tab c = Some s ∧ uk_tree tab !! s = Some t ∧ indexes t (uk_key c) rs.
Proof.
  intros Ht Hin. apply uk_slot_in in Hin. destruct (uk_slot tab c) as [s|] eqn:E; [|done].
  apply uk_slot_Some in E. destruct (Forall2_lookup_l _ _ _ _ _ Ht E) as (t & H1 & H2).
  by exists s, t.
Qed.

Lemma norm_nil_no_key t c rs : indexes t (uk_key c) rs → ix_search t [] = None.
Proof.
  intros Hi. apply (indexes_search_None t (uk_key c) rs [] Hi). intros Hin.
  apply list_elem_of_omap in Hin as (r & _ & E). unfold uk_key in E. by destruct (norm_v _ _).
Qed.

(** [chk_dup_uk] reports the row that holds the value, unless it is [skip]. *)
Lemma chk_dup_uk_spec tab rs c v skip :
  Forall2 (fun c t => indexes t (uk_key c) rs) (uk_idx tab) (uk_tree tab) → c ∈ uk_idx tab →
  chk_dup_uk tab c v skip = true ↔
  norm_v v RECORD_SIZE ≠ [] ∧
  ∃ n r, rs !! n = Some r ∧ uk_key c r = Some (norm_v v RECORD_SIZE) ∧ Z.of_nat n ≠ skip.
Proof.
  intros Ht Hin. destruct (uk_tree_at tab rs c Ht Hin) as (s & t & Es & Et & Hi).
  unfold chk_dup_uk. rewrite Es. destruct v as [|b v].
  { split; [done|]. intros [H _]. by contradict H. }
  rewrite Et. simpl. destruct (norm_v (b :: v) RECORD_SIZE) as [|b' k] eqn:Ek.
  { rewrite (norm_nil_no_key t c rs Hi). split; [done|]. by intros [? _]. }
  destruct (ix_search t (b' :: k)) as [i|] eqn:E.
  - destruct (indexes_search t (uk_key c) rs _ i Hi E) as (n & r & -> & Hn & Hr).
    rewrite negb_true_iff, Z.eqb_neq. split.
    + intros Hne. split; [done|]. by exists n, r.
    + intros [_ (n' & r' & Hn' & Hr' & Hne)].
      pose proof (indexes_search_in t (uk_key c) rs _ n' r' Hi Hn' Hr') as E'.
      rewrite E in E'. injection E' as E'. by rewrite E'.
  - split; [done|]. intros [_ (n & r & Hn & Hr & _)].
    pose proof (indexes_search_in t (uk_key c) rs _ n r Hi Hn Hr) as E'. congruence.
Qed.

#[local] Instance uk_fresh_dec rs r c : Decision (uk_fresh rs r c).
Proof. unfold uk_fresh. destruct (uk_key c r); apply _. Defined.

Lemma dup_uk_row_spec tab rs row :
  Forall2 (fun c t => indexes t (uk_key c) rs) (uk_idx tab) (uk_tree tab) →
  dup_uk_row tab row = false ↔ Forall (uk_fresh rs row) (uk_idx tab).
Proof.
  intros Ht. unfold dup_uk_row. rewrite <- not_true_iff_false, existsb_exists.
  assert (∀ c, c ∈ uk_idx tab → chk_dup_uk tab c (val_at row c) (-1) = true ↔ ¬ uk_fresh rs row c) as Hc.
  { intros c Hin. rewrite (chk_dup_uk_spec tab rs c _ _ Ht Hin). unfold uk_fresh.
    destruct (uk_key c row) as [k|] eqn:Ek.
    - assert (norm_v (val_at row c) RECORD_SIZE = k ∧ k ≠ []) as [-> Hk].
      { unfold uk_key in Ek. by destruct (norm_v _ _); [|injection Ek as <-]. }
      split.
      + intros [_ (n & r & Hn & Hr & _)] Hnin. apply Hnin. apply list_elem_of_omap. exists r.
        split; [by eapply list_elem_of_lookup_2|done].
      + intros Hin'. split; [done|]. apply dec_stable in Hin'.
        apply list_elem_of_omap in Hin' as (r & Hr & Er). apply list_elem_of_lookup in Hr as [n Hn].
        exists n, r. split_and!; (done || lia).
    - split; [|tauto]. intros [H _]. unfold uk_key in Ek. by destruct (norm_v _ _). }
  split.
  - intros H. apply Forall_forall. intros c Hin. destruct (chk_dup_uk tab c (val_at row c) (-1)) eqn:E.
    + exfalso. apply H. exists c. split; [by apply list_elem_of_In|done].
    + pose proof (Hc c Hin) as Hcc. rewrite E in Hcc. destruct (decide (uk_fresh rs row c)) as [?|Hn]; [done|].
      apply Hcc in Hn. done.
  - intros H (c & Hin%list_elem_of_In & E). rewrite Forall_forall in H. apply (Hc c Hin) in E. auto.
Qed.

(** ** INSERT *)

Lemma grow_cap_spec fuel cap need :
  0 < cap → need ≤ cap * 2 ^ Z.of_nat fuel → need ≤ INT_MAX / 2 →
  ∃ cap', grow_cap fuel cap need = Some cap' ∧ need ≤ cap'.
Proof.
  revert cap; induction fuel as [|fuel IH]; intros cap Hc Hn Hi; simpl.
  - destruct (Z.leb_spec need cap); [by exists cap|]. simpl in Hn. lia.
  - destruct (Z.leb_spec need cap); [by exists cap|].
    rewrite (proj2 (Z.ltb_ge (INT_MAX / 2) cap)) by lia. apply IH; [lia| |done].
    rewrite Nat2Z.inj_succ, Z.pow_succ_r in Hn by lia. lia.
Qed.

Lemma ensure_row_cap_spec tab need :
  cap_ok tab → 0 ≤ need ≤ MAX_RECORDS →
  ∃ cap alloc, ensure_row_cap tab need = Some (cap, alloc) ∧ need ≤ cap ∧ cap ≤ alloc.
Proof.
  unfold cap_ok, ensure_row_cap. intros Hc Hn. destruct (Z.leb_spec need (row_cap tab)).
  { exists (row_cap tab), (row_alloc tab). split_and!; (done || lia). }
  destruct (grow_cap_spec 32 (if 0 <? row_cap tab then row_cap tab else 16) need) as (cap & E & H').
  - destruct (Z.ltb_spec 0 (row_cap tab)); lia.
  - change (Z.of_nat 32) with 32. unfold MAX_RECORDS in Hn.
    assert (1 ≤ if 0 <? row_cap tab then row_cap tab else 16) by (destruct (Z.ltb_spec 0 (row_cap tab)); lia).
    nia.
  - unfold MAX_RECORDS, INT_MAX in *. assert ((2 ^ 31 - 1) / 2 = 1073741823) as -> by done. lia.
  - rewrite E. exists cap, cap. split_and!; (done || lia).
Qed.

(** The same schema and name. *)
Record same_schema (tab tab' : TabVer) : Prop := {
  ss_name : name tab' = name tab;
  ss_cols : cols tab' = cols tab;
  ss_pk : pk_idx tab' = pk_idx tab;
  ss_uk : uk_idx tab' = uk_idx tab;
}.

#[global] Instance same_schema_refl : Reflexive same_schema.
Proof. by split. Qed.

(** Changing only capacities and [next_id] keeps a table well formed. *)
Lemma tab_ok_caps tab cap alloc nid :
  tab_ok tab → row_cnt tab ≤ alloc →
  tab_ok (set_next_id (set_rows tab (rows tab) cap alloc) nid).
Proof. intros [H1 H2 H3 (pk & Hpk & Ht)] Ha. split; [by destruct H1|done|done|by exists pk]. Qed.

(** The new row enters the trees. *)
Lemma ins_trees tab row id pk :
  trees_for tab (rows tab) pk (uk_tree tab) →
  pk_idx tab ≠ None → match pk_idx tab with Some p => pk_key p row = Some id | None => id = 0 end →
  pk_fresh tab (rows tab) row → Forall (uk_fresh (rows tab) row) (uk_idx tab) →
  ∃ pk' uks', ix_insert pk id (row_cnt tab) = Some (1, pk') ∧
    index_uks row (row_cnt tab) (uk_idx tab) (uk_tree tab) = Some (true, uks') ∧
    trees_for tab (rows tab ++ [row]) pk' uks'.
Proof.
  intros [Hpk Huk] Hnone Hid Hfp Hfu. destruct (pk_idx tab) as [p|] eqn:Ep; [|done].
  destruct (pk_step_spec tab (rows tab) row p pk id Ep Hpk Hid) as (rc & pk' & E & Hrc & Hpk').
  apply Hrc in Hfp as ->.
  destruct (index_uks_spec row (rows tab) (uk_idx tab) (uk_tree tab) Huk) as (ok & uks' & E' & Hok & Huk').
  apply Hok in Hfu as ->. exists pk', uks'. split; [done|]. split; [done|]. split; auto.
Qed.

Definition ins_vals (stmt : Statement) : list cstr := split_csv (row_data stmt) MAX_COLS RECORD_SIZE.

Lemma ins_do_spec tab stmt res :
  tab_ok tab → cap_ok tab → next_ok tab → pk_idx tab ≠ None →
  Forall (fun v => (length v < 256)%nat) (ins_vals stmt) →
  ∃ rc tab' res', ins_do tab stmt res = Some (rc, tab', res') ∧
    tab_ok tab' ∧ cap_ok tab' ∧ next_ok tab' ∧ same_schema tab tab' ∧
    ((rc = 0 ∧ row_cnt tab < MAX_RECORDS ∧ ∃ row id, snd (row_new tab (ins_vals stmt)) = Some (row, id) ∧
        new_row_ok tab (ins_vals stmt) row id ∧ unique tab (rows tab ++ [row]) ∧
        rows tab' = rows tab ++ [row] ∧ res' = set_last_id (set_count res 1) id) ∨
     (rc = -1 ∧ rows tab' = rows tab ∧ err_code res' ≠ [] ∧
        (MAX_RECORDS ≤ row_cnt tab ∨ ∀ row id, snd (row_new tab (ins_vals stmt)) = Some (row, id) →
           ¬ unique tab (rows tab ++ [row])))).
Proof.
  intros Hok Hcap Hnext Hpknone Hshort. unfold ins_do. fold (ins_vals stmt).
  destruct (Z.leb_spec MAX_RECORDS (row_cnt tab)) as [Hmax|Hmax].
  { eexists _, _, _. split; [reflexivity|]. split_and!; try done. right. split_and!; try done. by left. }
  destruct (ensure_row_cap_spec tab (row_cnt tab + 1)) as (cap & alloc & -> & Hc1 & Hc2);
    [done|unfold row_cnt in *; lia|].
  destruct (row_new tab (ins_vals stmt)) as [nid made] eqn:Ern. cbv beta iota zeta. simpl in Hpknone.
  rewrite (proj2 (Z.leb_gt alloc (row_cnt tab))) by lia.
  set (tab1 := set_next_id (set_rows tab (rows tab) cap alloc) nid).
  assert (tab_ok tab1) as Hok1 by (apply tab_ok_caps; [done|lia]).
  assert (same_schema tab tab1) as Hss by by split.
  destruct made as [[row id]|]; cycle 1.
  { assert (LONG_MIN ≤ nid ≤ LONG_MAX) as Hnid.
    { revert Ern. unfold row_new. destruct (_ && _); [by intros [= <-]|].
      destruct (pk_idx tab); [|done]. destruct (match _ with [] => true | _ => _ end).
      - intros [= <- _]. by apply long_succ_range.
      - destruct (parse_l _) as [k|] eqn:Ek; [|by intros [= <-]]. apply parse_l_range in Ek.
        intros [= <- _]. destruct (_ <=? _); [by apply long_succ_range|done]. }
    eexists _, _, _. split; [reflexivity|]. split_and!; try done. right. split_and!; try done. by right. }
  destruct (row_new_ok tab _ _ _ _ (to_schema _ Hok) Hnext Hshort Ern) as [Hnew Hnid].
  pose proof (to_trees _ Hok) as (pk & Epk & Htr). pose proof Htr as [Hpkf Hukf].
  assert (chk_dup_pk tab1 id = chk_dup_pk tab id) as -> by done.
  assert (dup_uk_row tab1 row = dup_uk_row tab row) as -> by done.
  pose proof (chk_dup_pk_spec tab pk row id Epk Hpkf) as Hdp.
  pose proof (dup_uk_row_spec tab (rows tab) row Hukf) as Hdu.
  pose proof (nr_key _ _ _ _ Hnew) as Hkey.
  assert (match pk_idx tab with Some p => pk_key p row = Some id | None => True end) as Hkey'
    by (by destruct (pk_idx tab)).
  specialize (Hdp Hkey').
  pose proof (unique_snoc tab (rows tab) row) as Huniq.
  destruct (chk_dup_pk tab id) eqn:E1.
  { eexists _, _, _. split; [reflexivity|]. split_and!; try done. right. split_and!; try done. right.
    intros ? ? [= <- <-] Hu. apply Huniq in Hu as (_ & H & _). by apply Hdp in H. }
  destruct (dup_uk_row tab row) eqn:E2.
  { eexists _, _, _. split; [reflexivity|]. split_and!; try done. right. split_and!; try done. right.
    intros ? ? [= <- <-] Hu. apply Huniq in Hu as (_ & _ & H). by apply Hdu in H. }
  destruct (ins_trees tab row id pk Htr Hpknone Hkey) as (pk' & uks' & Ei & Eu & Htr');
    [by apply Hdp|by apply Hdu|].
  simpl. rewrite Epk, Ei. simpl. rewrite Eu. simpl. eexists _, _, _. split; [reflexivity|]. split_and!.
  - destruct Hok as [H1 H2 H3 _]. split; [by destruct H1| | |].
    + apply Forall_app. split; [done|]. apply Forall_singleton. apply Hnew.
    + unfold row_cnt in *. simpl. rewrite length_app. simpl. lia.
    + exists pk'. split; [done|]. exact Htr'.
  - unfold cap_ok. simpl. lia.
  - done.
  - by split.
  - left. split; [done|]. split; [done|]. exists row, id. split_and!; try done.
    apply Huniq. split_and!; [by eapply trees_unique|by apply Hdp|by apply Hdu].
Qed.
