(* ===== verification/WriteProofs.v ===== *)
(** UPDATE and DELETE on a well-formed table, and the claims about writes. *)

From Stdlib Require Import String.
From S2P Require Import Prelude CString BPTree BPTreeProofs BPTreeSpec BPTreeIndex Parser Values Table TableProofs InsertProofs.
From stdpp Require Import base numbers list option sorting.
Local Open Scope Z_scope.

#[local] Arguments ix_insert : simpl never.
#[local] Arguments ix_search : simpl never.
#[local] Arguments ix_create : simpl never.

(** ** What the row passes compute *)

Definition matching (tab : TabVer) (stmt : Statement) (rs : list Row) : list Row :=
  List.filter (row_match tab stmt) rs.

Definition n_matching (tab : TabVer) (stmt : Statement) : Z :=
  Z.of_nat (length (matching tab stmt (rows tab))).

(** The rows after an UPDATE. *)
Definition updated (tab : TabVer) (stmt : Statement) (idx : nat) (v : cstr) (rs : list Row) : list Row :=
  map (fun r => if row_match tab stmt r then upd_val r idx v else r) rs.

(** The rows a DELETE keeps. *)
Definition kept (tab : TabVer) (stmt : Statement) (rs : list Row) : list Row :=
  List.filter (fun r => negb (row_match tab stmt r)) rs.

Lemma upd_rows_spec tab stmt idx v rs :
  upd_rows tab stmt idx v rs = (updated tab stmt idx v rs, Z.of_nat (length (matching tab stmt rs))).
Proof.
  induction rs as [|r rs IH]; simpl; [done|]. rewrite IH. destruct (row_match tab stmt r); simpl; [|done].
  f_equal. lia.
Qed.

Lemma del_rows_spec tab stmt rs :
  del_rows tab stmt rs = (kept tab stmt rs, Z.of_nat (length (matching tab stmt rs))).
Proof.
  induction rs as [|r rs IH]; simpl; [done|]. rewrite IH. destruct (row_match tab stmt r); simpl; [|done].
  f_equal. lia.
Qed.

Lemma updated_none tab stmt idx v rs : matching tab stmt rs = [] → updated tab stmt idx v rs = rs.
Proof.
  induction rs as [|r rs IH]; simpl; [done|]. destruct (row_match tab stmt r); [done|].
  intros. f_equal. auto.
Qed.

Lemma updated_lookup tab stmt idx v rs n r :
  rs !! n = Some r →
  updated tab stmt idx v rs !! n = Some (if row_match tab stmt r then upd_val r idx v else r).
Proof.
  intros H. unfold updated. change (map ?f rs) with (f <$> rs). by rewrite list_lookup_fmap, H.
Qed.

Lemma kept_length tab stmt rs : (length (kept tab stmt rs) ≤ length rs)%nat.
Proof. induction rs as [|r rs IH]; simpl; [lia|]. case_if; simpl; lia. Qed.

Lemma Forall_filter {A} (P : A → Prop) (p : A → bool) l : Forall P l → Forall P (List.filter p l).
Proof. induction 1; simpl; [constructor|]. case_if; [by constructor|done]. Qed.

(** ** Uniqueness after the passes *)

Lemma omap_two {K} (f : Row → option K) rs n m r1 r2 k :
  rs !! n = Some r1 → rs !! m = Some r2 → n ≠ m → f r1 = Some k → f r2 = Some k → ¬ NoDup (omap f rs).
Proof.
  assert (∀ rs n m r1 r2, rs !! n = Some r1 → rs !! m = Some r2 → (n < m)%nat →
    f r1 = Some k → f r2 = Some k → ¬ NoDup (omap f rs)) as H.
  { clear. intros rs n m r1 r2 Hn Hm Hlt H1 H2. rewrite <- (take_drop (S n) rs), omap_app, NoDup_app.
    intros (_ & Hd & _). apply (Hd k).
    - apply list_elem_of_omap. exists r1. split; [|done]. apply list_elem_of_lookup. exists n.
      by rewrite lookup_take_lt by lia.
    - apply list_elem_of_omap. exists r2. split; [|done]. apply list_elem_of_lookup. exists (m - S n)%nat.
      rewrite lookup_drop. by replace (S n + (m - S n))%nat with m by lia. }
  intros Hn Hm Hne H1 H2. destruct (decide (n < m)%nat).
  - by apply (H rs n m r1 r2).
  - apply (H rs m n r2 r1); (done || lia).
Qed.

Lemma omap_filter_elem {K} (f : Row → option K) p rs k : k ∈ omap f (List.filter p rs) → k ∈ omap f rs.
Proof.
  rewrite !list_elem_of_omap. intros (r & H & E). exists r. split; [|done].
  apply list_elem_of_In, filter_In in H as [H _]. by apply list_elem_of_In.
Qed.

Lemma NoDup_omap_filter {K} (f : Row → option K) p rs :
  NoDup (omap f rs) → NoDup (omap f (List.filter p rs)).
Proof.
  induction rs as [|r rs IH]; simpl; [done|]. intros H.
  assert (NoDup (omap f rs)) as H' by (destruct (f r); [by apply NoDup_cons in H as [_ ?]|done]).
  specialize (IH H'). destruct (p r); [|done]. simpl. destruct (f r) as [k|]; [|done].
  apply NoDup_cons in H as [Hk _]. constructor; [|done]. by intros ?%omap_filter_elem.
Qed.

Lemma unique_filter tab p rs : unique tab rs → unique tab (List.filter p rs).
Proof.
  intros [Hpk Huk]. split.
  - destruct (pk_idx tab); [|done]. destruct Hpk. split; [by apply Forall_filter|by apply NoDup_omap_filter].
  - eapply Forall_impl; [exact Huk|]. intros c. apply NoDup_omap_filter.
Qed.

(** ** UPDATE *)

Lemma col_idx_lt tab nm idx : col_idx tab nm = Some idx → (idx < col_cnt tab)%nat.
Proof.
  intros (x & _ & H & _)%find_index_Some. rewrite Nat.sub_0_r in H. by apply lookup_lt_Some in H.
Qed.

Lemma val_at_upd r idx v : (idx < length r)%nat → val_at (upd_val r idx v) idx = v.
Proof. intros. unfold val_at, upd_val. by rewrite list_lookup_insert_eq. Qed.

Lemma upd_clash_true tab stmt idx v i rs :
  upd_clash tab stmt idx v i rs = true →
  ∃ n r, rs !! n = Some r ∧ row_match tab stmt r = true ∧ type_at tab idx = COL_UK ∧
         chk_dup_uk tab idx v (i + Z.of_nat n) = true.
Proof.
  revert i; induction rs as [|r rs IH]; intros i; simpl; [done|].
  intros [H|H]%orb_true_iff.
  - bool_to_prop. exists 0%nat, r. rewrite Z.add_0_r. split_and!; try done. by eapply bool_decide_eq_true.
  - apply IH in H as (n & r' & H1 & H2 & H3 & H4). exists (S n), r'. split_and!; try done.
    by replace (i + Z.of_nat (S n)) with (i + 1 + Z.of_nat n) by lia.
Qed.

(** A clash found by the first pass is a duplicate in the updated rows. *)
Lemma upd_clash_unique tab stmt idx v :
  tab_ok tab → (idx < col_cnt tab)%nat →
  unique tab (updated tab stmt idx v (rows tab)) → upd_clash tab stmt idx v 0 (rows tab) = false.
Proof.
  intros Hok Hidx [_ Hu]. destruct (upd_clash tab stmt idx v 0 (rows tab)) eqn:E; [|done]. exfalso.
  apply upd_clash_true in E as (n & r & Hn & Hm & Ht & Hd). rewrite Z.add_0_l in Hd.
  destruct Hok as [Hs Hr _ (pk & _ & _ & Huk)].
  assert (idx ∈ uk_idx tab) as Hin by by apply (so_uk_type _ Hs).
  apply (chk_dup_uk_spec tab (rows tab) idx v _ Huk Hin) in Hd as (Hv & m & r' & Hm' & Hk & Hne).
  assert (∀ r, r ∈ rows tab → uk_key idx (upd_val r idx v) = Some (norm_v v RECORD_SIZE)) as Hkey.
  { intros r0 Hr0. rewrite Forall_forall in Hr. unfold uk_key.
    rewrite val_at_upd by (rewrite (Hr r0 Hr0); done). by destruct (norm_v v RECORD_SIZE). }
  rewrite Forall_forall in Hu. specialize (Hu idx Hin). revert Hu.
  eapply (omap_two _ _ n m); [by apply updated_lookup|by apply updated_lookup|lia| |].
  - rewrite Hm. apply Hkey. by eapply list_elem_of_lookup_2.
  - destruct (row_match tab stmt r'); [|done]. apply Hkey. by eapply list_elem_of_lookup_2.
Qed.

Lemma updated_lengths tab stmt idx v n rs :
  Forall (fun r => length r = n) rs → Forall (fun r => length r = n) (updated tab stmt idx v rs).
Proof.
  induction 1 as [|r rs Hr _ IH]; simpl; constructor; [|done].
  case_if; [|done]. unfold upd_val. by rewrite length_insert.
Qed.

(** The guards of UPDATE: the column it sets and the value. *)
Definition upd_target (tab : TabVer) (stmt : Statement) : option (nat * cstr) :=
  match where_conditions stmt, col_idx tab (set_col stmt) with
  | _ :: _, Some idx =>
      let v := norm_v (set_val stmt) 256 in
      if is_pk tab idx || (bool_decide (type_at tab idx = COL_NN) && bool_decide (v = [])) then None
      else Some (idx, v)
  | _, _ => None
  end.

Lemma upd_do_spec tab stmt res :
  tab_ok tab → count res = 0 →
  ∃ rc tab' res', upd_do tab stmt res = Some (rc, tab', res') ∧ same_schema tab tab' ∧
    match upd_target tab stmt with
    | None => rc = -1 ∧ tab' = tab ∧ err_code res' ≠ []
    | Some (idx, v) =>
        (rc = 0 ↔ unique tab (updated tab stmt idx v (rows tab))) ∧
        (rc = 0 → tab_ok tab' ∧ row_cap tab' = row_cap tab ∧ row_alloc tab' = row_alloc tab ∧
          next_id tab' = next_id tab ∧
          rows tab' = updated tab stmt idx v (rows tab) ∧ res' = set_count res (n_matching tab stmt)) ∧
        (rc ≠ 0 → rc = -1 ∧ err_code res' ≠ [])
    end.
Proof.
  intros Hok Hc. unfold upd_do, upd_target.
  destruct (where_conditions stmt) as [|c0 cs] eqn:Ew.
  { eexists _, _, _. split; [reflexivity|]. by split_and!. }
  destruct (col_idx tab (set_col stmt)) as [idx|] eqn:Ei.
  2:{ eexists _, _, _. split; [reflexivity|]. by split_and!. }
  set (v := norm_v (set_val stmt) 256). apply col_idx_lt in Ei.
  destruct (is_pk tab idx) eqn:Epk; simpl.
  { eexists _, _, _. split; [reflexivity|]. by split_and!. }
  destruct (bool_decide (type_at tab idx = COL_NN) && bool_decide (v = [])) eqn:Enn.
  { eexists _, _, _. split; [reflexivity|]. by split_and!. }
  pose proof (upd_clash_unique tab stmt idx v Hok Ei) as Hclash.
  destruct (upd_clash tab stmt idx v 0 (rows tab)) eqn:Ecl.
  { eexists _, _, _. split; [reflexivity|]. split; [done|]. split_and!; try done.
    split; [done|]. intros Hu. by apply Hclash in Hu. }
  rewrite upd_rows_spec. fold (n_matching tab stmt). rewrite Hc, Z.add_0_l. simpl.
  destruct (Z.eqb_spec (n_matching tab stmt) 0) as [Hz|Hz].
  - assert (updated tab stmt idx v (rows tab) = rows tab) as ->.
    { apply updated_none. unfold n_matching in Hz. by destruct (matching _ _ _). }
    eexists _, _, _. split; [reflexivity|]. split; [done|]. split_and!; [|done|done].
    split; [|done]. intros _. destruct Hok as [_ _ _ (pk & _ & Ht)]. by eapply trees_unique.
  - match goal with |- context [idx_build ?t] => set (t0 := t) end.
    destruct (idx_build_ok t0) as (ok & tab' & E & Hiff & (pk' & uks' & ->) & Hok').
    + eapply schema_ok_ext; [..|exact (to_schema _ Hok)]; done.
    + simpl. apply updated_lengths. apply Hok.
    + pose proof (to_alloc _ Hok). unfold row_cnt in *. simpl. unfold updated. rewrite length_map. done.
    + rewrite E. rewrite <- (unique_ext tab t0) in Hiff by done. destruct ok.
      * eexists _, _, _. split; [reflexivity|]. split; [by split|]. split_and!; [split; [intros _; by apply Hiff|done]| |done].
        intros _. split; [by apply Hok'|done].
      * eexists _, _, _. split; [reflexivity|]. split; [by split|]. split_and!; [|done|done].
        split; [done|]. intros Hu. by apply Hiff in Hu.
Qed.

(** ** DELETE *)

Lemma del_do_spec tab stmt res :
  tab_ok tab → where_conditions stmt ≠ [] → count res = 0 →
  ∃ tab', del_do tab stmt res = Some (0, tab', set_count res (n_matching tab stmt)) ∧
    same_schema tab tab' ∧ tab_ok tab' ∧ next_id tab' = next_id tab ∧
    rows tab' = kept tab stmt (rows tab) ∧ row_cap tab' = row_cap tab ∧ row_alloc tab' = row_cnt tab.
Proof.
  intros Hok Hw Hc. unfold del_do. destruct (where_conditions stmt) as [|c0 cs] eqn:Ew; [done|].
  rewrite del_rows_spec. fold (n_matching tab stmt). rewrite Hc, Z.add_0_l.
  match goal with |- context [idx_build ?t] => set (t0 := t) end.
  destruct (idx_build_ok t0) as (ok & tab' & E & Hiff & (pk' & uks' & ->) & Hok').
  - eapply schema_ok_ext; [..|exact (to_schema _ Hok)]; done.
  - simpl. apply Forall_filter. apply Hok.
  - unfold row_cnt. simpl. pose proof (kept_length tab stmt (rows tab)). unfold row_cnt. lia.
  - rewrite E. rewrite <- (unique_ext tab t0) in Hiff by done.
    assert (ok = true) as ->.
    { apply Hiff. destruct Hok as [_ _ _ (pk & _ & Ht)]. simpl. apply unique_filter. by eapply trees_unique. }
    exists (set_trees t0 pk' uks'). split; [done|]. split; [by split|]. split; [by apply Hok'|done].
Qed.
