(* ===== verification/SelectProofs.v ===== *)
(** SELECT through an index returns the rows that a scan of the table returns. *)

From Stdlib Require Import String.
From S2P Require Import Prelude CString BPTree BPTreeProofs BPTreeSpec BPTreeIndex Parser Values Table TableProofs InsertProofs WriteProofs.
From stdpp Require Import base numbers list option sorting.
Local Open Scope Z_scope.

#[local] Arguments ix_search : simpl never.
#[local] Arguments ix_range : simpl never.

(** ** Results *)

(** The result after adding the objects [objs] one by one with [res_add]. *)
Definition add_objs (res : DbRes) (objs : list DbObj) : DbRes :=
  mkRes (res_rows res ++ objs) (Z.of_nat (length (res_rows res ++ objs))) (last_id res) (snap_id res)
    (err_code res) (err_msg res).

(** [count] is the number of rows. *)
Definition res_wf (res : DbRes) : Prop := count res = Z.of_nat (length (res_rows res)).

Lemma add_objs_nil res : res_wf res → add_objs res [] = res.
Proof. unfold res_wf, add_objs. rewrite app_nil_r. intros <-. by destruct res. Qed.

Lemma add_objs_app res o1 o2 : add_objs (add_objs res o1) o2 = add_objs res (o1 ++ o2).
Proof. unfold add_objs. simpl. by rewrite <- app_assoc. Qed.

Lemma add_objs_wf res objs : res_wf (add_objs res objs).
Proof. done. Qed.

Lemma res_add_objs res tab row sel : res_add res tab row sel = add_objs res [project tab sel row].
Proof. done. Qed.

(** ** The visitor *)

Section visit.
Context {K : Type} (tab : TabVer) (stmt : Statement) (sel : list nat).

(** What visiting an entry of an index adds. *)
Definition emit (e : K * Z) : list DbObj :=
  if (snd e <? 0) || (row_cnt tab <=? snd e) then []
  else
    let row := default [] (rows tab !! Z.to_nat (snd e)) in
    if row_match tab stmt row then [project tab sel row] else [].

Lemma sel_vis_emit (k : K) i res :
  res_wf res → sel_vis tab stmt sel k i res = (true, add_objs res (emit (k, i))).
Proof.
  intros Hw. unfold sel_vis, emit. simpl. destruct (_ || _); [by rewrite add_objs_nil|].
  destruct (row_match _ _ _); [done|by rewrite add_objs_nil].
Qed.

Lemma visit_leaf_emit (es : list (K * Z)) res :
  res_wf res → visit_leaf (sel_vis tab stmt sel) es res = (true, add_objs res (flat_map emit es)).
Proof.
  revert res; induction es as [|[k i] es IH]; intros res Hw; simpl; [by rewrite add_objs_nil|].
  rewrite sel_vis_emit by done. rewrite IH by apply add_objs_wf. by rewrite add_objs_app.
Qed.

Lemma emit_lookup (k : K) n r :
  rows tab !! n = Some r →
  emit (k, Z.of_nat n) = if row_match tab stmt r then [project tab sel r] else [].
Proof.
  intros H. unfold emit, row_cnt. cbn [snd]. pose proof (lookup_lt_Some _ _ _ H).
  rewrite (proj2 (Z.ltb_ge _ _)), (proj2 (Z.leb_gt _ _)) by lia. simpl. by rewrite Nat2Z.id, H.
Qed.

(** Visiting the entries of the rows [suf] whose key is in range finds the
    matching rows, in order, when every matching row has its key in range. *)
Lemma emit_keyed (f : Row → option K) (p : K → bool) pre suf :
  rows tab = pre ++ suf →
  (∀ r, row_match tab stmt r = true → r ∈ suf → ∃ k, f r = Some k ∧ p k = true) →
  flat_map (fun e => if p (fst e) then emit e else []) (keyed f (Z.of_nat (length pre)) suf) =
    map (project tab sel) (matching tab stmt suf).
Proof.
  revert pre; induction suf as [|r suf IH]; intros pre Hrows Hm; simpl; [done|].
  assert (rows tab !! length pre = Some r) as Hl
    by (rewrite Hrows, lookup_app_r, Nat.sub_diag by lia; done).
  assert (flat_map (fun e => if p (fst e) then emit e else []) (keyed f (Z.of_nat (length pre) + 1) suf) =
    map (project tab sel) (matching tab stmt suf)) as E.
  { rewrite <- (IH (pre ++ [r])).
    - rewrite length_app. simpl. by replace (Z.of_nat (length pre + 1)) with (Z.of_nat (length pre) + 1) by lia.
    - by rewrite <- app_assoc.
    - intros r' Hr' Hin. apply Hm; [done|by right]. }
  destruct (f r) as [k|] eqn:Ef; simpl.
  - rewrite E, (emit_lookup k _ r Hl). destruct (row_match tab stmt r) eqn:Er; [|by destruct (p k)].
    destruct (Hm r Er) as (k' & Ek & Hp'); [by left|]. rewrite Ef in Ek. injection Ek as <-. by rewrite Hp'.
  - rewrite E. destruct (row_match tab stmt r) eqn:Er; [|done].
    destruct (Hm r Er) as (k' & Ek & _); [by left|]. congruence.
Qed.
End visit.

Lemma flat_map_filter {A B} (p : A → bool) (f : A → list B) l :
  flat_map f (List.filter p l) = flat_map (fun x => if p x then f x else []) l.
Proof. induction l as [|x l IH]; simpl; [done|]. destruct (p x); simpl; by rewrite IH. Qed.

Section lookup.
Context {K T : Type} `{!KeyOrder K, !KeyOrderLaws K, !OrderedIndex K T, !OrderedIndexLaws K T}.

(** Entries in a range of keys yield the matching rows. *)
Lemma emit_range tab stmt sel (t : T) (f : Row → option K) (p : K → bool) :
  indexes t f (rows tab) →
  (∀ r, row_match tab stmt r = true → r ∈ rows tab → ∃ k, f r = Some k ∧ p k = true) →
  flat_map (emit tab stmt sel) (List.filter (fun e => p (fst e)) (ix_elems t)) ≡ₚ
    map (project tab sel) (matching tab stmt (rows tab)).
Proof using All.
  intros [_ Hp] Hm. rewrite flat_map_filter. rewrite (Permutation_flat_map _ Hp).
  by rewrite <- (emit_keyed tab stmt sel f p [] (rows tab)).
Qed.

Lemma filter_key (k : K) (es : list (K * Z)) :
  StronglySorted klt es.*1 →
  List.filter (fun e => keqb (fst e) k) es = match assoc_get k es with Some i => [(k, i)] | None => [] end.
Proof using All.
  induction es as [|[k' i] es IH]; simpl; [done|]. rewrite StronglySorted_cons_iff. intros [Hk Hs].
  destruct (keqb k' k) eqn:E; [|by apply IH]. apply keqb_true in E as ->.
  f_equal. rewrite IH by done.
  destruct (assoc_get k es) as [j|] eqn:Eg; [|done]. apply assoc_get_Some in Eg; [|done].
  rewrite Forall_forall in Hk. exfalso. apply (klt_irrefl k), Hk. apply list_elem_of_fmap. by exists (k, j).
Qed.

(** A point lookup yields the matching rows when they all have the key. *)
Lemma sel_point_spec tab stmt sel (t : T) (f : Row → option K) (k : K) res :
  res_wf res → indexes t f (rows tab) →
  (∀ r, row_match tab stmt r = true → r ∈ rows tab → f r = Some k) →
  ∃ objs, sel_point tab stmt sel k (ix_search t k) res = (0, add_objs res objs) ∧
          objs ≡ₚ map (project tab sel) (matching tab stmt (rows tab)).
Proof using All.
  intros Hw Hi Hm. pose proof Hi as [Hok _].
  exists (match ix_search t k with Some i => emit tab stmt sel (k, i) | None => [] end). split.
  - unfold sel_point. destruct (ix_search t k); [by rewrite sel_vis_emit|by rewrite add_objs_nil].
  - rewrite <- (emit_range tab stmt sel t f (fun k' => keqb k' k) Hi).
    + rewrite filter_key by by apply ix_sorted. rewrite ix_search_get by done.
      destruct (assoc_get k (ix_elems t)); simpl; [by rewrite app_nil_r|done].
    + intros r Hr Hin. exists k. split; [auto|]. by apply keqb_true.
Qed.

Lemma sel_range_spec tab stmt sel (t : T) (f : Row → option K) (lo hi : K) res :
  res_wf res → indexes t f (rows tab) →
  (∀ r, row_match tab stmt r = true → r ∈ rows tab →
     ∃ k, f r = Some k ∧ kleb lo k && kleb k hi = true) →
  ∃ objs, ix_range _ t lo hi (sel_vis tab stmt sel) res = Some (true, add_objs res objs) ∧
          objs ≡ₚ map (project tab sel) (matching tab stmt (rows tab)).
Proof using All.
  intros Hw Hi Hm. pose proof Hi as [Hok _]. eexists. split.
  - rewrite ix_range_visit by done. by rewrite visit_leaf_emit.
  - by apply (emit_range tab stmt sel t f (fun k => kleb lo k && kleb k hi)).
Qed.
End lookup.

Lemma sel_scan_spec tab stmt sel rs res :
  res_wf res → sel_scan tab stmt sel rs res = add_objs res (map (project tab sel) (matching tab stmt rs)).
Proof.
  revert res; induction rs as [|r rs IH]; intros res Hw; simpl; [by rewrite add_objs_nil|].
  destruct (row_match tab stmt r); simpl; [|by apply IH].
  rewrite res_add_objs, IH by apply add_objs_wf. by rewrite add_objs_app.
Qed.

(** ** Index selection *)

(** The condition an index was picked for is one of the statement, on its own
    column, and the column is indexed. *)
Record picked_ok (tab : TabVer) (conds : list WhereCondition) (b : WhereCondition * nat) : Prop := {
  po_in : fst b ∈ conds;
  po_col : col_idx tab (wc_col (fst b)) = Some (snd b);
  po_score : 0 < cond_score tab (fst b) (snd b);
}.

Lemma pick_loop_spec tab all conds best_s best :
  (∀ c, c ∈ conds → c ∈ all) → 0 ≤ best_s →
  match best with Some b => picked_ok tab all b ∧ best_s = cond_score tab (fst b) (snd b) | None => best_s = 0 end →
  match pick_loop tab conds best_s best with
  | Some b => picked_ok tab all b
  | None => best = None
  end.
Proof.
  revert best_s best; induction conds as [|c cs IH]; intros best_s best Hin Hs Hb; simpl.
  - destruct best; [by destruct Hb|done].
  - assert (∀ c', c' ∈ cs → c' ∈ all) as Hin' by (intros; apply Hin; by right).
    destruct (col_idx tab (wc_col c)) as [idx|] eqn:Ec; [|by apply IH].
    destruct (Z.ltb_spec best_s (cond_score tab c idx)) as [Hlt|Hge]; [|by apply IH].
    assert (picked_ok tab all (c, idx)) as Hpo by (split; simpl; [apply Hin; by left|done|lia]).
    pose proof (IH (cond_score tab c idx) (Some (c, idx)) Hin' ltac:(lia) (conj Hpo eq_refl)) as H.
    destruct (pick_loop _ _ _ _); done.
Qed.

Lemma pick_idx_spec tab stmt b :
  pick_idx tab stmt = Some b → picked_ok tab (where_conditions stmt) b.
Proof.
  intros E. pose proof (pick_loop_spec tab (where_conditions stmt) (where_conditions stmt) 0 None) as H.
  unfold pick_idx in E. rewrite E in H. apply H; done.
Qed.

Lemma row_match_cond tab stmt r c :
  row_match tab stmt r = true → c ∈ where_conditions stmt → cond_match tab r c = true.
Proof.
  unfold row_match. intros H Hin. rewrite forallb_forall in H. apply H. by apply list_elem_of_In.
Qed.

(** ** SELECT *)

(** The index chosen for the statement can answer the condition: the bounds of
    a PK filter are integers and those of a UK filter are not empty (empty
    values are not in the index). *)
Definition filter_ok (tab : TabVer) (stmt : Statement) : bool :=
  match pick_idx tab stmt with
  | None => true
  | Some (cond, col) =>
      match wc_type cond with
      | WHERE_EQ =>
          if is_pk tab col then bool_decide (parse_l (wc_val cond) ≠ None)
          else bool_decide (norm_v (wc_val cond) RECORD_SIZE ≠ [])
      | WHERE_BETWEEN =>
          if is_pk tab col then
            bool_decide (parse_l (wc_val cond) ≠ None) && bool_decide (parse_l (wc_end_val cond) ≠ None)
          else bool_decide (norm_v (wc_val cond) RECORD_SIZE ≠ [])
      | WHERE_NONE => true
      end
  end.

(** The values of conditions and the PK texts fit the 256 bytes of [parse_l]. *)
Definition short_conds (stmt : Statement) : Prop :=
  Forall (fun c => (length (wc_val c) < 256)%nat) (where_conditions stmt).

Definition short_pks (tab : TabVer) : Prop :=
  match pk_idx tab with
  | Some p => Forall (fun r => (length (val_at r p) < 256)%nat) (rows tab)
  | None => True
  end.

Definition sel_columns (tab : TabVer) (stmt : Statement) : option (list nat) :=
  if select_all stmt then Some (seq 0 (col_cnt tab)) else sel_cols tab (select_cols stmt).

Lemma is_pk_true tab idx : is_pk tab idx = true → pk_idx tab = Some idx.
Proof. unfold is_pk. destruct (pk_idx tab); [|done]. by intros ->%Nat.eqb_eq. Qed.

Lemma cond_match_pk_eq tab stmt r cond col key :
  short_conds stmt → short_pks tab → r ∈ rows tab → cond ∈ where_conditions stmt →
  cond_match tab r cond = true → col_idx tab (wc_col cond) = Some col → wc_type cond = WHERE_EQ →
  is_pk tab col = true → parse_l (wc_val cond) = Some key → pk_key col r = Some key.
Proof.
  unfold short_conds, short_pks, cond_match, pk_key. intros Hc Hp Hr Hin Hm Ecol Ety Epk Ek.
  rewrite Ecol, Ety in Hm. apply is_pk_true in Epk. rewrite Epk in Hp.
  rewrite Forall_forall in Hc. rewrite Forall_forall in Hp. apply cmp_v_true in Hm. rewrite <- Ek.
  apply parse_l_norm; auto.
Qed.

Lemma cond_match_uk_eq tab r cond col :
  cond_match tab r cond = true → col_idx tab (wc_col cond) = Some col → wc_type cond = WHERE_EQ →
  norm_v (wc_val cond) RECORD_SIZE ≠ [] → uk_key col r = Some (norm_v (wc_val cond) RECORD_SIZE).
Proof.
  unfold cond_match, uk_key. intros Hm Ecol Ety Hne. rewrite Ecol, Ety in Hm.
  apply cmp_v_true in Hm. rewrite Hm. by destruct (norm_v (wc_val cond) RECORD_SIZE).
Qed.

Lemma cond_match_pk_range tab r cond col a0 a1 :
  cond_match tab r cond = true → col_idx tab (wc_col cond) = Some col → wc_type cond = WHERE_BETWEEN →
  is_pk tab col = true → parse_l (wc_val cond) = Some a0 → parse_l (wc_end_val cond) = Some a1 →
  ∃ k, pk_key col r = Some k ∧ kleb a0 k && kleb k a1 = true.
Proof.
  unfold cond_match, pk_key, kleb, kcmp, long_order. intros Hm Ecol Ety Epk E0 E1.
  rewrite Ecol, Ety, Epk, E0, E1 in Hm. destruct (parse_l (val_at r col)) as [k|]; [|done].
  exists k. split; [done|]. bool_to_prop.
  destruct (Z.compare_spec a0 k), (Z.compare_spec k a1); (done || lia).
Qed.

Lemma cond_match_uk_range tab r cond col :
  cond_match tab r cond = true → col_idx tab (wc_col cond) = Some col → wc_type cond = WHERE_BETWEEN →
  is_pk tab col = false → norm_v (wc_val cond) RECORD_SIZE ≠ [] →
  ∃ k, uk_key col r = Some k ∧
    kleb (norm_v (wc_val cond) RECORD_SIZE) k && kleb k (norm_v (wc_end_val cond) RECORD_SIZE) = true.
Proof.
  unfold cond_match, uk_key. intros Hm Ecol Ety Epk Hne. rewrite Ecol, Ety, Epk in Hm.
  unfold cmp_rng in Hm. change str_le with (@kleb cstr cstr_order) in Hm.
  destruct (norm_v (val_at r col) RECORD_SIZE) as [|b k] eqn:Ev; [|by exists (b :: k)].
  exfalso. by destruct (norm_v (wc_val cond) RECORD_SIZE).
Qed.

(** SELECT finds the matching rows whichever index it takes. *)
Lemma sel_do_spec tab stmt sel res :
  tab_ok tab → short_pks tab → short_conds stmt → filter_ok tab stmt = true →
  sel_columns tab stmt = Some sel → res_wf res →
  ∃ objs, sel_do tab stmt res = Some (0, add_objs res objs) ∧
          objs ≡ₚ map (project tab sel) (matching tab stmt (rows tab)).
Proof.
  intros Hok Hsp Hsc Hf Hsel Hw. unfold sel_do, filter_ok in *. fold (sel_columns tab stmt). rewrite Hsel.
  assert (∃ objs, Some (0, sel_scan tab stmt sel (rows tab) res) = Some (0, add_objs res objs) ∧
    objs ≡ₚ map (project tab sel) (matching tab stmt (rows tab))) as Hscan
    by (eexists; split; [by rewrite sel_scan_spec|done]).
  destruct (pick_idx tab stmt) as [[cond col]|] eqn:Epick; [|exact Hscan].
  apply pick_idx_spec in Epick as [Hin Hcol Hsc']. simpl in *.
  assert (∀ r, row_match tab stmt r = true → cond_match tab r cond = true) as Hcm
    by (intros; by eapply row_match_cond).
  destruct Hok as [_ _ _ (pk & Epk & Hpkf & Huk)]. unfold cond_score in Hsc'.
  assert (is_pk tab col = true → indexes pk (pk_key col) (rows tab)) as Hpki.
  { intros E%is_pk_true. unfold pk_for in Hpkf. rewrite E in Hpkf. apply Hpkf. }
  assert (∀ s, uk_slot tab col = Some s →
    ∃ t, uk_tree tab !! s = Some t ∧ indexes t (uk_key col) (rows tab)) as Huki.
  { intros s E. apply uk_slot_Some in E. by destruct (Forall2_lookup_l _ _ _ _ _ Huk E) as (t & ? & ?); exists t. }
  destruct (wc_type cond) eqn:Ety; [exact Hscan| |].
  - destruct (is_pk tab col) eqn:Eispk.
    + apply bool_decide_eq_true in Hf. destruct (parse_l (wc_val cond)) as [key|] eqn:Ek; [|done].
      rewrite Epk. simpl. destruct (sel_point_spec tab stmt sel pk (pk_key col) key res Hw (Hpki eq_refl))
        as (objs & E & Hp); [|exists objs; by rewrite E].
      intros r Hr Hrin. by eapply cond_match_pk_eq; eauto.
    + apply bool_decide_eq_true in Hf. destruct (uk_slot tab col) as [s|]; [|exact Hscan].
      destruct (Huki s eq_refl) as (t & -> & Hi). simpl.
      destruct (sel_point_spec tab stmt sel t (uk_key col) (norm_v (wc_val cond) RECORD_SIZE) res Hw Hi)
        as (objs & E & Hp); [|exists objs; by rewrite E].
      intros r Hr Hrin. eapply cond_match_uk_eq; eauto.
  - destruct (is_pk tab col) eqn:Eispk.
    + apply andb_true_iff in Hf as [Hf0%bool_decide_eq_true Hf1%bool_decide_eq_true].
      destruct (parse_l (wc_val cond)) as [a0|] eqn:E0; [|done].
      destruct (parse_l (wc_end_val cond)) as [a1|] eqn:E1; [|done]. rewrite Epk.
      destruct (sel_range_spec tab stmt sel pk (pk_key col) a0 a1 res Hw (Hpki eq_refl))
        as (objs & E & Hp); [|exists objs; by rewrite E].
      intros r Hr Hrin. eapply cond_match_pk_range; eauto.
    + apply bool_decide_eq_true in Hf. destruct (uk_slot tab col) as [s|]; [|exact Hscan].
      destruct (Huki s eq_refl) as (t & -> & Hi). simpl.
      destruct (sel_range_spec tab stmt sel t (uk_key col) (norm_v (wc_val cond) RECORD_SIZE)
        (norm_v (wc_end_val cond) RECORD_SIZE) res Hw Hi) as (objs & E & Hp); [|exists objs; by rewrite E].
      intros r Hr Hrin. eapply cond_match_uk_range; eauto.
Qed.

(** ** No SELECT leaves the defined behaviour *)

Lemma sel_do_total tab stmt res : tab_ok tab → ∃ r, sel_do tab stmt res = Some r.
Proof.
  intros [_ _ _ (pk & Epk & Hpkf & Huk)]. unfold sel_do. fold (sel_columns tab stmt).
  destruct (sel_columns tab stmt) as [sel|]; [|by eexists].
  destruct (pick_idx tab stmt) as [[cond col]|]; [|by eexists].
  destruct (wc_type cond); [by eexists|destruct (is_pk tab col)|destruct (is_pk tab col)].
  - destruct (parse_l _); by eexists.
  - destruct (uk_slot tab col); by eexists.
  - destruct (parse_l _) as [a0|]; [|by eexists]. destruct (parse_l _) as [a1|]; [|by eexists].
    rewrite Epk. assert (ix_ok pk) as Hok
      by (unfold pk_for in Hpkf; destruct (pk_idx tab); [apply Hpkf|done]).
    rewrite ix_range_visit by done. destruct (visit_leaf _ _ _). by eexists.
  - destruct (uk_slot tab col) as [s|] eqn:Es; [|by eexists]. apply uk_slot_Some in Es.
    destruct (Forall2_lookup_l _ _ _ _ _ Huk Es) as (t & -> & [Hok _]). simpl.
    rewrite ix_range_visit by done. destruct (visit_leaf _ _ _). by eexists.
Qed.

(** The answer does not depend on the result object it is added to: it is a list
    of objects, or an error. *)
Definition sel_result (r : list DbObj + cstr * cstr) (res : DbRes) : Z * DbRes :=
  match r with
  | inl objs => (0, add_objs res objs)
  | inr (c, m) => (-1, mkRes (res_rows res) (count res) (last_id res) (snap_id res) c m)
  end.

Definition sel_answer (tab : TabVer) (stmt : Statement) (r : list DbObj + cstr * cstr) : Prop :=
  (∀ res, res_wf res → err_code res = [] → sel_do tab stmt res = Some (sel_result r res)) ∧
  match r with inl _ => True | inr (c, _) => c ≠ [] end.

Lemma sel_do_shape tab stmt : tab_ok tab → ∃ r, sel_answer tab stmt r.
Proof.
  intros [_ _ _ (pk & Epk & Hpkf & Huk)]. unfold sel_answer, sel_do. fold (sel_columns tab stmt).
  destruct (sel_columns tab stmt) as [sel|]; [|by eexists (inr (_, _))].
  assert (∃ r, (∀ res, res_wf res → err_code res = [] → Some (0, sel_scan tab stmt sel (rows tab) res) = Some (sel_result r res)) ∧
    match r with inl _ => True | inr (c, _) => c ≠ [] end) as Hscan.
  { exists (inl (map (project tab sel) (matching tab stmt (rows tab)))). split; [|done]. intros res Hw _. simpl. by rewrite sel_scan_spec. }
  assert (∀ {K} (key : K) found, ∃ r, (∀ res, res_wf res → err_code res = [] → Some (sel_point tab stmt sel key found res) = Some (sel_result r res)) ∧
    match r with inl _ => True | inr (c, _) => c ≠ [] end) as Hpoint.
  { intros K key found. exists (inl (match found with Some i => emit tab stmt sel (key, i) | None => [] end)). split; [|done].
    intros res Hw _. unfold sel_point. simpl. destruct found; [by rewrite sel_vis_emit|by rewrite add_objs_nil]. }
  destruct (pick_idx tab stmt) as [[cond col]|]; [|apply Hscan].
  destruct (wc_type cond); [apply Hscan|destruct (is_pk tab col)|destruct (is_pk tab col)].
  - destruct (parse_l _) as [key|]; [|by eexists (inr (_, _))]. apply Hpoint.
  - destruct (uk_slot tab col); [apply Hpoint|apply Hscan].
  - assert (∃ r, (∀ res, res_wf res → err_code res = [] → Some (-1, bad_pk_between res) = Some (sel_result r res)) ∧
      match r with inl _ => True | inr (c, _) => c ≠ [] end) as Hbad.
    { eexists (inr (_, _)). split; [|shelve]. intros res _ He. unfold bad_pk_between. rewrite He. reflexivity. Unshelve. done. }
    destruct (parse_l _) as [a0|]; [|apply Hbad]. destruct (parse_l _) as [a1|]; [|apply Hbad].
    rewrite Epk. assert (ix_ok pk) as Hok
      by (unfold pk_for in Hpkf; destruct (pk_idx tab); [apply Hpkf|done]).
    eexists (inl _). split; [|done]. intros res Hw _. rewrite ix_range_visit by done. by rewrite visit_leaf_emit.
  - destruct (uk_slot tab col) as [s|] eqn:Es; [|apply Hscan]. apply uk_slot_Some in Es.
    destruct (Forall2_lookup_l _ _ _ _ _ Huk Es) as (t & -> & [Hok _]). simpl.
    eexists (inl _). split; [|done]. intros res Hw _. rewrite ix_range_visit by done. by rewrite visit_leaf_emit.
Qed.
