(* ===== verification/Samples.v ===== *)
(** A sample table on which the theorems about tables are tried. *)

From Stdlib Require Import String.
From S2P Require Import Prelude CString BPTree BPTreeIndex Parser Values Table TableProofs.
From stdpp Require Import base numbers list option.
Local Open Scope Z_scope.

Definition sample_cols : list ColumnInfo :=
  [mkCol (lit "id") COL_PK; mkCol (lit "email") COL_UK; mkCol (lit "name") COL_NN;
   mkCol (lit "age") COL_NORMAL].

Definition sample_row (id email nm age : string) : Row := [lit id; lit email; lit nm; lit age].

(** The rows as a table with its indexes. *)
Definition sample_base (rs : list Row) (nid : Z) : TabVer :=
  mkTab (lit "users") sample_cols (Some 0%nat) [1%nat] rs (Z.of_nat (length rs)) (Z.of_nat (length rs))
    nid 1 None [].

Definition sample_tab (rs : list Row) (nid : Z) : TabVer :=
  match idx_build (sample_base rs nid) with Some (_, t) => t | None => sample_base rs nid end.

Definition users : TabVer :=
  sample_tab [sample_row "1" "ann@x" "Ann" "30"; sample_row "2" "" "Bob" "41";
              sample_row "7" "cy@x" "Cy, Jr" "30"] 8.

Lemma sample_schema rs nid : schema_ok (sample_base rs nid).
Proof.
  split; simpl.
  - unfold MAX_COLS, col_cnt. simpl. lia.
  - done.
  - apply NoDup_singleton.
  - intros c. rewrite list_elem_of_singleton. unfold type_at. simpl.
    destruct c as [|[|[|[|c]]]]; simpl; split; (done || congruence).
Qed.

Lemma users_ok : tab_ok users ∧ cap_ok users.
Proof.
  set (rs := [sample_row "1" "ann@x" "Ann" "30"; sample_row "2" "" "Bob" "41";
              sample_row "7" "cy@x" "Cy, Jr" "30"]).
  destruct (idx_build_ok (sample_base rs 8)) as (ok & t & E & _ & (pk & uks & Et) & Hok).
  - apply sample_schema.
  - repeat constructor.
  - done.
  - assert (ok = true) as ->.
    { assert (fst <$> idx_build (sample_base rs 8) = Some true) as H by (vm_compute; reflexivity).
      rewrite E in H. by injection H. }
    unfold users, sample_tab. fold rs. rewrite E. split; [by apply Hok|]. rewrite Et. done.
Qed.

Definition parse_or (sql : string) : Statement := default (stmt0 STMT_UNRECOGNIZED) (parse_statement (lit sql)).

