(* ===== verification/TableClaims.v ===== *)
(** The properties of table versions and of the statements on them. *)

From Stdlib Require Import String.
From S2P Require Import Prelude CString BPTree BPTreeProofs BPTreeSpec BPTreeIndex Parser Values Table.
From S2P Require Import TableProofs InsertProofs WriteProofs SelectProofs Samples.
From stdpp Require Import base numbers list option sorting.
Local Open Scope Z_scope.

#[local] Arguments ix_insert : simpl never.
#[local] Arguments ix_search : simpl never.
#[local] Arguments ix_range : simpl never.

(** ** No statement leaves the defined behaviour *)

Lemma ix_insert_total {K T} `{!KeyOrder K, !OrderedIndex K T, !OrderedIndexLaws K T} (t : T) (k : K) i :
  ix_ok t → ix_valid (K:=K) (T:=T) k → ∃ r, ix_insert t k i = Some r.
Proof.
  intros Hok Hv. destruct (assoc_get k (ix_elems t)) as [j|] eqn:E.
  - destruct (ix_insert_dup t k i Hok Hv) as (t' & ->); [by rewrite E|]. by eexists.
  - destruct (ix_insert_new t k i Hok Hv E) as (t' & -> & _). by eexists.
Qed.

Lemma ins_do_total tab stmt res : tab_ok tab → cap_ok tab → ∃ r, ins_do tab stmt res = Some r.
Proof.
  intros [_ _ _ (pk & Epk & Hpkf & Huk)] Hcap. unfold ins_do.
  destruct (Z.leb_spec MAX_RECORDS (row_cnt tab)); [by eexists|].
  destruct (ensure_row_cap_spec tab (row_cnt tab + 1)) as (cap & alloc & -> & Hc1 & Hc2);
    [done|unfold row_cnt in *; lia|].
  destruct (row_new _ _) as [nid made]. rewrite (proj2 (Z.leb_gt alloc (row_cnt tab))) by lia.
  destruct made as [[row id]|]; [|by eexists].
  destruct (chk_dup_pk _ _); [by eexists|]. destruct (dup_uk_row _ _); [by eexists|].
  simpl. rewrite Epk. assert (ix_ok pk) as Hok
    by (unfold pk_for in Hpkf; destruct (pk_idx tab); [apply Hpkf|done]).
  destruct (ix_insert_total pk id (row_cnt tab) Hok) as [[rc t] ->]; [done|].
  simpl. destruct (rc =? 1); simpl; [|by eexists].
  destruct (index_uks_spec row (rows tab) _ _ Huk) as (ok & ts & E & _). unfold row_cnt. rewrite E.
  destruct ok; by eexists.
Qed.

Lemma del_do_total tab stmt res : tab_ok tab → ∃ r, del_do tab stmt res = Some r.
Proof.
  intros Hok. unfold del_do. destruct (where_conditions stmt) eqn:Ew; [by eexists|].
  rewrite del_rows_spec.
  match goal with |- context [idx_build ?t] => destruct (idx_build_spec t) as (ok & t' & -> & _) end.
  destruct ok; by eexists.
Qed.

(** ** Properties *)

(** C5. A SELECT on a well-formed table returns exactly the rows that satisfy
    every condition (none twice, none missing), each projected to the selected
    columns, whether it goes through the PK tree, a UK tree or a scan; a scan
    and an index differ only in the order.  Required: PK texts and condition
    values shorter than 256 bytes, and bounds the chosen index can look up
    (integers for the PK, not empty for a UK). *)
Theorem sel_do_correct (tab : TabVer) (stmt : Statement) (sel : list nat) (res : DbRes) :
  tab_ok tab → short_pks tab → short_conds stmt → filter_ok tab stmt = true →
  sel_columns tab stmt = Some sel → res_wf res →
  ∃ objs, sel_do tab stmt res = Some (0, add_objs res objs) ∧
          objs ≡ₚ map (project tab sel) (matching tab stmt (rows tab)).
Proof. apply sel_do_spec. Qed.

Lemma sel_do_correct_witness :
  ∃ objs, sel_do users (parse_or "SELECT name FROM users WHERE id BETWEEN 2 AND 9 AND age = 30") res_clr =
            Some (0, add_objs res_clr objs) ∧ objs ≡ₚ [[(lit "name", lit "Cy, Jr")]].
Proof.
  destruct (sel_do_correct users (parse_or "SELECT name FROM users WHERE id BETWEEN 2 AND 9 AND age = 30")
    [2%nat] res_clr) as (objs & E & Hp).
  - apply users_ok.
  - vm_compute. repeat constructor.
  - unfold short_conds. vm_compute. repeat constructor.
  - vm_compute. reflexivity.
  - vm_compute. reflexivity.
  - reflexivity.
  - exists objs. split; [exact E|]. rewrite Hp. vm_compute. reflexivity.
Defined.

(** C6. INSERT on a well-formed table with a PK: it succeeds exactly when the
    table has room, the values make a row (an explicit or generated integer PK,
    no empty NN column) and neither the PK nor a UK value is taken by another
    row; it then appends that row, reports the id and keeps every index in
    step.  Otherwise it reports an error and leaves the rows as they were. *)
Theorem ins_do_correct (tab : TabVer) (stmt : Statement) (res : DbRes) :
  tab_ok tab → cap_ok tab → next_ok tab → pk_idx tab ≠ None →
  Forall (fun v => (length v < 256)%nat) (ins_vals stmt) →
  ∃ rc tab' res', ins_do tab stmt res = Some (rc, tab', res') ∧
    tab_ok tab' ∧ cap_ok tab' ∧ next_ok tab' ∧ same_schema tab tab' ∧
    ((rc = 0 ∧ row_cnt tab < MAX_RECORDS ∧ ∃ row id, snd (row_new tab (ins_vals stmt)) = Some (row, id) ∧
        new_row_ok tab (ins_vals stmt) row id ∧ unique tab (rows tab ++ [row]) ∧
        rows tab' = rows tab ++ [row] ∧ res' = set_last_id (set_count res 1) id) ∨
     (rc = -1 ∧ rows tab' = rows tab ∧ err_code res' ≠ [] ∧
        (MAX_RECORDS ≤ row_cnt tab ∨ ∀ row id, snd (row_new tab (ins_vals stmt)) = Some (row, id) →
           ¬ unique tab (rows tab ++ [row])))).
Proof. apply ins_do_spec. Qed.

Lemma ins_do_correct_witness :
  ∃ tab' res', ins_do users (parse_or "INSERT INTO users VALUES ('d@x', 'Di', 5)") res_clr = Some (0, tab', res') ∧
    tab_ok tab' ∧ last_id res' = 8.
Proof.
  destruct (ins_do_correct users (parse_or "INSERT INTO users VALUES ('d@x', 'Di', 5)") res_clr)
    as (rc & tab' & res' & E & Hok & _).
  - apply users_ok.
  - apply users_ok.
  - vm_compute. split; discriminate.
  - discriminate.
  - vm_compute. repeat constructor.
  - assert ((fun r => (fst (fst r), last_id (snd r))) <$>
      ins_do users (parse_or "INSERT INTO users VALUES ('d@x', 'Di', 5)") res_clr = Some (0, 8)) as H
      by (vm_compute; reflexivity).
    rewrite E in H. simpl in H. injection H as -> H. exists tab', res'. split; [exact E|]. split; [exact Hok|exact H].
Defined.

(** C7. UPDATE on a well-formed table: without a WHERE, on an unknown column, on
    the PK or with an empty value for an NN column it is refused and changes
    nothing; otherwise it returns 0 exactly when the updated rows have no
    duplicate, and then exactly the matching rows carry the new value, the
    count is their number and the indexes hold the new rows. *)
Theorem upd_do_correct (tab : TabVer) (stmt : Statement) (res : DbRes) :
  tab_ok tab → count res = 0 →
  ∃ rc tab' res', upd_do tab stmt res = Some (rc, tab', res') ∧ same_schema tab tab' ∧
    match upd_target tab stmt with
    | None => rc = -1 ∧ tab' = tab ∧ err_code res' ≠ []
    | Some (idx, v) =>
        (rc = 0 ↔ unique tab (updated tab stmt idx v (rows tab))) ∧
        (rc = 0 → tab_ok tab' ∧ row_cap tab' = row_cap tab ∧ row_alloc tab' = row_alloc tab ∧
          next_id tab' = next_id tab ∧
          rows tab' = updated tab stmt idx v (rows tab) ∧ res' = set_count res (n_matching tab stmt)) ∧
        (rc ≠ 0 → rc = -1 ∧ err_code res' ≠ [])
    end.
Proof. apply upd_do_spec. Qed.

Lemma upd_do_correct_witness :
  ∃ tab' res', upd_do users (parse_or "UPDATE users SET email = 'z@x' WHERE id = 2") res_clr = Some (0, tab', res') ∧
    tab_ok tab' ∧ count res' = 1.
Proof.
  destruct (upd_do_correct users (parse_or "UPDATE users SET email = 'z@x' WHERE id = 2") res_clr)
    as (rc & tab' & res' & E & _ & H).
  - apply users_ok.
  - reflexivity.
  - assert (upd_target users (parse_or "UPDATE users SET email = 'z@x' WHERE id = 2") = Some (1%nat, lit "z@x"))
      as Et by (vm_compute; reflexivity).
    rewrite Et in H. destruct H as (_ & H & _).
    assert ((fun r => fst (fst r)) <$> upd_do users (parse_or "UPDATE users SET email = 'z@x' WHERE id = 2") res_clr
      = Some 0) as Hrc by (vm_compute; reflexivity).
    rewrite E in Hrc. injection Hrc as ->. destruct (H eq_refl) as (Hok & _ & _ & _ & _ & ->).
    exists tab', (set_count res_clr (n_matching users (parse_or "UPDATE users SET email = 'z@x' WHERE id = 2"))).
    split; [exact E|]. split; [exact Hok|]. vm_compute. reflexivity.
Defined.

(** C8. DELETE with a WHERE on a well-formed table always succeeds: it removes
    exactly the matching rows, keeps the order of the others, counts what it
    removed and rebuilds the indexes of what is left. *)
Theorem del_do_correct (tab : TabVer) (stmt : Statement) (res : DbRes) :
  tab_ok tab → where_conditions stmt ≠ [] → count res = 0 →
  ∃ tab', del_do tab stmt res = Some (0, tab', set_count res (n_matching tab stmt)) ∧
    same_schema tab tab' ∧ tab_ok tab' ∧ next_id tab' = next_id tab ∧
    rows tab' = kept tab stmt (rows tab) ∧ row_cap tab' = row_cap tab ∧ row_alloc tab' = row_cnt tab.
Proof. apply del_do_spec. Qed.

Lemma del_do_correct_witness :
  ∃ tab', del_do users (parse_or "DELETE FROM users WHERE age = 30") res_clr = Some (0, tab', set_count res_clr 2) ∧
    tab_ok tab' ∧ rows tab' = [sample_row "2" "" "Bob" "41"].
Proof.
  destruct (del_do_correct users (parse_or "DELETE FROM users WHERE age = 30") res_clr)
    as (tab' & E & _ & Hok & _ & Hr & _).
  - apply users_ok.
  - vm_compute. discriminate.
  - reflexivity.
  - exists tab'. split; [exact E|]. split; [exact Hok|]. rewrite Hr. vm_compute. reflexivity.
Defined.

(** Copy on write: [tab_clone] of a well-formed table always succeeds and
    gives a well-formed table with the same rows, schema and next id, whose row
    array has the room its capacity promises. *)
Theorem tab_clone_correct (tab : TabVer) :
  tab_ok tab →
  ∃ tab', tab_clone tab = Some tab' ∧ tab_ok tab' ∧ cap_ok tab' ∧
    rows tab' = rows tab ∧ cols tab' = cols tab ∧ pk_idx tab' = pk_idx tab ∧
    uk_idx tab' = uk_idx tab ∧ next_id tab' = next_id tab ∧ name tab' = name tab.
Proof. apply tab_clone_spec. Qed.

Lemma tab_clone_correct_witness : ∃ tab', tab_clone users = Some tab' ∧ tab_ok tab' ∧ rows tab' = rows users.
Proof.
  destruct (tab_clone_correct users) as (tab' & E & Hok & _ & Hr & _); [apply users_ok|].
  exists tab'. split; [exact E|]. split; [exact Hok|exact Hr].
Defined.



(** The statements of one transaction on its working copy. *)
Fixpoint exec_all (tab : TabVer) (sqls : list string) : option (list Z * TabVer) :=
  match sqls with
  | [] => Some ([], tab)
  | s :: ss =>
      let* (rc, t, _) := exec_stmt tab (parse_or s) res_clr in
      let* (rcs, t') := exec_all t ss in Some (rc :: rcs, t')
  end.

(** DELETE leaves a row array with [row_cnt] slots under the old, larger
    [row_cap]: in one transaction an INSERT (which doubles the capacity), a
    DELETE and another INSERT write past the end of the array. *)
Theorem delete_breaks_row_cap :
  ∃ tab', exec_all users ["INSERT INTO users VALUES (8, 'd@x', 'Di', 5)"; "DELETE FROM users WHERE id = 99"]%string
      = Some ([0; 0], tab') ∧
    row_alloc tab' = row_cnt tab' ∧ row_cnt tab' < row_cap tab' ∧
    ins_do tab' (parse_or "INSERT INTO users VALUES (9, 'e@x', 'Ed', 5)") res_clr = None.
Proof. eexists. split; [vm_compute; reflexivity|]. split_and!; vm_compute; reflexivity. Qed.

(** Empty UK values are not indexed, yet a filter [uk = ''] is answered by
    the index: the row that satisfies it is not returned. *)
Theorem empty_uk_filter_misses_row :
  let stmt := parse_or "SELECT id FROM users WHERE email = ''" in
  matching users stmt (rows users) = [sample_row "2" "" "Bob" "41"] ∧
  sel_do users stmt res_clr = Some (0, res_clr).
Proof. split; vm_compute; reflexivity. Qed.
