(* ===== verification/Store.v ===== *)
(** Loading and saving a table as a CSV file, [src/db/dbapi.c]: [load_hdr],
    [load_row], [tab_load], [tab_save].

    The file system is a map from paths to contents.  [fopen] for reading fails
    exactly when there is no file; whether the writes of [tab_save] succeed is
    an argument.  A load returns [None] where the C code writes past the end of
    [uk_idx]. *)

From Stdlib Require Import String.
From S2P Require Import Prelude CString BPTree BPTreeIndex Parser Values Table.
From stdpp Require Import base numbers list option gmap.
Local Open Scope Z_scope.

Abbreviation Fs := (gmap cstr cstr).

Definition PATH_MAX : nat := 4096.
Definition MAX_UKS : nat := 5.
Definition LPAREN : Z := 40.

Definition path_csv (root nm : cstr) : cstr := strcpy_sz PATH_MAX (root ++ lit "/" ++ nm ++ lit ".csv").

(** The side files of the command line engine are deleted. *)
Definition rm_side (fs : Fs) (root nm : cstr) : Fs :=
  delete (strcpy_sz PATH_MAX (root ++ lit "/" ++ nm ++ lit ".idx"))
    (delete (strcpy_sz PATH_MAX (root ++ lit "/" ++ nm ++ lit ".delta")) fs).

(** ** Reading *)

(** [fgets] with a buffer of [n + 1] bytes: the line and what follows it. *)
Fixpoint fgets (n : nat) (s : cstr) : cstr * cstr :=
  match n, s with
  | S n', c :: s' => if c =? NL then ([c], s') else let '(l, r) := fgets n' s' in (c :: l, r)
  | _, _ => ([], s)
  end.

(** The text before the first line end. *)
Fixpoint cut_nl (s : cstr) : cstr :=
  match s with
  | c :: s' => if (c =? CR) || (c =? NL) then [] else c :: cut_nl s'
  | [] => []
  end.

Definition has_tag (tag t : cstr) : bool := match strstr tag t with Some _ => true | None => false end.

(** One column of the header: [name], [name(PK)], [name(UK)] or [name(NN)]. *)
Definition load_col (v : cstr) : ColumnInfo :=
  let v := trim_uq v in
  match strchr v LPAREN with
  | Some k =>
      let tag := drop k v in
      mkCol (take (min k (COL_SIZE - 1)) v)
        (if has_tag tag (lit "(PK)") then COL_PK
         else if has_tag tag (lit "(UK)") then COL_UK
         else if has_tag tag (lit "(NN)") then COL_NN
         else COL_NORMAL)
  | None => mkCol (strcpy_sz COL_SIZE v) COL_NORMAL
  end.

(** The last PK column. *)
Fixpoint last_pk (i : nat) (cs : list ColumnInfo) (acc : option nat) : option nat :=
  match cs with
  | [] => acc
  | c :: cs' => last_pk (S i) cs' (match col_type c with COL_PK => Some i | _ => acc end)
  end.

(** The UK columns in order. *)
Fixpoint uk_columns (i : nat) (cs : list ColumnInfo) : list nat :=
  match cs with
  | [] => []
  | c :: cs' => match col_type c with COL_UK => i :: uk_columns (S i) cs' | _ => uk_columns (S i) cs' end
  end.

Definition load_hdr (nm line : cstr) : option TabVer :=
  let cs := map load_col (split_csv line MAX_COLS RECORD_SIZE) in
  let uks := uk_columns 0 cs in
  if (MAX_UKS <? length uks)%nat then None
  else Some (mkTab nm cs (last_pk 0 cs None) uks [] 0 0 1 0 None []).

Definition load_row (tab : TabVer) (line : cstr) : option TabVer :=
  let vals := split_csv line MAX_COLS RECORD_SIZE in
  if negb (length vals =? col_cnt tab)%nat then None
  else
    '(cap, alloc) ← ensure_row_cap tab (row_cnt tab + 1);
    let row := map trim_uq vals in
    let add nid := set_next_id (set_rows tab (rows tab ++ [row]) cap alloc) nid in
    match pk_idx tab with
    | None => Some (add (next_id tab))
    | Some p =>
        match parse_l (val_at row p) with
        | None => None
        | Some key => Some (add (if next_id tab <=? key then long_succ key else next_id tab))
        end
    end.

(** The lines after the header; every round reads at least one character, so
    the length of the text is enough fuel. *)
Fixpoint load_rows (fuel : nat) (tab : TabVer) (s : cstr) : option TabVer :=
  match s with
  | [] => Some tab
  | _ =>
      match fuel with
      | O => None
      | S f =>
          let '(l, s') := fgets (RECORD_SIZE - 1) s in
          match cut_nl l with
          | [] => load_rows f tab s'
          | line => tab' ← load_row tab line; load_rows f tab' s'
          end
      end
  end.

(** [Some None] is the result NULL. *)
Definition tab_load (fs : Fs) (root nm : cstr) : option (option TabVer) :=
  match fs !! path_csv root nm with
  | None | Some [] => Some None
  | Some s =>
      let '(line, s') := fgets (RECORD_SIZE - 1) s in
      let* tab0 := load_hdr nm line in
      match load_rows (length s') tab0 s' with
      | None => Some None
      | Some tab =>
          let* (ok, tab1) := idx_build tab in
          Some (if (ok : bool) then Some (set_ver_id tab1 1) else None)
      end
  end.

(** ** Writing *)

Definition tag_text (ty : ColumnType) : cstr :=
  match ty with
  | COL_PK => lit "(PK)"
  | COL_UK => lit "(UK)"
  | COL_NN => lit "(NN)"
  | COL_NORMAL => []
  end.

Definition col_text (c : ColumnInfo) : cstr := col_name c ++ tag_text (col_type c).

(** A value with a comma is put in quotes. *)
Definition val_text (v : cstr) : cstr :=
  match strchr v COMMA with Some _ => QUOTE :: v ++ [QUOTE] | None => v end.

(** Fields with a comma between them and a line end after the last. *)
Fixpoint join_line (fields : list cstr) : cstr :=
  match fields with
  | [] => []
  | [f] => f ++ [NL]
  | f :: fs' => f ++ COMMA :: join_line fs'
  end.

Definition tab_text (tab : TabVer) : cstr :=
  join_line (map col_text (cols tab)) ++ flat_map (fun r => join_line (map val_text r)) (rows tab).

(** [io_ok]: opening, closing and renaming the temporary file succeed. *)
Definition tab_save (io_ok : bool) (fs : Fs) (root : cstr) (tab : TabVer) : bool * Fs :=
  if io_ok then (true, rm_side (<[path_csv root (name tab) := tab_text tab]> fs) root (name tab))
  else (false, fs).
