(* ===== verification/StoreProofs.v ===== *)
(** A saved table is read back. *)

From Stdlib Require Import String.
From S2P Require Import Prelude CString BPTree BPTreeSpec BPTreeIndex Parser Values Table TableProofs.
From S2P Require Import InsertProofs WriteProofs Store Samples.
From stdpp Require Import base numbers list option gmap.
Local Open Scope Z_scope.

(** ** Splitting what was joined *)

(** Reading a field: the quote state after it, [None] at a comma outside quotes. *)
Fixpoint field_scan (q : bool) (f : cstr) : option bool :=
  match f with
  | [] => Some q
  | c :: f' =>
      let q' := if c =? QUOTE then negb q else q in
      if (c =? COMMA) && negb q' then None else field_scan q' f'
  end.

Lemma field_scan_app q f g : field_scan q (f ++ g) = (q' ← field_scan q f; field_scan q' g).
Proof.
  revert q; induction f as [|c f IH]; intros q; simpl; [done|].
  set (q' := if c =? QUOTE then negb q else q). destruct ((c =? COMMA) && negb q'); [done|apply IH].
Qed.

Lemma split_loop_0 q s : split_loop 0 q s = (s, []).
Proof. by destruct s. Qed.

Lemma split_loop_field r q q2 f s :
  field_scan q f = Some q2 →
  split_loop (S r) q (f ++ s) = (f ++ fst (split_loop (S r) q2 s), snd (split_loop (S r) q2 s)).
Proof.
  revert q; induction f as [|c f IH]; intros q; cbn [field_scan].
  - intros [= <-]. cbn [app]. by destruct (split_loop (S r) q s).
  - set (q' := if c =? QUOTE then negb q else q). destruct ((c =? COMMA) && negb q') eqn:E; [done|].
    intros H. change ((c :: f) ++ s) with (c :: f ++ s).
    assert (split_loop (S r) q (c :: f ++ s) = let '(p, ps) := split_loop (S r) q' (f ++ s) in (c :: p, ps)) as ->
      by (simpl; fold q'; by rewrite E).
    by rewrite (IH q' H).
Qed.

(** A field that leaves the scanner outside quotes. *)
Definition field_ok (f : cstr) : Prop := field_scan false f = Some false.

Fixpoint join_fields (fields : list cstr) : cstr :=
  match fields with
  | [] => []
  | [f] => f
  | f :: fs' => f ++ COMMA :: join_fields fs'
  end.

Lemma join_line_fields fields : fields ≠ [] → join_line fields = join_fields fields ++ [NL].
Proof.
  induction fields as [|f [|g fs] IH]; intros Hne; [done|done|].
  change (join_line (f :: g :: fs)) with (f ++ COMMA :: join_line (g :: fs)).
  rewrite IH by done.
  change (join_fields (f :: g :: fs)) with (f ++ COMMA :: join_fields (g :: fs)).
  by rewrite <- app_assoc.
Qed.

(** The fields with [t] added to the last one. *)
Fixpoint app_last (t : cstr) (fields : list cstr) : list cstr :=
  match fields with
  | [] => []
  | [f] => [f ++ t]
  | f :: fs' => f :: app_last t fs'
  end.

Lemma app_last_nil fields : app_last [] fields = fields.
Proof.
  induction fields as [|f [|g fs] IH]; [done|simpl; by rewrite app_nil_r|].
  change (app_last [] (f :: g :: fs)) with (f :: app_last [] (g :: fs)). by rewrite IH.
Qed.

(** [t] stands for the text after the last field. *)
Lemma split_loop_join f fs t r :
  Forall field_ok (f :: fs) → (length fs ≤ r)%nat → field_scan false t = Some false →
  (let '(p, ps) := split_loop r false (join_fields (f :: fs) ++ t) in p :: ps) = app_last t (f :: fs).
Proof.
  revert f r; induction fs as [|g fs IH]; intros f r Hf Hr Ht.
  - simpl. destruct r as [|r]; [by rewrite split_loop_0|]. apply Forall_cons_1 in Hf as [Hf _]. unfold field_ok in Hf.
    rewrite (split_loop_field r false false f t Hf).
    pose proof (split_loop_field r false false t [] Ht) as H. rewrite app_nil_r in H.
    rewrite H. simpl. by rewrite app_nil_r.
  - apply Forall_cons_1 in Hf as [Hf Hg]. destruct r as [|r]; [simpl in Hr; lia|].
    change (join_fields (f :: g :: fs)) with (f ++ COMMA :: join_fields (g :: fs)).
    change (app_last t (f :: g :: fs)) with (f :: app_last t (g :: fs)).
    rewrite <- app_assoc. rewrite (split_loop_field r false false f _ Hf).
    change ((COMMA :: join_fields (g :: fs)) ++ t) with (COMMA :: (join_fields (g :: fs) ++ t)).
    assert (split_loop (S r) false (COMMA :: (join_fields (g :: fs) ++ t)) =
      let '(p, ps) := split_loop r false (join_fields (g :: fs) ++ t) in ([], p :: ps)) as -> by done.
    specialize (IH g r Hg ltac:(simpl in Hr; lia) Ht). destruct (split_loop r false _) as [p ps].
    simpl fst. simpl snd. by rewrite app_nil_r, IH.
Qed.

(** [split_csv] of a line gives its fields. *)
Lemma split_csv_join fields t :
  fields ≠ [] → Forall field_ok fields → (length fields ≤ MAX_COLS)%nat →
  field_scan false t = Some false → (length (join_fields fields ++ t) < RECORD_SIZE)%nat →
  split_csv (join_fields fields ++ t) MAX_COLS RECORD_SIZE = app_last t fields.
Proof.
  intros Hne Hf Hl Ht Hlen. unfold split_csv, strcpy_sz. rewrite take_ge by lia.
  destruct fields as [|f fs]; [done|]. apply split_loop_join; [done|unfold MAX_COLS in *; simpl in Hl; lia|done].
Qed.

(** ** Values *)

(** No quote and no line end inside. *)
Definition plain_char (c : Z) : bool := negb (c =? QUOTE) && negb (c =? NL) && negb (c =? CR).

(** A value that survives a save: plain, and trimmed unless it has a comma (it
    is then written in quotes). *)
Definition storable_val (v : cstr) : bool :=
  forallb plain_char v &&
  match strchr v COMMA with
  | Some _ => true
  | None => bool_decide (skip_space v = v) && bool_decide (rstrip v = v)
  end.

Lemma strchr_None v c : strchr v c = None ↔ Forall (fun x => x ≠ c) v.
Proof.
  induction v as [|x v IH]; simpl; [split; [constructor|done]|].
  rewrite Forall_cons, <- IH. destruct (Z.eqb_spec x c) as [->|Hne]; [naive_solver|].
  destruct (strchr v c); naive_solver.
Qed.

Lemma plain_scan q v :
  forallb plain_char v = true → (q = true ∨ strchr v COMMA = None) → field_scan q v = Some q.
Proof.
  induction v as [|c v IH]; intros Hp Hq; simpl; [done|]. simpl in Hp.
  apply andb_true_iff in Hp as [Hc Hp]. unfold plain_char in Hc.
  apply andb_true_iff in Hc as [[Hcq _]%andb_true_iff _]. apply negb_true_iff in Hcq. rewrite Hcq.
  destruct Hq as [->|Hq].
  - rewrite andb_false_r. apply IH; [done|by left].
  - apply strchr_None in Hq. apply Forall_cons_1 in Hq as [Hx Hq].
    rewrite (proj2 (Z.eqb_neq c COMMA)) by done. simpl. apply IH; [done|]. right. by apply strchr_None.
Qed.

Lemma field_ok_val v : storable_val v = true → field_ok (val_text v).
Proof.
  unfold storable_val, val_text, field_ok. intros [Hp Hv]%andb_true_iff.
  destruct (strchr v COMMA) eqn:Ec.
  - simpl. rewrite field_scan_app, plain_scan by auto. done.
  - apply plain_scan; auto.
Qed.

Lemma removelast_snoc {A} (l : list A) x : removelast (l ++ [x]) = l.
Proof. rewrite List.removelast_app by done. by rewrite app_nil_r. Qed.

Lemma trim_uq_quoted v : trim_uq (QUOTE :: v ++ [QUOTE]) = v.
Proof.
  assert (rstrip (skip_space (QUOTE :: v ++ [QUOTE])) = QUOTE :: v ++ [QUOTE]) as E
    by exact (rstrip_snoc_nonspace (QUOTE :: v) QUOTE eq_refl).
  assert (List.last (QUOTE :: v ++ [QUOTE]) 0 = QUOTE) as El
    by exact (List.last_last (QUOTE :: v) QUOTE 0).
  assert ((2 <=? length (QUOTE :: v ++ [QUOTE]))%nat = true) as En
    by (apply Nat.leb_le; simpl; rewrite length_app; simpl; lia).
  unfold trim_uq. rewrite E, Z.eqb_refl, En, El, Z.eqb_refl. simpl. apply removelast_snoc.
Qed.

(** Reading the text of a value gives the value. *)
Lemma trim_val_text v : storable_val v = true → trim_uq (val_text v) = v.
Proof.
  unfold storable_val, val_text. intros [Hp Hv]%andb_true_iff. destruct (strchr v COMMA) eqn:Ec.
  - apply trim_uq_quoted.
  - apply andb_true_iff in Hv as [H1%bool_decide_eq_true H2%bool_decide_eq_true].
    unfold trim_uq. rewrite H1, H2. destruct v as [|c v]; [done|].
    simpl in Hp. apply andb_true_iff in Hp as [Hc _]. unfold plain_char in Hc.
    apply andb_true_iff in Hc as [[Hcq _]%andb_true_iff _]. apply negb_true_iff in Hcq. by rewrite Hcq.
Qed.

(** ** Lines *)

Definition line_char (c : Z) : bool := negb (c =? NL) && negb (c =? CR).

Lemma fgets_line n l s :
  forallb line_char l = true → (length l < n)%nat → fgets n (l ++ NL :: s) = (l ++ [NL], s).
Proof.
  revert n; induction l as [|c l IH]; intros [|n] Hl Hn; simpl in *; try lia; [done|].
  apply andb_true_iff in Hl as [Hc Hl]. unfold line_char in Hc.
  apply andb_true_iff in Hc as [Hc%negb_true_iff _]. rewrite Hc, IH; [done|done|lia].
Qed.

Lemma cut_nl_line l : forallb line_char l = true → cut_nl (l ++ [NL]) = l.
Proof.
  induction l as [|c l IH]; simpl; [done|]. intros [Hc Hl]%andb_true_iff. unfold line_char in Hc.
  apply andb_true_iff in Hc as [H1%negb_true_iff H2%negb_true_iff]. rewrite H1, H2. simpl. by rewrite IH.
Qed.

Lemma line_char_join fields :
  Forall (fun f => forallb line_char f = true) fields → forallb line_char (join_fields fields) = true.
Proof.
  induction 1 as [|f fs Hf Hfs IH]; [done|]. destruct fs as [|g fs]; [done|].
  change (join_fields (f :: g :: fs)) with (f ++ COMMA :: join_fields (g :: fs)).
  rewrite forallb_app, Hf. simpl in *. done.
Qed.

Lemma plain_line v : forallb plain_char v = true → forallb line_char v = true.
Proof.
  intros H. apply forallb_forall. intros c Hc. rewrite forallb_forall in H. specialize (H c Hc).
  unfold plain_char in H. unfold line_char. apply andb_true_iff in H as [[_ ->]%andb_true_iff ->]. done.
Qed.

Lemma val_text_line v : storable_val v = true → forallb line_char (val_text v) = true.
Proof.
  unfold storable_val, val_text. intros [Hp _]%andb_true_iff. apply plain_line in Hp.
  destruct (strchr v COMMA); [|done]. simpl. by rewrite forallb_app, Hp.
Qed.

(** ** The header *)

Lemma uk_columns_spec i cs n :
  n ∈ uk_columns i cs ↔ ∃ c, (i ≤ n)%nat ∧ cs !! (n - i)%nat = Some c ∧ col_type c = COL_UK.
Proof.
  revert i; induction cs as [|c cs IH]; intros i; simpl.
  - split; [by intros ?%not_elem_of_nil|]. by intros (c & _ & ? & _).
  - assert (n ∈ uk_columns (S i) cs ↔
      ∃ c', (i < n)%nat ∧ (c :: cs) !! (n - i)%nat = Some c' ∧ col_type c' = COL_UK) as IH'.
    { rewrite IH. split; intros (c' & H1 & H2 & H3); exists c'; (split; [lia|]; split; [|done]).
      - by replace (n - i)%nat with (S (n - S i)) by lia.
      - replace (n - i)%nat with (S (n - S i)) in H2 by lia. done. }
    transitivity ((n = i ∧ col_type c = COL_UK) ∨ n ∈ uk_columns (S i) cs).
    + destruct (col_type c); try (split; [by right|intros [[? ?]|?]; done]).
      rewrite elem_of_cons. split; [intros [->|?]; auto|intros [[-> _]|?]; auto].
    + rewrite IH'. split.
      * intros [[-> Hc]|(c' & H1 & H2 & H3)]; [exists c; by rewrite Nat.sub_diag|exists c'; split_and!; (done || lia)].
      * intros (c' & H1 & H2 & H3). destruct (decide (n = i)) as [->|Hne].
        -- left. rewrite Nat.sub_diag in H2. injection H2 as ->. done.
        -- right. exists c'. split_and!; (done || lia).
Qed.

Lemma uk_columns_NoDup i cs : NoDup (uk_columns i cs).
Proof.
  revert i; induction cs as [|c cs IH]; intros i; simpl; [constructor|].
  destruct (col_type c); try apply IH. constructor; [|apply IH].
  intros (c' & H & _)%uk_columns_spec. lia.
Qed.

(** A column name that survives a save. *)
Definition storable_name (nm : cstr) : bool :=
  forallb (fun c => plain_char c && negb (c =? COMMA) && negb (c =? LPAREN)) nm &&
  bool_decide (skip_space nm = nm) && bool_decide (rstrip nm = nm) && (length nm <? COL_SIZE)%nat.

Lemma storable_name_inv nm :
  storable_name nm = true →
  forallb plain_char nm = true ∧ strchr nm COMMA = None ∧ strchr nm LPAREN = None ∧
  skip_space nm = nm ∧ rstrip nm = nm ∧ (length nm < COL_SIZE)%nat.
Proof.
  unfold storable_name. intros [[[Hc H1%bool_decide_eq_true]%andb_true_iff
    H2%bool_decide_eq_true]%andb_true_iff H3%Nat.ltb_lt]%andb_true_iff.
  rewrite forallb_forall in Hc. split_and!; [| | |done|done|done].
  - apply forallb_forall. intros c Hin. specialize (Hc c Hin).
    by apply andb_true_iff in Hc as [[? _]%andb_true_iff _].
  - apply strchr_None, Forall_forall. intros c Hin%list_elem_of_In. specialize (Hc c Hin).
    apply andb_true_iff in Hc as [[_ H]%andb_true_iff _]. by apply negb_true_iff, Z.eqb_neq in H.
  - apply strchr_None, Forall_forall. intros c Hin%list_elem_of_In. specialize (Hc c Hin).
    apply andb_true_iff in Hc as [_ H]. by apply negb_true_iff, Z.eqb_neq in H.
Qed.

Lemma strchr_app_None v w c :
  strchr v c = None → strchr (v ++ w) c = (fun n => (length v + n)%nat) <$> strchr w c.
Proof.
  induction v as [|x v IH]; simpl; [intros _; by destruct (strchr w c)|].
  destruct (x =? c); [done|]. destruct (strchr v c); [done|]. intros _. rewrite IH by done.
  by destruct (strchr w c).
Qed.

Lemma trim_uq_fix s : skip_space s = s → rstrip s = s → match s with [] => True | c :: _ => c ≠ QUOTE end →
  trim_uq s = s.
Proof.
  intros H1 H2 H3. unfold trim_uq. rewrite H1, H2. destruct s as [|c s]; [done|].
  by rewrite (proj2 (Z.eqb_neq c QUOTE)).
Qed.

Lemma skip_space_app v w :
  skip_space v = v → (v = [] → skip_space w = w) → skip_space (v ++ w) = v ++ w.
Proof.
  destruct v as [|c v]; simpl; [auto|]. destruct (isspace c) eqn:E; [|done].
  intros H. pose proof (skip_space_length v). rewrite H in *. simpl in *. lia.
Qed.

Lemma skip_space_app_nl v : skip_space v = v → skip_space (v ++ [NL]) = match v with [] => [] | _ => v ++ [NL] end.
Proof.
  destruct v as [|c v]; [done|]. intros H. apply skip_space_app; [done|done].
Qed.

(** The trimmed text of a column, with or without the line end. *)
Lemma trim_col_text c t :
  storable_name (col_name c) = true → (t = [] ∨ t = [NL]) → trim_uq (col_text c ++ t) = col_text c.
Proof.
  intros (Hp & Hcm & Hlp & Hs & Hr & Hlen)%storable_name_inv Ht. unfold col_text.
  set (x := col_name c ++ tag_text (col_type c)).
  assert (skip_space x = x) as Hsx.
  { apply skip_space_app; [done|]. intros _. by destruct (col_type c). }
  assert (rstrip x = x) as Hrx.
  { unfold x. destruct (col_type c); simpl; [by rewrite app_nil_r| | |];
      match goal with |- rstrip (?n ++ ?l) = _ =>
        change l with (removelast l ++ [List.last l 0]); rewrite app_assoc; by apply rstrip_snoc_nonspace end. }
  assert (match x with [] => True | c0 :: _ => c0 ≠ QUOTE end) as Hqx.
  { unfold x. destruct (col_name c) as [|b nm]; [by destruct (col_type c)|]. simpl in Hp |- *.
    apply andb_true_iff in Hp as [Hb _]. unfold plain_char in Hb.
    apply andb_true_iff in Hb as [[Hq _]%andb_true_iff _]. by apply negb_true_iff, Z.eqb_neq in Hq. }
  destruct Ht as [->| ->]; [rewrite app_nil_r; by apply trim_uq_fix|].
  assert (rstrip (skip_space (x ++ [NL])) = x) as E.
  { rewrite skip_space_app_nl by done. destruct x as [|b x'] eqn:Ex; [done|].
    by rewrite rstrip_space_app. }
  transitivity (trim_uq x); [|by apply trim_uq_fix]. unfold trim_uq. by rewrite E, Hsx, Hrx.
Qed.

Lemma load_col_text c t :
  storable_name (col_name c) = true → (t = [] ∨ t = [NL]) → load_col (col_text c ++ t) = c.
Proof.
  intros Hn Ht. unfold load_col. rewrite trim_col_text by done. cbv zeta.
  apply storable_name_inv in Hn as (Hp & Hcm & Hlp & Hs & Hr & Hlen).
  unfold col_text. rewrite strchr_app_None by done. destruct c as [nm ty]. cbn [col_name col_type] in *.
  destruct ty; cbn [tag_text strchr fmap option_fmap option_map].
  1:{ rewrite app_nil_r. unfold strcpy_sz. by rewrite take_ge by (unfold COL_SIZE in *; lia). }
  all: match goal with |- context [strchr (lit ?s) LPAREN] => change (strchr (lit s) LPAREN) with (Some 0%nat) end.
  all: cbn [fmap option_fmap option_map]; rewrite Nat.add_0_r, Nat.min_l by (unfold COL_SIZE in *; lia).
  all: by rewrite take_app_length, drop_app_length.
Qed.

Lemma col_text_scan c : storable_name (col_name c) = true →
  field_ok (col_text c) ∧ forallb line_char (col_text c) = true.
Proof.
  intros (Hp & Hcm & Hlp & Hs & Hr & Hlen)%storable_name_inv. unfold field_ok, col_text. split.
  - rewrite field_scan_app, plain_scan by auto. by destruct (col_type c).
  - rewrite forallb_app, plain_line by done. by destruct (col_type c).
Qed.

Lemma load_cols_text cs :
  Forall (fun c => storable_name (col_name c) = true) cs →
  map load_col (app_last [NL] (map col_text cs)) = cs.
Proof.
  induction 1 as [|c cs Hc Hcs IH]; [done|]. destruct cs as [|d cs].
  - cbn [map app_last]. f_equal. apply load_col_text; auto.
  - change (map load_col (app_last [NL] (map col_text (c :: d :: cs)))) with
      (load_col (col_text c) :: map load_col (app_last [NL] (map col_text (d :: cs)))).
    rewrite IH. f_equal. rewrite <- (app_nil_r (col_text c)). apply load_col_text; auto.
Qed.

(** ** The rows *)

(** A row that survives a save: its values do, and its line is not empty and
    fits the buffer of [fgets]. *)
Definition storable_row (r : Row) : bool :=
  forallb storable_val r && negb (bool_decide (join_fields (map val_text r) = [])) &&
  (length (join_fields (map val_text r)) <? RECORD_SIZE - 1)%nat.

Lemma storable_row_inv r :
  storable_row r = true →
  Forall (fun v => storable_val v = true) r ∧ join_fields (map val_text r) ≠ [] ∧
  (length (join_fields (map val_text r)) < RECORD_SIZE - 1)%nat.
Proof.
  unfold storable_row. intros [[H1 H2%negb_true_iff%bool_decide_eq_false]%andb_true_iff
    H3%Nat.ltb_lt]%andb_true_iff.
  split_and!; [|done|done]. apply Forall_forall. intros v Hin. rewrite forallb_forall in H1.
  apply H1. by apply list_elem_of_In.
Qed.

Lemma Forall_map_list {A B} (P : B → Prop) (f : A → B) l : Forall (fun x => P (f x)) l → Forall P (map f l).
Proof. induction 1; simpl; by constructor. Qed.

Lemma map_trim_text r : Forall (fun v => storable_val v = true) r → map trim_uq (map val_text r) = r.
Proof. induction 1 as [|v r Hv Hr IH]; simpl; [done|]. by rewrite trim_val_text, IH. Qed.

(** The fields of a loaded line. *)
Lemma split_row r :
  storable_row r = true → r ≠ [] → (length r ≤ MAX_COLS)%nat →
  split_csv (join_fields (map val_text r)) MAX_COLS RECORD_SIZE = map val_text r.
Proof.
  intros (Hv & _ & Hl)%storable_row_inv Hne Hc.
  pose proof (split_csv_join (map val_text r) []) as H. rewrite app_nil_r, app_last_nil in H. apply H.
  - by destruct r.
  - apply Forall_map_list. eapply Forall_impl; [exact Hv|]. intros v. apply field_ok_val.
  - by rewrite length_map.
  - done.
  - unfold RECORD_SIZE in *. lia.
Qed.

(** The keys of the rows are below [n]. *)
Definition keys_below (p : nat) (n : Z) (rs : list Row) : Prop :=
  Forall (fun r => match pk_key p r with Some k => k < n | None => True end) rs.

(** [next_id] is above the keys, unless a key is the last [long]. *)
Definition above_keys (tab : TabVer) : Prop :=
  match pk_idx tab with
  | Some p => keys_below p LONG_MAX (rows tab) → keys_below p (next_id tab) (rows tab)
  | None => True
  end.

Record loading (tab0 tab : TabVer) (rs : list Row) : Prop := {
  ld_schema : same_schema tab0 tab;
  ld_rows : rows tab = rs;
  ld_cap : row_cnt tab ≤ row_cap tab;
  ld_alloc : row_cap tab ≤ row_alloc tab;
  ld_above : above_keys tab;
}.

Lemma load_row_spec tab0 tab rs r :
  loading tab0 tab rs → (0 < col_cnt tab0 ≤ MAX_COLS)%nat → length r = col_cnt tab0 →
  storable_row r = true → row_cnt tab < MAX_RECORDS →
  match pk_idx tab0 with Some p => pk_key p r ≠ None | None => True end →
  ∃ tab', load_row tab (join_fields (map val_text r)) = Some tab' ∧ loading tab0 tab' (rs ++ [r]).
Proof.
  intros [[S1 S2 S3 S4] Hrs Hc1 Hc2 Hab] Hcols Hlen Hst Hmax Hpk. unfold load_row.
  assert (r ≠ []) as Hne by (intros ->; simpl in Hlen; lia).
  rewrite split_row by (done || lia).
  assert (col_cnt tab = col_cnt tab0) as Ecc by (unfold col_cnt; by rewrite S2).
  rewrite length_map, Hlen, Ecc, Nat.eqb_refl. simpl.
  destruct (ensure_row_cap_spec tab (row_cnt tab + 1)) as (cap & alloc & -> & H1 & H2); [done|unfold row_cnt in *; lia|].
  simpl. rewrite map_trim_text by by apply storable_row_inv.
  assert (∀ nid, loading tab0 (set_next_id (set_rows tab (rows tab ++ [r]) cap alloc) nid) (rs ++ [r]) ↔
    above_keys (set_next_id (set_rows tab (rows tab ++ [r]) cap alloc) nid)) as Hload.
  { intros nid. split; [by intros []|]. intros Ha. split; simpl; try done; [by rewrite Hrs|].
    unfold row_cnt in *. simpl. rewrite length_app. simpl. lia. }
  rewrite S3. unfold above_keys in Hab. rewrite S3 in Hab.
  destruct (pk_idx tab0) as [p|] eqn:Ep.
  - change (parse_l (val_at r p)) with (pk_key p r). destruct (pk_key p r) as [k|] eqn:Ek; [|done].
    eexists. split; [done|]. apply Hload. unfold above_keys. simpl. rewrite S3. unfold keys_below.
    intros [Hold Hnew]%Forall_app. apply Forall_cons_1 in Hnew as [Hnew _]. rewrite Ek in Hnew.
    specialize (Hab Hold). assert (long_succ k = k + 1) as Hls
      by (unfold long_succ; by rewrite (proj2 (Z.eqb_neq k LONG_MAX)) by lia).
    apply Forall_app. split.
    + eapply Forall_impl; [exact Hab|]. intros r' Hr'. simpl in Hr'. destruct (pk_key p r'); [|done].
      destruct (Z.leb_spec (next_id tab) k); lia.
    + apply Forall_singleton. rewrite Ek. destruct (Z.leb_spec (next_id tab) k); lia.
  - eexists. split; [done|]. apply Hload. unfold above_keys. simpl. by rewrite S3.
Qed.

Lemma load_rows_spec tab0 tab done_ rs fuel :
  loading tab0 tab done_ → (0 < col_cnt tab0 ≤ MAX_COLS)%nat →
  Forall (fun r => length r = col_cnt tab0) rs → Forall (fun r => storable_row r = true) rs →
  Z.of_nat (length done_ + length rs) ≤ MAX_RECORDS →
  match pk_idx tab0 with Some p => Forall (fun r => pk_key p r ≠ None) rs | None => True end →
  (length rs ≤ fuel)%nat →
  ∃ tab', load_rows fuel tab (flat_map (fun r => join_line (map val_text r)) rs) = Some tab' ∧
          loading tab0 tab' (done_ ++ rs).
Proof.
  revert tab done_ fuel; induction rs as [|r rs IH]; intros tab done_ fuel Hld Hc Hlen Hst Hmax Hpk Hf.
  - exists tab. rewrite app_nil_r. split; [|done]. by destruct fuel.
  - apply Forall_cons_1 in Hlen as [Hlr Hlen]. apply Forall_cons_1 in Hst as [Hsr Hst].
    pose proof (storable_row_inv r Hsr) as (Hv & Hne & Hl).
    assert (r ≠ []) as Hrne by (intros ->; simpl in Hlr; lia).
    destruct fuel as [|fuel]; [simpl in Hf; lia|].
    change (flat_map (fun r => join_line (map val_text r)) (r :: rs)) with
      (join_line (map val_text r) ++ flat_map (fun r => join_line (map val_text r)) rs).
    rewrite join_line_fields by by destruct r. rewrite <- app_assoc.
    set (rest := flat_map _ rs). set (line := join_fields (map val_text r)) in *.
    assert (forallb line_char line = true) as Hline.
    { apply line_char_join, Forall_map_list. eapply Forall_impl; [exact Hv|]. intros v. apply val_text_line. }
    assert (fgets (RECORD_SIZE - 1) (line ++ [NL] ++ rest) = (line ++ [NL], rest)) as Eg
      by by apply fgets_line.
    destruct (line ++ [NL] ++ rest) as [|c s] eqn:El; [by destruct line|].
    cbn [load_rows]. rewrite Eg, cut_nl_line by done. destruct line as [|c' line'] eqn:Eline; [done|].
    destruct (load_row_spec tab0 tab done_ r Hld Hc Hlr Hsr) as (tab' & E & Hld').
    + destruct Hld as [_ Hr _ _ _]. unfold row_cnt. rewrite Hr. simpl in Hmax. lia.
    + destruct (pk_idx tab0); [|done]. by apply Forall_cons_1 in Hpk as [? _].
    + fold line in E. rewrite Eline in E. rewrite E. simpl.
      destruct (IH tab' (done_ ++ [r]) fuel Hld' Hc Hlen Hst) as (tab2 & E2 & H2).
      * rewrite length_app. simpl in *. lia.
      * destruct (pk_idx tab0); [|done]. by apply Forall_cons_1 in Hpk as [_ ?].
      * simpl in Hf. lia.
      * exists tab2. split; [exact E2|]. by rewrite <- app_assoc in H2.
Qed.

(** ** The round trip *)

(** What a table must satisfy to survive a save. *)
Record storable (tab : TabVer) : Prop := {
  st_names : Forall (fun c => storable_name (col_name c) = true) (cols tab);
  st_hdr : (length (join_fields (map col_text (cols tab))) < RECORD_SIZE - 1)%nat;
  st_rows : Forall (fun r => storable_row r = true) (rows tab);
  st_limit : row_cnt tab ≤ MAX_RECORDS;
  st_pk : pk_idx tab = last_pk 0 (cols tab) None;
  st_uk : uk_idx tab = uk_columns 0 (cols tab);
  st_uks : (length (uk_idx tab) ≤ MAX_UKS)%nat;
}.

Lemma rm_side_csv fs root nm :
  (length root + length nm < PATH_MAX - 10)%nat → rm_side fs root nm !! path_csv root nm = fs !! path_csv root nm.
Proof.
  intros Hl. unfold rm_side, path_csv, strcpy_sz.
  assert (∀ ext : cstr, (length ext ≤ 6)%nat → take (PATH_MAX - 1) (root ++ lit "/" ++ nm ++ ext) = root ++ lit "/" ++ nm ++ ext) as Ht.
  { intros ext He. apply take_ge. rewrite !length_app. simpl. unfold PATH_MAX in *. lia. }
  rewrite !Ht by (simpl; lia).
  assert (∀ e1 e2 : cstr, e1 ≠ e2 → root ++ lit "/" ++ nm ++ e1 ≠ root ++ lit "/" ++ nm ++ e2) as Hne.
  { intros e1 e2 Hd E. by apply app_inv_head, app_inv_head, app_inv_head in E. }
  rewrite !lookup_delete_ne by by apply Hne. done.
Qed.

Lemma save_load tab fs root :
  tab_ok tab → storable tab → (length root + length (name tab) < PATH_MAX - 10)%nat →
  ∃ fs' tab', tab_save true fs root tab = (true, fs') ∧
    tab_load fs' root (name tab) = Some (Some tab') ∧ same_schema tab tab' ∧
    rows tab' = rows tab ∧ tab_ok tab' ∧ cap_ok tab' ∧ above_keys tab' ∧ ver_id tab' = 1.
Proof.
  intros Hok [Hn Hh Hr Hlim Hpk Huk Huks] Hl.
  exists (snd (tab_save true fs root tab)). unfold tab_save, tab_load. cbn [snd].
  rewrite rm_side_csv, lookup_insert_eq by done.
  destruct Hok as [Hsch Hlens _ (pk & _ & Htr)]. pose proof (so_cols _ Hsch) as Hcols.
  assert (cols tab ≠ []) as Hcne by (unfold col_cnt in Hcols; destruct (cols tab); [simpl in Hcols; lia|done]).
  unfold tab_text. rewrite join_line_fields by by destruct (cols tab). rewrite <- app_assoc.
  set (rest := flat_map _ (rows tab)). set (hdr := join_fields (map col_text (cols tab))) in *.
  assert (Forall (fun c => field_ok (col_text c)) (cols tab)) as Hfo
    by (eapply Forall_impl; [exact Hn|]; intros c Hc; by apply col_text_scan).
  assert (forallb line_char hdr = true) as Hline.
  { apply line_char_join, Forall_map_list. eapply Forall_impl; [exact Hn|]. intros c Hc. by apply col_text_scan. }
  assert (fgets (RECORD_SIZE - 1) (hdr ++ [NL] ++ rest) = (hdr ++ [NL], rest)) as Eg by by apply fgets_line.
  destruct (hdr ++ [NL] ++ rest) as [|c0 s0] eqn:Es; [by destruct hdr|]. cbv iota. rewrite Eg.
  assert (map load_col (split_csv (hdr ++ [NL]) MAX_COLS RECORD_SIZE) = cols tab) as Ehdr.
  { unfold hdr. rewrite split_csv_join; [by apply load_cols_text|by destruct (cols tab)| | |done|].
    - by apply Forall_map_list.
    - rewrite length_map. unfold col_cnt in Hcols. lia.
    - rewrite length_app. simpl. unfold RECORD_SIZE in *. fold hdr. lia. }
  unfold load_hdr. rewrite Ehdr, <- Huk. rewrite (proj2 (Nat.ltb_ge _ _)) by done. rewrite <- Hpk.
  set (tab0 := mkTab (name tab) (cols tab) (pk_idx tab) (uk_idx tab) [] 0 0 1 0 None []).
  assert (loading tab0 tab0 []) as Hld0.
  { split; simpl; try done. unfold above_keys. simpl. destruct (pk_idx tab); [|done]. intros _. constructor. }
  destruct (load_rows_spec tab0 tab0 [] (rows tab) (length rest) Hld0) as (tab1 & E1 & Hld).
  - done.
  - done.
  - done.
  - exact Hlim.
  - simpl. destruct Htr as [Hpkf _]. unfold pk_for in Hpkf. destruct (pk_idx tab); [apply Hpkf|done].
  - unfold rest. clear -Hr Hlens Hcols. induction (rows tab) as [|r rs IH]; simpl; [lia|].
    apply Forall_cons_1 in Hr as [Hr Hrs]. apply Forall_cons_1 in Hlens as [Hlr Hlens].
    rewrite length_app. specialize (IH Hlens Hrs).
    rewrite join_line_fields by (destruct r; [simpl in Hlr; lia|done]). rewrite length_app. simpl. lia.
  - fold rest in E1. rewrite E1. destruct Hld as [[S1 S2 S3 S4] Hr1 Hc1 Hc2 Hab]. simpl in *.
    destruct (idx_build_ok tab1) as (ok & tab2 & E2 & Hiff & (pk' & uks' & ->) & Hok2).
    + eapply schema_ok_ext; [..|exact Hsch]; done.
    + rewrite Hr1. unfold col_cnt. rewrite S2. exact Hlens.
    + lia.
    + assert (ok = true) as ->.
      { apply Hiff. rewrite Hr1. eapply unique_ext; [..|by eapply trees_unique]; done. }
      rewrite E2. simpl. specialize (Hok2 eq_refl). eexists. split; [done|]. split; [done|].
      split_and!; try done.
      destruct Hok2 as [K1 K2 K3 K4]. split; [by destruct K1|done|done|exact K4].
Qed.

(** ** Properties *)

(** C11. Durability: a well-formed table whose names and values survive the CSV
    format (no quotes or line ends; trimmed unless it has a comma; lines within
    the 1024-byte buffer) is written by [tab_save] and read back by [tab_load]
    with the same columns, keys and rows, in order, well formed, and with a
    [next_id] above every key. *)
Theorem tab_save_load_roundtrip (tab : TabVer) (fs : Fs) (root : cstr) :
  tab_ok tab → storable tab → (length root + length (name tab) < PATH_MAX - 10)%nat →
  ∃ fs' tab', tab_save true fs root tab = (true, fs') ∧
    tab_load fs' root (name tab) = Some (Some tab') ∧ same_schema tab tab' ∧
    rows tab' = rows tab ∧ tab_ok tab' ∧ cap_ok tab' ∧ above_keys tab' ∧ ver_id tab' = 1.
Proof. apply save_load. Qed.

Lemma users_storable : storable users.
Proof.
  split.
  - vm_compute. repeat constructor.
  - vm_compute. repeat constructor.
  - vm_compute. repeat constructor.
  - vm_compute. discriminate.
  - vm_compute. reflexivity.
  - vm_compute. reflexivity.
  - vm_compute. repeat constructor.
Qed.

Lemma tab_save_load_roundtrip_witness :
  ∃ fs' tab', tab_save true ∅ (lit "data") users = (true, fs') ∧
    tab_load fs' (lit "data") (lit "users") = Some (Some tab') ∧ rows tab' = rows users ∧ tab_ok tab'.
Proof.
  destruct (tab_save_load_roundtrip users ∅ (lit "data")) as (fs' & tab' & E1 & E2 & _ & Hr & Hok & _).
  - apply users_ok.
  - apply users_storable.
  - vm_compute. repeat constructor.
  - exists fs', tab'. split; [exact E1|]. split; [exact E2|]. split; [exact Hr|exact Hok].
Defined.

(** The names of the rows of [users] after an INSERT, then after a save and a load. *)
Definition names_after (sql : string) : option (list cstr * list cstr) :=
  let* (rc, tab, _) := ins_do users (parse_or sql) res_clr in
  let* tab' := tab_load (snd (tab_save true ∅ (lit "data") tab)) (lit "data") (lit "users") in
  match tab' with
  | Some t => Some (map (fun r => val_at r 2) (rows tab), map (fun r => val_at r 2) (rows t))
  | None => None
  end.

(** A value inserted in quotes keeps its leading space in memory, but the
    save writes it without quotes and the next load drops the space: what was
    committed is not what is read after a restart. *)
Theorem save_drops_quoted_space :
  names_after "INSERT INTO users VALUES (9, 'e@x', ' Ed', 5)" =
    Some ([lit "Ann"; lit "Bob"; lit "Cy, Jr"; lit " Ed"], [lit "Ann"; lit "Bob"; lit "Cy, Jr"; lit "Ed"]).
Proof. vm_compute. reflexivity. Qed.
