(* ===== verification/Db.v ===== *)
(** The database of [src/db/dbapi.c]: table versions, transactions, snapshots,
    commit, garbage collection, single statements and batches.

    Table versions live in a heap of addresses, so that a dangling pointer is
    an address that is no longer there; an operation that would follow one
    returns [None].  [db->tabs] may move when it grows: a pointer to an entry
    is its index with the generation of the array, and is valid in that
    generation only.  Each function is the sequential code; [DbProofs] says
    which of its parts are the critical sections of [db->mu].  Allocations
    succeed; the oracle [io_ok] says which calls of [tab_save] do. *)

From Stdlib Require Import String.
From S2P Require Import Prelude CString Mvcc Parser Values Table Store.
From stdpp Require Import base numbers list option gmap.
Local Open Scope Z_scope.

(** ** State *)

Abbreviation addr := nat.

(** [chain]: the addresses from [head] along [prev]. *)
Record TabEnt := mkEnt { ent_name : cstr; chain : list addr }.

Record TxTab := mkTxTab {
  tt_gen : nat;            (* generation of db->tabs when the pointer was taken *)
  tt_ent : nat;            (* index in db->tabs *)
  tt_base : addr;
  tt_work : option addr;
  tt_dirty : bool;
}.

Record DbTx := mkTx { tx_snap : Z; tx_tabs : list TxTab; tx_done : bool }.

Record Db := mkDb {
  mv : Mvcc;
  heap : gmap addr TabVer;
  brk : addr;
  tabs : list TabEnt;
  tab_cap : Z;
  tabs_gen : nat;
  fs : Fs;
  io_cnt : nat;
  root : cstr;
  max_sql : Z;
  max_qry : Z;
}.

Definition set_mv (db : Db) (m : Mvcc) : Db :=
  mkDb m (heap db) (brk db) (tabs db) (tab_cap db) (tabs_gen db) (fs db) (io_cnt db) (root db)
    (max_sql db) (max_qry db).
Definition set_heap (db : Db) (h : gmap addr TabVer) : Db :=
  mkDb (mv db) h (brk db) (tabs db) (tab_cap db) (tabs_gen db) (fs db) (io_cnt db) (root db)
    (max_sql db) (max_qry db).
Definition set_tabs (db : Db) (ts : list TabEnt) : Db :=
  mkDb (mv db) (heap db) (brk db) ts (tab_cap db) (tabs_gen db) (fs db) (io_cnt db) (root db)
    (max_sql db) (max_qry db).
Definition set_fs (db : Db) (f : Fs) (n : nat) : Db :=
  mkDb (mv db) (heap db) (brk db) (tabs db) (tab_cap db) (tabs_gen db) f n (root db)
    (max_sql db) (max_qry db).

(** [calloc] of a table version. *)
Definition alloc_tab (db : Db) (tab : TabVer) : addr * Db :=
  (brk db, mkDb (mv db) (<[brk db := tab]> (heap db)) (S (brk db)) (tabs db) (tab_cap db)
    (tabs_gen db) (fs db) (io_cnt db) (root db) (max_sql db) (max_qry db)).

Section db.
Variable io_ok : nat → bool.

(** [db_open]: [cfg] is a root directory with the limits. *)
Definition db_open (f : Fs) (dir : cstr) (max_sql max_qry : Z) : Db :=
  mkDb (mkMvcc 1 [] 0) ∅ 0 [] 0 0 f 0 (strcpy_sz PATH_MAX dir) max_sql max_qry.

(** [db_close]: what is left of the heap. *)
Definition db_close (db : Db) : gmap addr TabVer :=
  foldl (fun h e => foldr delete h (chain e)) (heap db) (tabs db).

(** ** Entries *)

Definition get_ent (db : Db) (nm : cstr) : option nat :=
  find_index (fun e => streq (ent_name e) nm) 0 (tabs db).

Definition add_ent (db : Db) (nm : cstr) (head : addr) : nat * Db :=
  let full := Z.of_nat (length (tabs db)) =? tab_cap db in
  let cap := if tab_cap db =? 0 then 8 else tab_cap db * 2 in
  (length (tabs db),
   mkDb (mv db) (heap db) (brk db) (tabs db ++ [mkEnt nm [head]])
     (if full then cap else tab_cap db) (if full then S (tabs_gen db) else tabs_gen db)
     (fs db) (io_cnt db) (root db) (max_sql db) (max_qry db)).

(** The index of the entry, loaded from its file when it is not known yet. *)
Definition need_ent (db : Db) (nm : cstr) : option (option nat * Db) :=
  match get_ent db nm with
  | Some i => Some (Some i, db)
  | None =>
      let* loaded := tab_load (fs db) (root db) nm in
      match loaded with
      | None => Some (None, db)
      | Some tab =>
          let '(a, db1) := alloc_tab db tab in
          let '(i, db2) := add_ent db1 nm a in
          Some (Some i, db2)
      end
  end.

(** The first version of the chain that the snapshot may see. *)
Fixpoint vis_walk (h : gmap addr TabVer) (snap : Z) (ch : list addr) : option (option addr) :=
  match ch with
  | [] => Some None
  | a :: ch' =>
      let* tab := h !! a in
      if snap <? ver_id tab then vis_walk h snap ch' else Some (Some a)
  end.

Definition tab_vis (db : Db) (i : nat) (snap : Z) : option (option addr) :=
  let* e := tabs db !! i in vis_walk (heap db) snap (chain e).

(** ** Transactions *)

(** [item->ent]: [None] when the array has moved. *)
Definition tx_ent (db : Db) (it : TxTab) : option TabEnt :=
  if (tt_gen it =? tabs_gen db)%nat then tabs db !! tt_ent it else None.

(** [tx_tab]: the position of the table in the transaction. *)
Fixpoint tx_tab (db : Db) (nm : cstr) (i : nat) (its : list TxTab) : option (option nat) :=
  match its with
  | [] => Some None
  | it :: its' =>
      let* e := tx_ent db it in
      if streq (ent_name e) nm then Some (Some i) else tx_tab db nm (S i) its'
  end.

Definition set_tx_tabs (tx : DbTx) (its : list TxTab) : DbTx := mkTx (tx_snap tx) its (tx_done tx).

Definition tx_view (db : Db) (tx : DbTx) (nm : cstr) : option (option nat * Db * DbTx) :=
  let* found := tx_tab db nm 0 (tx_tabs tx) in
  match found with
  | Some i => Some (Some i, db, tx)
  | None =>
      let* (ent, db1) := need_ent db nm in
      match ent with
      | None => Some (None, db1, tx)
      | Some e =>
          let* base := tab_vis db1 e (tx_snap tx) in
          match base with
          | None => Some (None, db1, tx)
          | Some a =>
              Some (Some (length (tx_tabs tx)), db1,
                    set_tx_tabs tx (tx_tabs tx ++ [mkTxTab (tabs_gen db1) e a None false]))
          end
      end
  end.

(** [tx_make_work]: 0 is [false]. *)
Definition tx_make_work (db : Db) (tx : DbTx) (item : option nat) : option (bool * Db * DbTx) :=
  match item with
  | None => Some (false, db, tx)
  | Some i =>
      let* it := tx_tabs tx !! i in
      match tt_work it with
      | Some _ => Some (true, db, set_tx_tabs tx (<[i := mkTxTab (tt_gen it) (tt_ent it) (tt_base it) (tt_work it) true]> (tx_tabs tx)))
      | None =>
          let* base := heap db !! tt_base it in
          match tab_clone base with
          | None => Some (false, db, tx)
          | Some tab =>
              let '(a, db1) := alloc_tab db tab in
              Some (true, db1, set_tx_tabs tx (<[i := mkTxTab (tt_gen it) (tt_ent it) (tt_base it) (Some a) true]> (tx_tabs tx)))
          end
      end
  end.

Definition stmt_is_wr (stmt : Statement) : bool :=
  match stype stmt with STMT_INSERT | STMT_UPDATE | STMT_DELETE => true | _ => false end.

(** [parse_ok]: the statement, or the error. *)
Definition parse_ok (db : Db) (sql : cstr) (res : DbRes) : Statement + DbRes :=
  if (0 <? max_sql db) && (max_sql db <? Z.of_nat (length sql)) then inr (res_err res "TOO_BIG" "SQL too long")
  else match parse_statement sql with
       | None => inr (res_err res "BAD_SQL" "parse failed")
       | Some stmt => inl stmt
       end.

(** A statement on the version at address [a]. *)
Definition exec_at (db : Db) (a : addr) (stmt : Statement) (res : DbRes) : option (Z * Db * DbRes) :=
  let* tab := heap db !! a in
  let* (rc, tab', res') := exec_stmt tab stmt res in
  Some (rc, set_heap db (<[a := tab']> (heap db)), res').

Definition db_begin (db : Db) : Z * Db * DbTx :=
  let '(s, m) := mv_snap true (mv db) in
  if s =? 0 then (-1, set_mv db m, mkTx 0 [] false) else (0, set_mv db m, mkTx s [] false).

Definition db_txdo (db : Db) (tx : DbTx) (sql : cstr) : option (Z * Db * DbTx * DbRes) :=
  if tx_done tx then Some (-1, db, tx, res_clr)
  else
    match parse_ok db sql res_clr with
    | inr res => Some (-1, db, tx, res)
    | inl stmt =>
        let* (item, db1, tx1) := tx_view db tx (table_name stmt) in
        let* (ok, db2, tx2) := (if stmt_is_wr stmt then tx_make_work db1 tx1 item else Some (true, db1, tx1)) in
        if negb (ok : bool) then Some (-1, db2, tx2, res_err res_clr "OOM" "out of memory")
        else
          match item with
          | None => Some (-1, db2, tx2, res_err res_clr "BAD_SQL" "unknown table")
          | Some i =>
              let* it := tx_tabs tx2 !! i in
              let a := match tt_work it with Some w => w | None => tt_base it end in
              let* (rc, db3, res) := exec_at db2 a stmt (set_snap_id res_clr (tx_snap tx2)) in
              Some (rc, db3, tx2, res)
          end
    end.

(** ** Garbage collection *)

Definition free_all (h : gmap addr TabVer) (ch : list addr) : gmap addr TabVer :=
  foldr delete h ch.

(** What [prune_tab] keeps of a chain and what it frees. *)
Fixpoint prune_walk (h : gmap addr TabVer) (keep_id : Z) (ch : list addr) : option (list addr * list addr) :=
  match ch with
  | [] => Some ([], [])
  | a :: ch' =>
      let* tab := h !! a in
      if keep_id <? ver_id tab then
        let* (kept, freed) := prune_walk h keep_id ch' in Some (a :: kept, freed)
      else Some ([a], ch')
  end.

Definition prune_tab (h : gmap addr TabVer) (e : TabEnt) (keep_id : Z) : option (TabEnt * gmap addr TabVer) :=
  if keep_id =? 0 then
    match chain e with
    | [] => Some (e, h)
    | a :: ch => Some (mkEnt (ent_name e) [a], free_all h ch)
    end
  else
    let* (kept, freed) := prune_walk h keep_id (chain e) in
    Some (mkEnt (ent_name e) kept, free_all h freed).

Fixpoint prune_all (h : gmap addr TabVer) (es : list TabEnt) (keep_id : Z)
    : option (list TabEnt * gmap addr TabVer) :=
  match es with
  | [] => Some ([], h)
  | e :: es' =>
      let* (e', h1) := prune_tab h e keep_id in
      let* (es2, h2) := prune_all h1 es' keep_id in
      Some (e' :: es2, h2)
  end.

(** The first half of [gc_tabs], outside [db->mu]. *)
Definition gc_keep (db : Db) : Z :=
  let st := mv_stat (mv db) in if 0 <? tx_live st then snap_min_out st else 0.

(** The second half, under [db->mu]. *)
Definition gc_prune (db : Db) (keep_id : Z) : option Db :=
  let* (es, h) := prune_all (heap db) (tabs db) keep_id in Some (set_tabs (set_heap db h) es).

Definition gc_tabs (db : Db) : option Db := gc_prune db (gc_keep db).

(** Release a snapshot and collect. *)
Definition release (db : Db) (snap : Z) : option Db := gc_tabs (set_mv db (mv_gc (mv db) snap)).

(** ** Commit and abort *)

(** The conflict check: is some dirty table no longer at its base? *)
Fixpoint conflict (db : Db) (its : list TxTab) : option bool :=
  match its with
  | [] => Some false
  | it :: its' =>
      if tt_dirty it then
        let* e := tx_ent db it in
        match chain e with
        | a :: _ => if (a =? tt_base it)%nat then conflict db its' else Some true
        | [] => Some true
        end
      else conflict db its'
  end.

(** The publication loop: the rest of the transaction after it, and whether every
    [tab_save] succeeded. *)
Fixpoint publish (db : Db) (ver : Z) (its : list TxTab) : option (bool * Db * list TxTab) :=
  match its with
  | [] => Some (true, db, [])
  | it :: its' =>
      if tt_dirty it then
        let* w := tt_work it in
        let* tab := heap db !! w in
        let* e := tx_ent db it in
        let tab' := set_ver_id tab ver in
        let db1 := set_tabs (set_heap db (<[w := tab']> (heap db)))
                     (<[tt_ent it := mkEnt (ent_name e) (w :: chain e)]> (tabs db)) in
        let '(saved, f) := tab_save (io_ok (io_cnt db1)) (fs db1) (root db1) tab' in
        let db2 := set_fs db1 f (S (io_cnt db1)) in
        if (saved : bool) then
          let* (ok, db3, its2) := publish db2 ver its' in
          Some (ok, db3, mkTxTab (tt_gen it) (tt_ent it) (tt_base it) None true :: its2)
        else Some (false, db2, it :: its')
      else
        let* (ok, db3, its2) := publish db ver its' in Some (ok, db3, it :: its2)
  end.

(** [db_commit]: on success the transaction object is gone ([tx_done]). *)
Definition db_commit (db : Db) (tx : DbTx) : option (Z * Db * DbTx) :=
  if tx_done tx then Some (-1, db, tx)
  else
    let* clash := conflict db (tx_tabs tx) in
    if (clash : bool) then Some (-1, db, tx)
    else
      let '(ver, m) := mv_bump (mv db) in
      let* (ok, db1, its) := publish (set_mv db m) ver (tx_tabs tx) in
      if (ok : bool) then
        let* db2 := release db1 (tx_snap tx) in
        Some (0, db2, mkTx (tx_snap tx) its true)
      else Some (-1, db1, set_tx_tabs tx its).

Definition free_work (h : gmap addr TabVer) (it : TxTab) : gmap addr TabVer :=
  match tt_work it with Some w => delete w h | None => h end.

Definition clear_work (it : TxTab) : TxTab := mkTxTab (tt_gen it) (tt_ent it) (tt_base it) None (tt_dirty it).

Definition db_abort (db : Db) (tx : DbTx) : option (Z * Db * DbTx) :=
  if tx_done tx then Some (-1, db, tx)
  else
    let* db1 := release (set_heap db (foldl free_work (heap db) (tx_tabs tx))) (tx_snap tx) in
    Some (0, db1, mkTx (tx_snap tx) (map clear_work (tx_tabs tx)) true).

(** ** Snapshots and reads *)

(** [db_snap]; 0 stands for NULL. *)
Definition db_snap (db : Db) : Z * Db :=
  let '(s, m) := mv_snap true (mv db) in (s, set_mv db m).

Definition db_done (db : Db) (snap : Z) : option Db := release db snap.

Definition do_read (db : Db) (snap : Z) (sql : cstr) : option (Z * Db * DbRes) :=
  match parse_ok db sql res_clr with
  | inr res => Some (-1, db, res)
  | inl stmt =>
      match stype stmt with
      | STMT_SELECT =>
          let* (ent, db1) := need_ent db (table_name stmt) in
          let* vis := (match ent with Some i => tab_vis db1 i snap | None => Some None end) in
          match vis with
          | None => Some (-1, db1, res_err res_clr "BAD_SQL" "unknown table")
          | Some a => exec_at db1 a stmt (set_snap_id res_clr snap)
          end
      | _ => Some (-1, db, res_err res_clr "BAD_SQL" "read path accepts SELECT only")
      end
  end.

Definition db_tab_ver (db : Db) (table : cstr) : option (Z * Db) :=
  match table with
  | [] => Some (0, db)
  | _ =>
      let* (ent, db1) := need_ent db table in
      match ent with
      | None => Some (0, db1)
      | Some i =>
          let* e := tabs db1 !! i in
          match chain e with
          | a :: _ => let* tab := heap db1 !! a in Some (ver_id tab, db1)
          | [] => Some (0, db1)
          end
      end
  end.

Definition db_mst (db : Db) : MvStat := mv_stat (mv db).

(** ** Single statements *)

Definition WRITE_RETRY_MAX : nat := 5.

(** [usleep] before retry [attempt], in microseconds. *)
Definition write_retry_delay (attempt : Z) : Z :=
  let shift := if attempt <? 10 then attempt else 10 in
  Z.min (Z.shiftl 1000 shift) 32000.

(** The attempts that are left; [res] is carried from one to the next. *)
Fixpoint write_loop (attempts : nat) (db : Db) (stmt : Statement) (res : DbRes)
    : option (Z * Db * DbRes) :=
  match attempts with
  | O => Some (-1, db, res_err res "TX_ABORT" "write conflict after retries")
  | S n =>
      let '(rc0, db0, tx0) := db_begin db in
      if negb (rc0 =? 0) then Some (-1, db0, res_err res "INT_ERR" "tx begin failed")
      else
        let* (item, db1, tx1) := tx_view db0 tx0 (table_name stmt) in
        match item with
        | None =>
            let* (_, db2, _) := db_abort db1 tx1 in
            Some (-1, db2, res_err res "BAD_SQL" "unknown table")
        | Some i =>
            let* (made, db2, tx2) := tx_make_work db1 tx1 item in
            if negb (made : bool) then
              let* (_, db3, _) := db_abort db2 tx2 in
              Some (-1, db3, res_err res "OOM" "out of memory")
            else
              let* it := tx_tabs tx2 !! i in
              let* w := tt_work it in
              let* (rc, db3, res1) := exec_at db2 w stmt res in
              let* (rc2, db4, tx4) := (if rc =? 0 then db_commit db3 tx2 else Some (-1, db3, tx2)) in
              if rc2 =? 0 then Some (0, db4, res1)
              else
                let* (_, db5, _) := db_abort db4 tx4 in
                match err_code res1 with
                | [] => write_loop n db5 stmt res1
                | _ => Some (-1, db5, res1)
                end
        end
  end.

Definition db_exec (db : Db) (sql : cstr) : option (Z * Db * DbRes) :=
  match parse_ok db sql res_clr with
  | inr res => Some (-1, db, res)
  | inl stmt =>
      match stype stmt with
      | STMT_SELECT =>
          let '(s, db1) := db_snap db in
          if s =? 0 then Some (-1, db1, res_err res_clr "OOM" "out of memory")
          else
            let* (rc, db2, res) := do_read db1 s sql in
            let* db3 := db_done db2 s in
            Some (rc, db3, res)
      | _ => write_loop (S WRITE_RETRY_MAX) db stmt res_clr
      end
  end.

(** ** Batches *)

(** The statements of a transactional batch, up to the first that fails. *)
Fixpoint batch_tx (db : Db) (tx : DbTx) (sqls : list cstr) : option (bool * Db * DbTx * list DbRes) :=
  match sqls with
  | [] => Some (true, db, tx, [])
  | sql :: sqls' =>
      let* (rc, db1, tx1, res) := db_txdo db tx sql in
      if rc =? 0 then
        let* (ok, db2, tx2, rs) := batch_tx db1 tx1 sqls' in Some (ok, db2, tx2, res :: rs)
      else
        Some (false, db1, tx1,
              mkRes (res_rows res) (count res) (last_id res) (snap_id res) (lit "TX_ABORT")
                (match err_msg res with [] => lit "query failed" | m => take 255 m end)
                :: map (fun _ => res_clr) sqls')
  end.

(** The error of a failed commit goes to the last result. *)
Definition commit_failed (rs : list DbRes) : list DbRes :=
  match rs with
  | [] => []
  | _ => removelast rs ++ [res_err (List.last rs res_clr) "TX_ABORT" "commit failed"]
  end.

Fixpoint batch_plain (db : Db) (sqls : list cstr) : option (Db * list DbRes) :=
  match sqls with
  | [] => Some (db, [])
  | sql :: sqls' =>
      let* (rc, db1, res) := db_exec db sql in
      let res' := if negb (rc =? 0) && bool_decide (err_code res = [])
                  then res_err res "BAD_SQL" "query failed" else res in
      let* (db2, rs) := batch_plain db1 sqls' in Some (db2, res' :: rs)
  end.

Definition db_batch (db : Db) (sqls : list cstr) (in_tx : bool) : option (Z * Db * list DbRes) :=
  match sqls with
  | [] => Some (0, db, [])
  | _ =>
      if max_qry db <? Z.of_nat (length sqls) then Some (-1, db, [])
      else if in_tx then
        let '(rc0, db0, tx0) := db_begin db in
        if negb (rc0 =? 0) then Some (-1, db0, [])
        else
          let* (ok, db1, tx1, rs) := batch_tx db0 tx0 sqls in
          if negb (ok : bool) then let* (_, db2, _) := db_abort db1 tx1 in Some (-1, db2, rs)
          else
            let* (rc, db2, tx2) := db_commit db1 tx1 in
            if rc =? 0 then Some (0, db2, rs)
            else let* (_, db3, _) := db_abort db2 tx2 in Some (-1, db3, commit_failed rs)
      else let* (db1, rs) := batch_plain db sqls in Some (0, db1, rs)
  end.
End db.
