(* ===== verification/DbProofs.v ===== *)
(** Version chains: which version a snapshot sees, and what garbage collection
    keeps. *)

From S2P Require Import Prelude CString Mvcc Parser Values Table TableProofs InsertProofs Store Db.
From stdpp Require Import base numbers list option gmap.
Local Open Scope Z_scope.

(** ** Chains *)

(** A chain from [head]: well-formed tables in the heap, with strictly decreasing
    versions in [1, hi]. *)
Fixpoint chain_good (h : gmap addr TabVer) (nm : cstr) (hi : Z) (ch : list addr) : Prop :=
  match ch with
  | [] => True
  | a :: ch' =>
      ∃ t, h !! a = Some t ∧ 1 ≤ ver_id t ≤ hi ∧ name t = nm ∧ tab_ok t ∧ next_ok t ∧
           chain_good h nm (ver_id t - 1) ch'
  end.

Lemma chain_good_mono h nm hi hi' ch : chain_good h nm hi ch → hi ≤ hi' → chain_good h nm hi' ch.
Proof.
  destruct ch as [|a ch]; simpl; [done|]. intros (t & H1 & H2 & H3) Hle. exists t.
  split; [done|]. split; [lia|done].
Qed.

Lemma chain_good_heap h h' nm hi ch :
  (∀ a, a ∈ ch → h' !! a = h !! a) → chain_good h nm hi ch → chain_good h' nm hi ch.
Proof.
  revert hi; induction ch as [|a ch IH]; intros hi Ha; simpl; [done|].
  intros (t & H1 & H2 & H3 & H4 & H5 & H6). exists t. rewrite Ha by by left. split_and!; try done; try lia.
  apply IH; [|done]. intros b Hb. apply Ha. by right.
Qed.

Lemma chain_good_prefix h nm hi k f : chain_good h nm hi (k ++ f) → chain_good h nm hi k.
Proof.
  revert hi; induction k as [|a k IH]; intros hi; simpl; [done|].
  intros (t & H1 & H2 & H3 & H4 & H5 & H6). exists t. split_and!; try done; try lia. by apply IH.
Qed.

Lemma chain_good_in h nm hi ch a :
  chain_good h nm hi ch → a ∈ ch → ∃ t, h !! a = Some t ∧ 1 ≤ ver_id t ≤ hi ∧ tab_ok t ∧ next_ok t ∧ name t = nm.
Proof.
  revert hi; induction ch as [|b ch IH]; intros hi; simpl; [by intros _ ?%not_elem_of_nil|].
  intros (t & H1 & H2 & H3 & H4 & H5 & H6) [->|Hin]%elem_of_cons; [by exists t|].
  destruct (IH _ H6 Hin) as (t' & ? & ? & ? & ? & ?). exists t'. split_and!; (done || lia).
Qed.

Lemma vis_walk_heap h h' s ch : (∀ a, a ∈ ch → h' !! a = h !! a) → vis_walk h' s ch = vis_walk h s ch.
Proof.
  induction ch as [|a ch IH]; intros Ha; simpl; [done|]. rewrite Ha by by left.
  destruct (h !! a); [|done]. destruct (_ <? _); [|done]. apply IH. intros b Hb. apply Ha. by right.
Qed.

(** Looking a snapshot up follows no dangling pointer. *)
Lemma vis_walk_good h nm hi s ch :
  chain_good h nm hi ch →
  ∃ r, vis_walk h s ch = Some r ∧
    match r with Some a => a ∈ ch ∧ ∃ t, h !! a = Some t ∧ ver_id t ≤ s | None => True end.
Proof.
  revert hi; induction ch as [|a ch IH]; intros hi; simpl; [intros _; by exists None|].
  intros (t & H1 & H2 & H3 & H4 & H5 & H6). rewrite H1. destruct (Z.ltb_spec s (ver_id t)).
  - destruct (IH _ H6) as (r & E & Hr). exists r. split; [done|]. destruct r; [|done].
    destruct Hr as [? ?]. split; [by right|done].
  - exists (Some a). split; [done|]. split; [by left|]. exists t. by split.
Qed.

(** A snapshot taken now sees the head. *)
Lemma vis_walk_head h nm hi s a ch :
  chain_good h nm hi (a :: ch) → hi ≤ s → vis_walk h s (a :: ch) = Some (Some a).
Proof.
  simpl. intros (t & H1 & H2 & _) Hle. rewrite H1. by rewrite (proj2 (Z.ltb_ge _ _)) by lia.
Qed.

(** A version newer than the snapshot hides nothing. *)
Lemma vis_walk_newer h s w t ch :
  h !! w = Some t → s < ver_id t → vis_walk h s (w :: ch) = vis_walk h s ch.
Proof. simpl. intros -> H. by rewrite (proj2 (Z.ltb_lt _ _)). Qed.

(** ** Pruning *)

Lemma prune_walk_spec h nm hi keep ch :
  chain_good h nm hi ch →
  ∃ kept freed, prune_walk h keep ch = Some (kept, freed) ∧ ch = kept ++ freed ∧
    (ch ≠ [] → kept ≠ []) ∧ ∀ s, keep ≤ s → vis_walk h s kept = vis_walk h s ch.
Proof.
  revert hi; induction ch as [|a ch IH]; intros hi; simpl; [intros _; exists [], []; by split_and!|].
  intros (t & H1 & H2 & H3 & H4 & H5 & H6). rewrite H1. destruct (Z.ltb_spec keep (ver_id t)).
  - destruct (IH _ H6) as (kept & freed & -> & -> & _ & Hv). exists (a :: kept), freed.
    split_and!; [done|done|done|]. intros s Hs. simpl. rewrite H1. destruct (_ <? _); auto.
  - exists [a], ch. split_and!; [done|done|done|]. intros s Hs. simpl. rewrite H1.
    by rewrite (proj2 (Z.ltb_ge _ _)) by lia.
Qed.

(** What pruning at [keep] makes of an entry; at 0 only the head stays. *)
Record pruned (h : gmap addr TabVer) (keep : Z) (e e' : TabEnt) : Prop := {
  pr_name : ent_name e' = ent_name e;
  pr_ne : chain e' ≠ [];
  pr_prefix : ∃ freed, chain e = chain e' ++ freed;
  pr_vis : keep ≠ 0 → ∀ s, keep ≤ s → vis_walk h s (chain e') = vis_walk h s (chain e);
}.

Lemma free_all_lookup h ch a : free_all h ch !! a = if decide (a ∈ ch) then None else h !! a.
Proof.
  unfold free_all. induction ch as [|b ch IH]; simpl; [done|].
  destruct (decide (a = b)) as [->|Hne].
  - rewrite lookup_delete_eq. by rewrite decide_True by by left.
  - rewrite lookup_delete_ne by done. rewrite IH. destruct (decide (a ∈ ch)).
    + by rewrite decide_True by by right.
    + rewrite decide_False; [done|]. by intros [?|?]%elem_of_cons.
Qed.

Lemma prune_tab_spec h hi keep e :
  chain_good h (ent_name e) hi (chain e) → chain e ≠ [] → NoDup (chain e) →
  ∃ e' h', prune_tab h e keep = Some (e', h') ∧ pruned h keep e e' ∧
    (∀ a, a ∉ chain e → h' !! a = h !! a) ∧ (∀ a, a ∈ chain e' → h' !! a = h !! a).
Proof.
  intros Hg Hne Hnd. unfold prune_tab.
  assert (∀ kept freed, chain e = kept ++ freed →
    (∀ a, a ∉ chain e → free_all h freed !! a = h !! a) ∧ (∀ a, a ∈ kept → free_all h freed !! a = h !! a)) as Hfree.
  { intros kept freed E. rewrite E in Hnd. apply NoDup_app in Hnd as (_ & Hd & _). split; intros a Ha; rewrite free_all_lookup.
    - destruct (decide (a ∈ freed)); [|done]. contradict Ha. rewrite E. apply elem_of_app. by right.
    - destruct (decide (a ∈ freed)) as [Hf|]; [|done]. by apply Hd in Hf. }
  destruct (Z.eqb_spec keep 0) as [->|Hk].
  - destruct (chain e) as [|a ch] eqn:Ec; [done|]. exists (mkEnt (ent_name e) [a]), (free_all h ch).
    split; [done|]. split; [|by apply Hfree]. split; simpl; try done. exists ch. by rewrite Ec.
  - destruct (prune_walk_spec h _ _ keep _ Hg) as (kept & freed & -> & Hch & Hkne & Hv).
    exists (mkEnt (ent_name e) kept), (free_all h freed). split; [done|]. split; [|by apply Hfree].
    split; simpl; [done|auto|by exists freed|auto].
Qed.

Definition all_addrs (es : list TabEnt) : list addr := flat_map chain es.

Lemma elem_of_all_addrs es a : a ∈ all_addrs es ↔ ∃ e, e ∈ es ∧ a ∈ chain e.
Proof.
  unfold all_addrs. rewrite list_elem_of_In, in_flat_map.
  split; intros (e & H1 & H2); exists e; by rewrite !list_elem_of_In in *.
Qed.

Lemma pruned_heap h h' keep e e' :
  (∀ a, a ∈ chain e → h' !! a = h !! a) → pruned h' keep e e' → pruned h keep e e'.
Proof.
  intros Ha [P1 P2 [freed P3] P4]. split; [done|done|by exists freed|]. intros Hk s Hs.
  specialize (P4 Hk s Hs). rewrite !(vis_walk_heap h h') in P4; [done|done|].
  intros a Hin. apply Ha. rewrite P3. apply elem_of_app. by left.
Qed.

Lemma all_addrs_pruned h keep es es' a :
  Forall2 (pruned h keep) es es' → a ∈ all_addrs es' → a ∈ all_addrs es.
Proof.
  induction 1 as [|e e' es es' [_ _ [freed Hp] _] _ IH]; [done|]. simpl.
  intros [Ha|Ha]%elem_of_app; apply elem_of_app; [|by right; apply IH].
  left. rewrite Hp. apply elem_of_app. by left.
Qed.

Lemma Forall2_impl_in {A B} (P Q : A → B → Prop) l k :
  (∀ x y, x ∈ l → P x y → Q x y) → Forall2 P l k → Forall2 Q l k.
Proof.
  intros HPQ H. induction H as [|x y l k Hxy H IH]; constructor.
  - apply HPQ; [by left|done].
  - apply IH. intros x' y' Hin. apply HPQ. by right.
Qed.

Lemma prune_all_spec h hi keep es :
  Forall (fun e => chain_good h (ent_name e) hi (chain e) ∧ chain e ≠ []) es → NoDup (all_addrs es) →
  ∃ es' h', prune_all h es keep = Some (es', h') ∧ Forall2 (pruned h keep) es es' ∧
    (∀ a, a ∉ all_addrs es → h' !! a = h !! a) ∧ (∀ a, a ∈ all_addrs es' → h' !! a = h !! a).
Proof.
  revert h; induction es as [|e es IH]; intros h Hg Hnd.
  - exists [], h. split; [done|]. split; [constructor|]. by split.
  - apply Forall_cons_1 in Hg as [[Hg Hne] Hgs]. simpl in Hnd. apply NoDup_app in Hnd as (Hn1 & Hd & Hn2).
    destruct (prune_tab_spec h hi keep e Hg Hne Hn1) as (e' & h1 & E1 & Hp & Ho & Hi).
    assert (∀ a, a ∈ all_addrs es → h1 !! a = h !! a) as Hag.
    { intros a Ha. apply Ho. intros Hin. by apply (Hd a) in Hin. }
    destruct (IH h1) as (es' & h2 & E2 & Hps & Ho2 & Hi2); [|done|].
    { rewrite Forall_forall in Hgs. apply Forall_forall. intros e0 Hin. destruct (Hgs e0 Hin) as [H1 H2].
      split; [|done]. eapply chain_good_heap; [|exact H1].
      intros a Ha. apply Hag, elem_of_all_addrs. by exists e0. }
    simpl. rewrite E1, E2. exists (e' :: es'), h2. split; [done|].
    destruct Hp as [P1 P2 [freed P3] P4].
    assert (∀ a, a ∈ chain e' → a ∉ all_addrs es) as Hd'.
    { intros a Ha. apply Hd. rewrite P3. apply elem_of_app. by left. }
    split_and!.
    + constructor; [split; [done|done|by exists freed|done]|].
      eapply Forall2_impl_in; [|exact Hps]. intros x y Hx. apply pruned_heap. intros a Ha.
      apply Hag, elem_of_all_addrs. by exists x.
    + intros a Ha. rewrite Ho2, Ho; [done| |]; intros Hin; apply Ha, elem_of_app; auto.
    + intros a [Ha|Ha]%elem_of_app.
      * rewrite Ho2 by by apply Hd'. by apply Hi.
      * rewrite Hi2 by done. apply Hag. by eapply all_addrs_pruned.
Qed.
