(* ===== verification/Isolation.v ===== *)
(** Interleaved clients of the database: transactions and readers as a step
    relation, its invariant, and what a live snapshot sees.

    A client operation takes [db->mu] for its accesses to the table list and the
    version chains, and works on its own working copies outside it; the clock
    has its own lock.  A step of the relation is one client operation. *)

From Stdlib Require Import String.
From S2P Require Import Prelude CString Mvcc Parser Values Table TableProofs InsertProofs WriteProofs.
From S2P Require Import ParserProofs Store StoreProofs Db DbProofs.
From stdpp Require Import base numbers list option gmap.
Local Open Scope Z_scope.

(** ** Loading checks its file *)

Lemma last_pk_spec i cs acc p :
  last_pk i cs acc = Some p →
  acc = Some p ∨ ∃ c, (i ≤ p)%nat ∧ cs !! (p - i)%nat = Some c ∧ col_type c = COL_PK.
Proof.
  revert i acc; induction cs as [|c cs IH]; intros i acc; simpl; [by left|].
  intros H. apply IH in H as [H|(c' & H1 & H2 & H3)].
  - destruct (col_type c) eqn:E; auto. injection H as <-. right. exists c. rewrite Nat.sub_diag. by split_and!.
  - right. exists c'. split; [lia|]. split; [|done]. by replace (p - i)%nat with (S (p - S i)) by lia.
Qed.

Lemma load_hdr_schema nm line tab : load_hdr nm line = Some tab → schema_ok tab ∧ rows tab = [] ∧ name tab = nm ∧
  next_id tab = 1 ∧ row_cap tab = 0 ∧ row_alloc tab = 0.
Proof.
  unfold load_hdr. destruct (MAX_UKS <? _)%nat; [done|]. intros [= <-]. split; [|done].
  pose proof (split_csv_length line MAX_COLS RECORD_SIZE) as Hl. split; simpl.
  - unfold col_cnt. simpl. rewrite length_map. unfold MAX_COLS in *. lia.
  - destruct (last_pk _ _ _) as [p|] eqn:E; [|done]. apply last_pk_spec in E as [?|(c & _ & H & Hc)]; [done|].
    unfold type_at. simpl. rewrite Nat.sub_0_r in H. by rewrite H.
  - apply uk_columns_NoDup.
  - intros c. rewrite uk_columns_spec. unfold type_at. simpl. rewrite Nat.sub_0_r. split.
    + intros (x & _ & -> & Hx). done.
    + destruct (_ !! c) as [x|]; [|done]. intros Hx. exists x. split_and!; (done || lia).
Qed.

(** What holds of a table while its lines are read. *)
Record loaded (tab0 tab : TabVer) : Prop := {
  ld2_schema : same_schema tab0 tab;
  ld2_rows : Forall (fun r => length r = col_cnt tab0) (rows tab);
  ld2_alloc : row_cnt tab ≤ row_alloc tab;
  ld2_cap : row_cap tab ≤ row_alloc tab;
  ld2_next : next_ok tab;
}.

Lemma grow_cap_le fuel cap need c : grow_cap fuel cap need = Some c → need ≤ c.
Proof.
  revert cap; induction fuel as [|fuel IH]; intros cap; simpl; destruct (Z.leb_spec need cap);
    try (by intros [= <-]). destruct (_ <? cap); [done|]. apply IH.
Qed.

Lemma ensure_row_cap_le tab need cap alloc :
  row_cap tab ≤ row_alloc tab → ensure_row_cap tab need = Some (cap, alloc) → need ≤ cap ∧ cap ≤ alloc.
Proof.
  unfold ensure_row_cap. intros Hc. destruct (Z.leb_spec need (row_cap tab)); [intros [= <- <-]; lia|].
  destruct (grow_cap _ _ _) as [c|] eqn:E; simpl; [|done]. intros [= <- <-]. apply grow_cap_le in E. lia.
Qed.

Lemma load_row_loaded tab0 tab line tab' : loaded tab0 tab → load_row tab line = Some tab' → loaded tab0 tab'.
Proof.
  intros [[S1 S2 S3 S4] Hr Ha Hc Hn]. unfold load_row. destruct (negb _) eqn:El; [done|].
  apply negb_false_iff, Nat.eqb_eq in El.
  destruct (ensure_row_cap tab (row_cnt tab + 1)) as [[cap alloc]|] eqn:Ec; simpl; [|done].
  apply ensure_row_cap_le in Ec as [H1 H2]; [|done].
  assert (∀ nid, LONG_MIN ≤ nid ≤ LONG_MAX → loaded tab0
    (set_next_id (set_rows tab (rows tab ++ [map trim_uq (split_csv line MAX_COLS RECORD_SIZE)]) cap alloc) nid)) as Hl.
  { intros nid Hnid. split; simpl; try done.
    - apply Forall_app. split; [done|]. apply Forall_singleton. rewrite length_map, El. unfold col_cnt. by rewrite S2.
    - unfold row_cnt in *. simpl. rewrite length_app. simpl. lia. }
  destruct (pk_idx tab) as [p|]; [|intros [= <-]; by apply Hl].
  destruct (parse_l _) as [key|] eqn:Ek; [|done]. intros [= <-]. apply Hl.
  apply parse_l_range in Ek. destruct (_ <=? key); [by apply long_succ_range|done].
Qed.

Lemma load_rows_loaded tab0 fuel tab s tab' : loaded tab0 tab → load_rows fuel tab s = Some tab' → loaded tab0 tab'.
Proof.
  revert tab s; induction fuel as [|fuel IH]; intros tab s Hl; destruct s as [|c s]; simpl;
    try (by intros [= <-]).
  destruct (if c =? NL then _ else _) as [l s']. destruct (cut_nl l) as [|c1 line]; [by apply IH|].
  destruct (load_row tab (c1 :: line)) as [tab1|] eqn:E; simpl; [|done]. apply IH. by eapply load_row_loaded.
Qed.

(** Whatever the file holds, a table that [tab_load] accepts is well formed. *)
Lemma tab_load_ok f dir nm tab :
  tab_load f dir nm = Some (Some tab) → tab_ok tab ∧ next_ok tab ∧ name tab = nm ∧ ver_id tab = 1 ∧ cap_ok tab.
Proof.
  unfold tab_load. destruct (f !! _) as [[|c s]|]; [done| |done].
  destruct (fgets _ _) as [line s']. destruct (load_hdr nm line) as [tab0|] eqn:Eh; [|done].
  apply load_hdr_schema in Eh as (Hs & Hr & Hnm & Hn & Hc & Ha).
  destruct (load_rows _ _ _) as [tab1|] eqn:El; [|done].
  assert (loaded tab0 tab1) as [[S1 S2 S3 S4] Hr1 Ha1 Hc1 Hn1].
  { eapply load_rows_loaded; [|exact El]. split; [done|by rewrite Hr| | |].
    - unfold row_cnt. rewrite Hr, Ha. simpl. lia.
    - lia.
    - unfold next_ok. rewrite Hn. unfold LONG_MIN, LONG_MAX. lia. }
  destruct (idx_build_ok tab1) as (ok & tab2 & E2 & _ & (pk' & uks' & ->) & Hok2).
  - eapply schema_ok_ext; [..|exact Hs]; done.
  - unfold col_cnt. rewrite S2. exact Hr1.
  - done.
  - rewrite E2. destruct ok; [|done]. intros [= <-]. specialize (Hok2 eq_refl).
    destruct Hok2 as [K1 K2 K3 K4]. split_and!; try done; [|by rewrite <- Hnm].
    split; [by destruct K1|done|done|exact K4].
Qed.

(** ** Statements keep tables well formed *)

(** What a statement needs on the table it writes: an INSERT needs a PK, values
    within the 256 bytes of the integer parser, and a row array with the room
    its capacity promises (a DELETE earlier in the transaction breaks that). *)
Definition safe_stmt (tab : TabVer) (stmt : Statement) : Prop :=
  stype stmt = STMT_INSERT →
  cap_ok tab ∧ pk_idx tab ≠ None ∧ Forall (fun v => (length v < 256)%nat) (ins_vals stmt).

Lemma exec_stmt_ok tab stmt res tab' res' :
  tab_ok tab → next_ok tab → safe_stmt tab stmt → count res = 0 →
  exec_stmt tab stmt res = Some (0, tab', res') →
  tab_ok tab' ∧ next_ok tab' ∧ same_schema tab tab'.
Proof.
  unfold exec_stmt, safe_stmt. intros Hok Hn Hsafe Hc. destruct (stype stmt).
  - destruct (Hsafe eq_refl) as (H1 & H2 & H3).
    destruct (ins_do_spec tab stmt res Hok H1 Hn H2 H3) as (rc & t & r & -> & Ht & _ & Hnt & Hs & _).
    by intros [= -> <- <-].
  - destruct (sel_do tab stmt res) as [[rc r]|]; [|done]. by intros [= -> <- <-].
  - destruct (where_conditions stmt) as [|c cs] eqn:Ew.
    + unfold del_do. rewrite Ew. done.
    + destruct (del_do_spec tab stmt res Hok) as (t & -> & Hs & Ht & Hnn & _); [by rewrite Ew|done|].
      intros [= <- <-]. split_and!; [done| |done]. unfold next_ok. by rewrite Hnn.
  - destruct (upd_do_spec tab stmt res Hok Hc) as (rc & t & r & -> & Hs & H). intros [= -> <- <-].
    destruct (upd_target tab stmt) as [[idx v]|].
    + destruct H as (_ & H & _). destruct (H eq_refl) as (Ht & _ & _ & Hnn & _).
      split_and!; [done| |done]. unfold next_ok. by rewrite Hnn.
    + by destruct H.
  - done.
Qed.

(** ** The invariant of the database *)

Record db_ok (db : Db) : Prop := {
  do_mv : mv_ok (mv db);
  do_brk : ∀ a t, heap db !! a = Some t → (a < brk db)%nat;
  do_chains : Forall (fun e => chain_good (heap db) (ent_name e) (cur_ver (mv db)) (chain e) ∧ chain e ≠ []) (tabs db);
  do_disj : NoDup (all_addrs (tabs db));
}.

(** What the snapshots of [live] see is the same in [db] and [db']; entries stay
    at their index. *)
Definition same_view (live : list Z) (db db' : Db) : Prop :=
  ∀ i e, tabs db !! i = Some e →
    ∃ e', tabs db' !! i = Some e' ∧ ent_name e' = ent_name e ∧
      ∀ s, s ∈ live → ∃ r, vis_walk (heap db) s (chain e) = Some r ∧ vis_walk (heap db') s (chain e') = Some r ∧
        ∀ a, r = Some a → heap db' !! a = heap db !! a.

Lemma db_ok_chain db i e :
  db_ok db → tabs db !! i = Some e →
  chain_good (heap db) (ent_name e) (cur_ver (mv db)) (chain e) ∧ chain e ≠ [].
Proof. intros H Hi. exact (Forall_lookup_1 _ _ _ _ (do_chains _ H) Hi). Qed.

Lemma chain_in_all db i e a : tabs db !! i = Some e → a ∈ chain e → a ∈ all_addrs (tabs db).
Proof. intros Hi Ha. apply elem_of_all_addrs. exists e. split; [by eapply list_elem_of_lookup_2|done]. Qed.

(** Changes outside the chains, and new entries, change nobody's view. *)
Lemma same_view_heap live db db' :
  db_ok db → (∀ i e, tabs db !! i = Some e → tabs db' !! i = Some e) →
  (∀ a, a ∈ all_addrs (tabs db) → heap db' !! a = heap db !! a) →
  same_view live db db'.
Proof.
  intros Hok Ht Hh i e Hi. exists e. split; [auto|]. split; [done|]. intros s _.
  destruct (db_ok_chain db i e Hok Hi) as [Hg _].
  destruct (vis_walk_good _ _ _ s _ Hg) as (r & E & Hr). exists r. split; [done|].
  rewrite (vis_walk_heap (heap db)) by (intros a Ha; apply Hh; by eapply chain_in_all).
  split; [done|]. intros a ->. apply Hh. destruct Hr. by eapply chain_in_all.
Qed.

Lemma same_view_trans live db1 db2 db3 :
  same_view live db1 db2 → same_view live db2 db3 → same_view live db1 db3.
Proof.
  intros H12 H23 i e Hi. destruct (H12 i e Hi) as (e2 & Hi2 & En2 & Hv2).
  destruct (H23 i e2 Hi2) as (e3 & Hi3 & En3 & Hv3). exists e3. split; [done|]. split; [congruence|].
  intros s Hs. destruct (Hv2 s Hs) as (r & E1 & E2 & Ha). destruct (Hv3 s Hs) as (r' & E2' & E3 & Hb).
  rewrite E2 in E2'. injection E2' as <-. exists r. split_and!; [done|done|].
  intros a Hr. rewrite Hb by done. by apply Ha.
Qed.

(** Frame: a change of the heap outside the chains. *)
Lemma db_ok_frame db db' :
  db_ok db → mv db' = mv db → tabs db' = tabs db →
  (∀ a, a ∈ all_addrs (tabs db) → heap db' !! a = heap db !! a) →
  (∀ a t, heap db' !! a = Some t → (a < brk db')%nat) → db_ok db'.
Proof.
  intros [H1 H2 H3 H4] Em Et Hh Hb. split; rewrite ?Em, ?Et; try done.
  apply Forall_forall. intros e He. rewrite Forall_forall in H3. destruct (H3 e He) as [Hg Hne].
  split; [|done]. eapply chain_good_heap; [|exact Hg]. intros a Ha. apply Hh, elem_of_all_addrs. by exists e.
Qed.

Lemma all_addrs_heap db a : db_ok db → a ∈ all_addrs (tabs db) → ∃ t, heap db !! a = Some t.
Proof.
  intros Hok (e & He & Ha)%elem_of_all_addrs. pose proof (do_chains _ Hok) as H. rewrite Forall_forall in H.
  destruct (H e He) as [Hg _]. destruct (chain_good_in _ _ _ _ _ Hg Ha) as (t & Ht & _). by exists t.
Qed.

Lemma fresh_not_chain db : db_ok db → brk db ∉ all_addrs (tabs db).
Proof.
  intros Hok Hin. destruct (all_addrs_heap db _ Hok Hin) as (t & Ht). apply (do_brk _ Hok) in Ht. lia.
Qed.

(** ** Loading a table *)

Lemma all_addrs_app es1 es2 : all_addrs (es1 ++ es2) = all_addrs es1 ++ all_addrs es2.
Proof. apply flat_map_app. Qed.

Lemma need_ent_spec db nm r db' :
  db_ok db → need_ent db nm = Some (r, db') →
  db_ok db' ∧ mv db' = mv db ∧ (∀ live, same_view live db db') ∧
  (∀ a, (a < brk db)%nat → heap db' !! a = heap db !! a) ∧ (brk db ≤ brk db')%nat ∧
  (∀ a, a ∈ all_addrs (tabs db') → a ∈ all_addrs (tabs db) ∨ a = brk db) ∧
  match r with Some i => ∃ e, tabs db' !! i = Some e ∧ ent_name e = nm | None => db' = db end.
Proof.
  intros Hok. unfold need_ent. destruct (get_ent db nm) as [i|] eqn:Eg.
  { intros [= <- <-]. split_and!; try done.
    - intros live. by apply same_view_heap.
    - by left.
    - unfold get_ent in Eg. apply find_index_Some in Eg as (e & _ & Hi & He). rewrite Nat.sub_0_r in Hi.
      exists e. split; [done|]. by apply streq_true in He. }
  destruct (tab_load (fs db) (root db) nm) as [[tab|]|] eqn:El; [| |done].
  2:{ intros [= <- <-]. split_and!; try done; [|by left]. intros live. by apply same_view_heap. }
  apply tab_load_ok in El as (Ht & Hn & Hnm & Hv & _). simpl. intros [= <- <-].
  pose proof (fresh_not_chain db Hok) as Hfresh. pose proof Hok as [H1 H2 H3 H4].
  assert (∀ a, (a < brk db)%nat → (<[brk db := tab]> (heap db)) !! a = heap db !! a) as Hlt.
  { intros a Ha. rewrite lookup_insert_ne; [done|lia]. }
  assert (∀ a, a ∈ all_addrs (tabs db) → (<[brk db := tab]> (heap db)) !! a = heap db !! a) as Hch.
  { intros a Ha. rewrite lookup_insert_ne; [done|]. intros <-. done. }
  split_and!; simpl; try done; try lia.
  - split; simpl; [done| | |].
    + intros a t Ha. destruct (decide (a = brk db)) as [->|Hne]; [lia|].
      rewrite lookup_insert_ne in Ha by done. apply H2 in Ha. lia.
    + apply Forall_app. split.
      * apply Forall_forall. intros e He. rewrite Forall_forall in H3. destruct (H3 e He) as [Hg Hne].
        split; [|done]. eapply chain_good_heap; [|exact Hg]. intros a Ha. apply Hch, elem_of_all_addrs. by exists e.
      * apply Forall_singleton. split; [|done]. simpl. exists tab. rewrite lookup_insert_eq.
        pose proof (mo_ver _ H1). split_and!; try done; lia.
    + rewrite all_addrs_app. apply NoDup_app. split; [done|]. split; [|apply NoDup_singleton].
      intros a Ha ->%list_elem_of_singleton. done.
  - intros live. apply same_view_heap; simpl; [done| |done]. intros i e Hi.
    rewrite lookup_app_l; [done|]. by apply lookup_lt_Some in Hi.
  - intros a. rewrite all_addrs_app, elem_of_app. intros [?|Ha]; [by left|right].
    by apply list_elem_of_singleton in Ha.
  - exists (mkEnt nm [brk db]). split; [|done]. by rewrite lookup_app_r, Nat.sub_diag by lia.
Qed.

(** ** Transactions in progress *)

(** An item of a transaction: its entry, the base its snapshot sees, and a
    working copy that is well formed unless a statement has failed. *)
Record item_ok (db : Db) (snap : Z) (failed : bool) (it : TxTab) : Prop := {
  io_gen : tt_gen it = tabs_gen db;
  io_ent : ∃ e, tabs db !! tt_ent it = Some e ∧
    vis_walk (heap db) snap (chain e) = Some (Some (tt_base it)) ∧
    match tt_work it with
    | Some w => ∃ t, heap db !! w = Some t ∧ (failed = false → name t = ent_name e ∧ tab_ok t ∧ next_ok t)
    | None => tt_dirty it = false
    end;
}.

(** An open transaction; the flag says that one of its statements has failed, so
    that its client will abort it. *)
Definition tx_good (db : Db) (tf : DbTx * bool) : Prop :=
  tx_done (fst tf) = false ∧ Forall (item_ok db (tx_snap (fst tf)) (snd tf)) (tx_tabs (fst tf)) ∧
  NoDup (tt_ent <$> tx_tabs (fst tf)).

(** The addresses of the working copies. *)
Definition works (tx : DbTx) : list addr := omap tt_work (tx_tabs tx).

Lemma elem_of_works tx w : w ∈ works tx ↔ ∃ it, it ∈ tx_tabs tx ∧ tt_work it = Some w.
Proof. unfold works. by rewrite list_elem_of_omap. Qed.

Lemma item_ok_frame live db db' snap f it :
  same_view live db db' → snap ∈ live → tabs_gen db' = tabs_gen db →
  (∀ w, tt_work it = Some w → heap db' !! w = heap db !! w) →
  item_ok db snap f it → item_ok db' snap f it.
Proof.
  intros Hv Hs Hg Hw [H1 (e & He & Hvis & Hwk)]. split; [by rewrite Hg|].
  destruct (Hv _ e He) as (e' & He' & Hn & Hsee). destruct (Hsee snap Hs) as (r & E1 & E2 & _).
  rewrite E1 in Hvis. injection Hvis as ->. exists e'. split; [done|]. split; [done|].
  destruct (tt_work it) as [w|] eqn:Ew; [|done]. rewrite (Hw w) by done. by rewrite Hn.
Qed.

Lemma tx_good_frame live db db' tf :
  same_view live db db' → tx_snap (fst tf) ∈ live → tabs_gen db' = tabs_gen db →
  (∀ w, w ∈ works (fst tf) → heap db' !! w = heap db !! w) → tx_good db tf → tx_good db' tf.
Proof.
  intros Hv Hs Hg Hw (H1 & H2 & H3). split; [done|]. split; [|done].
  apply Forall_forall. intros it Hin. rewrite Forall_forall in H2. eapply item_ok_frame; [done|done|done| |by apply H2].
  intros w Ew. apply Hw, elem_of_works. by exists it.
Qed.

(** A failed transaction is weaker. *)
Lemma tx_good_fail db tx f : tx_good db (tx, f) → tx_good db (tx, true).
Proof.
  intros (H1 & H2 & H3). split; [done|]. split; [|done]. eapply Forall_impl; [exact H2|].
  intros it [G (e & He & Hv & Hw)]. split; [done|]. exists e. split; [done|]. split; [done|].
  destruct (tt_work it); [|done]. destruct Hw as (t & Ht & _). exists t. by split.
Qed.

Lemma tx_tab_spec db nm i its r :
  tx_tab db nm i its = Some r →
  match r with
  | Some j => (i ≤ j)%nat ∧ ∃ it, its !! (j - i)%nat = Some it
  | None => ∀ it, it ∈ its → ∃ e, tx_ent db it = Some e ∧ ent_name e ≠ nm
  end.
Proof.
  revert i; induction its as [|it its IH]; intros i; simpl; [intros [= <-]; by intros ? ?%not_elem_of_nil|].
  destruct (tx_ent db it) as [e|] eqn:Ee; [|done]. destruct (streq (ent_name e) nm) eqn:Es.
  - intros [= <-]. split; [done|]. rewrite Nat.sub_diag. by exists it.
  - intros H. apply IH in H. destruct r as [j|].
    + destruct H as (H1 & it' & H2). split; [lia|]. exists it'. by replace (j - i)%nat with (S (j - S i)) by lia.
    + intros it' [->|Hin]%elem_of_cons; [|by apply H]. exists e. split; [done|]. by apply streq_false.
Qed.

(** The state after an operation, as far as others can tell: the table list only
    grows, nobody's view changes, and of the old heap only [own] changed. *)
Record calm (db db' : Db) (own : list addr) : Prop := {
  cm_ok : db_ok db';
  cm_mv : mv db' = mv db;
  cm_view : ∀ live, same_view live db db';
  cm_heap : ∀ a, (a < brk db)%nat → a ∉ own → heap db' !! a = heap db !! a;
  cm_brk : (brk db ≤ brk db')%nat;
  cm_addrs : ∀ a, a ∈ all_addrs (tabs db') → a ∈ all_addrs (tabs db) ∨ (brk db ≤ a < brk db')%nat;
}.

Lemma calm_refl db own : db_ok db → calm db db own.
Proof.
  intros H. split; try done; [|by left]. intros live. by apply same_view_heap.
Qed.

Lemma calm_trans db1 db2 db3 own : calm db1 db2 own → calm db2 db3 own → calm db1 db3 own.
Proof.
  intros [A1 A2 A3 A4 A5 A6] [B1 B2 B3 B4 B5 B6]. split; [done|congruence| | |lia|].
  - intros live. eapply same_view_trans; [apply A3|apply B3].
  - intros a Ha Hn. rewrite B4 by (done || lia). by apply A4.
  - intros a [H|H]%B6; [|right; lia]. apply A6 in H as [?|?]; [by left|right; lia].
Qed.

Lemma need_ent_calm db nm r db' :
  db_ok db → need_ent db nm = Some (r, db') → calm db db' [] ∧
  match r with Some i => ∃ e, tabs db' !! i = Some e ∧ ent_name e = nm | None => db' = db end.
Proof.
  intros Hok E. destruct (need_ent_spec db nm r db' Hok E) as (H1 & H2 & H3 & H4 & H5 & H6 & H7).
  split; [|done]. split; try done; [by intros; apply H4|].
  intros a Ha. destruct (H6 a Ha) as [?| ->]; [by left|right]. split; [done|].
  destruct (all_addrs_heap db' _ H1 Ha) as (t & Ht). by apply (do_brk _ H1) in Ht.
Qed.

Lemma calm_good db db' own tf :
  calm db db' own → tabs_gen db' = tabs_gen db → db_ok db →
  (∀ w, w ∈ works (fst tf) → w ∉ own) → tx_good db tf → tx_good db' tf.
Proof.
  intros [A1 A2 A3 A4 A5 A6] Hg Hok Hw Htx. eapply (tx_good_frame [tx_snap (fst tf)]); [apply A3|by left|done| |exact Htx].
  intros w Hin. apply A4; [|by apply Hw]. destruct Htx as (_ & Hits & _).
  apply elem_of_works in Hin as (it & Hit & Ew). rewrite Forall_forall in Hits.
  destruct (Hits it Hit) as [_ (e & _ & _ & Hwk)]. rewrite Ew in Hwk. destruct Hwk as (t & Ht & _).
  by apply (do_brk _ Hok) in Ht.
Qed.

(** ** The parts of a statement in a transaction *)

Lemma tx_view_spec db tx f nm r db' tx' :
  db_ok db → tx_good db (tx, f) → tx_view db tx nm = Some (r, db', tx') →
  (tabs_gen db' = tabs_gen db ∨ tx_tabs tx = []) →
  calm db db' [] ∧ tx_good db' (tx', f) ∧ works tx' = works tx ∧ tx_snap tx' = tx_snap tx ∧
  match r with Some i => ∃ it, tx_tabs tx' !! i = Some it | None => tx' = tx end.
Proof.
  intros Hok Htx. unfold tx_view. destruct (tx_tab db nm 0 (tx_tabs tx)) as [[i|]|] eqn:Et; [| |done].
  { intros [= <- <- <-] _. split; [by apply calm_refl|]. split; [done|]. split; [done|]. split; [done|].
    apply tx_tab_spec in Et as (_ & it & Hi). exists it. by rewrite Nat.sub_0_r in Hi. }
  destruct (need_ent db nm) as [[r0 db1]|] eqn:En; [|done].
  destruct (need_ent_calm _ _ _ _ Hok En) as [Hcalm Hr0].
  assert (tabs_gen db1 = tabs_gen db ∨ tx_tabs tx = [] → tx_good db1 (tx, f)) as Hgood.
  { intros [Hg|Hnil].
    - eapply calm_good; [done|done|done| |done]. intros w _. apply not_elem_of_nil.
    - destruct Htx as (? & _ & _). split; [done|]. simpl. rewrite Hnil. split; constructor. }
  destruct r0 as [e|].
  2:{ intros [= <- <- <-] Hg. by split_and!; auto. }
  destruct Hr0 as (ent & Hent & Hname).
  destruct (tab_vis db1 e (tx_snap tx)) as [[a|]|] eqn:Ev; [| |done].
  2:{ intros [= <- <- <-] Hg. by split_and!; auto. }
  intros [= <- <- <-] Hg. split; [done|]. specialize (Hgood Hg). destruct Hgood as (G1 & G2 & G3).
  split; [|split; [|split; [done|]]].
  - split; [done|]. simpl. split.
    + apply Forall_app. split; [done|]. apply Forall_singleton. split; simpl; [done|].
      exists ent. split; [done|]. split; [|done]. unfold tab_vis in Ev. by rewrite Hent in Ev.
    + rewrite fmap_app. simpl. apply NoDup_app. split; [done|]. split; [|apply NoDup_singleton].
      intros j Hj ->%list_elem_of_singleton. apply list_elem_of_fmap in Hj as (it & Hje & Hit).
      destruct (tx_tab_spec _ _ _ _ _ Et it Hit) as (e0 & He0 & Hne). apply Hne.
      unfold tx_ent in He0. destruct (_ =? _)%nat; [|done].
      destruct (cm_view _ _ _ Hcalm [] _ _ He0) as (e1 & He1 & Hn1 & _).
      rewrite <- Hje in He1. rewrite Hent in He1. injection He1 as <-. by rewrite <- Hn1.
  - unfold works. simpl. rewrite omap_app. simpl. by rewrite app_nil_r.
  - eexists. simpl. rewrite lookup_app_r, Nat.sub_diag by lia. done.
Qed.

Lemma item_base db snap f it :
  db_ok db → item_ok db snap f it →
  ∃ e t, tabs db !! tt_ent it = Some e ∧ tt_base it ∈ chain e ∧ heap db !! tt_base it = Some t ∧ tab_ok t ∧ next_ok t ∧
    name t = ent_name e.
Proof.
  intros Hok [_ (e & He & Hv & _)]. destruct (db_ok_chain db _ e Hok He) as [Hg _].
  destruct (vis_walk_good _ _ _ snap _ Hg) as (r & E & Hr). rewrite Hv in E. injection E as <-.
  destruct Hr as [Hin _]. destruct (chain_good_in _ _ _ _ _ Hg Hin) as (t & Ht & _ & Hok' & Hn & Hnm).
  exists e, t. by split_and!.
Qed.

(** The item [i] of a transaction replaced by one with the same entry and base. *)
Lemma omap_insert (its : list TxTab) i it it' :
  its !! i = Some it →
  (tt_work it' = tt_work it → omap tt_work (<[i := it']> its) = omap tt_work its) ∧
  (∀ w, tt_work it = None → tt_work it' = Some w → omap tt_work (<[i := it']> its) ≡ₚ w :: omap tt_work its).
Proof.
  intros Hi. rewrite insert_take_drop by by eapply lookup_lt_Some.
  assert (omap tt_work its = omap tt_work (take i its ++ it :: drop (S i) its)) as ->
    by by rewrite take_drop_middle.
  rewrite !omap_app. simpl. split.
  - by intros ->.
  - intros w -> ->. by rewrite <- Permutation_middle.
Qed.

Lemma tx_good_insert db tx f i it it' :
  tx_good db (tx, f) → tx_tabs tx !! i = Some it → tt_ent it' = tt_ent it →
  item_ok db (tx_snap tx) f it' → tx_good db (set_tx_tabs tx (<[i := it']> (tx_tabs tx)), f).
Proof.
  intros (H1 & H2 & H3) Hi He Hit. split; [done|]. simpl. split.
  - by apply Forall_insert.
  - rewrite list_fmap_insert, He. rewrite list_insert_id; [done|]. by rewrite list_lookup_fmap, Hi.
Qed.

Lemma tx_make_work_spec db tx i it :
  db_ok db → tx_good db (tx, false) → tx_tabs tx !! i = Some it →
  ∃ db' tx' w it', tx_make_work db tx (Some i) = Some (true, db', tx') ∧ calm db db' [] ∧
    tabs db' = tabs db ∧ tx_good db' (tx', false) ∧ tx_snap tx' = tx_snap tx ∧
    tx_tabs tx' !! i = Some it' ∧ tt_work it' = Some w ∧
    (works tx' = works tx ∨ works tx' ≡ₚ brk db :: works tx).
Proof.
  intros Hok Htx Hi. unfold tx_make_work. rewrite Hi.
  pose proof Htx as (_ & Hits & _). pose proof (Forall_lookup_1 _ _ _ _ Hits Hi) as Hit.
  pose proof (lookup_lt_Some _ _ _ Hi) as Hlt.
  destruct (tt_work it) as [w|] eqn:Ew.
  - eexists _, _, w, _. split; [done|]. split; [by apply calm_refl|]. split; [done|]. split.
    { eapply tx_good_insert; [done|exact Hi|done|]. destruct Hit as [G (e & He & Hv & Hw)]. split; [done|].
      exists e. split; [done|]. split; [done|]. simpl. by rewrite Ew in Hw. }
    split; [done|]. split; [simpl; by rewrite list_lookup_insert_eq|]. split; [done|].
    left. unfold works. simpl. by apply (omap_insert _ _ _ _ Hi).
  - destruct (item_base _ _ _ _ Hok Hit) as (e & t & He & Hbin & Hbt & Htok & Htn & Htname).
    rewrite Hbt. destruct (tab_clone_spec t Htok) as (t' & Ec & Ht' & _ & _ & _ & _ & _ & Hn' & Hnm').
    rewrite Ec. simpl. pose proof (fresh_not_chain db Hok) as Hfresh.
    set (db' := mkDb (mv db) (<[brk db := t']> (heap db)) (S (brk db)) (tabs db) (tab_cap db) (tabs_gen db)
                  (fs db) (io_cnt db) (root db) (max_sql db) (max_qry db)).
    assert (calm db db' []) as Hcalm.
    { assert (∀ a, a ∈ all_addrs (tabs db) → heap db' !! a = heap db !! a) as Hch.
      { intros a Ha. simpl. rewrite lookup_insert_ne; [done|]. by intros <-. }
      split; simpl; try done; [| | |lia|by left].
      - eapply db_ok_frame; [exact Hok|done|done|exact Hch|]. simpl. intros a t0.
        destruct (decide (a = brk db)) as [->|Hne]; [lia|]. rewrite lookup_insert_ne by done.
        intros Ha. apply (do_brk _ Hok) in Ha. lia.
      - intros live. by apply same_view_heap.
      - intros a Ha _. rewrite lookup_insert_ne; [done|lia]. }
    eexists db', _, (brk db), _. split; [done|]. split; [done|]. split; [done|].
    assert (tx_good db' (tx, false)) as Hg.
    { eapply calm_good; [exact Hcalm|done|done| |done]. intros w _. apply not_elem_of_nil. }
    split.
    { eapply tx_good_insert; [done|exact Hi|done|].
      destruct Hg as (_ & Hits' & _). pose proof (Forall_lookup_1 _ _ _ _ Hits' Hi) as [G (e' & He' & Hv' & _)].
      split; [done|]. exists e'. split; [done|]. split; [done|]. simpl. exists t'.
      rewrite lookup_insert_eq. split; [done|]. intros _. simpl in He'. rewrite He in He'. injection He' as <-.
      split_and!; [congruence|done|]. unfold next_ok. by rewrite Hn'. }
    split; [done|]. split; [simpl; by rewrite list_lookup_insert_eq|]. split; [done|].
    right. unfold works. simpl. by apply (omap_insert _ _ _ _ Hi).
Qed.

(** The table a statement of a transaction would run on. *)
Definition txdo_target (db : Db) (tx : DbTx) (sql : cstr) : option (TabVer * Statement) :=
  match parse_ok db sql res_clr with
  | inr _ => None
  | inl stmt =>
      let* (item, db1, tx1) := tx_view db tx (table_name stmt) in
      let* (ok, db2, tx2) := (if stmt_is_wr stmt then tx_make_work db1 tx1 item else Some (true, db1, tx1)) in
      i ← item; it ← tx_tabs tx2 !! i;
      tab ← heap db2 !! (match tt_work it with Some w => w | None => tt_base it end);
      Some (tab, stmt)
  end.

Definition txdo_safe (db : Db) (tx : DbTx) (sql : cstr) : Prop :=
  match txdo_target db tx sql with Some (tab, stmt) => safe_stmt tab stmt | None => True end.

(** Every working copy of the transaction is new or was one before. *)
Definition works_step (db db' : Db) (tx tx' : DbTx) : Prop :=
  works tx' = works tx ∨
  ∃ w, (brk db ≤ w < brk db')%nat ∧ w ∉ all_addrs (tabs db') ∧ works tx' ≡ₚ w :: works tx.

(** Running a statement at the address of a working copy, or a read at a base. *)
Lemma exec_at_spec db tx i it stmt res rc db' res' :
  db_ok db → tx_good db (tx, false) → tx_tabs tx !! i = Some it →
  (∀ w, w ∈ works tx → w ∉ all_addrs (tabs db)) → NoDup (works tx) →
  (stmt_is_wr stmt = true → ∃ w, tt_work it = Some w) → stype stmt ≠ STMT_UNRECOGNIZED →
  count res = 0 →
  (∀ t, heap db !! (match tt_work it with Some w => w | None => tt_base it end) = Some t → safe_stmt t stmt) →
  exec_at db (match tt_work it with Some w => w | None => tt_base it end) stmt res = Some (rc, db', res') →
  calm db db' (works tx) ∧ tabs_gen db' = tabs_gen db ∧ tabs db' = tabs db ∧ brk db' = brk db ∧
  tx_good db' (tx, negb (rc =? 0)).
Proof.
  intros Hok Htx Hi Hwc Hnd Hwr Hty Hc Hsafe. unfold exec_at.
  set (a := match tt_work it with Some w => w | None => tt_base it end) in *.
  destruct (heap db !! a) as [t|] eqn:Ea; [|done]. specialize (Hsafe t eq_refl).
  destruct (exec_stmt t stmt res) as [[[rc0 t'] r]|] eqn:Ee; [|done]. intros [= -> <- <-].
  pose proof Htx as (Hd & Hits & Hents). pose proof (Forall_lookup_1 _ _ _ _ Hits Hi) as Hit.
  destruct (tt_work it) as [w|] eqn:Ew; subst a; cycle 1.
  { (* a read at the base *)
    assert (stmt_is_wr stmt = false) as Hrd.
    { destruct (stmt_is_wr stmt) eqn:E; [|done]. destruct (Hwr eq_refl) as (w & ?). congruence. }
    assert (t' = t) as ->.
    { revert Ee Hrd. unfold exec_stmt, stmt_is_wr. destruct (stype stmt); try done.
      destruct (sel_do t stmt res) as [[rc1 r1]|]; [|done]. by intros [= _ <- _]. }
    rewrite insert_id by done. destruct db as [? ? ? ? ? ? ? ? ? ? ?]. unfold set_heap in *. simpl in *.
    split; [by apply calm_refl|]. split_and!; try done. destruct (rc =? 0); simpl; [done|].
    by eapply tx_good_fail. }
  assert (w ∈ works tx) as Hww by (apply elem_of_works; exists it; split; [by eapply list_elem_of_lookup_2|done]).
  assert (∀ b, b ∈ all_addrs (tabs db) → <[w := t']> (heap db) !! b = heap db !! b) as Hch.
  { intros b Hb. rewrite lookup_insert_ne; [done|]. intros <-. by apply (Hwc w). }
  assert (calm db (set_heap db (<[w := t']> (heap db))) (works tx)) as Hcalm.
  { split; simpl; try done; [| | |by left].
    - eapply db_ok_frame; [exact Hok|done|done|exact Hch|]. simpl. intros b t0.
      destruct (decide (b = w)) as [->|Hne].
      + intros _. by apply (do_brk _ Hok) in Ea.
      + rewrite lookup_insert_ne by done. apply (do_brk _ Hok).
    - intros live. by apply same_view_heap.
    - intros b _ Hb. rewrite lookup_insert_ne; [done|]. intros <-. done. }
  split; [done|]. split_and!; try done. split; [done|]. split; [|done]. cbn [fst snd].
  apply Forall_forall. intros it' Hin. rewrite Forall_forall in Hits. pose proof (Hits it' Hin) as [G (e & He & Hv & Hw)].
  cbn [fst snd] in *.
  split; [done|]. exists e. split; [done|].
  destruct (cm_view _ _ _ Hcalm [tx_snap tx] _ _ He) as (e2 & He2 & _ & Hsee).
  destruct (Hsee (tx_snap tx)) as (rr & E1 & E2 & _); [by left|].
  simpl in He2. rewrite He in He2. injection He2 as <-. split; [congruence|].
  destruct (tt_work it') as [w'|] eqn:Ew'; [|done]. destruct Hw as (t0 & Ht0 & Hgood). simpl.
  destruct (decide (w' = w)) as [->|Hne].
  - rewrite lookup_insert_eq. exists t'. split; [done|]. intros Hrc%negb_false_iff%Z.eqb_eq. subst rc.
    assert (heap db !! w = Some t0) as Et by done. rewrite Ea in Et. injection Et as <-.
    destruct (Hgood eq_refl) as (Hn & Htok & Htn).
    destruct (exec_stmt_ok t stmt res t' r Htok Htn Hsafe Hc Ee) as (K1 & K2 & K3).
    split_and!; [rewrite (ss_name _ _ K3); done|done|done].
  - rewrite lookup_insert_ne by done. exists t0. split; [done|]. intros _. auto.
Qed.

Lemma parse_ok_inl db sql res stmt : parse_ok db sql res = inl stmt → parse_statement sql = Some stmt.
Proof. unfold parse_ok. destruct (_ && _); [done|]. destruct (parse_statement sql); [|done]. by intros [= ->]. Qed.

Lemma parse_statement_type sql stmt : parse_statement sql = Some stmt → stype stmt ≠ STMT_UNRECOGNIZED.
Proof. intros H. apply parse_statement_fits in H. apply H. Qed.

Lemma works_disj_calm db db' own tx :
  db_ok db → calm db db' own → Forall (fun w => (w < brk db)%nat) (works tx) →
  (∀ w, w ∈ works tx → w ∉ all_addrs (tabs db)) → (∀ w, w ∈ works tx → w ∉ all_addrs (tabs db')).
Proof.
  intros Hok Hc Hlt Hd w Hw Hin. apply (cm_addrs _ _ _ Hc) in Hin as [Hin|Hin]; [by apply (Hd w)|].
  rewrite Forall_forall in Hlt. specialize (Hlt w Hw). simpl in Hlt. lia.
Qed.

Lemma works_lt db tf : db_ok db → tx_good db tf → Forall (fun w => (w < brk db)%nat) (works (fst tf)).
Proof.
  intros Hok (_ & Hits & _). apply Forall_forall. intros w (it & Hin & Ew)%elem_of_works.
  rewrite Forall_forall in Hits. destruct (Hits it Hin) as [_ (e & _ & _ & Hw)]. rewrite Ew in Hw.
  destruct Hw as (t & Ht & _). by apply (do_brk _ Hok) in Ht.
Qed.

Lemma calm_weaken db db' own : calm db db' [] → calm db db' own.
Proof.
  intros [C1 C2 C3 C4 C5 C6]. split; try done. intros a Ha _. apply C4; [done|apply not_elem_of_nil].
Qed.

Lemma tx_make_work_gen db tx item ok db' tx' :
  tx_make_work db tx item = Some (ok, db', tx') → tabs_gen db' = tabs_gen db.
Proof.
  unfold tx_make_work. destruct item as [i|]; [|by intros [= _ <- _]].
  destruct (tx_tabs tx !! i) as [it|]; [|done]. destruct (tt_work it); [by intros [= _ <- _]|].
  destruct (heap db !! tt_base it); [|done]. destruct (tab_clone _); by intros [= _ <- _].
Qed.

Lemma exec_at_gen db a stmt res rc db' res' :
  exec_at db a stmt res = Some (rc, db', res') → tabs_gen db' = tabs_gen db.
Proof.
  unfold exec_at. destruct (heap db !! a); [|done].
  destruct (exec_stmt _ _ _) as [[[? ?] ?]|]; [|done]. by intros [= _ <- _].
Qed.

(** A statement of a transaction: nobody else notices anything but a table that
    was loaded, and the transaction stays in order unless the statement fails. *)
Lemma db_txdo_spec db tx sql rc db' tx' res :
  db_ok db → tx_good db (tx, false) → (∀ w, w ∈ works tx → w ∉ all_addrs (tabs db)) → NoDup (works tx) →
  (tabs_gen db' = tabs_gen db ∨ tx_tabs tx = []) → txdo_safe db tx sql →
  db_txdo db tx sql = Some (rc, db', tx', res) →
  calm db db' (works tx) ∧ tx_good db' (tx', negb (rc =? 0)) ∧ tx_snap tx' = tx_snap tx ∧
  works_step db db' tx tx'.
Proof.
  intros Hok Htx Hwc Hnd Hg Hsafe. unfold db_txdo, txdo_safe, txdo_target in *.
  pose proof Htx as (Hdone & _). simpl in Hdone. rewrite Hdone.
  pose proof (works_lt db (tx, false) Hok Htx) as Hlt. simpl in Hlt.
  destruct (parse_ok db sql res_clr) as [stmt|r] eqn:Ep.
  2:{ intros [= <- <- <- <-]. simpl. split; [by apply calm_refl|]. split; [by eapply tx_good_fail|].
      split; [done|by left]. }
  apply parse_ok_inl, parse_statement_type in Ep.
  destruct (tx_view db tx (table_name stmt)) as [[[item db1] tx1]|] eqn:Ev; [|done].
  pose proof (tx_view_spec db tx false _ _ _ _ Hok Htx Ev) as Hview.
  destruct item as [i|]; cycle 1.
  { destruct (stmt_is_wr stmt); simpl; intros [= <- <- <- <-]; destruct (Hview Hg) as (C & G & W & S & _);
      (split; [by apply calm_weaken|]; split; [by eapply tx_good_fail|]; split; [done|by left]). }
  intros Hrun.
  assert (tabs_gen db1 = tabs_gen db ∨ tx_tabs tx = []) as Hg1.
  { destruct Hg as [Hg|?]; [left|by right]. rewrite <- Hg. symmetry. revert Hrun.
    destruct (if stmt_is_wr stmt then _ else _) as [[[ok db2] tx2]|] eqn:Em; [|done].
    assert (tabs_gen db2 = tabs_gen db1) as <-
      by (destruct (stmt_is_wr stmt); [by eapply tx_make_work_gen|by injection Em as _ <- _]).
    destruct ok; [|by intros [= _ <- _ _]]. simpl. destruct (tx_tabs tx2 !! i); [|done].
    destruct (exec_at db2 _ stmt _) as [[[? db3] ?]|] eqn:Ee; [|done]. intros [= _ <- _ _].
    by eapply exec_at_gen. }
  destruct (Hview Hg1) as (C1 & G1 & W1 & S1 & it1 & Hi1). clear Hview.
  assert (∀ w, w ∈ works tx → w ∉ all_addrs (tabs db1)) as Hd1 by by eapply works_disj_calm.
  assert (∃ db2 tx2 it2, (if stmt_is_wr stmt then tx_make_work db1 tx1 (Some i) else Some (true, db1, tx1)) =
      Some (true, db2, tx2) ∧ calm db1 db2 [] ∧ tx_good db2 (tx2, false) ∧ tx_snap tx2 = tx_snap tx1 ∧
      tabs db2 = tabs db1 ∧ tx_tabs tx2 !! i = Some it2 ∧ (stmt_is_wr stmt = true → ∃ w, tt_work it2 = Some w) ∧
      (works tx2 = works tx1 ∨ works tx2 ≡ₚ brk db1 :: works tx1 ∧ (brk db1 < brk db2)%nat))
    as (db2 & tx2 & it2 & Em & C2 & G2 & S2 & T2 & Hi2 & Hw2 & Hwk2).
  { destruct (stmt_is_wr stmt).
    - destruct (tx_make_work_spec db1 tx1 i it1 (cm_ok _ _ _ C1) G1 Hi1) as
        (db2 & tx2 & w & it2 & E2 & C2 & T2 & G2 & S2 & Hi2 & Hw2 & Hwk2).
      exists db2, tx2, it2. split_and!; try done; [by intros; exists w|].
      destruct Hwk2 as [?|Hp]; [by left|right]. split; [done|].
      pose proof (works_lt db2 (tx2, false) (cm_ok _ _ _ C2) G2) as Hl2. simpl in Hl2.
      rewrite Forall_forall in Hl2. apply Hl2. rewrite Hp. by left.
    - exists db1, tx1, it1. split_and!; try done; [apply calm_refl, C1|by left]. }
  rewrite Em in Hrun, Hsafe. cbn [negb] in Hrun. cbn [mbind option_bind] in Hsafe. rewrite Hi2 in Hrun, Hsafe.
  set (a := match tt_work it2 with Some w => w | None => tt_base it2 end) in *.
  destruct (exec_at db2 a stmt _) as [[[rc0 db3] r]|] eqn:Ee; [|done]. injection Hrun as -> -> -> ->.
  assert (brk db1 ∉ works tx) as Hfr.
  { intros Hin. rewrite Forall_forall in Hlt. specialize (Hlt _ Hin). simpl in Hlt. pose proof (cm_brk _ _ _ C1). lia. }
  assert ((∀ w, w ∈ works tx' → w ∉ all_addrs (tabs db2)) ∧ NoDup (works tx')) as [Hd2 Hnd2].
  { rewrite T2. destruct Hwk2 as [->|[Hp _]]; [by rewrite W1|]. rewrite W1 in Hp. rewrite Hp. split.
    - intros w Hw. rewrite Hp in Hw. apply elem_of_cons in Hw as [->|Hw]; [|by apply Hd1].
      apply fresh_not_chain, C1.
    - by constructor. }
  destruct (exec_at_spec db2 tx' i it2 stmt (set_snap_id res_clr (tx_snap tx')) rc db' res
    (cm_ok _ _ _ C2) G2 Hi2 Hd2 Hnd2 Hw2 Ep eq_refl) as
    (C3 & Hg3 & T3 & B3 & G3).
  { intros t Ht. cbn [mbind option_bind] in Hsafe. fold a in Hsafe, Ht. rewrite Ht in Hsafe. exact Hsafe. }
  { exact Ee. }
  assert (calm db db2 (works tx)) as C12 by (eapply calm_trans; apply calm_weaken; [exact C1|exact C2]).
  split; [|split; [exact G3|split; [congruence|]]].
  - destruct C3 as [X1 X2 X3 X4 X5 X6], C12 as [Y1 Y2 Y3 Y4 Y5 Y6]. split; [done|congruence| | |lia|].
    + intros live. eapply same_view_trans; [apply Y3|apply X3].
    + intros b Hb Hnb. rewrite X4; [by apply Y4|lia|]. intros Hin. destruct Hwk2 as [E|[Hp _]].
      * rewrite E, W1 in Hin. done.
      * rewrite Hp, W1 in Hin. apply elem_of_cons in Hin as [->|?]; [|done]. pose proof (cm_brk _ _ _ C1). lia.
    + intros b Hb. rewrite T3 in Hb. rewrite B3. by apply Y6.
  - unfold works_step. destruct Hwk2 as [E|[Hp Hl]]; [left; congruence|right]. exists (brk db1).
    rewrite B3, T3. pose proof (cm_brk _ _ _ C1). rewrite <- W1. split_and!; [lia|lia| |done].
    apply Hd2. rewrite Hp. by left.
Qed.
