(* ===== verification/Commit.v ===== *)
(** Commit, abort and garbage collection: what they do to the database and to
    the views of the other clients. *)

From S2P Require Import Prelude CString Mvcc Parser Values Table TableProofs InsertProofs WriteProofs.
From S2P Require Import Store StoreProofs Db DbProofs Isolation.
From stdpp Require Import base numbers list option gmap.
Local Open Scope Z_scope.

Section commit.
Context (io_ok : nat → bool) (Hio : ∀ n, io_ok n = true).

(** ** Publication *)

Lemma set_ver_ok t v : tab_ok t → tab_ok (set_ver_id t v).
Proof. intros [H1 H2 H3 (pk & H4 & H5)]. split; [by destruct H1|done|done|by exists pk]. Qed.

Lemma all_addrs_insert es i e nm w :
  es !! i = Some e → all_addrs (<[i := mkEnt nm (w :: chain e)]> es) ≡ₚ w :: all_addrs es.
Proof.
  intros Hi. rewrite insert_take_drop by by eapply lookup_lt_Some.
  assert (all_addrs es = all_addrs (take i es ++ e :: drop (S i) es)) as -> by by rewrite take_drop_middle.
  rewrite !all_addrs_app. simpl. by rewrite <- Permutation_middle.
Qed.

(** The state of the publication loop with the items [its] to go. *)
Record pub_ok (db : Db) (ver : Z) (its : list TxTab) : Prop := {
  pb_mv : mv_ok (mv db) ∧ cur_ver (mv db) = ver;
  pb_brk : ∀ a t, heap db !! a = Some t → (a < brk db)%nat;
  pb_disj : NoDup (all_addrs (tabs db));
  pb_chains : ∀ i e, tabs db !! i = Some e → chain e ≠ [] ∧ chain_good (heap db) (ent_name e) ver (chain e) ∧
    (∀ it, it ∈ its → tt_ent it = i → chain_good (heap db) (ent_name e) (ver - 1) (chain e));
  pb_items : ∀ it, it ∈ its → tt_dirty it = true → tt_gen it = tabs_gen db ∧
    ∃ e w t, tabs db !! tt_ent it = Some e ∧ tt_work it = Some w ∧ heap db !! w = Some t ∧
      name t = ent_name e ∧ tab_ok t ∧ next_ok t ∧ w ∉ all_addrs (tabs db);
  pb_ents : NoDup (tt_ent <$> its);
  pb_works : NoDup (omap tt_work its);
}.

(** What publishing the items did. *)
Record pub_result (db : Db) (ver : Z) (its : list TxTab) (db' : Db) : Prop := {
  pr_mv : mv db' = mv db;
  pr_brk : brk db' = brk db;
  pr_gen : tabs_gen db' = tabs_gen db;
  pr_heap : ∀ a, a ∉ omap tt_work its → heap db' !! a = heap db !! a;
  pr_addrs : ∀ a, a ∈ all_addrs (tabs db') → a ∈ all_addrs (tabs db) ∨ a ∈ omap tt_work its;
  pr_done : ∀ it, it ∈ its → tt_dirty it = true →
    ∃ e w t, tabs db !! tt_ent it = Some e ∧ tt_work it = Some w ∧ heap db !! w = Some t ∧
      tabs db' !! tt_ent it = Some (mkEnt (ent_name e) (w :: chain e)) ∧ heap db' !! w = Some (set_ver_id t ver);
  pr_kept : ∀ i, (∀ it, it ∈ its → tt_dirty it = true → tt_ent it ≠ i) → tabs db' !! i = tabs db !! i;
}.

Lemma pub_ok_skip db ver it its : pub_ok db ver (it :: its) → pub_ok db ver its.
Proof.
  intros [H1 H2 H3 H4 H5 H6 H7]. split; try done.
  - intros i e Hi. destruct (H4 i e Hi) as (A & B & C). split_and!; try done. intros it' Hin. apply C. by right.
  - intros it' Hin. apply H5. by right.
  - simpl in H6. by apply NoDup_cons in H6 as [_ ?].
  - simpl in H7. destruct (tt_work it); [by apply NoDup_cons in H7 as [_ ?]|done].
Qed.

(** The database after one item. *)
Definition publish_one (db : Db) (ver : Z) (it : TxTab) (w : addr) (t : TabVer) (e : TabEnt) : Db :=
  let db1 := set_tabs (set_heap db (<[w := set_ver_id t ver]> (heap db)))
               (<[tt_ent it := mkEnt (ent_name e) (w :: chain e)]> (tabs db)) in
  set_fs db1 (snd (tab_save true (fs db) (root db) (set_ver_id t ver))) (S (io_cnt db)).

Lemma publish_one_ok db ver it its w t e :
  pub_ok db ver (it :: its) → tt_dirty it = true → tt_work it = Some w → heap db !! w = Some t →
  tabs db !! tt_ent it = Some e → pub_ok (publish_one db ver it w t e) ver its.
Proof.
  intros Hp Hd Hw Ht He. pose proof Hp as [H1 H2 H3 H4 H5 H6 H7].
  destruct (H5 it) as (_ & e0 & w0 & t0 & He0 & Hw0 & Ht0 & Hn & Htok & Htn & Hfr); [by left|done|].
  rewrite He in He0. injection He0 as <-. rewrite Hw in Hw0. injection Hw0 as <-.
  rewrite Ht in Ht0. injection Ht0 as <-.
  simpl in H6, H7. rewrite Hw in H7. apply NoDup_cons in H6 as [He6 H6]. apply NoDup_cons in H7 as [Hw7 H7].
  assert (∀ a, a ∈ all_addrs (tabs db) → <[w := set_ver_id t ver]> (heap db) !! a = heap db !! a) as Hch.
  { intros a Ha. rewrite lookup_insert_ne; [done|]. by intros <-. }
  assert (∀ i e', tabs db !! i = Some e' → ∀ hi, chain_good (heap db) (ent_name e') hi (chain e') →
    chain_good (<[w := set_ver_id t ver]> (heap db)) (ent_name e') hi (chain e')) as Hcg.
  { intros i e' Hi hi. apply chain_good_heap. intros a Ha. apply Hch. by eapply chain_in_all. }
  destruct (H4 _ e He) as (Hne & Hg & Hg1).
  split; simpl; try done.
  - intros a t' Ha. destruct (decide (a = w)) as [->|Hna]; [by eapply H2|].
    rewrite lookup_insert_ne in Ha by done. by eapply H2.
  - rewrite (all_addrs_insert _ _ _ _ _ He). by constructor.
  - intros i e' Hi. destruct (decide (i = tt_ent it)) as [->|Hni].
    + rewrite list_lookup_insert_eq in Hi by by eapply lookup_lt_Some. injection Hi as <-. simpl.
      split; [done|]. split.
      * destruct H1 as [Hmv Hcur]. pose proof (mo_ver _ Hmv) as Hvr. rewrite Hcur in Hvr.
        exists (set_ver_id t ver). rewrite lookup_insert_eq. split_and!; simpl; try done; [lia| |].
        -- by apply set_ver_ok.
        -- apply (Hcg _ e He). by apply (Hg1 it); [left|].
      * intros it' Hin Hent. exfalso. apply He6. rewrite <- Hent. by apply list_elem_of_fmap_2.
    + rewrite list_lookup_insert_ne in Hi by done. destruct (H4 i e' Hi) as (A & B & C).
      split; [done|]. split; [by apply (Hcg i)|]. intros it' Hin Hent. apply (Hcg i e' Hi). apply (C it'); [by right|done].
  - intros it' Hin Hd'. destruct (H5 it') as (G & e' & w' & t' & A1 & A2 & A3 & A4 & A5 & A6 & A7); [by right|done|].
    split; [done|]. exists e', w', t'.
    assert (tt_ent it' ≠ tt_ent it) as Hne'.
    { intros E. apply He6. rewrite <- E. by apply list_elem_of_fmap_2. }
    assert (w' ≠ w) as Hnw.
    { intros ->. apply Hw7. apply list_elem_of_omap. by exists it'. }
    rewrite list_lookup_insert_ne, lookup_insert_ne by done. split_and!; try done.
    rewrite (all_addrs_insert _ _ _ _ _ He). by intros [?|?]%elem_of_cons.
Qed.

Lemma publish_spec db ver its :
  pub_ok db ver its →
  ∃ db' its', publish io_ok db ver its = Some (true, db', its') ∧ pub_ok db' ver [] ∧ pub_result db ver its db'.
Proof.
  revert db; induction its as [|it its IH]; intros db Hp.
  - exists db, []. split; [done|]. split; [done|]. split; try done; [by left|by intros ? ?%not_elem_of_nil].
  - cbn [publish]. destruct (tt_dirty it) eqn:Hd; cycle 1.
    { destruct (IH db (pub_ok_skip _ _ _ _ Hp)) as (db' & its' & -> & Hok & [R1 R2 R3 R4 R5 R6 R7]).
      exists db', (it :: its'). split; [done|]. split; [done|].
      assert (∀ a, a ∉ omap tt_work (it :: its) → a ∉ omap tt_work its) as Hsub.
      { intros a Ha Hin. apply Ha. simpl. destruct (tt_work it); [by right|done]. }
      split; try done.
      - intros a Ha. by apply R4, Hsub.
      - intros a [?|Ha]%R5; [by left|right]. simpl. destruct (tt_work it); [by right|done].
      - intros it' [->|Hin]%elem_of_cons; [congruence|]. by apply R6.
      - intros i Hi. apply R7. intros it' Hin. apply Hi. by right. }
    destruct (pb_items _ _ _ Hp it) as (G & e & w & t & He & Hw & Ht & Hn & Htok & Htn & Hfr); [by left|done|].
    rewrite Hw, Ht. unfold tx_ent. rewrite G, Nat.eqb_refl, He. rewrite Hio. cbn [tab_save]. cbv iota.
    fold (publish_one db ver it w t e).
    pose proof (publish_one_ok db ver it its w t e Hp Hd Hw Ht He) as Hp1.
    destruct (IH _ Hp1) as (db' & its' & E & Hok & [R1 R2 R3 R4 R5 R6 R7]).
    match goal with |- context [publish io_ok ?d ver its] => change d with (publish_one db ver it w t e) end.
    rewrite E. eexists db', _. split; [done|]. split; [done|].
    pose proof (pb_ents _ _ _ Hp) as Hne. simpl in Hne. apply NoDup_cons in Hne as [Hne _].
    pose proof (pb_works _ _ _ Hp) as Hnw. simpl in Hnw. rewrite Hw in Hnw. apply NoDup_cons in Hnw as [Hnw _].
    split; try done.
    + intros a Ha. simpl in Ha. rewrite Hw in Ha. apply not_elem_of_cons in Ha as [Ha1 Ha2].
      rewrite R4 by done. simpl. by rewrite lookup_insert_ne.
    + intros a [Ha|Ha]%R5; [|right; simpl; rewrite Hw; by right]. simpl in Ha.
      rewrite (all_addrs_insert _ _ _ _ _ He) in Ha. apply elem_of_cons in Ha as [->|?]; [right|by left].
      simpl. rewrite Hw. by left.
    + intros it' [->|Hin]%elem_of_cons Hd'.
      * exists e, w, t. split_and!; try done.
        -- rewrite R7; [simpl; by rewrite list_lookup_insert_eq by by eapply lookup_lt_Some|].
           intros it' Hin _ Heq. apply Hne. rewrite <- Heq. by apply list_elem_of_fmap_2.
        -- rewrite R4 by done. simpl. by rewrite lookup_insert_eq.
      * destruct (R6 it' Hin Hd') as (e' & w' & t' & A1 & A2 & A3 & A4 & A5). simpl in A1, A3.
        assert (tt_ent it' ≠ tt_ent it) as Hne'.
        { intros Heq. apply Hne. rewrite <- Heq. by apply list_elem_of_fmap_2. }
        assert (w' ≠ w) as Hnw'.
        { intros ->. apply Hnw, list_elem_of_omap. by exists it'. }
        rewrite list_lookup_insert_ne in A1 by done. rewrite lookup_insert_ne in A3 by done.
        exists e', w', t'. by split_and!.
    + intros i Hi. rewrite R7; [simpl; rewrite list_lookup_insert_ne; [done|]|].
      * intros Heq. by apply (Hi it); [left| |].
      * intros it' Hin. apply Hi. by right.
Qed.

(** ** The conflict check *)

Lemma head_eq (a b : addr) (ch : list addr) : head (a :: ch) = Some b ↔ a = b.
Proof. split; [by intros [= ->]|by intros ->]. Qed.

(** The check decides whether every table the transaction wrote still has its
    base at the head. *)
Lemma conflict_spec db snap f its :
  db_ok db → Forall (item_ok db snap f) its →
  ∃ b, conflict db its = Some b ∧
    if (b : bool) then
      ∃ it e, it ∈ its ∧ tt_dirty it = true ∧ tabs db !! tt_ent it = Some e ∧ head (chain e) ≠ Some (tt_base it)
    else ∀ it, it ∈ its → tt_dirty it = true →
      ∃ e, tabs db !! tt_ent it = Some e ∧ head (chain e) = Some (tt_base it).
Proof.
  intros Hok. induction 1 as [|it its [G (e & He & Hv & Hw)] Hits (b & Eb & Hb)].
  { exists false. split; [done|]. by intros it ?%not_elem_of_nil. }
  cbn [conflict]. destruct (tt_dirty it) eqn:Hd; cycle 1.
  { exists b. split; [done|]. destruct b.
    - destruct Hb as (it' & e' & Hin & H). exists it', e'. split; [by right|done].
    - intros it' [->|Hin]%elem_of_cons; [congruence|by apply Hb]. }
  unfold tx_ent. rewrite G, Nat.eqb_refl, He.
  destruct (db_ok_chain db _ e Hok He) as [_ Hne]. destruct (chain e) as [|a ch] eqn:Ec; [done|].
  destruct (Nat.eqb_spec a (tt_base it)) as [Ha|Ha].
  - exists b. split; [done|]. destruct b.
    + destruct Hb as (it' & e' & Hin & H). exists it', e'. split; [by right|done].
    + intros it' [->|Hin]%elem_of_cons; [|by apply Hb]. intros _. exists e. split; [done|]. rewrite Ec. by apply head_eq.
  - exists true. split; [done|]. exists it, e. split_and!; [by left|done|done|]. rewrite Ec. by rewrite head_eq.
Qed.

(** ** Garbage collection *)

(** What releasing a snapshot leaves: the heads, and everything a snapshot that
    is still live sees. *)
Record collected (db db' : Db) (snap : Z) : Prop := {
  co_ok : db_ok db';
  co_mv : mv db' = mv_gc (mv db) snap;
  co_rest : brk db' = brk db ∧ tabs_gen db' = tabs_gen db ∧ fs db' = fs db ∧ length (tabs db') = length (tabs db);
  co_view : same_view (snaps (mv db')) db db';
  co_heap : ∀ a, a ∉ all_addrs (tabs db) → heap db' !! a = heap db !! a;
  co_addrs : ∀ a, a ∈ all_addrs (tabs db') → a ∈ all_addrs (tabs db) ∧ heap db' !! a = heap db !! a;
  co_head : ∀ i e, tabs db !! i = Some e →
    ∃ e', tabs db' !! i = Some e' ∧ ent_name e' = ent_name e ∧ head (chain e') = head (chain e) ∧
      ∃ freed, chain e = chain e' ++ freed;
}.

Lemma gc_keep_spec db s :
  mv_ok (mv db) → s ∈ snaps (mv db) → gc_keep db ≠ 0 ∧ gc_keep db ≤ s.
Proof.
  intros Hok Hs. unfold gc_keep. simpl. destruct (snap_min_spec _ Hok) as (H1 & H2 & _).
  assert (0 < Z.of_nat (length (snaps (mv db)))) as Hl.
  { destruct (snaps (mv db)); [by apply not_elem_of_nil in Hs|simpl; lia]. }
  rewrite (proj2 (Z.ltb_lt _ _)) by done. rewrite Forall_forall in H2. specialize (H2 s Hs). simpl in H2. lia.
Qed.

Lemma all_addrs_sub_NoDup h keep es es' :
  Forall2 (pruned h keep) es es' → NoDup (all_addrs es) → NoDup (all_addrs es').
Proof.
  induction 1 as [|e e' es es' [_ _ [freed Hp] _] Hps IH]; simpl; [done|].
  rewrite Hp, !NoDup_app. intros ((H1 & H2 & _) & H3 & H4). split_and!; [done| |auto].
  intros a Ha Hin. eapply all_addrs_pruned in Hin; [|exact Hps].
  apply (H3 a); [|done]. apply elem_of_app. by left.
Qed.

Lemma pruned_head h keep e e' : pruned h keep e e' → head (chain e') = head (chain e).
Proof. intros [_ Hne [freed ->] _]. by destruct (chain e'). Qed.

Lemma release_spec db snap : db_ok db → ∃ db', release db snap = Some db' ∧ collected db db' snap.
Proof.
  intros Hok. unfold release, gc_tabs, gc_prune. set (db0 := set_mv db (mv_gc (mv db) snap)).
  assert (mv_ok (mv db0)) as Hmv by apply mv_gc_ok, Hok.
  destruct (prune_all_spec (heap db) (cur_ver (mv db)) (gc_keep db0) (tabs db) (do_chains _ Hok) (do_disj _ Hok))
    as (es' & h' & E & Hps & Ho & Hi).
  simpl. rewrite E. eexists. split; [done|].
  pose proof (all_addrs_sub_NoDup _ _ _ _ Hps (do_disj _ Hok)) as Hnd'.
  assert (∀ e e' a, pruned (heap db) (gc_keep db0) e e' → a ∈ chain e' → a ∈ chain e) as Hsub.
  { intros e e' a [_ _ [freed ->] _] Ha. apply elem_of_app. by left. }
  split; simpl; try done.
  - split; simpl; [done| | |done].
    + intros a t Ha. destruct (decide (a ∈ all_addrs (tabs db))) as [Hin|Hout].
      * destruct (all_addrs_heap db a Hok Hin) as (t0 & Ht0). by eapply do_brk.
      * rewrite Ho in Ha by done. by eapply do_brk.
    + apply Forall_forall. intros e' He'. apply list_elem_of_lookup in He' as (i & Hi').
      destruct (Forall2_lookup_r _ _ _ _ _ Hps Hi') as (e & He & Hp).
      destruct (db_ok_chain db i e Hok He) as [Hg Hne]. split; [|by apply Hp].
      rewrite (pr_name _ _ _ _ Hp). pose proof (pr_prefix _ _ _ _ Hp) as [freed Hf]. rewrite Hf in Hg.
      apply chain_good_prefix in Hg. unfold db0. simpl. rewrite cur_ver_gc. eapply chain_good_heap; [|exact Hg].
      intros a Ha. apply Hi. apply elem_of_all_addrs. exists e'. split; [by eapply list_elem_of_lookup_2|done].
  - split_and!; try done. symmetry. by eapply Forall2_length.
  - intros i e He. destruct (Forall2_lookup_l _ _ _ _ _ Hps He) as (e' & He' & Hp). simpl. exists e'.
    split; [done|]. split; [by apply Hp|]. intros s Hs. destruct (db_ok_chain db i e Hok He) as [Hg _].
    destruct (vis_walk_good _ _ _ s _ Hg) as (r & Er & Hr). exists r. split; [done|].
    destruct (gc_keep_spec db0 s Hmv) as [Hk Hle]; [done|].
    assert (∀ a, a ∈ chain e' → h' !! a = heap db !! a) as Hh.
    { intros a Ha. apply Hi, elem_of_all_addrs. exists e'. split; [by eapply list_elem_of_lookup_2|done]. }
    pose proof (pr_vis _ _ _ _ Hp Hk s Hle) as Hpv. rewrite Er in Hpv. split.
    + by rewrite (vis_walk_heap (heap db) h') by done.
    + intros a ->. apply Hh. pose proof (pr_prefix _ _ _ _ Hp) as [freed Hf]. rewrite Hf in Hg.
      apply chain_good_prefix in Hg. destruct (vis_walk_good _ _ _ s _ Hg) as (r & Er' & Hr').
      rewrite Hpv in Er'. injection Er' as <-. by destruct Hr'.
  - intros a Ha. split; [by eapply all_addrs_pruned|by apply Hi].
  - intros i e He. destruct (Forall2_lookup_l _ _ _ _ _ Hps He) as (e' & He' & Hp). exists e'.
    split; [done|]. split; [by apply Hp|]. split; [by eapply pruned_head|by apply Hp].
Qed.

(** ** Commit *)

(** A transaction that owns its working copies. *)
Record tx_own (db : Db) (tx : DbTx) : Prop := {
  ow_nodup : NoDup (works tx);
  ow_disj : ∀ w, w ∈ works tx → w ∉ all_addrs (tabs db);
}.

Lemma pub_start db tx :
  db_ok db → tx_good db (tx, false) → tx_own db tx → cur_ver (mv db) + 1 < U64 →
  pub_ok (set_mv db (snd (mv_bump (mv db)))) (cur_ver (mv db) + 1) (tx_tabs tx).
Proof.
  intros Hok (_ & Hits & Hents) [Hnd Hdj] Hv. destruct (mv_bump_ok _ (do_mv _ Hok) Hv) as [Hb Hb1].
  assert (∀ i e, tabs db !! i = Some e → chain_good (heap db) (ent_name e) (cur_ver (mv db)) (chain e) ∧ chain e ≠ []) as Hc.
  { intros i e. by apply db_ok_chain. }
  split; simpl; [|apply Hok|apply Hok| | |exact Hents|exact Hnd].
  - by split.
  - intros i e Hi. destruct (Hc i e Hi) as [Hg Hne]. split_and!; [done| |].
    + eapply chain_good_mono; [exact Hg|lia].
    + intros _ _ _. eapply chain_good_mono; [exact Hg|lia].
  - intros it Hin Hd. rewrite Forall_forall in Hits. destruct (Hits it Hin) as [G (e & He & _ & Hw)].
    split; [done|]. cbn [fst snd] in Hw. destruct (tt_work it) as [w|] eqn:Ew; [|congruence].
    destruct Hw as (t & Ht & Hgood). destruct (Hgood eq_refl) as (Hn & Htok & Htn).
    exists e, w, t. split_and!; try done. apply Hdj, elem_of_works. by exists it.
Qed.

Lemma pub_end db ver : pub_ok db ver [] → db_ok db.
Proof.
  intros [[Hmv Hcur] H2 H3 H4 _ _ _]. split; [done|done| |done]. apply Forall_lookup. intros i e Hi.
  rewrite Hcur. by destruct (H4 i e Hi) as (? & ? & _).
Qed.

(** The versions that were just published are newer than every live snapshot. *)
Lemma pub_view db tx db' :
  db_ok db → tx_own db tx →
  pub_result (set_mv db (snd (mv_bump (mv db)))) (cur_ver (mv db) + 1) (tx_tabs tx) db' →
  same_view (snaps (mv db)) db db'.
Proof.
  intros Hok [Hnd Hdj] [R1 R2 R3 R4 R5 R6 R7]. simpl in *.
  assert (∀ a, a ∈ all_addrs (tabs db) → heap db' !! a = heap db !! a) as Hh.
  { intros a Ha. apply R4. intros Hw. by apply (Hdj a). }
  intros i e Hi. destruct (db_ok_chain db i e Hok Hi) as [Hg _].
  assert (∀ s, ∃ r, vis_walk (heap db) s (chain e) = Some r ∧ vis_walk (heap db') s (chain e) = Some r ∧
    ∀ a, r = Some a → heap db' !! a = heap db !! a) as Hold.
  { intros s. destruct (vis_walk_good _ _ _ s _ Hg) as (r & E & Hr). exists r. split; [done|].
    rewrite (vis_walk_heap (heap db)) by (intros a Ha; apply Hh; by eapply chain_in_all).
    split; [done|]. intros a ->. apply Hh. destruct Hr. by eapply chain_in_all. }
  destruct (decide (Exists (fun it => tt_dirty it = true ∧ tt_ent it = i) (tx_tabs tx))) as [Hex|Hnex].
  - apply Exists_exists in Hex as (it & Hin & Hd & Hent). destruct (R6 it Hin Hd) as (e0 & w & t & He0 & Hw & Ht & He' & Hw').
    rewrite Hent in He0, He'. rewrite Hi in He0. injection He0 as <-.
    exists (mkEnt (ent_name e) (w :: chain e)). split; [done|]. split; [done|]. intros s Hs.
    destruct (Hold s) as (r & E1 & E2 & E3). exists r. split; [done|]. split; [|done]. simpl chain.
    erewrite vis_walk_newer; [exact E2|exact Hw'|]. simpl.
    pose proof (mo_snaps _ (do_mv _ Hok)) as Hsn. rewrite Forall_forall in Hsn. specialize (Hsn s Hs). simpl in Hsn. lia.
  - exists e. split.
    + rewrite R7; [done|]. intros it Hin Hd Heq. apply Hnex, Exists_exists. by exists it.
    + split; [done|]. intros s _. apply Hold.
Qed.

Lemma drop_first_sub s x ss : x ∈ drop_first s ss → x ∈ ss.
Proof.
  induction ss as [|y ss IH]; simpl; [done|]. destruct (y =? s); [by right|].
  intros [->|H]%elem_of_cons; [by left|right; auto].
Qed.

Lemma snaps_gc_sub m s x : x ∈ snaps (mv_gc m s) → x ∈ snaps m.
Proof. unfold mv_gc. destruct (s =? 0); [done|]. apply drop_first_sub. Qed.

Lemma same_view_sub live live' db db' : (∀ s, s ∈ live' → s ∈ live) → same_view live db db' → same_view live' db db'.
Proof.
  intros Hs Hv i e Hi. destruct (Hv i e Hi) as (e' & H1 & H2 & H3). exists e'. split_and!; auto.
Qed.

(** What a successful commit did. *)
Record committed (db : Db) (tx : DbTx) (db' : Db) : Prop := {
  cd_ok : db_ok db';
  cd_mv : mv db' = mv_gc (snd (mv_bump (mv db))) (tx_snap tx) ∧ cur_ver (mv db') = cur_ver (mv db) + 1;
  cd_gen : tabs_gen db' = tabs_gen db ∧ brk db' = brk db ∧ length (tabs db') = length (tabs db);
  cd_view : same_view (snaps (mv db')) db db';
  cd_heap : ∀ a, a ∉ all_addrs (tabs db) → a ∉ works tx → heap db' !! a = heap db !! a;
  cd_addrs : ∀ a, a ∈ all_addrs (tabs db') →
    a ∈ works tx ∨ a ∈ all_addrs (tabs db) ∧ heap db' !! a = heap db !! a;
  cd_wrote : ∀ it, it ∈ tx_tabs tx → tt_dirty it = true →
    ∃ e w t e', tabs db !! tt_ent it = Some e ∧ head (chain e) = Some (tt_base it) ∧
      tt_work it = Some w ∧ heap db !! w = Some t ∧
      tabs db' !! tt_ent it = Some e' ∧ ent_name e' = ent_name e ∧ head (chain e') = Some w ∧
      (∃ freed, w :: chain e = chain e' ++ freed) ∧
      heap db' !! w = Some (set_ver_id t (cur_ver (mv db) + 1));
  cd_kept : ∀ i e, tabs db !! i = Some e → (∀ it, it ∈ tx_tabs tx → tt_dirty it = true → tt_ent it ≠ i) →
    ∃ e', tabs db' !! i = Some e' ∧ ent_name e' = ent_name e ∧ head (chain e') = head (chain e);
}.

Lemma publish_length db ver its db' : pub_result db ver its db' → (∀ i, is_Some (tabs db' !! i) ↔ is_Some (tabs db !! i)) .
Proof.
  intros [_ _ _ _ _ R6 R7] i.
  destruct (decide (Exists (fun it => tt_dirty it = true ∧ tt_ent it = i) its)) as [Hex|Hnex].
  - apply Exists_exists in Hex as (it & Hin & Hd & <-). destruct (R6 it Hin Hd) as (e0 & w & t & -> & _ & _ & -> & _). by split; eexists.
  - rewrite R7; [done|]. intros it Hin Hd Heq. apply Hnex, Exists_exists. by exists it.
Qed.

Lemma length_ext {A B} (l : list A) (k : list B) : (∀ i, is_Some (l !! i) ↔ is_Some (k !! i)) → length l = length k.
Proof.
  intros H. destruct (lt_eq_lt_dec (length l) (length k)) as [[Hl| ->]|Hl]; [|done|].
  - apply lookup_lt_is_Some_2, H, lookup_lt_is_Some in Hl. lia.
  - apply lookup_lt_is_Some_2, H, lookup_lt_is_Some in Hl. lia.
Qed.

Lemma db_commit_spec db tx :
  db_ok db → tx_good db (tx, false) → tx_own db tx → cur_ver (mv db) + 1 < U64 →
  (db_commit io_ok db tx = Some (-1, db, tx) ∧
    ∃ it e, it ∈ tx_tabs tx ∧ tt_dirty it = true ∧ tabs db !! tt_ent it = Some e ∧ head (chain e) ≠ Some (tt_base it)) ∨
  ∃ db' tx', db_commit io_ok db tx = Some (0, db', tx') ∧ tx_done tx' = true ∧ committed db tx db'.
Proof.
  intros Hok Htx Hown Hv. pose proof Htx as (Hdone & Hits & Hents). unfold db_commit. simpl in Hdone. rewrite Hdone.
  cbn [fst snd] in Hits.
  destruct (conflict_spec db _ _ _ Hok Hits) as (b & -> & Hb). destruct b.
  { left. by split. }
  right. rename Hb into Hheads.
  destruct (mv_bump_ok _ (do_mv _ Hok) Hv) as [Hb Hb1]. pose proof (pub_start db tx Hok Htx Hown Hv) as Hp.
  destruct (mv_bump (mv db)) as [ver m] eqn:Em. cbn [fst snd] in *. subst ver.
  destruct (publish_spec _ _ _ Hp) as (db1 & its' & -> & Hp1 & Hr). pose proof (pub_end _ _ Hp1) as Hok1.
  destruct (release_spec db1 (tx_snap tx) Hok1) as (db2 & -> & Hc).
  exists db2, (mkTx (tx_snap tx) its' true). split; [done|]. split; [done|].
  pose proof (pub_view db tx db1 Hok Hown) as Hview. rewrite Em in Hview. specialize (Hview Hr).
  pose proof (publish_length _ _ _ _ Hr) as Hlen. pose proof (cur_ver_gc m (tx_snap tx)) as Hcv.
  assert (cur_ver m = cur_ver (mv db) + 1) as Hcm by by apply Hp.
  assert (∀ a, a ∈ snaps m ↔ a ∈ snaps (mv db)) as Hsn.
  { intros a. unfold mv_bump in Em. injection Em as _ <-. done. }
  destruct Hr as [R1 R2 R3 R4 R5 R6 R7], Hc as [C1 C2 (C3 & C4 & C5 & C5') C6 C7 C8 C9]. simpl in *.
  rewrite R1 in C2. split; [done| | | | | | |].
  - rewrite Em. simpl. rewrite C2, Hcv. by split.
  - split_and!; [congruence|congruence|]. rewrite C5'. apply length_ext, Hlen.
  - eapply same_view_trans; [|exact C6]. eapply same_view_sub; [|exact Hview].
    intros s Hs. rewrite C2 in Hs. by apply Hsn, (snaps_gc_sub m (tx_snap tx)).
  - intros a Ha Hw. rewrite C7; [by apply R4|]. by intros [?|?]%R5.
  - intros a Ha. destruct (C8 a Ha) as [Ha1 Ha2]. destruct (decide (a ∈ works tx)) as [|Hw]; [by left|right].
    apply R5 in Ha1 as [?|?]; [|done]. split; [done|]. rewrite Ha2. by apply R4.
  - intros it Hin Hd. destruct (R6 it Hin Hd) as (e & w & t & A1 & A2 & A3 & A4 & A5).
    destruct (Hheads it Hin Hd) as (e0 & He0 & Hh). rewrite A1 in He0. injection He0 as <-.
    destruct (C9 _ _ A4) as (e' & He' & Hn' & Hh' & Hf). simpl in Hh', Hf, Hn'. exists e, w, t, e'. split_and!; try done.
    destruct (C8 w) as [_ Hw]; [|by rewrite Hw].
    apply (chain_in_all _ _ _ _ He'). destruct (chain e'); [done|]. injection Hh' as ->. by left.
  - intros i e Hi Hn. rewrite <- (R7 i Hn) in Hi. destruct (C9 _ _ Hi) as (e' & ? & ? & ? & _). by exists e'.
Qed.

(** ** Abort *)

Lemma free_works h its a : foldl free_work h its !! a = if decide (a ∈ omap tt_work its) then None else h !! a.
Proof.
  revert h; induction its as [|it its IH]; intros h; simpl; [done|]. rewrite IH. unfold free_work.
  destruct (tt_work it) as [w|]; [|done]. destruct (decide (a ∈ omap tt_work its)) as [Hin|Hin].
  - by rewrite decide_True by by right.
  - destruct (decide (a = w)) as [->|Hne].
    + rewrite lookup_delete_eq. by rewrite decide_True by by left.
    + rewrite lookup_delete_ne by done. rewrite decide_False; [done|]. by intros [?|?]%elem_of_cons.
Qed.

(** Aborting frees the working copies and nothing else that can be seen. *)
Record aborted (db : Db) (tx : DbTx) (db' : Db) : Prop := {
  ad_ok : db_ok db';
  ad_mv : mv db' = mv_gc (mv db) (tx_snap tx);
  ad_rest : brk db' = brk db ∧ tabs_gen db' = tabs_gen db ∧ fs db' = fs db ∧ length (tabs db') = length (tabs db);
  ad_view : same_view (snaps (mv db')) db db';
  ad_heap : ∀ a, a ∉ all_addrs (tabs db) → a ∉ works tx → heap db' !! a = heap db !! a;
  ad_freed : ∀ w, w ∈ works tx → heap db' !! w = None;
  ad_addrs : ∀ a, a ∈ all_addrs (tabs db') → a ∈ all_addrs (tabs db) ∧ heap db' !! a = heap db !! a;
  ad_head : ∀ i e, tabs db !! i = Some e →
    ∃ e', tabs db' !! i = Some e' ∧ ent_name e' = ent_name e ∧ head (chain e') = head (chain e);
}.

Lemma db_abort_spec db tx :
  db_ok db → tx_done tx = false → tx_own db tx →
  ∃ db' tx', db_abort db tx = Some (0, db', tx') ∧ tx_done tx' = true ∧ aborted db tx db'.
Proof.
  intros Hok Hdone [_ Hdj]. unfold db_abort. rewrite Hdone.
  set (db0 := set_heap db (foldl free_work (heap db) (tx_tabs tx))).
  assert (∀ a, a ∈ all_addrs (tabs db) → heap db0 !! a = heap db !! a) as Hh.
  { intros a Ha. simpl. rewrite free_works, decide_False; [done|]. intros Hw. by apply (Hdj a). }
  assert (db_ok db0) as Hok0.
  { eapply db_ok_frame; [exact Hok|done|done|exact Hh|]. simpl. intros a t. rewrite free_works.
    destruct (decide _); [done|]. apply Hok. }
  destruct (release_spec db0 (tx_snap tx) Hok0) as (db' & -> & [C1 C2 (C3 & C4 & C5 & C5') C6 C7 C8 C9]).
  eexists db', _. split; [done|]. split; [done|]. split; simpl in *; try done.
  - eapply same_view_trans; [|exact C6]. by apply same_view_heap.
  - intros a Ha Hw. rewrite C7 by done. by rewrite free_works, decide_False.
  - intros w Hw. rewrite C7 by by apply Hdj. by rewrite free_works, decide_True.
  - intros a [Ha ->]%C8. split; [done|]. by apply Hh.
  - intros i e Hi. destruct (C9 i e Hi) as (e' & ? & ? & ? & _). by exists e'.
Qed.
End commit.
