(* ===== verification/System.v ===== *)
(** Interleaved clients of one database: open transactions and readers as a step
    relation, the invariant of its reachable states, and the properties of
    snapshots, commits, aborts and garbage collection in it. *)

From Stdlib Require Import String.
From S2P Require Import Prelude CString Mvcc Parser Values Table TableProofs InsertProofs WriteProofs.
From S2P Require Import ParserProofs Store StoreProofs Db DbProofs Isolation Commit.
From stdpp Require Import base numbers list option gmap relations.
Local Open Scope Z_scope.

(** ** Clients *)

(** The open transactions, each with whether one of its statements failed, and
    the snapshots of the readers. *)
Record Sys := mkSys { s_db : Db; s_txs : list (DbTx * bool); s_rd : list Z }.

(** The table list did not move, or no open transaction points into it. *)
Definition steady (db db' : Db) (txs : list (DbTx * bool)) : Prop :=
  tabs_gen db' = tabs_gen db ∨ Forall (fun tf => tx_tabs (fst tf) = []) txs.

Section system.
Context (io_ok : nat → bool) (Hio : ∀ n, io_ok n = true).

(** One operation of one client.  A transaction that failed a statement, or a
    commit, can only be aborted. *)
Inductive step : Sys → Sys → Prop :=
| st_begin db db' tx txs rd :
    db_begin db = (0, db', tx) → step (mkSys db txs rd) (mkSys db' (txs ++ [(tx, false)]) rd)
| st_txdo db db' tx tx' l1 l2 rd sql rc res :
    db_txdo db tx sql = Some (rc, db', tx', res) → txdo_safe db tx sql →
    steady db db' (l1 ++ (tx, false) :: l2) →
    step (mkSys db (l1 ++ (tx, false) :: l2) rd) (mkSys db' (l1 ++ (tx', negb (rc =? 0)) :: l2) rd)
| st_commit db db' tx tx' l1 l2 rd :
    db_commit io_ok db tx = Some (0, db', tx') → cur_ver (mv db) + 1 < U64 →
    step (mkSys db (l1 ++ (tx, false) :: l2) rd) (mkSys db' (l1 ++ l2) rd)
| st_conflict db db' tx tx' l1 l2 rd :
    db_commit io_ok db tx = Some (-1, db', tx') → cur_ver (mv db) + 1 < U64 →
    step (mkSys db (l1 ++ (tx, false) :: l2) rd) (mkSys db' (l1 ++ (tx', true) :: l2) rd)
| st_abort db db' tx tx' f l1 l2 rd rc :
    db_abort db tx = Some (rc, db', tx') →
    step (mkSys db (l1 ++ (tx, f) :: l2) rd) (mkSys db' (l1 ++ l2) rd)
| st_snap db db' s txs rd :
    db_snap db = (s, db') → s ≠ 0 → step (mkSys db txs rd) (mkSys db' txs (rd ++ [s]))
| st_read db db' s txs r1 r2 sql rc res :
    do_read db s sql = Some (rc, db', res) → steady db db' txs →
    step (mkSys db txs (r1 ++ s :: r2)) (mkSys db' txs (r1 ++ s :: r2))
| st_done db db' s txs r1 r2 :
    db_done db s = Some db' → step (mkSys db txs (r1 ++ s :: r2)) (mkSys db' txs (r1 ++ r2))
| st_ver db db' nm v txs rd :
    db_tab_ver db nm = Some (v, db') → steady db db' txs → step (mkSys db txs rd) (mkSys db' txs rd).

(** ** The invariant *)

Definition all_works (txs : list (DbTx * bool)) : list addr := flat_map (fun tf => works (fst tf)) txs.

Record sys_ok (s : Sys) : Prop := {
  so_db : db_ok (s_db s);
  so_txs : Forall (tx_good (s_db s)) (s_txs s);
  so_own : NoDup (all_works (s_txs s) ++ all_addrs (tabs (s_db s)));
  so_snaps : snaps (mv (s_db s)) ≡ₚ map (fun tf => tx_snap (fst tf)) (s_txs s) ++ s_rd s;
}.

Lemma all_works_app l1 l2 : all_works (l1 ++ l2) = all_works l1 ++ all_works l2.
Proof. apply flat_map_app. Qed.

Lemma elem_of_all_works txs w : w ∈ all_works txs ↔ ∃ tf, tf ∈ txs ∧ w ∈ works (fst tf).
Proof.
  unfold all_works. rewrite list_elem_of_In, in_flat_map.
  split; intros (tf & H1 & H2); exists tf; by rewrite !list_elem_of_In in *.
Qed.

Lemma all_works_middle l1 tf l2 : all_works (l1 ++ tf :: l2) ≡ₚ works (fst tf) ++ all_works (l1 ++ l2).
Proof. rewrite !all_works_app. simpl. apply Permutation_app_swap_app. Qed.

(** What the invariant says of one transaction and the others. *)
Lemma sys_split db l1 tx f l2 rd :
  sys_ok (mkSys db (l1 ++ (tx, f) :: l2) rd) →
  tx_good db (tx, f) ∧ tx_own db tx ∧ Forall (tx_good db) (l1 ++ l2) ∧
  tx_snap tx ∈ snaps (mv db) ∧
  (∀ w, w ∈ works tx → w ∉ all_works (l1 ++ l2)) ∧ NoDup (all_works (l1 ++ l2) ++ all_addrs (tabs db)) ∧
  snaps (mv db) ≡ₚ tx_snap tx :: map (fun tf => tx_snap (fst tf)) (l1 ++ l2) ++ rd.
Proof.
  intros [H1 H2 H3 H4]. simpl in *.
  assert (snaps (mv db) ≡ₚ tx_snap tx :: map (fun tf => tx_snap (fst tf)) (l1 ++ l2) ++ rd) as Hs.
  { rewrite H4, !map_app. simpl. by rewrite <- Permutation_middle. }
  assert (NoDup (works tx ++ all_works (l1 ++ l2) ++ all_addrs (tabs db))) as Hn.
  { change (works tx) with (works (fst (tx, f))). by rewrite (assoc_L (++)), <- all_works_middle. }
  apply Forall_app in H2 as [Ha Hb]. apply Forall_cons_1 in Hb as [Hb Hc].
  apply NoDup_app in Hn as (N1 & N2 & N3).
  split_and!; try done.
  - split; [done|]. intros w Hw Hin. apply (N2 w Hw). apply elem_of_app. by right.
  - by apply Forall_app.
  - rewrite Hs. by left.
  - intros w Hw Hin. apply (N2 w Hw). apply elem_of_app. by left.
Qed.

(** Putting a transaction back among the others. *)
Lemma sys_join db l1 tx f l2 rd :
  db_ok db → tx_good db (tx, f) → Forall (tx_good db) (l1 ++ l2) →
  NoDup (works tx) → NoDup (all_works (l1 ++ l2)) →
  (∀ w, w ∈ works tx → w ∉ all_works (l1 ++ l2)) →
  (∀ w, w ∈ works tx ∨ w ∈ all_works (l1 ++ l2) → w ∉ all_addrs (tabs db)) →
  snaps (mv db) ≡ₚ tx_snap tx :: map (fun tf => tx_snap (fst tf)) (l1 ++ l2) ++ rd →
  sys_ok (mkSys db (l1 ++ (tx, f) :: l2) rd).
Proof.
  intros H1 H2 H3 H4 H5 H6 H7 H8. split; simpl; [done| | |].
  - apply Forall_app in H3 as [Ha Hb]. apply Forall_app. split; [done|by constructor].
  - rewrite all_works_middle. simpl. rewrite !NoDup_app. split_and!; try done; [|apply H1].
    intros w [Hw|Hw]%elem_of_app; apply H7; auto.
  - rewrite H8, !map_app. simpl. by rewrite <- Permutation_middle.
Qed.

(** The rest of the transactions when only one leaves. *)
Lemma sys_leave db txs rd :
  db_ok db → Forall (tx_good db) txs → NoDup (all_works txs) →
  (∀ w, w ∈ all_works txs → w ∉ all_addrs (tabs db)) →
  snaps (mv db) ≡ₚ map (fun tf => tx_snap (fst tf)) txs ++ rd →
  sys_ok (mkSys db txs rd).
Proof. intros. split; simpl; try done. apply NoDup_app. split_and!; try done. apply H. Qed.

(** Transactions whose snapshot stays live and whose copies are untouched. *)
Lemma goods_frame live db db' txs :
  same_view live db db' → tabs_gen db' = tabs_gen db → Forall (tx_good db) txs →
  (∀ tf, tf ∈ txs → tx_snap (fst tf) ∈ live) →
  (∀ w, w ∈ all_works txs → heap db' !! w = heap db !! w) → Forall (tx_good db') txs.
Proof.
  intros Hv Hg Htx Hs Hw. apply Forall_forall. intros tf Hin. rewrite Forall_forall in Htx.
  eapply tx_good_frame; [exact Hv|by apply Hs|done| |by apply Htx].
  intros w Hin'. apply Hw, elem_of_all_works. by exists tf.
Qed.

Lemma all_works_lt db txs w :
  db_ok db → Forall (tx_good db) txs → w ∈ all_works txs → (w < brk db)%nat.
Proof.
  intros Hok Htx (tf & Hin & Hw)%elem_of_all_works. rewrite Forall_forall in Htx.
  pose proof (works_lt db tf Hok (Htx tf Hin)) as H. rewrite Forall_forall in H. by apply H.
Qed.

Lemma tx_good_empty db db' tf : tx_good db tf → tx_tabs (fst tf) = [] → tx_good db' tf.
Proof. intros (H1 & _ & _) Hn. split; [done|]. rewrite Hn. split; constructor. Qed.

Lemma all_works_empty txs : Forall (fun tf => tx_tabs (fst tf) = []) txs → all_works txs = [].
Proof. induction 1 as [|tf txs H _ IH]; simpl; [done|]. rewrite IH. unfold works. by rewrite H. Qed.

(** Operations that change nothing anybody sees. *)
Lemma goods_calm db db' own txs :
  db_ok db → calm db db' own → steady db db' txs → Forall (tx_good db) txs →
  (∀ w, w ∈ all_works txs → w ∉ own) → Forall (tx_good db') txs.
Proof.
  intros Hok Hc [Hg|Hn] Htx Hw.
  - eapply (goods_frame (map (fun tf => tx_snap (fst tf)) txs)); [apply Hc|done|done| |].
    + intros tf Hin. apply list_elem_of_fmap. by exists tf.
    + intros w Hin. apply (cm_heap _ _ _ Hc); [by eapply all_works_lt|by apply Hw].
  - apply Forall_forall. intros tf Hin. rewrite Forall_forall in Htx, Hn.
    eapply tx_good_empty; [by apply Htx|by apply Hn].
Qed.

Lemma works_calm db db' own txs w :
  db_ok db → calm db db' own → Forall (tx_good db) txs →
  (∀ w, w ∈ all_works txs → w ∉ all_addrs (tabs db)) → w ∈ all_works txs → w ∉ all_addrs (tabs db').
Proof.
  intros Hok Hc Htx Hd Hw [Hin|Hin]%(cm_addrs _ _ _ Hc); [by apply (Hd w)|].
  pose proof (all_works_lt db txs w Hok Htx Hw). lia.
Qed.

Lemma sys_calm db db' txs rd :
  sys_ok (mkSys db txs rd) → calm db db' [] → steady db db' txs → sys_ok (mkSys db' txs rd).
Proof.
  intros [H1 H2 H3 H4] Hc Hs. simpl in *. apply NoDup_app in H3 as (N1 & N2 & N3).
  apply sys_leave; [apply Hc| |done| |].
  - eapply goods_calm; [exact H1|exact Hc|done|done|]. intros w _. apply not_elem_of_nil.
  - intros w. by eapply works_calm.
  - by rewrite (cm_mv _ _ _ Hc).
Qed.

(** ** Reads *)

Lemma sel_exec t stmt res rc t' r :
  stype stmt = STMT_SELECT → exec_stmt t stmt res = Some (rc, t', r) → t' = t.
Proof. unfold exec_stmt. intros ->. destruct (sel_do t stmt res) as [[? ?]|]; [|done]. by intros [= _ <- _]. Qed.

Lemma set_heap_same db a t : heap db !! a = Some t → set_heap db (<[a := t]> (heap db)) = db.
Proof. intros H. rewrite insert_id by done. by destruct db. Qed.

Lemma do_read_calm db s sql rc db' res :
  db_ok db → do_read db s sql = Some (rc, db', res) → calm db db' [].
Proof.
  intros Hok. unfold do_read. destruct (parse_ok db sql res_clr) as [stmt|r]; [|intros [= _ <- _]; by apply calm_refl].
  destruct (stype stmt) eqn:Ety; try (intros [= _ <- _]; by apply calm_refl).
  destruct (need_ent db (table_name stmt)) as [[ent db1]|] eqn:En; [|done].
  destruct (need_ent_calm _ _ _ _ Hok En) as [Hc _].
  destruct (match ent with Some i => tab_vis db1 i s | None => Some None end) as [[a|]|]; [| |done].
  2:{ by intros [= _ <- _]. }
  unfold exec_at. destruct (heap db1 !! a) as [t|] eqn:Ea; [|done].
  destruct (exec_stmt t stmt _) as [[[rc0 t'] r]|] eqn:Ee; [|done]. intros [= _ <- _].
  apply sel_exec in Ee as ->; [|done]. by rewrite set_heap_same.
Qed.

Lemma db_tab_ver_calm db nm v db' : db_ok db → db_tab_ver db nm = Some (v, db') → calm db db' [].
Proof.
  intros Hok. unfold db_tab_ver. destruct nm as [|c nm]; [intros [= _ <-]; by apply calm_refl|].
  destruct (need_ent db (c :: nm)) as [[ent db1]|] eqn:En; [|done].
  destruct (need_ent_calm _ _ _ _ Hok En) as [Hc _]. destruct ent as [i|]; [|by intros [= _ <-]].
  destruct (tabs db1 !! i) as [e|]; [|done]. destruct (chain e) as [|a ch]; [by intros [= _ <-]|].
  destruct (heap db1 !! a); [|done]. by intros [= _ <-].
Qed.

(** ** A new snapshot *)

Lemma mv_snap_true m : mv_ok m → fst (mv_snap true m) = cur_ver m ∧ snaps (snd (mv_snap true m)) = snaps m ++ [cur_ver m].
Proof. intros _. unfold mv_snap. by destruct (_ =? _). Qed.

Lemma db_ok_snap db : db_ok db → db_ok (set_mv db (snd (mv_snap true (mv db)))).
Proof.
  intros [H1 H2 H3 H4]. split; simpl; [by apply mv_snap_ok|done| |done]. by rewrite cur_ver_snap.
Qed.

Lemma tx_good_mv db m tf : tx_good db tf → tx_good (set_mv db m) tf.
Proof.
  intros (H1 & H2 & H3). split; [done|]. split; [|done]. eapply Forall_impl; [exact H2|].
  intros it [G H]. by split.
Qed.

Lemma sys_snap db txs rd :
  sys_ok (mkSys db txs rd) →
  sys_ok (mkSys (set_mv db (snd (mv_snap true (mv db)))) txs (rd ++ [cur_ver (mv db)])).
Proof.
  intros [H1 H2 H3 H4]. simpl in *. split; simpl; [by apply db_ok_snap| |done|].
  - eapply Forall_impl; [exact H2|]. intros tf. apply tx_good_mv.
  - destruct (mv_snap_true (mv db) (do_mv _ H1)) as [_ ->]. rewrite H4. by rewrite (assoc_L (++)).
Qed.

Lemma db_begin_spec db rc db' tx :
  db_ok db → db_begin db = (rc, db', tx) →
  rc = 0 ∧ db' = set_mv db (snd (mv_snap true (mv db))) ∧ tx = mkTx (cur_ver (mv db)) [] false.
Proof.
  intros Hok. unfold db_begin. pose proof (mv_snap_true _ (do_mv _ Hok)) as [H1 _].
  destruct (mv_snap true (mv db)) as [s m] eqn:E. simpl in H1. subst s. pose proof (mo_ver _ (do_mv _ Hok)).
  destruct (Z.eqb_spec (cur_ver (mv db)) 0); [lia|]. by intros [= <- <- <-].
Qed.

Lemma db_snap_spec db s db' :
  db_ok db → db_snap db = (s, db') → s = cur_ver (mv db) ∧ db' = set_mv db (snd (mv_snap true (mv db))).
Proof.
  intros Hok. unfold db_snap. pose proof (mv_snap_true _ (do_mv _ Hok)) as [H1 _].
  destruct (mv_snap true (mv db)) as [s' m] eqn:E. simpl in H1. by intros [= <- <-].
Qed.

Lemma same_view_mv live db m : db_ok db → same_view live db (set_mv db m).
Proof. intros Hok. by apply same_view_heap. Qed.

Lemma gc_perm m s rest : mv_ok m → snaps m ≡ₚ s :: rest → snaps (mv_gc m s) ≡ₚ rest.
Proof.
  intros [Hv Hs _] Hp. unfold mv_gc. destruct (Z.eqb_spec s 0) as [->|Hne]; simpl.
  - rewrite Forall_forall in Hs. exfalso. specialize (Hs 0). simpl in Hs. rewrite Hp in Hs. lapply Hs; [lia|]. by left.
  - apply (Permutation_cons_inv (a:=s)). rewrite <- Hp. symmetry. apply drop_first_perm. rewrite Hp. by left.
Qed.

(** ** Each step keeps the invariant *)

Lemma step_begin db txs rd :
  sys_ok (mkSys db txs rd) →
  sys_ok (mkSys (set_mv db (snd (mv_snap true (mv db)))) (txs ++ [(mkTx (cur_ver (mv db)) [] false, false)]) rd).
Proof.
  intros H. apply sys_snap in H as [H1 H2 H3 H4]. simpl in *. split; simpl; [done| | |].
  - apply Forall_app. split; [done|]. apply Forall_singleton. split; [done|]. split; constructor.
  - rewrite all_works_app. simpl. by rewrite app_nil_r.
  - rewrite H4, map_app. simpl. rewrite <- !(assoc_L (++)). apply Permutation_app_head, Permutation_app_comm.
Qed.

Lemma step_txdo db db' tx tx' l1 l2 rd sql rc res :
  sys_ok (mkSys db (l1 ++ (tx, false) :: l2) rd) →
  db_txdo db tx sql = Some (rc, db', tx', res) → txdo_safe db tx sql →
  steady db db' (l1 ++ (tx, false) :: l2) →
  sys_ok (mkSys db' (l1 ++ (tx', negb (rc =? 0)) :: l2) rd) ∧ calm db db' (works tx).
Proof.
  intros Hsys E Hsafe Hst. destruct (sys_split _ _ _ _ _ _ Hsys) as (Htx & [Hn Hd] & Hrest & Hsn & Hdj & Hall & Hs).
  pose proof (so_db _ Hsys) as Hok. simpl in Hok. apply NoDup_app in Hall as (N1 & N2 & _).
  assert (tabs_gen db' = tabs_gen db ∨ tx_tabs tx = []) as Hg.
  { destruct Hst as [?|Hst]; [by left|right]. apply Forall_app in Hst as [_ Hst]. by apply Forall_cons_1 in Hst as [? _]. }
  assert (steady db db' (l1 ++ l2)) as Hst'.
  { destruct Hst as [?|Hst]; [by left|right]. apply Forall_app in Hst as [Ha Hst]. apply Forall_cons_1 in Hst as [_ Hb].
    by apply Forall_app. }
  destruct (db_txdo_spec db tx sql rc db' tx' res Hok Htx Hd Hn Hg Hsafe E) as (C & G & Sn & W).
  split; [|done]. pose proof (works_lt db (tx, false) Hok Htx) as Hlt. rewrite Forall_forall in Hlt. simpl in Hlt.
  assert (∀ w, w ∈ all_works (l1 ++ l2) → w ∉ all_addrs (tabs db')) as Hod.
  { intros w. by eapply works_calm. }
  assert (∀ w, w ∈ works tx → w ∉ all_addrs (tabs db')) as Hod'.
  { intros w Hw [Hin|Hin]%(cm_addrs _ _ _ C); [by apply (Hd w)|]. specialize (Hlt w Hw). lia. }
  assert (Forall (tx_good db') (l1 ++ l2)) as Hrest'.
  { eapply goods_calm; [exact Hok|exact C|done|done|]. intros w Hw Hin. by apply (Hdj w). }
  assert (∀ w, w ∈ works tx' → w ∈ works tx ∨ ((brk db ≤ w)%nat ∧ w ∉ all_addrs (tabs db'))) as Hnew.
  { intros w Hw. destruct W as [W|(w0 & Hr & Hf & W)]; [left; by rewrite <- W|]. rewrite W in Hw.
    apply elem_of_cons in Hw as [->|?]; [right|by left]. split; [lia|done]. }
  apply sys_join; try done; [apply C| | | |].
  - destruct W as [W|(w0 & Hr & Hf & W)]; rewrite W; [done|]. constructor; [|done].
    intros Hin. specialize (Hlt _ Hin). lia.
  - intros w Hw Hin. destruct (Hnew w Hw) as [?|[Hge _]]; [by apply (Hdj w)|].
    pose proof (all_works_lt db _ w Hok Hrest Hin). lia.
  - intros w [Hw|Hw]; [|by apply Hod]. destruct (Hnew w Hw) as [?|[_ ?]]; [by apply Hod'|done].
  - rewrite (cm_mv _ _ _ C), Sn. exact Hs.
Qed.

Lemma step_commit db db' tx l1 l2 rd :
  sys_ok (mkSys db (l1 ++ (tx, false) :: l2) rd) → committed db tx db' → sys_ok (mkSys db' (l1 ++ l2) rd).
Proof.
  intros Hsys [C1 [C2 _] (C3 & C3' & _) C4 C5 C6 _ _].
  destruct (sys_split _ _ _ _ _ _ Hsys) as (Htx & [Hn Hd] & Hrest & Hsn & Hdj & Hall & Hs).
  apply NoDup_app in Hall as (N1 & N2 & _).
  assert (snaps (mv db') ≡ₚ map (fun tf => tx_snap (fst tf)) (l1 ++ l2) ++ rd) as Hs'.
  { rewrite C2. pose proof (do_mv _ (so_db _ Hsys)) as [M1 M2 M3]. unfold mv_gc.
    assert (snaps (snd (mv_bump (mv db))) = snaps (mv db)) as Hb by done.
    destruct (Z.eqb_spec (tx_snap tx) 0) as [E|Hne]; simpl.
    - rewrite Forall_forall in M2. specialize (M2 _ Hsn). simpl in M2. lia.
    - apply (Permutation_cons_inv (a:=tx_snap tx)). rewrite <- Hs. symmetry. by apply drop_first_perm. }
  apply sys_leave; try done.
  - eapply goods_frame; [exact C4|done|done| |].
    + intros tf Hin. rewrite Hs'. apply elem_of_app. left. apply list_elem_of_fmap. by exists tf.
    + intros w Hw. apply C5; [by apply N2|]. intros Hin. by apply (Hdj w).
  - intros w Hw [Hin|[Hin _]]%C6; [by apply (Hdj w)|by apply (N2 w)].
Qed.

Lemma step_abort db db' tx f l1 l2 rd :
  sys_ok (mkSys db (l1 ++ (tx, f) :: l2) rd) → aborted db tx db' → sys_ok (mkSys db' (l1 ++ l2) rd).
Proof.
  intros Hsys [C1 C2 (C3 & C3' & _) C4 C5 _ C6 _].
  destruct (sys_split _ _ _ _ _ _ Hsys) as (Htx & [Hn Hd] & Hrest & Hsn & Hdj & Hall & Hs).
  apply NoDup_app in Hall as (N1 & N2 & _).
  assert (snaps (mv db') ≡ₚ map (fun tf => tx_snap (fst tf)) (l1 ++ l2) ++ rd) as Hs'.
  { rewrite C2. apply gc_perm; [apply (so_db _ Hsys)|done]. }
  apply sys_leave; try done.
  - eapply goods_frame; [exact C4|done|done| |].
    + intros tf Hin. rewrite Hs'. apply elem_of_app. left. apply list_elem_of_fmap. by exists tf.
    + intros w Hw. apply C5; [by apply N2|]. intros Hin. by apply (Hdj w).
  - intros w Hw [Hin _]%C6. by apply (N2 w).
Qed.

Lemma step_done db db' s txs r1 r2 :
  sys_ok (mkSys db txs (r1 ++ s :: r2)) → collected db db' s → sys_ok (mkSys db' txs (r1 ++ r2)).
Proof.
  intros [H1 H2 H3 H4] [C1 C2 (C3 & C3' & _) C4 C5 C6 _]. simpl in *. apply NoDup_app in H3 as (N1 & N2 & N3).
  assert (snaps (mv db') ≡ₚ map (fun tf => tx_snap (fst tf)) txs ++ r1 ++ r2) as Hs'.
  { rewrite C2. apply gc_perm; [apply H1|]. rewrite H4. rewrite !(assoc_L (++)). by rewrite <- Permutation_middle. }
  apply sys_leave; try done.
  - eapply goods_frame; [exact C4|done|done| |].
    + intros tf Hin. rewrite Hs'. apply elem_of_app. left. apply list_elem_of_fmap. by exists tf.
    + intros w Hw. apply C5. by apply N2.
  - intros w Hw [Hin _]%C6. by apply (N2 w).
Qed.

(** ** Every step *)

Lemma step_spec s s' :
  sys_ok s → step s s' → sys_ok s' ∧ same_view (snaps (mv (s_db s'))) (s_db s) (s_db s').
Proof.
  intros Hsys Hst. pose proof (so_db _ Hsys) as Hok.
  inversion Hst as [db db' tx txs rd E|db db' tx tx' l1 l2 rd sql rc res E Hsafe Hsd|db db' tx tx' l1 l2 rd E Hv
    |db db' tx tx' l1 l2 rd E Hv|db db' tx tx' f l1 l2 rd rc E|db db' sn txs rd E Hne|db db' sn txs r1 r2 sql rc res E Hsd
    |db db' sn txs r1 r2 E|db db' nm v txs rd E Hsd]; subst; simpl in *.
  - apply db_begin_spec in E as (_ & -> & ->); [|done]. split; [by apply step_begin|by apply same_view_mv].
  - edestruct step_txdo as [H1 H2]; [exact Hsys|exact E|done|done|]. split; [done|apply H2].
  - destruct (sys_split _ _ _ _ _ _ Hsys) as (Htx & Hown & _).
    destruct (db_commit_spec io_ok Hio db tx Hok Htx Hown Hv) as [[E' _]|(db1 & tx1 & E' & _ & Hc)]; rewrite E in E'; [done|].
    injection E' as <- <-. split; [by eapply step_commit|apply Hc].
  - destruct (sys_split _ _ _ _ _ _ Hsys) as (Htx & Hown & _).
    destruct (db_commit_spec io_ok Hio db tx Hok Htx Hown Hv) as [[E' _]|(db1 & tx1 & E' & _ & Hc)]; rewrite E in E'; [|done].
    injection E' as -> ->. split; [|by apply same_view_heap]. destruct Hsys as [H1 H2 H3 H4]. simpl in *.
    split; simpl; [done| | |].
    + apply Forall_app in H2 as [Ha Hb]. apply Forall_cons_1 in Hb as [Hb Hc]. apply Forall_app. split; [done|].
      constructor; [by eapply tx_good_fail|done].
    + by rewrite all_works_middle in *.
    + by rewrite !map_app in *.
  - destruct (sys_split _ _ _ _ _ _ Hsys) as (Htx & Hown & _).
    destruct (db_abort_spec db tx Hok) as (db1 & tx1 & E' & _ & Hc); [by apply Htx|done|].
    rewrite E in E'. injection E' as -> -> ->. split; [by eapply step_abort|apply Hc].
  - apply db_snap_spec in E as (-> & ->); [|done]. split; [by apply sys_snap|by apply same_view_mv].
  - apply do_read_calm in E; [|done]. split; [by eapply sys_calm|apply E].
  - destruct (release_spec db sn Hok) as (db1 & E' & Hc). unfold db_done in E. rewrite E in E'. injection E' as <-.
    split; [by eapply step_done|apply Hc].
  - apply db_tab_ver_calm in E; [|done]. split; [by eapply sys_calm|apply E].
Qed.

Lemma steps_ok s s' : sys_ok s → rtc step s s' → sys_ok s'.
Proof. intros H Hs. induction Hs as [|s1 s2 s3 H1 _ IH]; [done|]. apply IH. by apply (step_spec s1). Qed.

(** Steps during which the snapshot [v] stays live. *)
Definition step_live (v : Z) (s s' : Sys) : Prop := step s s' ∧ v ∈ snaps (mv (s_db s')).

Lemma steps_live_view v s s' :
  sys_ok s → rtc (step_live v) s s' → same_view [v] (s_db s) (s_db s').
Proof.
  intros Hok Hs. induction Hs as [s|s1 s2 s3 [H1 Hv] _ IH]; [apply same_view_heap; [apply Hok|done|done]|].
  destruct (step_spec _ _ Hok H1) as [Hok2 Hview]. eapply same_view_trans; [|by apply IH].
  eapply same_view_sub; [|exact Hview]. by intros x ->%list_elem_of_singleton.
Qed.
End system.

Lemma db_open_ok f dir ms mq : sys_ok (mkSys (db_open f dir ms mq) [] []).
Proof.
  split; simpl; try done; [|constructor].
  split; simpl; [by apply mv_new_ok|done|constructor|constructor].
Qed.
