(* ===== verification/Single.v ===== *)
(** Single statements, [db_exec]: with nobody in between, a write is one
    statement on a copy of the newest version, published in one step. *)

From S2P Require Import Prelude CString Mvcc Parser Values Table TableProofs InsertProofs WriteProofs.
From S2P Require Import ParserProofs Store StoreProofs Db DbProofs Isolation Commit System.
From stdpp Require Import base numbers list option gmap.
Local Open Scope Z_scope.

Lemma exec_stmt_write tab stmt res :
  tab_ok tab → next_ok tab → safe_stmt tab stmt → count res = 0 → stmt_is_wr stmt = true →
  ∃ rc tab' res', exec_stmt tab stmt res = Some (rc, tab', res') ∧ (rc = 0 ∨ rc = -1 ∧ err_code res' ≠ []).
Proof.
  intros Hok Hn Hsafe Hc. unfold exec_stmt, stmt_is_wr, safe_stmt in *. destruct (stype stmt); try done; intros _.
  - destruct (Hsafe eq_refl) as (H1 & H2 & H3).
    destruct (ins_do_spec tab stmt res Hok H1 Hn H2 H3) as (rc & t & r & -> & _ & _ & _ & _ & H).
    exists rc, t, r. split; [done|]. destruct H as [(-> & _)|(-> & _ & He & _)]; [by left|by right].
  - destruct (where_conditions stmt) as [|c cs] eqn:Ew.
    + unfold del_do. rewrite Ew. eexists _, _, _. split; [done|]. by right.
    + destruct (del_do_spec tab stmt res Hok) as (t & -> & _); [by rewrite Ew|done|].
      eexists _, _, _. split; [done|]. by left.
  - destruct (upd_do_spec tab stmt res Hok Hc) as (rc & t & r & -> & _ & H). eexists _, _, _. split; [done|].
    destruct (upd_target tab stmt) as [[idx v]|]; [|by destruct H as (-> & _ & ?); right].
    destruct H as (_ & _ & H). destruct (decide (rc = 0)) as [|Hrc]; [by left|right; auto].
Qed.

Lemma need_ent_mv db m nm r db1 :
  need_ent db nm = Some (r, db1) → need_ent (set_mv db m) nm = Some (r, set_mv db1 m).
Proof.
  unfold need_ent. change (get_ent (set_mv db m) nm) with (get_ent db nm).
  destruct (get_ent db nm); [by intros [= <- <-]|]. simpl.
  destruct (tab_load (fs db) (root db) nm) as [[tab|]|]; [|by intros [= <- <-]|done].
  simpl. by intros [= <- <-].
Qed.

Section single.
Context (io_ok : nat → bool) (Hio : ∀ n, io_ok n = true).

(** The newest version of entry [i]. *)
Definition newest (db : Db) (i : nat) : option TabVer :=
  e ← tabs db !! i; a ← head (chain e); heap db !! a.

Lemma newest_spec db i t :
  newest db i = Some t ↔ ∃ e a, tabs db !! i = Some e ∧ head (chain e) = Some a ∧ heap db !! a = Some t.
Proof.
  unfold newest. split.
  - destruct (tabs db !! i) as [e|]; [|done]. simpl. destruct (head (chain e)) as [a|] eqn:E; [|done]. simpl.
    intros H. by exists e, a.
  - intros (e & a & -> & H & ?). simpl. by rewrite H.
Qed.

(** The transaction of a write up to its statement: what it runs on. *)
Lemma write_setup db nm i db1 e a t t' :
  db_ok db → need_ent db nm = Some (Some i, db1) →
  tabs db1 !! i = Some e → head (chain e) = Some a → heap db1 !! a = Some t → tab_clone t = Some t' →
  let db0 := set_mv db (snd (mv_snap true (mv db))) in
  ∃ dbv txv db2 tx2, db_begin db = (0, db0, mkTx (cur_ver (mv db)) [] false) ∧
    tx_view db0 (mkTx (cur_ver (mv db)) [] false) nm = Some (Some 0%nat, dbv, txv) ∧
    tx_make_work dbv txv (Some 0%nat) = Some (true, db2, tx2) ∧
    tx2 = mkTx (cur_ver (mv db)) [mkTxTab (tabs_gen db1) i a (Some (brk db1)) true] false ∧
    dbv = set_mv db1 (snd (mv_snap true (mv db))) ∧
    db2 = snd (alloc_tab dbv t').
Proof.
  intros Hok En He Hh Ha Ec db0.
  destruct (need_ent_calm _ _ _ _ Hok En) as [Hc (e0 & He0 & Hn0)]. rewrite He in He0. injection He0 as <-.
  destruct (db_begin db) as [[rc db0'] tx0] eqn:Eb. pose proof (db_begin_spec _ _ _ _ Hok Eb) as (-> & -> & ->).
  unfold tx_view. simpl. unfold db0. rewrite (need_ent_mv _ _ _ _ _ En). unfold tab_vis. simpl. rewrite He.
  destruct (db_ok_chain db1 i e (cm_ok _ _ _ Hc) He) as [Hg _]. destruct (chain e) as [|a' ch] eqn:Ech; [done|].
  injection Hh as ->. rewrite (vis_walk_head _ _ _ _ _ _ Hg) by (rewrite (cm_mv _ _ _ Hc); lia).
  eexists _, _, _, _. split; [done|]. split; [done|]. unfold tx_make_work. simpl. rewrite Ha, Ec. simpl. by split_and!.
Qed.

Lemma clone_ok t t' : tab_ok t → next_ok t → tab_clone t = Some t' → tab_ok t' ∧ next_ok t' ∧ name t' = name t.
Proof.
  intros Hok Hn E. destruct (tab_clone_spec t Hok) as (t2 & E2 & Ht & _ & _ & _ & _ & _ & Hn' & Hnm).
  rewrite E in E2. injection E2 as <-. split_and!; [done| |done]. unfold next_ok. by rewrite Hn'.
Qed.

(** The state in which the commit or the abort of a single write starts. *)
Lemma write_ready db i db1 e a t t' rc t2 stmt res :
  db_ok db → calm db db1 [] → tabs db1 !! i = Some e → head (chain e) = Some a → heap db1 !! a = Some t →
  tab_clone t = Some t' → safe_stmt t' stmt →
  exec_stmt t' stmt res_clr = Some (rc, t2, res) →
  let m := snd (mv_snap true (mv db)) in
  let db3 := set_heap (snd (alloc_tab (set_mv db1 m) t')) (<[brk db1 := t2]> (<[brk db1 := t']> (heap db1))) in
  let tx := mkTx (cur_ver (mv db)) [mkTxTab (tabs_gen db1) i a (Some (brk db1)) true] false in
  db_ok db3 ∧ tx_own db3 tx ∧ (rc = 0 → tx_good db3 (tx, false)).
Proof.
  intros Hok Hc He Hh Ha Ec Hsafe Ee m db3 tx. pose proof (cm_ok _ _ _ Hc) as Hok1.
  assert (∀ b, b ∈ all_addrs (tabs db1) → heap db3 !! b = heap db1 !! b) as Hch.
  { intros b Hb. simpl. rewrite !lookup_insert_ne; [done| |]; intros <-; by apply (fresh_not_chain db1 Hok1). }
  destruct (db_ok_chain db1 i e Hok1 He) as [Hg _].
  assert (a ∈ chain e) as Hin by (destruct (chain e); [done|injection Hh as ->; by left]).
  destruct (chain_good_in _ _ _ _ _ Hg Hin) as (t0 & Ht0 & _ & Htok & Htn & Htname). rewrite Ha in Ht0. injection Ht0 as <-.
  destruct (clone_ok _ _ Htok Htn Ec) as (Ktok & Ktn & Kname).
  assert (db_ok db3) as Hok3.
  { pose proof (db_ok_snap _ Hok) as [M _ _ _]. simpl in M. destruct Hok1 as [H1 H2 H3 H4].
    split; simpl; [done| | |done].
    - intros b tb. destruct (decide (b = brk db1)) as [->|Hne]; [lia|]. rewrite !lookup_insert_ne by done.
      intros Hb. apply H2 in Hb. lia.
    - unfold m. rewrite cur_ver_snap. rewrite <- (cm_mv _ _ _ Hc).
      apply Forall_forall. intros e0 Hin0. rewrite Forall_forall in H3. destruct (H3 e0 Hin0) as [Hg0 Hne0]. split; [|done]. eapply chain_good_heap; [|exact Hg0].
      intros b Hb. apply Hch. apply elem_of_all_addrs. by exists e0. }
  split; [done|]. split.
  - split; [apply NoDup_singleton|]. intros w Hw. unfold works in Hw. simpl in Hw.
    apply list_elem_of_singleton in Hw as ->. simpl. by apply fresh_not_chain.
  - intros ->. split; [done|]. simpl. split; [|apply NoDup_singleton]. apply Forall_singleton. split; simpl; [done|].
    exists e. split; [done|]. split.
    + rewrite (vis_walk_heap (heap db1)) by (intros b Hb; apply Hch; by eapply chain_in_all).
      destruct (chain e) as [|a' ch]; [done|]. injection Hh as ->.
      apply (vis_walk_head _ _ _ _ _ _ Hg). rewrite (cm_mv _ _ _ Hc). lia.
    + exists t2. rewrite lookup_insert_eq. split; [done|]. intros _.
      destruct (exec_stmt_ok t' stmt res_clr t2 res Ktok Ktn Hsafe eq_refl Ee) as (? & ? & Hs).
      split_and!; [rewrite (ss_name _ _ Hs); congruence|done|done].
Qed.

Lemma newest_kept db db' :
  db_ok db → (∀ a, a ∈ all_addrs (tabs db) → a ∈ all_addrs (tabs db') → heap db' !! a = heap db !! a) →
  ∀ i e e', tabs db !! i = Some e → tabs db' !! i = Some e' → head (chain e') = head (chain e) →
  newest db' i = newest db i.
Proof.
  intros Hok Hh i e e' He He' Hhd. unfold newest. rewrite He, He'. simpl. rewrite Hhd.
  destruct (chain e) as [|a ch] eqn:E; [done|]. simpl. apply Hh.
  - eapply chain_in_all; [exact He|]. rewrite E. by left.
  - eapply chain_in_all; [exact He'|]. destruct (chain e'); [done|]. injection Hhd as ->. by left.
Qed.

(** What a write does to a database whose table [i] has version [t] on top:
    the statement runs on a copy, and is published when it succeeds. *)
Record wrote (db : Db) (i : nat) (rc : Z) (t2 : TabVer) (db' : Db) : Prop := {
  wr_ok : db_ok db';
  wr_snaps : snaps (mv db') ≡ₚ snaps (mv db);
  wr_view : same_view (snaps (mv db)) db db';
  wr_ver : cur_ver (mv db') = if rc =? 0 then cur_ver (mv db) + 1 else cur_ver (mv db);
  wr_head : rc = 0 → newest db' i = Some (set_ver_id t2 (cur_ver (mv db) + 1));
}.

Lemma snap_perm m : mv_ok m → ∀ m', snaps m' = snaps (snd (mv_snap true m)) → mv_ok m' →
  snaps (mv_gc m' (cur_ver m)) ≡ₚ snaps m.
Proof.
  intros Hm m' E Hm'. apply gc_perm; [done|]. rewrite E. destruct (mv_snap_true m Hm) as [_ ->].
  by rewrite Permutation_app_comm.
Qed.

Lemma write_loop_spec n db stmt i db1 t t' :
  db_ok db → cur_ver (mv db) + 1 < U64 → stmt_is_wr stmt = true →
  need_ent db (table_name stmt) = Some (Some i, db1) → newest db1 i = Some t → tab_clone t = Some t' →
  safe_stmt t' stmt →
  ∃ rc t2 res db', exec_stmt t' stmt res_clr = Some (rc, t2, res) ∧ (rc = 0 ∨ rc = -1 ∧ err_code res ≠ []) ∧
    write_loop io_ok (S n) db stmt res_clr = Some (rc, db', res) ∧ wrote db i rc t2 db' ∧
    (∀ j, (j < length (tabs db1))%nat → (j ≠ i ∨ rc ≠ 0) → newest db' j = newest db1 j) ∧
    (rc ≠ 0 → fs db' = fs db1).
Proof.
  intros Hok Hv Hwr En Ht Ec Hsafe.
  apply newest_spec in Ht as (e & a0 & He & Hh & Ha0).
  destruct (write_setup db _ i db1 e a0 t t' Hok En He Hh Ha0 Ec) as (dbv & txv & db2 & tx2 & Eb & Ev & Em & -> & -> & ->).
  destruct (need_ent_calm _ _ _ _ Hok En) as [Hc _].
  pose proof (cm_ok _ _ _ Hc) as Hok1.
  pose proof (db_ok_chain db1 i e Hok1 He) as [Hg _].
  assert (a0 ∈ chain e) as Hin by (destruct (chain e); [done|injection Hh as ->; by left]).
  destruct (chain_good_in _ _ _ _ _ Hg Hin) as (t0 & Ht0 & _ & Htok & Htn & _). rewrite Ha0 in Ht0. injection Ht0 as <-.
  destruct (clone_ok _ _ Htok Htn Ec) as (Ktok & Ktn & _).
  destruct (exec_stmt_write t' stmt res_clr Ktok Ktn Hsafe eq_refl Hwr) as (rc & t2 & res & Ee & Hrc).
  destruct (write_ready db i db1 e a0 t t' rc t2 stmt res Hok Hc He Hh Ha0 Ec Hsafe Ee) as (Hok3 & Hown & Hgood).
  set (m := snd (mv_snap true (mv db))) in *.
  match type of Hok3 with db_ok ?d => set (db3 := d) in * end.
  match type of Hown with tx_own _ ?x => set (tx := x) in * end.
  assert (∀ b, b ∈ all_addrs (tabs db1) → heap db3 !! b = heap db1 !! b) as Hch.
  { intros b Hb. simpl. rewrite !lookup_insert_ne; [done| |]; intros <-; by apply (fresh_not_chain db1 Hok1). }
  assert (same_view (snaps (mv db)) db db3) as Hview.
  { eapply same_view_trans; [apply Hc|]. by apply same_view_heap. }
  assert (mv_ok m) as Hm by by apply mv_snap_ok, Hok.
  exists rc, t2, res. cbn [write_loop]. rewrite Eb. cbn [Z.eqb negb]. rewrite Ev, Em. cbn [negb].
  change (tx_tabs tx !! 0%nat) with (Some (mkTxTab (tabs_gen db1) i a0 (Some (brk db1)) true)). cbn [tt_work].
  assert (exec_at (snd (alloc_tab (set_mv db1 m) t')) (brk db1) stmt res_clr = Some (rc, db3, res)) as Ex.
  { unfold exec_at. simpl. rewrite lookup_insert_eq, Ee. done. }
  rewrite Ex.
  assert (cur_ver m = cur_ver (mv db)) as Hcm by apply cur_ver_snap.
  destruct Hrc as [-> | [-> He']].
  - destruct (db_commit_spec io_ok Hio db3 tx Hok3 (Hgood eq_refl) Hown) as [[Ecm (it & e2 & Hit & _ & He2 & Hno)]|(db' & tx' & Ecm & _ & Hcd)].
    { simpl. by rewrite Hcm. }
    { exfalso. apply list_elem_of_singleton in Hit as ->. simpl in He2. rewrite He in He2. injection He2 as <-. by rewrite Hh in Hno. }
    exists db'. split; [done|]. split; [by left|]. cbn [Z.eqb]. rewrite Ecm. split; [done|].
    destruct Hcd as [C1 [C2 C2'] C3 C4 C5 C6 C7 C8].
    assert (snaps (mv db') ≡ₚ snaps (mv db)) as Hsn.
    { rewrite C2. apply (snap_perm _ (do_mv _ Hok)); [done|]. apply mv_bump_ok; [done|]. simpl. by rewrite Hcm. }
    split.
    + split; [done|done| | |].
      * eapply same_view_trans; [exact Hview|]. eapply same_view_sub; [|exact C4]. intros s. by rewrite Hsn.
      * rewrite C2'. simpl. by rewrite Hcm.
      * intros _. destruct (C7 (mkTxTab (tabs_gen db1) i a0 (Some (brk db1)) true)) as (e1 & w & tw & e' & _ & _ & Hw & Htw & He1 & _ & Hh1 & _ & Hw1);
          [by left|done|]. injection Hw as <-. simpl in Htw, Hw1. rewrite lookup_insert_eq in Htw. injection Htw as <-.
        apply newest_spec. exists e', (brk db1). rewrite Hcm in Hw1. by split_and!.
    + split; [|done]. intros j Hj [Hne|?]; [|done]. apply lookup_lt_is_Some in Hj as (ej & Hej).
      destruct (C8 j ej Hej) as (e' & He1 & _ & Hh1).
      { by intros it ->%list_elem_of_singleton _ <-. }
      eapply newest_kept; [exact Hok1| |exact Hej|exact He1|exact Hh1].
      intros b Hb Hb'. destruct (C6 b Hb') as [Hw|[_ ->]]; [|by apply Hch].
      apply list_elem_of_singleton in Hw as ->. by apply (fresh_not_chain db1 Hok1) in Hb.
  - assert (tx_done tx = false) as Hdone by done.
    destruct (db_abort_spec db3 tx Hok3 Hdone Hown) as (db' & tx' & Ea & _ & [A1 A2 (A3 & A4 & A5 & A5') A6 A7 A8 A9 A10]).
    exists db'. split; [done|]. split; [by right|]. cbn [Z.eqb]. rewrite Ea. split; [by destruct (err_code res)|].
    assert (snaps (mv db') ≡ₚ snaps (mv db)) as Hsn.
    { rewrite A2. by apply (snap_perm _ (do_mv _ Hok)). }
    split.
    + split; [done|done| | |done].
      * eapply same_view_trans; [exact Hview|]. eapply same_view_sub; [|exact A6]. intros s. by rewrite Hsn.
      * rewrite A2, cur_ver_gc. simpl. by rewrite Hcm.
    + split; [|by rewrite A5]. intros j Hj _. apply lookup_lt_is_Some in Hj as (ej & Hej).
      destruct (A10 j ej Hej) as (e' & He1 & _ & Hh1).
      eapply newest_kept; [exact Hok1| |exact Hej|exact He1|exact Hh1].
      intros b Hb Hb'. destruct (A9 b Hb') as [_ ->]. by apply Hch.
Qed.
End single.
