(* ===== verification/Batch.v ===== *)
(** Batches in one transaction, [db_batch]: all statements or none. *)

From Stdlib Require Import String.
From S2P Require Import Prelude CString Mvcc Parser Values Table TableProofs InsertProofs WriteProofs SelectProofs.
From S2P Require Import ParserProofs Store StoreProofs Db DbProofs Isolation Commit System Single.
From stdpp Require Import base numbers list option gmap.
Local Open Scope Z_scope.

(** ** The file system of an operation *)

(** No table file has more UK columns than [uk_idx] holds. *)
Definition loads (db : Db) : Prop := ∀ nm, tab_load (fs db) (root db) nm ≠ None.

Definition same_disk (db db' : Db) : Prop := fs db' = fs db ∧ root db' = root db ∧ max_sql db' = max_sql db.

Lemma same_disk_trans db1 db2 db3 : same_disk db1 db2 → same_disk db2 db3 → same_disk db1 db3.
Proof. intros (?&?&?) (?&?&?). split_and!; congruence. Qed.

Lemma need_ent_disk db nm r db' : need_ent db nm = Some (r, db') → same_disk db db'.
Proof.
  unfold need_ent. destruct (get_ent db nm); [by intros [= _ <-]|].
  destruct (tab_load _ _ _) as [[tab|]|]; [|by intros [= _ <-]|done]. simpl. by intros [= _ <-].
Qed.

Lemma tx_view_disk db tx nm r db' tx' : tx_view db tx nm = Some (r, db', tx') → same_disk db db'.
Proof.
  unfold tx_view. destruct (tx_tab _ _ _ _) as [[i|]|]; [by intros [= _ <- _]| |done].
  destruct (need_ent db nm) as [[[e|] db1]|] eqn:En; [| |done]; apply need_ent_disk in En.
  - destruct (tab_vis _ _ _) as [[a|]|]; [| |done]; by intros [= _ <- _].
  - by intros [= _ <- _].
Qed.

Lemma tx_make_work_disk db tx item ok db' tx' : tx_make_work db tx item = Some (ok, db', tx') → same_disk db db'.
Proof.
  unfold tx_make_work. destruct item as [i|]; [|by intros [= _ <- _]].
  destruct (tx_tabs tx !! i) as [it|]; [|done]. destruct (tt_work it); [by intros [= _ <- _]|].
  destruct (heap db !! tt_base it); [|done]. destruct (tab_clone _); by intros [= _ <- _].
Qed.

Lemma exec_at_disk db a stmt res rc db' res' : exec_at db a stmt res = Some (rc, db', res') → same_disk db db'.
Proof.
  unfold exec_at. destruct (heap db !! a); [|done]. destruct (exec_stmt _ _ _) as [[[? ?] ?]|]; [|done].
  by intros [= _ <- _].
Qed.

Lemma db_txdo_disk db tx sql rc db' tx' res : db_txdo db tx sql = Some (rc, db', tx', res) → same_disk db db'.
Proof.
  unfold db_txdo. destruct (tx_done tx); [by intros [= _ <- _ _]|].
  destruct (parse_ok db sql res_clr) as [stmt|r]; [|by intros [= _ <- _ _]].
  destruct (tx_view db tx _) as [[[item db1] tx1]|] eqn:Ev; [|done]. apply tx_view_disk in Ev.
  destruct (if stmt_is_wr stmt then _ else _) as [[[ok db2] tx2]|] eqn:Em; [|done].
  assert (same_disk db db2) as H2.
  { destruct (stmt_is_wr stmt); [|by injection Em as _ <- _].
    eapply same_disk_trans; [exact Ev|]. by eapply tx_make_work_disk. }
  destruct ok; [|by intros [= _ <- _ _]]. simpl. destruct item as [i|]; [|by intros [= _ <- _ _]].
  destruct (tx_tabs tx2 !! i); [|done]. destruct (exec_at db2 _ stmt _) as [[[? db3] ?]|] eqn:Ee; [|done].
  intros [= _ <- _ _]. eapply same_disk_trans; [exact H2|by eapply exec_at_disk].
Qed.

(** ** A statement of a transaction always returns *)

(** A statement that moves [db->tabs] comes before the transaction points into it. *)
Definition txdo_steady (db : Db) (tx : DbTx) (sql : cstr) : Prop :=
  match parse_ok db sql res_clr with
  | inr _ => True
  | inl stmt =>
      match tx_view db tx (table_name stmt) with
      | Some (_, db1, _) => tabs_gen db1 = tabs_gen db ∨ tx_tabs tx = []
      | None => True
      end
  end.

Lemma need_ent_total db nm : loads db → ∃ r db', need_ent db nm = Some (r, db').
Proof.
  intros H. unfold need_ent. destruct (get_ent db nm); [by eexists _, _|].
  specialize (H nm). destruct (tab_load _ _ _) as [[tab|]|]; [|by eexists _, _|done]. simpl. by eexists _, _.
Qed.

Lemma tx_tab_total db nm i its : (∀ it, it ∈ its → is_Some (tx_ent db it)) → is_Some (tx_tab db nm i its).
Proof.
  revert i; induction its as [|it its IH]; intros i H; simpl; [done|].
  destruct (H it) as [e ->]; [by left|]. destruct (streq _ _); [done|]. apply IH. intros it' Hin. apply H. by right.
Qed.

Lemma tx_view_total db tx f nm :
  db_ok db → tx_good db (tx, f) → loads db → ∃ r, tx_view db tx nm = Some r.
Proof.
  intros Hok (_ & Hits & _) Hl. unfold tx_view.
  destruct (tx_tab_total db nm 0 (tx_tabs tx)) as [r ->].
  { intros it Hin. rewrite Forall_forall in Hits. destruct (Hits it Hin) as [G (e & He & _)].
    exists e. unfold tx_ent. by rewrite G, Nat.eqb_refl. }
  destruct r; [by eexists|]. destruct (need_ent_total db nm Hl) as (r & db1 & E). rewrite E.
  destruct (need_ent_calm _ _ _ _ Hok E) as [Hc Hr]. destruct r as [i|]; [|by eexists].
  destruct Hr as (e & He & _). unfold tab_vis. rewrite He. simpl.
  destruct (db_ok_chain db1 i e (cm_ok _ _ _ Hc) He) as [Hg _].
  destruct (vis_walk_good _ _ _ (tx_snap tx) _ Hg) as ([a|] & -> & _); by eexists.
Qed.

Lemma exec_stmt_read tab stmt res :
  tab_ok tab → stmt_is_wr stmt = false → ∃ r, exec_stmt tab stmt res = Some r.
Proof.
  intros Hok. unfold exec_stmt, stmt_is_wr. destruct (stype stmt); try done; intros _; [|by eexists].
  destruct (sel_do_total tab stmt res Hok) as [[rc r] ->]. by eexists.
Qed.

Lemma db_txdo_total db tx sql :
  db_ok db → tx_good db (tx, false) → loads db → txdo_safe db tx sql →
  txdo_steady db tx sql →
  ∃ r, db_txdo db tx sql = Some r.
Proof.
  intros Hok Htx Hl Hsafe Hg. unfold db_txdo, txdo_safe, txdo_target, txdo_steady in *.
  pose proof Htx as (Hdone & _). simpl in Hdone. rewrite Hdone.
  destruct (parse_ok db sql res_clr) as [stmt|r]; [|by eexists].
  destruct (tx_view_total db tx false (table_name stmt) Hok Htx Hl) as ([[item db1] tx1] & Ev).
  rewrite Ev in Hg.
  destruct (tx_view_spec db tx false _ _ _ _ Hok Htx Ev Hg) as (C1 & G1 & W1 & S1 & Hi).
  rewrite Ev in Hsafe |- *. destruct item as [i|]; [|destruct (stmt_is_wr stmt); simpl; by eexists].
  destruct Hi as (it1 & Hi1). pose proof (cm_ok _ _ _ C1) as Hok1. destruct (stmt_is_wr stmt) eqn:Ewr.
  - destruct (tx_make_work_spec db1 tx1 i it1 Hok1 G1 Hi1) as (db2 & tx2 & w & it2 & Em & C2 & _ & G2 & _ & Hi2 & Hw2 & _).
    rewrite Em in *. cbn [negb mbind option_bind] in *. rewrite Hi2 in Hsafe |- *. cbn [mbind option_bind] in Hsafe.
    rewrite Hw2 in Hsafe |- *.
    destruct G2 as (_ & Hits & _). pose proof (Forall_lookup_1 _ _ _ _ Hits Hi2) as [_ (e & _ & _ & Hw)]. simpl in Hw.
    rewrite Hw2 in Hw. destruct Hw as (t & Ht & Hgood). destruct (Hgood eq_refl) as (_ & Htok & Htn).
    rewrite Ht in Hsafe. cbn [mbind option_bind] in Hsafe.
    unfold exec_at. rewrite Ht.
    destruct (exec_stmt_write t stmt (set_snap_id res_clr (tx_snap tx2)) Htok Htn Hsafe eq_refl Ewr) as (rc & t2 & r & -> & _).
    by eexists.
  - cbn [negb]. rewrite Hi1. destruct G1 as (_ & Hits & _). pose proof (Forall_lookup_1 _ _ _ _ Hits Hi1) as Hit.
    assert (∃ t, heap db1 !! (match tt_work it1 with Some w => w | None => tt_base it1 end) = Some t ∧ tab_ok t) as (t & Ht & Htok).
    { destruct (tt_work it1) as [w|] eqn:Ew.
      - destruct Hit as [_ (e & _ & _ & Hw)]. rewrite Ew in Hw. destruct Hw as (t & Ht & Hgood).
        destruct (Hgood eq_refl) as (_ & ? & _). by exists t.
      - destruct (item_base _ _ _ _ Hok1 Hit) as (e & t & _ & _ & Ht & ? & _). by exists t. }
    unfold exec_at. rewrite Ht. destruct (exec_stmt_read t stmt (set_snap_id res_clr (tx_snap tx1)) Htok Ewr) as [[[rc t2] r] ->].
    by eexists.
Qed.

(** ** The statements of a batch *)

Fixpoint batch_safe (db : Db) (tx : DbTx) (sqls : list cstr) : Prop :=
  match sqls with
  | [] => True
  | sql :: sqls' =>
      txdo_safe db tx sql ∧ txdo_steady db tx sql ∧
      match db_txdo db tx sql with
      | Some (rc, db1, tx1, _) => rc = 0 → batch_safe db1 tx1 sqls'
      | None => True
      end
  end.

Lemma db_txdo_gen db tx sql rc db' tx' res :
  txdo_steady db tx sql → db_txdo db tx sql = Some (rc, db', tx', res) →
  tabs_gen db' = tabs_gen db ∨ tx_tabs tx = [].
Proof.
  unfold txdo_steady, db_txdo. destruct (tx_done tx); [intros _ [= _ <- _ _]; by left|].
  destruct (parse_ok db sql res_clr) as [stmt|r]; [|intros _ [= _ <- _ _]; by left].
  destruct (tx_view db tx _) as [[[item db1] tx1]|] eqn:Ev; [|done]. intros [Hg|?]; [|by right].
  destruct (if stmt_is_wr stmt then _ else _) as [[[ok db2] tx2]|] eqn:Em; [|done].
  assert (tabs_gen db2 = tabs_gen db1) as H2
    by (destruct (stmt_is_wr stmt); [by eapply tx_make_work_gen|by injection Em as _ <- _]).
  destruct ok; [|intros [= _ <- _ _]; left; congruence]. simpl.
  destruct item as [i|]; [|intros [= _ <- _ _]; left; congruence].
  destruct (tx_tabs tx2 !! i); [|done]. destruct (exec_at db2 _ stmt _) as [[[? db3] ?]|] eqn:Ee; [|done].
  intros [= _ <- _ _]. left. apply exec_at_gen in Ee. congruence.
Qed.

Lemma calm_trans_own db1 db2 db3 own1 own2 :
  calm db1 db2 own1 → calm db2 db3 own2 → (∀ a, a ∈ own2 → a ∈ own1 ∨ (brk db1 ≤ a)%nat) → calm db1 db3 own1.
Proof.
  intros [A1 A2 A3 A4 A5 A6] [B1 B2 B3 B4 B5 B6] Ho. split; [done|congruence| | |lia|].
  - intros live. eapply same_view_trans; [apply A3|apply B3].
  - intros a Ha Hn. rewrite B4; [by apply A4|lia|]. intros [?|?]%Ho; [done|lia].
  - intros a [H|H]%B6; [|right; lia]. apply A6 in H as [?|?]; [by left|right; lia].
Qed.

Lemma txdo_own db tx sql rc db' tx' res :
  db_ok db → tx_good db (tx, false) → tx_own db tx → txdo_safe db tx sql → txdo_steady db tx sql →
  db_txdo db tx sql = Some (rc, db', tx', res) →
  calm db db' (works tx) ∧ tx_good db' (tx', negb (rc =? 0)) ∧ tx_snap tx' = tx_snap tx ∧ tx_own db' tx' ∧
  (∀ a, a ∈ works tx' → a ∈ works tx ∨ (brk db ≤ a)%nat).
Proof.
  intros Hok Htx [Hnd Hdj] Hsafe Hst E. pose proof (db_txdo_gen _ _ _ _ _ _ _ Hst E) as Hg.
  destruct (db_txdo_spec db tx sql rc db' tx' res Hok Htx Hdj Hnd Hg Hsafe E) as (C & G & Sn & W).
  pose proof (works_lt db (tx, false) Hok Htx) as Hlt. simpl in Hlt.
  pose proof (works_disj_calm _ _ _ _ Hok C Hlt Hdj) as Hd. rewrite Forall_forall in Hlt.
  split; [done|]. split; [done|]. split; [done|]. destruct W as [W|(w & Hr & Hf & W)].
  - split; [by split; rewrite W|]. intros a. rewrite W. by left.
  - split.
    + split.
      * rewrite W. constructor; [|done]. intros Hin. specialize (Hlt w Hin). simpl in Hlt. lia.
      * intros a. rewrite W. intros [->|Ha]%elem_of_cons; [done|by apply Hd].
    + intros a. rewrite W. intros [->|Ha]%elem_of_cons; [right; lia|by left].
Qed.

(** A batch returns; it changed nothing that anybody else can see, whether it
    failed or not, and the transaction can be committed if it did not. *)
Lemma batch_tx_spec db tx sqls :
  db_ok db → tx_good db (tx, false) → tx_own db tx → loads db → batch_safe db tx sqls →
  ∃ ok db' tx' rs, batch_tx db tx sqls = Some (ok, db', tx', rs) ∧
    calm db db' (works tx) ∧ tx_good db' (tx', negb ok) ∧ tx_own db' tx' ∧ tx_snap tx' = tx_snap tx ∧
    same_disk db db' ∧ length rs = length sqls ∧
    (ok = false → ∃ r, r ∈ rs ∧ err_code r = lit "TX_ABORT").
Proof.
  revert db tx; induction sqls as [|sql sqls IH]; intros db tx Hok Htx Hown Hl Hs.
  { exists true, db, tx, []. split; [done|]. split; [by apply calm_refl|]. by split_and!. }
  destruct Hs as (Hsafe & Hst & Hs).
  destruct (db_txdo_total db tx sql Hok Htx Hl Hsafe Hst) as ([[[rc db1] tx1] res] & E).
  destruct (txdo_own db tx sql rc db1 tx1 res Hok Htx Hown Hsafe Hst E) as (C1 & G1 & S1 & O1 & W1).
  pose proof (db_txdo_disk _ _ _ _ _ _ _ E) as D1. cbn [batch_tx]. rewrite E in Hs |- *.
  destruct (Z.eqb_spec rc 0) as [->|Hrc].
  - assert (loads db1) as Hl1 by (destruct D1 as (D1 & D2 & _); intros nm; rewrite D1, D2; apply Hl).
    destruct (IH db1 tx1 (cm_ok _ _ _ C1) G1 O1 Hl1 (Hs eq_refl)) as (ok & db2 & tx2 & rs & -> & C2 & G2 & O2 & S2 & D2 & Hlen & Herr).
    exists ok, db2, tx2, (res :: rs). split; [done|]. split; [by eapply calm_trans_own|].
    split; [done|]. split; [done|]. split; [congruence|]. split; [by eapply same_disk_trans|]. split; [simpl; lia|].
    intros Hf. destruct (Herr Hf) as (r & Hin & Hr). exists r. split; [by right|done].
  - eexists false, db1, tx1, _. split; [done|]. do 5 (split; [done|]). split.
    + simpl. by rewrite length_map.
    + intros _. eexists. split; [by left|]. done.
Qed.

(** ** All or nothing *)

Lemma newest_some db i t : db_ok db → newest db i = Some t →
  ∃ e a, tabs db !! i = Some e ∧ head (chain e) = Some a ∧ heap db !! a = Some t ∧
    vis_walk (heap db) (cur_ver (mv db)) (chain e) = Some (Some a).
Proof.
  intros Hok (e & a & He & Hh & Ha)%newest_spec. exists e, a. split_and!; try done.
  destruct (db_ok_chain db i e Hok He) as [Hg _]. destruct (chain e) as [|b ch]; [done|]. injection Hh as ->.
  by apply (vis_walk_head _ _ _ _ _ _ Hg).
Qed.

Lemma newest_calm db db' own i t :
  db_ok db → calm db db' own → newest db i = Some t → newest db' i = Some t.
Proof.
  intros Hok Hc Ht. destruct (newest_some _ _ _ Hok Ht) as (e & a & He & Hh & Ha & Hv).
  destruct (cm_view _ _ _ Hc [cur_ver (mv db)] i e He) as (e' & He' & _ & Hsee).
  destruct (Hsee (cur_ver (mv db))) as (r & E1 & E2 & E3); [by left|]. rewrite Hv in E1. injection E1 as <-.
  pose proof (cm_ok _ _ _ Hc) as Hok'. destruct (db_ok_chain db' i e' Hok' He') as [Hg Hne].
  destruct (chain e') as [|b ch] eqn:Ec; [done|].
  rewrite (vis_walk_head _ _ _ _ _ _ Hg) in E2 by (rewrite (cm_mv _ _ _ Hc); lia). injection E2 as ->.
  apply newest_spec. exists e', a. rewrite Ec. split_and!; [done|done|]. by rewrite (E3 a).
Qed.

Lemma calm_snap db m : db_ok db → m = snd (mv_snap true (mv db)) →
  db_ok (set_mv db m) ∧ (∀ i, newest (set_mv db m) i = newest db i) ∧ (∀ live, same_view live db (set_mv db m)) ∧
  tx_good (set_mv db m) (mkTx (cur_ver (mv db)) [] false, false) ∧ tx_own (set_mv db m) (mkTx (cur_ver (mv db)) [] false).
Proof.
  intros Hok ->. split; [by apply db_ok_snap|]. split; [done|]. split; [intros live; by apply same_view_mv|].
  split; [split; [done|split; constructor]|]. split; [constructor|]. by intros w ?%not_elem_of_nil.
Qed.

(** The newest versions after a commit: this transaction's tables, the others as before. *)
Lemma committed_newest db tx db' i t :
  db_ok db → tx_own db tx → committed db tx db' → newest db i = Some t →
  newest db' i = Some t ∨ ∃ t', newest db' i = Some t' ∧ ver_id t' = cur_ver (mv db) + 1.
Proof.
  intros Hok [_ Hd] [C1 C2 C3 C4 C5 C6 C7 C8] Ht. apply newest_spec in Ht as (e & a & He & Hh & Ha).
  destruct (decide (Exists (fun it => tt_dirty it = true ∧ tt_ent it = i) (tx_tabs tx))) as [Hex|Hnex].
  - right. apply Exists_exists in Hex as (it & Hin & Hdt & <-).
    destruct (C7 it Hin Hdt) as (e0 & w & tw & e' & _ & _ & _ & _ & He' & _ & Hh' & _ & Hw).
    exists (set_ver_id tw (cur_ver (mv db) + 1)). split; [|done]. apply newest_spec. by exists e', w.
  - left. destruct (C8 i e He) as (e' & He' & _ & Hh').
    { intros it Hin Hdt Heq. apply Hnex, Exists_exists. by exists it. }
    apply newest_spec. exists e', a. rewrite Hh'. split_and!; [done|done|].
    assert (a ∈ chain e) as Hac by (destruct (chain e); [done|injection Hh as ->; by left]).
    assert (a ∈ chain e') as Hac' by (destruct (chain e'); simpl in *; [congruence|]; rewrite Hh in Hh'; injection Hh' as ->; by left).
    destruct (C6 a) as [Hw|[_ ->]]; [by eapply chain_in_all|exfalso|done].
    eapply Hd; [exact Hw|]. by eapply chain_in_all.
Qed.

Lemma aborted_newest db tx db' i t :
  aborted db tx db' → newest db i = Some t → newest db' i = Some t.
Proof.
  intros [A1 A2 A3 A4 A5 A6 A7 A8] (e & a & He & Hh & Ha)%newest_spec.
  destruct (A8 i e He) as (e' & He' & _ & Hh'). apply newest_spec. exists e', a. rewrite Hh'. split_and!; [done|done|].
  destruct (A7 a) as [_ ->]; [|done]. eapply chain_in_all; [exact He'|].
  destruct (chain e'); simpl in *; [congruence|]. rewrite Hh in Hh'. injection Hh' as ->. by left.
Qed.

(** A transaction whose snapshot is the present clock meets no conflict. *)
Lemma no_conflict db tx it e :
  db_ok db → tx_good db (tx, false) → tx_snap tx = cur_ver (mv db) → it ∈ tx_tabs tx →
  tabs db !! tt_ent it = Some e → head (chain e) = Some (tt_base it).
Proof.
  intros Hok (_ & Hits & _) Hs Hin He. rewrite Forall_forall in Hits. destruct (Hits it Hin) as [_ (e0 & He0 & Hv & _)].
  rewrite He in He0. injection He0 as <-. destruct (db_ok_chain db _ e Hok He) as [Hg Hne]. simpl in Hv.
  destruct (chain e) as [|b ch]; [done|]. rewrite (vis_walk_head _ _ _ _ _ _ Hg) in Hv by lia. by injection Hv as ->.
Qed.

Section batch.
Context (io_ok : nat → bool) (Hio : ∀ n, io_ok n = true).

(** What a batch of a transaction did: every table it wrote got the same new version,
    or nothing changed. *)
Record batched (db db' : Db) (rc : Z) : Prop := {
  ba_ok : db_ok db';
  ba_snaps : snaps (mv db') ≡ₚ snaps (mv db);
  ba_view : same_view (snaps (mv db)) db db';
  ba_all : rc = 0 → cur_ver (mv db') = cur_ver (mv db) + 1 ∧ ∀ i t, newest db i = Some t →
    newest db' i = Some t ∨ ∃ t', newest db' i = Some t' ∧ ver_id t' = cur_ver (mv db) + 1;
  ba_none : rc ≠ 0 → cur_ver (mv db') = cur_ver (mv db) ∧ fs db' = fs db ∧
    ∀ i t, newest db i = Some t → newest db' i = Some t;
}.

Lemma db_batch_spec db sqls :
  db_ok db → cur_ver (mv db) + 1 < U64 → loads db → sqls ≠ [] → Z.of_nat (length sqls) ≤ max_qry db →
  batch_safe (set_mv db (snd (mv_snap true (mv db)))) (mkTx (cur_ver (mv db)) [] false) sqls →
  ∃ rc db' rs, db_batch io_ok db sqls true = Some (rc, db', rs) ∧ batched db db' rc ∧ length rs = length sqls ∧
    (rc = 0 ∨ rc = -1 ∧ ∃ r, r ∈ rs ∧ err_code r = lit "TX_ABORT").
Proof.
  intros Hok Hv Hl Hne Hq Hs. unfold db_batch. destruct sqls as [|sql sqls0]; [done|]. set (sqls := sql :: sqls0) in *.
  rewrite (proj2 (Z.ltb_ge _ _)) by done.
  destruct (db_begin db) as [[rc0 db0] tx0] eqn:Eb. pose proof (db_begin_spec _ _ _ _ Hok Eb) as (-> & -> & ->).
  cbn [Z.eqb negb]. set (m := snd (mv_snap true (mv db))) in *. set (tx0 := mkTx (cur_ver (mv db)) [] false) in *.
  destruct (calm_snap db m Hok eq_refl) as (Hok0 & Hn0 & Hview0 & Htx0 & Hown0).
  destruct (batch_tx_spec (set_mv db m) tx0 sqls Hok0 Htx0 Hown0 Hl Hs)
    as (ok & db1 & tx1 & rs & -> & C1 & G1 & O1 & S1 & (D1 & _) & Hlen & Herr).
  assert (mv db1 = m) as Hm1 by exact (cm_mv _ _ _ C1).
  assert (mv_ok m) as Hmok by by apply mv_snap_ok, Hok.
  assert (cur_ver m = cur_ver (mv db)) as Hcm by apply cur_ver_snap.
  assert (∀ i t, newest db i = Some t → newest db1 i = Some t) as Hn1.
  { intros i t Ht. rewrite <- Hn0 in Ht. by eapply newest_calm. }
  assert (same_view (snaps (mv db)) db db1) as Hview1.
  { eapply same_view_trans; [apply Hview0|apply C1]. }
  pose proof (cm_ok _ _ _ C1) as Hok1. cbn [tx_snap tx0] in S1. destruct ok; cbn [negb].
  - destruct (db_commit_spec io_ok Hio db1 tx1 Hok1 G1 O1) as [[_ (it & e & Hit & _ & He & Hno)]|(db2 & tx2 & -> & _ & Hcd)].
    { by rewrite Hm1, Hcm. }
    { exfalso. apply Hno. eapply no_conflict; [exact Hok1|exact G1| |exact Hit|exact He]. by rewrite Hm1, Hcm. }
    exists 0, db2, rs. split; [done|]. split; [|by split; [|left]].
    pose proof Hcd as [K1 [K2 K2'] K3 K4 K5 K6 K7 K8]. rewrite Hm1, S1 in K2. rewrite Hm1 in K2'.
    assert (snaps (mv db2) ≡ₚ snaps (mv db)) as Hsn.
    { rewrite K2. apply (snap_perm _ (do_mv _ Hok)); [done|]. apply mv_bump_ok; [done|]. by rewrite Hcm. }
    split; [done|done| | |done].
    + eapply same_view_trans; [exact Hview1|]. eapply same_view_sub; [|exact K4]. intros s. by rewrite Hsn.
    + intros _. split; [by rewrite K2', Hcm|]. intros i t Ht%Hn1. rewrite <- Hcm, <- Hm1.
      exact (committed_newest db1 tx1 db2 i t Hok1 O1 Hcd Ht).
  - destruct G1 as [Hdone _]. destruct (db_abort_spec db1 tx1 Hok1 Hdone O1) as (db2 & tx2 & -> & _ & Had).
    exists (-1), db2, rs. split; [done|]. split; [|split; [done|right; auto]].
    pose proof Had as [A1 A2 (A3 & A4 & A5 & A5') A6 A7 A8 A9 A10]. rewrite Hm1, S1 in A2.
    assert (snaps (mv db2) ≡ₚ snaps (mv db)) as Hsn.
    { rewrite A2. by apply (snap_perm _ (do_mv _ Hok)). }
    split; [done|done| |done|].
    + eapply same_view_trans; [exact Hview1|]. eapply same_view_sub; [|exact A6]. intros s. by rewrite Hsn.
    + intros _. split; [by rewrite A2, cur_ver_gc, Hcm|]. split; [by rewrite A5|].
      intros i t Ht%Hn1. by eapply aborted_newest.
Qed.
End batch.
