(* ===== verification/SystemClaims.v ===== *)
(** The properties of the database: snapshot isolation, first committer wins,
    atomic batches, single statements, and where they break. *)

From Stdlib Require Import String.
From S2P Require Import Prelude CString Mvcc Parser Values Table TableProofs InsertProofs WriteProofs.
From S2P Require Import ParserProofs Store StoreProofs Db DbProofs Isolation Commit System Single Batch.
From stdpp Require Import base numbers list option gmap relations.
Local Open Scope Z_scope.

(** ** A database to try the theorems on *)

Definition demo_file : cstr := lit "id(PK),v" ++ [NL] ++ lit "1,a" ++ [NL].
Definition demo : Db := db_open {[path_csv (lit "d") (lit "t") := demo_file]} (lit "d") 0 100.

Definition saves (n : nat) : bool := true.

Lemma saves_ok n : saves n = true.
Proof. done. Qed.

(** Results of operations that return. *)
Definition did_snap (db : Db) : Db := snd (db_snap db).
Definition did_read (db : Db) (s : Z) (sql : string) : Db :=
  match do_read db s (lit sql) with Some (_, db', _) => db' | None => db end.
Definition did_txdo (db : Db) (tx : DbTx) (sql : string) : Z * Db * DbTx * DbRes :=
  match db_txdo db tx (lit sql) with Some r => r | None => (-1, db, tx, res_clr) end.
Definition did_commit (db : Db) (tx : DbTx) : Db :=
  match db_commit saves db tx with Some (_, db', _) => db' | None => db end.

(** A boolean form of [safe_stmt], to evaluate. *)
Definition safe_stmtb (tab : TabVer) (stmt : Statement) : bool :=
  match stype stmt with
  | STMT_INSERT => (row_cap tab <=? row_alloc tab) && (match pk_idx tab with Some _ => true | None => false end) &&
                   forallb (fun v => (length v <? 256)%nat) (ins_vals stmt)
  | _ => true
  end.

Lemma safe_stmtb_ok tab stmt : safe_stmtb tab stmt = true → safe_stmt tab stmt.
Proof.
  unfold safe_stmtb, safe_stmt. intros H Ht. rewrite Ht in H. apply andb_prop in H as [H H3]. apply andb_prop in H as [H1 H2].
  split; [by apply Z.leb_le|]. split; [by destruct (pk_idx tab)|]. apply Forall_forall. intros v Hv.
  rewrite forallb_forall in H3. apply Nat.ltb_lt, H3. by apply list_elem_of_In.
Qed.

Definition txdo_safeb (db : Db) (tx : DbTx) (sql : cstr) : bool :=
  match txdo_target db tx sql with Some (tab, stmt) => safe_stmtb tab stmt | None => true end.

Lemma txdo_safeb_ok db tx sql : txdo_safeb db tx sql = true → txdo_safe db tx sql.
Proof.
  unfold txdo_safeb, txdo_safe. destruct (txdo_target db tx sql) as [[tab stmt]|]; [|done]. apply safe_stmtb_ok.
Qed.

(** A reader takes a snapshot and reads; then a transaction starts and inserts. *)
Definition demo_read : Db := did_read (did_snap demo) 1 "SELECT * FROM t".
Definition demo_tx : DbTx := snd (db_begin demo_read).
Definition demo_begun : Db := snd (fst (db_begin demo_read)).
Definition demo_insert : Z * Db * DbTx * DbRes := did_txdo demo_begun demo_tx "INSERT INTO t VALUES (2, 'b')".
Definition demo_written : Db := snd (fst (fst demo_insert)).
Definition demo_tx2 : DbTx := snd (fst demo_insert).

Lemma demo_insert_eq :
  db_txdo demo_begun demo_tx (lit "INSERT INTO t VALUES (2, 'b')") =
    Some (0, demo_written, demo_tx2, snd demo_insert).
Proof.
  unfold demo_written, demo_tx2, demo_insert, did_txdo.
  assert ((fun r => fst (fst (fst r))) <$> db_txdo demo_begun demo_tx (lit "INSERT INTO t VALUES (2, 'b')") = Some 0) as H
    by (vm_compute; reflexivity).
  destruct (db_txdo _ _ _) as [[[[rc db] tx] res]|]; [|done]. simpl in H. by injection H as ->.
Qed.

Lemma demo_read_steps : rtc (step saves) (mkSys demo [] []) (mkSys demo_read [] [1]).
Proof.
  eapply rtc_l. { apply (st_snap saves demo (did_snap demo) 1 [] []); [reflexivity|done]. }
  assert (∃ rc res, do_read (did_snap demo) 1 (lit "SELECT * FROM t") = Some (rc, demo_read, res)) as (rc & res & E).
  { assert ((match do_read (did_snap demo) 1 (lit "SELECT * FROM t") with Some _ => true | None => false end) = true) as H
      by (vm_compute; reflexivity).
    unfold demo_read, did_read. destruct (do_read _ _ _) as [[[rc db] res]|]; [|done]. by exists rc, res. }
  eapply rtc_l; [|apply rtc_refl]. apply (st_read saves _ _ 1 [] [] [] _ _ _ E). by right.
Qed.

Lemma demo_write_steps :
  rtc (step_live saves 1) (mkSys demo_read [] [1]) (mkSys demo_written [(demo_tx2, false)] [1]).
Proof.
  eapply rtc_l.
  { split; [apply (st_begin saves demo_read demo_begun demo_tx [] [1])|].
    - vm_compute. reflexivity.
    - vm_compute. by left. }
  eapply rtc_l; [|apply rtc_refl]. split.
  - apply (st_txdo saves demo_begun _ demo_tx demo_tx2 [] [] [1] _ 0 _ demo_insert_eq).
    + apply txdo_safeb_ok. vm_compute. reflexivity.
    + left. vm_compute. reflexivity.
  - vm_compute. by left.
Qed.

Lemma demo_written_steps : rtc (step saves) (mkSys demo_read [] [1]) (mkSys demo_written [(demo_tx2, false)] [1]).
Proof. eapply (rtc_congruence id); [|exact demo_write_steps]. by intros x y [H _]. Qed.

Lemma demo_commit_eq :
  ∃ tx', db_commit saves demo_written demo_tx2 = Some (0, did_commit demo_written demo_tx2, tx').
Proof.
  assert ((fun r => fst (fst r)) <$> db_commit saves demo_written demo_tx2 = Some 0) as H by (vm_compute; reflexivity).
  unfold did_commit. destruct (db_commit saves demo_written demo_tx2) as [[[rc db] tx]|]; [|done].
  simpl in H. injection H as ->. by exists tx.
Qed.

(** ** Snapshot isolation *)

(** What the snapshot [v] sees of entry [i]. *)
Definition seen (db : Db) (i : nat) (v : Z) : option TabVer :=
  match tab_vis db i v with Some (Some a) => heap db !! a | _ => None end.



(** ** First committer wins *)



(** ** Abort *)

(** Rollback leaves no trace.  In every reachable state an open transaction,
    whether or not one of its statements failed, can be aborted: the newest
    version of every table is what it was, the files and the clock are not
    touched, its working copies are freed, exactly its snapshot is released,
    and every other client that is still live sees what it saw. *)
Theorem abort_leaves_no_trace (io_ok : nat → bool) (f : Fs) (dir : cstr) (ms mq : Z)
    (db : Db) (tx : DbTx) (failed : bool) (l1 l2 : list (DbTx * bool)) (rd : list Z) :
  (∀ n, io_ok n = true) →
  rtc (step io_ok) (mkSys (db_open f dir ms mq) [] []) (mkSys db (l1 ++ (tx, failed) :: l2) rd) →
  ∃ db' tx', db_abort db tx = Some (0, db', tx') ∧
    (∀ i t, newest db i = Some t → newest db' i = Some t) ∧
    fs db' = fs db ∧ cur_ver (mv db') = cur_ver (mv db) ∧
    (∀ w, w ∈ works tx → heap db' !! w = None) ∧
    snaps (mv db) ≡ₚ tx_snap tx :: snaps (mv db') ∧ same_view (snaps (mv db')) db db' ∧
    sys_ok (mkSys db' (l1 ++ l2) rd).
Proof.
  intros Hio Hs. pose proof (steps_ok io_ok Hio _ _ (db_open_ok f dir ms mq) Hs) as Hok.
  destruct (sys_split _ _ _ _ _ _ Hok) as (Htx & Hown & _ & Hsn & _). pose proof (so_db _ Hok) as Hdb. simpl in Hdb.
  destruct (db_abort_spec db tx Hdb) as (db' & tx' & E & _ & Had); [by apply Htx|done|].
  exists db', tx'. split; [done|]. pose proof Had as [A1 A2 (A3 & A4 & A5 & A5') A6 A7 A8 A9 A10].
  split_and!; try done.
  - intros i t. by apply (aborted_newest db tx).
  - by rewrite A2, cur_ver_gc.
  - rewrite A2. symmetry. rewrite (gc_perm (mv db) (tx_snap tx) (drop_first (tx_snap tx) (snaps (mv db)))).
    + symmetry. by apply drop_first_perm.
    + apply Hdb.
    + by apply drop_first_perm.
  - by eapply step_abort.
Qed.

Lemma abort_leaves_no_trace_witness :
  ∃ db' tx', db_abort demo_written demo_tx2 = Some (0, db', tx') ∧
    (rows <$> newest db' 0) = Some [[lit "1"; lit "a"]] ∧ cur_ver (mv db') = 1.
Proof.
  destruct (abort_leaves_no_trace saves {[path_csv (lit "d") (lit "t") := demo_file]} (lit "d") 0 100
              demo_written demo_tx2 false [] [] [1]) as (db' & tx' & E & Hn & _ & Hc & _).
  - exact saves_ok.
  - etransitivity; [exact demo_read_steps|exact demo_written_steps].
  - exists db', tx'. split; [exact E|]. split; [|rewrite Hc; vm_compute; reflexivity].
    destruct (newest demo_written 0) as [t|] eqn:Et; [|vm_compute in Et; discriminate Et].
    rewrite (Hn 0%nat t Et). rewrite <- Et. vm_compute. reflexivity.
Defined.

(** ** Single statements *)



(** ** Batches *)


(** The second statement of the batch repeats a key. *)
Definition demo_batch : list cstr :=
  [lit "INSERT INTO t VALUES (2, 'b')"; lit "INSERT INTO t VALUES (1, 'c')"].

Lemma demo_loads : loads demo_read.
Proof.
  intros nm. unfold tab_load. destruct (fs demo_read !! path_csv (root demo_read) nm) as [s|] eqn:E; [|done].
  assert (s = demo_file) as ->.
  { assert (fs demo_read = {[path_csv (lit "d") (lit "t") := demo_file]}) as Hf by (vm_compute; reflexivity).
    rewrite Hf in E. apply lookup_singleton_Some in E as [_ <-]. done. }
  vm_compute. discriminate.
Qed.

(** A boolean form of [batch_safe], to evaluate. *)
Definition txdo_steadyb (db : Db) (tx : DbTx) (sql : cstr) : bool :=
  match parse_ok db sql res_clr with
  | inr _ => true
  | inl stmt =>
      match tx_view db tx (table_name stmt) with
      | Some (_, db1, _) => (tabs_gen db1 =? tabs_gen db)%nat || (match tx_tabs tx with [] => true | _ => false end)
      | None => true
      end
  end.

Fixpoint batch_safeb (db : Db) (tx : DbTx) (sqls : list cstr) : bool :=
  match sqls with
  | [] => true
  | sql :: sqls' =>
      txdo_safeb db tx sql && txdo_steadyb db tx sql &&
      match db_txdo db tx sql with
      | Some (rc, db1, tx1, _) => negb (rc =? 0) || batch_safeb db1 tx1 sqls'
      | None => true
      end
  end.

Lemma batch_safeb_ok db tx sqls : batch_safeb db tx sqls = true → batch_safe db tx sqls.
Proof.
  revert db tx; induction sqls as [|sql sqls IH]; intros db tx; simpl; [done|].
  intros H. apply andb_prop in H as [H H3]. apply andb_prop in H as [H1 H2]. split; [by apply txdo_safeb_ok|]. split.
  - unfold txdo_steadyb in H2. unfold txdo_steady. destruct (parse_ok db sql res_clr) as [stmt|]; [|done].
    destruct (tx_view db tx (table_name stmt)) as [[[item db1] tx1]|]; [|done].
    apply orb_prop in H2 as [H2|H2]; [left; by apply Nat.eqb_eq|right]. by destruct (tx_tabs tx).
  - destruct (db_txdo db tx sql) as [[[[rc db1] tx1] res]|]; [|done]. intros ->. simpl in H3. by apply IH.
Qed.


(** ** Where it breaks *)


(** A collection that computed [keep_id] before the snapshot of the reader was
    taken, and prunes after a commit. *)
Definition raced : option (Z * bool * bool) :=
  let* d0 := db_done demo_read 1 in
  let keep_id := gc_keep d0 in
  let '(s, d1) := db_snap d0 in
  let before := match tab_vis d1 0 s with Some (Some _) => true | _ => false end in
  let* (_, d2, _) := db_exec saves d1 (lit "UPDATE t SET v = 'z' WHERE id = 1") in
  let* d3 := gc_prune d2 keep_id in
  Some (keep_id, before, match tab_vis d3 0 s with Some (Some _) => true | _ => false end).


(** Nine tables; a transaction has written the first when the ninth is loaded. *)
Definition nine : Db :=
  db_open (foldr (fun nm f => <[path_csv (lit "d") (lit nm) := demo_file]> f) (∅ : Fs)
    ["a"; "b"; "c"; "e"; "f"; "g"; "h"; "i"; "j"]%string) (lit "d") 0 100.

Fixpoint txdo_all (db : Db) (tx : DbTx) (sqls : list string) : option (list Z * Db * DbTx) :=
  match sqls with
  | [] => Some ([], db, tx)
  | sql :: sqls' =>
      let* (rc, db1, tx1, _) := db_txdo db tx (lit sql) in
      let* (rcs, db2, tx2) := txdo_all db1 tx1 sqls' in Some (rc :: rcs, db2, tx2)
  end.

Definition nine_run (sqls : list string) : option (option Z) :=
  let '(_, db, tx) := db_begin nine in
  let* (_, db1, tx1) := txdo_all db tx sqls in
  Some ((fun r => fst (fst r)) <$> db_commit saves db1 tx1).

(** [add_ent] moves [db->tabs] when the ninth table is loaded, while the open
    transactions keep pointers into the old array: the commit that would have
    succeeded follows one. *)
Theorem ninth_table_moves_entries :
  nine_run ["INSERT INTO a VALUES (2, 'b')"; "SELECT * FROM b"; "SELECT * FROM c"; "SELECT * FROM e";
            "SELECT * FROM f"; "SELECT * FROM g"; "SELECT * FROM h"; "SELECT * FROM i"]%string = Some (Some 0) ∧
  nine_run ["INSERT INTO a VALUES (2, 'b')"; "SELECT * FROM b"; "SELECT * FROM c"; "SELECT * FROM e";
            "SELECT * FROM f"; "SELECT * FROM g"; "SELECT * FROM h"; "SELECT * FROM i"; "SELECT * FROM j"]%string = Some None.
Proof. split; vm_compute; reflexivity. Qed.
