(* ===== verification/Pool.v ===== *)
(** The worker pool of [src/thr/pool.c] as a transition system.

    Every access to the pool is inside [pool->mu], so one critical section is one
    transition: a worker at the head of its loop, a worker that comes back from
    a job, [pool_add], [pool_stop].  [pthread_cond_wait] gives the mutex back
    ([Asleep]) until a signal, a broadcast, or nothing at all (a spurious wake)
    makes the worker try for the mutex again ([Ready]). *)

From S2P Require Import Prelude.
From stdpp Require Import base numbers list.
Local Open Scope Z_scope.

(** ** State *)

(** A job is its number; [fn] and [arg] are what the caller gave. *)
Abbreviation Job := nat.

Inductive Wrk := Ready | Asleep | Running (job : Job) | Exited.

#[global] Instance Wrk_eq_dec : EqDecision Wrk.
Proof. solve_decision. Defined.

(** [head]..[tail] is the list [jobs]. *)
Record Pool := mkPool {
  thr : list Wrk;
  nthr : Z;
  qmax : Z;
  stop : bool;
  queued : Z;
  active : Z;
  done : Z;
  jobs : list Job;
}.

Record PoolSt := mkPoolSt { st_size : Z; st_active : Z; st_queued : Z; st_done : Z }.

(** [pthread_cond_broadcast]. *)
Definition wake (w : Wrk) : Wrk := match w with Asleep => Ready | _ => w end.
Definition broadcast (ws : list Wrk) : list Wrk := map wake ws.

(** ** Operations *)

(** The threads [pool_new] creates before [pthread_create] fails, if it does. *)
Fixpoint create_all (create_ok : nat → bool) (i n : nat) : option nat :=
  match n with
  | O => None
  | S n' => if create_ok i then create_all create_ok (S i) n' else Some i
  end.

Definition pool_new (calloc_ok : bool) (create_ok : nat → bool) (nthr qmax : Z) : option Pool :=
  if (nthr <=? 0) || (qmax <=? 0) then None
  else if negb calloc_ok then None
  else match create_all create_ok 0 (Z.to_nat nthr) with
       | Some _ => None
       | None => Some (mkPool (replicate (Z.to_nat nthr) Ready) nthr qmax false 0 0 0 [])
       end.

(** [tid + 1] of the thread [self] among the ids in [thr]. *)
Fixpoint find_tid (self : Z) (thr : list Z) (tid : Z) : Z :=
  match thr with
  | [] => tid
  | t :: thr' => if t =? self then tid else find_tid self thr' (tid + 1)
  end.

Definition wrk_tid (self : Z) (thr : list Z) : Z := find_tid self thr 0 + 1.

(** Worker [i] has the mutex at the head of its loop. *)
Definition wrk_lock (p : Pool) (i : nat) : Pool :=
  match jobs p with
  | [] => mkPool (<[i := if stop p then Exited else Asleep]> (thr p)) (nthr p) (qmax p) (stop p)
            (queued p) (active p) (done p) []
  | job :: rest => mkPool (<[i := Running job]> (thr p)) (nthr p) (qmax p) (stop p)
            (queued p - 1) (active p + 1) (done p) rest
  end.

(** Worker [i] has the mutex again after its job. *)
Definition wrk_done (p : Pool) (i : nat) : Pool :=
  mkPool (broadcast (<[i := Ready]> (thr p))) (nthr p) (qmax p) (stop p) (queued p) (active p - 1)
    (wrap64 (done p + 1)) (jobs p).

Definition pool_stop (p : Pool) : Pool :=
  mkPool (broadcast (thr p)) (nthr p) (qmax p) true (queued p) (active p) (done p) (jobs p).

(** [sig]: the sleeping worker that [pthread_cond_signal] wakes. *)
Definition pool_add (calloc_ok : bool) (p : Pool) (fn : option Job) (sig : option nat) : Z * Pool :=
  match fn with
  | None => (-2, p)
  | Some job =>
      if negb calloc_ok then (-3, p)
      else if stop p then (-2, p)
      else if qmax p <=? queued p then (-1, p)
      else (0, mkPool (match sig with Some i => <[i := Ready]> (thr p) | None => thr p end)
                 (nthr p) (qmax p) (stop p) (queued p + 1) (active p) (done p) (jobs p ++ [job]))
  end.

Definition pool_stat (p : Pool) : PoolSt := mkPoolSt (nthr p) (active p) (queued p) (done p).

(** The jobs that [pool_del] throws away once it has joined every thread. *)
Definition pool_del (p : Pool) : option (list Job) :=
  if forallb (fun w => bool_decide (w = Exited)) (thr (pool_stop p)) then Some (jobs p) else None.

(** ** Runs *)

(** The pool with what has happened: jobs accepted, taken and completed, in order. *)
Record World := mkWorld { pool : Pool; accepted : list Job; taken : list Job; completed : list Job }.

Inductive Ev :=
| EvAdd (job : Job) (sig : option nat)
| EvLock (i : nat)
| EvDone (i : nat)
| EvSpurious (i : nat)
| EvStop.

(** Whom a signal may wake: one sleeper, nobody only if nobody sleeps. *)
Definition may_signal (ws : list Wrk) (sig : option nat) : bool :=
  match sig with
  | Some i => bool_decide (ws !! i = Some Asleep)
  | None => forallb (fun w => negb (bool_decide (w = Asleep))) ws
  end.

(** One transition; [None] when it is not enabled. *)
Definition step (w : World) (e : Ev) : option World :=
  let p := pool w in
  match e with
  | EvAdd job sig =>
      if may_signal (thr p) sig then
        let '(rc, p') := pool_add true p (Some job) sig in
        Some (mkWorld p' (if rc =? 0 then accepted w ++ [job] else accepted w) (taken w) (completed w))
      else None
  | EvLock i =>
      match thr p !! i with
      | Some Ready =>
          Some (mkWorld (wrk_lock p i) (accepted w)
                  (match jobs p with job :: _ => taken w ++ [job] | [] => taken w end) (completed w))
      | _ => None
      end
  | EvDone i =>
      match thr p !! i with
      | Some (Running job) => Some (mkWorld (wrk_done p i) (accepted w) (taken w) (completed w ++ [job]))
      | _ => None
      end
  | EvSpurious i =>
      match thr p !! i with
      | Some Asleep =>
          Some (mkWorld (mkPool (<[i := Ready]> (thr p)) (nthr p) (qmax p) (stop p) (queued p) (active p) (done p) (jobs p))
                  (accepted w) (taken w) (completed w))
      | _ => None
      end
  | EvStop => Some (mkWorld (pool_stop p) (accepted w) (taken w) (completed w))
  end.

Fixpoint run (w : World) (es : list Ev) : option World :=
  match es with
  | [] => Some w
  | e :: es' => let* w' := step w e in run w' es'
  end.

Definition start (p : Pool) : World := mkWorld p [] [] [].

(** ** Counting workers *)

Definition count_w (w : Wrk) (ws : list Wrk) : nat := length (filter (fun x => x = w) ws).

(** The jobs the workers are on. *)
Definition on (w : Wrk) : option Job := match w with Running job => Some job | _ => None end.
Definition running (ws : list Wrk) : list Job := omap on ws.

Lemma count_w_insert w ws i x y :
  ws !! i = Some x →
  (count_w w (<[i := y]> ws) + (if decide (x = w) then 1 else 0) = count_w w ws + (if decide (y = w) then 1 else 0))%nat.
Proof.
  intros Hi. unfold count_w. rewrite insert_take_drop by by eapply lookup_lt_Some.
  assert (filter (fun x => x = w) ws = filter (fun x => x = w) (take i ws ++ x :: drop (S i) ws)) as ->
    by by rewrite take_drop_middle.
  rewrite !filter_app, !length_app. rewrite !filter_cons. repeat case_decide; simpl; lia.
Qed.

Lemma running_insert ws i x y :
  ws !! i = Some x → option_list (on x) ++ running (<[i := y]> ws) ≡ₚ option_list (on y) ++ running ws.
Proof.
  intros Hi. unfold running. rewrite insert_take_drop by by eapply lookup_lt_Some.
  assert (omap on ws = omap on (take i ws ++ x :: drop (S i) ws)) as -> by by rewrite take_drop_middle.
  rewrite !omap_app. simpl. destruct (on x), (on y); simpl; rewrite <- ?Permutation_middle; done || apply Permutation_swap.
Qed.

Lemma running_broadcast ws : running (broadcast ws) = running ws.
Proof.
  induction ws as [|w ws IH]; [done|].
  destruct w as [| |job|]; [exact IH|exact IH|exact (f_equal (cons job) IH)|exact IH].
Qed.

Lemma count_asleep_broadcast ws : count_w Asleep (broadcast ws) = 0%nat.
Proof. unfold count_w. induction ws as [|w ws IH]; [done|]. simpl. rewrite filter_cons. by destruct w; rewrite decide_False. Qed.

Lemma count_exited_broadcast ws : count_w Exited (broadcast ws) = count_w Exited ws.
Proof.
  unfold count_w. induction ws as [|w ws IH]; [done|]. simpl. rewrite !filter_cons.
  destruct w; simpl; repeat case_decide; simpl; congruence.
Qed.

Lemma count_none w ws : count_w w ws = 0%nat ↔ w ∉ ws.
Proof.
  unfold count_w. rewrite length_zero_iff_nil. split.
  - intros H Hin. eapply not_elem_of_nil. rewrite <- H. apply list_elem_of_filter. by split.
  - intros H. destruct (filter _ ws) as [|x l] eqn:E; [done|]. exfalso. apply H.
    assert (x ∈ filter (fun y => y = w) ws) as Hx by (rewrite E; by left).
    apply list_elem_of_filter in Hx as [-> ?]. done.
Qed.

(** ** The invariant *)

Record pool_ok (w : World) : Prop := {
  po_size : 0 < nthr (pool w) ∧ Z.of_nat (length (thr (pool w))) = nthr (pool w);
  po_queued : queued (pool w) = Z.of_nat (length (jobs (pool w)));
  po_bound : queued (pool w) ≤ qmax (pool w);
  po_active : active (pool w) = Z.of_nat (length (running (thr (pool w))));
  po_done : done (pool w) = wrap64 (Z.of_nat (length (completed w)));
  po_fifo : accepted w = taken w ++ jobs (pool w);
  po_taken : taken w ≡ₚ completed w ++ running (thr (pool w));
  po_open : stop (pool w) = false → Exited ∉ thr (pool w);
  po_awake : stop (pool w) = true → Asleep ∉ thr (pool w);
  po_exit : Exited ∈ thr (pool w) → jobs (pool w) = [];
  po_wake : Asleep ∉ thr (pool w) ∨ (length (jobs (pool w)) ≤ count_w Ready (thr (pool w)))%nat;
}.

Lemma replicate_no n w : w ≠ Ready → w ∉ replicate n Ready.
Proof. intros Hw Hin. apply elem_of_replicate in Hin as [-> _]. done. Qed.

Lemma running_ready n : running (replicate n Ready) = [].
Proof. induction n; [done|]. exact IHn. Qed.

Lemma pool_new_ok b ok n q p : pool_new b ok n q = Some p → pool_ok (start p).
Proof.
  unfold pool_new. destruct (Z.leb_spec n 0); [done|]. destruct (Z.leb_spec q 0); [done|]. simpl.
  destruct b; [|done]. destruct (create_all _ _ _); [done|]. simpl. intros [= <-]. split; simpl; try done.
  - rewrite length_replicate. lia.
  - lia.
  - by rewrite running_ready.
  - by rewrite running_ready.
  - intros _. by apply replicate_no.
  - left. by apply replicate_no.
Qed.

Lemma insert_notin (ws : list Wrk) i x y : x ∉ ws → y ≠ x → x ∉ <[i := y]> ws.
Proof.
  intros Hx Hy Hin. apply list_elem_of_lookup in Hin as (j & Hj).
  destruct (decide (i = j)) as [->|Hne].
  - destruct (decide (j < length ws)%nat).
    + rewrite list_lookup_insert_eq in Hj by done. congruence.
    + rewrite list_insert_ge in Hj by lia. apply Hx. by eapply list_elem_of_lookup_2.
  - rewrite list_lookup_insert_ne in Hj by done. apply Hx. by eapply list_elem_of_lookup_2.
Qed.

Lemma broadcast_no ws : Asleep ∉ broadcast ws.
Proof. apply count_none, count_asleep_broadcast. Qed.

Lemma broadcast_exited ws : Exited ∈ broadcast ws ↔ Exited ∈ ws.
Proof.
  unfold broadcast. rewrite list_elem_of_fmap. split.
  - intros (x & Hx & Hin). destruct x; by simplify_eq.
  - intros Hin. by exists Exited.
Qed.

Lemma running_insert_at ws i x y :
  ws !! i = Some x → on x = None → running (<[i := y]> ws) ≡ₚ option_list (on y) ++ running ws.
Proof. intros Hi Hx. rewrite <- (running_insert ws i x y Hi). by rewrite Hx. Qed.

Lemma step_add_ok w job sig w' : pool_ok w → step w (EvAdd job sig) = Some w' → pool_ok w'.
Proof.
  intros [H1 H2 H3 H4 H5 H6 H7 H8 H9 H10 H11]. simpl. destruct (may_signal _ sig) eqn:Es; [|done].
  destruct (stop (pool w)) eqn:Est; [intros [= <-]; by split; simpl; rewrite ?Est|].
  destruct (Z.leb_spec (qmax (pool w)) (queued (pool w))); [intros [= <-]; by split; simpl; rewrite ?Est|].
  intros [= <-]. specialize (H8 eq_refl). destruct sig as [i|]; simpl in Es.
  - apply bool_decide_eq_true in Es. pose proof (running_insert_at _ _ _ Ready Es eq_refl) as Hr. simpl in Hr.
    assert (Exited ∉ <[i := Ready]> (thr (pool w))) as He by by apply insert_notin.
    split; simpl; try done.
    + by rewrite length_insert.
    + rewrite length_app. simpl. lia.
    + lia.
    + by rewrite Hr.
    + by rewrite H6, (assoc_L (++)).
    + by rewrite Hr.
    + right. rewrite length_app. simpl. pose proof (count_w_insert Ready _ _ _ Ready Es) as Hc.
      rewrite decide_False, decide_True in Hc by done. destruct H11 as [Hn|Hle]; [|lia].
      exfalso. apply Hn. by eapply list_elem_of_lookup_2.
  - split; simpl; try done.
    + rewrite length_app. simpl. lia.
    + lia.
    + by rewrite H6, (assoc_L (++)).
    + left. intros Hin. rewrite forallb_forall in Es. apply list_elem_of_In, Es in Hin. done.
Qed.

Lemma step_lock_ok w i w' : pool_ok w → step w (EvLock i) = Some w' → pool_ok w'.
Proof.
  intros [H1 H2 H3 H4 H5 H6 H7 H8 H9 H10 H11]. simpl.
  destruct (thr (pool w) !! i) as [[]|] eqn:Ei; try done. intros [= <-]. unfold wrk_lock.
  destruct (jobs (pool w)) as [|job rest] eqn:Ej.
  - set (y := if stop (pool w) then Exited else Asleep).
    assert (on y = None) as Hy by (unfold y; by destruct (stop _)).
    pose proof (running_insert_at _ _ _ y Ei eq_refl) as Hr. rewrite Hy in Hr. simpl in Hr.
    split; simpl; try done; rewrite ?Hr; try done.
    + by rewrite length_insert.
    + intros Hs. apply insert_notin; [auto|]. unfold y. by rewrite Hs.
    + intros Hs. apply insert_notin; [auto|]. unfold y. by rewrite Hs.
    + right. lia.
  - pose proof (running_insert_at _ _ _ (Running job) Ei eq_refl) as Hr. simpl in Hr.
    assert (Exited ∉ thr (pool w)) as He by (intros Hin; by apply H10 in Hin).
    split; simpl; try done.
    + by rewrite length_insert.
    + rewrite H2. simpl. lia.
    + lia.
    + rewrite Hr. simpl. lia.
    + by rewrite H6, <- (assoc_L (++)).
    + rewrite Hr, H7, <- (assoc_L (++)). apply Permutation_app_head. by rewrite Permutation_app_comm.
    + intros _. by apply insert_notin.
    + intros Hs. apply insert_notin; auto.
    + intros Hin. exfalso. revert Hin. by apply insert_notin.
    + destruct H11 as [Hn|Hle]; [left; by apply insert_notin|right].
      pose proof (count_w_insert Ready _ _ _ (Running job) Ei) as Hc.
      rewrite decide_True, decide_False in Hc by done. simpl in Hle. lia.
Qed.

Lemma wrap64_succ n : wrap64 (wrap64 n + 1) = wrap64 (n + 1).
Proof. unfold wrap64. by rewrite Zplus_mod_idemp_l. Qed.

Lemma step_done_ok w i w' : pool_ok w → step w (EvDone i) = Some w' → pool_ok w'.
Proof.
  intros [H1 H2 H3 H4 H5 H6 H7 H8 H9 H10 H11]. simpl.
  destruct (thr (pool w) !! i) as [[]|] eqn:Ei; try done. intros [= <-].
  pose proof (running_insert _ _ _ Ready Ei) as Hr. simpl in Hr.
  assert (Exited ∉ thr (pool w) → Exited ∉ broadcast (<[i:=Ready]> (thr (pool w)))) as He.
  { intros Hn Hin%(proj1 (broadcast_exited _)). by apply (insert_notin _ _ _ _ Hn) in Hin. }
  split; simpl; rewrite ?running_broadcast; try done.
  - unfold broadcast. by rewrite length_map, length_insert.
  - rewrite H4, <- Hr. simpl. lia.
  - rewrite H5, length_app. simpl. rewrite wrap64_succ. f_equal. lia.
  - rewrite H7, <- Hr. by rewrite <- (assoc_L (++)).
  - auto.
  - intros _. apply broadcast_no.
  - intros Hin. destruct (decide (Exited ∈ thr (pool w))); [auto|]. by apply He in Hin.
  - left. apply broadcast_no.
Qed.

Lemma step_ok w e w' : pool_ok w → step w e = Some w' → pool_ok w'.
Proof.
  destruct e as [job sig|i|i|i|]; intros Hok; [by apply step_add_ok|by apply step_lock_ok|by apply step_done_ok| |].
  - destruct Hok as [H1 H2 H3 H4 H5 H6 H7 H8 H9 H10 H11]. simpl.
    destruct (thr (pool w) !! i) as [[]|] eqn:Ei; try done. intros [= <-].
    pose proof (running_insert_at _ _ _ Ready Ei eq_refl) as Hr. simpl in Hr.
    split; simpl; rewrite ?Hr; try done.
    + by rewrite length_insert.
    + intros Hs. apply insert_notin; auto.
    + intros Hs. apply insert_notin; auto.
    + intros Hin. destruct (decide (Exited ∈ thr (pool w))); [auto|]. exfalso. revert Hin. by apply insert_notin.
    + right. pose proof (count_w_insert Ready _ _ _ Ready Ei) as Hc. rewrite decide_False, decide_True in Hc by done.
      destruct H11 as [Hn|Hle]; [|lia]. exfalso. apply Hn. by eapply list_elem_of_lookup_2.
  - destruct Hok as [H1 H2 H3 H4 H5 H6 H7 H8 H9 H10 H11]. simpl. intros [= <-].
    split; simpl; rewrite ?running_broadcast; try done.
    + unfold broadcast. by rewrite length_map.
    + intros _. apply broadcast_no.
    + intros Hin. apply H10. by apply broadcast_exited.
    + left. apply broadcast_no.
Qed.

Lemma run_ok w es w' : pool_ok w → run w es = Some w' → pool_ok w'.
Proof.
  revert w; induction es as [|e es IH]; intros w Hok; simpl; [by intros [= <-]|].
  destruct (step w e) as [w1|] eqn:E; [|done]. apply IH. by eapply step_ok.
Qed.

(** ** Draining *)

(** The critical sections that are left when nobody adds: two for each queued job,
    two for each running worker, one for each ready one. *)
Definition work_left (p : Pool) : nat :=
  (2 * length (jobs p) + count_w Ready (thr p) + 2 * length (running (thr p)))%nat.

(** The transitions of the workers themselves. *)
Definition is_worker (e : Ev) : bool := match e with EvLock _ | EvDone _ => true | _ => false end.

Lemma count_ready_broadcast ws : Asleep ∉ ws → broadcast ws = ws.
Proof.
  intros H. unfold broadcast. rewrite <- (list_fmap_id ws) at 2. apply list_fmap_ext. intros i x Hi.
  destruct x; try done. exfalso. apply H. by eapply list_elem_of_lookup_2.
Qed.

Lemma worker_step_stopped w e w' :
  pool_ok w → stop (pool w) = true → is_worker e = true → step w e = Some w' →
  stop (pool w') = true ∧ (work_left (pool w') < work_left (pool w))%nat ∧ accepted w' = accepted w.
Proof.
  intros Hok Hs. pose proof (po_awake _ Hok Hs) as Ha. destruct e as [| i | i | |]; try done; intros _; simpl.
  - destruct (thr (pool w) !! i) as [[]|] eqn:Ei; try done. intros [= <-]. simpl. unfold wrk_lock, work_left.
    rewrite Hs. destruct (jobs (pool w)) as [|job rest]; simpl.
    + pose proof (count_w_insert Ready _ _ _ Exited Ei) as Hc. rewrite decide_True, decide_False in Hc by done.
      pose proof (running_insert_at _ _ _ Exited Ei eq_refl) as Hr. rewrite Hr. simpl. split_and!; (done || lia).
    + pose proof (count_w_insert Ready _ _ _ (Running job) Ei) as Hc. rewrite decide_True, decide_False in Hc by done.
      pose proof (running_insert_at _ _ _ (Running job) Ei eq_refl) as Hr. rewrite Hr. simpl. split_and!; (done || lia).
  - destruct (thr (pool w) !! i) as [[]|] eqn:Ei; try done. intros [= <-]. simpl. unfold work_left. simpl.
    rewrite running_broadcast. pose proof (running_insert _ _ _ Ready Ei) as Hr. simpl in Hr. rewrite <- Hr. simpl.
    rewrite count_ready_broadcast by by apply insert_notin.
    pose proof (count_w_insert Ready _ _ _ Ready Ei) as Hc. rewrite decide_False, decide_True in Hc by done.
    split_and!; (done || lia).
Qed.

Lemma worker_run_bounded w es w' :
  pool_ok w → stop (pool w) = true → forallb is_worker es = true → run w es = Some w' →
  (length es + work_left (pool w') ≤ work_left (pool w))%nat ∧ accepted w' = accepted w ∧ stop (pool w') = true.
Proof.
  revert w; induction es as [|e es IH]; intros w Hok Hs; simpl; [intros _ [= <-]; by split_and!; (done || lia)|].
  intros [He Hes]%andb_prop. destruct (step w e) as [w1|] eqn:E; [|done]. simpl. intros Hr.
  destruct (worker_step_stopped _ _ _ Hok Hs He E) as (H1 & H2 & H3).
  destruct (IH w1 (step_ok _ _ _ Hok E) H1 Hes Hr) as (H4 & H5 & H6). split_and!; [lia|congruence|done].
Qed.

(** As long as a worker has not left, one of them can go on. *)
Lemma stopped_progress w :
  pool_ok w → stop (pool w) = true →
  Forall (fun x => x = Exited) (thr (pool w)) ∨ ∃ e w', is_worker e = true ∧ step w e = Some w'.
Proof.
  intros Hok Hs. destruct (decide (Forall (fun x => x = Exited) (thr (pool w)))) as [|Hn]; [by left|right].
  apply not_Forall_Exists in Hn; [|solve_decision]. apply Exists_exists in Hn as (x & Hin & Hx).
  simpl in Hx. apply list_elem_of_lookup in Hin as (i & Hi). destruct x as [| |job|]; [| | |done].
  - exists (EvLock i). eexists. split; [done|]. simpl. by rewrite Hi.
  - exfalso. apply (po_awake _ Hok Hs). by eapply list_elem_of_lookup_2.
  - exists (EvDone i). eexists. split; [done|]. simpl. by rewrite Hi.
Qed.

Lemma stopped_drain w n :
  pool_ok w → stop (pool w) = true → (work_left (pool w) ≤ n)%nat →
  ∃ es w', forallb is_worker es = true ∧ run w es = Some w' ∧ Forall (fun x => x = Exited) (thr (pool w')).
Proof.
  revert w; induction n as [|n IH]; intros w Hok Hs Hn; destruct (stopped_progress w Hok Hs) as [He|(e & w1 & He & E)];
    try (by exists [], w); destruct (worker_step_stopped _ _ _ Hok Hs He E) as (H1 & H2 & H3); [lia|].
  destruct (IH w1 (step_ok _ _ _ Hok E) H1) as (es & w' & Hes & Hr & Hx); [lia|].
  exists (e :: es), w'. simpl. rewrite He, E. by split_and!.
Qed.

(** ** Properties *)

(** C14. From [pool_new], in every state the pool reaches by any interleaving of
    [pool_add], [pool_stop], workers and spurious wakes: the queue never holds
    more than [qmax] jobs; jobs are taken in the order they were accepted, each
    exactly once; every job taken is running or completed; and [pool_stat]
    reports exactly the number of threads, running, queued and completed jobs
    (the last modulo 2^64). *)
Theorem pool_fifo_bounded (calloc_ok : bool) (create_ok : nat → bool) (n q : Z) (p : Pool) (es : list Ev) (w : World) :
  pool_new calloc_ok create_ok n q = Some p → run (start p) es = Some w →
  Z.of_nat (length (jobs (pool w))) ≤ qmax (pool w) ∧
  accepted w = taken w ++ jobs (pool w) ∧
  taken w ≡ₚ completed w ++ running (thr (pool w)) ∧
  pool_stat (pool w) = mkPoolSt (Z.of_nat (length (thr (pool w)))) (Z.of_nat (length (running (thr (pool w)))))
    (Z.of_nat (length (jobs (pool w)))) (wrap64 (Z.of_nat (length (completed w)))).
Proof.
  intros Hn Hr. destruct (run_ok _ _ _ (pool_new_ok _ _ _ _ _ Hn) Hr) as [[H1 H1'] H2 H3 H4 H5 H6 H7 _ _ _ _].
  split_and!; [lia|done|done|]. unfold pool_stat. congruence.
Qed.

Definition demo_pool : Pool := mkPool [Ready; Ready] 2 2 false 0 0 0 [].
Definition demo_run : list Ev :=
  [EvLock 0; EvAdd 7%nat (Some 0%nat); EvAdd 8%nat None; EvAdd 9%nat None; EvLock 1; EvLock 0; EvDone 0; EvLock 0].

Lemma pool_fifo_bounded_witness :
  ∃ w, run (start demo_pool) demo_run = Some w ∧ accepted w = [7; 8]%nat ∧
    taken w ≡ₚ completed w ++ running (thr (pool w)) ∧ pool_stat (pool w) = mkPoolSt 2 1 0 1.
Proof.
  destruct (run (start demo_pool) demo_run) as [w|] eqn:E; [|vm_compute in E; discriminate E].
  exists w. split; [reflexivity|].
  destruct (pool_fifo_bounded true (fun _ => true) 2 2 demo_pool demo_run w) as (_ & _ & Ht & Hs).
  - reflexivity.
  - exact E.
  - assert (accepted <$> run (start demo_pool) demo_run = Some [7; 8]%nat) as Ha by (vm_compute; reflexivity).
    rewrite E in Ha. injection Ha as Ha. split; [exact Ha|]. split; [exact Ht|].
    assert ((fun w => pool_stat (pool w)) <$> run (start demo_pool) demo_run = Some (mkPoolSt 2 1 0 1)) as Hx
      by (vm_compute; reflexivity).
    rewrite E in Hx. exact (Some_inj _ _ Hx).
Defined.

(** C15. No lost wakeup.  Whenever a worker sleeps, there are at least as many
    workers on their way to the queue as there are jobs in it; so as long as a
    job is queued, some worker can go on without any further signal. *)
Theorem pool_no_lost_wakeup (calloc_ok : bool) (create_ok : nat → bool) (n q : Z) (p : Pool) (es : list Ev) (w : World) :
  pool_new calloc_ok create_ok n q = Some p → run (start p) es = Some w →
  (Asleep ∈ thr (pool w) → (length (jobs (pool w)) ≤ count_w Ready (thr (pool w)))%nat) ∧
  (jobs (pool w) ≠ [] → ∃ e w', is_worker e = true ∧ step w e = Some w').
Proof.
  intros Hn Hr. pose proof (run_ok _ _ _ (pool_new_ok _ _ _ _ _ Hn) Hr) as Hok.
  pose proof Hok as [[H1 H1'] H2 H3 H4 H5 H6 H7 H8 H9 H10 H11].
  split; [intros Ha; by destruct H11 as [?|?]|]. intros Hj.
  assert (Exited ∉ thr (pool w)) as Hx by (intros Hin; by apply H10 in Hin).
  destruct (decide (Ready ∈ thr (pool w))) as [Hin|Hno].
  - apply list_elem_of_lookup in Hin as (i & Hi). exists (EvLock i). eexists. split; [done|]. simpl. by rewrite Hi.
  - destruct H11 as [Ha|Hle]; [|rewrite (proj2 (count_none Ready _) Hno) in Hle; destruct (jobs (pool w)); simpl in Hle; [done|lia]].
    destruct (thr (pool w)) as [|x ws] eqn:Et; [simpl in *; lia|].
    destruct x as [| |job|]; [exfalso; apply Hno; by left|exfalso; apply Ha; by left| |exfalso; apply Hx; by left].
    exists (EvDone 0). eexists. split; [done|]. simpl. by rewrite Et.
Qed.

Lemma pool_no_lost_wakeup_witness :
  ∃ w, run (start demo_pool) [EvLock 0; EvLock 1; EvAdd 7%nat (Some 1%nat)] = Some w ∧
    (length (jobs (pool w)) ≤ count_w Ready (thr (pool w)))%nat.
Proof.
  destruct (run (start demo_pool) [EvLock 0; EvLock 1; EvAdd 7%nat (Some 1%nat)]) as [w|] eqn:E;
    [|vm_compute in E; discriminate E].
  exists w. split; [reflexivity|].
  apply (pool_no_lost_wakeup true (fun _ => true) 2 2 demo_pool [EvLock 0; EvLock 1; EvAdd 7%nat (Some 1%nat)] w).
  - reflexivity.
  - exact E.
  - vm_compute in E. injection E as <-. left.
Defined.

(** C16. Stopping drains the queue.  Once [pool_stop] has been called no job is
    accepted any more; the workers take at most [work_left] further steps, can
    go on until every one of them has left, and then the join in [pool_del]
    finds no queued job: every accepted job has been completed exactly once. *)
Theorem pool_stop_drains (calloc_ok : bool) (create_ok : nat → bool) (n q : Z) (p : Pool) (es : list Ev) (w : World) :
  pool_new calloc_ok create_ok n q = Some p → run (start p) es = Some w → stop (pool w) = true →
  (∀ b fn sig, fst (pool_add b (pool w) fn sig) < 0 ∧ snd (pool_add b (pool w) fn sig) = pool w) ∧
  (∀ es' w', forallb is_worker es' = true → run w es' = Some w' → (length es' ≤ work_left (pool w))%nat) ∧
  (∃ es' w', forallb is_worker es' = true ∧ run w es' = Some w' ∧ pool_del (pool w') ≠ None) ∧
  (∀ es' w' dropped, forallb is_worker es' = true → run w es' = Some w' → pool_del (pool w') = Some dropped →
     dropped = [] ∧ completed w' ≡ₚ accepted w).
Proof.
  intros Hn Hr Hs. pose proof (run_ok _ _ _ (pool_new_ok _ _ _ _ _ Hn) Hr) as Hok. split_and!.
  - intros b fn sig. unfold pool_add. destruct fn; [|by split]. destruct b; [|by split]. simpl. by rewrite Hs.
  - intros es' w' He Hr'. destruct (worker_run_bounded _ _ _ Hok Hs He Hr') as (H & _). lia.
  - destruct (stopped_drain w _ Hok Hs (le_n _)) as (es' & w' & He & Hr' & Hx).
    exists es', w'. split; [done|]. split; [done|]. unfold pool_del.
    assert (∀ x, x ∈ thr (pool_stop (pool w')) → x = Exited) as Hall.
    { simpl. intros x (y & -> & Hy)%list_elem_of_fmap. rewrite Forall_forall in Hx. by rewrite (Hx y Hy). }
    rewrite (proj2 (forallb_forall _ _)); [done|]. intros x Hin%list_elem_of_In. apply bool_decide_eq_true. auto.
  - intros es' w' dropped He Hr'. destruct (worker_run_bounded _ _ _ Hok Hs He Hr') as (_ & Hacc & Hs').
    pose proof (run_ok _ _ _ Hok Hr') as [[H1 H1'] H2 H3 H4 H5 H6 H7 H8 H9 H10 H11].
    intros Hd. unfold pool_del in Hd. destruct (forallb _ _) eqn:Ef in Hd; [|done]. injection Hd as <-. rewrite forallb_forall in Ef.
    simpl in Ef. rewrite count_ready_broadcast in Ef by auto.
    assert (∀ x, x ∈ thr (pool w') → x = Exited) as Hall.
    { intros x Hin%list_elem_of_In. by apply Ef, bool_decide_eq_true in Hin. }
    assert (jobs (pool w') = []) as Hj.
    { apply H10. destruct (thr (pool w')) as [|x ws]; [simpl in *; lia|]. rewrite (Hall x) by by left. by left. }
    split; [done|]. rewrite <- Hacc, H6, Hj, app_nil_r, H7.
    assert (running (thr (pool w')) = []) as ->; [|by rewrite app_nil_r].
    clear -Hall. induction (thr (pool w')) as [|x ws IH]; [done|].
    pose proof (Hall x) as Hx. rewrite Hx by by left. unfold running in *. simpl. apply IH. intros y Hy. apply Hall. by right.
Qed.

Lemma pool_stop_drains_witness :
  ∃ w, run (start demo_pool) [EvAdd 7%nat None; EvAdd 8%nat None; EvStop] = Some w ∧
    fst (pool_add true (pool w) (Some 9%nat) None) < 0 ∧
    ∃ es' w', run w es' = Some w' ∧ pool_del (pool w') ≠ None.
Proof.
  destruct (run (start demo_pool) [EvAdd 7%nat None; EvAdd 8%nat None; EvStop]) as [w|] eqn:E;
    [|vm_compute in E; discriminate E].
  exists w. split; [reflexivity|].
  destruct (pool_stop_drains true (fun _ => true) 2 2 demo_pool [EvAdd 7%nat None; EvAdd 8%nat None; EvStop] w)
    as (H1 & _ & (es' & w' & _ & H2 & H3) & _).
  - reflexivity.
  - exact E.
  - vm_compute in E. injection E as <-. reflexivity.
  - split; [apply H1|]. exists es', w'. split; [exact H2|exact H3].
Defined.
