(* ===== verification/QueryCache.v ===== *)
(** The query cache of [src/api/cache/query_cache.c]: a hash table whose chains
    and whose recency list run through the indices of one array of entries.

    All globals are one record, every call is one critical section.  An access
    outside an array is [None].  The time of a call, whether an allocation
    succeeds and the environment variable are arguments. *)

From Stdlib Require Import String.
From S2P Require Import Prelude CString Values.
From stdpp Require Import base numbers list option.
Local Open Scope Z_scope.

Definition QUERY_CACHE_BUCKETS : Z := 2048.
Definition QUERY_CACHE_MAX_ENTRIES : Z := 1024.
Definition QUERY_CACHE_DEFAULT_TTL_NS : Z := 5000000000.
Definition QUERY_CACHE_MIN_TTL_NS : Z := 1000000.
Definition QUERY_CACHE_MAX_TTL_NS : Z := 60000000000.
Definition QUERY_CACHE_MAX_BODY_BYTES : Z := 256 * 1024.

(** ** State *)

Record QueryCacheEntry := mkEntry {
  in_use : bool;
  hash : Z;
  key : option cstr;
  body : option cstr;
  body_len : Z;
  table_version : Z;
  expire_at_ns : Z;
  next_hash : Z;
  prev_lru : Z;
  next_lru : Z;
}.

Record Cache := mkCache {
  initialized : bool;
  bucket_heads : list Z;
  entries : list QueryCacheEntry;
  lru_head : Z;
  lru_tail : Z;
  entry_count : Z;
  ttl_ns : Z;
}.

Inductive MissReason := MISS_NONE | MISS_NO_ENTRY | MISS_TTL_EXPIRED | MISS_VERSION_CHANGED.

(** [free_entry]. *)
Definition free_entry : QueryCacheEntry := mkEntry false 0 None None 0 0 0 (-1) (-1) (-1).

(** The zeroed globals before the first [query_cache_init]. *)
Definition g_cache : Cache :=
  mkCache false (replicate (Z.to_nat QUERY_CACHE_BUCKETS) 0)
    (replicate (Z.to_nat QUERY_CACHE_MAX_ENTRIES) (mkEntry false 0 None None 0 0 0 0 0 0)) (-1) (-1) 0
    QUERY_CACHE_DEFAULT_TTL_NS.

(** Array accesses. *)
Definition get {A} (l : list A) (i : Z) : option A := if i <? 0 then None else l !! Z.to_nat i.
Definition put {A} (l : list A) (i : Z) (x : A) : option (list A) :=
  if (i <? 0) || (Z.of_nat (length l) <=? i) then None else Some (<[Z.to_nat i := x]> l).

Definition set_buckets (c : Cache) (bs : list Z) : Cache :=
  mkCache (initialized c) bs (entries c) (lru_head c) (lru_tail c) (entry_count c) (ttl_ns c).
Definition set_entries (c : Cache) (es : list QueryCacheEntry) : Cache :=
  mkCache (initialized c) (bucket_heads c) es (lru_head c) (lru_tail c) (entry_count c) (ttl_ns c).
Definition set_lru (c : Cache) (h t : Z) : Cache :=
  mkCache (initialized c) (bucket_heads c) (entries c) h t (entry_count c) (ttl_ns c).
Definition set_entry_count (c : Cache) (n : Z) : Cache :=
  mkCache (initialized c) (bucket_heads c) (entries c) (lru_head c) (lru_tail c) n (ttl_ns c).

Definition set_next_hash (e : QueryCacheEntry) (n : Z) : QueryCacheEntry :=
  mkEntry (in_use e) (hash e) (key e) (body e) (body_len e) (table_version e) (expire_at_ns e) n (prev_lru e) (next_lru e).
Definition set_lru_links (e : QueryCacheEntry) (p n : Z) : QueryCacheEntry :=
  mkEntry (in_use e) (hash e) (key e) (body e) (body_len e) (table_version e) (expire_at_ns e) (next_hash e) p n.
Definition set_body (e : QueryCacheEntry) (b : option cstr) (len ver exp : Z) : QueryCacheEntry :=
  mkEntry (in_use e) (hash e) (key e) b len ver exp (next_hash e) (prev_lru e) (next_lru e).

(** [entries[i].f = ...]. *)
Definition upd (c : Cache) (i : Z) (f : QueryCacheEntry → QueryCacheEntry) : option Cache :=
  let* e := get (entries c) i in
  let* es := put (entries c) i (f e) in
  Some (set_entries c es).

(** ** Time to live *)

(** [raw]: the value of QUERY_CACHE_TTL_MS. *)
Definition resolve_ttl_ns (raw : option cstr) : Z :=
  match raw with
  | None | Some [] => QUERY_CACHE_DEFAULT_TTL_NS
  | Some s =>
      let '(ttl_ms, whole) := strtoull s in
      if negb whole || (ttl_ms =? 0) then QUERY_CACHE_DEFAULT_TTL_NS
      else if QUERY_CACHE_MAX_TTL_NS / 1000000 <? ttl_ms then QUERY_CACHE_MAX_TTL_NS
      else if ttl_ms <? QUERY_CACHE_MIN_TTL_NS / 1000000 then QUERY_CACHE_MIN_TTL_NS
      else ttl_ms * 1000000
  end.

(** ** Lists through the entries *)

Definition hash_key (src : cstr) : Z := fnv1a_mix 1469598103934665603 src.

Definition bucket_of (h : Z) : Z := h mod QUERY_CACHE_BUCKETS.

(** The test at the head of every list operation. *)
Definition bad_idx (c : Cache) (idx : Z) : bool :=
  (idx <? 0) || (QUERY_CACHE_MAX_ENTRIES <=? idx) ||
  match get (entries c) idx with Some e => negb (in_use e) | None => true end.

(** The walk of [unlink_from_bucket]; a chain has at most every entry once. *)
Fixpoint unlink_walk (fuel : nat) (c : Cache) (idx bucket cur prev : Z) : option Cache :=
  if cur =? -1 then Some c
  else
    match fuel with
    | O => None
    | S n =>
        let* e := get (entries c) cur in
        if cur =? idx then
          let* c1 := (if prev =? -1
                      then let* bs := put (bucket_heads c) bucket (next_hash e) in Some (set_buckets c bs)
                      else upd c prev (fun p => set_next_hash p (next_hash e))) in
          upd c1 cur (fun e => set_next_hash e (-1))
        else unlink_walk n c idx bucket (next_hash e) cur
    end.

Definition CHAIN_FUEL : nat := S (Z.to_nat QUERY_CACHE_MAX_ENTRIES).

Definition unlink_from_bucket (c : Cache) (idx : Z) : option Cache :=
  if bad_idx c idx then Some c
  else
    let* e := get (entries c) idx in
    let bucket := bucket_of (hash e) in
    let* cur := get (bucket_heads c) bucket in
    unlink_walk CHAIN_FUEL c idx bucket cur (-1).

Definition unlink_from_lru (c : Cache) (idx : Z) : option Cache :=
  if bad_idx c idx then Some c
  else
    let* e := get (entries c) idx in
    let prev := prev_lru e in
    let next := next_lru e in
    let* c1 := (if prev =? -1 then Some (set_lru c next (lru_tail c))
                else upd c prev (fun p => set_lru_links p (prev_lru p) next)) in
    let* c2 := (if next =? -1 then Some (set_lru c1 (lru_head c1) prev)
                else upd c1 next (fun n => set_lru_links n prev (next_lru n))) in
    upd c2 idx (fun e => set_lru_links e (-1) (-1)).

Definition touch_lru_head (c : Cache) (idx : Z) : option Cache :=
  if bad_idx c idx then Some c
  else
    let* c1 := unlink_from_lru c idx in
    let* c2 := upd c1 idx (fun e => set_lru_links e (-1) (lru_head c1)) in
    let* c3 := (if lru_head c2 =? -1 then Some c2
                else upd c2 (lru_head c2) (fun h => set_lru_links h idx (next_lru h))) in
    Some (set_lru c3 idx (if lru_tail c3 =? -1 then idx else lru_tail c3)).

Definition remove_entry (c : Cache) (idx : Z) : option Cache :=
  if bad_idx c idx then Some c
  else
    let* c1 := unlink_from_bucket c idx in
    let* c2 := unlink_from_lru c1 idx in
    let* c3 := upd c2 idx (fun _ => free_entry) in
    Some (set_entry_count c3 (if 0 <? entry_count c3 then entry_count c3 - 1 else entry_count c3)).

(** The first entry from [i] that is not in use. *)
Fixpoint first_free (i : Z) (es : list QueryCacheEntry) : option Z :=
  match es with
  | [] => None
  | e :: es' => if in_use e then first_free (i + 1) es' else Some i
  end.

(** -1 stands for no room. *)
Definition allocate_entry_index (c : Cache) : option (Z * Cache) :=
  match (if entry_count c <? QUERY_CACHE_MAX_ENTRIES then first_free 0 (entries c) else None) with
  | Some i => Some (i, c)
  | None =>
      if lru_tail c =? -1 then Some (-1, c)
      else
        let* c1 := remove_entry c (lru_tail c) in
        Some (match first_free 0 (entries c1) with Some i => i | None => -1 end, c1)
  end.

Fixpoint find_walk (fuel : nat) (c : Cache) (k : cstr) (h cur : Z) : option Z :=
  if cur =? -1 then Some (-1)
  else
    match fuel with
    | O => None
    | S n =>
        let* e := get (entries c) cur in
        if in_use e && (hash e =? h) && match key e with Some k' => streq k' k | None => false end
        then Some cur
        else find_walk n c k h (next_hash e)
    end.

Definition find_entry_index (c : Cache) (k : cstr) (h : Z) : option Z :=
  let* cur := get (bucket_heads c) (bucket_of h) in find_walk CHAIN_FUEL c k h cur.

(** ** The interface *)

Definition query_cache_init (raw : option cstr) (c : Cache) : Cache :=
  if initialized c then c
  else mkCache true (replicate (Z.to_nat QUERY_CACHE_BUCKETS) (-1))
         (map (fun e => set_lru_links (set_next_hash e (-1)) (-1) (-1)) (entries c)) (-1) (-1) 0 (resolve_ttl_ns raw).

Definition query_cache_clear (c : Cache) : Cache :=
  mkCache (initialized c) (replicate (Z.to_nat QUERY_CACHE_BUCKETS) (-1))
    (map (fun e => if in_use e then free_entry else e) (entries c)) (-1) (-1) 0 (ttl_ns c).

Definition query_cache_destroy (c : Cache) : Cache :=
  let c1 := query_cache_clear c in
  mkCache false (bucket_heads c1) (entries c1) (lru_head c1) (lru_tail c1) (entry_count c1) (ttl_ns c1).

(** The body of a hit, or why there is none. *)
Definition query_cache_lookup (raw : option cstr) (malloc_ok : bool) (now : Z) (c : Cache) (k : cstr) (ver : Z)
    : option ((cstr + MissReason) * Cache) :=
  match k with
  | [] => Some (inr MISS_NONE, c)
  | _ =>
      let c := query_cache_init raw c in
      let* idx := find_entry_index c k (hash_key k) in
      if idx =? -1 then Some (inr MISS_NO_ENTRY, c)
      else
        let* e := get (entries c) idx in
        if expire_at_ns e <=? now then
          let* c1 := remove_entry c idx in Some (inr MISS_TTL_EXPIRED, c1)
        else if negb (table_version e =? ver) then
          let* c1 := remove_entry c idx in Some (inr MISS_VERSION_CHANGED, c1)
        else if negb malloc_ok then Some (inr MISS_NONE, c)
        else
          let* b := body e in
          let* c1 := touch_lru_head c idx in
          Some (inl (take (Z.to_nat (body_len e)) b), c1)
  end.

(** [dup_ok], [malloc_ok]: the copies of the key and of the body succeed. *)
Definition query_cache_store (raw : option cstr) (dup_ok malloc_ok : bool) (now : Z) (c : Cache) (k : cstr) (ver : Z)
    (b : cstr) : option Cache :=
  match k with
  | [] => Some c
  | _ =>
      if QUERY_CACHE_MAX_BODY_BYTES <? Z.of_nat (length b) then Some c
      else
        let c := query_cache_init raw c in
        let h := hash_key k in
        let* found := find_entry_index c k h in
        let* (idx, c1) :=
          (if found =? -1 then
             let* (i, c1) := allocate_entry_index c in
             if i =? -1 then Some (-1, c1)
             else if negb dup_ok then let* c2 := upd c1 i (fun _ => free_entry) in Some (-1, c2)
             else
               let* head := get (bucket_heads c1) (bucket_of h) in
               let* c2 := upd c1 i (fun e => mkEntry true h (Some k) (body e) (body_len e) (table_version e)
                                              (expire_at_ns e) head (prev_lru e) (next_lru e)) in
               let* bs := put (bucket_heads c2) (bucket_of h) i in
               Some (i, set_entry_count (set_buckets c2 bs) (entry_count c2 + 1))
           else
             let* c1 := upd c found (fun e => set_body e None (body_len e) (table_version e) (expire_at_ns e)) in
             Some (found, c1)) in
        if idx =? -1 then Some c1
        else if negb malloc_ok then remove_entry c1 idx
        else
          let* c2 := upd c1 idx (fun e => set_body e (Some b) (Z.of_nat (length b)) ver (wrap64 (now + ttl_ns c1))) in
          touch_lru_head c2 idx
  end.
