(* ===== verification/CacheProofs.v ===== *)
(** The query cache is a finite map with a time to live: the invariant of its
    chains, and what each operation does to the map. *)

From Stdlib Require Import String.
From S2P Require Import Prelude CString Values QueryCache.
From stdpp Require Import base numbers list option gmap.
Local Open Scope Z_scope.

(** ** Arrays *)

Lemma get_nat {A} (l : list A) (i : nat) : get l (Z.of_nat i) = l !! i.
Proof. unfold get. rewrite (proj2 (Z.ltb_ge _ _)) by lia. by rewrite Nat2Z.id. Qed.

Lemma put_nat {A} (l : list A) (i : nat) x : (i < length l)%nat → put l (Z.of_nat i) x = Some (<[i := x]> l).
Proof.
  intros H. unfold put. rewrite (proj2 (Z.ltb_ge _ _)) by lia. rewrite (proj2 (Z.leb_gt _ _)) by lia. simpl. by rewrite Nat2Z.id.
Qed.

Lemma get_Some {A} (l : list A) b : 0 ≤ b < Z.of_nat (length l) → ∃ x, get l b = Some x ∧ l !! Z.to_nat b = Some x.
Proof.
  intros Hb. unfold get. rewrite (proj2 (Z.ltb_ge _ _)) by lia.
  destruct (lookup_lt_is_Some_2 l (Z.to_nat b)) as [x Hx]; [lia|]. by exists x.
Qed.

Lemma upd_nat c (i : nat) e f :
  entries c !! i = Some e → upd c (Z.of_nat i) f = Some (set_entries c (<[i := f e]> (entries c))).
Proof. intros H. unfold upd. rewrite get_nat, H. rewrite put_nat by by eapply lookup_lt_Some. done. Qed.

(** ** Chains *)

(** The indices from [h] along [next_hash]. *)
Fixpoint linked (es : list QueryCacheEntry) (h : Z) (l : list nat) : Prop :=
  match l with
  | [] => h = -1
  | i :: l' => h = Z.of_nat i ∧ ∃ e, es !! i = Some e ∧ linked es (next_hash e) l'
  end.

Definition next_of (es : list QueryCacheEntry) (i : nat) : option Z := next_hash <$> es !! i.

Lemma linked_frame es es' h l :
  (∀ i, i ∈ l → next_of es' i = next_of es i) → linked es h l → linked es' h l.
Proof.
  revert h; induction l as [|i l IH]; intros h Hn; simpl; [done|]. intros (-> & e & He & Hl). split; [done|].
  pose proof (Hn i ltac:(by left)) as Hi. unfold next_of in Hi. rewrite He in Hi.
  destruct (es' !! i) as [e'|]; [|done]. injection Hi as Hi. exists e'. split; [done|]. rewrite Hi.
  apply IH; [|done]. intros j Hj. apply Hn. by right.
Qed.

Lemma linked_app es h l1 i l2 :
  linked es h (l1 ++ i :: l2) → ∃ e, es !! i = Some e ∧ linked es (next_hash e) l2.
Proof.
  revert h; induction l1 as [|j l1 IH]; intros h; simpl.
  - intros (_ & e & He & Hl). by exists e.
  - intros (_ & e & _ & Hl). by eapply IH.
Qed.

(** A chain cut after [p] and continued elsewhere. *)
Lemma linked_splice es h l0 p ep i l2 n :
  linked es h (l0 ++ p :: i :: l2) → es !! p = Some ep → NoDup (l0 ++ p :: i :: l2) →
  linked es n l2 →
  linked (<[p := set_next_hash ep n]> es) h (l0 ++ p :: l2).
Proof.
  revert h; induction l0 as [|j l0 IH]; intros h; simpl.
  - intros (-> & _) Hp Hnd Hl. split; [done|]. exists (set_next_hash ep n).
    rewrite list_lookup_insert_eq by by eapply lookup_lt_Some. split; [done|]. simpl.
    eapply linked_frame; [|exact Hl]. intros k Hk. unfold next_of. rewrite list_lookup_insert_ne; [done|].
    intros ->. apply NoDup_cons in Hnd as [Hn _]. apply Hn. by right.
  - intros (-> & e & He & Hl) Hp Hnd Hn. apply NoDup_cons in Hnd as [Hj Hnd]. split; [done|]. exists e. split.
    + rewrite list_lookup_insert_ne; [done|]. intros ->. apply Hj, elem_of_app. right. by left.
    + by apply IH.
Qed.

(** [c'] is [c] with [i] taken out of the chain of its bucket. *)
Record unlinked (c : Cache) (b : Z) (l : list nat) (i : nat) (c' : Cache) : Prop := {
  ul_entries : ∀ j, match entries c' !! j, entries c !! j with
                    | Some e', Some e => e' = set_next_hash e (next_hash e')
                    | None, None => True
                    | _, _ => False
                    end;
  ul_other : ∀ j, j ∉ l → entries c' !! j = entries c !! j;
  ul_next : next_of (entries c') i = Some (-1);
  ul_lens : length (entries c') = length (entries c) ∧ length (bucket_heads c') = length (bucket_heads c);
  ul_buckets : ∀ b', b' ≠ b → 0 ≤ b' → get (bucket_heads c') b' = get (bucket_heads c) b';
  ul_chain : ∃ h, get (bucket_heads c') b = Some h ∧ linked (entries c') h (filter (λ j, j ≠ i) l);
  ul_rest : lru_head c' = lru_head c ∧ lru_tail c' = lru_tail c ∧ entry_count c' = entry_count c ∧
            ttl_ns c' = ttl_ns c ∧ initialized c' = initialized c;
}.

Lemma filter_ne_app (l1 l2 : list nat) i : i ∉ l1 → i ∉ l2 → filter (λ j, j ≠ i) (l1 ++ i :: l2) = l1 ++ l2.
Proof.
  intros H1 H2. rewrite filter_app, filter_cons_False by (intros H; by apply H).
  assert (∀ l : list nat, i ∉ l → filter (λ j, j ≠ i) l = l) as Hf.
  { induction l as [|j l IH]; [done|]. intros [? ?]%not_elem_of_cons. rewrite filter_cons_True by done. f_equal. auto. }
  by rewrite !Hf.
Qed.

Lemma set_next_hash_id e : e = set_next_hash e (next_hash e).
Proof. by destruct e. Qed.

Lemma unlink_head c b i l2 e :
  0 ≤ b < Z.of_nat (length (bucket_heads c)) → entries c !! i = Some e → linked (entries c) (next_hash e) l2 →
  NoDup (i :: l2) →
  ∃ c', (let* c1 := (let* bs := put (bucket_heads c) b (next_hash e) in Some (set_buckets c bs)) in
          upd c1 (Z.of_nat i) (fun e => set_next_hash e (-1)))
      = Some c' ∧ unlinked c b (i :: l2) i c'.
Proof.
  intros Hb He Hl Hnd. replace b with (Z.of_nat (Z.to_nat b)) by lia. rewrite put_nat by lia.
  rewrite (upd_nat _ i e) by done. eexists. split; [done|]. apply NoDup_cons in Hnd as [Hi _].
  pose proof (lookup_lt_Some _ _ _ He) as Hlt. split; simpl.
  - intros j. destruct (decide (j = i)) as [->|Hne].
    + by rewrite list_lookup_insert_eq, He by done.
    + rewrite list_lookup_insert_ne by done. destruct (entries c !! j); [apply set_next_hash_id|done].
  - intros j Hj. rewrite list_lookup_insert_ne; [done|]. intros ->. apply Hj. by left.
  - unfold next_of. by rewrite list_lookup_insert_eq.
  - by rewrite !length_insert.
  - intros b' Hne Hb'. unfold get. rewrite (proj2 (Z.ltb_ge _ _)) by lia. rewrite list_lookup_insert_ne by lia. done.
  - exists (next_hash e). split.
    + rewrite get_nat. rewrite list_lookup_insert_eq by lia. done.
    + change (i :: l2) with ([] ++ i :: l2).
      rewrite filter_ne_app by (done || apply not_elem_of_nil). eapply linked_frame; [|exact Hl].
      intros j Hj. unfold next_of. rewrite list_lookup_insert_ne; [done|]. by intros ->.
  - done.
Qed.

Lemma unlink_inner c b h i l0 p ep l2 e :
  0 ≤ b < Z.of_nat (length (bucket_heads c)) → get (bucket_heads c) b = Some h →
  linked (entries c) h (l0 ++ p :: i :: l2) → NoDup (l0 ++ p :: i :: l2) →
  entries c !! p = Some ep → entries c !! i = Some e →
  ∃ c', (let* c1 := upd c (Z.of_nat p) (fun x => set_next_hash x (next_hash e)) in
         upd c1 (Z.of_nat i) (fun x => set_next_hash x (-1))) = Some c' ∧
    unlinked c b (l0 ++ p :: i :: l2) i c'.
Proof.
  intros Hb Hh Hl Hnd Hp He. rewrite (upd_nat c p ep) by done.
  assert (i ∉ l0 ++ [p] ∧ i ∉ l2) as [Hi1 Hi2].
  { replace (l0 ++ p :: i :: l2) with ((l0 ++ [p]) ++ i :: l2) in Hnd by by rewrite <- (assoc_L (++)).
    apply NoDup_app in Hnd as (_ & Hd & Hn). apply NoDup_cons in Hn as [? _]. split; [|done].
    intros Hin. apply (Hd i Hin). by left. }
  assert (p ≠ i) as Hpi by (intros ->; apply Hi1, elem_of_app; right; by left).
  pose proof (lookup_lt_Some _ _ _ Hp) as Hltp. pose proof (lookup_lt_Some _ _ _ He) as Hlti.
  rewrite (upd_nat _ i e) by (simpl; by rewrite list_lookup_insert_ne). simpl. eexists. split; [done|]. split; simpl.
  - intros j. destruct (decide (j = i)) as [->|Hne].
    + rewrite list_lookup_insert_eq by by rewrite length_insert. by rewrite He.
    + rewrite list_lookup_insert_ne by done. destruct (decide (j = p)) as [->|Hnp].
      * by rewrite list_lookup_insert_eq, Hp by done.
      * rewrite list_lookup_insert_ne by done. destruct (entries c !! j); [apply set_next_hash_id|done].
  - intros j Hj. rewrite !list_lookup_insert_ne; [done| |]; intros ->; apply Hj, elem_of_app; right; [by left|right; by left].
  - unfold next_of. by rewrite list_lookup_insert_eq by by rewrite length_insert.
  - by rewrite !length_insert.
  - done.
  - exists h. split; [done|].
    replace (l0 ++ p :: i :: l2) with ((l0 ++ [p]) ++ i :: l2) by by rewrite <- (assoc_L (++)).
    rewrite filter_ne_app by done. rewrite <- (assoc_L (++)). simpl.
    apply (linked_frame (<[p := set_next_hash ep (next_hash e)]> (entries c))).
    + intros j Hj. unfold next_of. rewrite (list_lookup_insert_ne _ i); [done|]. intros ->.
      rewrite elem_of_app, elem_of_cons in Hj. rewrite not_elem_of_app, not_elem_of_cons in Hi1. naive_solver.
    + eapply linked_splice; [exact Hl|done|done|].
      replace (l0 ++ p :: i :: l2) with ((l0 ++ [p]) ++ i :: l2) in Hl by by rewrite <- (assoc_L (++)).
      apply linked_app in Hl as (e' & He' & Hl). rewrite He in He'. by injection He' as <-.
  - done.
Qed.

Lemma unlink_walk_spec fuel c b h i l0 l2 cur prev l1 :
  0 ≤ b < Z.of_nat (length (bucket_heads c)) → get (bucket_heads c) b = Some h →
  linked (entries c) h (l0 ++ l1 ++ i :: l2) → NoDup (l0 ++ l1 ++ i :: l2) →
  linked (entries c) cur (l1 ++ i :: l2) → (length l1 < fuel)%nat →
  (l0 = [] ∧ prev = -1 ∨ ∃ l0' p, l0 = l0' ++ [p] ∧ prev = Z.of_nat p) →
  ∃ c', unlink_walk fuel c (Z.of_nat i) b cur prev = Some c' ∧ unlinked c b (l0 ++ l1 ++ i :: l2) i c'.
Proof.
  intros Hb Hh. revert fuel cur prev l0. induction l1 as [|j l1 IH]; intros fuel cur prev l0 Hl Hnd Hcur Hf Hprev;
    (destruct fuel as [|fuel]; [simpl in Hf; lia|]); simpl in Hcur; destruct Hcur as (-> & e & He & Hl2); cbn [unlink_walk].
  - rewrite (proj2 (Z.eqb_neq _ _)) by lia. rewrite get_nat, He, Z.eqb_refl.
    destruct Hprev as [[-> ->]|(l0' & p & -> & ->)].
    + cbn [app] in *. change (-1 =? -1) with true. cbv iota. by apply unlink_head.
    + rewrite (proj2 (Z.eqb_neq _ _)) by lia.
      assert (l0' ++ p :: i :: l2 = (l0' ++ [p]) ++ [] ++ i :: l2) as Hlist by by rewrite <- (assoc_L (++)).
      rewrite <- Hlist in *. destruct (linked_app _ _ _ _ _ Hl) as (ep & Hp & _). by eapply unlink_inner.
  - rewrite (proj2 (Z.eqb_neq _ _)) by lia. rewrite get_nat, He.
    assert (j ≠ i) as Hji.
    { intros ->. apply NoDup_app in Hnd as (_ & _ & Hnd). simpl in Hnd. apply NoDup_cons in Hnd as [Hnd _].
      apply Hnd, elem_of_app. right. by left. }
    rewrite (proj2 (Z.eqb_neq _ _)) by lia.
    replace (l0 ++ (j :: l1) ++ i :: l2) with ((l0 ++ [j]) ++ l1 ++ i :: l2) in * by by rewrite <- (assoc_L (++)).
    apply IH; try done; [simpl in Hf; lia|]. right. by exists l0, j.
Qed.

(** ** The invariant *)

(** What an entry in use holds; [full] is false while its body is being replaced. *)
Definition entry_ok (full : bool) (e : QueryCacheEntry) : Prop :=
  ∃ k, key e = Some k ∧ hash e = hash_key k ∧ k ≠ [] ∧
    (full = true → ∃ b, body e = Some b ∧ body_len e = Z.of_nat (length b)).

Definition used (es : list QueryCacheEntry) (i : nat) : Prop := ∃ e, es !! i = Some e ∧ in_use e = true.

(** The number of entries in use. *)
Definition n_used (es : list QueryCacheEntry) : nat := length (filter (λ e, in_use e = true) es).

(** [busy]: the entry whose body is being replaced. *)
Record cache_ok (busy : option nat) (c : Cache) : Prop := {
  ck_lens : length (bucket_heads c) = Z.to_nat QUERY_CACHE_BUCKETS ∧ length (entries c) = Z.to_nat QUERY_CACHE_MAX_ENTRIES;
  ck_chains : ∀ b, 0 ≤ b < QUERY_CACHE_BUCKETS → ∃ h l, get (bucket_heads c) b = Some h ∧ linked (entries c) h l ∧ NoDup l ∧
    ∀ i, i ∈ l ↔ ∃ e, entries c !! i = Some e ∧ in_use e = true ∧ bucket_of (hash e) = b;
  ck_entries : ∀ i e, entries c !! i = Some e → in_use e = true → entry_ok (bool_decide (busy ≠ Some i)) e;
  ck_keys : ∀ i j e1 e2, entries c !! i = Some e1 → entries c !! j = Some e2 → in_use e1 = true → in_use e2 = true →
    key e1 = key e2 → i = j;
  ck_links : Forall (λ e, prev_lru e = -1 ∧ next_lru e = -1) (entries c);
  ck_lru : lru_head c = lru_tail c ∧ (lru_tail c = -1 ∨ ∃ i, lru_tail c = Z.of_nat i ∧ used (entries c) i);
  ck_count : entry_count c = Z.of_nat (n_used (entries c));
  ck_full : busy = None → entry_count c = QUERY_CACHE_MAX_ENTRIES → lru_tail c ≠ -1;
}.

Lemma bucket_range h : 0 ≤ bucket_of h < QUERY_CACHE_BUCKETS.
Proof. unfold bucket_of, QUERY_CACHE_BUCKETS. apply Z.mod_pos_bound. lia. Qed.

Lemma length_chain (l : list nat) n : NoDup l → (∀ i, i ∈ l → (i < n)%nat) → (length l ≤ n)%nat.
Proof.
  intros Hnd Hl. rewrite <- (length_seq n 0). apply submseteq_length, NoDup_submseteq; [done|].
  intros i Hi. apply elem_of_seq. specialize (Hl i Hi). lia.
Qed.

(** ** Looking up *)

Lemma find_walk_spec fuel c k h cur l :
  linked (entries c) cur l → (length l < fuel)%nat →
  (∀ i e, i ∈ l → entries c !! i = Some e → in_use e = true ∧ ∃ k', key e = Some k') →
  ∃ r, find_walk fuel c k h cur = Some r ∧
    ((∃ i e, r = Z.of_nat i ∧ i ∈ l ∧ entries c !! i = Some e ∧ hash e = h ∧ key e = Some k) ∨
     r = -1 ∧ ∀ i e, i ∈ l → entries c !! i = Some e → ¬ (hash e = h ∧ key e = Some k)).
Proof.
  revert cur fuel; induction l as [|i l IH]; intros cur fuel; (destruct fuel as [|fuel]; [intros; lia|]); cbn [linked find_walk].
  - intros -> _ _. exists (-1). split; [done|]. right. split; [done|]. by intros i e ?%not_elem_of_nil.
  - intros (-> & e & He & Hl) Hf Hu. rewrite (proj2 (Z.eqb_neq _ _)) by lia. rewrite get_nat, He.
    destruct (Hu i e) as (Hin & k' & Hk); [by left|done|]. rewrite Hin, Hk. cbn [andb].
    destruct ((hash e =? h) && streq k' k) eqn:Et.
    + apply andb_prop in Et as [Hh Hs]. apply Z.eqb_eq in Hh. apply streq_true in Hs as ->.
      eexists. split; [done|]. left. exists i, e. split_and!; try done. by left.
    + destruct (IH (next_hash e) fuel Hl) as (r & -> & Hr); [simpl in Hf; lia|intros j ej Hj; apply Hu; by right|].
      exists r. split; [done|]. destruct Hr as [(j & ej & -> & Hj & H1 & H2 & H3)|[-> Hr]].
      * left. exists j, ej. split_and!; try done. by right.
      * right. split; [done|]. intros j ej [->|Hj]%elem_of_cons; [|by apply Hr]. rewrite He. intros [= <-] [Hh Hk'].
        rewrite Hh, Z.eqb_refl in Et. rewrite Hk in Hk'. injection Hk' as ->. by rewrite streq_refl in Et.
Qed.

Lemma find_spec busy c k :
  cache_ok busy c → k ≠ [] →
  ∃ r, find_entry_index c k (hash_key k) = Some r ∧
    ((∃ i e, r = Z.of_nat i ∧ entries c !! i = Some e ∧ in_use e = true ∧ key e = Some k) ∨
     r = -1 ∧ ∀ i e, entries c !! i = Some e → in_use e = true → key e ≠ Some k).
Proof.
  intros Hok Hk. unfold find_entry_index.
  destruct (ck_chains _ _ Hok _ (bucket_range (hash_key k))) as (h & l & -> & Hl & Hnd & Hmem). destruct (ck_lens _ _ Hok) as [_ Hle].
  destruct (find_walk_spec CHAIN_FUEL c k (hash_key k) h l Hl) as (r & -> & Hr).
  - unfold CHAIN_FUEL. rewrite <- Hle. apply Nat.lt_succ_r, length_chain; [done|].
    intros i (e & He & _)%Hmem. by eapply lookup_lt_Some.
  - intros i e Hi He. apply Hmem in Hi as (e' & He' & Hu & _). rewrite He in He'. injection He' as <-. split; [done|].
    destruct (ck_entries _ _ Hok i e He Hu) as (k' & Hk' & _). by exists k'.
  - exists r. split; [done|]. destruct Hr as [(i & e & -> & Hi & He & _ & Hke)|[-> Hr]].
    + left. exists i, e. split_and!; try done. apply Hmem in Hi as (e' & He' & Hu & _). rewrite He in He'. by injection He' as <-.
    + right. split; [done|]. intros i e He Hu Hke. destruct (ck_entries _ _ Hok i e He Hu) as (k' & Hk' & Hh & _).
      rewrite Hke in Hk'. injection Hk' as <-. apply (Hr i e); [|done|done]. apply Hmem. exists e. by rewrite Hh.
Qed.

(** ** The map *)

(** The key of an entry in use, and its body, version and expiry. *)
Definition kv (e : QueryCacheEntry) : option (cstr * (cstr * Z * Z)) :=
  if in_use e then k ← key e; b ← body e; Some (k, (b, table_version e, expire_at_ns e)) else None.

Definition view (c : Cache) : gmap cstr (cstr * Z * Z) := list_to_map (omap kv (entries c)).

Lemma kv_Some e k b v x :
  kv e = Some (k, (b, v, x)) ↔ in_use e = true ∧ key e = Some k ∧ body e = Some b ∧ table_version e = v ∧ expire_at_ns e = x.
Proof. unfold kv. destruct (in_use e), (key e), (body e); naive_solver. Qed.

Lemma NoDup_kv es :
  (∀ i j e1 e2, es !! i = Some e1 → es !! j = Some e2 → in_use e1 = true → in_use e2 = true → key e1 = key e2 → i = j) →
  NoDup (omap kv es).*1.
Proof.
  induction es as [|e es IH]; intros H; simpl; [constructor|].
  assert (NoDup (omap kv es).*1) as Hnd.
  { apply IH. intros i j e1 e2 H1 H2 H3 H4 H5. apply (Nat.succ_inj i j). by eapply H. }
  destruct (kv e) as [[k [[b v] x]]|] eqn:Ek; [|done]. simpl. constructor; [|done].
  intros ([k' [[b' v'] x']] & -> & Hin)%list_elem_of_fmap. apply list_elem_of_omap in Hin as (e' & He' & Hk').
  apply list_elem_of_lookup in He' as (j & Hj). apply kv_Some in Ek as (U1 & K1 & _), Hk' as (U2 & K2 & _).
  assert (0 = S j)%nat as Hc; [|done]. eapply H; [reflexivity|exact Hj|done|done|]. simpl in *. congruence.
Qed.

Lemma view_lookup busy c k v :
  cache_ok busy c → view c !! k = Some v ↔ ∃ i e, entries c !! i = Some e ∧ kv e = Some (k, v).
Proof.
  intros Hok. unfold view. rewrite <- elem_of_list_to_map by apply NoDup_kv, (ck_keys _ _ Hok).
  rewrite list_elem_of_omap. split.
  - intros (e & (i & Hi)%list_elem_of_lookup & Hk). by exists i, e.
  - intros (i & e & Hi & Hk). exists e. split; [by eapply list_elem_of_lookup_2|done].
Qed.

(** Two maps with the same entries. *)
Lemma view_eq (busy : option nat) (c : Cache) (m : gmap cstr (cstr * Z * Z)) :
  cache_ok busy c → (∀ k v, m !! k = Some v ↔ ∃ i e, entries c !! i = Some e ∧ kv e = Some (k, v)) → view c = m.
Proof.
  intros Hok H. apply map_eq. intros k. apply option_eq. intros v. by rewrite (view_lookup busy), H.
Qed.

(** ** The recency list *)

Lemma used_bad c i : length (entries c) = Z.to_nat QUERY_CACHE_MAX_ENTRIES → used (entries c) i → bad_idx c (Z.of_nat i) = false.
Proof.
  intros Hl (e & He & Hu). unfold bad_idx. rewrite get_nat, He, Hu. pose proof (lookup_lt_Some _ _ _ He).
  rewrite (proj2 (Z.ltb_ge _ _)) by lia. rewrite (proj2 (Z.leb_gt _ _)) by lia. done.
Qed.

Lemma links_off e : prev_lru e = -1 → next_lru e = -1 → set_lru_links e (-1) (-1) = e.
Proof. destruct e. simpl. by intros -> ->. Qed.

Definition no_links (c : Cache) : Prop := Forall (λ e, prev_lru e = -1 ∧ next_lru e = -1) (entries c).

(** Taking any entry out of the recency list empties it. *)
Lemma unlink_lru_eq c i :
  length (entries c) = Z.to_nat QUERY_CACHE_MAX_ENTRIES → no_links c → used (entries c) i →
  unlink_from_lru c (Z.of_nat i) = Some (set_lru c (-1) (-1)).
Proof.
  intros Hl Hn Hu. unfold unlink_from_lru. rewrite used_bad by done. destruct Hu as (e & He & _).
  rewrite get_nat, He. destruct (Forall_lookup_1 _ _ _ _ Hn He) as [-> ->]. simpl.
  rewrite (upd_nat _ i e) by done. simpl. unfold no_links in Hn. pose proof (Forall_lookup_1 _ _ _ _ Hn He) as [H1 H2].
  rewrite links_off, list_insert_id by done. by destruct c.
Qed.

(** Touching an entry makes it the only one of the recency list. *)
Lemma touch_eq c i :
  length (entries c) = Z.to_nat QUERY_CACHE_MAX_ENTRIES → no_links c → used (entries c) i →
  touch_lru_head c (Z.of_nat i) = Some (set_lru c (Z.of_nat i) (Z.of_nat i)).
Proof.
  intros Hl Hn Hu. unfold touch_lru_head. rewrite used_bad by done. rewrite unlink_lru_eq by done.
  destruct Hu as (e & He & _). simpl. rewrite (upd_nat _ i e) by done. simpl.
  pose proof (Forall_lookup_1 _ _ _ _ Hn He) as [H1 H2]. rewrite links_off, list_insert_id by done. by destruct c.
Qed.

Lemma cache_ok_touch busy c i :
  cache_ok busy c → used (entries c) i → cache_ok busy (set_lru c (Z.of_nat i) (Z.of_nat i)).
Proof.
  intros [H1 H2 H3 H4 H5 H6 H7 H8] Hu. split; simpl; try done; [|lia]. split; [done|]. right. by exists i.
Qed.

(** ** Removing an entry *)

Lemma n_used_insert es i e e' :
  es !! i = Some e →
  (n_used (<[i := e']> es) + (if in_use e then 1 else 0) = n_used es + (if in_use e' then 1 else 0))%nat.
Proof.
  intros Hi. unfold n_used. rewrite insert_take_drop by by eapply lookup_lt_Some.
  assert (filter (λ e, in_use e = true) es = filter (λ e, in_use e = true) (take i es ++ e :: drop (S i) es)) as ->
    by by rewrite take_drop_middle.
  rewrite !filter_app, !length_app, !filter_cons.
  destruct (in_use e) eqn:E1, (in_use e') eqn:E2; repeat case_decide; simpl; (done || lia).
Qed.

Lemma n_used_ext es es' :
  (∀ j, match es' !! j, es !! j with Some e', Some e => in_use e' = in_use e | None, None => True | _, _ => False end) →
  n_used es' = n_used es.
Proof.
  unfold n_used. revert es'; induction es as [|e es IH]; intros [|e' es'] H; try done; [by specialize (H 0%nat)..|].
  pose proof (H 0%nat) as H0. simpl in H0. rewrite !filter_cons, H0. specialize (IH es' (λ j, H (S j))).
  case_decide; simpl; congruence.
Qed.

Lemma unlinked_next c b l i c' j e :
  unlinked c b l i c' → entries c !! j = Some e → ∃ n, entries c' !! j = Some (set_next_hash e n).
Proof.
  intros Hu He. pose proof (ul_entries _ _ _ _ _ Hu j) as H. rewrite He in H. destruct (entries c' !! j) as [e'|]; [|done].
  exists (next_hash e'). by f_equal.
Qed.

Lemma unlinked_next_inv c b l i c' j e' :
  unlinked c b l i c' → entries c' !! j = Some e' → ∃ e n, entries c !! j = Some e ∧ e' = set_next_hash e n.
Proof.
  intros Hu He. pose proof (ul_entries _ _ _ _ _ Hu j) as H. rewrite He in H. destruct (entries c !! j) as [e|]; [|done].
  by exists e, (next_hash e').
Qed.

Lemma unlink_bucket_spec busy c i e :
  cache_ok busy c → entries c !! i = Some e → in_use e = true →
  ∃ c' l, unlink_from_bucket c (Z.of_nat i) = Some c' ∧ unlinked c (bucket_of (hash e)) l i c' ∧ NoDup l ∧
    (∀ j, j ∈ l ↔ ∃ e', entries c !! j = Some e' ∧ in_use e' = true ∧ bucket_of (hash e') = bucket_of (hash e)).
Proof.
  intros Hok He Hu. unfold unlink_from_bucket. destruct (ck_lens _ _ Hok) as [Hlb Hle].
  rewrite used_bad by (done || by exists e). rewrite get_nat, He.
  destruct (ck_chains _ _ Hok _ (bucket_range (hash e))) as (h & l & Hh & Hl & Hnd & Hmem). rewrite Hh.
  assert (i ∈ l) as Hi by (apply Hmem; by exists e). apply list_elem_of_split in Hi as (l1 & l2 & ->).
  destruct (unlink_walk_spec CHAIN_FUEL c (bucket_of (hash e)) h i [] l2 h (-1) l1) as (c' & E & Hul); try done.
  - pose proof (bucket_range (hash e)). rewrite Hlb. unfold QUERY_CACHE_BUCKETS in *. lia.
  - unfold CHAIN_FUEL. rewrite <- Hle. apply Nat.lt_succ_r.
    assert (length (l1 ++ i :: l2) ≤ length (entries c))%nat as H.
    { apply length_chain; [done|]. intros j (e' & He' & _)%Hmem. by eapply lookup_lt_Some. }
    rewrite length_app in H. lia.
  - by left.
  - by exists c', (l1 ++ i :: l2).
Qed.

(** Without entry [i]: the other entries but for their links. *)
Record removed (c : Cache) (i : nat) (c' : Cache) : Prop := {
  rm_gone : entries c' !! i = Some free_entry;
  rm_kept : ∀ j e, j ≠ i → entries c !! j = Some e → ∃ n, entries c' !! j = Some (set_next_hash e n);
  rm_new : ∀ j e', j ≠ i → entries c' !! j = Some e' → ∃ e n, entries c !! j = Some e ∧ e' = set_next_hash e n;
  rm_rest : lru_tail c' = -1 ∧ ttl_ns c' = ttl_ns c ∧ initialized c' = initialized c ∧ entry_count c' = entry_count c - 1;
}.

Lemma remove_entry_spec busy c i e :
  cache_ok busy c → entries c !! i = Some e → in_use e = true → busy = None ∨ busy = Some i →
  ∃ c', remove_entry c (Z.of_nat i) = Some c' ∧ cache_ok None c' ∧ removed c i c'.
Proof.
  intros Hok He Hu Hb. unfold remove_entry. destruct (ck_lens _ _ Hok) as [Hlb Hle].
  rewrite used_bad by (done || by exists e).
  destruct (unlink_bucket_spec _ _ _ _ Hok He Hu) as (c1 & l & -> & Hul & Hnd & Hmem).
  destruct (unlinked_next _ _ _ _ _ _ _ Hul He) as (n & He1).
  destruct (ul_lens _ _ _ _ _ Hul) as [L1 L2]. destruct (ul_rest _ _ _ _ _ Hul) as (R1 & R2 & R3 & R4 & R5).
  assert (no_links c1) as Hn1.
  { apply Forall_lookup. intros j e' Hj. destruct (unlinked_next_inv _ _ _ _ _ _ _ Hul Hj) as (e0 & n0 & He0 & ->).
    exact (Forall_lookup_1 _ _ _ _ (ck_links _ _ Hok) He0). }
  rewrite unlink_lru_eq by (done || congruence || by exists (set_next_hash e n)).
  rewrite (upd_nat _ i (set_next_hash e n)) by done. simpl. eexists. split; [done|].
  pose proof (n_used_insert _ _ _ free_entry He1) as Hcnt. simpl in Hcnt. rewrite Hu in Hcnt.
  rewrite (n_used_ext (entries c) (entries c1)) in Hcnt.
  2:{ intros j. pose proof (ul_entries _ _ _ _ _ Hul j) as H. destruct (entries c1 !! j), (entries c !! j); try done. by rewrite H. }
  assert (0 < entry_count c1) as Hpos by (rewrite R3, (ck_count _ _ Hok); lia).
  rewrite (proj2 (Z.ltb_lt _ _)) by done.
  assert (i < length (entries c1))%nat as Hlt by by eapply lookup_lt_Some.
  split.
  - destruct Hok as [H1 H2 H3 H4 H5 H6 H7 H8]. split; simpl.
    + rewrite length_insert. split; congruence.
    + intros b Hbr. destruct (H2 b Hbr) as (h0 & l0 & Hh0 & Hl0 & Hnd0 & Hmem0).
      destruct (decide (b = bucket_of (hash e))) as [->|Hne].
      * destruct (ul_chain _ _ _ _ _ Hul) as (h & Hh & Hl). exists h, (filter (λ j, j ≠ i) l). split; [done|]. split.
        { eapply linked_frame; [|exact Hl]. intros j Hj. apply list_elem_of_filter in Hj as [Hj _]. unfold next_of.
          by rewrite list_lookup_insert_ne. }
        split; [by apply NoDup_filter|]. intros j. rewrite list_elem_of_filter, Hmem. split.
        -- intros (Hj & e' & He' & Hu' & Hb'). destruct (unlinked_next _ _ _ _ _ _ _ Hul He') as (n' & Hn').
           exists (set_next_hash e' n'). by rewrite list_lookup_insert_ne.
        -- intros (e' & He' & Hu' & Hb'). destruct (decide (j = i)) as [->|Hj].
           { rewrite list_lookup_insert_eq in He' by done. by injection He' as <-. }
           split; [done|]. rewrite list_lookup_insert_ne in He' by done.
           destruct (unlinked_next_inv _ _ _ _ _ _ _ Hul He') as (e0 & n0 & He0 & ->). by exists e0.
      * exists h0, l0. split; [rewrite (ul_buckets _ _ _ _ _ Hul) by (done || lia); done|].
        assert (i ∉ l0) as Hi0.
        { intros (e' & He' & _ & Hb')%Hmem0. rewrite He in He'. injection He' as <-. done. }
        assert (∀ j, j ∈ l0 → j ∉ l) as Hjl.
        { intros j (e' & He' & _ & Hb')%Hmem0 (e2 & He2 & _ & Hb2)%Hmem. rewrite He' in He2. injection He2 as <-. congruence. }
        split.
        { eapply linked_frame; [|exact Hl0]. intros j Hj. unfold next_of.
          rewrite list_lookup_insert_ne by by intros ->. by rewrite (ul_other _ _ _ _ _ Hul) by by apply Hjl. }
        split; [done|]. intros j. rewrite Hmem0. split.
        -- intros (e' & He' & Hu' & Hb'). destruct (unlinked_next _ _ _ _ _ _ _ Hul He') as (n' & Hn').
           exists (set_next_hash e' n'). rewrite list_lookup_insert_ne; [done|]. intros ->. rewrite He in He'. injection He' as <-. done.
        -- intros (e' & He' & Hu' & Hb'). destruct (decide (j = i)) as [->|Hj].
           { rewrite list_lookup_insert_eq in He' by done. by injection He' as <-. }
           rewrite list_lookup_insert_ne in He' by done.
           destruct (unlinked_next_inv _ _ _ _ _ _ _ Hul He') as (e0 & n0 & He0 & ->). by exists e0.
    + intros j e' He' Hu'. destruct (decide (j = i)) as [->|Hj].
      { rewrite list_lookup_insert_eq in He' by done. by injection He' as <-. }
      rewrite list_lookup_insert_ne in He' by done.
      destruct (unlinked_next_inv _ _ _ _ _ _ _ Hul He') as (e0 & n0 & He0 & ->). specialize (H3 j e0 He0 Hu').
      rewrite bool_decide_eq_true_2 in H3; [done|]. by destruct Hb as [->| ->]; [|intros [= ->]].
    + intros j1 j2 e1 e2 Hj1 Hj2 Hu1 Hu2 Hk.
      destruct (decide (j1 = i)) as [->|Hn1']; [rewrite list_lookup_insert_eq in Hj1 by done; by injection Hj1 as <-|].
      destruct (decide (j2 = i)) as [->|Hn2']; [rewrite list_lookup_insert_eq in Hj2 by done; by injection Hj2 as <-|].
      rewrite list_lookup_insert_ne in Hj1, Hj2 by done.
      destruct (unlinked_next_inv _ _ _ _ _ _ _ Hul Hj1) as (a1 & m1 & Ha1 & ->), (unlinked_next_inv _ _ _ _ _ _ _ Hul Hj2) as (a2 & m2 & Ha2 & ->).
      by eapply H4.
    + by apply Forall_insert.
    + split; [done|by left].
    + rewrite R3, H7. lia.
    + intros _. rewrite R3, H7. unfold n_used in *.
      pose proof (length_filter (λ e, in_use e = true) (entries c)). destruct H1 as [_ H1']. rewrite H1' in *.
      unfold QUERY_CACHE_MAX_ENTRIES in *. lia.
  - split; simpl.
    + by rewrite list_lookup_insert_eq.
    + intros j e' Hj He'. rewrite list_lookup_insert_ne by done. by eapply unlinked_next.
    + intros j e' Hj He'. rewrite list_lookup_insert_ne in He' by done. by eapply unlinked_next_inv.
    + split_and!; try done. by rewrite R3.
Qed.

(** ** What removing and filling do to the map *)

Lemma kv_next e n : kv (set_next_hash e n) = kv e.
Proof. done. Qed.

Lemma kv_free : kv free_entry = None.
Proof. done. Qed.

Lemma view_removed busy c i e k c' :
  cache_ok busy c → cache_ok None c' → removed c i c' → entries c !! i = Some e → in_use e = true → key e = Some k →
  view c' = delete k (view c).
Proof.
  intros Hok Hok' [G1 G2 G3 _] He Hu Hk. apply (view_eq None c' _ Hok'). intros k' v. rewrite lookup_delete_Some, (view_lookup busy) by done.
  split.
  - intros (Hne & j & ej & Hj & Hkv). assert (j ≠ i) as Hji.
    { intros ->. rewrite He in Hj. injection Hj as <-. destruct v as [[b v] x]. apply kv_Some in Hkv. naive_solver. }
    destruct (G2 j ej Hji Hj) as (n & Hn). exists j, (set_next_hash ej n). by rewrite kv_next.
  - intros (j & ej & Hj & Hkv). assert (j ≠ i) as Hji.
    { intros ->. rewrite G1 in Hj. by injection Hj as <-. }
    destruct (G3 j ej Hji Hj) as (e0 & n & He0 & ->). split; [|by exists j, e0]. intros <-.
    destruct v as [[b v] x]. apply kv_Some in Hkv as (U & K & _). simpl in K. apply Hji.
    eapply (ck_keys _ _ Hok); [exact He0|exact He|exact U|exact Hu|congruence].
Qed.

Lemma view_insert busy busy' c c' i k v e e' :
  cache_ok busy c → cache_ok busy' c' →
  (∀ j, j ≠ i → ∀ x, (∃ ej, entries c !! j = Some ej ∧ kv ej = x) ↔ ∃ ej, entries c' !! j = Some ej ∧ kv ej = x) →
  entries c !! i = Some e → (∀ k' v', kv e = Some (k', v') → k' = k) →
  entries c' !! i = Some e' → kv e' = Some (k, v) →
  view c' = <[k := v]> (view c).
Proof.
  intros Hok Hok' Hj He Hkv He' Hkv'. apply (view_eq busy' c' _ Hok'). intros k' v'.
  rewrite lookup_insert_Some, (view_lookup busy) by done.
  assert (∀ j ej vj, entries c' !! j = Some ej → kv ej = Some (k, vj) → j = i) as Huniq.
  { intros j ej [[b1 v1] x1] H1 H2. destruct v as [[b2 v2] x2]. apply kv_Some in H2 as (U1 & K1 & _), Hkv' as (U2 & K2 & _).
    eapply (ck_keys _ _ Hok'); [exact H1|exact He'|done|done|congruence]. }
  split.
  - intros [[<- <-]|(Hne & j & ej & H1 & H2)]; [by exists i, e'|].
    assert (j ≠ i) as Hji by (intros ->; rewrite He in H1; injection H1 as <-; apply Hkv in H2; done).
    destruct (proj1 (Hj j Hji (Some (k', v')))) as (ej' & ? & ?); [by exists ej|]. by exists j, ej'.
  - intros (j & ej & H1 & H2). destruct (decide (j = i)) as [->|Hji].
    + rewrite He' in H1. injection H1 as <-. rewrite Hkv' in H2. injection H2 as <- <-. by left.
    + right. split; [|destruct (proj2 (Hj j Hji (Some (k', v')))) as (ej' & ? & ?); [by exists ej|by exists j, ej']].
      intros <-. apply Hji. by eapply Huniq.
Qed.

(** ** Room for a new entry *)

Lemma first_free_spec z es :
  match first_free z es with
  | Some r => ∃ i e, r = z + Z.of_nat i ∧ es !! i = Some e ∧ in_use e = false
  | None => n_used es = length es
  end.
Proof.
  revert z; induction es as [|e es IH]; intros z; simpl; [done|]. destruct (in_use e) eqn:E.
  - specialize (IH (z + 1)). destruct (first_free (z + 1) es) as [r|].
    + destruct IH as (i & e' & -> & H). exists (S i), e'. split; [lia|done].
    + unfold n_used in *. rewrite filter_cons_True by done. simpl. by rewrite IH.
  - exists 0%nat, e. split; [lia|done].
Qed.

Lemma allocate_spec c :
  cache_ok None c →
  ∃ i e c1, allocate_entry_index c = Some (Z.of_nat i, c1) ∧ cache_ok None c1 ∧ entries c1 !! i = Some e ∧ in_use e = false ∧
    ttl_ns c1 = ttl_ns c ∧ initialized c1 = initialized c ∧ entry_count c1 < QUERY_CACHE_MAX_ENTRIES ∧
    (entry_count c < QUERY_CACHE_MAX_ENTRIES ∧ c1 = c ∨
     entry_count c = QUERY_CACHE_MAX_ENTRIES ∧ ∃ v ev, lru_tail c = Z.of_nat v ∧ entries c !! v = Some ev ∧ in_use ev = true ∧ removed c v c1).
Proof.
  intros Hok. unfold allocate_entry_index. destruct (ck_lens _ _ Hok) as [_ Hle].
  pose proof (length_filter (λ e, in_use e = true) (entries c)) as Hmax. fold (n_used (entries c)) in Hmax.
  pose proof (ck_count _ _ Hok) as Hcnt.
  destruct (Z.ltb_spec (entry_count c) QUERY_CACHE_MAX_ENTRIES) as [Hlt|Hge].
  - pose proof (first_free_spec 0 (entries c)) as Hff. destruct (first_free 0 (entries c)) as [r|].
    + destruct Hff as (i & e & -> & He & Hu). exists i, e, c. rewrite Z.add_0_l. split_and!; try done. by left.
    + exfalso. unfold QUERY_CACHE_MAX_ENTRIES in *. lia.
  - assert (entry_count c = QUERY_CACHE_MAX_ENTRIES) as Hfull by (unfold QUERY_CACHE_MAX_ENTRIES in *; lia).
    pose proof (ck_full _ _ Hok eq_refl Hfull) as Hne. rewrite (proj2 (Z.eqb_neq _ _)) by done.
    destruct (ck_lru _ _ Hok) as [_ [?|(v & Hv & ev & Hev & Huv)]]; [done|]. rewrite Hv.
    destruct (remove_entry_spec None c v ev Hok Hev Huv) as (c1 & -> & Hok1 & Hrm); [by left|].
    pose proof (rm_rest _ _ _ Hrm) as (_ & Ht & Hin & Hc1). destruct (ck_lens _ _ Hok1) as [_ Hle1].
    pose proof (first_free_spec 0 (entries c1)) as Hff. pose proof (ck_count _ _ Hok1) as Hcnt1.
    destruct (first_free 0 (entries c1)) as [r|].
    + destruct Hff as (i & e & -> & He & Hu). exists i, e, c1. rewrite Z.add_0_l. split_and!; try done; [lia|]. right. split; [done|].
      by exists v, ev.
    + exfalso. unfold QUERY_CACHE_MAX_ENTRIES in *. lia.
Qed.

(** A new entry at the head of its chain, still without its body. *)
Definition fresh_entry (e : QueryCacheEntry) (k : cstr) (head : Z) : QueryCacheEntry :=
  mkEntry true (hash_key k) (Some k) (body e) (body_len e) (table_version e) (expire_at_ns e) head (prev_lru e) (next_lru e).

Lemma insert_spec c i e k :
  cache_ok None c → entries c !! i = Some e → in_use e = false → k ≠ [] →
  (∀ j ej, entries c !! j = Some ej → in_use ej = true → key ej ≠ Some k) →
  ∃ head, get (bucket_heads c) (bucket_of (hash_key k)) = Some head ∧
    let es := <[i := fresh_entry e k head]> (entries c) in
    let bs := <[Z.to_nat (bucket_of (hash_key k)) := Z.of_nat i]> (bucket_heads c) in
    put (bucket_heads c) (bucket_of (hash_key k)) (Z.of_nat i) = Some bs ∧
    cache_ok (Some i) (set_entry_count (set_buckets (set_entries c es) bs) (entry_count c + 1)).
Proof.
  intros Hok He Hu Hk Hno. destruct (ck_lens _ _ Hok) as [Hlb Hle]. pose proof (bucket_range (hash_key k)) as Hb0.
  set (b0 := bucket_of (hash_key k)) in *.
  destruct (ck_chains _ _ Hok b0 Hb0) as (head & l0 & Hh0 & Hl0 & Hnd0 & Hmem0). exists head. split; [done|]. intros es bs.
  pose proof (lookup_lt_Some _ _ _ He) as Hlt. unfold QUERY_CACHE_BUCKETS in Hb0.
  split. { unfold put. rewrite (proj2 (Z.ltb_ge _ _)) by lia. rewrite (proj2 (Z.leb_gt _ _)) by (rewrite Hlb; unfold QUERY_CACHE_BUCKETS; lia). done. }
  assert (∀ l, i ∉ l → ∀ h, linked (entries c) h l → linked es h l) as Hfr.
  { intros l Hi h. apply linked_frame. intros j Hj. unfold next_of, es. rewrite list_lookup_insert_ne; [done|]. by intros <-. }
  destruct Hok as [H1 H2 H3 H4 H5 H6 H7 H8]. split; simpl.
  - unfold es, bs. rewrite !length_insert. done.
  - intros b Hb. destruct (H2 b Hb) as (h & l & Hh & Hl & Hnd & Hmem).
    assert (i ∉ l) as Hi by (intros (e' & He' & Hu' & _)%Hmem; rewrite He in He'; injection He' as <-; congruence).
    assert (∀ j, j ≠ i → j ∈ l ↔ ∃ e', es !! j = Some e' ∧ in_use e' = true ∧ bucket_of (hash e') = b) as Hmem'.
    { intros j Hj. unfold es. rewrite list_lookup_insert_ne by done. apply Hmem. }
    destruct (decide (b = b0)) as [->|Hne].
    + rewrite Hh0 in Hh. injection Hh as <-. exists (Z.of_nat i), (i :: l). split.
      { unfold get, bs. rewrite (proj2 (Z.ltb_ge _ _)) by lia. rewrite list_lookup_insert_eq; [done|].
        rewrite Hlb. unfold QUERY_CACHE_BUCKETS. lia. }
      split. { simpl. split; [done|]. exists (fresh_entry e k head). unfold es at 1. rewrite list_lookup_insert_eq by done.
        split; [done|]. simpl. by apply Hfr. }
      split; [by constructor|]. intros j. rewrite elem_of_cons. destruct (decide (j = i)) as [->|Hj].
      * split; [|by left]. intros _. exists (fresh_entry e k head). unfold es. by rewrite list_lookup_insert_eq.
      * rewrite <- Hmem' by done. naive_solver.
    + exists h, l. split.
      { unfold get, bs in *. rewrite (proj2 (Z.ltb_ge _ _)) in * by lia. rewrite list_lookup_insert_ne by lia. done. }
      split; [by apply Hfr|]. split; [done|]. intros j. destruct (decide (j = i)) as [->|Hj]; [|by apply Hmem'].
      split; [done|]. unfold es. rewrite list_lookup_insert_eq by done. intros (e' & [= <-] & _ & Hb'). simpl in Hb'. done.
  - intros j ej Hj Huj. unfold es in Hj. destruct (decide (j = i)) as [->|Hji].
    + rewrite list_lookup_insert_eq in Hj by done. injection Hj as <-. exists k. split_and!; try done.
      rewrite bool_decide_eq_false_2 by by intros H. done.
    + rewrite list_lookup_insert_ne in Hj by done. specialize (H3 j ej Hj Huj).
      rewrite bool_decide_eq_true_2 in H3 by done. rewrite bool_decide_eq_true_2 by congruence. done.
  - intros j1 j2 e1 e2 Hj1 Hj2 U1 U2 Hkk. unfold es in *.
    destruct (decide (j1 = i)) as [->|N1], (decide (j2 = i)) as [->|N2]; [done| | |].
    + rewrite list_lookup_insert_eq in Hj1 by done. rewrite list_lookup_insert_ne in Hj2 by done. injection Hj1 as <-.
      exfalso. by apply (Hno j2 e2).
    + rewrite list_lookup_insert_eq in Hj2 by done. rewrite list_lookup_insert_ne in Hj1 by done. injection Hj2 as <-.
      exfalso. by apply (Hno j1 e1).
    + rewrite list_lookup_insert_ne in Hj1, Hj2 by done. by eapply H4.
  - unfold es. apply Forall_insert; [done|]. exact (Forall_lookup_1 _ _ _ _ H5 He).
  - split; [apply H6|]. destruct H6 as [_ [?|(v & Hv & ev & Hev & Huv)]]; [by left|right]. exists v. split; [done|].
    exists ev. unfold es. rewrite list_lookup_insert_ne; [done|]. intros ->. congruence.
  - unfold es. pose proof (n_used_insert _ _ _ (fresh_entry e k head) He) as Hc. simpl in Hc. rewrite Hu in Hc. lia.
  - done.
Qed.

(** The body of an entry replaced, or freed. *)
Lemma set_body_ok busy c i e b len ver exp :
  cache_ok busy c → busy = None ∨ busy = Some i → entries c !! i = Some e → in_use e = true →
  cache_ok (Some i) (set_entries c (<[i := set_body e b len ver exp]> (entries c))).
Proof.
  intros Hok Hb He Hu. pose proof (lookup_lt_Some _ _ _ He) as Hlt. destruct Hok as [H1 H2 H3 H4 H5 H6 H7 H8].
  set (e' := set_body e b len ver exp) in *.
  assert (∀ j ej, <[i:=e']> (entries c) !! j = Some ej → in_use ej = true →
    ∃ x, entries c !! j = Some x ∧ in_use x = true ∧ key x = key ej) as Hback.
  { intros j ej Hj Uj. destruct (decide (j = i)) as [->|Hji].
    - rewrite list_lookup_insert_eq in Hj by done. injection Hj as <-. by exists e.
    - rewrite list_lookup_insert_ne in Hj by done. by exists ej. }
  split; simpl; try done.
  - rewrite length_insert. apply H1.
  - intros b' Hb'. destruct (H2 b' Hb') as (h & l & Hh & Hl & Hnd & Hmem). exists h, l. split; [done|]. split.
    + eapply linked_frame; [|exact Hl]. intros j _. unfold next_of. destruct (decide (j = i)) as [->|Hj].
      * by rewrite list_lookup_insert_eq, He.
      * by rewrite list_lookup_insert_ne.
    + split; [done|]. intros j. rewrite Hmem. destruct (decide (j = i)) as [->|Hj].
      * rewrite list_lookup_insert_eq by done. split; intros (x & Hx & Hr); eexists; (split; [done|]).
        -- rewrite He in Hx. injection Hx as <-. done.
        -- injection Hx as <-. done.
      * by rewrite list_lookup_insert_ne.
  - intros j ej Hj Huj. destruct (decide (j = i)) as [->|Hji].
    + rewrite list_lookup_insert_eq in Hj by done. injection Hj as <-. destruct (H3 i e He Hu) as (k & Hk1 & Hk2 & Hk3 & _).
      exists k. split_and!; try done. rewrite bool_decide_eq_false_2; [done|]. by intros H.
    + rewrite list_lookup_insert_ne in Hj by done. specialize (H3 j ej Hj Huj).
      rewrite bool_decide_eq_true_2 in H3; [|by destruct Hb as [->| ->]; [|intros [= ->]]].
      rewrite bool_decide_eq_true_2; [done|]. congruence.
  - intros j1 j2 e1 e2 Hj1 Hj2 U1 U2 Hkk.
    destruct (Hback _ _ Hj1 U1) as (x1 & ? & ? & ?), (Hback _ _ Hj2 U2) as (x2 & ? & ? & ?).
    eapply H4; [done|done|done|done|congruence].
  - apply Forall_insert; [done|]. exact (Forall_lookup_1 _ _ _ _ H5 He).
  - split; [apply H6|]. destruct H6 as [_ [?|(j & Hj & ej & Hej & Huj)]]; [by left|right]. exists j. split; [done|].
    destruct (decide (j = i)) as [->|Hji].
    + exists e'. rewrite list_lookup_insert_eq by done. by rewrite He in Hej; injection Hej as <-.
    + exists ej. by rewrite list_lookup_insert_ne.
  - rewrite H7. pose proof (n_used_insert _ _ _ e' He) as Hc. simpl in Hc. rewrite Hu in Hc. lia.
Qed.

(** Touching the entry ends the replacement. *)
Lemma fill_ok c i e b :
  cache_ok (Some i) c → entries c !! i = Some e → in_use e = true → body e = Some b → body_len e = Z.of_nat (length b) →
  touch_lru_head c (Z.of_nat i) = Some (set_lru c (Z.of_nat i) (Z.of_nat i)) ∧
  cache_ok None (set_lru c (Z.of_nat i) (Z.of_nat i)).
Proof.
  intros Hok He Hu Hb Hl. split; [apply touch_eq; [apply Hok|apply Hok|by exists e]|].
  destruct Hok as [H1 H2 H3 H4 H5 H6 H7 H8]. split; simpl; try done; [|split; [done|right; exists i; split; [done|by exists e]]|lia].
  intros j ej Hj Huj. specialize (H3 j ej Hj Huj). destruct (decide (j = i)) as [->|Hji].
  - rewrite He in Hj. injection Hj as <-. destruct H3 as (k & Hk1 & Hk2 & Hk3 & _). exists k. split_and!; try done.
    intros _. by exists b.
  - rewrite bool_decide_eq_true_2 in H3 by congruence. done.
Qed.

(** ** The interface *)

(** Before the first use, and after a destroy, nothing is in use. *)
Definition cache_inv (c : Cache) : Prop :=
  if initialized c then cache_ok None c
  else length (entries c) = Z.to_nat QUERY_CACHE_MAX_ENTRIES ∧ Forall (λ e, in_use e = false) (entries c).

Lemma view_unused c : Forall (λ e, in_use e = false) (entries c) → view c = ∅.
Proof.
  intros H. unfold view. assert (omap kv (entries c) = []) as ->; [|done].
  induction H as [|e es He _ IH]; [done|].
  change (omap kv (e :: es)) with (match kv e with Some y => y :: omap kv es | None => omap kv es end).
  rewrite IH. unfold kv. by rewrite He.
Qed.

Lemma n_used_none es : Forall (λ e, in_use e = false) es → n_used es = 0%nat.
Proof.
  unfold n_used. induction 1 as [|e es He _ IH]; [done|]. rewrite filter_cons_False; [done|]. by rewrite He.
Qed.

(** An empty cache. *)
Lemma empty_ok ini es ttl :
  length es = Z.to_nat QUERY_CACHE_MAX_ENTRIES → Forall (λ e, in_use e = false) es →
  Forall (λ e, prev_lru e = -1 ∧ next_lru e = -1) es →
  cache_ok None (mkCache ini (replicate (Z.to_nat QUERY_CACHE_BUCKETS) (-1)) es (-1) (-1) 0 ttl).
Proof.
  intros Hl Hu Hn. assert (∀ i e, es !! i = Some e → in_use e = false) as Hno by by apply Forall_lookup.
  split; cbn [bucket_heads entries lru_head lru_tail entry_count]; try done.
  - intros b Hb. exists (-1), []. split_and!; [|done|constructor|].
    + unfold get. rewrite (proj2 (Z.ltb_ge _ _)) by lia. apply lookup_replicate. split; [done|].
      unfold QUERY_CACHE_BUCKETS in *. lia.
    + intros i. split; [by intros ?%not_elem_of_nil|]. intros (e & He & Hue & _). apply Hno in He. congruence.
  - intros i e He Hue. apply Hno in He. congruence.
  - intros i j e1 e2 He1 _ Hue. apply Hno in He1. congruence.
  - split; [done|by left].
  - by rewrite n_used_none.
Qed.

Lemma g_cache_inv : cache_inv g_cache.
Proof. split; [apply length_replicate|]. by apply Forall_replicate. Qed.

Lemma init_ok raw c :
  cache_inv c → cache_ok None (query_cache_init raw c) ∧ initialized (query_cache_init raw c) = true ∧
  view (query_cache_init raw c) = view c ∧ (initialized c = true → query_cache_init raw c = c).
Proof.
  unfold cache_inv, query_cache_init. destruct (initialized c) eqn:Ei; [by intros; split_and!|]. intros [Hl Hu].
  set (f := fun e => set_lru_links (set_next_hash e (-1)) (-1) (-1)).
  assert (Forall (λ e, in_use e = false) (map f (entries c))) as Hu'.
  { apply Forall_map. eapply Forall_impl; [exact Hu|]. by intros e. }
  split_and!; [|done| |done].
  - apply empty_ok; [by rewrite length_map|done|]. apply Forall_map. by apply Forall_true.
  - rewrite !view_unused; done.
Qed.

Lemma cache_inv_ok c : initialized c = true → cache_ok None c → cache_inv c.
Proof. unfold cache_inv. by intros ->. Qed.

Lemma view_set_lru c h t : view (set_lru c h t) = view c.
Proof. done. Qed.

(** The entry found is the one the map has, and the other way round. *)
Lemma find_view c k :
  cache_ok None c → k ≠ [] →
  ∃ r, find_entry_index c k (hash_key k) = Some r ∧
    match view c !! k with
    | Some (b, v, x) => ∃ i e, r = Z.of_nat i ∧ entries c !! i = Some e ∧ in_use e = true ∧ key e = Some k ∧
        body e = Some b ∧ body_len e = Z.of_nat (length b) ∧ table_version e = v ∧ expire_at_ns e = x
    | None => r = -1 ∧ ∀ i e, entries c !! i = Some e → in_use e = true → key e ≠ Some k
    end.
Proof.
  intros Hok Hk. destruct (find_spec None c k Hok Hk) as (r & Er & Hr). exists r. split; [done|].
  destruct Hr as [(i & e & -> & He & Hu & Hke)|[-> Hno]].
  - destruct (ck_entries _ _ Hok i e He Hu) as (k' & _ & _ & _ & Hb). destruct Hb as (b & Hb & Hl).
    { by apply bool_decide_eq_true. }
    assert (view c !! k = Some (b, table_version e, expire_at_ns e)) as ->.
    { apply (view_lookup None); [done|]. exists i, e. split; [done|]. by apply kv_Some. }
    exists i, e. by split_and!.
  - destruct (view c !! k) as [[[b v] x]|] eqn:Ev; [|done]. exfalso.
    apply (view_lookup None) in Ev as (i & e & He & Hkv); [|done]. apply kv_Some in Hkv as (Hu & Hke & _). by eapply Hno.
Qed.

Lemma lookup_spec raw malloc_ok now c k ver :
  cache_inv c → k ≠ [] →
  ∃ r c', query_cache_lookup raw malloc_ok now c k ver = Some (r, c') ∧ cache_inv c' ∧
    match view c !! k with
    | None => r = inr MISS_NO_ENTRY ∧ view c' = view c
    | Some (b, v, x) =>
        if x <=? now then r = inr MISS_TTL_EXPIRED ∧ view c' = delete k (view c)
        else if negb (v =? ver) then r = inr MISS_VERSION_CHANGED ∧ view c' = delete k (view c)
        else r = (if malloc_ok then inl b else inr MISS_NONE) ∧ view c' = view c
    end.
Proof.
  intros Hinv Hk. destruct (init_ok raw c Hinv) as (Hok & Hi & Hv & _). unfold query_cache_lookup.
  destruct k as [|c0 k0]; [done|]. set (k := c0 :: k0) in *. rewrite <- Hv. clear Hinv Hv.
  set (c1 := query_cache_init raw c) in *. destruct (find_view c1 k Hok Hk) as (r & -> & Hr).
  destruct (view c1 !! k) as [[[b v] x]|] eqn:Ev.
  - destruct Hr as (i & e & -> & He & Hu & Hke & Hb & Hbl & Hver & Hx).
    rewrite (proj2 (Z.eqb_neq _ _)) by lia. rewrite get_nat, He, Hver, Hx.
    destruct (remove_entry_spec None c1 i e Hok He Hu) as (c2 & Erm & Hok2 & Hrm); [by left|].
    pose proof (view_removed _ _ _ _ _ _ Hok Hok2 Hrm He Hu Hke) as Hvr.
    pose proof (rm_rest _ _ _ Hrm) as (_ & _ & Hin & _).
    destruct (x <=? now); [rewrite Erm; eexists _, c2; split; [done|]; split; [apply cache_inv_ok; congruence|done]|].
    destruct (negb (v =? ver)); [rewrite Erm; eexists _, c2; split; [done|]; split; [apply cache_inv_ok; congruence|done]|].
    destruct malloc_ok; simpl; [|eexists _, c1; split; [done|]; split; [by apply cache_inv_ok|done]].
    rewrite Hb, touch_eq; [|apply Hok|apply Hok|by exists e].
    eexists _, _. split; [done|]. split; [|split; [|done]].
    + apply cache_inv_ok; [done|]. apply cache_ok_touch; [done|by exists e].
    + by rewrite Hbl, Nat2Z.id, firstn_all.
  - destruct Hr as [-> _]. eexists _, c1. split; [done|]. split; [by apply cache_inv_ok|done].
Qed.

(** ** Storing *)

Lemma view_removed_sub busy c i c' :
  cache_ok busy c → cache_ok None c' → removed c i c' → view c' ⊆ view c.
Proof.
  intros Hok Hok' [G1 _ G3 _]. apply map_subseteq_spec. intros k v.
  rewrite !(view_lookup None c'), (view_lookup busy c) by done. intros (j & e & Hj & Hkv).
  destruct (decide (j = i)) as [->|Hji]; [rewrite G1 in Hj; by injection Hj as <-|].
  destruct (G3 j e Hji Hj) as (e0 & n & He0 & ->). by exists j, e0.
Qed.

(** The cache after a new, still empty entry: nothing else changed. *)
Definition with_new (c : Cache) (i : nat) (e : QueryCacheEntry) (k : cstr) (head : Z) : Cache :=
  set_entry_count (set_buckets (set_entries c (<[i := fresh_entry e k head]> (entries c)))
    (<[Z.to_nat (bucket_of (hash_key k)) := Z.of_nat i]> (bucket_heads c))) (entry_count c + 1).

Lemma store_body_view busy c1 c i k e1 b ver exp e :
  cache_ok None c → cache_ok busy c1 → busy = None ∨ busy = Some i →
  (∀ j, j ≠ i → entries c1 !! j = entries c !! j) → entries c !! i = Some e → (∀ k' v', kv e = Some (k', v') → k' = k) →
  entries c1 !! i = Some e1 → in_use e1 = true → key e1 = Some k →
  let c2 := set_entries c1 (<[i := set_body e1 (Some b) (Z.of_nat (length b)) ver exp]> (entries c1)) in
  touch_lru_head c2 (Z.of_nat i) = Some (set_lru c2 (Z.of_nat i) (Z.of_nat i)) ∧
  cache_ok None (set_lru c2 (Z.of_nat i) (Z.of_nat i)) ∧
  view (set_lru c2 (Z.of_nat i) (Z.of_nat i)) = <[k := (b, ver, exp)]> (view c).
Proof.
  intros Hok Hok1 Hb Hsame He Hkv He1 Hu1 Hk1 c2. pose proof (lookup_lt_Some _ _ _ He1) as Hlt.
  set (e2 := set_body e1 (Some b) (Z.of_nat (length b)) ver exp) in *.
  assert (entries c2 !! i = Some e2) as He2 by (unfold c2; simpl; by rewrite list_lookup_insert_eq).
  pose proof (set_body_ok busy c1 i e1 (Some b) (Z.of_nat (length b)) ver exp Hok1 Hb He1 Hu1) as Hokb.
  destruct (fill_ok c2 i e2 b Hokb He2 Hu1 eq_refl eq_refl) as [Ht Hok2]. split; [exact Ht|]. split; [exact Hok2|].
  apply (view_insert None None _ _ i k (b, ver, exp) e e2 Hok Hok2); try done.
  - intros j Hj x. simpl. rewrite list_lookup_insert_ne by done. by rewrite Hsame.
  - apply kv_Some. by split_and!.
Qed.

(** A failed allocation of the body removes the entry again. *)
Lemma drop_busy_view c1 c i :
  cache_ok None c → cache_ok (Some i) c1 → used (entries c1) i →
  (∀ j e, j ≠ i → entries c1 !! j = Some e → entries c !! j = Some e) →
  ∃ c', remove_entry c1 (Z.of_nat i) = Some c' ∧ cache_ok None c' ∧ initialized c' = initialized c1 ∧ view c' ⊆ view c.
Proof.
  intros Hok Hok1 (e1 & He1 & Hu1) Hsame.
  destruct (remove_entry_spec (Some i) c1 i e1 Hok1 He1 Hu1) as (c' & E & Hok' & Hrm); [by right|].
  exists c'. split; [done|]. split; [done|]. split; [apply (rm_rest _ _ _ Hrm)|].
  destruct Hrm as [G1 _ G3 _]. apply map_subseteq_spec. intros k v.
  rewrite (view_lookup None c'), (view_lookup None c) by done. intros (j & e & Hj & Hkv).
  destruct (decide (j = i)) as [->|Hji]; [rewrite G1 in Hj; by injection Hj as <-|].
  destruct (G3 j e Hji Hj) as (e0 & n & He0 & ->). exists j, e0. split; [by apply Hsame|done].
Qed.

(** A store under a key that is there already. *)
Lemma store_known malloc_ok c i e k ver b exp :
  cache_ok None c → entries c !! i = Some e → in_use e = true → key e = Some k →
  let c1 := set_entries c (<[i := set_body e None (body_len e) (table_version e) (expire_at_ns e)]> (entries c)) in
  ∃ c', (if negb malloc_ok then remove_entry c1 (Z.of_nat i)
         else let* c2 := upd c1 (Z.of_nat i) (fun e => set_body e (Some b) (Z.of_nat (length b)) ver exp) in
              touch_lru_head c2 (Z.of_nat i)) = Some c' ∧
    cache_ok None c' ∧ initialized c' = initialized c ∧
    if malloc_ok then view c' = <[k := (b, ver, exp)]> (view c) else view c' ⊆ view c.
Proof.
  intros Hok He Hu Hk c1. pose proof (lookup_lt_Some _ _ _ He) as Hlt.
  pose proof (set_body_ok None c i e None (body_len e) (table_version e) (expire_at_ns e) Hok (or_introl eq_refl) He Hu) as Hok1.
  set (e1 := set_body e None (body_len e) (table_version e) (expire_at_ns e)) in *. fold c1 in Hok1.
  assert (entries c1 !! i = Some e1) as He1 by (unfold c1; simpl; by rewrite list_lookup_insert_eq).
  destruct malloc_ok; simpl negb; cbv iota.
  - rewrite (upd_nat _ i e1) by done.
    destruct (store_body_view (Some i) c1 c i k e1 b ver exp e Hok Hok1) as (Ht & Hok2 & Hvw); try done.
    + by right.
    + intros j Hj. unfold c1. simpl. by rewrite list_lookup_insert_ne.
    + intros k' [[? ?] ?] Hkv. apply kv_Some in Hkv as (_ & Hk' & _). congruence.
    + rewrite Ht. eexists. split; [done|]. split; [exact Hok2|]. split; [done|exact Hvw].
  - destruct (drop_busy_view c1 c i Hok Hok1) as (c' & ? & ? & ? & ?); [by exists e1| |by exists c'].
    intros j ej Hj. unfold c1. simpl. by rewrite list_lookup_insert_ne.
Qed.

(** A store under a new key, once there is room for it. *)
Lemma store_new malloc_ok c i e k ver b exp :
  cache_ok None c → entries c !! i = Some e → in_use e = false → k ≠ [] →
  (∀ j ej, entries c !! j = Some ej → in_use ej = true → key ej ≠ Some k) →
  ∃ head c2 bs c', get (bucket_heads c) (bucket_of (hash_key k)) = Some head ∧
    upd c (Z.of_nat i) (fun e => mkEntry true (hash_key k) (Some k) (body e) (body_len e) (table_version e)
                                   (expire_at_ns e) head (prev_lru e) (next_lru e)) = Some c2 ∧
    put (bucket_heads c2) (bucket_of (hash_key k)) (Z.of_nat i) = Some bs ∧
    (let c1 := set_entry_count (set_buckets c2 bs) (entry_count c2 + 1) in
     (if negb malloc_ok then remove_entry c1 (Z.of_nat i)
      else let* c3 := upd c1 (Z.of_nat i) (fun e => set_body e (Some b) (Z.of_nat (length b)) ver exp) in
           touch_lru_head c3 (Z.of_nat i)) = Some c' ∧ ttl_ns c1 = ttl_ns c) ∧
    cache_ok None c' ∧ initialized c' = initialized c ∧
    if malloc_ok then view c' = <[k := (b, ver, exp)]> (view c) else view c' ⊆ view c.
Proof.
  intros Hok He Hu Hk Hno. pose proof (lookup_lt_Some _ _ _ He) as Hlt.
  destruct (insert_spec c i e k Hok He Hu Hk Hno) as (head & Hh & Hput & Hok1).
  set (c2 := set_entries c (<[i := fresh_entry e k head]> (entries c))) in *.
  set (bs := <[Z.to_nat (bucket_of (hash_key k)) := Z.of_nat i]> (bucket_heads c)) in *.
  set (c1 := set_entry_count (set_buckets c2 bs) (entry_count c2 + 1)) in *.
  assert (entries c1 !! i = Some (fresh_entry e k head)) as He1 by (unfold c1; simpl; by rewrite list_lookup_insert_eq).
  assert (∀ j, j ≠ i → entries c1 !! j = entries c !! j) as Hsame.
  { intros j Hj. unfold c1. simpl. by rewrite list_lookup_insert_ne. }
  assert (∃ c', (if negb malloc_ok then remove_entry c1 (Z.of_nat i)
      else let* c3 := upd c1 (Z.of_nat i) (fun e => set_body e (Some b) (Z.of_nat (length b)) ver exp) in
           touch_lru_head c3 (Z.of_nat i)) = Some c' ∧ cache_ok None c' ∧ initialized c' = initialized c ∧
    if malloc_ok then view c' = <[k := (b, ver, exp)]> (view c) else view c' ⊆ view c) as (c' & E & H).
  { destruct malloc_ok; simpl negb; cbv iota.
    - rewrite (upd_nat _ i (fresh_entry e k head)) by done.
      destruct (store_body_view (Some i) c1 c i k (fresh_entry e k head) b ver exp e Hok Hok1) as (Ht & Hok2 & Hvw); try done.
      + by right.
      + intros k' v' Hkv. unfold kv in Hkv. by rewrite Hu in Hkv.
      + rewrite Ht. eexists. split; [done|]. split; [exact Hok2|]. split; [done|exact Hvw].
    - destruct (drop_busy_view c1 c i Hok Hok1) as (c' & ? & ? & ? & ?); [by exists (fresh_entry e k head)| |by exists c'].
      intros j ej Hj. by rewrite Hsame. }
  exists head, c2, bs, c'. split; [done|]. split; [by rewrite (upd_nat _ i e)|]. split; [exact Hput|].
  split; [by split|exact H].
Qed.

(** Zeroing an entry that is not in use changes nothing. *)
Lemma clear_unused_ok c i e :
  cache_ok None c → entries c !! i = Some e → in_use e = false →
  let c' := set_entries c (<[i := free_entry]> (entries c)) in cache_ok None c' ∧ view c' = view c.
Proof.
  intros Hok He Hu c'. pose proof (lookup_lt_Some _ _ _ He) as Hlt.
  assert (∀ j ej, entries c' !! j = Some ej → in_use ej = true → j ≠ i ∧ entries c !! j = Some ej) as Hback.
  { intros j ej Hj Huj. unfold c' in Hj. simpl in Hj. destruct (decide (j = i)) as [->|Hne].
    - rewrite list_lookup_insert_eq in Hj by done. by injection Hj as <-.
    - by rewrite list_lookup_insert_ne in Hj. }
  assert (∀ j ej, entries c !! j = Some ej → in_use ej = true → entries c' !! j = Some ej) as Hfwd.
  { intros j ej Hj Huj. unfold c'. simpl. rewrite list_lookup_insert_ne; [done|]. intros ->. congruence. }
  assert (cache_ok None c') as Hok'.
  { destruct Hok as [H1 H2 H3 H4 H5 H6 H7 H8]. split; try done.
    - unfold c'. simpl. rewrite length_insert. apply H1.
    - intros b Hb. destruct (H2 b Hb) as (h & l & Hh & Hl & Hnd & Hmem). exists h, l. split; [done|]. split; [|split; [done|]].
      + eapply linked_frame; [|exact Hl]. intros j (ej & Hj & Huj & _)%Hmem. unfold next_of. by rewrite (Hfwd j ej Hj Huj), Hj.
      + intros j. rewrite Hmem. split; intros (ej & Hj & Huj & Hbj); exists ej; (split; [|done]); [auto|by apply Hback].
    - intros j ej Hj Huj. destruct (Hback j ej Hj Huj) as [_ ?]. by apply (H3 j).
    - intros j1 j2 e1 e2 Hj1 Hj2 U1 U2. destruct (Hback _ _ Hj1 U1) as [_ ?], (Hback _ _ Hj2 U2) as [_ ?]. by eapply H4.
    - by apply Forall_insert.
    - split; [apply H6|]. destruct H6 as [_ [?|(j & Hj & ej & Hej & Huj)]]; [by left|right]. exists j. split; [done|].
      exists ej. split; [by apply Hfwd|done].
    - unfold c'. simpl. rewrite H7. pose proof (n_used_insert _ _ _ free_entry He) as Hc. simpl in Hc. rewrite Hu in Hc. lia. }
  split; [done|]. apply (view_eq None c'); [done|]. intros k v. rewrite (view_lookup None c) by done.
  split; intros (j & ej & Hj & Hkv); exists j, ej; (split; [|done]); destruct v as [[b v] x]; apply kv_Some in Hkv as (Huj & _); [auto|by apply Hback].
Qed.

(** Does the store keep the body? *)
Definition stored (dup_ok malloc_ok : bool) (c : Cache) (k : cstr) : bool :=
  malloc_ok && (dup_ok || match view c !! k with Some _ => true | None => false end).

Lemma store_spec raw dup_ok malloc_ok now c k ver b :
  cache_inv c → k ≠ [] →
  ∃ c', query_cache_store raw dup_ok malloc_ok now c k ver b = Some c' ∧ cache_inv c' ∧
    let ci := query_cache_init raw c in
    let v := (b, ver, wrap64 (now + ttl_ns ci)) in
    if QUERY_CACHE_MAX_BODY_BYTES <? Z.of_nat (length b) then c' = c
    else if stored dup_ok malloc_ok c k then
      view c' = <[k := v]> (view c) ∨
      entry_count ci = QUERY_CACHE_MAX_ENTRIES ∧ view c !! k = None ∧
        ∃ i e k', lru_tail ci = Z.of_nat i ∧ entries ci !! i = Some e ∧ in_use e = true ∧ key e = Some k' ∧
          view c' = <[k := v]> (delete k' (view c))
    else view c' ⊆ view c.
Proof.
  intros Hinv Hk. destruct (init_ok raw c Hinv) as (Hok & Hi & Hv & _). unfold query_cache_store.
  destruct k as [|c0 k0]; [done|]. set (k := c0 :: k0) in *. cbv zeta.
  destruct (_ <? _); [by exists c|]. unfold stored. rewrite <- Hv. clear Hinv Hv.
  set (ci := query_cache_init raw c) in *. clearbody ci.
  destruct (find_view ci k Hok Hk) as (r & -> & Hr). destruct (view ci !! k) as [[[b0 v0] x0]|] eqn:Ev.
  - destruct Hr as (i & e & -> & He & Hu & Hke & _).
    rewrite (proj2 (Z.eqb_neq _ _)) by lia. rewrite (upd_nat _ i e) by done. cbv beta iota.
    rewrite (proj2 (Z.eqb_neq (Z.of_nat i) (-1))) by lia. rewrite orb_true_r, andb_true_r.
    destruct (store_known malloc_ok ci i e k ver b (wrap64 (now + ttl_ns ci)) Hok He Hu Hke) as (c' & E & Hok' & Hin & Hvw).
    exists c'. split; [exact E|]. split; [apply cache_inv_ok; congruence|]. destruct malloc_ok; [by left|done].
  - destruct Hr as [-> Hno]. rewrite orb_false_r. change (-1 =? -1) with true. cbv iota.
    destruct (allocate_spec ci Hok) as (i & e & c1 & -> & Hok1 & He & Hu & Httl & Hin1 & Hlt1 & Hroom).
    cbv beta iota. rewrite (proj2 (Z.eqb_neq (Z.of_nat i) (-1))) by lia.
    assert (view c1 ⊆ view ci ∧ ∀ j ej, entries c1 !! j = Some ej → in_use ej = true → key ej ≠ Some k) as [Hsub Hno1].
    { destruct Hroom as [[_ ->]|[_ (v & ev & _ & Hev & Huv & Hrm)]]; [by split|]. split.
      - by eapply view_removed_sub.
      - intros j ej Hj Huj. destruct (decide (j = v)) as [->|Hjv].
        + rewrite (rm_gone _ _ _ Hrm) in Hj. by injection Hj as <-.
        + destruct (rm_new _ _ _ Hrm j ej Hjv Hj) as (e0 & n & He0 & ->). exact (Hno j e0 He0 Huj). }
    destruct dup_ok; simpl negb; cbv iota.
    + rewrite andb_true_r.
      destruct (store_new malloc_ok c1 i e k ver b (wrap64 (now + ttl_ns ci)) Hok1 He Hu Hk Hno1)
        as (head & c2 & bs & c' & -> & -> & -> & [E Et] & Hok' & Hin & Hvw).
      cbv beta iota. rewrite (proj2 (Z.eqb_neq (Z.of_nat i) (-1))) by lia.
      exists c'. split.
      { rewrite Et, Httl. exact E. }
      split; [apply cache_inv_ok; congruence|]. destruct malloc_ok.
      * destruct Hroom as [[_ ->]|[Hfull (v & ev & Hv & Hev & Huv & Hrm)]]; [by left|right].
        split; [done|]. split; [done|]. destruct (ck_entries _ _ Hok v ev Hev Huv) as (kv' & Hkv & _).
        exists v, ev, kv'. split_and!; try done. rewrite Hvw. f_equal. by eapply view_removed.
      * by etransitivity.
    + rewrite andb_false_r. rewrite (upd_nat _ i e) by done. cbv beta iota. change (-1 =? -1) with true. cbv iota.
      destruct (clear_unused_ok c1 i e Hok1 He Hu) as [Hok2 Hvw].
      eexists. split; [done|]. split; [apply cache_inv_ok; [simpl; congruence|exact Hok2]|]. by rewrite Hvw.
Qed.

(** ** Properties *)

(** C23. [query_cache_lookup] on any cache a run can produce returns, follows no
    bad index, and implements a map with a time to live and a version check: a
    hit gives exactly the body stored last under this key, only before its
    expiry and only for the version it was stored with; a key whose entry is
    expired or of another version is reported as such and dropped; nothing else
    in the map changes. *)
Theorem query_cache_lookup_exact (raw : option cstr) (malloc_ok : bool) (now : Z) (c : Cache) (k : cstr) (ver : Z) :
  cache_inv c → k ≠ [] →
  ∃ r c', query_cache_lookup raw malloc_ok now c k ver = Some (r, c') ∧ cache_inv c' ∧
    match view c !! k with
    | None => r = inr MISS_NO_ENTRY ∧ view c' = view c
    | Some (b, v, x) =>
        if x <=? now then r = inr MISS_TTL_EXPIRED ∧ view c' = delete k (view c)
        else if negb (v =? ver) then r = inr MISS_VERSION_CHANGED ∧ view c' = delete k (view c)
        else r = (if malloc_ok then inl b else inr MISS_NONE) ∧ view c' = view c
    end.
Proof. apply lookup_spec. Qed.

(** C24. [query_cache_store] returns, keeps the invariant and implements insertion
    with at most one eviction: a body that is too long changes nothing; a kept
    body is what the map has under the key, with its version and expiry, and
    every other key keeps its body unless the cache was full and the key new,
    when exactly the key at the tail of the recency list is dropped; a failed
    allocation only ever drops entries. *)
Theorem query_cache_store_exact (raw : option cstr) (dup_ok malloc_ok : bool) (now : Z) (c : Cache) (k : cstr) (ver : Z)
    (b : cstr) :
  cache_inv c → k ≠ [] →
  ∃ c', query_cache_store raw dup_ok malloc_ok now c k ver b = Some c' ∧ cache_inv c' ∧
    let ci := query_cache_init raw c in
    let v := (b, ver, wrap64 (now + ttl_ns ci)) in
    if QUERY_CACHE_MAX_BODY_BYTES <? Z.of_nat (length b) then c' = c
    else if stored dup_ok malloc_ok c k then
      view c' = <[k := v]> (view c) ∨
      entry_count ci = QUERY_CACHE_MAX_ENTRIES ∧ view c !! k = None ∧
        ∃ i e k', lru_tail ci = Z.of_nat i ∧ entries ci !! i = Some e ∧ in_use e = true ∧ key e = Some k' ∧
          view c' = <[k := v]> (delete k' (view c))
    else view c' ⊆ view c.
Proof. apply store_spec. Qed.

Lemma query_cache_store_exact_witness :
  ∃ c', query_cache_store None true true 7 g_cache (lit "SELECT 1") 3 (lit "{}") = Some c' ∧ cache_inv c' ∧
    (fst <$> query_cache_lookup None true 8 c' (lit "SELECT 1") 3) = Some (inl (lit "{}")).
Proof.
  destruct (query_cache_store_exact None true true 7 g_cache (lit "SELECT 1") 3 (lit "{}")) as (c' & E & Hinv & _).
  - exact g_cache_inv.
  - discriminate.
  - exists c'. split; [exact E|]. split; [exact Hinv|].
    assert ((c ← query_cache_store None true true 7 g_cache (lit "SELECT 1") 3 (lit "{}");
             fst <$> query_cache_lookup None true 8 c (lit "SELECT 1") 3) = Some (inl (lit "{}"))) as H by (vm_compute; reflexivity).
    rewrite E in H. exact H.
Defined.

Lemma query_cache_lookup_exact_witness :
  ∃ c', query_cache_lookup None true 8 g_cache (lit "SELECT 1") 3 = Some (inr MISS_NO_ENTRY, c') ∧ cache_inv c'.
Proof.
  destruct (query_cache_lookup_exact None true 8 g_cache (lit "SELECT 1") 3) as (r & c' & E & Hinv & H).
  - exact g_cache_inv.
  - discriminate.
  - assert (view g_cache = ∅) as Hv by (apply view_unused, g_cache_inv).
    rewrite Hv in H. destruct H as [-> _]. exists c'. split; [exact E|exact Hinv].
Defined.

(** The cache after a body was stored under each of [n] different keys, in order. *)
Definition demo_key (n : Z) : cstr := lit "q" ++ print_Z n.

Fixpoint fill (n : nat) (c : Cache) : option Cache :=
  match n with
  | O => Some c
  | S m => c1 ← fill m c; query_cache_store None true true 0 c1 (demo_key (Z.of_nat m)) 1 (lit "{}")
  end.

(** What lookups of the keys say, each on its own. *)
Definition hits (c : Cache) (n : Z) : bool :=
  match query_cache_lookup None true 1 c (demo_key n) 1 with Some (inl _, _) => true | _ => false end.

(** The recency list never holds more than the entry touched last, since
    [touch_lru_head] takes the entry out of a list it is not in: when the cache
    is full a new key evicts the key stored last, not the oldest. *)
Theorem query_cache_evicts_newest :
  (c ← fill 1024 g_cache; Some (hits c 0, hits c 1, hits c 1022, hits c 1023)) = Some (true, true, true, true) ∧
  (c ← fill 1025 g_cache; Some (hits c 0, hits c 1, hits c 1023, hits c 1024)) = Some (true, true, false, true).
Proof. split; vm_compute; reflexivity. Qed.
