(* ===== verification/Resp.v ===== *)
(** Response buffers, [src/api/resp.c]: growth, appending and JSON strings.

    A buffer is its text and its capacity; the zero byte after the text needs
    one more byte.  [realloc_ok] says which sizes can be had.  An operation is
    [None] when the doubling loop of [buf_grow] does not end. *)

From Stdlib Require Import String.
From S2P Require Import Prelude CString.
From stdpp Require Import base numbers list option.
Local Open Scope Z_scope.

Record Buf := mkBuf { buf : cstr; cap : Z }.

Definition buf_init : Buf := mkBuf [] 0.

Definition buf_free (b : Buf) : Buf := buf_init.

(** [buf->len]. *)
Definition blen (b : Buf) : Z := Z.of_nat (length (buf b)).

Record HttpRes := mkHttpRes { code : Z; body : cstr; content_type : cstr }.

(** [while (need > cap) cap *= 2], a [size_t]. *)
Fixpoint double_cap (fuel : nat) (need cap : Z) : option Z :=
  if need <=? cap then Some cap
  else match fuel with O => None | S n => double_cap n need (wrap64 (cap * 2)) end.

Section resp.
Context (realloc_ok : Z → bool).

Definition buf_grow (b : Buf) (need : Z) : option (bool * Buf) :=
  let need1 := blen b + need + 1 in
  if need1 <=? cap b then Some (true, b)
  else
    let* c := double_cap 64 need1 (if cap b =? 0 then 256 else cap b) in
    if realloc_ok c then Some (true, mkBuf (buf b) c) else Some (false, b).

(** [if (!op) return 0; ...]. *)
Definition and_then (r : option (bool * Buf)) (k : Buf → option (bool * Buf)) : option (bool * Buf) :=
  match r with
  | Some (true, b) => k b
  | _ => r
  end.

Definition buf_put (b : Buf) (text : cstr) : option (bool * Buf) :=
  and_then (buf_grow b (Z.of_nat (length text))) (fun b1 => Some (true, mkBuf (buf b1 ++ text) (cap b1))).

Definition buf_chr (b : Buf) (ch : Z) : option (bool * Buf) :=
  and_then (buf_grow b 1) (fun b1 => Some (true, mkBuf (buf b1 ++ [ch]) (cap b1))).

(** [buf_fmt] of a format whose output is [text]. *)
Definition buf_fmt (b : Buf) (text : cstr) : option (bool * Buf) :=
  and_then (buf_grow b (Z.of_nat (length text))) (fun b1 => Some (true, mkBuf (buf b1 ++ text) (cap b1))).

Definition BACKSLASH : Z := 92.
Definition DQUOTE : Z := 34.

(** [%04x] of a byte. *)
Definition hex_digit (d : Z) : Z := if d <? 10 then 48 + d else 87 + d.
Definition fmt_u04x (c : Z) : cstr := [BACKSLASH; 117; 48; 48; hex_digit (c / 16); hex_digit (c mod 16)].

(** One round of the loop of [buf_jsn]. *)
Definition jsn_chr (b : Buf) (c : Z) : option (bool * Buf) :=
  if (c =? DQUOTE) || (c =? BACKSLASH) then and_then (buf_chr b BACKSLASH) (fun b1 => buf_chr b1 c)
  else if c =? NL then buf_put b [BACKSLASH; 110]
  else if c =? CR then buf_put b [BACKSLASH; 114]
  else if c =? 9 then buf_put b [BACKSLASH; 116]
  else if c <? 32 then buf_fmt b (fmt_u04x c)
  else buf_chr b c.

Fixpoint jsn_loop (b : Buf) (text : cstr) : option (bool * Buf) :=
  match text with
  | [] => Some (true, b)
  | c :: text' => and_then (jsn_chr b c) (fun b1 => jsn_loop b1 text')
  end.

Definition buf_jsn (b : Buf) (text : cstr) : option (bool * Buf) :=
  and_then (buf_chr b DQUOTE) (fun b1 => and_then (jsn_loop b1 text) (fun b2 => buf_chr b2 DQUOTE)).

(** [res_set_ct]: the buffer is handed over. *)
Definition res_set_ct (code : Z) (b : Buf) (ct : cstr) : HttpRes * Buf :=
  (mkHttpRes code (buf b) (match ct with [] => lit "application/json" | _ => ct end), buf_init).

Definition res_set (code : Z) (b : Buf) : HttpRes * Buf := res_set_ct code b (lit "application/json").

(** ** Invariant and what an operation appends *)

(** The text and its zero byte fit. *)
Definition buf_ok (b : Buf) : Prop := cap b = 0 ∧ buf b = [] ∨ 0 < cap b < 2 ^ 63 ∧ blen b + 1 ≤ cap b.

(** The operation appends [t] if memory lasts, and else leaves a prefix. *)
Definition appends (b : Buf) (t : cstr) (r : option (bool * Buf)) : Prop :=
  ∃ ok b', r = Some (ok, b') ∧ buf_ok b' ∧ ((∀ n, realloc_ok n = true) → ok = true) ∧
    if (ok : bool) then buf b' = buf b ++ t else ∃ t1, buf b' = buf b ++ t1 ∧ t1 `prefix_of` t.

(** More than half of a [size_t] is never asked for. *)
Definition SMALL : Z := 2 ^ 62.

Lemma double_cap_spec fuel need c :
  0 < c → need ≤ SMALL → need ≤ c * 2 ^ Z.of_nat fuel → c < 2 ^ 63 →
  ∃ c', double_cap fuel need c = Some c' ∧ need ≤ c' ∧ 0 < c' < 2 ^ 63.
Proof.
  unfold SMALL. revert c; induction fuel as [|n IH]; intros c Hc Hs Hn Hm; cbn [double_cap]; destruct (Z.leb_spec need c);
    try (by exists c); [simpl in Hn; lia|].
  rewrite wrap64_small by (unfold U64; lia). apply IH; [lia|done| |lia].
  rewrite Nat2Z.inj_succ, Z.pow_succ_r in Hn by lia. lia.
Qed.

Lemma buf_grow_spec b need :
  buf_ok b → 0 ≤ need → blen b + need + 1 ≤ SMALL →
  ∃ ok b', buf_grow b need = Some (ok, b') ∧ buf_ok b' ∧ ((∀ n, realloc_ok n = true) → ok = true) ∧ buf b' = buf b ∧
    (ok = true → blen b + need + 1 ≤ cap b' ∧ 0 < cap b' < 2 ^ 63).
Proof.
  intros Hok Hn Hs. unfold buf_grow. destruct (Z.leb_spec (blen b + need + 1) (cap b)) as [Hle|Hlt].
  - exists true, b. split_and!; try done. intros _. split; [done|]. destruct Hok as [[Hc _]|[Hc _]]; [|done].
    unfold blen in *. lia.
  - destruct (double_cap_spec 64 (blen b + need + 1) (if cap b =? 0 then 256 else cap b)) as (c & -> & Hc1 & Hc2).
    + destruct (Z.eqb_spec (cap b) 0); [lia|]. destruct Hok as [[? _]|[? _]]; lia.
    + done.
    + unfold SMALL in *. assert (2 ^ Z.of_nat 64 = 4 * 2 ^ 62) as -> by done.
      destruct (Z.eqb_spec (cap b) 0); [lia|]. destruct Hok as [[? _]|[? _]]; [lia|]. nia.
    + destruct (Z.eqb_spec (cap b) 0); [lia|]. destruct Hok as [[? _]|[? _]]; lia.
    + destruct (realloc_ok c) eqn:Er; [|exists false, b; split_and!; [done|done|intros Hall; by rewrite Hall in Er|done|done]]. exists true, (mkBuf (buf b) c). split_and!; try done.
      right. unfold blen in *. simpl. lia.
Qed.

Lemma buf_put_spec b t : buf_ok b → blen b + Z.of_nat (length t) + 1 ≤ SMALL → appends b t (buf_put b t).
Proof.
  intros Hok Hs. unfold buf_put. destruct (buf_grow_spec b (Z.of_nat (length t)) Hok) as (ok & b' & -> & Hok' & Ht & Hb & Hc); [lia|done|].
  destruct ok; simpl; unfold appends.
  - exists true, (mkBuf (buf b' ++ t) (cap b')). rewrite Hb. split_and!; try done. right. destruct (Hc eq_refl) as [Hc1 Hc2].
    unfold blen in *. simpl. rewrite length_app. lia.
  - exists false, b'. split_and!; try done. exists []. rewrite app_nil_r. split; [done|]. apply prefix_nil.
Qed.

Lemma buf_chr_put b c : buf_chr b c = buf_put b [c].
Proof. done. Qed.

Lemma buf_fmt_put b t : buf_fmt b t = buf_put b t.
Proof. done. Qed.

Lemma and_then_spec b t1 t2 r k :
  appends b t1 r → (∀ b1, buf_ok b1 → buf b1 = buf b ++ t1 → appends b1 t2 (k b1)) →
  appends b (t1 ++ t2) (and_then r k).
Proof.
  intros (ok & b1 & -> & Hok & Ht1 & Hb) Hk. destruct ok; simpl.
  - destruct (Hk b1 Hok Hb) as (ok & b2 & -> & Hok2 & Ht2 & Hb2). exists ok, b2. split_and!; try done. destruct ok.
    + by rewrite Hb2, Hb, (assoc_L (++)).
    + destruct Hb2 as (t & Ht & Hp). exists (t1 ++ t). rewrite Ht, Hb, (assoc_L (++)). split; [done|]. by apply prefix_app.
  - exists false, b1. split_and!; try done. destruct Hb as (t & Ht & Hp). exists t. split; [done|]. by apply prefix_app_r.
Qed.

(** The text of one character and of a whole string. *)
Definition jsn_one (c : Z) : cstr :=
  if (c =? DQUOTE) || (c =? BACKSLASH) then [BACKSLASH; c]
  else if c =? NL then [BACKSLASH; 110]
  else if c =? CR then [BACKSLASH; 114]
  else if c =? 9 then [BACKSLASH; 116]
  else if c <? 32 then fmt_u04x c
  else [c].

Definition jsn_body (s : cstr) : cstr := flat_map jsn_one s.
Definition jsn_text (s : cstr) : cstr := DQUOTE :: jsn_body s ++ [DQUOTE].

Lemma jsn_one_length c : (length (jsn_one c) ≤ 6)%nat.
Proof. unfold jsn_one. repeat case_match; simpl; lia. Qed.

Lemma jsn_body_length s : (length (jsn_body s) ≤ 6 * length s)%nat.
Proof.
  unfold jsn_body. induction s as [|c s IH]; [done|]. cbn [flat_map]. rewrite length_app.
  pose proof (jsn_one_length c). cbn [length]. lia.
Qed.

Lemma blen_app b b1 t : buf b1 = buf b ++ t → blen b1 = blen b + Z.of_nat (length t).
Proof. unfold blen. intros ->. rewrite length_app. lia. Qed.

(** ** Composing operations *)

(** The operation writes [t], wherever there is room for it. *)
Definition writes (op : Buf → option (bool * Buf)) (t : cstr) : Prop :=
  ∀ b, buf_ok b → blen b + Z.of_nat (length t) + 1 ≤ SMALL → appends b t (op b).

(** [if (!op1 || !op2 || ...) return 0]. *)
Fixpoint all_of (ops : list (Buf → option (bool * Buf))) (b : Buf) : option (bool * Buf) :=
  match ops with
  | [] => Some (true, b)
  | op :: ops' => and_then (op b) (all_of ops')
  end.

Lemma writes_put t : writes (fun b => buf_put b t) t.
Proof. intros b. apply buf_put_spec. Qed.

Lemma writes_chr c : writes (fun b => buf_chr b c) [c].
Proof. intros b. apply (buf_put_spec b [c]). Qed.

Lemma writes_fmt t : writes (fun b => buf_fmt b t) t.
Proof. intros b. apply buf_put_spec. Qed.

Lemma writes_nil : writes (fun b => Some (true, b)) [].
Proof. intros b Hok _. exists true, b. by rewrite app_nil_r. Qed.

Lemma writes_then op1 op2 t1 t2 :
  writes op1 t1 → writes op2 t2 → writes (fun b => and_then (op1 b) op2) (t1 ++ t2).
Proof.
  intros H1 H2 b Hok Hs. rewrite length_app in Hs. apply and_then_spec; [apply H1; [done|lia]|].
  intros b1 Hok1 Hb1. apply H2; [done|]. rewrite (blen_app _ _ _ Hb1). lia.
Qed.

Lemma writes_cons op ops t ts : writes op t → writes (all_of ops) ts → writes (all_of (op :: ops)) (t ++ ts).
Proof. apply writes_then. Qed.

Lemma writes_all_nil : writes (all_of []) [].
Proof. apply writes_nil. Qed.

Lemma writes_eq op t t' : writes op t → t = t' → writes op t'.
Proof. by intros ? <-. Qed.

Lemma writes_jsn_chr c : writes (fun b => jsn_chr b c) (jsn_one c).
Proof.
  unfold writes, jsn_chr, jsn_one. destruct ((c =? DQUOTE) || (c =? BACKSLASH)).
  - apply (writes_then (fun b => buf_chr b BACKSLASH) (fun b => buf_chr b c) [BACKSLASH] [c]); apply writes_chr.
  - intros b. repeat case_match; apply buf_put_spec.
Qed.

Lemma writes_jsn_loop s : writes (fun b => jsn_loop b s) (jsn_body s).
Proof.
  induction s as [|c s IH]; [apply writes_nil|].
  apply (writes_then (fun b => jsn_chr b c) (fun b => jsn_loop b s)); [apply writes_jsn_chr|done].
Qed.

Lemma writes_jsn s : writes (fun b => buf_jsn b s) (jsn_text s).
Proof.
  apply (writes_then (fun b => buf_chr b DQUOTE) _ [DQUOTE] (jsn_body s ++ [DQUOTE])); [apply writes_chr|].
  apply (writes_then (fun b => jsn_loop b s) (fun b => buf_chr b DQUOTE)); [apply writes_jsn_loop|apply writes_chr].
Qed.

Lemma buf_jsn_spec b s :
  buf_ok b → blen b + 6 * Z.of_nat (length s) + 9 ≤ SMALL → appends b (jsn_text s) (buf_jsn b s).
Proof.
  intros Hok Hs. apply writes_jsn; [done|]. unfold jsn_text. cbn [length]. rewrite length_app.
  pose proof (jsn_body_length s). simpl. lia.
Qed.

Lemma buf_init_ok : buf_ok buf_init.
Proof. by left. Qed.

(** What an operation leaves in a new buffer. *)
Lemma writes_init op t :
  writes op t → Z.of_nat (length t) + 1 ≤ SMALL →
  ∃ ok b, op buf_init = Some (ok, b) ∧ buf_ok b ∧ ((∀ n, realloc_ok n = true) → ok = true) ∧ (ok = true → buf b = t).
Proof.
  intros H Hs. destruct (H buf_init buf_init_ok) as (ok & b & E & Hok & Ht & Hb); [unfold blen; simpl; lia|].
  exists ok, b. split_and!; try done. by intros ->.
Qed.
End resp.

Create HintDb writes discriminated.
#[export] Hint Constants Opaque : writes.
#[export] Hint Resolve writes_put writes_chr writes_fmt writes_jsn writes_cons writes_all_nil : writes.
