(* ===== verification/Json.v ===== *)
(** The request side of the JSON of [src/api/route.c]: finding a key, decoding a
    string, a boolean or an array of strings, and the query string.

    A pointer into the body is the text from there on. *)

From Stdlib Require Import String.
From S2P Require Import Prelude CString Parser Resp.
From stdpp Require Import base numbers list option.
Local Open Scope Z_scope.

(** ** Scanning *)

(** [json_doc]: braces around the body but for white space. *)
Definition json_doc (body : cstr) : bool :=
  match skip_space body with
  | c :: _ => (c =? 123) && (List.last (rstrip (skip_space body)) 0 =? 125)
  | [] => false
  end.

(** [find_key]: after the first [:] that follows the first occurrence of the
    quoted key; the pattern is cut at 63 characters. *)
Definition find_key (json key : cstr) : option cstr :=
  let pat := strcpy_sz 64 (DQUOTE :: key ++ [DQUOTE]) in
  match strstr json pat with
  | None => None
  | Some i =>
      let p := drop (i + length pat) json in
      match strchr p 58 with
      | None => None
      | Some j => Some (skip_space (drop (S j) p))
      end
  end.

(** The first loop of [scan_str]: what is before the closing quote, and after it. *)
Fixpoint scan_end (esc : bool) (s : cstr) : option (cstr * cstr) :=
  match s with
  | [] => None
  | c :: s' =>
      if negb esc && (c =? DQUOTE) then Some ([], s')
      else '(b, r) ← scan_end (negb esc && (c =? BACKSLASH)) s'; Some (c :: b, r)
  end.

Definition unescape (c : Z) : Z := if c =? 110 then NL else if c =? 114 then CR else if c =? 116 then 9 else c.

(** The second loop. *)
Fixpoint decode (s : cstr) : cstr :=
  match s with
  | [] => []
  | c :: s' =>
      if c =? BACKSLASH then match s' with d :: s2 => unescape d :: decode s2 | [] => [c] end
      else c :: decode s'
  end.

Inductive ScanRes := ScanNo | ScanOom | ScanOk (out rest : cstr).

(** [scan_str] with whether [calloc] succeeds. *)
Definition scan_str (alloc_ok : bool) (ptr : option cstr) : ScanRes :=
  match ptr with
  | Some (c :: s) =>
      if c =? DQUOTE then
        match scan_end false s with
        | None => ScanNo
        | Some (b, r) => if alloc_ok then ScanOk (decode b) r else ScanOom
        end
      else ScanNo
  | _ => ScanNo
  end.

Definition json_str (alloc_ok : bool) (json key : cstr) : ScanRes := scan_str alloc_ok (find_key json key).

Definition json_bool (json key : cstr) : option bool :=
  match find_key json key with
  | None => None
  | Some p => if is_prefix (lit "true") p then Some true else if is_prefix (lit "false") p then Some false else None
  end.

(** The loop of [json_arr]: every round reads a string, so the length of the text
    is enough fuel; [alloc_ok n] says whether there is memory for item [n] (its
    text, and the larger array when it needs one); [inl] is the failure. *)
Fixpoint arr_loop (fuel : nat) (alloc_ok : nat → bool) (n : nat) (p : cstr) : option (unit + list cstr) :=
  match p with
  | [] => Some (inr [])
  | _ =>
      match fuel with
      | O => None
      | S f =>
          match skip_space p with
          | c :: q =>
              if c =? 93 then Some (inr [])
              else if negb (c =? DQUOTE) then Some (inr [])
              else
                match scan_str (alloc_ok n) (Some (c :: q)) with
                | ScanOk item r =>
                    let r1 := skip_space r in
                    let r2 := match r1 with d :: r' => if d =? COMMA then r' else r1 | [] => [] end in
                    match arr_loop f alloc_ok (S n) r2 with
                    | Some (inr items) => Some (inr (item :: items))
                    | other => other
                    end
                | _ => Some (inl tt)
                end
          | [] => Some (inr [])
          end
      end
  end.

Inductive ArrRes := ArrNo | ArrFail | ArrOk (items : list cstr).

Definition json_arr (alloc_ok : nat → bool) (json key : cstr) : option ArrRes :=
  match find_key json key with
  | Some (c :: p) =>
      if c =? 91 then
        match arr_loop (length p) alloc_ok 0 p with
        | Some (inr items) => Some (ArrOk items)
        | Some (inl _) => Some ArrFail
        | None => None
        end
      else Some ArrNo
  | _ => Some ArrNo
  end.

(** [qry_get]: the value of the first pair with the key, cut to the buffer;
    [None] where the bytes copied go past the end of the text. *)
Fixpoint qry_loop (fuel : nat) (qry key : cstr) (osz : nat) : option (option cstr) :=
  match qry with
  | [] => Some None
  | _ =>
      match fuel with
      | O => None
      | S f =>
          match strchr qry 61 with
          | None => Some None
          | Some eq =>
              let amp := strchr qry 38 in
              if (eq =? length key)%nat && streq (take eq qry) key then
                let val := drop (S eq) qry in
                (* a '&' before the '=' makes the length wrap round to a huge size_t *)
                let vlen := match amp with
                            | Some a => if (a <? S eq)%nat then osz else (a - S eq)%nat
                            | None => length val
                            end in
                if (length val <? (if (osz <=? vlen)%nat then osz - 1 else vlen))%nat then None
                else Some (Some (take (if (osz <=? vlen)%nat then osz - 1 else vlen) val))
              else
                match amp with
                | None => Some None
                | Some a => qry_loop f (drop (S a) qry) key osz
                end
          end
      end
  end.

Definition qry_get (qry key : cstr) (osz : nat) : option (option cstr) := qry_loop (length qry) qry key osz.

Definition sql_is_rd (sql : cstr) : bool :=
  match parse_statement sql with
  | Some stmt => match stype stmt with STMT_SELECT => true | _ => false end
  | None => false
  end.

(** ** Encoding and decoding *)

(** The characters [buf_jsn] writes as an escape that [scan_str] knows. *)
Definition plain (c : Z) : Prop := 32 ≤ c ∨ c = NL ∨ c = CR ∨ c = 9.

#[export] Instance plain_dec c : Decision (plain c).
Proof. unfold plain. apply _. Defined.

Lemma scan_end_one c r b rest :
  plain c → scan_end false r = Some (b, rest) → scan_end false (jsn_one c ++ r) = Some (jsn_one c ++ b, rest).
Proof.
  unfold plain, jsn_one, NL, CR. intros Hc Hr.
  destruct (Z.eqb_spec c DQUOTE) as [->|H1]; [simpl; by rewrite Hr|].
  destruct (Z.eqb_spec c BACKSLASH) as [->|H2]; [simpl; by rewrite Hr|]. cbn [orb].
  destruct (Z.eqb_spec c 10); [simpl; by rewrite Hr|]. destruct (Z.eqb_spec c 13); [simpl; by rewrite Hr|].
  destruct (Z.eqb_spec c 9); [simpl; by rewrite Hr|]. destruct (Z.ltb_spec c 32); [lia|].
  cbn [app scan_end negb andb]. rewrite (proj2 (Z.eqb_neq _ _) H1), (proj2 (Z.eqb_neq _ _) H2). simpl. by rewrite Hr.
Qed.

Lemma decode_one c r : plain c → decode (jsn_one c ++ r) = c :: decode r.
Proof.
  unfold plain, jsn_one, NL, CR. intros Hc.
  destruct (Z.eqb_spec c DQUOTE) as [->|H1]; [done|]. destruct (Z.eqb_spec c BACKSLASH) as [->|H2]; [done|]. cbn [orb].
  destruct (Z.eqb_spec c 10) as [->|]; [done|]. destruct (Z.eqb_spec c 13) as [->|]; [done|].
  destruct (Z.eqb_spec c 9) as [->|]; [done|]. destruct (Z.ltb_spec c 32); [lia|].
  cbn [app decode]. by rewrite (proj2 (Z.eqb_neq _ _) H2).
Qed.

Lemma jsn_scan s rest :
  Forall plain s → scan_end false (jsn_body s ++ DQUOTE :: rest) = Some (jsn_body s, rest) ∧ decode (jsn_body s) = s.
Proof.
  induction 1 as [|c s Hc _ [IH1 IH2]]; [done|]. change (jsn_body (c :: s)) with (jsn_one c ++ jsn_body s). split.
  - by rewrite <- (assoc_L (++)), (scan_end_one _ _ _ _ Hc IH1).
  - by rewrite decode_one, IH2.
Qed.

Lemma jsn_text_app s tl : jsn_text s ++ tl = DQUOTE :: jsn_body s ++ DQUOTE :: tl.
Proof. unfold jsn_text. simpl. by rewrite <- (assoc_L (++)). Qed.

(** An array of strings the way a client writes it. *)
Fixpoint arr_text (items : list cstr) : cstr :=
  match items with
  | [] => []
  | [s] => jsn_text s
  | s :: items' => jsn_text s ++ COMMA :: arr_text items'
  end.

Lemma arr_loop_text f n items rest :
  Forall (Forall plain) items → (length items < f)%nat →
  arr_loop f (fun _ => true) n (arr_text items ++ 93 :: rest) = Some (inr items).
Proof.
  revert f n; induction items as [|s items IH]; intros f n Hp Hf; (destruct f as [|f]; [simpl in Hf; lia|]); [done|].
  apply Forall_cons_1 in Hp as [Hs Hp].
  assert (∀ tl, arr_loop (S f) (fun _ => true) n (jsn_text s ++ tl) =
    let r1 := skip_space tl in
    let r2 := match r1 with d :: r' => if d =? COMMA then r' else r1 | [] => [] end in
    match arr_loop f (fun _ => true) (S n) r2 with Some (inr items) => Some (inr (s :: items)) | other => other end) as Hstep.
  { intros tl. rewrite jsn_text_app. cbn [arr_loop]. change (skip_space (DQUOTE :: ?x)) with (DQUOTE :: x). cbv iota.
    change (DQUOTE =? 93) with false. change (DQUOTE =? DQUOTE) with true. cbn [negb scan_str]. change (DQUOTE =? DQUOTE) with true.
    cbv iota. destruct (jsn_scan s tl Hs) as [-> ->]. done. }
  destruct items as [|s2 items].
  - cbn [arr_text]. rewrite Hstep. change (skip_space (93 :: rest)) with (93 :: rest). cbv zeta iota.
    change (93 =? COMMA) with false. cbv iota. destruct f; [simpl in Hf; lia|]. done.
  - change (arr_text (s :: s2 :: items)) with (jsn_text s ++ COMMA :: arr_text (s2 :: items)).
    rewrite <- (assoc_L (++)), Hstep. cbn [app].
    change (skip_space (COMMA :: ?x)) with (COMMA :: x). cbv zeta iota. change (COMMA =? COMMA) with true. cbv iota.
    rewrite IH; [done|done|simpl in *; lia].
Qed.

(** ** Properties *)

(** [buf_jsn] and [scan_str] are inverse.  Appending a text to a buffer as a
    JSON string returns, keeps the buffer well formed (the text and its zero
    byte within the capacity, even when memory runs out half way), appends
    exactly the quoted and escaped text when it succeeds, and that text, in
    front of anything, is scanned back to the original, with the scan ending
    right after it; control characters other than tab, newline and carriage
    return excepted. *)
Theorem buf_jsn_scan_roundtrip (realloc_ok : Z → bool) (b : Buf) (s rest : cstr) :
  buf_ok b → blen b + 6 * Z.of_nat (length s) + 9 ≤ SMALL →
  ∃ ok b' t, buf_jsn realloc_ok b s = Some (ok, b') ∧ buf_ok b' ∧ buf b' = buf b ++ t ∧
    (ok = true → t = jsn_text s ∧ (Forall plain s → scan_str true (Some (t ++ rest)) = ScanOk s rest)).
Proof.
  intros Hok Hs. destruct (buf_jsn_spec realloc_ok b s Hok Hs) as (ok & b' & E & Hok' & _ & H). destruct ok.
  - exists true, b', (jsn_text s). split_and!; try done. intros _. split; [done|]. intros Hp.
    rewrite jsn_text_app. cbn [scan_str]. change (DQUOTE =? DQUOTE) with true. cbv iota.
    destruct (jsn_scan s rest Hp) as [-> ->]. done.
  - destruct H as (t & Ht & _). by exists false, b', t.
Qed.

Lemma buf_jsn_scan_roundtrip_witness :
  let s := qlit "a`b\c" ++ [NL; 9] in
  ∃ b', buf_jsn (fun _ => true) buf_init s = Some (true, b') ∧ scan_str true (Some (buf b' ++ [125])) = ScanOk s [125].
Proof.
  intros s. destruct (buf_jsn_scan_roundtrip (fun _ => true) buf_init s [125]) as (ok & b' & t & E & _ & Hb & H).
  - left. split; reflexivity.
  - vm_compute. discriminate.
  - assert (fst <$> buf_jsn (fun _ => true) buf_init s = Some true) as Hok by (vm_compute; reflexivity).
    rewrite E in Hok. injection Hok as ->. destruct (H eq_refl) as [_ Hscan]. exists b'. split; [exact E|].
    rewrite Hb. cbn [app]. apply Hscan. apply (bool_decide_eq_true_1 _). vm_compute. reflexivity.
Defined.

(** Other control characters do not survive: [buf_jsn] writes the byte 1 as
    [\u0001], which [scan_str] reads as the five characters u0001. *)
Lemma control_characters_do_not_round_trip : scan_str true (Some (jsn_text [1])) = ScanOk (lit "u0001") [].
Proof. vm_compute. reflexivity. Qed.

(** The body of a batch request with these queries. *)
Definition batch_body (items : list cstr) : cstr := qlit "{`queries`:[" ++ arr_text items ++ lit "]}".

(** A batch request is read as it was written: from the body that a client
    makes of any list of queries (with any characters but other control
    characters, quotes and braces and the word queries included), [json_doc]
    accepts it and [json_arr] returns exactly that list, in order. *)
Theorem batch_body_roundtrip (items : list cstr) :
  Forall (Forall plain) items →
  json_doc (batch_body items) = true ∧
  json_arr (fun _ => true) (batch_body items) (lit "queries") = Some (ArrOk items).
Proof.
  intros Hp. split.
  - unfold batch_body, json_doc. rewrite (assoc_L (++)). change (lit "]}") with ([93] ++ [125]). rewrite (assoc_L (++)).
    assert (∀ l : cstr, skip_space (123 :: l) = 123 :: l) as Hsk by done.
    set (m := (qlit "{`queries`:[" ++ arr_text items) ++ [93]).
    assert (∃ m', m = 123 :: m') as (m' & Em) by (eexists; reflexivity). rewrite Em. cbn [app]. rewrite Hsk.
    change (123 =? 123) with true. cbn [andb]. unfold rstrip.
    change (123 :: m' ++ [125]) with ((123 :: m') ++ [125]). rewrite reverse_app.
    change (reverse [125] ++ reverse (123 :: m')) with (125 :: reverse (123 :: m')).
    change (skip_space (125 :: ?x)) with (125 :: x). rewrite reverse_cons, reverse_involutive.
    rewrite List.last_last. done.
  - unfold json_arr. assert (find_key (batch_body items) (lit "queries") = Some (91 :: arr_text items ++ lit "]}")) as -> by done.
    change (91 =? 91) with true. cbv iota. change (lit "]}") with (93 :: [125]).
    rewrite arr_loop_text; [done|done|]. rewrite length_app. simpl.
    enough (length items ≤ length (arr_text items))%nat by lia. clear Hp.
    induction items as [|s [|s2 items] IH]; [done|simpl; lia|].
    change (arr_text (s :: s2 :: items)) with (jsn_text s ++ COMMA :: arr_text (s2 :: items)).
    rewrite length_app. cbn [length] in *. lia.
Qed.

Lemma batch_body_roundtrip_witness :
  let items := [lit "SELECT * FROM users"; qlit "INSERT INTO t VALUES (1, '`]}queries')"] in
  json_doc (batch_body items) = true ∧ json_arr (fun _ => true) (batch_body items) (lit "queries") = Some (ArrOk items).
Proof. intros items. apply (batch_body_roundtrip items). apply (bool_decide_eq_true_1 _). vm_compute. reflexivity. Defined.
