(* ===== verification/Stats.v ===== *)
(** The request counters of [src/api/stats/stats.c]; each is an atomic 64-bit
    counter, and the clock of [now_ns] is an argument. *)

From S2P Require Import Prelude.
From stdpp Require Import base numbers list.
Local Open Scope Z_scope.

Record Stats := mkStats {
  started_ns : Z;
  total_requests : Z;
  inflight_requests : Z;
  ok_responses : Z;
  error_responses : Z;
  status_503 : Z;
  keep_alive_reuse : Z;
  cache_hits : Z;
  cache_misses : Z;
  parse_ns : Z;
  lock_wait_ns : Z;
  engine_ns : Z;
  json_ns : Z;
  send_ns : Z;
}.

Definition api_stats_init (now : Z) : Stats := mkStats now 0 0 0 0 0 0 0 0 0 0 0 0 0.

Definition api_stats_destroy (s : Stats) : Stats := s.

Definition set_counts (s : Stats) (total inflight ok err s503 : Z) : Stats :=
  mkStats (started_ns s) (wrap64 total) (wrap64 inflight) (wrap64 ok) (wrap64 err) (wrap64 s503) (keep_alive_reuse s)
    (cache_hits s) (cache_misses s) (parse_ns s) (lock_wait_ns s) (engine_ns s) (json_ns s) (send_ns s).

Definition set_others (s : Stats) (reuse hits misses parse lock engine json send : Z) : Stats :=
  mkStats (started_ns s) (total_requests s) (inflight_requests s) (ok_responses s) (error_responses s) (status_503 s)
    (wrap64 reuse) (wrap64 hits) (wrap64 misses) (wrap64 parse) (wrap64 lock) (wrap64 engine) (wrap64 json) (wrap64 send).

Definition api_stats_note_request_started (s : Stats) : Stats :=
  set_counts s (total_requests s + 1) (inflight_requests s + 1) (ok_responses s) (error_responses s) (status_503 s).

Definition api_stats_note_request_finished (status_code : Z) (s : Stats) : Stats :=
  if (200 <=? status_code) && (status_code <? 400) then
    set_counts s (total_requests s) (inflight_requests s - 1) (ok_responses s + 1) (error_responses s) (status_503 s)
  else if status_code =? 503 then
    set_counts s (total_requests s) (inflight_requests s - 1) (ok_responses s) (error_responses s) (status_503 s + 1)
  else
    set_counts s (total_requests s) (inflight_requests s - 1) (ok_responses s) (error_responses s + 1) (status_503 s).

Definition api_stats_note_immediate_503 (s : Stats) : Stats :=
  set_counts s (total_requests s + 1) (inflight_requests s) (ok_responses s) (error_responses s) (status_503 s + 1).

Definition api_stats_note_keep_alive_reuse (s : Stats) : Stats :=
  set_others s (keep_alive_reuse s + 1) (cache_hits s) (cache_misses s) (parse_ns s) (lock_wait_ns s) (engine_ns s) (json_ns s) (send_ns s).
Definition api_stats_note_cache_hit (s : Stats) : Stats :=
  set_others s (keep_alive_reuse s) (cache_hits s + 1) (cache_misses s) (parse_ns s) (lock_wait_ns s) (engine_ns s) (json_ns s) (send_ns s).
Definition api_stats_note_cache_miss (s : Stats) : Stats :=
  set_others s (keep_alive_reuse s) (cache_hits s) (cache_misses s + 1) (parse_ns s) (lock_wait_ns s) (engine_ns s) (json_ns s) (send_ns s).
Definition api_stats_add_parse_ns (ns : Z) (s : Stats) : Stats :=
  set_others s (keep_alive_reuse s) (cache_hits s) (cache_misses s) (parse_ns s + ns) (lock_wait_ns s) (engine_ns s) (json_ns s) (send_ns s).
Definition api_stats_add_lock_wait_ns (ns : Z) (s : Stats) : Stats :=
  set_others s (keep_alive_reuse s) (cache_hits s) (cache_misses s) (parse_ns s) (lock_wait_ns s + ns) (engine_ns s) (json_ns s) (send_ns s).
Definition api_stats_add_engine_ns (ns : Z) (s : Stats) : Stats :=
  set_others s (keep_alive_reuse s) (cache_hits s) (cache_misses s) (parse_ns s) (lock_wait_ns s) (engine_ns s + ns) (json_ns s) (send_ns s).
Definition api_stats_add_json_ns (ns : Z) (s : Stats) : Stats :=
  set_others s (keep_alive_reuse s) (cache_hits s) (cache_misses s) (parse_ns s) (lock_wait_ns s) (engine_ns s) (json_ns s + ns) (send_ns s).
Definition api_stats_add_send_ns (ns : Z) (s : Stats) : Stats :=
  set_others s (keep_alive_reuse s) (cache_hits s) (cache_misses s) (parse_ns s) (lock_wait_ns s) (engine_ns s) (json_ns s) (send_ns s + ns).

(** [api_stats_snapshot]: the uptime in milliseconds and the counters. *)
Definition api_stats_snapshot (now : Z) (s : Stats) : Z * Stats :=
  (if (0 <? started_ns s) && (started_ns s <? now) then (now - started_ns s) / 1000000 else 0, s).

(** ** The books balance *)

(** Every request counted is in flight or has one outcome. *)
Definition balanced (s : Stats) : Prop :=
  wrap64 (total_requests s) =
  wrap64 (inflight_requests s + ok_responses s + error_responses s + status_503 s).

Lemma wrap64_eq a b : (∃ k, a = b + k * U64) → wrap64 a = wrap64 b.
Proof. intros (k & ->). unfold wrap64. apply Z_mod_plus_full. Qed.

Lemma wrap64_split x : ∃ k, wrap64 x = x + k * U64.
Proof. exists (- (x / U64)). unfold wrap64. rewrite Z.mod_eq by (unfold U64; lia). lia. Qed.

Lemma balanced_eq s : balanced s ↔ ∃ k, total_requests s = inflight_requests s + ok_responses s + error_responses s + status_503 s + k * U64.
Proof.
  unfold balanced. split; [|apply wrap64_eq]. intros H. unfold wrap64 in H.
  pose proof (Z.div_mod (total_requests s) U64 ltac:(unfold U64; lia)) as H1.
  pose proof (Z.div_mod (inflight_requests s + ok_responses s + error_responses s + status_503 s) U64 ltac:(unfold U64; lia)) as H2.
  exists (total_requests s / U64 - (inflight_requests s + ok_responses s + error_responses s + status_503 s) / U64). nia.
Qed.

Lemma balanced_counts s t i o e f d :
  balanced s → t = total_requests s + d →
  i + o + e + f = inflight_requests s + ok_responses s + error_responses s + status_503 s + d →
  balanced (set_counts s t i o e f).
Proof.
  rewrite !balanced_eq. intros (k & Hk) Ht Hs. simpl.
  destruct (wrap64_split t) as (k1 & ->), (wrap64_split i) as (k2 & ->), (wrap64_split o) as (k3 & ->),
    (wrap64_split e) as (k4 & ->), (wrap64_split f) as (k5 & ->).
  exists (k + k1 - k2 - k3 - k4 - k5). lia.
Qed.

Lemma balanced_started s : balanced s → balanced (api_stats_note_request_started s).
Proof. intros H. apply (balanced_counts s _ _ _ _ _ 1 H); lia. Qed.

Lemma balanced_finished c s : balanced s → balanced (api_stats_note_request_finished c s).
Proof. intros H. unfold api_stats_note_request_finished. repeat case_match; apply (balanced_counts s _ _ _ _ _ 0 H); lia. Qed.

Lemma balanced_503 s : balanced s → balanced (api_stats_note_immediate_503 s).
Proof. intros H. apply (balanced_counts s _ _ _ _ _ 1 H); lia. Qed.
