(* ===== verification/Http.v ===== *)
(** Reading requests from a connection and writing responses, [src/api/srv.c].

    A socket is the list of what its next calls return.  [recv] takes at most the
    room it is given; what is left of a chunk stays in the socket.  The end of
    the list is the closed connection. *)

From Stdlib Require Import String.
From S2P Require Import Prelude CString Resp Stats.
From stdpp Require Import base numbers list option.
Local Open Scope Z_scope.

Definition CONN_BUF_INIT : Z := 32768.
Definition MAX_HDR_BYTES : Z := 8192.

(** ** Sockets *)

Inductive RecvEv := RData (bytes : list Z) | RIntr | RErr.
Abbreviation Net := (list RecvEv).

Inductive RecvRes := RvData (bytes : list Z) | RvEof | RvIntr | RvErr.

Definition recv (room : nat) (net : Net) : RecvRes * Net :=
  match net with
  | [] => (RvEof, [])
  | RIntr :: net' => (RvIntr, net')
  | RErr :: net' => (RvErr, net')
  | RData bs :: net' =>
      if (length bs <=? room)%nat then (match bs with [] => RvEof | _ => RvData bs end, net')
      else (RvData (take room bs), RData (drop room bs) :: net')
  end.

(** What [send] returns: a number of bytes, EINTR or another error. *)
Inductive SendEv := SBytes (n : nat) | SIntr | SErr.

(** [write_all]: whether all was written, and what was. *)
Fixpoint write_all (evs : list SendEv) (out : list Z) : bool * list Z * list SendEv :=
  match out with
  | [] => (true, [], evs)
  | _ =>
      match evs with
      | [] => (false, [], [])
      | SIntr :: evs' => write_all evs' out
      | SErr :: evs' => (false, [], evs')
      | SBytes n :: evs' =>
          let '(ok, sent, r) := write_all evs' (drop n out) in (ok, take n out ++ sent, r)
      end
  end.

(** ** Connections *)

(** [hbuf] are the first [used] bytes of [buf]; [have] says that there is a buffer. *)
Record HttpConn := mkConn { have : bool; hbuf : list Z; hcap : Z; max_total : Z }.

Definition used (c : HttpConn) : Z := Z.of_nat (length (hbuf c)).

Definition conn_init (calloc_ok : bool) (max_body : Z) : HttpConn :=
  let body := if 0 <? max_body then max_body else 1048576 in
  let hard := body + MAX_HDR_BYTES + 4 in
  let init := if hard <? CONN_BUF_INIT then hard else CONN_BUF_INIT in
  mkConn calloc_ok [] (if calloc_ok then init else 0) hard.

Definition conn_free (c : HttpConn) : HttpConn := mkConn false [] 0 0.

Definition CRLF2 : list Z := [13; 10; 13; 10].

(** [find_hdr_end]: the index of the blank line. *)
Definition find_hdr_end (bytes : list Z) : option nat := strstr bytes CRLF2.

(** [trim]: blanks, tabs and line ends. *)
Definition is_blank (c : Z) : bool := (c =? 32) || (c =? 9) || (c =? 13) || (c =? 10).

Fixpoint drop_blank (s : cstr) : cstr :=
  match s with
  | c :: s' => if is_blank c then drop_blank s' else s
  | [] => []
  end.

Definition trim (s : cstr) : cstr := reverse (drop_blank (reverse (drop_blank s))).

(** The capacity loop of [ensure_buffered]. *)
Fixpoint grow_to (fuel : nat) (ncap target max_total : Z) : option Z :=
  if target <=? ncap then Some ncap
  else match fuel with
       | O => None
       | S n => if max_total / 2 <? ncap then Some max_total else grow_to n (ncap * 2) target max_total
       end.

Section http.
Context (realloc_ok : Z → bool).

(** Room for [target] bytes: the connection, or the status. *)
Definition ensure_cap (c : HttpConn) (target : Z) : option (Z + HttpConn) :=
  if max_total c <? target then Some (inl 413)
  else if hcap c <? target then
    let* ncap := grow_to 64 (if 0 <? hcap c then hcap c else CONN_BUF_INIT) target (max_total c) in
    let ncap := Z.min ncap (max_total c) in
    if ncap <? target then Some (inl 413)
    else if realloc_ok ncap then Some (inr (mkConn (have c) (hbuf c) ncap (max_total c)))
    else Some (inl 500)
  else Some (inr c).

(** [ensure_buffered]; every round takes an event or a byte from the socket. *)
Fixpoint ensure_buffered (fuel : nat) (c : HttpConn) (target : Z) (net : Net) : option (Z * HttpConn * Net) :=
  if target <=? used c then Some (200, c, net)
  else
    match fuel with
    | O => None
    | S n =>
        let* room := ensure_cap c target in
        match room with
        | inl code => Some (code, c, net)
        | inr c1 =>
            let '(r, net1) := recv (Z.to_nat (hcap c1 - used c1)) net in
            match r with
            | RvEof => Some (if used c1 =? 0 then 0 else 400, c1, net1)
            | RvIntr => ensure_buffered n c1 target net1
            | RvErr => Some (400, c1, net1)
            | RvData bs => ensure_buffered n (mkConn (have c1) (hbuf c1 ++ bs) (hcap c1) (max_total c1)) target net1
            end
        end
    end.

(** Enough rounds for what is in the socket. *)
Fixpoint net_rounds (net : Net) : nat :=
  match net with
  | [] => 1
  | RData bs :: net' => S (length bs + net_rounds net')
  | _ :: net' => S (net_rounds net')
  end.

(** ** Request heads *)

Record HttpReq := mkReq {
  meth : cstr;
  path : cstr;
  qry : cstr;
  req_body : option (list Z);
  req_body_len : Z;
}.

Definition req0 : HttpReq := mkReq [] [] [] None 0.

(** [strtok_r(..., CR LF)]: the lines that are not empty. *)
Fixpoint lines (cur : cstr) (s : cstr) : list cstr :=
  match s with
  | [] => match cur with [] => [] | _ => [cur] end
  | c :: s' =>
      if (c =? CR) || (c =? NL) then match cur with [] => lines [] s' | _ => cur :: lines [] s' end
      else lines (cur ++ [c]) s'
  end.

(** [%<w>s] of [sscanf]: the word, and the rest. *)
Fixpoint word (w : nat) (s : cstr) : cstr * cstr :=
  match w, s with
  | S w', c :: s' => if isspace c then ([], s) else let '(a, r) := word w' s' in (c :: a, r)
  | _, _ => ([], s)
  end.

Definition scan_word (w : nat) (s : cstr) : option (cstr * cstr) :=
  match word w (skip_space s) with
  | ([], _) => None
  | (a, r) => Some (a, r)
  end.

(** [sscanf(line, "%7s %255s %15s", ...) == 3]. *)
Definition scan_line (line : cstr) : option (cstr * cstr * cstr) :=
  '(m, r1) ← scan_word 7 line; '(p, r2) ← scan_word 255 r1; '(v, _) ← scan_word 15 r2; Some (m, p, v).

(** [strncasecmp(s, p, strlen(p)) == 0]. *)
Fixpoint is_iprefix (p s : cstr) : bool :=
  match p, s with
  | [], _ => true
  | x :: p', y :: s' => (tolower x =? tolower y) && is_iprefix p' s'
  | _, [] => false
  end.

(** The header lines: the body length and whether to close, or 400. *)
Fixpoint headers (ls : list cstr) (body_len : Z) (close : bool) : option (Z * bool) :=
  match ls with
  | [] => Some (body_len, close)
  | line :: ls' =>
      match strchr line 58 with
      | None => headers ls' body_len close
      | Some k =>
          let name := trim (take k line) in
          let value := trim (drop (S k) line) in
          if is_iprefix (lit "Content-Length") name then
            let '(v, whole) := strtoull value in
            if whole then headers ls' v close else None
          else if is_iprefix (lit "Connection") name then
            headers ls' body_len (is_iprefix (lit "close") value || close)
          else if is_iprefix (lit "Transfer-Encoding") name then None
          else headers ls' body_len close
      end
  end.

(** The text before a zero byte. *)
Fixpoint cut_zero (s : list Z) : cstr :=
  match s with
  | c :: s' => if c =? 0 then [] else c :: cut_zero s'
  | [] => []
  end.

(** The head of a request: method, target, body length, close; or [None] for 400. *)
Definition parse_head (hdr : list Z) : option (cstr * cstr * Z * bool) :=
  match lines [] (cut_zero hdr) with
  | [] => None
  | l :: ls =>
      '(m, p, v) ← scan_line l;
      if streq v (lit "HTTP/1.1") then '(n, close) ← headers ls 0 false; Some (m, p, n, close) else None
  end.

(** Path and query of the target. *)
Definition split_target (p : cstr) : cstr * cstr :=
  match strchr p 63 with
  | Some k => (take k p, take 511 (drop (S k) p))
  | None => (p, [])
  end.

(** ** [parse_req] *)

(** The loop that waits for the blank line. *)
Fixpoint wait_head (fuel : nat) (c : HttpConn) (net : Net) : option (Z * HttpConn * Net) :=
  match find_hdr_end (hbuf c) with
  | Some _ => Some (200, c, net)
  | None =>
      if MAX_HDR_BYTES <=? used c then Some (413, c, net)
      else
        match fuel with
        | O => None
        | S n =>
            let* (rc, c1, net1) := ensure_buffered (net_rounds net) c (used c + 1) net in
            if rc =? 200 then wait_head n c1 net1 else Some (rc, c1, net1)
        end
  end.

Definition HEAD_FUEL : nat := S (Z.to_nat MAX_HDR_BYTES).

(** Status, request, whether to close, connection and socket. *)
Definition parse_req (calloc_ok : bool) (max_body : Z) (c : HttpConn) (net : Net)
    : option (Z * HttpReq * bool * HttpConn * Net) :=
  let body_cap := if 0 <? max_body then max_body else 0 in
  if negb (have c) then Some (500, req0, false, c, net)
  else
    let* (rc, c1, net1) := wait_head HEAD_FUEL c net in
    if negb (rc =? 200) then Some (rc, req0, false, c1, net1)
    else
      let* hdr_len := find_hdr_end (hbuf c1) in
      if MAX_HDR_BYTES <? Z.of_nat hdr_len then Some (413, req0, false, c1, net1)
      else
        match parse_head (take hdr_len (hbuf c1)) with
        | None => Some (400, req0, false, c1, net1)
        | Some (m, p, body_len, close) =>
            if body_cap <? body_len then Some (413, mkReq m p [] None 0, close, c1, net1)
            else
              let req_bytes := Z.of_nat hdr_len + 4 + body_len in
              if max_total c1 <? req_bytes then Some (413, mkReq m p [] None 0, close, c1, net1)
              else
                let* (rc2, c2, net2) := ensure_buffered (net_rounds net1) c1 req_bytes net1 in
                if negb (rc2 =? 200) then Some (rc2, mkReq m p [] None 0, close, c2, net2)
                else if (0 <? body_len) && negb calloc_ok then Some (500, mkReq m p [] None 0, close, c2, net2)
                else
                  let b := take (Z.to_nat body_len) (drop (hdr_len + 4) (hbuf c2)) in
                  let '(pth, q) := split_target p in
                  Some (200, mkReq m pth q (if 0 <? body_len then Some b else None) body_len, close,
                        mkConn (have c2) (drop (Z.to_nat req_bytes) (hbuf c2)) (hcap c2) (max_total c2), net2)
        end.
End http.

(** ** Responses *)

Definition reason_of (code : Z) : cstr :=
  if code =? 200 then lit "OK"
  else if code =? 201 then lit "Created"
  else if code =? 400 then lit "Bad Request"
  else if code =? 404 then lit "Not Found"
  else if code =? 405 then lit "Method Not Allowed"
  else if code =? 413 then lit "Payload Too Large"
  else if code =? 429 then lit "Too Many Requests"
  else if code =? 503 then lit "Service Unavailable"
  else lit "Internal Server Error".

Definition crlf : cstr := [13; 10].

Definition res_head (res : HttpRes) (close : bool) : cstr :=
  lit "HTTP/1.1 " ++ print_Z (code res) ++ lit " " ++ reason_of (code res) ++ crlf ++
  lit "Content-Type: " ++ (match content_type res with [] => lit "application/json" | ct => ct end) ++ crlf ++
  lit "Content-Length: " ++ print_Z (Z.of_nat (length (body res))) ++ crlf ++
  lit "Connection: " ++ (if close then lit "close" else lit "keep-alive") ++ crlf ++ crlf.

(** [send_res]: [head] has 256 bytes, zero byte included, and as many bytes are
    written as the whole text has: with 256 the zero byte goes out, and more
    would be read past the end. *)
Definition send_res (evs : list SendEv) (res : HttpRes) (close : bool) : option (list Z * list SendEv) :=
  let head := res_head res close in
  if (256 <? length head)%nat then None
  else
    let out := if (length head =? 256)%nat then take 255 head ++ [0] else head in
    let '(_, sent1, evs1) := write_all evs out in
    match body res with
    | [] => Some (sent1, evs1)
    | b => let '(_, sent2, evs2) := write_all evs1 b in Some (sent1 ++ sent2, evs2)
    end.

(** The answer to a request that could not be read. *)
Definition parse_failed (code : Z) (req_id : cstr) : HttpRes :=
  let '(errc, msg) :=
    if code =? 413 then (lit "TOO_BIG", lit "request body too large")
    else if code =? 500 then (lit "INT_ERR", lit "internal server error")
    else (lit "BAD_REQ", lit "request parse failed") in
  mkHttpRes code (qlit "{`ok`:false,`err`:{`code`:" ++ jsn_text errc ++ qlit ",`msg`:" ++ jsn_text msg ++
                  qlit "},`meta`:{`req_id`:" ++ jsn_text req_id ++ lit "}}") (lit "application/json").

Section serve.
Context (realloc_ok : Z → bool) (calloc_ok : bool) {W : Type} (route : W → HttpReq → cstr → W * HttpRes).

(** [conn_run]: the requests served, each with what is handed to [send_res] (the
    answer and whether the connection closes), the state [W] of the router and
    the counters.  [seq] is the number of the last request of the server, [count]
    is [req_count].  The times that [add_parse_ns] and [add_send_ns] sum up are
    left out, and of a request that could not be read only the status is used. *)
Fixpoint conn_run (fuel : nat) (max_body : Z) (c : HttpConn) (net : Net) (w : W) (seq : Z) (count : Z) (st : Stats)
    : option (list (option HttpReq * HttpRes * bool) * W * Stats) :=
  match fuel with
  | O => None
  | S n =>
      let* (code, req, close, c1, net1) := parse_req realloc_ok calloc_ok max_body c net in
      if code =? 0 then Some ([], w, st)
      else
        let st1 := api_stats_note_request_started st in
        let st2 := if 0 <? count then api_stats_note_keep_alive_reuse st1 else st1 in
        let id := print_Z (seq + 1) in
        if negb (code =? 200) then
          let res := parse_failed code id in
          Some ([(None, res, true)], w, api_stats_note_request_finished code st2)
        else
          let '(w1, res) := route w req id in
          let st3 := api_stats_note_request_finished (Resp.code res) st2 in
          if close then Some ([(Some req, res, true)], w1, st3)
          else
            let* (rs, w2, st4) := conn_run n max_body c1 net1 w1 (seq + 1) (count + 1) st3 in
            Some ((Some req, res, false) :: rs, w2, st4)
  end.
End serve.
