(* ===== verification/HttpProofs.v ===== *)
(** Requests are read the same way however the network cuts them up. *)

From Stdlib Require Import String.
From S2P Require Import Prelude CString Resp Stats Http.
From stdpp Require Import base numbers list option.
Local Open Scope Z_scope.

(** ** The blank line *)

Lemma is_prefix_app (p s t : cstr) : is_prefix p s = true → is_prefix p (s ++ t) = true.
Proof.
  revert s; induction p as [|x p IH]; intros [|y s]; simpl; try done. intros H. apply andb_prop in H as [-> H]. simpl. auto.
Qed.

Lemma is_prefix_short (p s t : cstr) : (length p ≤ length s)%nat → is_prefix p (s ++ t) = is_prefix p s.
Proof.
  revert s; induction p as [|x p IH]; intros [|y s]; simpl; try done; [lia|]. intros H. rewrite IH by lia. done.
Qed.

Lemma is_prefix_length (p s : cstr) : is_prefix p s = true → (length p ≤ length s)%nat.
Proof.
  revert s; induction p as [|x p IH]; intros [|y s]; simpl; try done; [lia|]. intros H. apply andb_prop in H as [_ H].
  apply IH in H. lia.
Qed.

Lemma strstr_cons c (s p : cstr) : strstr (c :: s) p = if is_prefix p (c :: s) then Some 0%nat else S <$> strstr s p.
Proof. simpl. destruct (is_prefix p (c :: s)); [done|]. by destruct (strstr s p). Qed.

Lemma strstr_nil (p : cstr) : p ≠ [] → strstr [] p = None.
Proof. destruct p; done. Qed.

(** Searching in the part that has arrived. *)
Lemma strstr_app (s t p : cstr) h :
  p ≠ [] → strstr (s ++ t) p = Some h →
  strstr s p = if decide (h + length p ≤ length s)%nat then Some h else None.
Proof.
  intros Hp. revert h; induction s as [|c s IH]; intros h.
  - intros _. rewrite strstr_nil by done. rewrite decide_False; [done|]. destruct p; [done|]. simpl. lia.
  - change ((c :: s) ++ t) with (c :: s ++ t). rewrite !strstr_cons. destruct (is_prefix p (c :: s ++ t)) eqn:E.
    + intros [= <-]. destruct (decide (length p ≤ length (c :: s))%nat) as [Hl|Hl].
      * change (c :: s ++ t) with ((c :: s) ++ t) in E. rewrite is_prefix_short in E by done. rewrite E.
        by rewrite decide_True by (simpl in *; lia).
      * rewrite decide_False by (simpl in *; lia).
        destruct (is_prefix p (c :: s)) eqn:E2; [apply is_prefix_length in E2; lia|].
        destruct (strstr s p) as [h|] eqn:E3; [|done]. exfalso.
        assert (∀ s' h', strstr s' p = Some h' → (h' + length p ≤ length s')%nat) as Hb.
        { clear. induction s' as [|x s' IH]; intros h'.
          - destruct p; simpl; [intros [= <-]; simpl; lia|done].
          - rewrite strstr_cons. destruct (is_prefix p (x :: s')) eqn:E; [intros [= <-]; by apply is_prefix_length in E|].
            destruct (strstr s' p) as [k|]; [|done]. intros [= <-]. specialize (IH k eq_refl). simpl. lia. }
        apply Hb in E3. simpl in Hl. lia.
    + destruct (strstr (s ++ t) p) as [k|] eqn:Ek; [|done]. intros [= <-].
      destruct (is_prefix p (c :: s)) eqn:E2; [apply (is_prefix_app _ _ t) in E2; simpl in *; congruence|].
      rewrite (IH k eq_refl). simpl. repeat case_decide; done || (exfalso; lia).
Qed.

(** ** Sockets that deliver *)

Fixpoint bytes_of (net : Net) : list Z :=
  match net with
  | [] => []
  | RData bs :: net' => bs ++ bytes_of net'
  | _ :: net' => bytes_of net'
  end.

(** No error, and no empty read before the end. *)
Definition good (net : Net) : Prop := Forall (λ e, e = RIntr ∨ ∃ b bs, e = RData (b :: bs)) net.

Lemma recv_good room net :
  good net → bytes_of net ≠ [] → (0 < room)%nat →
  ∃ r net', recv room net = (r, net') ∧ good net' ∧ (net_rounds net' < net_rounds net)%nat ∧
    match r with
    | RvIntr => bytes_of net' = bytes_of net
    | RvData bs => bs ≠ [] ∧ (length bs ≤ room)%nat ∧ bs ++ bytes_of net' = bytes_of net
    | _ => False
    end.
Proof.
  destruct net as [|[bs| |] net]; intros Hg Hb Hr; [done| | |].
  - apply Forall_cons_1 in Hg as [[?|(b & bs' & [= ->])] Hg]; [done|]. unfold recv.
    destruct (Nat.leb_spec (length (b :: bs')) room).
    + exists (RvData (b :: bs')), net. split_and!; try done. simpl. lia.
    + exists (RvData (take room (b :: bs'))), (RData (drop room (b :: bs')) :: net). split; [done|].
      destruct room as [|room]; [lia|]. simpl. split.
      * constructor; [|done]. right. destruct (drop room bs') as [|d ds] eqn:Ed; [|by exists d, ds].
        apply (f_equal length) in Ed. rewrite length_drop in Ed. simpl in *. lia.
      * rewrite length_drop, length_take. simpl in *. split_and!; [lia|done|lia|]. by rewrite (assoc_L (++)), take_drop.
  - apply Forall_cons_1 in Hg as [_ Hg]. exists RvIntr, net. split_and!; try done. simpl. lia.
  - apply Forall_cons_1 in Hg as [[?|(b & bs' & ?)] Hg]; done.
Qed.

(** ** Filling the buffer *)

Record conn_ok (c : HttpConn) : Prop := {
  co_have : have c = true;
  co_cap : 0 < hcap c ≤ max_total c;
  co_used : used c ≤ hcap c;
  co_max : max_total c ≤ 2 ^ 62;
}.

Lemma conn_init_ok max_body : 0 ≤ max_body < 2 ^ 31 → conn_ok (conn_init true max_body).
Proof.
  intros Hb. split; unfold used; simpl; unfold CONN_BUF_INIT, MAX_HDR_BYTES; repeat case_match; try lia; done.
Qed.

Lemma grow_to_spec fuel n target mt :
  0 < n ≤ mt → target ≤ mt → target ≤ n * 2 ^ Z.of_nat fuel →
  ∃ m, grow_to fuel n target mt = Some m ∧ target ≤ m ∧ 0 < m ≤ mt.
Proof.
  revert n; induction fuel as [|fuel IH]; intros n Hn Ht Hf; cbn [grow_to]; destruct (Z.leb_spec target n);
    try (by exists n); [simpl in Hf; lia|].
  destruct (Z.ltb_spec (mt / 2) n); [exists mt; split_and!; (done || lia)|].
  apply IH; [|done|]. { pose proof (Z.mul_div_le mt 2 ltac:(lia)). lia. }
  rewrite Nat2Z.inj_succ, Z.pow_succ_r in Hf by lia. lia.
Qed.

Lemma ensure_cap_spec rok c target :
  (∀ n, rok n = true) → conn_ok c → target ≤ max_total c →
  ∃ c1, ensure_cap rok c target = Some (inr c1) ∧ conn_ok c1 ∧ hbuf c1 = hbuf c ∧ max_total c1 = max_total c ∧ target ≤ hcap c1.
Proof.
  intros Hr [H1 H2 H3 H4] Ht. unfold ensure_cap. rewrite (proj2 (Z.ltb_ge _ _)) by lia.
  destruct (Z.ltb_spec (hcap c) target).
  - rewrite (proj2 (Z.ltb_lt 0 (hcap c))) by lia.
    destruct (grow_to_spec 64 (hcap c) target (max_total c)) as (m & -> & Hm1 & Hm2); [lia|done| |].
    { assert (2 ^ Z.of_nat 64 = 4 * 2 ^ 62) as -> by done. nia. }
    rewrite Z.min_l by lia. rewrite (proj2 (Z.ltb_ge _ _)) by lia. rewrite Hr. eexists. split; [done|].
    split; [|by split_and!]. split; unfold used in *; simpl; (done || lia).
  - exists c. split; [done|]. split; [by split|]. by split_and!.
Qed.

Lemma ensure_spec rok fuel c target net :
  (∀ n, rok n = true) → conn_ok c → good net → (net_rounds net ≤ fuel)%nat → target ≤ max_total c →
  target ≤ Z.of_nat (length (hbuf c ++ bytes_of net)) →
  ∃ c' net', ensure_buffered rok fuel c target net = Some (200, c', net') ∧ conn_ok c' ∧ max_total c' = max_total c ∧
    good net' ∧ hbuf c' ++ bytes_of net' = hbuf c ++ bytes_of net ∧ target ≤ used c'.
Proof.
  intros Hr. revert c net; induction fuel as [|fuel IH]; intros c net Hc Hg Hf Ht Hl.
  { destruct net as [|[] net]; simpl in Hf; lia. }
  cbn [ensure_buffered]. destruct (Z.leb_spec target (used c)); [by exists c, net; split_and!|].
  destruct (ensure_cap_spec rok c target Hr Hc Ht) as (c1 & -> & Hc1 & Hb1 & Hm1 & Hcap).
  assert (used c1 = used c) as Hu1 by (unfold used; by rewrite Hb1).
  destruct (recv_good (Z.to_nat (hcap c1 - used c1)) net Hg) as (r & net1 & -> & Hg1 & Hlt & Hres).
  { intros E. rewrite E, app_nil_r in Hl. unfold used in *. lia. }
  { lia. }
  destruct r as [bs| | |]; try done.
  - destruct Hres as (Hne & Hroom & Hbs). destruct Hc1 as [K1 K2 K3 K4].
    destruct (IH (mkConn (have c1) (hbuf c1 ++ bs) (hcap c1) (max_total c1)) net1) as (c' & net' & E & Hok & Hmt & Hg' & Hbytes & Hu); simpl.
    + split; simpl; try done. unfold used in *. simpl. rewrite length_app. lia.
    + done.
    + lia.
    + congruence.
    + rewrite Hb1, <- (assoc_L (++)), Hbs. done.
    + simpl in *. exists c', net'. split; [done|]. split_and!; try done; [congruence|].
      by rewrite Hbytes, Hb1, <- (assoc_L (++)), Hbs.
  - destruct (IH c1 net1 Hc1 Hg1) as (c' & net' & E & Hok & Hmt & Hg' & Hbytes & Hu); [lia|congruence|by rewrite Hb1, Hres|].
    exists c', net'. split; [done|]. split_and!; try done; [congruence|]. by rewrite Hbytes, Hb1, Hres.
Qed.

(** ** The head *)

Lemma CRLF2_ne : CRLF2 ≠ [].
Proof. done. Qed.

Lemma wait_head_spec rok fuel c net h :
  (∀ n, rok n = true) → conn_ok c → good net → MAX_HDR_BYTES ≤ max_total c →
  find_hdr_end (hbuf c ++ bytes_of net) = Some h → Z.of_nat h + 4 ≤ MAX_HDR_BYTES →
  MAX_HDR_BYTES - used c < Z.of_nat fuel →
  ∃ c' net', wait_head rok fuel c net = Some (200, c', net') ∧ conn_ok c' ∧ max_total c' = max_total c ∧ good net' ∧
    hbuf c' ++ bytes_of net' = hbuf c ++ bytes_of net ∧ find_hdr_end (hbuf c') = Some h ∧ Z.of_nat h + 4 ≤ used c'.
Proof.
  intros Hr. revert c net; induction fuel as [|fuel IH]; intros c net Hc Hg Hm Hh H4 Hf; cbn [wait_head];
    pose proof (strstr_app (hbuf c) (bytes_of net) CRLF2 h CRLF2_ne Hh) as Hs; fold (find_hdr_end (hbuf c)) in Hs; rewrite Hs;
    (destruct (decide _) as [Hd|Hd]; simpl in Hd; [exists c, net; split_and!; try done; unfold used; lia|]).
  - exfalso. unfold used in *. lia.
  - assert (used c < MAX_HDR_BYTES) as Hu by (unfold used; lia).
    rewrite (proj2 (Z.leb_gt _ _)) by done.
    assert (used c + 1 ≤ Z.of_nat (length (hbuf c ++ bytes_of net))) as Hlen.
    { pose proof (strstr_app (hbuf c ++ bytes_of net) [] CRLF2 h CRLF2_ne) as Hs2. rewrite app_nil_r in Hs2.
      specialize (Hs2 Hh). unfold find_hdr_end in Hh. rewrite Hh in Hs2. destruct (decide _) as [Hd2|]; [|done].
      simpl in Hd2. unfold used in *. lia. }
    destruct (ensure_spec rok (net_rounds net) c (used c + 1) net Hr Hc Hg) as (c1 & net1 & -> & Hc1 & Hm1 & Hg1 & Hb1 & Hu1);
      [done|lia|done|]. simpl.
    destruct (IH c1 net1) as (c' & net' & E & Hc' & Hm' & Hg' & Hb' & Hh' & Hu'); try done; [congruence|by rewrite Hb1|lia|].
    exists c', net'. split_and!; try done; congruence.
Qed.

(** ** The body length *)

Lemma digits_ge acc s : 0 ≤ acc → 0 ≤ fst (digits acc s).
Proof.
  revert acc; induction s as [|c s IH]; intros acc Ha; simpl; [done|]. destruct (isdigit c) eqn:E; [|done].
  apply IH. unfold isdigit in E. apply andb_prop in E as [E1 E2]. lia.
Qed.

Lemma strtoull_ge s : 0 ≤ fst (strtoull s).
Proof.
  unfold strtoull. destruct (match skip_space s with c :: s' => _ | [] => _ end) as [neg s2].
  destruct s2 as [|c s2]; [done|]. destruct (isdigit c); [|done].
  pose proof (digits_ge 0 (c :: s2) ltac:(lia)) as Hd. destruct (digits 0 (c :: s2)) as [m r]. simpl in *.
  case_match; simpl; [unfold U64; lia|]. destruct neg; [apply Z.mod_pos_bound; unfold U64; lia|done].
Qed.

Lemma headers_ge ls n close n' close' : 0 ≤ n → headers ls n close = Some (n', close') → 0 ≤ n'.
Proof.
  revert n close; induction ls as [|l ls IH]; intros n close Hn; cbn [headers]; [by intros [= <- _]|].
  destruct (strchr l 58) as [k|]; [|by apply IH].
  destruct (is_iprefix (lit "Content-Length") (trim (take k l))).
  - pose proof (strtoull_ge (trim (drop (S k) l))) as Hv. destruct (strtoull _) as [v w]. destruct w; [|done]. simpl in Hv. by apply IH.
  - destruct (is_iprefix (lit "Connection") _); [by apply IH|].
    destruct (is_iprefix (lit "Transfer-Encoding") _); [done|by apply IH].
Qed.

Lemma parse_head_ge hdr m p n close : parse_head hdr = Some (m, p, n, close) → 0 ≤ n.
Proof.
  unfold parse_head. destruct (lines [] _) as [|l ls]; [done|]. destruct (scan_line l) as [[[m0 p0] v]|]; [|done]. simpl.
  destruct (streq _ _); [|done]. destruct (headers ls 0 false) as [[n0 c0]|] eqn:E; [|done]. intros [= _ _ <- _].
  by eapply (headers_ge ls 0).
Qed.

(** ** A whole request *)

(** [raw] is exactly one request: its head, blank line and body. *)
Definition request_of (raw : list Z) (max_body : Z) (req : HttpReq) (close : bool) : Prop :=
  ∃ h m p n, find_hdr_end raw = Some h ∧ Z.of_nat h + 4 ≤ MAX_HDR_BYTES ∧
    parse_head (take h raw) = Some (m, p, n, close) ∧ n ≤ max_body ∧ Z.of_nat (length raw) = Z.of_nat h + 4 + n ∧
    req = mkReq m (fst (split_target p)) (snd (split_target p))
            (if 0 <? n then Some (drop (h + 4) raw) else None) n.

Lemma find_hdr_end_app raw rest h : find_hdr_end raw = Some h → find_hdr_end (raw ++ rest) = Some h.
Proof.
  unfold find_hdr_end. revert h; induction raw as [|c raw IH]; intros h; [by rewrite strstr_nil by done|].
  change ((c :: raw) ++ rest) with (c :: raw ++ rest). rewrite !strstr_cons.
  destruct (is_prefix CRLF2 (c :: raw)) eqn:E.
  - apply (is_prefix_app _ _ rest) in E. simpl in E |- *. rewrite E. done.
  - destruct (strstr raw CRLF2) as [k|] eqn:Ek; [|done]. intros [= <-]. rewrite (IH k eq_refl).
    destruct (is_prefix CRLF2 (c :: raw ++ rest)) eqn:E2; [|done]. exfalso.
    assert (4 ≤ length (c :: raw))%nat as Hl.
    { pose proof (strstr_app raw [] CRLF2 k CRLF2_ne) as H. rewrite app_nil_r in H. specialize (H Ek). rewrite Ek in H.
      destruct (decide _) as [Hd|]; [|done]. simpl in *. lia. }
    change (c :: raw ++ rest) with ((c :: raw) ++ rest) in E2. rewrite is_prefix_short in E2 by done. congruence.
Qed.

Lemma parse_req_spec rok c net raw rest max_body req close :
  (∀ n, rok n = true) → conn_ok c → good net → 0 < max_body → max_total c = max_body + MAX_HDR_BYTES + 4 →
  hbuf c ++ bytes_of net = raw ++ rest → request_of raw max_body req close →
  ∃ c' net', parse_req rok true max_body c net = Some (200, req, close, c', net') ∧ conn_ok c' ∧ good net' ∧
    max_total c' = max_total c ∧ hbuf c' ++ bytes_of net' = rest.
Proof.
  intros Hr Hc Hg Hmb Hmt Hstream (h & m & p & n & Hh & H4 & Hp & Hn & Hlen & ->).
  pose proof (parse_head_ge _ _ _ _ _ Hp) as Hn0.
  unfold parse_req. rewrite (co_have _ Hc). simpl negb. cbv iota.
  destruct (wait_head_spec rok HEAD_FUEL c net h Hr Hc Hg) as (c1 & net1 & -> & Hc1 & Hm1 & Hg1 & Hb1 & Hh1 & Hu1).
  { lia. } { rewrite Hstream. by apply find_hdr_end_app. } { done. }
  { unfold HEAD_FUEL, used. rewrite Nat2Z.inj_succ, Z2Nat.id by (unfold MAX_HDR_BYTES; lia). lia. }
  simpl negb. cbv iota. rewrite Hh1. rewrite (proj2 (Z.ltb_ge _ _)) by lia.
  assert (take h (hbuf c1) = take h raw) as ->.
  { transitivity (take h (hbuf c1 ++ bytes_of net1)); [|rewrite Hb1, Hstream]; rewrite take_app_le; try done; unfold used in *; lia. }
  rewrite Hp. rewrite (proj2 (Z.ltb_lt 0 max_body)) by done. rewrite (proj2 (Z.ltb_ge _ _)) by lia.
  rewrite (proj2 (Z.ltb_ge _ _)) by lia.
  destruct (ensure_spec rok (net_rounds net1) c1 (Z.of_nat h + 4 + n) net1 Hr Hc1 Hg1)
    as (c2 & net2 & -> & Hc2 & Hm2 & Hg2 & Hb2 & Hu2); [done|lia|rewrite Hb1, Hstream, length_app; lia|].
  simpl negb. rewrite andb_false_r. cbv iota.
  assert (length raw ≤ length (hbuf c2))%nat as Hl2 by (unfold used in *; lia).
  assert (hbuf c2 = raw ++ drop (length raw) (hbuf c2) ∧ drop (length raw) (hbuf c2) ++ bytes_of net2 = rest) as [Hraw Hrest].
  { rewrite Hb1, Hstream in Hb2. split.
    - rewrite <- (take_drop (length raw) (hbuf c2)) at 1. f_equal.
      transitivity (take (length raw) (hbuf c2 ++ bytes_of net2)); [by rewrite take_app_le|].
      rewrite Hb2. by rewrite take_app_length.
    - transitivity (drop (length raw) (hbuf c2 ++ bytes_of net2)); [by rewrite drop_app_le|].
      rewrite Hb2. by rewrite drop_app_length. }
  assert (take (Z.to_nat n) (drop (h + 4) (hbuf c2)) = drop (h + 4) raw) as ->.
  { rewrite Hraw, drop_app_le by lia. rewrite take_app_le by (rewrite length_drop; lia).
    apply take_ge. rewrite length_drop. lia. }
  assert (Z.to_nat (Z.of_nat h + 4 + n) = length raw) as -> by lia.
  destruct (split_target p) as [pth q]. eexists _, net2. split; [done|]. split; [|by split_and!; [|simpl; congruence|]].
  destruct Hc2 as [K1 K2 K3 K4]. split; simpl; try done. unfold used in *. simpl. rewrite length_drop. lia.
Qed.

(** ** A whole connection *)

Lemma ensure_eof rok fuel c net :
  (∀ n, rok n = true) → conn_ok c → good net → hbuf c = [] → bytes_of net = [] → 1 ≤ max_total c →
  (net_rounds net ≤ fuel)%nat → ∃ c' net', ensure_buffered rok fuel c 1 net = Some (0, c', net').
Proof.
  intros Hr. revert c net; induction fuel as [|fuel IH]; intros c net Hc Hg Hb Hn Hm Hf.
  { destruct net as [|[] net]; simpl in Hf; lia. }
  assert (used c = 0) as Hu by (unfold used; by rewrite Hb). cbn [ensure_buffered]. rewrite Hu. simpl (1 <=? 0). cbv iota.
  destruct (ensure_cap_spec rok c 1 Hr Hc Hm) as (c1 & -> & Hc1 & Hb1 & Hm1 & Hcap).
  destruct net as [|e net]; [|apply Forall_cons_1 in Hg as [[->|(b & bs & ->)] Hg]]; [| |done].
  - simpl. eexists _, _. assert (used c1 = 0) as -> by (unfold used; by rewrite Hb1, Hb). done.
  - simpl. apply IH; try done; [congruence|lia|simpl in Hf; lia].
Qed.

Lemma wait_head_eof rok n c net :
  (∀ n, rok n = true) → conn_ok c → good net → hbuf c = [] → bytes_of net = [] → 1 ≤ max_total c →
  ∃ c' net', wait_head rok (S n) c net = Some (0, c', net').
Proof.
  intros Hr Hc Hg Hb Hn Hm. cbn [wait_head]. rewrite Hb. change (find_hdr_end []) with (None (A:=nat)). cbv iota.
  assert (used c = 0) as Hu by (unfold used; by rewrite Hb). rewrite Hu. change (MAX_HDR_BYTES <=? 0) with false. cbv iota.
  change (0 + 1) with 1. destruct (ensure_eof rok (net_rounds net) c net Hr Hc Hg Hb Hn Hm (le_n _)) as (c' & net' & ->).
  by eexists _, _.
Qed.

Lemma parse_req_eof rok c net max_body :
  (∀ n, rok n = true) → conn_ok c → good net → hbuf c = [] → bytes_of net = [] → 1 ≤ max_total c →
  ∃ req close c' net', parse_req rok true max_body c net = Some (0, req, close, c', net').
Proof.
  intros Hr Hc Hg Hb Hn Hm. unfold parse_req. rewrite (co_have _ Hc). simpl negb. cbv iota.
  destruct (wait_head_eof rok (Z.to_nat MAX_HDR_BYTES) c net Hr Hc Hg Hb Hn Hm) as (c' & net' & E).
  unfold HEAD_FUEL. rewrite E. by eexists _, _, _, _.
Qed.

(** One answer for each request, in order, each with the next number; and the
    state of the router after them. *)
Fixpoint answers {W} (route : W → HttpReq → cstr → W * HttpRes) (w : W) (seq : Z) (reqs : list HttpReq)
    : list (option HttpReq * HttpRes * bool) * W :=
  match reqs with
  | [] => ([], w)
  | r :: rs =>
      let '(w1, res) := route w r (print_Z (seq + 1)) in
      let '(out, w2) := answers route w1 (seq + 1) rs in
      ((Some r, res, false) :: out, w2)
  end.

Lemma balanced_others s a b c d e f g h : balanced s → balanced (set_others s a b c d e f g h).
Proof. done. Qed.

Lemma inflight_pair st code :
  wrap64 (inflight_requests st) = inflight_requests st →
  inflight_requests (api_stats_note_request_finished code (api_stats_note_request_started st)) = inflight_requests st ∧
  inflight_requests (api_stats_note_request_finished code
    (api_stats_note_keep_alive_reuse (api_stats_note_request_started st))) = inflight_requests st.
Proof.
  intros H. assert (wrap64 (wrap64 (inflight_requests st + 1) - 1) = inflight_requests st) as Hw.
  { rewrite <- H at 2. apply wrap64_eq. destruct (wrap64_split (inflight_requests st + 1)) as (k & ->). exists k. lia. }
  unfold api_stats_note_request_finished. split; repeat case_match; exact Hw.
Qed.

Lemma conn_run_spec {W} rok (route : W → HttpReq → cstr → W * HttpRes) fuel max_body c net w seq count st rrs :
  (∀ n, rok n = true) → conn_ok c → good net → 0 < max_body → max_total c = max_body + MAX_HDR_BYTES + 4 →
  Forall (λ rr : list Z * HttpReq, request_of rr.1 max_body rr.2 false) rrs →
  hbuf c ++ bytes_of net = concat rrs.*1 → (length rrs < fuel)%nat →
  balanced st → wrap64 (inflight_requests st) = inflight_requests st →
  ∃ st', conn_run rok true route fuel max_body c net w seq count st =
      Some (fst (answers route w seq rrs.*2), snd (answers route w seq rrs.*2), st') ∧
    balanced st' ∧ inflight_requests st' = inflight_requests st.
Proof.
  intros Hr. revert c net w seq count st fuel; induction rrs as [|[raw req] rrs IH]; intros c net w seq count st fuel
    Hc Hg Hmb Hmt Hreq Hs Hf Hbal Hin; (destruct fuel as [|fuel]; [simpl in Hf; lia|]); cbn [conn_run].
  - simpl in Hs. apply app_eq_nil in Hs as [Hs1 Hs2].
    destruct (parse_req_eof rok c net max_body Hr Hc Hg Hs1 Hs2) as (rq & cl & c' & net' & ->).
    { rewrite Hmt. unfold MAX_HDR_BYTES. lia. }
    simpl. by exists st.
  - apply Forall_cons_1 in Hreq as [Hr1 Hreq]. simpl in Hr1, Hs.
    destruct (parse_req_spec rok c net raw (concat rrs.*1) max_body req false Hr Hc Hg Hmb Hmt Hs Hr1)
      as (c' & net' & -> & Hc' & Hg' & Hm' & Hb').
    change (200 =? 0) with false. change (negb (200 =? 200)) with false. cbv iota zeta.
    set (st2 := if 0 <? count then _ else _). cbn [fmap list_fmap answers snd].
    destruct (route w req (print_Z (seq + 1))) as [w1 res]. set (code := Resp.code res).
    destruct (inflight_pair st code Hin) as [Hi1 Hi2].
    destruct (IH c' net' w1 (seq + 1) (count + 1) (api_stats_note_request_finished code st2) fuel) as (st' & E & Hb2 & Hi);
      try done; [congruence|simpl in Hf; lia| | |].
    + apply balanced_finished. unfold st2. destruct (0 <? count); [apply balanced_others|]; by apply balanced_started.
    + unfold st2. destruct (0 <? count); [rewrite Hi2|rewrite Hi1]; done.
    + rewrite E. destruct (answers route w1 (seq + 1) rrs.*2) as [out w2]. exists st'. split; [done|]. split; [done|].
      rewrite Hi. unfold st2. by destruct (0 <? count).
Qed.

(** ** Properties *)

(** Requests are framed the same way however the network cuts the stream.
    If what is buffered and what the socket delivers, in chunks of any sizes
    with any number of interrupted calls between them, starts with one request
    whose head is within the limit, [parse_req] returns 200 with exactly that
    request, and has consumed exactly its bytes: what is left, in the buffer and
    the socket, is what follows it. *)
Theorem parse_req_chunk_independent (realloc_ok : Z → bool) (c : HttpConn) (net : Net) (raw rest : list Z)
    (max_body : Z) (req : HttpReq) (close : bool) :
  (∀ n, realloc_ok n = true) → conn_ok c → good net → 0 < max_body → max_total c = max_body + MAX_HDR_BYTES + 4 →
  hbuf c ++ bytes_of net = raw ++ rest → request_of raw max_body req close →
  ∃ c' net', parse_req realloc_ok true max_body c net = Some (200, req, close, c', net') ∧ conn_ok c' ∧ good net' ∧
    max_total c' = max_total c ∧ hbuf c' ++ bytes_of net' = rest.
Proof. apply parse_req_spec. Qed.

Definition demo_raw : list Z :=
  lit "POST /api/v1/sql?a=b HTTP/1.1" ++ crlf ++ lit "Content-Length: 2" ++ crlf ++ crlf ++ lit "{}".
Definition demo_req : HttpReq := mkReq (lit "POST") (lit "/api/v1/sql") (lit "a=b") (Some (lit "{}")) 2.

Lemma demo_request : request_of demo_raw 100 demo_req false.
Proof.
  exists 48%nat, (lit "POST"), (lit "/api/v1/sql?a=b"), 2. split_and!; try (vm_compute; (reflexivity || discriminate)).
Qed.

Lemma parse_req_chunk_independent_witness :
  ∃ c' net', parse_req (fun _ => true) true 100 (conn_init true 100)
      [RData (take 10 demo_raw); RIntr; RData (drop 10 demo_raw ++ [71])] = Some (200, demo_req, false, c', net') ∧
    hbuf c' ++ bytes_of net' = [71].
Proof.
  destruct (parse_req_chunk_independent (fun _ => true) (conn_init true 100)
    [RData (take 10 demo_raw); RIntr; RData (drop 10 demo_raw ++ [71])] demo_raw [71] 100 demo_req false)
    as (c' & net' & E & _ & _ & _ & Hb).
  - reflexivity.
  - apply conn_init_ok. split; [discriminate|reflexivity].
  - constructor; [right; by eexists _, _|]. constructor; [by left|]. constructor; [right; by eexists _, _|]. constructor.
  - reflexivity.
  - reflexivity.
  - vm_compute. reflexivity.
  - exact demo_request.
  - exists c', net'. split; [exact E|exact Hb].
Defined.

(** C25. Pipelining.  When a client sends any number of well-formed requests on a
    connection, cut into chunks in any way, the server answers each of them
    exactly once, in order, with the answer of the router (run from the state
    the request before it left) to exactly that request and the next request
    number, and ends at the end of the stream; afterwards as many requests are
    in flight as before, and the books balance: every request counted is in
    flight or has one outcome. *)
Theorem conn_run_pipelined {W : Type} (realloc_ok : Z → bool) (route : W → HttpReq → cstr → W * HttpRes)
    (max_body : Z) (net : Net) (w : W) (seq : Z) (st : Stats) (rrs : list (list Z * HttpReq)) :
  (∀ n, realloc_ok n = true) → good net → 0 < max_body < 2 ^ 31 →
  Forall (λ rr : list Z * HttpReq, request_of rr.1 max_body rr.2 false) rrs →
  bytes_of net = concat rrs.*1 → balanced st → wrap64 (inflight_requests st) = inflight_requests st →
  ∃ st', conn_run realloc_ok true route (S (length rrs)) max_body (conn_init true max_body) net w seq 0 st =
      Some (fst (answers route w seq rrs.*2), snd (answers route w seq rrs.*2), st') ∧
    balanced st' ∧ inflight_requests st' = inflight_requests st.
Proof.
  intros Hr Hg Hmb Hreq Hs Hbal Hin. apply conn_run_spec; try done; try lia.
  - apply conn_init_ok. lia.
  - simpl. by rewrite (proj2 (Z.ltb_lt _ _)) by lia.
Qed.

(** A router that counts what it answers. *)
Definition demo_route (w : Z) (req : HttpReq) (id : cstr) : Z * HttpRes := (w + 1, mkHttpRes 200 (print_Z w ++ id) []).

Lemma conn_run_pipelined_witness :
  ∃ st', conn_run (fun _ => true) true demo_route 3 100 (conn_init true 100)
      [RData (take 60 (demo_raw ++ demo_raw)); RData (drop 60 (demo_raw ++ demo_raw))] 3 6 0 (api_stats_init 1) =
    Some ([(Some demo_req, mkHttpRes 200 (lit "37") [], false); (Some demo_req, mkHttpRes 200 (lit "48") [], false)], 5, st') ∧
    balanced st'.
Proof.
  destruct (conn_run_pipelined (fun _ => true) demo_route 100
    [RData (take 60 (demo_raw ++ demo_raw)); RData (drop 60 (demo_raw ++ demo_raw))] 3 6 (api_stats_init 1)
    [(demo_raw, demo_req); (demo_raw, demo_req)]) as (st' & E & Hb & _).
  - reflexivity.
  - constructor; [right; by eexists _, _|]. constructor; [right; by eexists _, _|]. constructor.
  - split; reflexivity.
  - constructor; [exact demo_request|]. constructor; [exact demo_request|]. constructor.
  - vm_compute. reflexivity.
  - reflexivity.
  - reflexivity.
  - exists st'. split; [exact E|exact Hb].
Defined.

(** A header whose name only starts with Content-Length sets the length of the body. *)
Lemma content_length_prefix :
  (λ r, snd (fst r)) <$> parse_head (lit "POST / HTTP/1.1" ++ crlf ++ lit "Content-Length: 0" ++ crlf ++ lit "Content-Length-Hint: 5") =
  Some 5.
Proof. vm_compute. reflexivity. Qed.

(** A head of 8190 bytes is read when it comes in one piece, and refused when the
    network cuts it just before its end. *)
Definition long_raw : list Z := lit "GET / HTTP/1.1" ++ crlf ++ replicate 8174 (120 : Z) ++ CRLF2.

Definition status_of_read (net : Net) : option Z :=
  (λ r, fst (fst (fst (fst r)))) <$> parse_req (fun _ => true) true 100 (conn_init true 100) net.

Lemma head_limit_depends_on_chunks :
  status_of_read [RData long_raw] = Some 200 ∧
  status_of_read [RData (take 8192 long_raw); RData (drop 8192 long_raw)] = Some 413.
Proof. split; vm_compute; reflexivity. Qed.
