(* ===== verification/JsonText.v ===== *)
(** JSON values and their text: what the answers of the server are, apart from
    how [src/api/route.c] writes them.

    [jtext] is the compact text of a value.  [jread] is a reader of compact JSON
    texts that shares nothing with the server's own scanner: it decodes every
    escape, checks the form of numbers and the characters of strings, and
    nothing may be left over. *)

From Stdlib Require Import String.
From S2P Require Import Prelude CString Resp.
From stdpp Require Import base numbers list option.
Local Open Scope Z_scope.

Inductive Jv :=
| JNum (t : cstr)
| JBool (b : bool)
| JStr (s : cstr)
| JArr (vs : list Jv)
| JObj (ms : list (cstr * Jv)).

(** Texts separated by commas. *)
Fixpoint commas (ts : list cstr) : cstr :=
  match ts with
  | [] => []
  | [t] => t
  | t :: ts' => t ++ [COMMA] ++ commas ts'
  end.

Fixpoint jtext (v : Jv) : cstr :=
  match v with
  | JNum t => t
  | JBool b => if b then lit "true" else lit "false"
  | JStr s => jsn_text s
  | JArr vs => [91] ++ commas (map jtext vs) ++ [93]
  | JObj ms => [123] ++ commas (map (fun m => jsn_text (fst m) ++ [58] ++ jtext (snd m)) ms) ++ [125]
  end.

Definition JInt (n : Z) : Jv := JNum (print_Z n).

(** ** Reading *)

Definition num_char (c : Z) : bool := isdigit c || (c =? 45) || (c =? 46).

(** An integer part without leading zeros, and a fraction that is not empty. *)
Definition int_part (s : cstr) : bool :=
  match s with
  | [] => false
  | [c] => isdigit c
  | c :: s' => isdigit c && negb (c =? 48) && forallb isdigit s'
  end.

Definition unsigned_number (s : cstr) : bool :=
  match strchr s 46 with
  | None => int_part s
  | Some k => int_part (take k s) && negb (bool_decide (drop (S k) s = [])) && forallb isdigit (drop (S k) s)
  end.

Definition is_number (s : cstr) : bool :=
  match s with
  | c :: s' => if c =? 45 then unsigned_number s' else unsigned_number s
  | [] => false
  end.

(** The longest prefix of such characters. *)
Fixpoint span (p : Z → bool) (s : cstr) : cstr * cstr :=
  match s with
  | c :: s' => if p c then let '(a, r) := span p s' in (c :: a, r) else ([], s)
  | [] => ([], [])
  end.

Definition hex_val (c : Z) : option Z :=
  if isdigit c then Some (c - 48)
  else if (97 <=? c) && (c <=? 102) then Some (c - 87)
  else if (65 <=? c) && (c <=? 70) then Some (c - 55)
  else None.

Definition escape (c : Z) : option Z :=
  if (c =? DQUOTE) || (c =? BACKSLASH) || (c =? 47) then Some c
  else if c =? 110 then Some NL
  else if c =? 114 then Some CR
  else if c =? 116 then Some 9
  else if c =? 98 then Some 8
  else if c =? 102 then Some 12
  else None.

(** The characters of a string up to its closing quote; [\u] escapes of ASCII. *)
Fixpoint jchars (s : cstr) : option (cstr * cstr) :=
  match s with
  | [] => None
  | c :: s1 =>
      if c =? DQUOTE then Some ([], s1)
      else if c =? BACKSLASH then
        match s1 with
        | [] => None
        | e :: s2 =>
            if e =? 117 then
              match s2 with
              | z1 :: z2 :: h :: l :: s3 =>
                  if (z1 =? 48) && (z2 =? 48) then
                    a ← hex_val h; b ← hex_val l;
                    if 16 * a + b <? 128 then '(t, r) ← jchars s3; Some (16 * a + b :: t, r) else None
                  else None
              | _ => None
              end
            else d ← escape e; '(t, r) ← jchars s2; Some (d :: t, r)
        end
      else if c <? 32 then None
      else '(t, r) ← jchars s1; Some (c :: t, r)
  end.

Fixpoint jread (fuel : nat) (s : cstr) : option (Jv * cstr) :=
  match fuel, s with
  | S n, c :: s' =>
      if c =? DQUOTE then '(t, r) ← jchars s'; Some (JStr t, r)
      else if c =? 91 then
        match s' with
        | d :: r => if d =? 93 then Some (JArr [], r) else '(vs, r) ← jelems n s'; Some (JArr vs, r)
        | [] => None
        end
      else if c =? 123 then
        match s' with
        | d :: r => if d =? 125 then Some (JObj [], r) else '(ms, r) ← jmembers n s'; Some (JObj ms, r)
        | [] => None
        end
      else if is_prefix (lit "true") s then Some (JBool true, drop 4 s)
      else if is_prefix (lit "false") s then Some (JBool false, drop 5 s)
      else let '(t, r) := span num_char s in if is_number t then Some (JNum t, r) else None
  | _, _ => None
  end
with jelems (fuel : nat) (s : cstr) : option (list Jv * cstr) :=
  match fuel with
  | O => None
  | S n =>
      '(v, r) ← jread n s;
      match r with
      | c :: r' =>
          if c =? COMMA then '(vs, r2) ← jelems n r'; Some (v :: vs, r2)
          else if c =? 93 then Some ([v], r') else None
      | [] => None
      end
  end
with jmembers (fuel : nat) (s : cstr) : option (list (cstr * Jv) * cstr) :=
  match fuel, s with
  | S n, q :: s1 =>
      if negb (q =? DQUOTE) then None
      else
        '(k, r0) ← jchars s1;
        match r0 with
        | c0 :: r1 =>
            if negb (c0 =? 58) then None
            else
              '(v, r) ← jread n r1;
              match r with
              | c :: r' =>
                  if c =? COMMA then '(ms, r2) ← jmembers n r'; Some ((k, v) :: ms, r2)
                  else if c =? 125 then Some ([(k, v)], r') else None
              | [] => None
              end
        | [] => None
        end
  | _, _ => None
  end.

(** The whole text is one value. *)
Definition json_of (s : cstr) : option Jv :=
  match jread (S (length s)) s with Some (v, []) => Some v | _ => None end.

(** ** Values that have a text *)

Definition bytes (s : cstr) : Prop := Forall (λ c, 0 ≤ c) s.

Fixpoint jwf (v : Jv) : Prop :=
  match v with
  | JNum t => is_number t = true
  | JBool _ => True
  | JStr s => bytes s
  | JArr vs => foldr (λ v P, jwf v ∧ P) True vs
  | JObj ms => foldr (λ m P, bytes (fst m) ∧ jwf (snd m) ∧ P) True ms
  end.

(** ** Strings *)

Lemma hex_val_digit d : 0 ≤ d < 16 → hex_val (hex_digit d) = Some d.
Proof.
  unfold hex_val, hex_digit, isdigit. intros Hd. destruct (Z.ltb_spec d 10).
  - rewrite (proj2 (Z.leb_le _ _)), (proj2 (Z.leb_le _ _)) by lia. simpl. f_equal. lia.
  - rewrite (proj2 (Z.leb_gt (87 + d) 57)) by lia. rewrite andb_false_r.
    rewrite (proj2 (Z.leb_le _ _)), (proj2 (Z.leb_le _ _)) by lia. simpl. f_equal. lia.
Qed.

Lemma jchars_one c r t rest :
  0 ≤ c → jchars r = Some (t, rest) → jchars (jsn_one c ++ r) = Some (c :: t, rest).
Proof.
  unfold jsn_one, NL, CR. intros Hc Hr.
  destruct (Z.eqb_spec c DQUOTE) as [->|H1]; [simpl; by rewrite Hr|].
  destruct (Z.eqb_spec c BACKSLASH) as [->|H2]; [simpl; by rewrite Hr|]. cbn [orb].
  destruct (Z.eqb_spec c 10) as [->|]; [simpl; by rewrite Hr|]. destruct (Z.eqb_spec c 13) as [->|]; [simpl; by rewrite Hr|].
  destruct (Z.eqb_spec c 9) as [->|]; [simpl; by rewrite Hr|]. destruct (Z.ltb_spec c 32).
  - unfold fmt_u04x. cbn -[hex_digit Z.div Z.modulo Z.mul Z.add Z.ltb hex_val].
    assert (0 ≤ c / 16 < 16) by (split; [apply Z.div_pos; lia|apply Z.div_lt_upper_bound; lia]).
    pose proof (Z.mod_pos_bound c 16). rewrite !hex_val_digit by lia. cbn -[Z.div Z.modulo Z.mul Z.add Z.ltb].
    rewrite <- Z.div_mod by lia. rewrite (proj2 (Z.ltb_lt _ _)) by lia. rewrite Hr. done.
  - cbn [app jchars]. rewrite (proj2 (Z.eqb_neq _ _) H1), (proj2 (Z.eqb_neq _ _) H2), (proj2 (Z.ltb_ge _ _)) by lia.
    by rewrite Hr.
Qed.

Lemma jchars_body s rest : bytes s → jchars (jsn_body s ++ DQUOTE :: rest) = Some (s, rest).
Proof.
  induction 1 as [|c s Hc _ IH]; [done|]. change (jsn_body (c :: s)) with (jsn_one c ++ jsn_body s).
  rewrite <- (assoc_L (++)). by apply jchars_one.
Qed.

(** ** Numbers *)

Lemma isdigit_num c : isdigit c = true → num_char c = true.
Proof. unfold num_char. by intros ->. Qed.

Lemma forallb_digit_num s : forallb isdigit s = true → forallb num_char s = true.
Proof. induction s as [|c s IH]; [done|]. simpl. intros [H1 H2]%andb_prop. by rewrite isdigit_num, IH. Qed.

Lemma int_part_digits s : int_part s = true → forallb isdigit s = true ∧ ∃ c s', s = c :: s'.
Proof.
  destruct s as [|c [|d s]]; [done| |]; simpl; intros H.
  - rewrite H. split; [done|]. by exists c, [].
  - apply andb_prop in H as [H1 H2]. apply andb_prop in H1 as [H1 _]. rewrite H1. split; [done|]. by exists c, (d :: s).
Qed.

Lemma strchr_drop (s : cstr) c k : strchr s c = Some k → s = take k s ++ c :: drop (S k) s.
Proof.
  revert k; induction s as [|x s IH]; intros k; [done|]. cbn [strchr]. destruct (Z.eqb_spec x c) as [->|_].
  - by intros [= <-].
  - destruct (strchr s c) as [j|]; [|done]. intros [= <-]. simpl. f_equal. by apply IH.
Qed.

Lemma unsigned_number_chars s :
  unsigned_number s = true → forallb num_char s = true ∧ ∃ c s', s = c :: s' ∧ isdigit c = true.
Proof.
  unfold unsigned_number. destruct (strchr s 46) as [k|] eqn:E; intros H.
  - apply andb_prop in H as [H1 H2]. apply andb_prop in H1 as [H1 _]. apply strchr_drop in E.
    apply int_part_digits in H1 as (H1 & c & s' & Hc). split.
    + rewrite E, forallb_app. rewrite (forallb_digit_num _ H1). simpl. by apply forallb_digit_num.
    + rewrite E. rewrite Hc in *. exists c, (s' ++ 46 :: drop (S k) s). split; [done|]. by apply andb_prop in H1 as [? _].
  - apply int_part_digits in H as (H & c & s' & ->). split; [by apply forallb_digit_num|]. exists c, s'. split; [done|].
    by apply andb_prop in H as [? _].
Qed.

Lemma is_number_chars s :
  is_number s = true → forallb num_char s = true ∧ ∃ c s', s = c :: s' ∧ (isdigit c = true ∨ c = 45).
Proof.
  unfold is_number. destruct s as [|c s]; [done|]. destruct (Z.eqb_spec c 45) as [->|_]; intros H.
  - apply unsigned_number_chars in H as [H _]. split; [by simpl|]. exists 45, s. auto.
  - apply unsigned_number_chars in H as (H & c' & s' & [= <- <-] & Hc). split; [done|]. exists c, s. auto.
Qed.

(** What follows does not go on with the number. *)
Definition num_end (rest : cstr) : Prop := match rest with c :: _ => num_char c = false | [] => True end.

Lemma span_num t rest : forallb num_char t = true → num_end rest → span num_char (t ++ rest) = (t, rest).
Proof.
  intros Ht Hr. induction t as [|c t IH]; simpl in *.
  - destruct rest as [|c r]; [done|]. simpl in *. by rewrite Hr.
  - apply andb_prop in Ht as [-> Ht]. by rewrite IH.
Qed.

Lemma print_pos_shape f n acc :
  0 ≤ n < 2 ^ Z.of_nat f →
  ∃ ds, print_pos f n acc = ds ++ acc ∧ forallb isdigit ds = true ∧ (0 < n → ∃ d ds', ds = d :: ds' ∧ d ≠ 48) ∧ (n = 0 → f ≠ 0%nat → ds = [48]).
Proof.
  revert n acc; induction f as [|f IH]; intros n acc Hn.
  { simpl in Hn. exists []. split_and!; [done|done|lia|done]. }
  cbn [print_pos]. assert (isdigit (48 + n mod 10) = true) as Hd.
  { unfold isdigit. pose proof (Z.mod_pos_bound n 10). rewrite !(proj2 (Z.leb_le _ _)) by lia. done. }
  destruct (Z.eqb_spec (n / 10) 0) as [H0|H0].
  - exists [48 + n mod 10]. split_and!; [done|by cbn [forallb]; rewrite Hd| |].
    + intros Hp. eexists _, []. split; [done|]. assert (n mod 10 = n); [|lia]. apply Z.mod_small. apply Z.div_small_iff in H0; lia.
    + intros -> _. done.
  - rewrite Nat2Z.inj_succ, Z.pow_succ_r in Hn by lia.
    destruct (IH (n / 10) (48 + n mod 10 :: acc)) as (ds & E & E1 & E2 & _).
    { split; [apply Z.div_pos; lia|]. apply Z.div_lt_upper_bound; lia. }
    exists (ds ++ [48 + n mod 10]). split_and!.
    + rewrite E. by rewrite <- (assoc_L (++)).
    + rewrite forallb_app, E1. cbn [forallb]. by rewrite Hd.
    + intros _. destruct E2 as (d & ds' & -> & Hne); [|by eexists _, _]. assert (0 ≤ n / 10) by (apply Z.div_pos; lia). lia.
    + intros ->. done.
Qed.

Lemma strchr_digits s : forallb isdigit s = true → strchr s 46 = None.
Proof.
  induction s as [|c s IH]; [done|]. cbn [forallb strchr]. intros [H1 H2]%andb_prop.
  destruct (Z.eqb_spec c 46) as [->|_]; [done|]. by rewrite IH.
Qed.

Lemma digits_number s :
  forallb isdigit s = true → (s = [48] ∨ ∃ d s', s = d :: s' ∧ d ≠ 48) → unsigned_number s = true.
Proof.
  intros Hd Hs. unfold unsigned_number. rewrite strchr_digits by done. destruct Hs as [->|(d & s' & -> & Hne)]; [done|].
  cbn [forallb] in Hd. apply andb_prop in Hd as [H1 H2]. destruct s' as [|e s']; [by cbn|].
  cbn [int_part]. rewrite H1, (proj2 (Z.eqb_neq _ _) Hne). done.
Qed.

Lemma print_pos_number n :
  0 ≤ n → unsigned_number (print_pos (S (Z.to_nat (Z.log2 n))) n []) = true ∧
          head (print_pos (S (Z.to_nat (Z.log2 n))) n []) ≠ Some 45.
Proof.
  intros Hn. destruct (print_pos_shape (S (Z.to_nat (Z.log2 n))) n []) as (ds & -> & H1 & H2 & H3).
  { split; [done|]. rewrite Nat2Z.inj_succ, Z2Nat.id by apply Z.log2_nonneg.
    destruct (decide (n = 0)) as [->|]; [done|]. apply Z.log2_spec. lia. }
  rewrite app_nil_r. split.
  - apply digits_number; [done|]. destruct (decide (n = 0)) as [->|]; [left; by apply H3|right; apply H2; lia].
  - destruct ds as [|d ds]; [done|]. simpl. intros [= ->]. done.
Qed.

Lemma print_Z_number n : is_number (print_Z n) = true.
Proof.
  unfold print_Z. destruct (Z.ltb_spec n 0).
  - unfold is_number. rewrite Z.eqb_refl. apply print_pos_number. lia.
  - destruct (print_pos_number n) as [H1 H2]; [lia|]. unfold is_number. destruct (print_pos _ _ _) as [|c s]; [done|].
    destruct (Z.eqb_spec c 45) as [->|]; [done|exact H1].
Qed.

(** ** Reading back *)

Fixpoint jsize (v : Jv) : nat :=
  match v with
  | JNum _ | JBool _ | JStr _ => 1
  | JArr vs => S (foldr (λ v n, S (jsize v + n))%nat 0%nat vs)
  | JObj ms => S (foldr (λ m n, S (jsize (snd m) + n))%nat 0%nat ms)
  end.

Definition jsizes (vs : list Jv) : nat := foldr (λ v n, S (jsize v + n))%nat 0%nat vs.
Definition jmsizes (ms : list (cstr * Jv)) : nat := foldr (λ m n, S (jsize (snd m) + n))%nat 0%nat ms.
Definition jmtext (m : cstr * Jv) : cstr := jsn_text (fst m) ++ [58] ++ jtext (snd m).

(** The first character of a value is none that ends a list. *)
Lemma jtext_head v : jwf v → ∃ c s, jtext v = c :: s ∧ c ≠ 93 ∧ c ≠ 125.
Proof.
  destruct v as [t|b|s|vs|ms]; simpl; intros H.
  - apply is_number_chars in H as (_ & c & s & -> & Hc). exists c, s. split; [done|].
    destruct Hc as [Hc| ->]; [apply isdigit_range in Hc|]; lia.
  - destruct b; by eexists _, _.
  - by eexists _, _.
  - by eexists _, _.
  - by eexists _, _.
Qed.

Lemma commas_cons t ts : commas (t :: ts) = t ++ match ts with [] => [] | _ => COMMA :: commas ts end.
Proof. destruct ts; simpl; [by rewrite app_nil_r|done]. Qed.

Lemma commas_head v vs rest :
  jwf v → ∃ c s, commas (map jtext (v :: vs)) ++ rest = c :: s ∧ c ≠ 93.
Proof.
  intros H. apply jtext_head in H as (c & s & E & H1 & _). cbn [map]. rewrite commas_cons, E. by eexists _, _.
Qed.

Section read.
Context (n : nat).
Hypothesis IHv : ∀ v rest, jwf v → (jsize v ≤ n)%nat → num_end rest → jread n (jtext v ++ rest) = Some (v, rest).

Lemma jread_leaf_num t rest : is_number t = true → num_end rest → jread (S n) (t ++ rest) = Some (JNum t, rest).
Proof using Type.
  intros Ht Hr. pose proof (is_number_chars t Ht) as (Hc & c & s & -> & Hh). cbn [app jread].
  assert (c ≠ DQUOTE ∧ c ≠ 91 ∧ c ≠ 123 ∧ c ≠ 116 ∧ c ≠ 102) as (N1 & N2 & N3 & N4 & N5).
  { unfold DQUOTE. destruct Hh as [H| ->]; [apply isdigit_range in H|]; lia. }
  rewrite (proj2 (Z.eqb_neq _ _) N1), (proj2 (Z.eqb_neq _ _) N2), (proj2 (Z.eqb_neq _ _) N3).
  change (is_prefix (lit "true") (c :: s ++ rest)) with ((116 =? c) && is_prefix (lit "rue") (s ++ rest)).
  change (is_prefix (lit "false") (c :: s ++ rest)) with ((102 =? c) && is_prefix (lit "alse") (s ++ rest)).
  rewrite (proj2 (Z.eqb_neq 116 c)), (proj2 (Z.eqb_neq 102 c)) by done. cbn [andb].
  change (c :: s ++ rest) with ((c :: s) ++ rest). rewrite span_num by done. by rewrite Ht.
Qed.

Lemma jelems_text m vs rest :
  (∀ vs rest, jwf (JArr vs) → vs ≠ [] → (jsizes vs ≤ m)%nat → jelems m (commas (map jtext vs) ++ 93 :: rest) = Some (vs, rest)) →
  m = n →
  jwf (JArr vs) → vs ≠ [] → (jsizes vs ≤ S n)%nat → jelems (S n) (commas (map jtext vs) ++ 93 :: rest) = Some (vs, rest).
Proof using IHv.
  intros IH -> Hw Hne Hs. destruct vs as [|v vs]; [done|]. simpl in Hw. destruct Hw as [Hv Hvs].
  cbn [map]. rewrite commas_cons, <- (assoc_L (++)). cbn [jelems]. simpl in Hs.
  destruct vs as [|v2 vs].
  - rewrite IHv; [|done|lia|done]. simpl. done.
  - cbn [map app]. rewrite IHv; [|done|lia|done]. cbn [mbind option_bind]. rewrite Z.eqb_refl.
    change (jtext v2 :: map jtext vs) with (map jtext (v2 :: vs)). rewrite IH; [done|done|done|].
    unfold jsizes in *. simpl in *. lia.
Qed.

Lemma jmembers_text ms rest :
  (∀ ms rest, jwf (JObj ms) → ms ≠ [] → (jmsizes ms ≤ n)%nat → jmembers n (commas (map jmtext ms) ++ 125 :: rest) = Some (ms, rest)) →
  jwf (JObj ms) → ms ≠ [] → (jmsizes ms ≤ S n)%nat → jmembers (S n) (commas (map jmtext ms) ++ 125 :: rest) = Some (ms, rest).
Proof using IHv.
  intros IH Hw Hne Hs. destruct ms as [|[k v] ms]; [done|]. simpl in Hw. destruct Hw as (Hk & Hv & Hvs).
  cbn [map]. rewrite commas_cons, <- (assoc_L (++)). unfold jmtext at 1. cbn [fst snd].
  unfold jsn_text. cbn [app jmembers]. rewrite Z.eqb_refl. cbn [negb].
  rewrite <- !(assoc_L (++)). cbn [app]. rewrite jchars_body by done. cbn [mbind option_bind]. rewrite Z.eqb_refl. cbn [negb].
  simpl in Hs. destruct ms as [|m2 ms].
  - cbn [map app]. rewrite IHv; [|done|lia|done]. done.
  - cbn [map app]. rewrite IHv; [|done|lia|done]. cbn [mbind option_bind]. rewrite Z.eqb_refl.
    change (jmtext m2 :: map jmtext ms) with (map jmtext (m2 :: ms)). rewrite IH; [done|done|done|].
    unfold jmsizes in *. simpl in *. lia.
Qed.
End read.

Lemma jread_text n :
  (∀ v rest, jwf v → (jsize v ≤ n)%nat → num_end rest → jread n (jtext v ++ rest) = Some (v, rest)) ∧
  (∀ vs rest, jwf (JArr vs) → vs ≠ [] → (jsizes vs ≤ n)%nat → jelems n (commas (map jtext vs) ++ 93 :: rest) = Some (vs, rest)) ∧
  (∀ ms rest, jwf (JObj ms) → ms ≠ [] → (jmsizes ms ≤ n)%nat → jmembers n (commas (map jmtext ms) ++ 125 :: rest) = Some (ms, rest)).
Proof.
  induction n as [|n (IH1 & IH2 & IH3)].
  { split_and!; intros x rest Hw H; [destruct x; simpl in H; lia| |]; destruct x; try done; simpl; lia. }
  split_and!; [|by intros; eapply jelems_text|by intros; apply jmembers_text].
  intros v rest Hw Hs Hr. destruct v as [t|b|s|vs|ms].
  - by apply jread_leaf_num.
  - by destruct b.
  - cbn [jtext]. unfold jsn_text. cbn [app jread]. rewrite Z.eqb_refl, <- (assoc_L (++)). cbn [app]. by rewrite jchars_body.
  - cbn [jtext app jread]. change (91 =? DQUOTE) with false. change (91 =? 91) with true. cbv iota.
    rewrite <- (assoc_L (++)). cbn [app]. destruct vs as [|v vs]; [done|].
    destruct (commas_head v vs (93 :: rest)) as (c & s & E & Hc); [by destruct Hw|].
    rewrite E, (proj2 (Z.eqb_neq _ _) Hc), <- E. rewrite IH2; [done|done|done|]. simpl in *. unfold jsizes. simpl. lia.
  - cbn [jtext app jread]. change (123 =? DQUOTE) with false. change (123 =? 91) with false. change (123 =? 123) with true. cbv iota.
    rewrite <- (assoc_L (++)). cbn [app]. destruct ms as [|m ms]; [done|].
    change (map _ (m :: ms)) with (map jmtext (m :: ms)).
    assert (∃ s, commas (map jmtext (m :: ms)) ++ 125 :: rest = DQUOTE :: s) as (s & E).
    { cbn [map]. rewrite commas_cons. unfold jmtext at 1, jsn_text. by eexists. }
    rewrite E. change (DQUOTE =? 125) with false. cbv iota. rewrite <- E. rewrite IH3; [done|done|done|].
    simpl in *. unfold jmsizes. simpl. lia.
Qed.

Lemma jsize_length : ∀ v, jwf v → (jsize v ≤ length (jtext v))%nat.
Proof.
  fix IH 1. intros [t|b|s|vs|ms] Hw.
  - simpl. destruct (is_number_chars t Hw) as (_ & c & s & -> & _). simpl. lia.
  - destruct b; simpl; lia.
  - simpl. lia.
  - cbn [jtext jsize]. fold (jsizes vs). rewrite !length_app. cbn [length].
    assert (jsizes vs ≤ S (length (commas (map jtext vs))))%nat; [|lia].
    induction vs as [|v vs IHvs]; [simpl; lia|]. simpl in Hw. destruct Hw as [Hv Hw]. specialize (IHvs Hw).
    cbn [map]. rewrite commas_cons. specialize (IH v Hv). unfold jsizes in *. simpl. rewrite length_app.
    destruct vs as [|v2 vs]; simpl in *; lia.
  - cbn [jtext jsize]. fold (jmsizes ms). rewrite !length_app. cbn [length].
    change (map _ ms) with (map jmtext ms).
    assert (jmsizes ms ≤ S (length (commas (map jmtext ms))))%nat; [|lia].
    induction ms as [|[k v] ms IHms]; [simpl; lia|]. simpl in Hw. destruct Hw as (_ & Hv & Hw). specialize (IHms Hw).
    cbn [map]. rewrite commas_cons. specialize (IH v Hv). unfold jmsizes in *. simpl. rewrite length_app. unfold jmtext at 1.
    rewrite !length_app. cbn [fst snd]. destruct ms as [|m2 ms]; simpl in *; lia.
Qed.

(** A text is read back as the value it is the text of. *)
Lemma json_of_text v : jwf v → json_of (jtext v) = Some v.
Proof.
  intros Hw. unfold json_of. pose proof (jsize_length v Hw).
  pose proof (proj1 (jread_text (S (length (jtext v)))) v [] Hw) as E. rewrite app_nil_r in E.
  rewrite E; [done|lia|done].
Qed.

Lemma JInt_wf n : jwf (JInt n).
Proof. apply print_Z_number. Qed.
