(* ===== verification/Render.v ===== *)
(** The answers of [src/api/route.c]: how statuses, errors and results are
    written as JSON, and the JSON values that come out.

    An operation on a buffer is a value of [Op]; a chain of tests
    [!buf_put(...) || !buf_jsn(...)] is [all_of] of its operations.  [realloc_ok]
    says which sizes a buffer can get.  An answer that could not be built for
    lack of memory leaves the response as it was, empty ([res0]). *)

From Stdlib Require Import String.
From S2P Require Import Prelude CString Mvcc Parser Values Table Pool QueryCache Stats Resp JsonText.
From stdpp Require Import base numbers list option.
Local Open Scope Z_scope.

Abbreviation Op := (Buf → option (bool * Buf)).

(** ** Statuses *)

(** [status_of]: the statuses this server knows. *)
Definition status_of (code : Z) : Z :=
  if code =? 200 then 200
  else if code =? 201 then 201
  else if code =? 400 then 400
  else if code =? 404 then 404
  else if code =? 405 then 405
  else if code =? 413 then 413
  else if code =? 429 then 429
  else if code =? 503 then 503
  else 500.

(** [http_of]: the status of an error of the database or the interface. *)
Definition http_of (code : cstr) : Z :=
  match code with
  | [] => 500
  | _ =>
      if streq code (lit "NO_ROUTE") then 404
      else if streq code (lit "BAD_METH") then 405
      else if streq code (lit "TOO_BIG") then 413
      else if streq code (lit "TOO_MANY") then 429
      else if streq code (lit "Q_FULL") then 503
      else if streq code (lit "INT_ERR") then 500
      else if streq code (lit "OOM") then 500
      else 400
  end.

Definition cache_reason_of (r : MissReason) : cstr :=
  match r with
  | MISS_TTL_EXPIRED => lit "ttl_expired"
  | MISS_VERSION_CHANGED => lit "version_changed"
  | _ => lit "no_entry"
  end.

(** The response before a handler fills it. *)
Definition res0 : HttpRes := mkHttpRes 0 [] [].

Section render.
Context (realloc_ok : Z → bool).

Let put (t : cstr) : Op := fun b => buf_put realloc_ok b t.
Let chr (c : Z) : Op := fun b => buf_chr realloc_ok b c.
Let fmt (t : cstr) : Op := fun b => buf_fmt realloc_ok b t.
Let jsn (t : cstr) : Op := fun b => buf_jsn realloc_ok b t.

(** A handler's last part: build the body in a new buffer, then [res_set]. *)
Definition answer (code : Z) (ops : list Op) : option HttpRes :=
  let* (ok, b) := all_of ops buf_init in
  Some (if (ok : bool) then fst (res_set code b) else res0).

Definition err_res (http : Z) (code msg req_id : cstr) : option HttpRes :=
  answer (status_of http)
    [put (qlit "{`ok`:false,`err`:{`code`:"); jsn code; put (qlit ",`msg`:"); jsn msg;
     put (qlit "},`meta`:{`req_id`:"); jsn req_id; put (lit "}}")].

(** ** Results *)

(** [if (i > 0 && !buf_chr(buf, ',')) return 0]. *)
Definition sep (i : nat) : list Op := if (0 <? i)%nat then [chr COMMA] else [].

Definition add_obj (obj : DbObj) : Op :=
  all_of (chr 123 :: concat (imap (fun i c => sep i ++ [jsn (fst c); chr 58; jsn (snd c)]) obj) ++ [chr 125]).

Definition add_rows (res : DbRes) : Op :=
  all_of (chr 91 :: concat (imap (fun i o => sep i ++ [add_obj o]) (res_rows res)) ++ [chr 93]).

Definition add_one (res : DbRes) : Op :=
  match res_rows res with
  | [] => put (lit "{}")
  | o :: _ => add_obj o
  end.

Definition sql_data (dres : DbRes) : Op :=
  all_of ([chr 123; put (qlit "`rows`:"); add_rows dres; fmt (qlit ",`count`:" ++ print_Z (count dres))] ++
          (if 0 <? last_id dres then [fmt (qlit ",`last_id`:" ++ print_Z (last_id dres))] else []) ++
          [chr 125]).

(** [sql_data_dump]: the text, or [None] inside when memory runs out. *)
Definition sql_data_dump (dres : DbRes) : option (option cstr) :=
  let* (ok, b) := sql_data dres buf_init in Some (if (ok : bool) then Some (buf b) else None).

(** The part of [sql_ok_data] that copies the data with its own growth loop,
    which asks for the same sizes as [buf_grow]. *)
Definition put_data (data : cstr) : Op :=
  fun b => match data with
           | [] => Some (true, b)
           | _ => and_then (buf_grow realloc_ok b (Z.of_nat (length data)))
                    (fun b1 => Some (true, mkBuf (buf b1 ++ data) (cap b1)))
           end.

Definition sql_ok_data (req_id data : cstr) (tid lat_ms lat_us : Z) (cache_status cache_reason : cstr) : option HttpRes :=
  answer 200
    [put (qlit "{`ok`:true,`data`:"); put_data data; put (qlit ",`meta`:{`req_id`:"); jsn req_id;
     fmt (qlit ",`thr_id`:" ++ print_Z tid ++ qlit ",`lat_ms`:" ++ print_Z lat_ms ++ qlit ",`lat_us`:" ++ print_Z lat_us ++
          qlit ",`cache`:{`status`:");
     jsn cache_status; put (qlit ",`reason`:"); jsn cache_reason; put (lit "}}}")].

Definition sql_ok (req_id : cstr) (dres : DbRes) (tid lat_ms lat_us : Z) (cache_status cache_reason : cstr) : option HttpRes :=
  let* data := sql_data_dump dres in
  match data with
  | None => Some res0
  | Some d => sql_ok_data req_id d tid lat_ms lat_us cache_status cache_reason
  end.

Definition batch_ok (req_id : cstr) (resv : list DbRes) (lat_ms : Z) : option HttpRes :=
  answer 200
    ([put (qlit "{`ok`:true,`data`:{`results`:[")] ++
     concat (imap (fun i r => sep i ++ [put (qlit "{`rows`:"); add_rows r; fmt (qlit ",`count`:" ++ print_Z (count r) ++ lit "}")]) resv) ++
     [put (lit "]"); put (qlit "},`meta`:{`req_id`:"); jsn req_id; fmt (qlit ",`lat_ms`:" ++ print_Z lat_ms ++ lit "}}")]).

(** The loop of [tx_res]: the statements before the first that failed, and its
    number, or 0. *)
Fixpoint tx_fail (resv : list DbRes) (i : Z) : Z * Z :=
  match resv with
  | [] => (0, 0)
  | r :: rs =>
      match err_code r with
      | [] => let '(done, fail_at) := tx_fail rs (i + 1) in (done + 1, fail_at)
      | _ => (0, i + 1)
      end
  end.

Definition tx_res (req_id : cstr) (resv : list DbRes) (lat_ms : Z) (ok : bool) : option HttpRes :=
  if ok then batch_ok req_id resv lat_ms
  else
    let '(done, fail_at) := tx_fail resv 0 in
    answer 400
      [put (qlit "{`ok`:false,`err`:{`code`:`TX_ABORT`,`msg`:`query failed, rollback completed`},`data`:{");
       fmt (qlit "`done`:" ++ print_Z done ++ qlit ",`fail_at`:" ++ print_Z fail_at);
       put (qlit "},`meta`:{`req_id`:"); jsn req_id; fmt (qlit ",`lat_ms`:" ++ print_Z lat_ms ++ lit "}}")].

(** ** Health and metrics *)

Definition do_health (req_id : cstr) : option HttpRes :=
  answer 200 [put (qlit "{`ok`:true,`data`:{`status`:`up`},`meta`:{`req_id`:"); jsn req_id; put (lit "}}")].

Definition fmt_pool (p : PoolSt) : cstr :=
  qlit "{`size`:" ++ print_Z (st_size p) ++ qlit ",`active`:" ++ print_Z (st_active p) ++
  qlit ",`queued`:" ++ print_Z (st_queued p) ++ qlit ",`done`:" ++ print_Z (st_done p) ++ lit "}".

(** [do_mst] on what it reads; [up] is the uptime. *)
Definition do_mst (req_id : cstr) (ap dp : PoolSt) (mst : MvStat) (up : Z) (st : Stats) : option HttpRes :=
  answer 200
    [fmt (qlit "{`ok`:true,`data`:{`api_pool`:" ++ fmt_pool ap ++ qlit ",`db_pool`:" ++ fmt_pool dp ++
          qlit ",`mvcc`:{`tx_live`:" ++ print_Z (tx_live mst) ++ qlit ",`snap_min`:" ++ print_Z (snap_min_out mst) ++
          qlit ",`ver_now`:" ++ print_Z (ver_now mst) ++ qlit ",`gc_wait`:" ++ print_Z (gc_wait mst) ++
          qlit "},`http`:{`uptime_ms`:" ++ print_Z up ++ qlit ",`total_requests`:" ++ print_Z (total_requests st) ++
          qlit ",`inflight_requests`:" ++ print_Z (inflight_requests st) ++
          qlit ",`ok_responses`:" ++ print_Z (ok_responses st) ++ qlit ",`error_responses`:" ++ print_Z (error_responses st) ++
          qlit ",`status_503`:" ++ print_Z (status_503 st) ++ qlit ",`keep_alive_reuse`:" ++ print_Z (keep_alive_reuse st) ++
          qlit "},`cache`:{`hits`:" ++ print_Z (cache_hits st) ++ qlit ",`misses`:" ++ print_Z (cache_misses st) ++
          qlit "},`timing_ns`:{`parse`:" ++ print_Z (parse_ns st) ++ qlit ",`lock_wait`:" ++ print_Z (lock_wait_ns st) ++
          qlit ",`engine`:" ++ print_Z (engine_ns st) ++ qlit ",`json`:" ++ print_Z (json_ns st) ++
          qlit ",`send`:" ++ print_Z (send_ns st) ++ qlit "}},`meta`:{`req_id`:");
     jsn req_id; put (lit "}}")].

(** ** The page *)

Definition PAGE_QUERY_COUNT : nat := 4.
Definition PAGE_DELAY_MS_MAX : Z := 200.
Definition PAGE_WORKERS_MIN : Z := 1.
Definition PAGE_WORKERS_MAX : Z := 4.

Inductive PageMode := PAGE_MODE_PARALLEL | PAGE_MODE_SEQUENTIAL | PAGE_MODE_COMPARE.

(** A read handed to the database pool; [srv], [snap], [mu] and [cv] of the
    struct are arguments of the functions that run it. *)
Record QJob := mkQJob {
  q_sql : cstr;
  q_name : cstr;
  q_res : DbRes;
  q_done : bool;
  q_rc : Z;
  q_tid : Z;
  q_start_ms : Z;
  q_lat_ms : Z;
  q_base_ms : Z;
  q_delay_ms : Z;
}.

Record PageRunMetrics := mkMetrics { total_ms : Z; sum_lat_ms : Z }.

Definition q_result (js : list QJob) (i : nat) : DbRes :=
  match js !! i with Some j => q_res j | None => res_clr end.

Definition add_page_data (js : list QJob) : Op :=
  all_of [put (qlit "{`restaurants`:"); add_rows (q_result js 0); put (qlit ",`order`:"); add_one (q_result js 1);
          put (qlit ",`coupons`:"); add_rows (q_result js 2); put (qlit ",`cart`:"); add_one (q_result js 3); chr 125].

Definition q_ok (j : QJob) : bool := (q_rc j =? 0) && bool_decide (err_code (q_res j) = []).

Definition add_page_trace (js : list QJob) : Op :=
  all_of (chr 91 ::
    concat (imap (fun i j => sep i ++
      [put (qlit "{`name`:"); jsn (q_name j);
       fmt (qlit ",`thr_id`:" ++ print_Z (q_tid j) ++ qlit ",`start_ms`:" ++ print_Z (q_start_ms j) ++
            qlit ",`lat_ms`:" ++ print_Z (q_lat_ms j) ++ qlit ",`ok`:" ++ (if q_ok j then lit "true" else lit "false") ++ lit "}")]) js) ++
    [chr 93]).

(** The sum of four [long]s. *)
Definition page_sum_lat (js : list QJob) : Z := foldl (fun sum j => sum + q_lat_ms j) 0 js.

Definition page_single_res (req_id : cstr) (mode : PageMode) (delay_ms workers : Z) (js : list QJob) (m : PageRunMetrics)
    : option HttpRes :=
  let mode_name := match mode with PAGE_MODE_SEQUENTIAL => lit "sequential" | _ => lit "parallel" end in
  answer 200
    [put (qlit "{`ok`:true,`data`:"); add_page_data js; put (qlit ",`trace`:"); add_page_trace js;
     put (qlit ",`meta`:{`req_id`:"); jsn req_id; put (qlit ",`mode`:"); jsn mode_name;
     fmt (qlit ",`delay_ms`:" ++ print_Z delay_ms ++ qlit ",`workers`:" ++ print_Z workers ++
          qlit ",`sum_lat_ms`:" ++ print_Z (sum_lat_ms m) ++ qlit ",`total_ms`:" ++ print_Z (total_ms m) ++ lit "}}")].

(** Division rounded to the nearest integer, ties to even. *)
Definition div_even (n d : Z) : Z :=
  let q := n / d in
  let r := n mod d in
  if 2 * r <? d then q else if d <? 2 * r then q + 1 else if Z.even q then q else q + 1.

(** The [double] nearest to [n / d], as a fraction. *)
Definition to_double (n d : Z) : Z * Z :=
  if n =? 0 then (0, 1)
  else
    let scale k := if 0 <=? k then (n * 2 ^ k, d) else (n, d * 2 ^ (- k)) in
    let k0 := 52 - (Z.log2 n - Z.log2 d) in
    let k := if fst (scale k0) <? 2 ^ 52 * snd (scale k0) then k0 + 1 else k0 in
    let m := div_even (fst (scale k)) (snd (scale k)) in
    if 0 <=? k then (m, 2 ^ k) else (m * 2 ^ (- k), 1).

(** [%.1f] of [(double)n / (double)d], for [0 < d]. *)
Definition fmt_ratio (n d : Z) : cstr :=
  let '(a, a') := to_double (Z.abs n) 1 in
  let '(b, b') := to_double d 1 in
  let '(q, q') := to_double (a * b') (a' * b) in
  let t := div_even (10 * q) q' in
  (if n <? 0 then lit "-" else []) ++ print_Z (t / 10) ++ lit "." ++ print_Z (t mod 10).

Definition speedup (seq_ms par_ms : Z) : cstr := if 0 <? par_ms then fmt_ratio seq_ms par_ms else lit "0.0".

Definition page_compare_res (req_id : cstr) (delay_ms workers : Z) (sjs : list QJob) (sm : PageRunMetrics)
    (pjs : list QJob) (pm : PageRunMetrics) : option HttpRes :=
  let fmt_metrics m := qlit ",`sum_lat_ms`:" ++ print_Z (sum_lat_ms m) ++ qlit ",`total_ms`:" ++ print_Z (total_ms m) ++ lit "}," in
  answer 200
    [put (qlit "{`ok`:true,`data`:{`sequential`:{`trace`:"); add_page_trace sjs; fmt (fmt_metrics sm);
     put (qlit "`parallel`:{`trace`:"); add_page_trace pjs; fmt (fmt_metrics pm);
     fmt (qlit "`speedup`:" ++ speedup (total_ms sm) (total_ms pm) ++ qlit "},`meta`:{`req_id`:"); jsn req_id;
     fmt (qlit ",`mode`:`compare`,`delay_ms`:" ++ print_Z delay_ms ++ qlit ",`workers`:" ++ print_Z workers ++ lit "}}")].
End render.

Example speedup_1 : speedup 25 10 = lit "2.5".
Proof. vm_compute. reflexivity. Qed.

Example speedup_2 : speedup 1 3 = lit "0.3".
Proof. vm_compute. reflexivity. Qed.

(** A tie of the decimals that the [double] breaks. *)
Example speedup_3 : (speedup 1 4, speedup 7 20, speedup (-1) 100) = (lit "0.2", lit "0.3", lit "-0.0").
Proof. vm_compute. reflexivity. Qed.
