(* ===== verification/RenderProofs.v ===== *)
(** Every answer is the text of a JSON value that holds exactly what it was built
    from. *)

From Stdlib Require Import String.
From S2P Require Import Prelude CString Mvcc Parser Values Table Pool QueryCache Stats Resp JsonText Render.
From stdpp Require Import base numbers list option.
Local Open Scope Z_scope.

(** ** Chains of operations *)

Lemma and_then_assoc r k1 k2 : and_then (and_then r k1) k2 = and_then r (fun b => and_then (k1 b) k2).
Proof. by destruct r as [[[] b]|]. Qed.

Lemma all_of_app ops1 ops2 b : all_of (ops1 ++ ops2) b = and_then (all_of ops1 b) (all_of ops2).
Proof.
  revert b; induction ops1 as [|op ops IH]; intros b; [done|]. cbn [app all_of]. rewrite and_then_assoc.
  destruct (op b) as [[[] b1]|]; simpl; [apply IH|done|done].
Qed.

Lemma writes_app rok ops1 ops2 t1 t2 :
  writes rok (all_of ops1) t1 → writes rok (all_of ops2) t2 → writes rok (all_of (ops1 ++ ops2)) (t1 ++ t2).
Proof. intros H1 H2 b Hok Hs. rewrite all_of_app. by apply writes_then. Qed.

Lemma writes_one rok op t : writes rok op t → writes rok (all_of [op]) t.
Proof. intros H. rewrite <- (app_nil_r t). apply writes_cons; [done|apply writes_all_nil]. Qed.

Section render.
Context (realloc_ok : Z → bool).

Lemma writes_tail {A} (f : A → list Op) (g : A → cstr) n l :
  Forall (λ x, writes realloc_ok (all_of (f x)) (g x)) l →
  writes realloc_ok (all_of (concat (imap (fun i x => sep realloc_ok (S (n + i)) ++ f x) l)))
         (match map g l with [] => [] | _ => COMMA :: commas (map g l) end).
Proof.
  intros H. revert n; induction H as [|x l Hx _ IH]; intros n; [apply writes_all_nil|].
  cbn [imap concat map]. rewrite commas_cons.
  change (COMMA :: g x ++ ?r) with ((COMMA :: g x) ++ r). apply writes_app.
  - change (COMMA :: g x) with ([COMMA] ++ g x). rewrite Nat.add_0_r. apply writes_cons; [apply writes_chr|done].
  - specialize (IH (S n)). erewrite (imap_ext _ (fun i x => sep realloc_ok (S (S n + i)) ++ f x)).
    + destruct l; [apply IH|]. exact IH.
    + intros i y _. by replace (S n + i)%nat with (n + S i)%nat by lia.
Qed.

(** A loop that puts commas between its items. *)
Lemma writes_list {A} (f : A → list Op) (g : A → cstr) l :
  Forall (λ x, writes realloc_ok (all_of (f x)) (g x)) l →
  writes realloc_ok (all_of (concat (imap (fun i x => sep realloc_ok i ++ f x) l))) (commas (map g l)).
Proof.
  destruct l as [|x l]; intros H; [apply writes_all_nil|]. apply Forall_cons_1 in H as [Hx H].
  cbn [imap concat map]. rewrite commas_cons. apply writes_app; [done|].
  apply (writes_tail f g 0) in H. simpl in H. destruct l; [apply H|exact H].
Qed.

(** A list of any kind between its brackets. *)
Lemma writes_bracket {A} (f : A → list Op) (g : A → cstr) l a z :
  Forall (λ x, writes realloc_ok (all_of (f x)) (g x)) l →
  writes realloc_ok (all_of ((fun b => buf_chr realloc_ok b a) :: concat (imap (fun i x => sep realloc_ok i ++ f x) l) ++
                  [fun b => buf_chr realloc_ok b z])) ([a] ++ commas (map g l) ++ [z]).
Proof.
  intros H. apply writes_cons; [apply writes_chr|]. apply writes_app; [by apply writes_list|]. apply writes_one, writes_chr.
Qed.

(** ** Results *)

Definition jv_obj (o : DbObj) : Jv := JObj (map (fun c => (fst c, JStr (snd c))) o).
Definition jv_rows (r : DbRes) : Jv := JArr (map jv_obj (res_rows r)).
Definition jv_one (r : DbRes) : Jv := match res_rows r with [] => JObj [] | o :: _ => jv_obj o end.

Definition jv_data (r : DbRes) : Jv :=
  JObj ([(lit "rows", jv_rows r); (lit "count", JInt (count r))] ++
        if 0 <? last_id r then [(lit "last_id", JInt (last_id r))] else []).

Lemma writes_obj o : writes realloc_ok (add_obj realloc_ok o) (jtext (jv_obj o)).
Proof.
  unfold add_obj, jv_obj. cbn [jtext]. rewrite map_map. cbn [fst snd]. apply writes_bracket. apply Forall_forall. intros [k v] _.
  cbn [fst snd jtext]. rewrite <- (app_nil_r (jsn_text v)). repeat (apply writes_cons; [auto with writes|]). apply writes_all_nil.
Qed.

Lemma writes_rows r : writes realloc_ok (add_rows realloc_ok r) (jtext (jv_rows r)).
Proof.
  unfold add_rows, jv_rows. cbn [jtext]. rewrite map_map. apply writes_bracket. apply Forall_forall. intros o _.
  apply writes_one, writes_obj.
Qed.

Lemma writes_row1 r : writes realloc_ok (add_one realloc_ok r) (jtext (jv_one r)).
Proof. unfold add_one, jv_one. destruct (res_rows r); [apply writes_put|apply writes_obj]. Qed.
End render.

#[export] Hint Resolve writes_obj writes_rows writes_row1 : writes.

(** [solve_writes]: a fixed chain of operations writes the text of a value. *)
Ltac solve_writes :=
  eapply writes_eq; [repeat (eapply writes_cons; [solve [eauto with writes]|]); apply writes_all_nil|];
  cbn [jtext map fst snd commas]; rewrite <- ?(assoc_L (++)); try reflexivity.

Lemma writes_data rok r : writes rok (sql_data rok r) (jtext (jv_data r)).
Proof.
  unfold sql_data, jv_data. destruct (0 <? last_id r); cbn [app]; solve_writes.
Qed.

Lemma writes_put_data rok d : writes rok (put_data rok d) d.
Proof. destruct d as [|c d]; [apply writes_nil|apply writes_put]. Qed.

#[export] Hint Resolve writes_data writes_put_data : writes.

(** ** Answers *)

(** The response is the JSON value [v]. *)
Definition is_json (v : Jv) (code : Z) (res : HttpRes) : Prop :=
  Resp.code res = code ∧ body res = jtext v ∧ json_of (body res) = Some v ∧ content_type res = lit "application/json".

(** The handler returns; without memory the response stays empty, else it is the
    value. *)
Definition answers_json (rok : Z → bool) (v : Jv) (code : Z) (r : option HttpRes) : Prop :=
  ∃ res, r = Some res ∧ (is_json v code res ∨ res = res0) ∧ ((∀ n, rok n = true) → is_json v code res).

Lemma answer_spec rok code ops v :
  writes rok (all_of ops) (jtext v) → jwf v → Z.of_nat (length (jtext v)) + 1 ≤ SMALL →
  answers_json rok v code (answer code ops).
Proof.
  intros H Hw Hs. destruct (writes_init rok _ _ H Hs) as (ok & b & E & _ & Ht & Hb). unfold answer. rewrite E.
  assert (ok = true → is_json v code (fst (res_set code b))) as Hj.
  { intros Hok. specialize (Hb Hok). unfold is_json, res_set, res_set_ct. cbn [fst body]. rewrite Hb. split_and!; try done.
    by apply json_of_text. }
  eexists. split; [done|]. split; [|intros Hall; rewrite (Ht Hall); by apply Hj, Ht].
  destruct ok; [left; by apply Hj|by right].
Qed.

(** ** Which value *)

Definition jv_str (s : string) : Jv := JStr (lit s).

Definition jv_err (code msg req_id : cstr) : Jv :=
  JObj [(lit "ok", JBool false); (lit "err", JObj [(lit "code", JStr code); (lit "msg", JStr msg)]);
        (lit "meta", JObj [(lit "req_id", JStr req_id)])].

Definition jv_sql (data : Jv) (req_id : cstr) (tid lat_ms lat_us : Z) (cache_status cache_reason : cstr) : Jv :=
  JObj [(lit "ok", JBool true); (lit "data", data);
        (lit "meta", JObj [(lit "req_id", JStr req_id); (lit "thr_id", JInt tid); (lit "lat_ms", JInt lat_ms);
                           (lit "lat_us", JInt lat_us);
                           (lit "cache", JObj [(lit "status", JStr cache_status); (lit "reason", JStr cache_reason)])])].

Definition jv_batch (req_id : cstr) (resv : list DbRes) (lat_ms : Z) : Jv :=
  JObj [(lit "ok", JBool true);
        (lit "data", JObj [(lit "results", JArr (map (fun r => JObj [(lit "rows", jv_rows r); (lit "count", JInt (count r))]) resv))]);
        (lit "meta", JObj [(lit "req_id", JStr req_id); (lit "lat_ms", JInt lat_ms)])].

Definition jv_tx_abort (req_id : cstr) (done fail_at lat_ms : Z) : Jv :=
  JObj [(lit "ok", JBool false);
        (lit "err", JObj [(lit "code", jv_str "TX_ABORT"); (lit "msg", jv_str "query failed, rollback completed")]);
        (lit "data", JObj [(lit "done", JInt done); (lit "fail_at", JInt fail_at)]);
        (lit "meta", JObj [(lit "req_id", JStr req_id); (lit "lat_ms", JInt lat_ms)])].

Definition jv_health (req_id : cstr) : Jv :=
  JObj [(lit "ok", JBool true); (lit "data", JObj [(lit "status", jv_str "up")]); (lit "meta", JObj [(lit "req_id", JStr req_id)])].

Definition jv_page_data (js : list QJob) : Jv :=
  JObj [(lit "restaurants", jv_rows (q_result js 0)); (lit "order", jv_one (q_result js 1));
        (lit "coupons", jv_rows (q_result js 2)); (lit "cart", jv_one (q_result js 3))].

Definition jv_trace (js : list QJob) : Jv :=
  JArr (map (fun j => JObj [(lit "name", JStr (q_name j)); (lit "thr_id", JInt (q_tid j)); (lit "start_ms", JInt (q_start_ms j));
                            (lit "lat_ms", JInt (q_lat_ms j)); (lit "ok", JBool (q_ok j))]) js).

Definition mode_name (mode : PageMode) : cstr := match mode with PAGE_MODE_SEQUENTIAL => lit "sequential" | _ => lit "parallel" end.

Definition jv_page (req_id : cstr) (mode : PageMode) (delay_ms workers : Z) (js : list QJob) (m : PageRunMetrics) : Jv :=
  JObj [(lit "ok", JBool true); (lit "data", jv_page_data js); (lit "trace", jv_trace js);
        (lit "meta", JObj [(lit "req_id", JStr req_id); (lit "mode", JStr (mode_name mode)); (lit "delay_ms", JInt delay_ms);
                           (lit "workers", JInt workers); (lit "sum_lat_ms", JInt (sum_lat_ms m)); (lit "total_ms", JInt (total_ms m))])].

Definition jv_run (js : list QJob) (m : PageRunMetrics) : Jv :=
  JObj [(lit "trace", jv_trace js); (lit "sum_lat_ms", JInt (sum_lat_ms m)); (lit "total_ms", JInt (total_ms m))].

Definition jv_compare (req_id : cstr) (delay_ms workers : Z) (sjs : list QJob) (sm : PageRunMetrics) (pjs : list QJob) (pm : PageRunMetrics) : Jv :=
  JObj [(lit "ok", JBool true);
        (lit "data", JObj [(lit "sequential", jv_run sjs sm); (lit "parallel", jv_run pjs pm);
                           (lit "speedup", JNum (speedup (total_ms sm) (total_ms pm)))]);
        (lit "meta", JObj [(lit "req_id", JStr req_id); (lit "mode", jv_str "compare"); (lit "delay_ms", JInt delay_ms);
                           (lit "workers", JInt workers)])].

Definition jv_pool (p : PoolSt) : Jv :=
  JObj [(lit "size", JInt (st_size p)); (lit "active", JInt (st_active p)); (lit "queued", JInt (st_queued p)); (lit "done", JInt (st_done p))].

Definition jv_metrics (req_id : cstr) (ap dp : PoolSt) (mst : MvStat) (up : Z) (st : Stats) : Jv :=
  JObj [(lit "ok", JBool true);
        (lit "data", JObj
          [(lit "api_pool", jv_pool ap); (lit "db_pool", jv_pool dp);
           (lit "mvcc", JObj [(lit "tx_live", JInt (tx_live mst)); (lit "snap_min", JInt (snap_min_out mst));
                              (lit "ver_now", JInt (ver_now mst)); (lit "gc_wait", JInt (gc_wait mst))]);
           (lit "http", JObj [(lit "uptime_ms", JInt up); (lit "total_requests", JInt (total_requests st));
                              (lit "inflight_requests", JInt (inflight_requests st)); (lit "ok_responses", JInt (ok_responses st));
                              (lit "error_responses", JInt (error_responses st)); (lit "status_503", JInt (status_503 st));
                              (lit "keep_alive_reuse", JInt (keep_alive_reuse st))]);
           (lit "cache", JObj [(lit "hits", JInt (cache_hits st)); (lit "misses", JInt (cache_misses st))]);
           (lit "timing_ns", JObj [(lit "parse", JInt (parse_ns st)); (lit "lock_wait", JInt (lock_wait_ns st));
                                   (lit "engine", JInt (engine_ns st)); (lit "json", JInt (json_ns st)); (lit "send", JInt (send_ns st))])]);
        (lit "meta", JObj [(lit "req_id", JStr req_id)])].

(** ** The operations write them *)

Lemma err_res_writes rok http code msg id :
  jwf (jv_err code msg id) → Z.of_nat (length (jtext (jv_err code msg id))) + 1 ≤ SMALL →
  answers_json rok (jv_err code msg id) (status_of http) (err_res rok http code msg id).
Proof. intros Hw Hs. apply answer_spec; [|done|done]. unfold jv_err. solve_writes. Qed.

Lemma sql_ok_data_writes rok id data tid ms us cs cr :
  jwf (jv_sql data id tid ms us cs cr) → Z.of_nat (length (jtext (jv_sql data id tid ms us cs cr))) + 1 ≤ SMALL →
  answers_json rok (jv_sql data id tid ms us cs cr) 200 (sql_ok_data rok id (jtext data) tid ms us cs cr).
Proof. intros Hw Hs. apply answer_spec; [|done|done]. unfold jv_sql. solve_writes. Qed.

Lemma tx_abort_writes rok id resv ms :
  let '(d, f) := tx_fail resv 0 in
  jwf (jv_tx_abort id d f ms) → Z.of_nat (length (jtext (jv_tx_abort id d f ms))) + 1 ≤ SMALL →
  answers_json rok (jv_tx_abort id d f ms) 400 (tx_res rok id resv ms false).
Proof.
  unfold tx_res. destruct (tx_fail resv 0) as [d f]. intros Hw Hs. apply answer_spec; [|done|done].
  unfold jv_tx_abort. solve_writes.
Qed.

Lemma health_writes rok id :
  jwf (jv_health id) → Z.of_nat (length (jtext (jv_health id))) + 1 ≤ SMALL →
  answers_json rok (jv_health id) 200 (do_health rok id).
Proof. intros Hw Hs. apply answer_spec; [|done|done]. unfold jv_health. solve_writes. Qed.

Lemma metrics_writes rok id ap dp mst up st :
  jwf (jv_metrics id ap dp mst up st) → Z.of_nat (length (jtext (jv_metrics id ap dp mst up st))) + 1 ≤ SMALL →
  answers_json rok (jv_metrics id ap dp mst up st) 200 (do_mst rok id ap dp mst up st).
Proof. intros Hw Hs. apply answer_spec; [|done|done]. unfold jv_metrics, fmt_pool, jv_pool. solve_writes. Qed.

(** One result of a batch. *)
Definition jv_result (r : DbRes) : Jv := JObj [(lit "rows", jv_rows r); (lit "count", JInt (count r))].

Lemma batch_writes rok id resv ms :
  jwf (jv_batch id resv ms) → Z.of_nat (length (jtext (jv_batch id resv ms))) + 1 ≤ SMALL →
  answers_json rok (jv_batch id resv ms) 200 (batch_ok rok id resv ms).
Proof.
  intros Hw Hs. apply answer_spec; [|done|done]. eapply writes_eq.
  - eapply writes_app; [|eapply writes_app]; [| |repeat (eapply writes_cons; [solve [eauto with writes]|]); apply writes_all_nil].
    + apply writes_one, writes_put.
    + apply (writes_list rok _ (fun r => jtext (jv_result r))). apply Forall_forall. intros r _. unfold jv_result. solve_writes.
  - unfold jv_batch. cbn [jtext map fst snd commas]. rewrite map_map, <- ?(assoc_L (++)). reflexivity.
Qed.

Lemma writes_page_data rok js : writes rok (add_page_data rok js) (jtext (jv_page_data js)).
Proof. unfold add_page_data, jv_page_data. solve_writes. Qed.

Lemma writes_trace rok js : writes rok (add_page_trace rok js) (jtext (jv_trace js)).
Proof.
  unfold add_page_trace, jv_trace. cbn [jtext]. rewrite map_map. apply writes_bracket. apply Forall_forall. intros j _.
  destruct (q_ok j); solve_writes.
Qed.

#[export] Hint Resolve writes_page_data writes_trace : writes.

Lemma page_writes rok id mode delay workers js m :
  jwf (jv_page id mode delay workers js m) → Z.of_nat (length (jtext (jv_page id mode delay workers js m))) + 1 ≤ SMALL →
  answers_json rok (jv_page id mode delay workers js m) 200 (page_single_res rok id mode delay workers js m).
Proof. intros Hw Hs. apply answer_spec; [|done|done]. unfold jv_page, mode_name. solve_writes. Qed.

Lemma compare_writes rok id delay workers sjs sm pjs pm :
  jwf (jv_compare id delay workers sjs sm pjs pm) →
  Z.of_nat (length (jtext (jv_compare id delay workers sjs sm pjs pm))) + 1 ≤ SMALL →
  answers_json rok (jv_compare id delay workers sjs sm pjs pm) 200 (page_compare_res rok id delay workers sjs sm pjs pm).
Proof. intros Hw Hs. apply answer_spec; [|done|done]. unfold jv_compare, jv_run. solve_writes. Qed.

(** [sql_ok] is [sql_ok_data] of the dumped result. *)
Lemma sql_data_dump_spec rok r :
  Z.of_nat (length (jtext (jv_data r))) + 1 ≤ SMALL →
  ∃ d, sql_data_dump rok r = Some d ∧ ((∀ n, rok n = true) → d = Some (jtext (jv_data r))) ∧
       (d = None ∨ d = Some (jtext (jv_data r))).
Proof.
  intros Hs. destruct (writes_init rok _ _ (writes_data rok r) Hs) as (ok & b & E & _ & Ht & Hb).
  unfold sql_data_dump. rewrite E. eexists. split; [done|]. destruct ok.
  - rewrite Hb by done. auto.
  - split; [|by left]. intros Hall. by specialize (Ht Hall).
Qed.

(** ** Which values have a text *)

Lemma lit_bytes (s : string) : bytes (lit s).
Proof.
  unfold bytes, lit. induction (String.list_ascii_of_string s); simpl; constructor; [lia|done].
Qed.

Definition res_bytes (r : DbRes) : Prop := Forall (Forall (λ c, bytes (fst c) ∧ bytes (snd c))) (res_rows r).

Lemma jwf_all {A} (f : A → Jv) l : Forall (λ x, jwf (f x)) l → jwf (JArr (map f l)).
Proof. induction 1; simpl; [done|]. by split. Qed.

Lemma jv_obj_wf o : Forall (λ c, bytes (fst c) ∧ bytes (snd c)) o → jwf (jv_obj o).
Proof. induction 1 as [|[k v] o [H1 H2] _ IH]; simpl; [done|]. by split_and!. Qed.

Lemma jv_rows_wf r : res_bytes r → jwf (jv_rows r).
Proof. intros H. apply jwf_all. eapply Forall_impl; [|exact H]. intros o. apply jv_obj_wf. Qed.

Lemma jv_one_wf r : res_bytes r → jwf (jv_one r).
Proof. unfold res_bytes, jv_one. intros H. destruct H; [done|]. by apply jv_obj_wf. Qed.

Lemma jv_data_wf r : res_bytes r → jwf (jv_data r).
Proof.
  intros H. pose proof (jv_rows_wf r H). unfold jv_data. destruct (0 <? last_id r); simpl; split_and!; try done;
    try apply lit_bytes; apply print_Z_number.
Qed.

Lemma jv_trace_wf js : Forall (λ j, bytes (q_name j)) js → jwf (jv_trace js).
Proof.
  intros H. apply jwf_all. eapply Forall_impl; [|exact H]. intros j Hj. simpl.
  split_and!; try done; try apply lit_bytes; apply print_Z_number.
Qed.

Lemma div_even_nonneg n d : 0 ≤ n → 0 ≤ d → 0 ≤ div_even n d.
Proof.
  intros Hn Hd. unfold div_even. assert (0 ≤ n / d).
  { destruct (decide (d = 0)) as [->|]; [by rewrite Zdiv_0_r|]. apply Z.div_pos; lia. }
  repeat case_match; lia.
Qed.

Lemma to_double_nonneg n d : 0 ≤ n → 0 ≤ d → 0 ≤ fst (to_double n d) ∧ 0 < snd (to_double n d).
Proof.
  intros Hn Hd. unfold to_double. destruct (n =? 0); [done|]. cbv zeta.
  set (k := if _ <? _ then _ else _).
  destruct (Z.leb_spec 0 k); cbn [fst snd].
  - split; [|by apply Z.pow_pos_nonneg]. apply div_even_nonneg; [|done]. apply Z.mul_nonneg_nonneg; [done|]. by apply Z.pow_nonneg.
  - split; [|done]. apply Z.mul_nonneg_nonneg; [|by apply Z.pow_nonneg]. apply div_even_nonneg; [done|].
    apply Z.mul_nonneg_nonneg; [done|]. by apply Z.pow_nonneg.
Qed.

Lemma strchr_skip (s r : cstr) : forallb isdigit s = true → strchr (s ++ 46 :: r) 46 = Some (length s).
Proof.
  induction s as [|c s IH]; [done|]. cbn [forallb app strchr]. intros [H1 H2]%andb_prop.
  destruct (Z.eqb_spec c 46) as [->|_]; [done|]. by rewrite IH.
Qed.

Lemma print_nat_shape n : 0 ≤ n → forallb isdigit (print_Z n) = true ∧ int_part (print_Z n) = true ∧ print_Z n ≠ [] ∧ head (print_Z n) ≠ Some 45.
Proof.
  intros Hn. unfold print_Z. rewrite (proj2 (Z.ltb_ge _ _)) by done. destruct (print_pos_number n Hn) as [H1 H2].
  destruct (print_pos_shape (S (Z.to_nat (Z.log2 n))) n []) as (ds & E & Hd & _).
  { split; [done|]. rewrite Nat2Z.inj_succ, Z2Nat.id by apply Z.log2_nonneg.
    destruct (decide (n = 0)) as [->|]; [done|]. apply Z.log2_spec. lia. }
  rewrite app_nil_r in E. rewrite E in *. unfold unsigned_number in H1. rewrite strchr_digits in H1 by done.
  split_and!; try done. by intros ->.
Qed.

Lemma decimal_number a d : 0 ≤ a → 0 ≤ d → unsigned_number (print_Z a ++ 46 :: print_Z d) = true.
Proof.
  intros Ha Hd. destruct (print_nat_shape a Ha) as (H1 & H2 & _), (print_nat_shape d Hd) as (H3 & _ & H4 & _).
  unfold unsigned_number. rewrite strchr_skip by done. rewrite take_app_length.
  assert (drop (S (length (print_Z a))) (print_Z a ++ 46 :: print_Z d) = print_Z d) as ->.
  { change (46 :: print_Z d) with ([46] ++ print_Z d). rewrite (assoc_L (++)), drop_app_ge by (rewrite length_app; simpl; lia).
    rewrite length_app. simpl. by replace (S _ - _)%nat with 0%nat by lia. }
  rewrite H2, H3, bool_decide_false by done. done.
Qed.

Lemma speedup_number a b : is_number (speedup a b) = true.
Proof.
  unfold speedup. destruct (0 <? b) eqn:Eb; [|done]. bool_to_prop. unfold fmt_ratio.
  destruct (to_double_nonneg (Z.abs a) 1) as [A1 A2]; [lia|done|]. destruct (to_double (Z.abs a) 1) as [x x'].
  destruct (to_double_nonneg b 1) as [B1 B2]; [lia|done|]. destruct (to_double b 1) as [y y']. cbn [fst snd] in *.
  destruct (to_double_nonneg (x * y') (x' * y)) as [Q1 Q2]; [nia|nia|]. destruct (to_double _ _) as [q q']. cbn [fst snd] in *.
  assert (0 ≤ div_even (10 * q) q') as Ht by (apply div_even_nonneg; lia). set (t := div_even _ _) in *.
  assert (0 ≤ t / 10) by (apply Z.div_pos; lia). pose proof (Z.mod_pos_bound t 10).
  assert (unsigned_number (print_Z (t / 10) ++ 46 :: print_Z (t mod 10)) = true) as Hu by (apply decimal_number; lia).
  change (lit ".") with [46]. cbn [app]. destruct (a <? 0).
  - cbn [lit app]. exact Hu.
  - cbn [app]. destruct (print_nat_shape (t / 10)) as (_ & _ & Hne & Hh); [done|].
    destruct (print_Z (t / 10)) as [|c s]; [done|]. cbn [app is_number] in *.
    destruct (Z.eqb_spec c 45) as [->|]; [done|exact Hu].
Qed.

(** ** Every answer *)

(** What a handler can answer, besides the contents of a file. *)
Inductive Reply :=
| ReplyErr (http : Z) (code msg : cstr)
| ReplySql (r : DbRes) (tid lat_ms lat_us : Z) (cache_status cache_reason : cstr)
| ReplyBatch (resv : list DbRes) (lat_ms : Z)
| ReplyAbort (resv : list DbRes) (lat_ms : Z)
| ReplyHealth
| ReplyMetrics (ap dp : PoolSt) (mst : MvStat) (up : Z) (st : Stats)
| ReplyPage (mode : PageMode) (delay workers : Z) (js : list QJob) (m : PageRunMetrics)
| ReplyCompare (delay workers : Z) (sjs : list QJob) (sm : PageRunMetrics) (pjs : list QJob) (pm : PageRunMetrics).

(** The code that writes it, *)
Definition render (rok : Z → bool) (id : cstr) (a : Reply) : option HttpRes :=
  match a with
  | ReplyErr http code msg => err_res rok http code msg id
  | ReplySql r tid ms us cs cr => sql_ok rok id r tid ms us cs cr
  | ReplyBatch resv ms => batch_ok rok id resv ms
  | ReplyAbort resv ms => tx_res rok id resv ms false
  | ReplyHealth => do_health rok id
  | ReplyMetrics ap dp mst up st => do_mst rok id ap dp mst up st
  | ReplyPage mode delay workers js m => page_single_res rok id mode delay workers js m
  | ReplyCompare delay workers sjs sm pjs pm => page_compare_res rok id delay workers sjs sm pjs pm
  end.

(** its status, *)
Definition reply_status (a : Reply) : Z :=
  match a with ReplyErr http _ _ => status_of http | ReplyAbort _ _ => 400 | _ => 200 end.

(** and the value it means. *)
Definition reply_value (id : cstr) (a : Reply) : Jv :=
  match a with
  | ReplyErr _ code msg => jv_err code msg id
  | ReplySql r tid ms us cs cr => jv_sql (jv_data r) id tid ms us cs cr
  | ReplyBatch resv ms => jv_batch id resv ms
  | ReplyAbort resv ms => let '(d, f) := tx_fail resv 0 in jv_tx_abort id d f ms
  | ReplyHealth => jv_health id
  | ReplyMetrics ap dp mst up st => jv_metrics id ap dp mst up st
  | ReplyPage mode delay workers js m => jv_page id mode delay workers js m
  | ReplyCompare delay workers sjs sm pjs pm => jv_compare id delay workers sjs sm pjs pm
  end.

(** Its texts are bytes. *)
Definition reply_bytes (a : Reply) : Prop :=
  match a with
  | ReplyErr _ code msg => bytes code ∧ bytes msg
  | ReplySql r _ _ _ cs cr => res_bytes r ∧ bytes cs ∧ bytes cr
  | ReplyBatch resv _ => Forall res_bytes resv
  | ReplyPage _ _ _ js _ => Forall (λ j, bytes (q_name j) ∧ res_bytes (q_res j)) js
  | ReplyCompare _ _ sjs _ pjs _ => Forall (λ j, bytes (q_name j)) sjs ∧ Forall (λ j, bytes (q_name j)) pjs
  | _ => True
  end.

Lemma q_result_bytes js i : Forall (λ j, bytes (q_name j) ∧ res_bytes (q_res j)) js → res_bytes (q_result js i).
Proof.
  intros H. unfold q_result. destruct (js !! i) as [j|] eqn:E; [|constructor]. by apply (Forall_lookup_1 _ _ _ _ H E).
Qed.

Lemma reply_value_wf id a : bytes id → reply_bytes a → jwf (reply_value id a).
Proof.
  intros Hid Ha.
  destruct a as [http code msg|r tid ms us cs cr|resv ms|resv ms| |ap dp mst up st|mode delay workers js m|delay workers sjs sm pjs pm]; simpl in Ha.
  - simpl. split_and!; try done; try apply lit_bytes; apply Ha.
  - destruct Ha as (Hr & Hcs & Hcr). pose proof (jv_data_wf r Hr). cbn -[jv_data lit].
    split_and!; try done; try apply lit_bytes; apply print_Z_number.
  - assert (jwf (JArr (map jv_result resv))) as Hv.
    { apply jwf_all. eapply Forall_impl; [|exact Ha]. intros r Hr. pose proof (jv_rows_wf r Hr). cbn -[jv_rows lit].
      split_and!; try done; try apply lit_bytes; apply print_Z_number. }
    simpl. split_and!; try done; try apply lit_bytes; apply print_Z_number.
  - simpl. destruct (tx_fail resv 0). simpl. split_and!; try done; try apply lit_bytes; apply print_Z_number.
  - simpl. split_and!; try done; apply lit_bytes.
  - simpl. split_and!; try done; try apply lit_bytes; apply print_Z_number.
  - pose proof (jv_trace_wf js) as Ht.
    assert (Forall (λ j, bytes (q_name j)) js) as Hn by (eapply Forall_impl; [|exact Ha]; by intros j [? _]).
    specialize (Ht Hn). pose proof (λ i, jv_rows_wf _ (q_result_bytes js i Ha)) as Hr. pose proof (λ i, jv_one_wf _ (q_result_bytes js i Ha)) as Ho.
    cbn -[jv_rows jv_one jv_trace q_result lit]. split_and!; try done; try apply lit_bytes; try apply print_Z_number; try apply Hr; try apply Ho.
    by destruct mode; apply lit_bytes.
  - destruct Ha as [Hs Hp]. pose proof (jv_trace_wf sjs Hs). pose proof (jv_trace_wf pjs Hp).
    cbn -[jv_trace lit]. split_and!; try done; try apply lit_bytes; try apply print_Z_number. apply speedup_number.
Qed.

Lemma jv_sql_length d id tid ms us cs cr : (length (jtext d) ≤ length (jtext (jv_sql d id tid ms us cs cr)))%nat.
Proof.
  assert (∃ s1 s2, jtext (jv_sql d id tid ms us cs cr) = s1 ++ jtext d ++ s2) as (s1 & s2 & ->).
  { eexists ([123] ++ jsn_text (lit "ok") ++ [58] ++ lit "true" ++ [COMMA] ++ jsn_text (lit "data") ++ [58]), _.
    unfold jv_sql. cbn [jtext map fst snd commas]. rewrite <- !(assoc_L (++)). reflexivity. }
  rewrite !length_app. lia.
Qed.

(** C20. Whatever a handler answers, the body is a JSON text: a reader that knows
    nothing of the server gets from it exactly the value meant, with every row,
    every count, every error code and message, byte for byte, and nothing is left
    over; the status and the content type are those of the answer.  When memory
    runs out while it is written the response is that, or it is left empty. *)
Theorem answers_are_json (realloc_ok : Z → bool) (id : cstr) (a : Reply) :
  bytes id → reply_bytes a → Z.of_nat (length (jtext (reply_value id a))) + 1 ≤ SMALL →
  answers_json realloc_ok (reply_value id a) (reply_status a) (render realloc_ok id a).
Proof.
  intros Hid Ha Hs. pose proof (reply_value_wf id a Hid Ha) as Hw.
  destruct a as [http code msg|r tid ms us cs cr|resv ms|resv ms| |ap dp mst up st|mode delay workers js m|delay workers sjs sm pjs pm];
    cbn [render reply_status].
  - by apply err_res_writes.
  - cbn [reply_value] in *. unfold sql_ok.
    destruct (sql_data_dump_spec realloc_ok r) as (d & -> & Hall & Hd).
    { pose proof (jv_sql_length (jv_data r) id tid ms us cs cr). lia. }
    destruct (sql_ok_data_writes realloc_ok id (jv_data r) tid ms us cs cr Hw Hs) as (res & E & H1 & H2).
    destruct Hd as [->| ->]; [|by exists res].
    exists res0. split; [done|]. split; [by right|]. intros H. by specialize (Hall H).
  - by apply batch_writes.
  - pose proof (tx_abort_writes realloc_ok id resv ms) as H. cbn [reply_value] in *. destruct (tx_fail resv 0). by apply H.
  - by apply health_writes.
  - by apply metrics_writes.
  - by apply page_writes.
  - by apply compare_writes.
Qed.

Definition demo_reply : Reply :=
  ReplySql (mkRes [[(lit "id", lit "1"); (lit "note", qlit "say `hi`" ++ [NL; 1])]] 1 7 3 [] []) 2 0 15 (lit "miss") (lit "no_entry").

Lemma answers_are_json_witness :
  ∃ res, render (fun _ => true) (lit "42") demo_reply = Some res ∧
    json_of (body res) = Some (reply_value (lit "42") demo_reply).
Proof.
  destruct (answers_are_json (fun _ => true) (lit "42") demo_reply) as (res & E & _ & H).
  - apply lit_bytes.
  - split_and!; [|apply lit_bytes|apply lit_bytes]. repeat constructor; discriminate.
  - vm_compute. discriminate.
  - exists res. split; [exact E|]. apply H. reflexivity.
Defined.
