(* ===== verification/Route.v ===== *)
(** The handlers of [src/api/route.c] and their dispatch.

    What the surroundings decide is an [Env]: memory, clocks, thread numbers, how
    the database pool takes the jobs of this request and in which order its
    workers run them, and the files.  A handler returns the response and the
    server after it, or [None] where the code leaves the defined behaviour of C.
    A request is one step here: what other requests do meanwhile is the subject
    of [CacheFresh] and [System]. *)

From Stdlib Require Import String.
From S2P Require Import Prelude CString Mvcc Parser Values Table Store Db Pool QueryCache Stats Resp Json Render Http.
From stdpp Require Import base numbers list option gmap.
Local Open Scope Z_scope.

(** ** The server and its surroundings *)

Record Srv := mkSrv {
  srv_db : Db;
  srv_cache : Cache;
  srv_stats : Stats;
  srv_apip : Pool;
  srv_dbp : Pool;
  srv_port : Z;
  srv_max_body : Z;
  srv_max_sql : Z;
  srv_max_qry : Z;
  srv_stopped : bool;
  srv_lfd : Z;
}.

Definition with_db (s : Srv) (d : Db) : Srv :=
  mkSrv d (srv_cache s) (srv_stats s) (srv_apip s) (srv_dbp s) (srv_port s) (srv_max_body s) (srv_max_sql s) (srv_max_qry s)
    (srv_stopped s) (srv_lfd s).
Definition with_cache (s : Srv) (c : Cache) : Srv :=
  mkSrv (srv_db s) c (srv_stats s) (srv_apip s) (srv_dbp s) (srv_port s) (srv_max_body s) (srv_max_sql s) (srv_max_qry s)
    (srv_stopped s) (srv_lfd s).
Definition with_stats (s : Srv) (f : Stats → Stats) : Srv :=
  mkSrv (srv_db s) (srv_cache s) (f (srv_stats s)) (srv_apip s) (srv_dbp s) (srv_port s) (srv_max_body s) (srv_max_sql s)
    (srv_max_qry s) (srv_stopped s) (srv_lfd s).

(** What [read_file_all] finds: 0, -1 or the contents. *)
Inductive FileRead := FileBad | FileNoMem | FileOk (contents : list Z).

Record Env := mkEnv {
  e_realloc : Z → bool;            (* sizes the buffers can get *)
  e_str : bool;                    (* [calloc] of a decoded string *)
  e_item : nat → bool;             (* of the items of an array *)
  e_jobs : bool;                   (* of the jobs and the results of a batch *)
  e_dup : bool;                    (* the copies of the cache *)
  e_malloc : bool;
  e_ttl : option cstr;             (* the variable that sets the time to live *)
  e_ns : nat → Z;                  (* the monotonic clock, at each place it is read *)
  e_ms : nat → Z;                  (* the wall clock in milliseconds *)
  e_tid : Z;                       (* [pool_tid] of this thread *)
  e_job_tid : nat → Z;             (* of the worker that runs job [i] of this request *)
  e_job_start : nat → Z;           (* the wall clock at its start and its end *)
  e_job_end : nat → Z;
  e_accept : nat → bool;           (* does the database pool take job [i] *)
  e_order : nat → list nat;        (* the order in which the jobs of round [r] run *)
  e_file : cstr → FileRead;
  e_io : nat → bool;               (* which calls of [tab_save] succeed *)
}.

(** Elapsed time, an unsigned difference. *)
Definition since (e : Env) (i j : nat) : Z := wrap64 (e_ns e j - e_ns e i).

(** The body as a C string; [None] for NULL. *)
Definition c_body (req : HttpReq) : option cstr := cut_zero <$> req_body req.

(** [!req->body || skip_ws(req->body)[0] == '\0']. *)
Definition empty_body (req : HttpReq) : bool :=
  match c_body req with
  | None => true
  | Some b => bool_decide (skip_space b = [])
  end.

Section route.
Context (e : Env).

Definition fail (srv : Srv) (id : cstr) (http : Z) (code msg : string) : option (HttpRes * Srv) :=
  let* res := err_res (e_realloc e) http (lit code) (lit msg) id in Some (res, srv).

(** ** POST /api/v1/sql *)

(** The part after the cache did not answer: [can_cache] with the version of the
    table, and why it missed. *)
Definition sql_exec (srv : Srv) (id sql : cstr) (can_cache : bool) (table_ver : Z) (cache_reason : cstr)
    : option (HttpRes * Srv) :=
  let* (rc, db1, dres) := db_exec (e_io e) (srv_db srv) sql in
  let srv1 := with_stats (with_db srv db1) (api_stats_add_engine_ns (since e 4 5)) in
  if negb (rc =? 0) then
    let* res := err_res (e_realloc e) (http_of (err_code dres))
                  (match err_code dres with [] => lit "BAD_SQL" | c => c end)
                  (match err_msg dres with [] => lit "query failed" | m => m end) id in
    Some (res, srv1)
  else
    let lat_us := since e 0 7 / 1000 in
    let lat_ms := since e 0 7 / 1000000 in
    let* data := sql_data_dump (e_realloc e) dres in
    let* res := match data with
                | Some d => sql_ok_data (e_realloc e) id d (e_tid e) lat_ms lat_us (lit "miss") cache_reason
                | None => sql_ok (e_realloc e) id dres (e_tid e) lat_ms lat_us (lit "miss") cache_reason
                end in
    let srv2 := with_stats srv1 (api_stats_add_json_ns (since e 6 8)) in
    match data with
    | Some d =>
        if can_cache && (0 <? table_ver) then
          let* c := query_cache_store (e_ttl e) (e_dup e) (e_malloc e) (e_ns e 9) (srv_cache srv2) sql table_ver d in
          Some (res, with_cache srv2 c)
        else Some (res, srv2)
    | None => Some (res, srv2)
    end.

(** A SELECT: the version of its table, then the cache. *)
Definition sql_cached (srv : Srv) (id sql table : cstr) : option (HttpRes * Srv) :=
  let* (table_ver, db1) := db_tab_ver (srv_db srv) table in
  let srv1 := with_stats (with_db srv db1) (api_stats_add_lock_wait_ns (since e 1 2)) in
  let* (found, c) :=
    (if 0 <? table_ver then query_cache_lookup (e_ttl e) (e_malloc e) (e_ns e 3) (srv_cache srv1) sql table_ver
     else Some (inr MISS_NO_ENTRY, srv_cache srv1)) in
  let srv2 := with_cache srv1 c in
  match found with
  | inl data =>
      let lat_us := since e 0 4 / 1000 in
      let lat_ms := since e 0 4 / 1000000 in
      let* res := sql_ok_data (e_realloc e) id data (e_tid e) lat_ms lat_us (lit "hit") (lit "cache_hit") in
      Some (res, with_stats (with_stats srv2 api_stats_note_cache_hit) (api_stats_add_json_ns (since e 5 6)))
  | inr why => sql_exec (with_stats srv2 api_stats_note_cache_miss) id sql true table_ver (cache_reason_of why)
  end.

Definition do_sql (srv : Srv) (req : HttpReq) (id : cstr) : option (HttpRes * Srv) :=
  if empty_body req then fail srv id 400 "BAD_REQ" "empty body"
  else
    let body := default [] (c_body req) in
    if negb (json_doc body) then fail srv id 400 "BAD_JSON" "invalid json body"
    else
      match json_str (e_str e) body (lit "query") with
      | ScanOom => fail srv id 400 "OOM" "missing query"
      | ScanNo | ScanOk [] _ => fail srv id 400 "BAD_REQ" "missing query"
      | ScanOk sql _ =>
          match parse_statement sql with
          | Some stmt =>
              match stype stmt, table_name stmt with
              | STMT_SELECT, _ :: _ => sql_cached srv id sql (table_name stmt)
              | _, _ => sql_exec srv id sql false 0 (lit "not_cacheable")
              end
          | None => sql_exec srv id sql false 0 (lit "not_cacheable")
          end
      end.

(** ** Reads in the database pool *)

Definition qjob_init (sql name : cstr) (base_ms delay_ms : Z) : QJob :=
  mkQJob sql name res_clr false 0 0 0 0 base_ms delay_ms.

(** [qjob_run], [qjob_run_sync]: job [i] of the request. *)
Definition qjob_run (db : Db) (snap : Z) (i : nat) (tid : Z) (j : QJob) : option (Db * QJob) :=
  let* (rc, db1, res) := do_read db snap (q_sql j) in
  Some (db1, mkQJob (q_sql j) (q_name j) res true rc tid (e_job_start e i - q_base_ms j)
               (e_job_end e i - e_job_start e i) (q_base_ms j) (q_delay_ms j)).

(** The workers run the jobs [order]. *)
Fixpoint run_jobs (db : Db) (snap : Z) (base : nat) (js : list QJob) (order : list nat) : option (Db * list QJob) :=
  match order with
  | [] => Some (db, js)
  | i :: order' =>
      let* j := js !! i in
      let* (db1, j1) := qjob_run db snap (base + i) (e_job_tid e (base + i)) j in
      run_jobs db1 snap base (<[i := j1]> js) order'
  end.

(** The jobs [i..end) that the pool takes before it refuses one. *)
Fixpoint taken (i n : nat) : nat :=
  match n with
  | O => O
  | S m => if e_accept e i then S (taken (S i) m) else O
  end.

(** Hand the jobs [i, i + n) to the pool and wait for those it took: whether it
    took them all.  The workers run them in the order of round [r]. *)
Definition run_round (db : Db) (snap : Z) (base r : nat) (js : list QJob) (i n : nat) : option (bool * Db * list QJob) :=
  let k := taken (base + i) n in
  let* (db1, js1) := run_jobs db snap base js (List.filter (fun x => (x <? i + k)%nat) (e_order e r)) in
  Some (bool_decide (k = n), db1, js1).

(** ** POST /api/v1/batch and /api/v1/tx *)

(** All statements read, outside a transaction: on one snapshot, in the pool. *)
Definition batch_reads (srv : Srv) (id : cstr) (sqls : list cstr) : option (HttpRes * Srv) :=
  let '(snap, db1) := db_snap (srv_db srv) in
  if snap =? 0 then fail (with_db srv db1) id 500 "OOM" "memory error"
  else if negb (e_jobs e) then
    let* db2 := db_done db1 snap in fail (with_db srv db2) id 500 "OOM" "memory error"
  else
    let js := map (fun sql => qjob_init sql [] (e_ms e 1) 0) sqls in
    let* (all, db2, js1) := run_round db1 snap 0 0 js 0 (length js) in
    let* db3 := db_done db2 snap in
    if negb (all : bool) then fail (with_db srv db3) id 503 "Q_FULL" "db queue full"
    else
      let srv1 := with_stats (with_db srv db3) (api_stats_add_engine_ns (wrap64 (wrap64 (e_ms e 2 - e_ms e 0) * 1000000))) in
      let* res := batch_ok (e_realloc e) id (map q_res js1) (e_ms e 3 - e_ms e 0) in
      Some (res, with_stats srv1 (api_stats_add_json_ns (since e 0 1))).

Definition batch_exec (srv : Srv) (id : cstr) (sqls : list cstr) (tx : bool) : option (HttpRes * Srv) :=
  let* (rc, db1, resv) := db_batch (e_io e) (srv_db srv) sqls tx in
  let srv1 := with_stats (with_db srv db1) (api_stats_add_engine_ns (since e 0 1)) in
  let* res := if tx && negb (rc =? 0) then tx_res (e_realloc e) id resv (e_ms e 1 - e_ms e 0) false
              else batch_ok (e_realloc e) id resv (e_ms e 1 - e_ms e 0) in
  Some (res, with_stats srv1 (api_stats_add_json_ns (since e 2 3))).

Definition do_batch (srv : Srv) (req : HttpReq) (id : cstr) (force_tx : bool) : option (HttpRes * Srv) :=
  if empty_body req then fail srv id 400 "BAD_REQ" "empty body"
  else
    let body := default [] (c_body req) in
    if negb (json_doc body) then fail srv id 400 "BAD_JSON" "invalid json body"
    else
      let tx := if force_tx then true else default false (json_bool body (lit "tx")) in
      let* arr := json_arr (e_item e) body (lit "queries") in
      match arr with
      | ArrOk (q :: qs) =>
          let sqls := q :: qs in
          if srv_max_qry srv <? Z.of_nat (length sqls) then fail srv id 429 "TOO_MANY" "too many queries"
          else if negb tx && forallb sql_is_rd sqls && (1 <? Z.of_nat (length sqls)) then batch_reads srv id sqls
          else batch_exec srv id sqls tx
      | _ => fail srv id 400 "BAD_REQ" "missing queries"
      end.

(** ** GET /api/v1/page *)

Definition page_mode_of (raw : cstr) : option PageMode :=
  match raw with
  | [] => Some PAGE_MODE_PARALLEL
  | _ =>
      if streq raw (lit "parallel") then Some PAGE_MODE_PARALLEL
      else if streq raw (lit "sequential") then Some PAGE_MODE_SEQUENTIAL
      else if streq raw (lit "compare") then Some PAGE_MODE_COMPARE
      else None
  end.

Definition page_delay_of (raw : cstr) : option Z :=
  match raw with
  | [] => Some 0
  | _ =>
      let r := strtol raw in
      match st_rest r with
      | [] => if st_val r <? 0 then None else Some (Z.min (st_val r) PAGE_DELAY_MS_MAX)
      | _ => None
      end
  end.

Definition page_workers_of (raw : cstr) : option Z :=
  match raw with
  | [] => Some PAGE_WORKERS_MAX
  | _ =>
      let r := strtol raw in
      match st_rest r with
      | [] => if (st_val r <? PAGE_WORKERS_MIN) || (PAGE_WORKERS_MAX <? st_val r) then None else Some (st_val r)
      | _ => None
      end
  end.

(** The value of a key in the query string, or the empty text. *)
Definition qry_val (qry key : cstr) (osz : nat) : option cstr := default [] <$> qry_get qry key osz.

Definition zone_of (lat lng : cstr) (osz : nat) : cstr :=
  strcpy_sz osz (if streq lat (lit "37.5") && streq lng (lit "127.0") then lit "seoul_east" else lit "default").

Definition page_sqls (req : HttpReq) : option (list cstr) :=
  let* user0 := qry_val (qry req) (lit "user_id") 64 in
  let* lat := qry_val (qry req) (lit "lat") 64 in
  let* lng := qry_val (qry req) (lit "lng") 64 in
  let user := match user0 with [] => lit "1" | u => u end in
  let zone := zone_of lat lng 64 in
  Some [strcpy_sz 256 (lit "SELECT * FROM restaurants WHERE zone = '" ++ zone ++ lit "'");
        strcpy_sz 256 (lit "SELECT * FROM orders WHERE user_id = '" ++ user ++ lit "'");
        strcpy_sz 256 (lit "SELECT * FROM coupons WHERE user_id = '" ++ user ++ lit "'");
        strcpy_sz 256 (lit "SELECT * FROM cart WHERE user_id = '" ++ user ++ lit "'")].

Definition page_names : list cstr := [lit "restaurants"; lit "order"; lit "coupons"; lit "cart"].

Definition page_jobs (sqls : list cstr) (base_ms delay_ms : Z) : list QJob :=
  zip_with (fun sql nm => qjob_init sql nm base_ms delay_ms) sqls page_names.

(** The rounds of [page_run_parallel] from job [i] on, [workers] at a time. *)
Fixpoint page_rounds (fuel : nat) (db : Db) (snap : Z) (base r : nat) (js : list QJob) (i workers : nat)
    : option (bool * Db * list QJob) :=
  if (i <? PAGE_QUERY_COUNT)%nat then
    match fuel with
    | O => None
    | S f =>
        let* (all, db1, js1) := run_round db snap base r js i (Nat.min workers (PAGE_QUERY_COUNT - i)) in
        if (all : bool) then page_rounds f db1 snap base (S r) js1 (i + workers) workers else Some (false, db1, js1)
    end
  else Some (true, db, js).

(** 0, -1 or the results. *)
Inductive PageRun := PageNoSnap | PageFull | PageDone (js : list QJob) (m : PageRunMetrics).

Definition page_run_parallel (db : Db) (base : nat) (sqls : list cstr) (delay_ms : Z) (workers : nat) (start finish : Z)
    : option (PageRun * Db) :=
  let '(snap, db1) := db_snap db in
  if snap =? 0 then Some (PageNoSnap, db1)
  else
    let* (all, db2, js) := page_rounds PAGE_QUERY_COUNT db1 snap base 0 (page_jobs sqls start delay_ms) 0 workers in
    let* db3 := db_done db2 snap in
    Some (if (all : bool) then PageDone js (mkMetrics (finish - start) (page_sum_lat js)) else PageFull, db3).

(** [qjob_run_sync] on each job in turn, on this thread. *)
Fixpoint run_sync (db : Db) (snap : Z) (i : nat) (js : list QJob) : option (Db * list QJob) :=
  match js with
  | [] => Some (db, [])
  | j :: js' =>
      let* (db1, j1) := qjob_run db snap i (e_tid e) j in
      let* (db2, js2) := run_sync db1 snap (S i) js' in Some (db2, j1 :: js2)
  end.

Definition page_run_sequential (db : Db) (base : nat) (sqls : list cstr) (delay_ms : Z) (start finish : Z)
    : option (PageRun * Db) :=
  let '(snap, db1) := db_snap db in
  if snap =? 0 then Some (PageNoSnap, db1)
  else
    let* (db2, js) := run_sync db1 snap base (page_jobs sqls start delay_ms) in
    let* db3 := db_done db2 snap in
    Some (PageDone js (mkMetrics (finish - start) (page_sum_lat js)), db3).

Definition do_page (srv : Srv) (req : HttpReq) (id : cstr) : option (HttpRes * Srv) :=
  let* mode_raw := qry_val (qry req) (lit "mode") 32 in
  let* delay_raw := qry_val (qry req) (lit "delay_ms") 32 in
  let* workers_raw := qry_val (qry req) (lit "workers") 32 in
  match page_mode_of mode_raw with
  | None => fail srv id 400 "BAD_REQ" "invalid mode"
  | Some mode =>
      match page_delay_of delay_raw with
      | None => fail srv id 400 "BAD_REQ" "invalid delay_ms"
      | Some delay_ms =>
          match page_workers_of workers_raw with
          | None => fail srv id 400 "BAD_REQ" "invalid workers"
          | Some workers =>
              let* sqls := page_sqls req in
              let w := Z.to_nat workers in
              match mode with
              | PAGE_MODE_COMPARE =>
                  let* (sq, db1) := page_run_sequential (srv_db srv) 0 sqls delay_ms (e_ms e 0) (e_ms e 1) in
                  match sq with
                  | PageDone sjs sm =>
                      let* (pq, db2) := page_run_parallel db1 PAGE_QUERY_COUNT sqls delay_ms w (e_ms e 2) (e_ms e 3) in
                      match pq with
                      | PageNoSnap => fail (with_db srv db2) id 500 "OOM" "memory error"
                      | PageFull => fail (with_db srv db2) id 503 "Q_FULL" "db queue full"
                      | PageDone pjs pm =>
                          let* res := page_compare_res (e_realloc e) id delay_ms workers sjs sm pjs pm in
                          Some (res, with_db srv db2)
                      end
                  | _ => fail (with_db srv db1) id 500 "OOM" "memory error"
                  end
              | PAGE_MODE_SEQUENTIAL =>
                  let* (sq, db1) := page_run_sequential (srv_db srv) 0 sqls delay_ms (e_ms e 0) (e_ms e 1) in
                  match sq with
                  | PageDone js m =>
                      let* res := page_single_res (e_realloc e) id PAGE_MODE_SEQUENTIAL delay_ms workers js m in
                      Some (res, with_db srv db1)
                  | _ => fail (with_db srv db1) id 500 "OOM" "memory error"
                  end
              | PAGE_MODE_PARALLEL =>
                  let* (pq, db1) := page_run_parallel (srv_db srv) 0 sqls delay_ms w (e_ms e 0) (e_ms e 1) in
                  match pq with
                  | PageNoSnap => fail (with_db srv db1) id 500 "OOM" "memory error"
                  | PageFull => fail (with_db srv db1) id 503 "Q_FULL" "db queue full"
                  | PageDone js m =>
                      let* res := page_single_res (e_realloc e) id PAGE_MODE_PARALLEL delay_ms workers js m in
                      Some (res, with_db srv db1)
                  end
              end
          end
      end
  end.

(** ** Files, metrics and the dispatch *)

Definition do_asset (srv : Srv) (id p content_type : cstr) : option (HttpRes * Srv) :=
  match e_file e p with
  | FileBad => fail srv id 500 "INT_ERR" "failed to load demo asset"
  | FileNoMem => fail srv id 500 "OOM" "memory error"
  | FileOk raw => Some (fst (res_set_ct 200 (mkBuf raw (Z.of_nat (length raw) + 1)) content_type), srv)
  end.

Definition do_mst (srv : Srv) (id : cstr) : option (HttpRes * Srv) :=
  let '(up, st) := api_stats_snapshot (e_ns e 0) (srv_stats srv) in
  let* res := Render.do_mst (e_realloc e) id (pool_stat (srv_apip srv)) (pool_stat (srv_dbp srv)) (db_mst (srv_db srv)) up st in
  Some (res, srv).

(** One route: its method and its handler. *)
Definition only (srv : Srv) (req : HttpReq) (id : cstr) (m : string) (k : option (HttpRes * Srv)) : option (HttpRes * Srv) :=
  if negb (streq (meth req) (lit m)) then fail srv id 405 "BAD_METH" "method not allowed" else k.

Definition route_do (srv : Srv) (req : HttpReq) (id : cstr) : option (HttpRes * Srv) :=
  if streq (path req) (lit "/demo") then
    only srv req id "GET" (do_asset srv id (lit "web/demo.html") (lit "text/html; charset=utf-8"))
  else if streq (path req) (lit "/demo.css") then
    only srv req id "GET" (do_asset srv id (lit "web/demo.css") (lit "text/css; charset=utf-8"))
  else if streq (path req) (lit "/demo.js") then
    only srv req id "GET" (do_asset srv id (lit "web/demo.js") (lit "application/javascript; charset=utf-8"))
  else if streq (path req) (lit "/api/v1/health") then
    only srv req id "GET" (let* res := do_health (e_realloc e) id in Some (res, srv))
  else if streq (path req) (lit "/api/v1/sql") then only srv req id "POST" (do_sql srv req id)
  else if streq (path req) (lit "/api/v1/batch") then only srv req id "POST" (do_batch srv req id false)
  else if streq (path req) (lit "/api/v1/tx") then only srv req id "POST" (do_batch srv req id true)
  else if streq (path req) (lit "/api/v1/page") then only srv req id "GET" (do_page srv req id)
  else if streq (path req) (lit "/api/v1/metrics") then only srv req id "GET" (do_mst srv id)
  else fail srv id 404 "NO_ROUTE" "route not found".
End route.
