(* ===== verification/Moved.v ===== *)
(** How the newest versions of the tables move: under every operation of every
    client each stays as it is or gives way to one with a higher number. And what a read
    answers, as a function of the table its snapshot sees: it does not depend on which
    tables other reads have loaded before it, so that reads on one snapshot can run in
    any order. *)

From Stdlib Require Import String.
From S2P Require Import Prelude CString Mvcc Parser Values Table TableProofs InsertProofs SelectProofs.
From S2P Require Import ParserProofs Store StoreProofs Db DbProofs Isolation Commit System Single Batch.
From S2P Require Import Resp JsonText Render RenderProofs.
From stdpp Require Import base numbers list option gmap relations.
Local Open Scope Z_scope.

(** The newest version of a table that is loaded. *)
Definition current (db : Db) (nm : cstr) : option TabVer := i ← get_ent db nm; newest db i.

Record moved (db db' : Db) : Prop := {
  mo_name : ∀ i e, tabs db !! i = Some e → ∃ e', tabs db' !! i = Some e' ∧ ent_name e' = ent_name e;
  mo_newest : ∀ i t, newest db i = Some t →
    newest db' i = Some t ∨ ∃ t', newest db' i = Some t' ∧ cur_ver (mv db) < ver_id t';
  mo_clock : cur_ver (mv db) ≤ cur_ver (mv db');
}.

Lemma moved_refl db : moved db db.
Proof. split; [by eauto|by left|done]. Qed.

Lemma moved_trans db1 db2 db3 : moved db1 db2 → moved db2 db3 → moved db1 db3.
Proof.
  intros [A1 A2 A3] [B1 B2 B3]. split; [| |lia].
  - intros i e He. destruct (A1 i e He) as (e2 & He2 & E2). destruct (B1 i e2 He2) as (e3 & He3 & E3).
    exists e3. split; [done|congruence].
  - intros i t Ht. destruct (A2 i t Ht) as [H|(t2 & H & Hv)].
    + destruct (B2 i t H) as [?|(t3 & ? & ?)]; [by left|right]. exists t3. split; [done|lia].
    + destruct (B2 i t2 H) as [?|(t3 & ? & ?)]; right; [by exists t2|]. exists t3. split; [done|lia].
Qed.

Lemma get_ent_kept db db' nm i :
  (∀ i e, tabs db !! i = Some e → ∃ e', tabs db' !! i = Some e' ∧ ent_name e' = ent_name e) →
  get_ent db nm = Some i → get_ent db' nm = Some i.
Proof.
  unfold get_ent. generalize (tabs db') (tabs db). intros l' l. revert l'. generalize 0%nat as n.
  induction l as [|e l IH]; intros n l' Hl; [done|]. simpl.
  destruct (Hl 0%nat e eq_refl) as (e' & He' & Hn). destruct l' as [|e0 l']; [done|]. injection He' as ->. simpl. rewrite Hn.
  destruct (streq _ _); [done|]. apply IH. intros j x Hx. exact (Hl (S j) x Hx).
Qed.

Lemma current_moved db db' nm t :
  moved db db' → current db nm = Some t →
  ∃ t', current db' nm = Some t' ∧ (t' = t ∨ cur_ver (mv db) < ver_id t').
Proof.
  intros [H1 H2 _]. unfold current. destruct (get_ent db nm) as [i|] eqn:E; [|done]. simpl. intros Ht.
  rewrite (get_ent_kept _ _ _ _ H1 E). simpl. destruct (H2 i t Ht) as [->|(t' & -> & Hv)]; eauto.
Qed.

Lemma newest_good db i t : db_ok db → newest db i = Some t → 1 ≤ ver_id t ≤ cur_ver (mv db) ∧ tab_ok t.
Proof.
  intros Hok (e & a & He & Hh & Ha)%newest_spec. destruct (db_ok_chain db i e Hok He) as [Hg _].
  destruct (chain_good_in _ _ _ _ a Hg) as (t0 & Ht0 & Hv & Htok & _).
  { destruct (chain e); [done|]. injection Hh as ->. by left. }
  rewrite Ha in Ht0. injection Ht0 as <-. done.
Qed.

Lemma current_good db nm t : db_ok db → current db nm = Some t → 1 ≤ ver_id t ≤ cur_ver (mv db) ∧ tab_ok t.
Proof. unfold current. intros Hok. destruct (get_ent db nm) as [i|]; [|done]. by apply newest_good. Qed.

(** ** The operations *)

Lemma same_view_names live db db' :
  same_view live db db' → ∀ i e, tabs db !! i = Some e → ∃ e', tabs db' !! i = Some e' ∧ ent_name e' = ent_name e.
Proof. intros H i e He. destruct (H i e He) as (e' & ? & ? & _). by exists e'. Qed.

Lemma calm_moved db db' own : db_ok db → calm db db' own → moved db db'.
Proof.
  intros Hok Hc. split.
  - apply (same_view_names []), Hc.
  - intros i t Ht. left. by eapply newest_calm.
  - by rewrite (cm_mv _ _ _ Hc).
Qed.

Lemma snap_moved db : db_ok db → moved db (set_mv db (snd (mv_snap true (mv db)))).
Proof.
  intros Hok. destruct (calm_snap db _ Hok eq_refl) as (_ & Hn & Hv & _). split.
  - apply (same_view_names []), Hv.
  - intros i t. rewrite Hn. by left.
  - simpl. by rewrite cur_ver_snap.
Qed.

Lemma committed_moved db tx db' : db_ok db → tx_own db tx → committed db tx db' → moved db db'.
Proof.
  intros Hok Hown Hc. split.
  - eapply same_view_names, Hc.
  - intros i t Ht. destruct (committed_newest _ _ _ _ _ Hok Hown Hc Ht) as [?|(t' & ? & Hv)]; [by left|right].
    exists t'. split; [done|lia].
  - destruct (cd_mv _ _ _ Hc) as [_ ->]. lia.
Qed.

Lemma aborted_moved db tx db' : aborted db tx db' → moved db db'.
Proof.
  intros Hc. split.
  - eapply same_view_names, Hc.
  - intros i t Ht. left. by eapply aborted_newest.
  - by rewrite (ad_mv _ _ _ Hc), cur_ver_gc.
Qed.

Lemma collected_newest db db' s i t : collected db db' s → newest db i = Some t → newest db' i = Some t.
Proof.
  intros Hc (e & a & He & Hh & Ha)%newest_spec. destruct (co_head _ _ _ Hc i e He) as (e' & He' & _ & Hh' & _).
  apply newest_spec. exists e', a. rewrite Hh'. split_and!; [done|done|].
  destruct (co_addrs _ _ _ Hc a) as [_ ->]; [|done]. eapply chain_in_all; [exact He'|].
  destruct (chain e'); simpl in *; [congruence|]. rewrite Hh in Hh'. injection Hh' as ->. by left.
Qed.

Lemma collected_moved db db' s : collected db db' s → moved db db'.
Proof.
  intros Hc. split.
  - eapply same_view_names, Hc.
  - intros i t Ht. left. by eapply collected_newest.
  - by rewrite (co_mv _ _ _ Hc), cur_ver_gc.
Qed.

(** ** Every step of every client *)

Section moved.
Context (io_ok : nat → bool) (Hio : ∀ n, io_ok n = true).

Lemma step_moved s s' : sys_ok s → step io_ok s s' → moved (s_db s) (s_db s').
Proof.
  intros Hsys Hst. pose proof (so_db _ Hsys) as Hok.
  inversion Hst as [db db' tx txs rd E|db db' tx tx' l1 l2 rd sql rc res E Hsafe Hsd|db db' tx tx' l1 l2 rd E Hv
    |db db' tx tx' l1 l2 rd E Hv|db db' tx tx' f l1 l2 rd rc E|db db' sn txs rd E Hne|db db' sn txs r1 r2 sql rc res E Hsd
    |db db' sn txs r1 r2 E|db db' nm v txs rd E Hsd]; subst; simpl in *.
  - apply db_begin_spec in E as (_ & -> & ->); [|done]. by apply snap_moved.
  - edestruct step_txdo as [_ H2]; [exact Hsys|exact E|done|done|]. by eapply calm_moved.
  - destruct (sys_split _ _ _ _ _ _ Hsys) as (Htx & Hown & _).
    destruct (db_commit_spec io_ok Hio db tx Hok Htx Hown Hv) as [[E' _]|(db1 & tx1 & E' & _ & Hc)]; rewrite E in E'; [done|].
    injection E' as <- <-. by eapply committed_moved.
  - destruct (sys_split _ _ _ _ _ _ Hsys) as (Htx & Hown & _).
    destruct (db_commit_spec io_ok Hio db tx Hok Htx Hown Hv) as [[E' _]|(db1 & tx1 & E' & _ & Hc)]; rewrite E in E'; [|done].
    injection E' as -> ->. apply moved_refl.
  - destruct (sys_split _ _ _ _ _ _ Hsys) as (Htx & Hown & _).
    destruct (db_abort_spec db tx Hok) as (db1 & tx1 & E' & _ & Hc); [by apply Htx|done|].
    rewrite E in E'. injection E' as -> -> ->. by eapply aborted_moved.
  - apply db_snap_spec in E as (-> & ->); [|done]. by apply snap_moved.
  - apply do_read_calm in E; [|done]. by eapply calm_moved.
  - destruct (release_spec db sn Hok) as (db1 & E' & Hc). unfold db_done in E. rewrite E in E'. injection E' as <-.
    by eapply collected_moved.
  - apply db_tab_ver_calm in E; [|done]. by eapply calm_moved.
Qed.

Lemma steps_moved s s' : sys_ok s → rtc (step io_ok) s s' → moved (s_db s) (s_db s').
Proof.
  intros Hok Hs. induction Hs as [|s1 s2 s3 H1 _ IH]; [apply moved_refl|].
  eapply moved_trans; [by apply step_moved|]. apply IH. by apply (step_spec io_ok Hio s1).
Qed.
End moved.

(** ** Reading the newest version *)

Lemma find_index_snoc {A} (p : A → bool) n l x :
  find_index p n l = None → p x = true → find_index p n (l ++ [x]) = Some (n + length l)%nat.
Proof.
  revert n; induction l as [|y l IH]; intros n; simpl; [intros _ ->; f_equal; lia|].
  destruct (p y); [done|]. intros H Hx. rewrite IH by done. f_equal. lia.
Qed.

Lemma need_ent_get db nm i db1 : need_ent db nm = Some (Some i, db1) → get_ent db1 nm = Some i.
Proof.
  unfold need_ent. destruct (get_ent db nm) as [j|] eqn:Eg; [by intros [= -> ->]|].
  destruct (tab_load _ _ _) as [[tab|]|]; [|done|done]. simpl. intros [= <- <-]. unfold get_ent. simpl.
  rewrite (find_index_snoc _ 0); [done|exact Eg|apply streq_refl].
Qed.

Lemma db_tab_ver_current db nm v db' :
  db_ok db → db_tab_ver db nm = Some (v, db') → 0 < v → ∃ t, current db' nm = Some t ∧ ver_id t = v.
Proof.
  intros Hok. unfold db_tab_ver. destruct nm as [|c nm]; [by intros [= <- _]|].
  destruct (need_ent db (c :: nm)) as [[ent db1]|] eqn:En; [|done].
  destruct ent as [i|]; [|by intros [= <- _]].
  pose proof (need_ent_get _ _ _ _ En) as Hg.
  destruct (tabs db1 !! i) as [e|] eqn:Ee; [|done]. destruct (chain e) as [|a ch] eqn:Ec; [by intros [= <- _]|].
  destruct (heap db1 !! a) as [t|] eqn:Ea; [|done]. intros [= <- <-] _. unfold current. rewrite Hg. simpl. unfold newest. rewrite Ee. simpl. rewrite Ec. simpl. eauto.
Qed.

(** What a SELECT answers on a version of its table: the JSON of the data. *)
Definition sel_data (t : TabVer) (stmt : Statement) : option cstr :=
  match sel_do t stmt res_clr with
  | Some (rc, r) => if rc =? 0 then Some (jtext (jv_data r)) else None
  | None => None
  end.

(** [sel_do] with another number of the snapshot in the result. *)
Lemma sel_data_snap t stmt s rc r :
  tab_ok t → sel_do t stmt (set_snap_id res_clr s) = Some (rc, r) →
  (rc = 0 ∧ sel_data t stmt = Some (jtext (jv_data r))) ∨ (rc = -1 ∧ sel_data t stmt = None ∧ err_code r ≠ []).
Proof.
  intros Hok E. destruct (sel_do_shape t stmt Hok) as (x & Hx & Hne). unfold sel_data. rewrite Hx in E |- * by done.
  destruct x as [objs|[c m]]; simpl in E |- *; injection E as <- <-; [left; done|right; done].
Qed.

Section exec.
Context (io_ok : nat → bool).

(** A SELECT in [db_exec]: a snapshot, a read and a release, and the answer is that
    of the newest version. *)
Lemma db_exec_select db txs rd sql stmt rc db' r :
  sys_ok (mkSys db txs rd) → parse_ok db sql res_clr = inl stmt → stype stmt = STMT_SELECT →
  db_exec io_ok db sql = Some (rc, db', r) → steady db db' txs →
  rtc (step io_ok) (mkSys db txs rd) (mkSys db' txs rd) ∧
  (rc = 0 → ∃ t, current db' (table_name stmt) = Some t ∧ sel_data t stmt = Some (jtext (jv_data r))).
Proof.
  intros Hsys Hp Hty. pose proof (so_db _ Hsys) as Hok. simpl in Hok. unfold db_exec. rewrite Hp, Hty.
  destruct (db_snap db) as [s db1] eqn:Es. pose proof (db_snap_spec _ _ _ Hok Es) as [Hs Hd1].
  destruct (Z.eqb_spec s 0) as [H0|H0].
  { pose proof (mo_ver _ (do_mv _ Hok)). lia. }
  destruct (do_read db1 s sql) as [[[rc2 db2] r2]|] eqn:Er; [|done].
  destruct (db_done db2 s) as [db3|] eqn:Ed; [|done]. intros [= -> -> ->] Hst.
  assert (db_ok db1) as Hok1 by (rewrite Hd1; by apply db_ok_snap).
  pose proof (do_read_calm _ _ _ _ _ _ Hok1 Er) as Hc. pose proof (cm_ok _ _ _ Hc) as Hok2.
  destruct (release_spec db2 s Hok2) as (db3 & E3 & Hcol). unfold db_done in Ed. rewrite E3 in Ed. injection Ed as ->.
  destruct (co_rest _ _ _ Hcol) as (_ & Hgen & _).
  split.
  - eapply rtc_l; [by apply (st_snap io_ok db db1 s txs rd)|].
    eapply rtc_l; [apply (st_read io_ok db1 db2 s txs rd [] sql _ _ Er)|].
    + destruct Hst as [Hst|Hst]; [left|by right]. rewrite <- Hgen, Hst, Hd1. done.
    + eapply rtc_l; [|apply rtc_refl]. rewrite <- (app_nil_r rd) at 2. by apply st_done.
  - intros ->. revert Er. unfold do_read. unfold parse_ok in Hp |- *. rewrite Hd1. cbn [max_sql set_mv].
    rewrite Hp, Hty. rewrite <- Hd1.
    destruct (need_ent db1 (table_name stmt)) as [[ent dbn]|] eqn:En; [|done].
    destruct ent as [i|]; [|done].
    destruct (need_ent_calm _ _ _ _ Hok1 En) as [Hcn (e & He & _)]. pose proof (cm_ok _ _ _ Hcn) as Hokn.
    unfold tab_vis. rewrite He. destruct (db_ok_chain dbn i e Hokn He) as [Hg Hne].
    destruct (chain e) as [|a ch] eqn:Ech; [done|].
    rewrite (vis_walk_head _ _ _ _ _ _ Hg) by (rewrite (cm_mv _ _ _ Hcn), Hd1; simpl; rewrite cur_ver_snap; lia).
    unfold exec_at. destruct (heap dbn !! a) as [t|] eqn:Ea; [|done]. unfold exec_stmt. rewrite Hty.
    destruct (sel_do t stmt (set_snap_id res_clr s)) as [[rc0 r0]|] eqn:Esel; [|done].
    rewrite set_heap_same by done. intros [= -> <- ->].
    assert (newest dbn i = Some t) as Hnew by (apply newest_spec; exists e, a; by rewrite Ech).
    destruct (newest_good _ _ _ Hokn Hnew) as [_ Htok].
    destruct (sel_data_snap _ _ _ _ _ Htok Esel) as [[_ Hd]|[? _]]; [|done].
    exists t. split; [|done]. unfold current. rewrite (get_ent_kept dbn db' _ i); [|eapply same_view_names, Hcol|by eapply need_ent_get].
    simpl. by eapply collected_newest.
Qed.
End exec.

(** ** Reads *)

(** The table as a snapshot sees it, loaded or on disk. *)
Definition table_at (db : Db) (s : Z) (nm : cstr) : option TabVer :=
  match get_ent db nm with
  | Some i => r ← tab_vis db i s; a ← r; heap db !! a
  | None => match tab_load (fs db) (root db) nm with Some (Some t) => Some t | _ => None end
  end.

(** The code and the result of [do_read]. *)
Definition read_of (db : Db) (s : Z) (sql : cstr) : option (Z * DbRes) :=
  match parse_ok db sql res_clr with
  | inr res => Some (-1, res)
  | inl stmt =>
      match stype stmt with
      | STMT_SELECT =>
          match table_at db s (table_name stmt) with
          | None => Some (-1, res_err res_clr "BAD_SQL" "unknown table")
          | Some t => sel_do t stmt (set_snap_id res_clr s)
          end
      | _ => Some (-1, res_err res_clr "BAD_SQL" "read path accepts SELECT only")
      end
  end.

(** The states that reads on the snapshot [s] cannot tell apart. *)
Record alike (s : Z) (db db' : Db) : Prop := {
  al_calm : calm db db' [];
  al_disk : same_disk db db';
  al_tables : ∀ nm, table_at db' s nm = table_at db s nm;
}.

Lemma alike_refl s db : db_ok db → alike s db db.
Proof. intros H. split; [by apply calm_refl|done|done]. Qed.

Lemma alike_trans s db1 db2 db3 : alike s db1 db2 → alike s db2 db3 → alike s db1 db3.
Proof.
  intros [A1 A2 A3] [B1 B2 B3]. split; [by eapply calm_trans|by eapply same_disk_trans|]. intros nm. by rewrite B3.
Qed.

Lemma alike_read s db db' sql : alike s db db' → read_of db' s sql = read_of db s sql.
Proof.
  intros [_ (_ & _ & Hm) Ht]. unfold read_of, parse_ok. rewrite Hm.
  repeat case_match; try done; rewrite Ht in *; congruence.
Qed.

Lemma alike_loads s db db' : alike s db db' → loads db → loads db'.
Proof. intros [_ (Hf & Hr & _) _] H nm. rewrite Hf, Hr. apply H. Qed.

(** [tab_vis] of an entry that was there before. *)
Lemma tab_vis_view live db db' i s :
  same_view live db db' → s ∈ live → is_Some (tabs db !! i) →
  ∃ r, tab_vis db i s = Some r ∧ tab_vis db' i s = Some r ∧ ∀ a, r = Some a → heap db' !! a = heap db !! a.
Proof.
  intros Hv Hs [e He]. destruct (Hv i e He) as (e' & He' & _ & H). destruct (H s Hs) as (r & E1 & E2 & Ha).
  exists r. unfold tab_vis. by rewrite He, He'.
Qed.

Lemma get_ent_lookup db nm i : get_ent db nm = Some i → ∃ e, tabs db !! i = Some e ∧ ent_name e = nm.
Proof.
  unfold get_ent. intros (e & _ & Hi & He)%find_index_Some. rewrite Nat.sub_0_r in Hi. exists e. split; [done|by apply streq_true].
Qed.

Lemma find_index_snoc_ne {A} (p : A → bool) n l x : find_index p n l = None → p x = false → find_index p n (l ++ [x]) = None.
Proof. revert n; induction l as [|y l IH]; intros n; simpl; [by intros _ ->|]. destruct (p y); [done|]. apply IH. Qed.

(** Loading one table changes no table for a snapshot. *)
Lemma need_ent_alike db nm r db' s :
  db_ok db → 1 ≤ s → need_ent db nm = Some (r, db') →
  alike s db db' ∧ match r with
                   | Some i => ∃ r', tab_vis db' i s = Some r' ∧ (r' ≫= λ a, heap db' !! a) = table_at db s nm
                   | None => table_at db s nm = None
                   end.
Proof.
  intros Hok Hs En. destruct (need_ent_calm _ _ _ _ Hok En) as [Hc Hr]. pose proof (need_ent_disk _ _ _ _ En) as Hd.
  assert (∀ nm', table_at db' s nm' = table_at db s nm') as Ht.
  { intros nm'. pose proof Hd as (Hf & Hrt & _). unfold table_at. destruct (get_ent db nm') as [i|] eqn:Eg.
    - rewrite (get_ent_kept db db' nm' i) by (done || by apply (same_view_names []), Hc).
      destruct (get_ent_lookup _ _ _ Eg) as (e & He & _).
      destruct (tab_vis_view [s] db db' i s) as (r' & -> & -> & Ha); [apply Hc|by left|by exists e|]. simpl.
      destruct r' as [a|]; [|done]. simpl. by rewrite Ha.
    - revert En. unfold need_ent. destruct (get_ent db nm) as [i|] eqn:Eg'; [intros [= _ <-]; by rewrite Eg|].
      destruct (tab_load (fs db) (root db) nm) as [[tab|]|] eqn:El; [|intros [= _ <-]; by rewrite Eg|done].
      simpl. intros [= _ <-]. unfold get_ent in *. simpl.
      destruct (streq nm nm') eqn:Enm.
      + apply streq_true in Enm as <-. rewrite (find_index_snoc _ 0) by (done || apply streq_refl). simpl.
        unfold tab_vis. simpl. rewrite lookup_app_r, Nat.sub_diag by lia. simpl. rewrite lookup_insert_eq. simpl.
        apply tab_load_ok in El as El'. destruct El' as (_ & _ & _ & Hv & _). rewrite (proj2 (Z.ltb_ge _ _)) by lia. simpl.
        rewrite lookup_insert_eq. by rewrite El.
      + by rewrite find_index_snoc_ne. }
  split; [by split|]. destruct r as [i|].
  - pose proof (need_ent_get _ _ _ _ En) as Hg. destruct (get_ent_lookup _ _ _ Hg) as (e & He & _).
    rewrite <- Ht. unfold table_at. rewrite Hg. unfold tab_vis. rewrite He. simpl.
    destruct (db_ok_chain db' i e (cm_ok _ _ _ Hc) He) as [Hgd _]. destruct (vis_walk_good _ _ _ s _ Hgd) as (r' & -> & _).
    by exists r'.
  - subst db'. unfold table_at. revert En. unfold need_ent. destruct (get_ent db nm); [done|].
    by destruct (tab_load _ _ _) as [[?|]|].
Qed.

Lemma table_at_ok db s nm t : db_ok db → table_at db s nm = Some t → tab_ok t.
Proof.
  intros Hok. unfold table_at. destruct (get_ent db nm) as [i|] eqn:Eg.
  - destruct (get_ent_lookup _ _ _ Eg) as (e & He & _). unfold tab_vis. rewrite He. simpl.
    destruct (db_ok_chain db i e Hok He) as [Hg _]. destruct (vis_walk_good _ _ _ s _ Hg) as ([a|] & -> & Hr); [|done].
    simpl. destruct Hr as [Hin _]. intros Ha. destruct (chain_good_in _ _ _ _ a Hg Hin) as (t' & Ht' & _ & Htok & _).
    rewrite Ha in Ht'. by injection Ht' as <-.
  - destruct (tab_load _ _ _) as [[tab|]|] eqn:El; [|done..]. intros [= <-]. by apply tab_load_ok in El as (? & _).
Qed.

(** A read returns, with what [read_of] says. *)
Lemma do_read_of db s sql :
  db_ok db → loads db → 1 ≤ s →
  ∃ db' rc r, do_read db s sql = Some (rc, db', r) ∧ read_of db s sql = Some (rc, r) ∧ alike s db db'.
Proof.
  intros Hok Hl Hs. unfold do_read, read_of. destruct (parse_ok db sql res_clr) as [stmt|r].
  2:{ exists db, (-1), r. by split_and!; [..|apply alike_refl]. }
  destruct (stype stmt) eqn:Ety; try (eexists db, _, _; by split_and!; [..|apply alike_refl]).
  destruct (need_ent_total db (table_name stmt) Hl) as (ent & db1 & En). rewrite En.
  destruct (need_ent_alike _ _ _ _ s Hok Hs En) as [Hal Hr]. destruct ent as [i|].
  - destruct Hr as (r' & Hvis & Ht). cbn [mbind option_bind]. rewrite Hvis. cbn [mbind option_bind]. destruct r' as [a|]; simpl in Ht.
    + assert (∃ t, heap db1 !! a = Some t) as [t Ha].
      { unfold tab_vis in Hvis. destruct (tabs db1 !! i) as [e|] eqn:He; [|done]. simpl in Hvis.
        destruct (db_ok_chain db1 i e (cm_ok _ _ _ (al_calm _ _ _ Hal)) He) as [Hg _].
        destruct (vis_walk_good _ _ _ s _ Hg) as (r' & E & Hr'). rewrite Hvis in E. injection E as <-. destruct Hr' as (_ & t & ? & _). eauto. }
      rewrite <- Ht, Ha. unfold exec_at. rewrite Ha. unfold exec_stmt. rewrite Ety.
      destruct (sel_do_total t stmt (set_snap_id res_clr s)) as [[rc r] ->].
      { eapply table_at_ok; [exact Hok|]. by rewrite <- Ht. }
      rewrite set_heap_same by done. by exists db1, rc, r.
    + rewrite <- Ht. by eexists db1, _, _.
  - cbn [mbind option_bind]. rewrite Hr. by eexists db1, _, _.
Qed.
