(* ===== verification/CacheFresh.v ===== *)
(** The query cache in front of the database, with any number of requests in
    flight: a cached answer is never stale.

    A query of [do_sql] is several steps, between which transactions, other
    queries and the cache go on: it asks for the version of its table, looks the
    cache up with it, and when that fails runs the query and stores the answer
    under the version it asked for at the start. *)

From Stdlib Require Import String.
From S2P Require Import Prelude CString Mvcc Parser Values Table TableProofs InsertProofs SelectProofs ParserProofs.
From S2P Require Import Store StoreProofs Db DbProofs Isolation Commit System Single Batch QueryCache CacheProofs.
From S2P Require Import SystemClaims Resp JsonText Render RenderProofs Moved.
From stdpp Require Import base numbers list option gmap relations.
Local Open Scope Z_scope.

(** ** Requests in flight *)

(** A query on its way through [do_sql] with the version it got: before the
    lookup, after a miss, with a snapshot, with the result read under it, and with
    an answer that is not stored yet. *)
Inductive Pend :=
| PVer (sql : cstr) (v : Z)
| PMiss (sql : cstr) (v : Z)
| PSnap (sql : cstr) (v s : Z)
| PRead (sql : cstr) (v s rc : Z) (r : DbRes)
| PData (sql : cstr) (v : Z) (d : cstr).

Record World := mkWorld { w_sys : Sys; w_cache : Cache; w_pend : list Pend }.

(** The snapshots the queries hold. *)
Definition pend_snap (p : Pend) : list Z :=
  match p with PSnap _ _ s | PRead _ _ s _ _ => [s] | _ => [] end.
Definition held (p : list Pend) : list Z := flat_map pend_snap p.

Section fresh.
Context (io_ok : nat → bool) (Hio : ∀ n, io_ok n = true) (realloc_ok : Z → bool).

(** A step of another client, which leaves the snapshots of the queries alone, or
    one call of [do_sql] for one of the queries. *)
Inductive wstep : World → World → Prop :=
| ws_sys s s' c p : step io_ok s s' → held p ⊆+ s_rd s' → wstep (mkWorld s c p) (mkWorld s' c p)
| ws_ver db db' txs rd c p sql stmt v :
    parse_statement sql = Some stmt → stype stmt = STMT_SELECT →
    db_tab_ver db (table_name stmt) = Some (v, db') → steady db db' txs →
    wstep (mkWorld (mkSys db txs rd) c p) (mkWorld (mkSys db' txs rd) c (p ++ [PVer sql v]))
| ws_lookup s c c' p1 p2 sql v ttl malloc_ok now found :
    0 < v → query_cache_lookup ttl malloc_ok now c sql v = Some (found, c') →
    wstep (mkWorld s c (p1 ++ PVer sql v :: p2))
          (mkWorld s c' (p1 ++ match found with inl _ => [] | inr _ => [PMiss sql v] end ++ p2))
| ws_unknown s c p1 p2 sql v :
    v ≤ 0 → wstep (mkWorld s c (p1 ++ PVer sql v :: p2)) (mkWorld s c (p1 ++ PMiss sql v :: p2))
| ws_refused s c p1 p2 sql v e :
    parse_ok (s_db s) sql res_clr = inr e →
    wstep (mkWorld s c (p1 ++ PMiss sql v :: p2)) (mkWorld s c (p1 ++ p2))
| ws_snap db db' s txs rd c p1 p2 sql v :
    db_snap db = (s, db') → s ≠ 0 →
    wstep (mkWorld (mkSys db txs rd) c (p1 ++ PMiss sql v :: p2))
          (mkWorld (mkSys db' txs (rd ++ [s])) c (p1 ++ PSnap sql v s :: p2))
| ws_read db db' s txs r1 r2 c p1 p2 sql v rc r :
    do_read db s sql = Some (rc, db', r) → steady db db' txs →
    wstep (mkWorld (mkSys db txs (r1 ++ s :: r2)) c (p1 ++ PSnap sql v s :: p2))
          (mkWorld (mkSys db' txs (r1 ++ s :: r2)) c (p1 ++ PRead sql v s rc r :: p2))
| ws_done db db' s txs r1 r2 c p1 p2 sql v rc r dump :
    db_done db s = Some db' →
    Z.of_nat (length (jtext (jv_data r))) + 1 ≤ SMALL → sql_data_dump realloc_ok r = Some dump →
    wstep (mkWorld (mkSys db txs (r1 ++ s :: r2)) c (p1 ++ PRead sql v s rc r :: p2))
          (mkWorld (mkSys db' txs (r1 ++ r2)) c
             (p1 ++ match dump with Some d => if rc =? 0 then [PData sql v d] else [] | None => [] end ++ p2))
| ws_store s c c' p1 p2 sql v d ttl dup_ok malloc_ok now :
    0 < v → query_cache_store ttl dup_ok malloc_ok now c sql v d = Some c' →
    wstep (mkWorld s c (p1 ++ PData sql v d :: p2)) (mkWorld s c' (p1 ++ p2))
| ws_drop s c p1 p2 sql v d :
    v ≤ 0 → wstep (mkWorld s c (p1 ++ PData sql v d :: p2)) (mkWorld s c (p1 ++ p2)).

(** What the query answers on the newest version of its table. *)
Definition answer_now (db : Db) (sql : cstr) : option cstr :=
  stmt ← parse_statement sql; t ← current db (table_name stmt); sel_data t stmt.

(** The version of a table that a snapshot sees. *)
Definition sees (db : Db) (s : Z) (nm : cstr) : option TabVer :=
  i ← get_ent db nm; r ← tab_vis db i s; a ← r; heap db !! a.

(** ** The invariant *)

(** The table of a query is loaded and has version [v] or a later one. *)
Definition reached (db : Db) (sql : cstr) (v : Z) (P : TabVer → Statement → Prop) : Prop :=
  ∃ stmt t, parse_statement sql = Some stmt ∧ stype stmt = STMT_SELECT ∧
    current db (table_name stmt) = Some t ∧ v ≤ ver_id t ∧ (ver_id t = v → P t stmt).

(** A body kept under version [v] is the answer as long as that is the newest. *)
Definition body_fresh (db : Db) (sql : cstr) (v : Z) (b : cstr) : Prop :=
  reached db sql v (λ t stmt, sel_data t stmt = Some b).

Definition pend_ok (db : Db) (p : Pend) : Prop :=
  match p with PVer sql v | PMiss sql v => 0 < v → reached db sql v (λ _ _, True) | _ => True end.

Record world_ok (w : World) : Prop := {
  wo_sys : sys_ok (w_sys w);
  wo_cache : cache_inv (w_cache w);
  wo_held : held (w_pend w) ⊆+ s_rd (w_sys w);
  wo_pend : ∀ p, p ∈ w_pend w → pend_ok (s_db (w_sys w)) p;
}.

(** All the answers of the world have the property [G]: those in the cache and
    those on their way. *)
Definition pend_all (G : cstr → Z → cstr → Prop) (db : Db) (p : Pend) : Prop :=
  match p with
  | PVer _ _ | PMiss _ _ => True
  | PSnap sql v s => 0 < v → ∃ stmt t, parse_statement sql = Some stmt ∧ stype stmt = STMT_SELECT ∧
      sees db s (table_name stmt) = Some t ∧ tab_ok t ∧ ∀ b, sel_data t stmt = Some b → G sql v b
  | PRead sql v s rc r => 0 < v → rc = 0 → G sql v (jtext (jv_data r))
  | PData sql v d => 0 < v → G sql v d
  end.

Record all_answers (G : cstr → Z → cstr → Prop) (w : World) : Prop := {
  aa_cache : ∀ k b v x, view (w_cache w) !! k = Some (b, v, x) → G k v b;
  aa_pend : ∀ p, p ∈ w_pend w → pend_all G (s_db (w_sys w)) p;
}.

Lemma all_answers_mono (G G' : cstr → Z → cstr → Prop) w :
  (∀ k v b, G k v b → G' k v b) → all_answers G w → all_answers G' w.
Proof.
  intros H [H1 H2]. split; [eauto|]. intros p Hp. specialize (H2 p Hp). destruct p as [| |sql v s| |]; simpl in *; auto.
  intros Hv. destruct (H2 Hv) as (stmt & t & ? & ? & ? & ? & ?). exists stmt, t. split_and!; auto.
Qed.

Lemma held_app p1 p2 : held (p1 ++ p2) = held p1 ++ held p2.
Proof. apply flat_map_app. Qed.

Lemma held_in p q s : q ∈ p → s ∈ pend_snap q → s ∈ held p.
Proof. intros Hq Hs. unfold held. apply list_elem_of_In, in_flat_map. exists q. by rewrite <- !list_elem_of_In. Qed.

Lemma reached_moved db db' sql v P : db_ok db → moved db db' → reached db sql v P → reached db' sql v P.
Proof.
  intros Hok Hm (stmt & t & H1 & H2 & H3 & H4 & H5). destruct (current_good _ _ _ Hok H3) as [[_ Hv] _].
  destruct (current_moved _ _ _ _ Hm H3) as (t' & Ht' & [->|Hgt]); exists stmt; [by exists t|].
  exists t'. split_and!; [done|done|done|lia|lia].
Qed.

Lemma pend_moved db db' p : db_ok db → moved db db' → pend_ok db p → pend_ok db' p.
Proof. intros Hok Hm. destruct p; simpl; try done; intros H Hv; (eapply reached_moved; [exact Hok|exact Hm|by apply H]). Qed.

(** What a live snapshot sees stays. *)
Lemma sees_view live db db' s nm t : same_view live db db' → s ∈ live → sees db s nm = Some t → sees db' s nm = Some t.
Proof.
  intros Hv Hs. unfold sees. destruct (get_ent db nm) as [i|] eqn:Eg; [|done]. simpl.
  rewrite (get_ent_kept db db' nm i); [|by eapply same_view_names|done]. simpl. unfold tab_vis.
  destruct (tabs db !! i) as [e|] eqn:Ee; [|done]. simpl. destruct (Hv i e Ee) as (e' & -> & _ & H). simpl.
  destruct (H s Hs) as (r & -> & -> & Ha). simpl. destruct r as [a|]; [|done]. simpl. by rewrite (Ha a eq_refl).
Qed.

(** A snapshot taken now sees the newest version. *)
Lemma sees_current db nm t s :
  db_ok db → cur_ver (mv db) ≤ s → current db nm = Some t → sees db s nm = Some t.
Proof.
  intros Hok Hs. unfold current, sees. destruct (get_ent db nm) as [i|]; [|done]. simpl.
  intros (e & a & He & Hh & Ha)%newest_spec. unfold tab_vis. rewrite He. simpl.
  destruct (db_ok_chain db i e Hok He) as [Hg _]. destruct (chain e) as [|a0 ch]; [done|]. injection Hh as ->.
  by rewrite (vis_walk_head _ _ _ _ _ _ Hg) by lia.
Qed.

(** The read of a query answers on the version its snapshot sees. *)
Lemma do_read_sees db s sql stmt t db' r :
  parse_statement sql = Some stmt → stype stmt = STMT_SELECT → sees db s (table_name stmt) = Some t → tab_ok t →
  do_read db s sql = Some (0, db', r) → sel_data t stmt = Some (jtext (jv_data r)).
Proof.
  intros Hp Hty Hs Hok. unfold do_read. destruct (parse_ok db sql res_clr) as [stmt'|e] eqn:Ep; [|done].
  apply parse_ok_inl in Ep. rewrite Hp in Ep. injection Ep as <-. rewrite Hty.
  revert Hs. unfold sees, need_ent. destruct (get_ent db (table_name stmt)) as [i|]; [|done]. simpl.
  destruct (tab_vis db i s) as [[a|]|]; [|done|done]. simpl. intros Ha. unfold exec_at. rewrite Ha.
  unfold exec_stmt. rewrite Hty. destruct (sel_do t stmt _) as [[rc0 r0]|] eqn:Es; [|done]. intros [= -> _ <-].
  by destruct (sel_data_snap _ _ _ _ _ Hok Es) as [[_ ?]|[? _]].
Qed.

(** ** How the world changes *)

Section steps.
Context (G : cstr → Z → cstr → Prop).

(** A step of the database below a list of queries. *)
Lemma under_step s s' c p :
  world_ok (mkWorld s c p) → step io_ok s s' → held p ⊆+ s_rd s' → world_ok (mkWorld s' c p).
Proof.
  intros [H1 H2 H3 H4] Hst Hh. simpl in *. pose proof (step_moved io_ok Hio _ _ H1 Hst) as Hm. pose proof (so_db _ H1) as Hdb.
  split; simpl; [by apply (step_spec io_ok Hio s)|done|done|]. intros q Hq. eapply pend_moved; [done|done|by apply H4].
Qed.

Lemma under_answers s s' c p :
  world_ok (mkWorld s c p) → step io_ok s s' → held p ⊆+ s_rd s' →
  all_answers G (mkWorld s c p) → all_answers G (mkWorld s' c p).
Proof.
  intros [H1 _ _ _] Hst Hh [A1 A2]. simpl in *. destruct (step_spec io_ok Hio _ _ H1 Hst) as [Hok' Hview].
  split; simpl; [done|]. intros q Hq. specialize (A2 q Hq). destruct q as [| |sql v sn| |]; simpl in *; auto.
  intros Hv. destruct (A2 Hv) as (stmt & t & ? & ? & Hs & ? & ?). exists stmt, t. split_and!; try done.
  eapply sees_view; [exact Hview| |exact Hs]. rewrite (so_snaps _ Hok'). apply elem_of_app. right.
  eapply elem_of_submseteq; [|exact Hh]. eapply held_in; [exact Hq|]. by left.
Qed.

(** Another list of queries. *)
Lemma other_pend s c p p' :
  world_ok (mkWorld s c p) → held p' ⊆+ s_rd s → (∀ q, q ∈ p' → q ∈ p ∨ pend_ok (s_db s) q) → world_ok (mkWorld s c p').
Proof. intros [H1 H2 H3 H4] Hh Hp. split; try done. intros q Hq. destruct (Hp q Hq); auto. Qed.

Lemma other_answers s c p p' :
  all_answers G (mkWorld s c p) → (∀ q, q ∈ p' → q ∈ p ∨ pend_all G (s_db s) q) → all_answers G (mkWorld s c p').
Proof. intros [H1 H2] Hp. split; [done|]. intros q Hq. destruct (Hp q Hq); auto. Qed.

Lemma in_middle (p1 p2 : list Pend) q new p : p ∈ p1 ++ new ++ p2 → p ∈ p1 ++ q :: p2 ∨ p ∈ new.
Proof. rewrite !elem_of_app, elem_of_cons. naive_solver. Qed.

(** A version just read is that of the newest table. *)
Lemma ver_reached db db' sql stmt v :
  db_ok db → parse_statement sql = Some stmt → stype stmt = STMT_SELECT →
  db_tab_ver db (table_name stmt) = Some (v, db') → pend_ok db' (PVer sql v).
Proof.
  intros Hok Hp Hty Hv H0.
  destruct (db_tab_ver_current _ _ _ _ Hok Hv H0) as (t & Ht & <-). exists stmt, t. by split_and!.
Qed.

(** Every way the lookup ends shrinks the map at most. *)
Lemma lookup_sub ttl m now c k v found c' :
  cache_inv c → query_cache_lookup ttl m now c k v = Some (found, c') →
  cache_inv c' ∧ view c' ⊆ view c ∧
  (∀ b, found = inl b → ∃ x, view c !! k = Some (b, v, x)).
Proof.
  intros Hc E. destruct (decide (k = [])) as [->|Hk].
  { simpl in E. injection E as <- <-. by split_and!. }
  destruct (lookup_spec ttl m now c k v Hc Hk) as (r & c1 & E' & Hc1 & H). rewrite E in E'. injection E' as <- <-.
  split; [done|]. destruct (view c !! k) as [[[b v'] x]|]; [|destruct H as [-> ->]; by split].
  destruct (x <=? now); [destruct H as [-> ->]; split; [apply delete_subseteq|done]|].
  destruct (Z.eqb_spec v' v) as [->|_]; simpl in H; destruct H as [-> ->]; [|split; [apply delete_subseteq|done]].
  split; [done|]. destruct m; [|done]. intros b' [= <-]. by exists x.
Qed.

(** What a store can put into the map. *)
Lemma store_sub ttl du m now c k v d c' :
  cache_inv c → query_cache_store ttl du m now c k v d = Some c' →
  cache_inv c' ∧ ∀ k' b' v' x', view c' !! k' = Some (b', v', x') →
    view c !! k' = Some (b', v', x') ∨ (k' = k ∧ b' = d ∧ v' = v).
Proof.
  intros Hc E. destruct (decide (k = [])) as [->|Hk].
  { simpl in E. injection E as <-. split; [done|]. intros. by left. }
  destruct (store_spec ttl du m now c k v d Hc Hk) as (c1 & E' & Hc1 & H). rewrite E in E'. injection E' as <-.
  split; [done|]. intros k' b' v' x' Hx. cbv zeta in H. destruct (_ <? _); [rewrite H in Hx; by left|].
  destruct (stored du m c k); [|left; by eapply lookup_weaken].
  destruct H as [H|(_ & _ & i & e & k1 & _ & _ & _ & _ & H)]; rewrite H in Hx;
    apply lookup_insert_Some in Hx as [[<- [= <- <- <-]]|[_ Hx]]; auto.
  apply lookup_delete_Some in Hx as [_ Hx]. by left.
Qed.


(** Removing the entry of a held snapshot. *)
Lemma held_release p1 p2 q s r1 r2 :
  pend_snap q = [s] → held (p1 ++ q :: p2) ⊆+ r1 ++ s :: r2 → held (p1 ++ p2) ⊆+ r1 ++ r2.
Proof.
  intros Hq. rewrite !held_app. simpl. rewrite Hq. simpl. rewrite <- !Permutation_middle.
  apply (submseteq_app_inv_l _ _ [s]).
Qed.

Lemma held_swap p1 p2 q new l :
  held (p1 ++ q :: p2) ⊆+ l → held new ⊆+ pend_snap q → held (p1 ++ new ++ p2) ⊆+ l.
Proof.
  intros H Hn. etransitivity; [|exact H]. rewrite !held_app. simpl. fold (held p2).
  apply submseteq_app; [done|]. by apply submseteq_app.
Qed.
Definition both (w : World) : Prop := world_ok w ∧ all_answers G w.

(** One query of the list replaced by [new]. *)
Lemma both_swap s c p1 p2 q new :
  both (mkWorld s c (p1 ++ q :: p2)) → held new ⊆+ pend_snap q →
  (∀ p, p ∈ new → pend_ok (s_db s) p ∧ pend_all G (s_db s) p) → both (mkWorld s c (p1 ++ new ++ p2)).
Proof.
  intros [Hw Ha] Hh Hn. split.
  - eapply other_pend; [exact Hw| |].
    + eapply held_swap; [apply (wo_held _ Hw)|done].
    + intros p [?|Hp]%(in_middle _ _ q); [by left|right; by apply Hn].
  - eapply other_answers; [exact Ha|]. intros p [?|Hp]%(in_middle _ _ q); [by left|right; by apply Hn].
Qed.

Lemma both_step s s' c p :
  both (mkWorld s c p) → step io_ok s s' → held p ⊆+ s_rd s' → both (mkWorld s' c p).
Proof. intros [Hw Ha] Hst Hh. split; [by eapply under_step|by eapply under_answers]. Qed.

(** The cache gives up entries, or takes one. *)
Lemma both_cache s c c' p :
  both (mkWorld s c p) → cache_inv c' →
  (∀ k b v x, view c' !! k = Some (b, v, x) → view c !! k = Some (b, v, x) ∨ G k v b) → both (mkWorld s c' p).
Proof.
  intros [[H1 H2 H3 H4] [A1 A2]] Hc Hv. simpl in *. split; split; simpl; try done.
  intros k b v x Hx. destruct (Hv _ _ _ _ Hx) as [?|?]; [by eapply A1|done].
Qed.

Lemma both_in s c p1 p2 q : both (mkWorld s c (p1 ++ q :: p2)) → pend_ok (s_db s) q ∧ pend_all G (s_db s) q.
Proof. intros [[_ _ _ H] [_ A]]. simpl in *. split; [apply H|apply A]; apply elem_of_app; right; by left. Qed.

Lemma both_nil s c p1 p2 q : both (mkWorld s c (p1 ++ q :: p2)) → both (mkWorld s c (p1 ++ p2)).
Proof.
  intros H. eapply (both_swap _ _ _ _ _ []); [exact H|apply submseteq_nil_l|by intros p ?%not_elem_of_nil].
Qed.

Lemma both_one s c p1 p2 q q' :
  both (mkWorld s c (p1 ++ q :: p2)) → pend_snap q' ⊆+ pend_snap q →
  pend_ok (s_db s) q' → pend_all G (s_db s) q' → both (mkWorld s c (p1 ++ q' :: p2)).
Proof.
  intros H Hh H1 H2. eapply (both_swap _ _ _ _ _ [q']); [exact H|unfold held; simpl; by rewrite app_nil_r|].
  intros p ->%list_elem_of_singleton. done.
Qed.

(** A query takes its snapshot. *)
Lemma both_snap db db' sn txs rd c p1 p2 sql v :
  (0 < v → reached db' sql v (λ _ _, True) → ∀ b, answer_now db' sql = Some b → G sql v b) →
  both (mkWorld (mkSys db txs rd) c (p1 ++ PMiss sql v :: p2)) → db_snap db = (sn, db') → sn ≠ 0 →
  both (mkWorld (mkSys db' txs (rd ++ [sn])) c (p1 ++ PSnap sql v sn :: p2)).
Proof.
  intros Hnow Hb E Hne. pose proof (wo_held _ (proj1 Hb)) as Hh. simpl in Hh.
  pose proof (so_db _ (wo_sys _ (proj1 Hb))) as Hdb. simpl in Hdb.
  pose proof (db_snap_spec _ _ _ Hdb E) as [Hs Hd'].
  eapply both_step in Hb; [|by apply (st_snap io_ok db db' sn txs rd)|simpl; etransitivity; [exact Hh|apply submseteq_inserts_r; done]].
  destruct (both_in _ _ _ _ _ Hb) as [Hr _]. simpl in Hr. destruct Hb as [Hw Ha].
  pose proof (so_db _ (wo_sys _ Hw)) as Hdb'. simpl in Hdb'.
  split.
  - eapply other_pend; [exact Hw| |].
    + simpl. rewrite held_app in Hh |- *. simpl in Hh |- *. rewrite <- Permutation_middle, <- Permutation_cons_append.
      by apply submseteq_skip.
    + intros p [?|Hp]%(in_middle p1 p2 (PMiss sql v) [PSnap sql v sn]); [by left|right].
      by apply list_elem_of_singleton in Hp as ->.
  - eapply other_answers; [exact Ha|]. intros p [?|Hp]%(in_middle p1 p2 (PMiss sql v) [PSnap sql v sn]); [by left|right].
    apply list_elem_of_singleton in Hp as ->. simpl. intros Hv. specialize (Hnow Hv (Hr Hv)).
    destruct (Hr Hv) as (stmt & t & H1 & H2 & H3 & _). exists stmt, t. split_and!; [done|done| | |].
    + apply sees_current; [done| |done]. rewrite Hd', Hs. simpl. by rewrite cur_ver_snap.
    + by destruct (current_good _ _ _ Hdb' H3).
    + intros b Hd. apply Hnow. unfold answer_now. rewrite H1. simpl. by rewrite H3.
Qed.

(** It reads under the snapshot. *)
Lemma both_read db db' sn txs r1 r2 c p1 p2 sql v rc r :
  both (mkWorld (mkSys db txs (r1 ++ sn :: r2)) c (p1 ++ PSnap sql v sn :: p2)) →
  do_read db sn sql = Some (rc, db', r) → steady db db' txs →
  both (mkWorld (mkSys db' txs (r1 ++ sn :: r2)) c (p1 ++ PRead sql v sn rc r :: p2)).
Proof.
  intros Hb E Hsd. destruct (both_in _ _ _ _ _ Hb) as [_ Ha]. simpl in Ha.
  eapply both_one; [eapply both_step; [exact Hb|by eapply st_read|apply (wo_held _ (proj1 Hb))]|done|done|].
  simpl. intros Hv ->. destruct (Ha Hv) as (stmt & t & H1 & H2 & H3 & H4 & H5). apply H5.
  by eapply do_read_sees.
Qed.

(** It gives the snapshot back and dumps its answer. *)
Lemma both_done db db' sn txs r1 r2 c p1 p2 sql v rc r dump :
  both (mkWorld (mkSys db txs (r1 ++ sn :: r2)) c (p1 ++ PRead sql v sn rc r :: p2)) →
  db_done db sn = Some db' →
  Z.of_nat (length (jtext (jv_data r))) + 1 ≤ SMALL → sql_data_dump realloc_ok r = Some dump →
  both (mkWorld (mkSys db' txs (r1 ++ r2)) c
          (p1 ++ match dump with Some d => if rc =? 0 then [PData sql v d] else [] | None => [] end ++ p2)).
Proof.
  intros Hb E Hsz Hd. pose proof (wo_held _ (proj1 Hb)) as Hh. simpl in Hh.
  destruct (both_in _ _ _ _ _ Hb) as [_ Ha]. simpl in Ha.
  assert (both (mkWorld (mkSys db txs (r1 ++ sn :: r2)) c (p1 ++
    match dump with Some d => if rc =? 0 then [PData sql v d] else [] | None => [] end ++ p2))) as Hb'.
  { eapply both_swap; [exact Hb| |].
    - destruct dump; [destruct (rc =? 0)|]; apply submseteq_nil_l.
    - intros p Hp. destruct dump as [d|]; [|by apply not_elem_of_nil in Hp].
      destruct (Z.eqb_spec rc 0) as [->|_]; [|by apply not_elem_of_nil in Hp].
      apply list_elem_of_singleton in Hp as ->. split; [done|]. simpl. intros Hv.
      destruct (sql_data_dump_spec realloc_ok r Hsz) as (d' & E' & _ & [->| ->]); rewrite Hd in E'; [done|].
      injection E' as ->. by apply Ha. }
  eapply both_step; [exact Hb'|by apply st_done|]. simpl.
  eapply held_release in Hh; [|done]. etransitivity; [|exact Hh].
  rewrite !held_app. apply submseteq_app; [done|]. destruct dump; [destruct (rc =? 0)|]; done.
Qed.

Lemma wstep_both w w' :
  (∀ sql v b, 0 < v → reached (s_db (w_sys w')) sql v (λ _ _, True) → answer_now (s_db (w_sys w')) sql = Some b → G sql v b) →
  both w → wstep w w' → both w'.
Proof.
  intros Hnow Hb Hst. destruct Hst as [s s' c p H Hh|db db' txs rd c p sql stmt v Hp Hty Hv Hsd|s c c' p1 p2 sql v ttl m now found H0 Hl
    |s c p1 p2 sql v H0|s c p1 p2 sql v e He|db db' sn txs rd c p1 p2 sql v E Hne|db db' sn txs r1 r2 c p1 p2 sql v rc r E Hsd
    |db db' sn txs r1 r2 c p1 p2 sql v rc r dump E Hsz Hd|s c c' p1 p2 sql v d ttl du m now H0 Hs|s c p1 p2 sql v d H0].
  - by eapply both_step.
  - pose proof (so_db _ (wo_sys _ (proj1 Hb))) as Hdb. simpl in Hdb.
    assert (both (mkWorld (mkSys db' txs rd) c p)) as [Hw Ha].
    { eapply both_step; [exact Hb|by eapply st_ver|apply (wo_held _ (proj1 Hb))]. }
    assert (∀ q, q ∈ p ++ [PVer sql v] → q ∈ p ∨ q = PVer sql v) as Hq.
    { intros q [?|?%list_elem_of_singleton]%elem_of_app; auto. }
    split; [eapply other_pend; [exact Hw| |]|eapply other_answers; [exact Ha|]].
    + rewrite held_app. simpl. rewrite app_nil_r. apply (wo_held _ Hw).
    + intros q [?| ->]%Hq; [by left|right]. by eapply ver_reached.
    + intros q [?| ->]%Hq; [by left|by right].
  - destruct (lookup_sub _ _ _ _ _ _ _ _ (wo_cache _ (proj1 Hb)) Hl) as (Hc & Hsub & _).
    destruct (both_in _ _ _ _ _ Hb) as [Hr _].
    eapply both_cache in Hb; [|exact Hc|intros k b v' x Hx; left; by eapply lookup_weaken].
    eapply both_swap; [exact Hb|destruct found; done|]. intros q Hq.
    destruct found as [b|why]; [by apply not_elem_of_nil in Hq|]. by apply list_elem_of_singleton in Hq as ->.
  - destruct (both_in _ _ _ _ _ Hb) as [Hr _]. by eapply both_one.
  - by eapply both_nil.
  - eapply both_snap; [|done..]. intros. by apply Hnow.
  - by eapply both_read.
  - by eapply both_done.
  - destruct (store_sub _ _ _ _ _ _ _ _ _ (wo_cache _ (proj1 Hb)) Hs) as (Hc & Hsub).
    destruct (both_in _ _ _ _ _ Hb) as [_ Ha]. simpl in Ha. eapply both_nil, both_cache; [exact Hb|exact Hc|].
    intros k b v' x Hx. destruct (Hsub k b v' x Hx) as [?|(-> & -> & ->)]; [by left|right]. by apply Ha.
  - by eapply both_nil.
Qed.
End steps.

(** ** From the start *)

Lemma wstep_moved w w' : sys_ok (w_sys w) → wstep w w' → moved (s_db (w_sys w)) (s_db (w_sys w')).
Proof.
  intros Hok Hst. pose proof (so_db _ Hok) as Hdb.
  destruct Hst; simpl in *; try apply moved_refl.
  - by eapply step_moved.
  - eapply calm_moved; [done|by eapply db_tab_ver_calm].
  - by eapply (step_moved io_ok Hio (mkSys db txs rd) (mkSys db' txs (rd ++ [s]))); [|apply st_snap].
  - eapply calm_moved; [done|by eapply do_read_calm].
  - by eapply (step_moved io_ok Hio (mkSys db txs (r1 ++ s :: r2)) (mkSys db' txs (r1 ++ r2))); [|apply st_done].
Qed.

Definition fresh_in (w : World) : cstr → Z → cstr → Prop := body_fresh (s_db (w_sys w)).

Lemma wstep_fresh w w' : both (fresh_in w) w → wstep w w' → both (fresh_in w') w'.
Proof.
  intros [Hw Ha] Hst. eapply wstep_both; [|split; [exact Hw|]|exact Hst].
  - intros sql v b _ (stmt & t & H1 & H2 & H3 & H4 & _) Hn. exists stmt, t. split_and!; try done. intros _.
    revert Hn. unfold answer_now. rewrite H1. simpl. by rewrite H3.
  - eapply all_answers_mono; [|exact Ha]. intros k v b. apply reached_moved; [apply Hw|].
    by apply wstep_moved; [apply Hw|].
Qed.

Lemma wsteps_fresh w w' : both (fresh_in w) w → rtc wstep w w' → both (fresh_in w') w'.
Proof. intros H Hs. induction Hs as [|w1 w2 w3 H1 _ IH]; [done|]. apply IH. by eapply wstep_fresh. Qed.

(** The answer at some moment between two worlds. *)
Definition answered (w0 w : World) (sql0 : cstr) (v0 : Z) (sql : cstr) (v : Z) (b : cstr) : Prop :=
  sql = sql0 → v = v0 → ∃ w1, rtc wstep w0 w1 ∧ rtc wstep w1 w ∧ answer_now (s_db (w_sys w1)) sql0 = Some b.

Lemma wsteps_answered w0 sql0 v0 w w' :
  rtc wstep w0 w → both (answered w0 w sql0 v0) w → rtc wstep w w' → both (answered w0 w' sql0 v0) w'.
Proof.
  intros H0 H Hs. induction Hs as [|w1 w2 w3 H1 Hs IH]; [done|]. apply IH; [by eapply rtc_r|].
  eapply wstep_both; [|split; [apply H|]|exact H1].
  - intros sql v b _ _ Hb -> ->. exists w2. split; [by eapply rtc_r|]. by split; [apply rtc_refl|].
  - eapply all_answers_mono; [|apply H]. intros k v b Hk -> ->. destruct (Hk eq_refl eq_refl) as (w4 & ? & ? & ?).
    exists w4. split_and!; [done|by eapply rtc_r|done].
Qed.

Lemma start_fresh f dir ms mq : both (fresh_in (mkWorld (mkSys (db_open f dir ms mq) [] []) g_cache []))
  (mkWorld (mkSys (db_open f dir ms mq) [] []) g_cache []).
Proof.
  split.
  - split; simpl; [apply db_open_ok|apply g_cache_inv|done|by intros p ?%not_elem_of_nil].
  - split; simpl; [|by intros p ?%not_elem_of_nil]. intros k b v x.
    by rewrite (view_unused g_cache) by apply g_cache_inv.
Qed.
End fresh.


(** ** A query answered out of the cache after its table has changed *)

Definition got {A} (d : A) (o : option A) : A := match o with Some x => x | None => d end.

Lemma got_eq {A} (d : A) (o : option A) : (match o with Some _ => true | None => false end) = true → o = Some (got d o).
Proof. by destruct o. Qed.

Definition cf_sql : cstr := lit "SELECT * FROM t".
Definition cf_loaded : Db := snd (got (0, demo) (db_tab_ver demo (lit "t"))).
Definition cf_rd : Z * Db * DbRes := got (-1, demo, res_clr) (do_read (did_snap cf_loaded) 1 cf_sql).
Definition cf_done : Db := got demo (db_done (snd (fst cf_rd)) 1).
Definition cf_missed : Cache := snd (got (inr MISS_NONE, g_cache) (query_cache_lookup None true 0 g_cache cf_sql 1)).
Definition cf_body : cstr := jtext (jv_data (snd cf_rd)).
Definition cf_stored : Cache := got g_cache (query_cache_store None true true 0 cf_missed cf_sql 1 cf_body).
Definition cf_begun : Db := snd (fst (db_begin cf_done)).
Definition cf_tx : DbTx := snd (db_begin cf_done).
Definition cf_ins : Z * Db * DbTx * DbRes := did_txdo cf_begun cf_tx "INSERT INTO t VALUES (2, 'b')".
Definition cf_written : Db := snd (fst (fst cf_ins)).
Definition cf_tx2 : DbTx := snd (fst cf_ins).
Definition cf_committed : Db := did_commit cf_written cf_tx2.
Definition cf_stmt : Statement := got (stmt0 STMT_UNRECOGNIZED) (parse_statement cf_sql).

(** The world in which the query is asked again, with [p] under way. *)
Definition cf_world (p : list Pend) : World := mkWorld (mkSys cf_done [] []) cf_stored p.

Lemma cf_ver_eq : db_tab_ver demo (lit "t") = Some (1, cf_loaded).
Proof.
  assert (fst <$> db_tab_ver demo (lit "t") = Some 1) as H by (vm_compute; reflexivity).
  unfold cf_loaded. destruct (db_tab_ver demo (lit "t")) as [[v db]|]; [|done]. simpl in H. by injection H as ->.
Qed.

Lemma cf_asked : rtc (wstep saves (fun _ => true)) (mkWorld (mkSys demo [] []) g_cache []) (cf_world []).
Proof.
  assert (parse_statement cf_sql = Some cf_stmt) as Hp by (apply got_eq; vm_compute; reflexivity).
  eapply rtc_l.
  { apply (ws_ver saves _ demo cf_loaded [] [] g_cache [] cf_sql cf_stmt 1 Hp); [reflexivity|exact cf_ver_eq|by right]. }
  eapply rtc_l.
  { apply (ws_lookup saves _ _ g_cache cf_missed [] [] cf_sql 1 None true 0 (inr MISS_NO_ENTRY)); [done|].
    unfold cf_missed. assert (fst <$> query_cache_lookup None true 0 g_cache cf_sql 1 = Some (inr MISS_NO_ENTRY)) as H
      by (vm_compute; reflexivity).
    destruct (query_cache_lookup _ _ _ _ _ _) as [[r c]|]; [|done]. simpl in H. by injection H as ->. }
  eapply rtc_l.
  { apply (ws_snap saves _ cf_loaded (did_snap cf_loaded) 1 [] [] cf_missed [] [] cf_sql 1); [vm_compute; reflexivity|done]. }
  assert (fst (fst cf_rd) = 0) as H0 by (vm_compute; reflexivity).
  eapply rtc_l.
  { apply (ws_read saves _ (did_snap cf_loaded) (snd (fst cf_rd)) 1 [] [] [] cf_missed [] [] cf_sql 1 0 (snd cf_rd)).
    - rewrite <- H0. rewrite <- !surjective_pairing. apply got_eq. vm_compute. reflexivity.
    - by right. }
  eapply rtc_l.
  { apply (ws_done saves _ _ cf_done 1 [] [] [] cf_missed [] [] cf_sql 1 0 (snd cf_rd) (Some cf_body)).
    - apply got_eq. vm_compute. reflexivity.
    - vm_compute. discriminate.
    - vm_compute. reflexivity. }
  eapply rtc_l; [|apply rtc_refl].
  apply (ws_store saves _ _ cf_missed cf_stored [] [] cf_sql 1 cf_body None true true 0); [done|].
  apply got_eq. vm_compute. reflexivity.
Qed.

Lemma cf_ins_eq :
  db_txdo cf_begun cf_tx (lit "INSERT INTO t VALUES (2, 'b')") = Some (0, cf_written, cf_tx2, snd cf_ins).
Proof.
  assert (fst (fst (fst cf_ins)) = 0) as H by (vm_compute; reflexivity).
  unfold cf_written, cf_tx2. rewrite <- H, <- !surjective_pairing.
  apply (got_eq (-1, cf_begun, cf_tx, res_clr)). vm_compute. reflexivity.
Qed.

Lemma cf_commit_eq : ∃ tx', db_commit saves cf_written cf_tx2 = Some (0, cf_committed, tx').
Proof.
  assert ((fun r => fst (fst r)) <$> db_commit saves cf_written cf_tx2 = Some 0) as H by (vm_compute; reflexivity).
  unfold cf_committed, did_commit. destruct (db_commit _ _ _) as [[[rc db] tx]|]; [|done].
  simpl in H. injection H as ->. by exists tx.
Qed.

Lemma cf_write_steps :
  step saves (mkSys cf_done [] []) (mkSys cf_begun [(cf_tx, false)] []) ∧
  step saves (mkSys cf_begun [(cf_tx, false)] []) (mkSys cf_written [(cf_tx2, false)] []) ∧
  step saves (mkSys cf_written [(cf_tx2, false)] []) (mkSys cf_committed [] []).
Proof.
  split_and!.
  - apply (st_begin saves cf_done cf_begun cf_tx [] []). vm_compute. reflexivity.
  - apply (st_txdo saves cf_begun cf_written cf_tx cf_tx2 [] [] [] _ 0 _ cf_ins_eq); [|left; vm_compute; reflexivity].
    apply txdo_safeb_ok. vm_compute. reflexivity.
  - destruct cf_commit_eq as (tx' & E). apply (st_commit saves _ cf_committed _ tx' [] [] [] E). vm_compute. reflexivity.
Qed.

Lemma cf_write p : held p = [] →
  rtc (wstep saves (fun _ => true)) (cf_world p) (mkWorld (mkSys cf_committed [] []) cf_stored p).
Proof.
  intros Hp. destruct cf_write_steps as (H1 & H2 & H3).
  eapply rtc_l; [apply (ws_sys saves _ _ _ _ _ H1); by rewrite Hp|].
  eapply rtc_l; [apply (ws_sys saves _ _ _ _ _ H2); by rewrite Hp|].
  eapply rtc_l; [apply (ws_sys saves _ _ _ _ _ H3); by rewrite Hp|apply rtc_refl].
Qed.

Lemma cf_hit : ∃ c', query_cache_lookup None true 1 cf_stored cf_sql 1 = Some (inl cf_body, c').
Proof.
  assert (fst <$> query_cache_lookup None true 1 cf_stored cf_sql 1 = Some (inl cf_body)) as H by (vm_compute; reflexivity).
  destruct (query_cache_lookup _ _ _ _ _ _) as [[r c']|]; [|done]. simpl in H. injection H as ->. by exists c'.
Qed.

