(* ===== verification/RouteProofs.v ===== *)
(** The handlers: reads spread over the database pool, the query cache in front of
    the database, and what every handler answers. *)

From Stdlib Require Import String.
From S2P Require Import Prelude CString Mvcc Parser Values Table TableProofs InsertProofs SelectProofs.
From S2P Require Import ParserProofs Store StoreProofs Db DbProofs Isolation Commit System Single Batch.
From S2P Require Import Pool QueryCache CacheProofs Stats Resp Json JsonText Render RenderProofs Http Route Moved.
From stdpp Require Import base numbers list option gmap relations.
Local Open Scope Z_scope.

(** ** Jobs in the database pool *)

Section jobs.
Context (e : Env) (s : Z) (Hs : 1 ≤ s).

(** The job [j'] is [j] after it ran. *)
Definition ran (db : Db) (j j' : QJob) : Prop :=
  q_sql j' = q_sql j ∧ q_name j' = q_name j ∧ q_done j' = true ∧
  read_of db s (q_sql j) = Some (q_rc j', q_res j').

Lemma qjob_run_ran db i tid j :
  db_ok db → loads db → ∃ db' j', qjob_run e db s i tid j = Some (db', j') ∧ ran db j j' ∧ alike s db db'.
Proof.
  intros Hok Hl. destruct (do_read_of db s (q_sql j) Hok Hl Hs) as (db' & rc & r & E & Er & Ha).
  unfold qjob_run. rewrite E. eexists _, _. split; [done|]. by split.
Qed.

(** The jobs of [order] have run, the others not. *)
Definition ran_some (db : Db) (order : list nat) (js js' : list QJob) : Prop :=
  Forall2 (λ j j', q_sql j' = q_sql j ∧ q_name j' = q_name j) js js' ∧
  ∀ i j j', js !! i = Some j → js' !! i = Some j' → if decide (i ∈ order) then ran db j j' else j' = j.

Lemma run_jobs_spec db base js order :
  db_ok db → loads db → Forall (λ i, (i < length js)%nat) order →
  ∃ db' js', run_jobs e db s base js order = Some (db', js') ∧ alike s db db' ∧ ran_some db order js js'.
Proof.
  revert db js; induction order as [|i order IH]; intros db js Hok Hl Ho.
  { exists db, js. split; [done|]. split; [by apply alike_refl|]. split; [|by intros ? ? ? -> [= ->]].
    by apply Forall_Forall2_diag, Forall_true. }
  apply Forall_cons_1 in Ho as [Hi Ho]. apply lookup_lt_is_Some_2 in Hi as [j Hj]. simpl. rewrite Hj.
  destruct (qjob_run_ran db (base + i) (e_job_tid e (base + i)) j Hok Hl) as (db1 & j1 & -> & Hr & Ha). cbn [mbind option_bind].
  destruct (IH db1 (<[i:=j1]> js)) as (db2 & js2 & -> & Ha2 & [Hq Hr2]);
    [apply Ha|by eapply alike_loads|by rewrite length_insert|].
  exists db2, js2. split; [done|]. split; [by eapply alike_trans|]. pose proof (lookup_lt_Some _ _ _ Hj) as Hlt. split.
  - apply Forall2_same_length_lookup in Hq as [Hlen Hq]. rewrite length_insert in Hlen.
    apply Forall2_same_length_lookup. split; [done|]. intros k x y Hx Hy. destruct (decide (k = i)) as [->|Hne].
    + rewrite Hj in Hx. injection Hx as <-. destruct (Hq i j1 y) as [-> ->]; [by rewrite list_lookup_insert_eq|done|]. by destruct Hr as (-> & -> & _).
    + apply (Hq k); [|done]. by rewrite list_lookup_insert_ne.
  - intros k x y Hx Hy. destruct (decide (k = i)) as [->|Hne].
    + rewrite Hj in Hx. injection Hx as <-. rewrite decide_True by by left.
      specialize (Hr2 i j1 y). rewrite list_lookup_insert_eq in Hr2 by done. specialize (Hr2 eq_refl Hy). case_decide.
      * destruct Hr as (R1 & R2 & R3 & R4), Hr2 as (T1 & T2 & T3 & T4). split_and!; try congruence.
        rewrite <- T4, R1. symmetry. by apply alike_read.
      * by rewrite Hr2.
    + specialize (Hr2 k x y). rewrite list_lookup_insert_ne in Hr2 by done. specialize (Hr2 Hx Hy).
      destruct (decide (k ∈ order)) as [Hin|Hin].
      * rewrite decide_True by by right. destruct Hr2 as (T1 & T2 & T3 & T4). split_and!; try done.
        rewrite <- T4. symmetry. by apply alike_read.
      * rewrite decide_False; [done|]. by intros [?|?]%elem_of_cons.
Qed.

Lemma taken_all i n : (∀ k, e_accept e k = true) → taken e i n = n.
Proof. intros H. revert i; induction n as [|n IH]; intros i; simpl; [done|]. by rewrite H, IH. Qed.

Lemma taken_le i n : (taken e i n ≤ n)%nat.
Proof. revert i; induction n as [|n IH]; intros i; simpl; [done|]. destruct (e_accept e i); [|lia]. specialize (IH (S i)). lia. Qed.

(** A round: whatever the pool takes, it returns, and the jobs it took have run. *)
Lemma run_round_spec db base r js i n :
  db_ok db → loads db → (i + n ≤ length js)%nat →
  ∃ db' js', run_round e db s base r js i n = Some (bool_decide (taken e (base + i) n = n), db', js') ∧ alike s db db' ∧
    ran_some db (List.filter (λ x, (x <? i + taken e (base + i) n)%nat) (e_order e r)) js js'.
Proof.
  intros Hok Hl Hn. unfold run_round.
  destruct (run_jobs_spec db base js (List.filter (λ x, (x <? i + taken e (base + i) n)%nat) (e_order e r)) Hok Hl)
    as (db' & js' & -> & Ha & Hr).
  { apply Forall_forall. intros x Hx. apply list_elem_of_In, filter_In in Hx as [_ Hx].
    apply Nat.ltb_lt in Hx. pose proof (taken_le (base + i) n). lia. }
  by exists db', js'.
Qed.

Lemma ran_some_trans db db1 o1 o2 js js1 js2 :
  alike s db db1 → ran_some db o1 js js1 → ran_some db1 o2 js1 js2 → ran_some db (o2 ++ o1) js js2.
Proof.
  intros Ha [H1 R1] [H2 R2]. split.
  - clear R1 R2. revert js2 H2. induction H1 as [|x y js js1 [E1 E2] _ IH]; intros js2 H2; inversion H2 as [|? z ? js3 [E3 E4]]; subst; constructor;
      [split; congruence|by apply IH].
  - intros i j j2 Hj Hj2. destruct (Forall2_lookup_l _ _ _ _ _ H1 Hj) as (j1 & Hj1 & Hq & Hn).
    specialize (R1 i j j1 Hj Hj1). specialize (R2 i j1 j2 Hj1 Hj2).
    destruct (decide (i ∈ o2)) as [Hi2|Hi2].
    + rewrite decide_True by (apply elem_of_app; by left). destruct R2 as (T1 & T2 & T3 & T4). split_and!; try congruence.
      rewrite <- T4, Hq. symmetry. by apply alike_read.
    + subst j2. destruct (decide (i ∈ o1)) as [Hi1|Hi1].
      * by rewrite decide_True by (apply elem_of_app; by right).
      * rewrite decide_False by (rewrite elem_of_app; tauto). done.
Qed.

Lemma ran_some_all db o js js' :
  ran_some db o js js' → (∀ i, (i < length js)%nat → i ∈ o) → Forall2 (ran db) js js'.
Proof.
  intros [H R] Ho. pose proof (Forall2_length _ _ _ H) as Hl. apply Forall2_same_length_lookup. split; [done|].
  intros i x y Hx Hy. specialize (R i x y Hx Hy). rewrite decide_True in R; [done|]. apply Ho. by eapply lookup_lt_Some.
Qed.

(** The rounds of the page: the workers run the jobs of each round in any order. *)
Definition page_order (w : nat) : Prop :=
  ∀ r, e_order e r ≡ₚ seq (r * w) (Nat.min w (PAGE_QUERY_COUNT - r * w)).

Lemma page_rounds_spec fuel db0 db base r js0 js o w :
  db_ok db → loads db → length js0 = PAGE_QUERY_COUNT → (1 ≤ w)%nat → (PAGE_QUERY_COUNT ≤ fuel + r)%nat →
  (∀ k, e_accept e k = true) → page_order w →
  alike s db0 db → ran_some db0 o js0 js → (∀ i, (i < r * w)%nat → (i < PAGE_QUERY_COUNT)%nat → i ∈ o) →
  ∃ db' js', page_rounds e fuel db s base r js (r * w) w = Some (true, db', js') ∧ alike s db0 db' ∧ Forall2 (ran db0) js0 js'.
Proof.
  intros Hok Hl Hlen Hw Hf Hacc Hord. revert db r js o Hok Hl Hf; induction fuel as [|fuel IH]; intros db r js o Hok Hl Hf Ha Hr Ho.
  - simpl. rewrite (proj2 (Nat.ltb_ge _ _)) by (unfold PAGE_QUERY_COUNT in *; nia).
    exists db, js. split; [done|]. split; [done|]. eapply ran_some_all; [exact Hr|]. rewrite Hlen.
    intros i Hi. apply Ho; [unfold PAGE_QUERY_COUNT in *; nia|done].
  - cbn [page_rounds]. destruct (Nat.ltb_spec (r * w) PAGE_QUERY_COUNT) as [Hlt|Hge].
    + pose proof (Forall2_length _ _ _ (proj1 Hr)) as Hlj. set (n := Nat.min w (PAGE_QUERY_COUNT - r * w)).
      destruct (run_round_spec db base r js (r * w) n Hok Hl) as (db1 & js1 & -> & Ha1 & Hr1); [unfold n; lia|].
      cbn [mbind option_bind]. rewrite taken_all in * by done. rewrite bool_decide_true by done.
      assert (r * w + w = S r * w)%nat as -> by lia.
      eapply (IH db1 (S r) js1 (_ ++ o)); [apply Ha1|by eapply alike_loads|lia|by eapply alike_trans|by eapply ran_some_trans|].
      intros i Hi Hi4. apply elem_of_app. destruct (decide (i < r * w)%nat); [right; by apply Ho|left].
      apply list_elem_of_In, filter_In. split; [|apply Nat.ltb_lt; unfold n; lia].
      apply list_elem_of_In. rewrite (Hord r). apply elem_of_seq. unfold n in *. lia.
    + exists db, js. split; [done|]. split; [done|]. eapply ran_some_all; [exact Hr|]. rewrite Hlen.
      intros i Hi. apply Ho; [lia|done].
Qed.

(** The same jobs on this thread, in turn. *)
Lemma run_sync_spec db i js :
  db_ok db → loads db → ∃ db' js', run_sync e db s i js = Some (db', js') ∧ alike s db db' ∧ Forall2 (ran db) js js'.
Proof.
  revert db i; induction js as [|j js IH]; intros db i Hok Hl; simpl.
  { exists db, []. split_and!; [done|by apply alike_refl|constructor]. }
  destruct (qjob_run_ran db i (e_tid e) j Hok Hl) as (db1 & j1 & -> & Hr & Ha). cbn [mbind option_bind].
  destruct (IH db1 (S i)) as (db2 & js2 & -> & Ha2 & Hr2); [apply Ha|by eapply alike_loads|]. cbn [mbind option_bind].
  exists db2, (j1 :: js2). split; [done|]. split; [by eapply alike_trans|]. constructor; [done|].
  eapply Forall2_impl; [exact Hr2|]. intros x y (T1 & T2 & T3 & T4). split_and!; try done.
  rewrite <- T4. symmetry. by apply alike_read.
Qed.
End jobs.

(** ** A snapshot around the reads *)

Lemma snap_around db :
  db_ok db →
  ∃ db1, db_snap db = (cur_ver (mv db), db1) ∧ 1 ≤ cur_ver (mv db) ∧ db_ok db1 ∧ (loads db → loads db1) ∧
    (∀ sql, read_of db1 (cur_ver (mv db)) sql = read_of db (cur_ver (mv db)) sql) ∧
    ∀ db2, alike (cur_ver (mv db)) db1 db2 →
      ∃ db3, db_done db2 (cur_ver (mv db)) = Some db3 ∧ db_ok db3 ∧ snaps (mv db3) ≡ₚ snaps (mv db) ∧ moved db db3.
Proof.
  intros Hok. destruct (db_snap db) as [s0 db1] eqn:Es. pose proof (db_snap_spec _ _ _ Hok Es) as [-> ->].
  pose proof (mo_ver _ (do_mv _ Hok)) as Hv. eexists. split; [done|]. split; [lia|].
  assert (db_ok (set_mv db (snd (mv_snap true (mv db))))) as Hok1 by by apply db_ok_snap.
  split; [done|]. split; [by intros Hl nm; apply Hl|]. split; [done|]. intros db2 Ha.
  destruct (release_spec db2 (cur_ver (mv db)) (cm_ok _ _ _ (al_calm _ _ _ Ha))) as (db3 & E & Hc).
  exists db3. split; [exact E|]. split; [apply Hc|]. split.
  - rewrite (co_mv _ _ _ Hc). apply gc_perm; [apply Ha|]. rewrite (cm_mv _ _ _ (al_calm _ _ _ Ha)). simpl.
    destruct (mv_snap_true _ (do_mv _ Hok)) as [_ ->]. by rewrite <- Permutation_cons_append.
  - eapply moved_trans; [by apply snap_moved|]. eapply moved_trans; [by eapply calm_moved, Ha|by eapply collected_moved].
Qed.

(** ** The page *)

Definition outcome (j : QJob) : cstr * Z * DbRes := (q_name j, q_rc j, q_res j).

Lemma ran_outcomes s db js js1 js2 : Forall2 (ran s db) js js1 → Forall2 (ran s db) js js2 → map outcome js1 = map outcome js2.
Proof.
  intros H. revert js2; induction H as [|j j1 js js1 R1 _ IH]; intros js2 H2; inversion H2 as [|? j2 ? js3 R2]; subst; [done|].
  simpl. f_equal; [|by apply IH]. destruct R1 as (_ & N1 & _ & E1), R2 as (_ & N2 & _ & E2). unfold outcome. congruence.
Qed.

Lemma page_jobs_sqls sqls base delay : (length sqls = PAGE_QUERY_COUNT)%nat → map q_sql (page_jobs sqls base delay) = sqls.
Proof. do 5 (destruct sqls as [|? sqls]; try done). Qed.

Lemma page_jobs_ran s db sqls b1 b2 d js :
  Forall2 (ran s db) (page_jobs sqls b1 d) js → Forall2 (ran s db) (page_jobs sqls b2 d) js.
Proof.
  unfold page_jobs. revert js. generalize page_names. induction sqls as [|sql sqls IH]; intros [|nm nms] js H; simpl in *;
    try (inversion H; by constructor). inversion H; subst. constructor; [done|by apply IH].
Qed.

Lemma page_jobs_results s db sqls b d js :
  (length sqls = PAGE_QUERY_COUNT)%nat → Forall2 (ran s db) (page_jobs sqls b d) js →
  Forall2 (λ sql j, read_of db s sql = Some (q_rc j, q_res j)) sqls js.
Proof.
  intros Hl H. rewrite <- (page_jobs_sqls sqls b d Hl). apply Forall2_fmap_l.
  eapply Forall2_impl; [exact H|]. by intros x y (_ & _ & _ & ?).
Qed.

(** C19. The page does not depend on the schedule.  On any well-formed database the
    four reads of the page, spread over the database pool in rounds of any number
    of workers that run them in any order on whatever threads, give every query the
    same code and the same result as running them in turn on one thread: those of
    a read of its own on the version of the database at the start; both ways give
    the snapshot back and keep the newest version of every table. *)
Theorem page_reads_schedule_free (e : Env) (db : Db) (base base' : nat) (sqls : list cstr) (delay t0 t1 t0' t1' : Z) (w : nat) :
  db_ok db → loads db → length sqls = PAGE_QUERY_COUNT → (1 ≤ w)%nat → (∀ k, e_accept e k = true) → page_order e w →
  ∃ pjs pm pdb sjs sm sdb,
    page_run_parallel e db base sqls delay w t0 t1 = Some (PageDone pjs pm, pdb) ∧
    page_run_sequential e db base' sqls delay t0' t1' = Some (PageDone sjs sm, sdb) ∧
    map outcome pjs = map outcome sjs ∧
    Forall2 (λ sql j, read_of db (cur_ver (mv db)) sql = Some (q_rc j, q_res j)) sqls pjs ∧
    (∀ b, add_page_data b pjs = add_page_data b sjs) ∧
    (∀ d, d = pdb ∨ d = sdb → db_ok d ∧ snaps (mv d) ≡ₚ snaps (mv db) ∧ moved db d).
Proof.
  intros Hok Hl Hlen Hw Hacc Hord. destruct (snap_around db Hok) as (db1 & Es & Hs & Hok1 & Hl1 & Hread & Hdone).
  specialize (Hl1 Hl). unfold page_run_parallel, page_run_sequential. rewrite Es, (proj2 (Z.eqb_neq _ _)) by lia.
  assert (∀ b, length (page_jobs sqls b delay) = PAGE_QUERY_COUNT) as Hjl by (by do 5 (destruct sqls as [|? sqls]; try done)).
  destruct (page_rounds_spec e (cur_ver (mv db)) Hs PAGE_QUERY_COUNT db1 db1 base 0 (page_jobs sqls t0 delay) (page_jobs sqls t0 delay) [] w)
    as (db2 & pjs & Ep & Ha2 & Hr2); try done; [by apply alike_refl| |intros i Hi; simpl in Hi; lia|].
  { split; [by apply Forall_Forall2_diag, Forall_true|]. by intros i j j' -> [= ->]. }
  cbn [Nat.mul] in Ep. rewrite Ep. cbn [mbind option_bind]. destruct (Hdone _ Ha2) as (pdb & -> & P1 & P2 & P3). cbn [mbind option_bind].
  destruct (run_sync_spec e (cur_ver (mv db)) Hs db1 base' (page_jobs sqls t0' delay) Hok1 Hl1) as (db3 & sjs & -> & Ha3 & Hr3).
  cbn [mbind option_bind]. destruct (Hdone _ Ha3) as (sdb & -> & S1 & S2 & S3). cbn [mbind option_bind].
  pose proof (page_jobs_ran _ _ _ _ t0 _ _ Hr3) as Hr3'. pose proof (ran_outcomes _ _ _ _ _ Hr2 Hr3') as Hout.
  eexists pjs, _, pdb, sjs, _, sdb. split; [done|]. split; [done|]. split; [done|]. split; [|split].
  - eapply Forall2_impl; [by eapply page_jobs_results|]. simpl. intros sql j. by rewrite Hread.
  - intros b. unfold add_page_data. assert (∀ i, q_result pjs i = q_result sjs i) as Hq; [|by rewrite !Hq].
    intros i. unfold q_result. apply (f_equal (λ l, snd <$> l !! i)) in Hout. rewrite !list_lookup_fmap in Hout.
    destruct (pjs !! i), (sjs !! i); simpl in Hout; congruence.
  - by intros d [->| ->].
Qed.

(** ** A batch of reads *)

Lemma reads_results s db (f : cstr → QJob) sqls js :
  (∀ sql, q_sql (f sql) = sql) → Forall2 (ran s db) (map f sqls) js →
  Forall2 (λ sql r, ∃ rc, read_of db s sql = Some (rc, r)) sqls (map q_res js).
Proof.
  intros Hf. revert js; induction sqls as [|sql sqls IH]; intros js H; inversion H as [|? j ? js2 (_ & _ & _ & R)]; subst;
    constructor; [|by apply IH].
  exists (q_rc j). by rewrite <- (Hf sql).
Qed.

(** A batch of reads is one read.  When the pool takes all the statements of a
    batch outside a transaction that only reads, in any order and on any threads,
    the answer has, in the order of the statements, the results of each of them on
    the version of the database at the start.  When the pool refuses one of them
    the answer is that the queue is full.  Either way the handler waits for the
    jobs the pool did take, gives its one snapshot back, and keeps the newest
    version of every table. *)
Theorem batch_reads_one_snapshot (e : Env) (srv : Srv) (id : cstr) (sqls : list cstr) :
  db_ok (srv_db srv) → loads (srv_db srv) → e_jobs e = true → e_order e 0 ≡ₚ seq 0 (length sqls) →
  ∃ db results,
    db_ok db ∧ snaps (mv db) ≡ₚ snaps (mv (srv_db srv)) ∧ moved (srv_db srv) db ∧
    Forall2 (λ sql r, ∃ rc, read_of (srv_db srv) (cur_ver (mv (srv_db srv))) sql = Some (rc, r)) sqls results ∧
    if bool_decide (taken e 0 (length sqls) = length sqls) then
      ∃ lat st, batch_reads e srv id sqls =
        (res ← batch_ok (e_realloc e) id results lat; Some (res, with_stats (with_db srv db) st))
    else batch_reads e srv id sqls = fail e (with_db srv db) id 503 "Q_FULL" "db queue full".
Proof.
  intros Hok Hl Hj Hord. destruct (snap_around (srv_db srv) Hok) as (db1 & Es & Hs & Hok1 & Hl1 & Hread & Hdone).
  specialize (Hl1 Hl). unfold batch_reads. rewrite Es, (proj2 (Z.eqb_neq _ _)), Hj by lia. cbn [negb].
  set (js := map (λ sql, qjob_init sql [] (e_ms e 1) 0) sqls). assert (length js = length sqls) as Hlen by apply length_map.
  destruct (run_round_spec e _ Hs db1 0 0 js 0 (length js) Hok1 Hl1) as (db2 & js1 & E & Ha & Hr); [lia|].
  rewrite E. cbn [mbind option_bind Nat.add]. destruct (Hdone _ Ha) as (db3 & -> & D1 & D2 & D3). cbn [mbind option_bind].
  clear E. cbn [Nat.add] in *. rewrite Hlen in *. case_bool_decide as Hall.
  - exists db3, (map q_res js1). split_and!; try done.
    + eapply Forall2_impl; [apply (reads_results (cur_ver (mv (srv_db srv))) db1 (λ sql, qjob_init sql [] (e_ms e 1) 0)); [done|]|simpl; intros sql r [rc Hrc]; exists rc; by rewrite <- Hread].
      fold js. eapply ran_some_all; [exact Hr|]. intros i Hi. apply list_elem_of_In, filter_In. rewrite Hall. split; [|apply Nat.ltb_lt; lia].
      apply list_elem_of_In. rewrite Hord. apply elem_of_seq. lia.
    + eexists _, (λ st, api_stats_add_json_ns _ (api_stats_add_engine_ns _ st)). reflexivity.
  - destruct (run_sync_spec e _ Hs db1 0 js Hok1 Hl1) as (db4 & js4 & _ & _ & Hran).
    exists db3, (map q_res js4). split_and!; try done.
    eapply Forall2_impl; [apply (reads_results (cur_ver (mv (srv_db srv))) db1 (λ sql, qjob_init sql [] (e_ms e 1) 0)); [done|exact Hran]|].
    simpl; intros sql r [rc Hrc]; exists rc; by rewrite <- Hread.
Qed.

(** ** A shop to try the handlers on *)

Definition shop_file : cstr := lit "id(PK),user_id,zone" ++ [NL] ++ lit "1,1,seoul_east" ++ [NL] ++ lit "2,7,default" ++ [NL].
Definition shop_tables : list cstr := [lit "restaurants"; lit "orders"; lit "coupons"; lit "cart"].
Definition shop : Db :=
  db_open (list_to_map (map (λ nm, (path_csv (lit "d") nm, shop_file)) shop_tables)) (lit "d") 0 100.

(** Three workers, who take the jobs of a round out of order. *)
Definition shop_env (accept : nat → bool) : Env :=
  mkEnv (λ _, true) true (λ _, true) true true true None (λ _, 0) (λ _, 0) 0 (λ i, Z.of_nat i + 1) (λ i, Z.of_nat i)
    (λ i, Z.of_nat i + 2) accept (λ r, match r with O => [2; 0; 1] | 1 => [3] | _ => [] end)%nat (λ _, FileBad) (λ _, true).

Lemma shop_ok : db_ok shop.
Proof. exact (so_db _ (db_open_ok _ _ 0 100)). Qed.

Lemma shop_loads : loads shop.
Proof.
  intros nm. unfold tab_load. destruct (fs shop !! path_csv (root shop) nm) as [s|] eqn:E; [|done].
  assert (s = shop_file) as ->; [|vm_compute; discriminate].
  apply elem_of_list_to_map_2 in E. unfold shop_tables in E. simpl in E.
  repeat (apply elem_of_cons in E as [[= _ ->]|E]; [done|]). by apply not_elem_of_nil in E.
Qed.

Lemma shop_order a : page_order (shop_env a) 3.
Proof.
  intros [|[|r]]; [apply (Permutation_middle [0; 1]%nat [] 2%nat)|done|].
  replace (Nat.min 3 (PAGE_QUERY_COUNT - S (S r) * 3)) with 0%nat by (unfold PAGE_QUERY_COUNT; lia). done.
Qed.

Definition shop_sqls : list cstr :=
  [lit "SELECT * FROM restaurants WHERE zone = 'seoul_east'"; lit "SELECT * FROM orders WHERE user_id = '1'";
   lit "SELECT * FROM coupons WHERE user_id = '1'"; lit "SELECT * FROM cart WHERE user_id = '7'"].

Lemma page_reads_schedule_free_witness :
  ∃ pjs pm pdb, page_run_parallel (shop_env (λ _, true)) shop 4 shop_sqls 0 3 0 0 = Some (PageDone pjs pm, pdb) ∧
    map (λ j, (q_rc j, count (q_res j))) pjs = [(0, 1); (0, 1); (0, 1); (0, 1)] ∧ db_ok pdb ∧ moved shop pdb.
Proof.
  destruct (page_reads_schedule_free (shop_env (λ _, true)) shop 4 0 shop_sqls 0 0 0 0 0 3)
    as (pjs & pm & pdb & sjs & sm & sdb & E & _ & _ & Hr & _ & Hd).
  - exact shop_ok.
  - exact shop_loads.
  - reflexivity.
  - lia.
  - reflexivity.
  - apply shop_order.
  - exists pjs, pm, pdb. split; [exact E|]. destruct (Hd pdb) as (H1 & _ & H2); [by left|]. split; [|by split].
    assert (match page_run_parallel (shop_env (λ _, true)) shop 4 shop_sqls 0 3 0 0 with
            | Some (PageDone js _, _) => map (λ j, (q_rc j, count (q_res j))) js | _ => [] end
            = [(0, 1); (0, 1); (0, 1); (0, 1)]) as H by (vm_compute; reflexivity).
    by rewrite E in H.
Defined.

Definition shop_pool : Pool := mkPool [] 1 1 false 0 0 0 [].
Definition shop_srv : Srv := mkSrv shop g_cache (api_stats_init 0) shop_pool shop_pool 8080 0 0 100 false 0.

Lemma batch_reads_one_snapshot_witness :
  ∃ db, batch_reads (shop_env (λ i, negb (i =? 2)%nat)) shop_srv (lit "7") (take 3 shop_sqls) =
      fail (shop_env (λ i, negb (i =? 2)%nat)) (with_db shop_srv db) (lit "7") 503 "Q_FULL" "db queue full" ∧
    db_ok db ∧ snaps (mv db) ≡ₚ [].
Proof.
  destruct (batch_reads_one_snapshot (shop_env (λ i, negb (i =? 2)%nat)) shop_srv (lit "7") (take 3 shop_sqls))
    as (db & rs & H1 & H2 & _ & _ & H).
  - exact shop_ok.
  - exact shop_loads.
  - reflexivity.
  - apply (Permutation_middle [0; 1]%nat [] 2%nat).
  - exists db. split; [|by split]. rewrite bool_decide_false in H by (vm_compute; discriminate). exact H.
Defined.
