(* ===== verification/SqlProofs.v ===== *)
(** [do_sql] with the query cache in front of the database: its calls are steps of
    [CacheFresh], and its answer is the one the database alone would give. *)

From Stdlib Require Import String.
From S2P Require Import Prelude CString Mvcc Parser Values Table TableProofs InsertProofs SelectProofs.
From S2P Require Import ParserProofs Store StoreProofs Db DbProofs Isolation Commit System Single Batch QueryCache CacheProofs.
From S2P Require Import Stats Resp Json JsonText Render RenderProofs Http Route Moved CacheFresh RouteProofs.
From stdpp Require Import base numbers list option gmap relations.
Local Open Scope Z_scope.

(** ** The database calls *)

Lemma table_at_current db nm t s : db_ok db → cur_ver (mv db) ≤ s → current db nm = Some t → table_at db s nm = Some t.
Proof.
  intros Hok Hs Ht. pose proof (sees_current _ _ _ _ Hok Hs Ht) as H. revert H. unfold current, sees, table_at in *.
  by destruct (get_ent db nm).
Qed.

Lemma db_tab_ver_alike db nm s :
  db_ok db → loads db → 1 ≤ s → ∃ v db', db_tab_ver db nm = Some (v, db') ∧ alike s db db'.
Proof.
  intros Hok Hl Hs. unfold db_tab_ver. destruct nm as [|c nm]; [by exists 0, db; split; [|apply alike_refl]|].
  destruct (need_ent_total db (c :: nm) Hl) as (ent & db1 & En). rewrite En.
  destruct (need_ent_alike _ _ _ _ s Hok Hs En) as [Ha _]. cbn [mbind option_bind].
  destruct ent as [i|]; [|by exists 0, db1]. pose proof (need_ent_get _ _ _ _ En) as Hg.
  destruct (get_ent_lookup _ _ _ Hg) as (e & He & _). rewrite He. cbn [mbind option_bind].
  destruct (chain e) as [|a ch] eqn:Ec; [by exists 0, db1|].
  destruct (db_ok_chain db1 i e (cm_ok _ _ _ (al_calm _ _ _ Ha)) He) as [Hgd _]. rewrite Ec in Hgd.
  destruct (chain_good_in _ _ _ _ a Hgd) as (t & -> & _); [by left|]. cbn [mbind option_bind]. by eexists _, db1.
Qed.

(** [db_exec] of a SELECT: a snapshot, the read, the release. *)
Lemma db_exec_reads io_ok db sql stmt :
  db_ok db → loads db → parse_ok db sql res_clr = inl stmt → stype stmt = STMT_SELECT →
  ∃ rc r db1 db2 db3, db_exec io_ok db sql = Some (rc, db3, r) ∧ read_of db (cur_ver (mv db)) sql = Some (rc, r) ∧
    db_snap db = (cur_ver (mv db), db1) ∧ cur_ver (mv db) ≠ 0 ∧ do_read db1 (cur_ver (mv db)) sql = Some (rc, db2, r) ∧
    db_done db2 (cur_ver (mv db)) = Some db3.
Proof.
  intros Hok Hl Hp Hty. destruct (snap_around db Hok) as (db1 & Es & Hs & Hok1 & Hl1 & Hread & Hdone).
  destruct (do_read_of db1 (cur_ver (mv db)) sql Hok1 (Hl1 Hl) Hs) as (db2 & rc & r & E & Er & Ha).
  destruct (Hdone db2 Ha) as (db3 & Ed & _). exists rc, r, db1, db2, db3. unfold db_exec. rewrite Hp, Hty, Es.
  rewrite (proj2 (Z.eqb_neq _ _)) by lia. rewrite E. cbn [mbind option_bind]. rewrite Ed, <- Hread. split_and!; try done. lia.
Qed.

(** ** The answer *)

Section sql.
Context (e : Env) (Hmem : ∀ n, e_realloc e n = true) (Hio : ∀ n, e_io e n = true).

(** The answer to a query whose read has the result [rc], [r]. *)
Definition sql_reply (id : cstr) (rc : Z) (r : DbRes) (ms us : Z) (cs cr : cstr) : option HttpRes :=
  if rc =? 0 then sql_ok_data (e_realloc e) id (jtext (jv_data r)) (e_tid e) ms us cs cr
  else err_res (e_realloc e) (http_of (err_code r)) (match err_code r with [] => lit "BAD_SQL" | c => c end)
         (match err_msg r with [] => lit "query failed" | m => m end) id.

Abbreviation path := (rtc (wstep (e_io e) (e_realloc e))).
Let world (s : Srv) (p : list Pend) : World := mkWorld (mkSys (srv_db s) [] []) (srv_cache s) p.

(** What holds of the server between two requests. *)
Definition srv_ok (s : Srv) : Prop := both (fresh_in (mkWorld (mkSys (srv_db s) [] []) (srv_cache s) []))
  (mkWorld (mkSys (srv_db s) [] []) (srv_cache s) []).

Lemma srv_ok_db s : srv_ok s → db_ok (srv_db s).
Proof. intros H. apply (so_db _ (wo_sys _ (proj1 H))). Qed.

Lemma sql_exec_path srv id sql stmt v why :
  srv_ok srv → loads (srv_db srv) → parse_ok (srv_db srv) sql res_clr = inl stmt → stype stmt = STMT_SELECT → sql ≠ [] →
  (∀ rc r, read_of (srv_db srv) (cur_ver (mv (srv_db srv))) sql = Some (rc, r) → Z.of_nat (length (jtext (jv_data r))) + 1 ≤ SMALL) →
  ∃ rc r srv' ms us,
    read_of (srv_db srv) (cur_ver (mv (srv_db srv))) sql = Some (rc, r) ∧
    sql_exec e srv id sql true v why =
      (res ← sql_reply id rc r ms us (lit "miss") why; Some (res, srv')) ∧
    path (world srv [PMiss sql v]) (world srv' []).
Proof.
  intros Hok Hl Hp Hty Hne Hsz. pose proof (srv_ok_db _ Hok) as Hdb.
  destruct (db_exec_reads (e_io e) (srv_db srv) sql stmt Hdb Hl Hp Hty) as (rc & r & db1 & db2 & db3 & E & Er & Es & Hs0 & Ed & Edn).
  unfold sql_exec. rewrite E. cbn [mbind option_bind]. specialize (Hsz _ _ Er).
  destruct (sql_data_dump_spec (e_realloc e) r Hsz) as (d & Edump & Hd & _). specialize (Hd Hmem). subst d.
  assert (path (world srv [PMiss sql v]) (mkWorld (mkSys db3 [] []) (srv_cache srv)
    (if rc =? 0 then [PData sql v (jtext (jv_data r))] else []))) as Hpath.
  { eapply rtc_l; [apply (ws_snap _ _ (srv_db srv) db1 _ [] [] _ [] [] sql v Es Hs0)|].
    eapply rtc_l; [apply (ws_read _ _ db1 db2 _ [] [] [] _ [] [] sql v rc r Ed); by right|].
    eapply rtc_l; [apply (ws_done _ _ db2 db3 _ [] [] [] _ [] [] sql v rc r (Some (jtext (jv_data r))) Edn Hsz Edump)|].
    simpl. rewrite app_nil_r. apply rtc_refl. }
  exists rc, r. unfold sql_reply. destruct (Z.eqb_spec rc 0) as [->|Hrc]; cbn [negb].
  - rewrite Edump. cbn [mbind option_bind andb]. destruct (Z.ltb_spec 0 v) as [Hv|Hv].
    + destruct (store_spec (e_ttl e) (e_dup e) (e_malloc e) (e_ns e 9) (srv_cache srv) sql v (jtext (jv_data r))) as (c' & Ec & _);
        [apply (wo_cache _ (proj1 Hok))|done|].
      eexists (with_cache _ c'), _, _. split; [done|]. split.
      * cbn [srv_cache with_db with_stats]. rewrite Ec. reflexivity.
      * etransitivity; [exact Hpath|]. eapply rtc_l; [|apply rtc_refl].
        apply (ws_store _ _ _ _ c' [] [] sql v _ _ _ _ _ Hv Ec).
    + eexists (with_stats _ _), _, _. split; [done|]. split; [reflexivity|]. etransitivity; [exact Hpath|].
      eapply rtc_l; [|apply rtc_refl]. apply (ws_drop _ _ _ _ [] [] sql v _ Hv).
  - eexists (with_stats _ _), 0, 0. split; [done|]. split; [reflexivity|]. exact Hpath.
Qed.

Lemma sql_cached_path srv id sql stmt :
  srv_ok srv → loads (srv_db srv) → parse_ok (srv_db srv) sql res_clr = inl stmt → stype stmt = STMT_SELECT → sql ≠ [] →
  (∀ rc r, read_of (srv_db srv) (cur_ver (mv (srv_db srv))) sql = Some (rc, r) → Z.of_nat (length (jtext (jv_data r))) + 1 ≤ SMALL) →
  ∃ rc r srv' ms us cs cr,
    read_of (srv_db srv) (cur_ver (mv (srv_db srv))) sql = Some (rc, r) ∧
    sql_cached e srv id sql (table_name stmt) = (res ← sql_reply id rc r ms us cs cr; Some (res, srv')) ∧
    path (world srv []) (world srv' []).
Proof.
  intros Hok Hl Hp Hty Hne Hsz. pose proof (srv_ok_db _ Hok) as Hdb. pose proof (parse_ok_inl _ _ _ _ Hp) as Hps.
  set (s := cur_ver (mv (srv_db srv))) in *. pose proof (mo_ver _ (do_mv _ Hdb)) as Hs. fold s in Hs.
  destruct (db_tab_ver_alike (srv_db srv) (table_name stmt) s Hdb Hl) as (v & db1 & Ev & Ha); [lia|].
  assert (wstep (e_io e) (e_realloc e) (world srv []) (mkWorld (mkSys db1 [] []) (srv_cache srv) [PVer sql v])) as Hw.
  { apply (ws_ver _ _ (srv_db srv) db1 [] [] (srv_cache srv) [] sql stmt v Hps Hty Ev). by right. }
  pose proof (wstep_fresh (e_io e) Hio (e_realloc e) _ _ Hok Hw) as Hb.
  pose proof (both_nil _ _ _ [] [] _ Hb) as Hb0. cbn [app] in Hb0. pose proof (al_calm _ _ _ Ha) as Hc.
  assert (cur_ver (mv db1) = s) as Hs1 by by rewrite (cm_mv _ _ _ Hc).
  assert (parse_ok db1 sql res_clr = inl stmt) as Hp1.
  { revert Hp. unfold parse_ok. destruct (al_disk _ _ _ Ha) as (_ & _ & ->). done. }
  unfold sql_cached. rewrite Ev. cbn [mbind option_bind]. cbn [srv_cache with_stats with_db].
  set (srv1 := with_stats (with_db srv db1) (api_stats_add_lock_wait_ns (since e 1 2))).
  assert (∀ srv2 why, srv_db srv2 = db1 → both (fresh_in (world srv2 [])) (world srv2 []) →
    wstep (e_io e) (e_realloc e) (mkWorld (mkSys db1 [] []) (srv_cache srv) [PVer sql v]) (world srv2 [PMiss sql v]) →
    ∃ rc r srv' ms us cs cr, read_of (srv_db srv) s sql = Some (rc, r) ∧
      sql_exec e (with_stats srv2 api_stats_note_cache_miss) id sql true v why =
        (res ← sql_reply id rc r ms us cs cr; Some (res, srv')) ∧ path (world srv []) (world srv' [])) as Hmiss.
  { intros srv2 why E2 Hok2 Hst.
    destruct (sql_exec_path (with_stats srv2 api_stats_note_cache_miss) id sql stmt v why) as (rc & r & srv' & ms & us & Er & Ee & Hpth);
      cbn [srv_db with_stats] in *; rewrite ?E2, ?Hs1 in *; [exact Hok2|by eapply alike_loads|exact Hp1|exact Hty|exact Hne| |].
    { intros rc r. rewrite (alike_read _ _ _ _ Ha). apply Hsz. }
    exists rc, r, srv', ms, us, (lit "miss"), why. split; [by rewrite <- (alike_read _ _ _ _ Ha)|]. split; [exact Ee|].
    eapply rtc_l; [exact Hw|]. eapply rtc_l; [exact Hst|]. exact Hpth. }
  destruct (Z.ltb_spec 0 v) as [Hv|Hv].
  2:{ cbn [mbind option_bind]. apply Hmiss; [done|exact Hb0|]. apply (ws_unknown _ _ _ _ [] [] sql v Hv). }
  destruct (lookup_spec (e_ttl e) (e_malloc e) (e_ns e 3) (srv_cache srv) sql v (wo_cache _ (proj1 Hok)) Hne) as (found & c' & El & Hc' & _).
  rewrite El. cbn [mbind option_bind].
  pose proof (ws_lookup (e_io e) (e_realloc e) (mkSys db1 [] []) _ c' [] [] sql v _ _ _ found Hv El) as Hlk. cbn [app] in Hlk.
  pose proof (wstep_fresh (e_io e) Hio (e_realloc e) _ _ Hb Hlk) as Hb1. destruct found as [b|why].
  - destruct (lookup_sub _ _ _ _ _ _ _ _ (wo_cache _ (proj1 Hok)) El) as (_ & _ & Hf). destruct (Hf b eq_refl) as (x & Hx).
    destruct (aa_cache _ _ (proj2 Hb) sql b v x Hx) as (stmt' & t & H1 & _ & H3 & _ & H5). rewrite Hps in H1. injection H1 as <-.
    destruct (db_tab_ver_current _ _ _ _ Hdb Ev Hv) as (t' & Ht & Hid). simpl in H3. rewrite Ht in H3. injection H3 as ->.
    specialize (H5 Hid). pose proof (cm_ok _ _ _ Hc) as Hdb1. destruct (current_good _ _ _ Hdb1 Ht) as [_ Htok].
    assert (read_of (srv_db srv) s sql = sel_do t stmt (set_snap_id res_clr s)) as Hr.
    { rewrite <- (alike_read _ _ _ _ Ha). unfold read_of. rewrite Hp1, Hty.
      rewrite (table_at_current _ _ t s Hdb1); [done|lia|done]. }
    destruct (sel_do_total t stmt (set_snap_id res_clr s) Htok) as [[rc r] Esel]. rewrite Esel in Hr.
    destruct (sel_data_snap _ _ _ _ _ Htok Esel) as [[-> Hd]|(_ & Hd & _)]; [|by rewrite Hd in H5].
    rewrite H5 in Hd. injection Hd as ->. exists 0, r, (with_stats (with_stats (with_cache srv1 c') api_stats_note_cache_hit) (api_stats_add_json_ns (since e 5 6))).
    exists (since e 0 4 / 1000000), (since e 0 4 / 1000), (lit "hit"), (lit "cache_hit"). split; [exact Hr|]. split; [reflexivity|]. eapply rtc_l; [exact Hw|]. eapply rtc_l; [exact Hlk|]. apply rtc_refl.
  - apply Hmiss; [done| |exact Hlk]. apply (both_nil _ _ _ [] [] _ Hb1).
Qed.
End sql.


Definition shop_req : HttpReq :=
  let b := qlit "{`query`:`SELECT * FROM cart WHERE user_id = '7'`}" in
  mkReq (lit "POST") (lit "/api/v1/sql") [] (Some b) (Z.of_nat (length b)).

Definition shop_sql : cstr := lit "SELECT * FROM cart WHERE user_id = '7'".

