(* ===== verification/RouteClaims.v ===== *)
(** What [route_do] answers, whatever the request: the dispatch, and the type of
    every response. *)

From Stdlib Require Import String.
From S2P Require Import Prelude CString Mvcc Parser Values Table Store Db Pool QueryCache CacheProofs.
From S2P Require Import Stats Resp Json JsonText Render RenderProofs Http Route CacheFresh RouteProofs.
From stdpp Require Import base numbers list option gmap.
Local Open Scope Z_scope.

(** ** Responses *)

(** A response is a [Reply], what the cache kept of one, or a file. *)
Inductive Response (rok : Z → bool) (id : cstr) (res : HttpRes) : Prop :=
| by_reply a : render rok id a = Some res → Response rok id res
| by_hit rok' r d tid ms us : sql_data_dump rok' r = Some (Some d) →
    sql_ok_data rok id d tid ms us (lit "hit") (lit "cache_hit") = Some res → Response rok id res
| by_file raw cap ct : res = fst (res_set_ct 200 (mkBuf raw cap) ct) → Response rok id res.

(** The bodies in the cache are dumped results. *)
Definition cache_typed (c : Cache) : Prop :=
  cache_inv c ∧ ∀ k b v x, view c !! k = Some (b, v, x) → ∃ rok r, sql_data_dump rok r = Some (Some b).

Section typed.
Context (e : Env) (id : cstr).

(** The outcome of a handler from a server whose cache is typed. *)
Definition typed (o : option (HttpRes * Srv)) : Prop :=
  ∀ res srv', o = Some (res, srv') → Response (e_realloc e) id res ∧ cache_typed (srv_cache srv').

Lemma typed_reply a srv : cache_typed (srv_cache srv) → typed (res ← render (e_realloc e) id a; Some (res, srv)).
Proof.
  intros Hc res srv' E. destruct (render (e_realloc e) id a) as [r|] eqn:Er; [|done]. simpl in E. injection E as -> <-.
  split; [by eapply by_reply|done].
Qed.

Lemma typed_fail srv http code msg : cache_typed (srv_cache srv) → typed (fail e srv id http code msg).
Proof. apply (typed_reply (ReplyErr http (lit code) (lit msg))). Qed.

Lemma typed_bind {A} (o : option A) k : (∀ x, o = Some x → typed (k x)) → typed (o ≫= k).
Proof. intros H res srv' E. destruct o as [x|]; [|done]. by eapply (H x eq_refl). Qed.

(** ** The handlers *)

Lemma typed_sql_exec srv sql can_cache v why : cache_typed (srv_cache srv) → typed (sql_exec e srv id sql can_cache v why).
Proof.
  intros Hc. unfold sql_exec. apply typed_bind. intros [[rc db1] dres] _.
  destruct (negb (rc =? 0)).
  { by apply (typed_reply (ReplyErr _ _ _) (with_stats (with_db srv db1) _)). }
  apply typed_bind. intros data Hd res srv' E.
  destruct (match data with Some d => _ | None => _ end) as [res1|] eqn:Er; [|done]. cbn [mbind option_bind] in E.
  assert (Response (e_realloc e) id res1) as Hr.
  { apply (by_reply _ _ _ (ReplySql dres (e_tid e) (since e 0 7 / 1000000) (since e 0 7 / 1000) (lit "miss") why)).
    cbn [render]. rewrite <- Er. destruct data as [d|]; [|done]. unfold sql_ok. by rewrite Hd. }
  destruct data as [d|]; [|injection E as <- <-; by split].
  destruct (can_cache && (0 <? v)); [|injection E as <- <-; by split].
  destruct (query_cache_store _ _ _ _ _ _ _ _) as [c'|] eqn:Es; [|done]. injection E as <- <-. split; [done|].
  destruct (store_sub _ _ _ _ _ _ _ _ _ (proj1 Hc) Es) as [Hi Hs]. split; [done|]. intros k b v' x Hx. simpl in Hx.
  destruct (Hs k b v' x Hx) as [Hold|(_ & -> & _)]; [by eapply Hc|by exists (e_realloc e), dres].
Qed.

Lemma typed_sql_cached srv sql table : cache_typed (srv_cache srv) → typed (sql_cached e srv id sql table).
Proof.
  intros Hc. unfold sql_cached. apply typed_bind. intros [v db1] _. apply typed_bind. intros [found c'] Hf.
  assert (cache_typed c' ∧ ∀ d, found = inl d → ∃ rok r, sql_data_dump rok r = Some (Some d)) as [Hc' Hd].
  { destruct (0 <? v); [|injection Hf as <- <-; by split]. cbn [srv_cache with_stats with_db] in Hf.
    destruct (lookup_sub _ _ _ _ _ _ _ _ (proj1 Hc) Hf) as (Hi & Hs & Hb). split.
    - split; [done|]. intros k b v' x Hx. eapply Hc. by eapply lookup_weaken.
    - intros d Ed. destruct (Hb d Ed) as (x & Hx). by eapply Hc. }
  destruct found as [d|why]; [|by apply typed_sql_exec].
  apply typed_bind. intros res1 Er res srv' [= <- <-]. split; [|done].
  destruct (Hd d eq_refl) as (rok & r & E). by eapply by_hit.
Qed.

Lemma typed_do_sql srv req : cache_typed (srv_cache srv) → typed (do_sql e srv req id).
Proof.
  intros Hc. unfold do_sql. destruct (empty_body req); [by apply typed_fail|].
  destruct (negb _); [by apply typed_fail|].
  destruct (json_str _ _ _) as [| |[|c sql] rest]; try by apply typed_fail.
  destruct (parse_statement (c :: sql)) as [stmt|]; [|by apply typed_sql_exec].
  destruct (stype stmt), (table_name stmt); try by apply typed_sql_exec. by apply typed_sql_cached.
Qed.

Lemma typed_do_batch srv req force : cache_typed (srv_cache srv) → typed (do_batch e srv req id force).
Proof.
  intros Hc. unfold do_batch. destruct (empty_body req); [by apply typed_fail|].
  destruct (negb _); [by apply typed_fail|]. apply typed_bind. intros arr _.
  destruct arr as [| |[|q qs]]; try by apply typed_fail. destruct (_ <? _); [by apply typed_fail|].
  destruct (_ && _ && _).
  - unfold batch_reads. destruct (db_snap (srv_db srv)) as [s db1]. destruct (s =? 0); [by apply typed_fail|].
    destruct (negb (e_jobs e)); [apply typed_bind; intros; by apply typed_fail|].
    apply typed_bind. intros [[all db2] js1] _. apply typed_bind. intros db3 _. destruct (negb all); [by apply typed_fail|].
    by refine (typed_reply (ReplyBatch (map q_res js1) (e_ms e 3 - e_ms e 0)) _ _).
  - unfold batch_exec. apply typed_bind. intros [[rc db1] resv] _.
    destruct (_ && negb (rc =? 0)).
    + by refine (typed_reply (ReplyAbort resv (e_ms e 1 - e_ms e 0)) _ _).
    + by refine (typed_reply (ReplyBatch resv (e_ms e 1 - e_ms e 0)) _ _).
Qed.

Lemma typed_do_page srv req : cache_typed (srv_cache srv) → typed (do_page e srv req id).
Proof.
  intros Hc. unfold do_page. do 3 (apply typed_bind; intros ? _).
  destruct (page_mode_of _) as [mode|]; [|by apply typed_fail].
  destruct (page_delay_of _) as [delay|]; [|by apply typed_fail].
  destruct (page_workers_of _) as [workers|]; [|by apply typed_fail].
  apply typed_bind. intros sqls _. destruct mode.
  - apply typed_bind. intros [[| |js m] db1] _; [by apply typed_fail..|].
    by refine (typed_reply (ReplyPage PAGE_MODE_PARALLEL delay workers js m) _ _).
  - apply typed_bind. intros [[| |js m] db1] _; [by apply typed_fail..|].
    by refine (typed_reply (ReplyPage PAGE_MODE_SEQUENTIAL delay workers js m) _ _).
  - apply typed_bind. intros [[| |js m] db1] _; [by apply typed_fail..|].
    apply typed_bind. intros [[| |pjs pm] db2] _; [by apply typed_fail..|].
    by refine (typed_reply (ReplyCompare delay workers js m pjs pm) _ _).
Qed.

Lemma typed_do_asset srv p ct : cache_typed (srv_cache srv) → typed (do_asset e srv id p ct).
Proof.
  intros Hc. unfold do_asset. destruct (e_file e p) as [| |raw]; [by apply typed_fail..|].
  intros res srv' [= <- <-]. split; [by apply (by_file _ _ _ raw (Z.of_nat (length raw) + 1) ct)|done].
Qed.

Lemma typed_do_mst srv : cache_typed (srv_cache srv) → typed (Route.do_mst e srv id).
Proof.
  intros Hc. unfold Route.do_mst. destruct (api_stats_snapshot _ _) as [up st]. by refine (typed_reply (ReplyMetrics _ _ _ up st) _ _).
Qed.

Lemma typed_only srv req m k : cache_typed (srv_cache srv) → typed k → typed (only e srv req id m k).
Proof. intros Hc Hk. unfold only. destruct (negb _); [by apply typed_fail|done]. Qed.
End typed.

(** ** Statuses *)

Definition STATUSES : list Z := [200; 201; 400; 404; 405; 413; 429; 503; 500].

Lemma status_of_in c : status_of c ∈ STATUSES.
Proof. unfold status_of. repeat case_match; repeat (done || constructor). Qed.

Lemma answer_code c ops res : answer c ops = Some res → res = res0 ∨ code res = c ∧ content_type res = lit "application/json".
Proof.
  unfold answer. destruct (all_of ops buf_init) as [[ok b]|]; [|done]. simpl. intros [= <-]. destruct ok; [right|by left]. done.
Qed.

Lemma render_status rok id a res : render rok id a = Some res → res = res0 ∨ code res = reply_status a ∧ content_type res = lit "application/json".
Proof.
  destruct a; simpl; try apply answer_code.
  - unfold sql_ok. destruct (sql_data_dump rok r) as [[d|]|]; simpl; [apply answer_code|intros [= <-]; by left|done].
  - unfold tx_res. destruct (tx_fail resv 0). apply answer_code.
Qed.

(** ** The dispatch *)

(** The endpoints and the method of each. *)
Definition ROUTES : list (cstr * cstr) :=
  [(lit "/demo", lit "GET"); (lit "/demo.css", lit "GET"); (lit "/demo.js", lit "GET"); (lit "/api/v1/health", lit "GET");
   (lit "/api/v1/sql", lit "POST"); (lit "/api/v1/batch", lit "POST"); (lit "/api/v1/tx", lit "POST");
   (lit "/api/v1/page", lit "GET"); (lit "/api/v1/metrics", lit "GET")].

Fixpoint method_of (p : cstr) (routes : list (cstr * cstr)) : option cstr :=
  match routes with
  | [] => None
  | (p', m) :: rest => if streq p p' then Some m else method_of p rest
  end.

Lemma only_method e srv req id m k :
  meth req ≠ lit m → only e srv req id m k = fail e srv id 405 "BAD_METH" "method not allowed".
Proof. intros Hm. unfold only. destruct (streq _ _) eqn:E; [|done]. by apply streq_true in E. Qed.


