(* ===== verification/Server.v ===== *)
(** The server around its connections: [srv_new], the accept loop of [srv_run],
    [srv_stop], [srv_del] of [src/api/srv.c], and the configuration that [main] of
    [src/dbsrv.c] reads.

    The accept loop is a transition system: the program is at the head of its
    loop, inside [accept], or has returned.  Between its transitions the workers
    of the pools and the signal handler go on. *)

From Stdlib Require Import String.
From S2P Require Import Prelude CString Mvcc Values Table Store Db Pool QueryCache CacheProofs Stats Resp JsonText Render RenderProofs Http Route.
From stdpp Require Import base numbers list option gmap.
Local Open Scope Z_scope.

(** ** Configuration *)

(** [(int)x] of a [long]. *)
Definition to_int (x : Z) : Z := let m := x mod 2 ^ 32 in if m <=? INT_MAX then m else m - 2 ^ 32.

Definition atoi (s : cstr) : Z := to_int (st_val (strtol s)).

(** [val]: the value of the environment variable. *)
Definition env_i (val : option cstr) (def : Z) : Z :=
  match val with
  | None | Some [] => def
  | Some s => atoi s
  end.

(** [ncpu]: the number of processors online, or -1. *)
Definition auto_thr (ncpu : Z) : Z :=
  if ncpu <=? 0 then 4 else let n := if 256 <? ncpu then 256 else ncpu in n * 2.

Record DbCfg := mkDbCfg { dc_root : cstr; dc_max_sql : Z; dc_max_qry : Z }.

Record SrvCfg := mkSrvCfg {
  cf_db : Db;
  cf_port : Z;
  cf_api_thr : Z;
  cf_db_thr : Z;
  cf_que_max : Z;
  cf_max_body : Z;
  cf_max_sql : Z;
  cf_max_qry : Z;
}.

(** The head of [main]: the configuration of the database and, with the database
    it opens, that of the server. *)
Definition main_cfg (getenv : cstr → option cstr) (ncpu : Z) : DbCfg * (Db → SrvCfg) :=
  let port := env_i (getenv (lit "DBSV_PORT")) 8080 in
  let api_thr := env_i (getenv (lit "API_THR")) 0 in
  let db_thr := env_i (getenv (lit "DB_THR")) 0 in
  let que_max := env_i (getenv (lit "QUE_MAX")) 128 in
  let max_body := env_i (getenv (lit "MAX_BODY")) 1048576 in
  let max_sql := env_i (getenv (lit "MAX_SQL")) 4096 in
  let max_qry := env_i (getenv (lit "MAX_QRY")) 32 in
  let api_thr := if api_thr <=? 0 then auto_thr ncpu else api_thr in
  let db_thr := if db_thr <=? 0 then auto_thr ncpu else db_thr in
  (mkDbCfg (match getenv (lit "DB_ROOT") with Some (c :: r) => c :: r | _ => lit "data" end) max_sql max_qry,
   fun db => mkSrvCfg db port api_thr db_thr que_max max_body max_sql max_qry).

(** ** Setting up and tearing down *)

(** How the allocation and the threads of a pool go. *)
Record PoolEnv := mkPoolEnv { pe_calloc : bool; pe_create : nat → bool }.

Definition new_pool (pe : PoolEnv) (nthr qmax : Z) : option Pool := pool_new (pe_calloc pe) (pe_create pe) nthr qmax.

(** [srv_new] with the globals [c] and [st] of the cache and the counters: the
    server, or no server and the cache [srv_del] leaves. *)
Definition srv_new (calloc_ok : bool) (api db : PoolEnv) (now : Z) (ttl : option cstr) (c : Cache) (st : Stats) (cfg : SrvCfg)
    : Cache + Srv :=
  if negb calloc_ok then inl c
  else
    match new_pool api (cf_api_thr cfg) (cf_que_max cfg), new_pool db (cf_db_thr cfg) (cf_que_max cfg) with
    | Some ap, Some dp =>
        inr (mkSrv (cf_db cfg) (query_cache_init ttl c) (api_stats_init now) ap dp (cf_port cfg) (cf_max_body cfg)
               (cf_max_sql cfg) (cf_max_qry cfg) false 0)
    | _, _ => inl (query_cache_destroy c)
    end.

Definition with_apip (s : Srv) (p : Pool) : Srv :=
  mkSrv (srv_db s) (srv_cache s) (srv_stats s) p (srv_dbp s) (srv_port s) (srv_max_body s) (srv_max_sql s) (srv_max_qry s)
    (srv_stopped s) (srv_lfd s).
Definition with_dbp (s : Srv) (p : Pool) : Srv :=
  mkSrv (srv_db s) (srv_cache s) (srv_stats s) (srv_apip s) p (srv_port s) (srv_max_body s) (srv_max_sql s) (srv_max_qry s)
    (srv_stopped s) (srv_lfd s).
Definition with_lfd (s : Srv) (fd : Z) : Srv :=
  mkSrv (srv_db s) (srv_cache s) (srv_stats s) (srv_apip s) (srv_dbp s) (srv_port s) (srv_max_body s) (srv_max_sql s) (srv_max_qry s)
    (srv_stopped s) fd.

(** The server, and the descriptor it closes. *)
Definition srv_stop (s : Srv) : Srv * option Z :=
  (mkSrv (srv_db s) (srv_cache s) (srv_stats s) (pool_stop (srv_apip s)) (pool_stop (srv_dbp s)) (srv_port s) (srv_max_body s)
     (srv_max_sql s) (srv_max_qry s) true (-1),
   if 0 <? srv_lfd s then Some (srv_lfd s) else None).

(** [srv_del], once every thread of both pools has left; the cache and the jobs
    that nobody will run. *)
Definition srv_del (s : Srv) : option (Cache * list Job * list Job) :=
  let s1 := fst (srv_stop s) in
  let* aj := pool_del (srv_apip s1) in
  let* dj := pool_del (srv_dbp s1) in
  Some (query_cache_destroy (srv_cache s1), aj, dj).

(** ** The accept loop *)

(** What [accept] returns and what handing the connection over meets: whether the
    memory for it and for the job can be had, whom the pool wakes, and how the
    answer goes out. *)
Inductive AcceptRes :=
| AcceptErr
| AcceptConn (cfd : nat) (conn_ok job_ok : bool) (sig : option nat) (evs : list SendEv).

(** What becomes of a connection. *)
Inductive Fate :=
| Handed (cfd : nat)
| Dropped (cfd : nat)
| Refused (cfd : nat) (sent : list Z).

Definition fd_of (f : Fate) : nat := match f with Handed c | Dropped c | Refused c _ => c end.

(** The response written when the pool takes no more. *)
Definition full_res : HttpRes :=
  mkHttpRes 503 (qlit "{`ok`:false,`err`:{`code`:`Q_FULL`,`msg`:`api queue full`}}") (lit "application/json").

(** The round of the loop after [accept] returned. *)
Definition take_conn (s : Srv) (cfd : nat) (conn_ok job_ok : bool) (sig : option nat) (evs : list SendEv)
    : option (Srv * Fate) :=
  if negb conn_ok then Some (s, Dropped cfd)
  else
    let '(rc, p) := pool_add job_ok (srv_apip s) (Some cfd) sig in
    let s1 := with_apip s p in
    if negb (rc =? 0) then
      let* (sent, _) := send_res evs full_res true in
      Some (with_stats s1 api_stats_note_immediate_503, Refused cfd sent)
    else Some (s1, Handed cfd).

Inductive Phase := AtHead | InAccept | Returned (rc : Z).

Record Run := mkRun { r_srv : Srv; r_phase : Phase; r_fates : list Fate }.

(** [srv_run] up to its loop: [fd] is what [socket] gave, [bound] whether [bind] and
    [listen] succeed. *)
Definition run_start (s : Srv) (fd : Z) (bound : bool) : Run :=
  if fd <? 0 then mkRun s (Returned (-1)) []
  else if negb bound then mkRun s (Returned (-1)) []
  else mkRun (with_lfd s fd) AtHead [].

(** One transition; [None] when it cannot happen.  The signal handler and the
    workers of both pools run at any time. *)
Inductive RunEv :=
| RvHead
| RvAccept (a : AcceptRes)
| RvSignal
| RvApi (ev : Pool.Ev)
| RvDb (ev : Pool.Ev).

Definition by_worker (ev : Pool.Ev) : bool := match ev with EvAdd _ _ | EvStop => false | _ => true end.

Definition run_step (r : Run) (ev : RunEv) : option Run :=
  let s := r_srv r in
  match ev with
  | RvHead =>
      match r_phase r with
      | AtHead => Some (mkRun s (if srv_stopped s then Returned 0 else InAccept) (r_fates r))
      | _ => None
      end
  | RvAccept a =>
      match r_phase r with
      | InAccept =>
          match a with
          | AcceptErr => Some (mkRun s (if srv_stopped s then Returned 0 else AtHead) (r_fates r))
          | AcceptConn cfd conn_ok job_ok sig evs =>
              if may_signal (thr (srv_apip s)) sig then
                let* (s1, f) := take_conn s cfd conn_ok job_ok sig evs in Some (mkRun s1 AtHead (r_fates r ++ [f]))
              else None
          end
      | _ => None
      end
  | RvSignal => Some (mkRun (fst (srv_stop s)) (r_phase r) (r_fates r))
  | RvApi e => if by_worker e then let* w := Pool.step (start (srv_apip s)) e in Some (mkRun (with_apip s (pool w)) (r_phase r) (r_fates r)) else None
  | RvDb e => if by_worker e then let* w := Pool.step (start (srv_dbp s)) e in Some (mkRun (with_dbp s (pool w)) (r_phase r) (r_fates r)) else None
  end.

Fixpoint run_events (r : Run) (evs : list RunEv) : option Run :=
  match evs with
  | [] => Some r
  | ev :: evs' => let* r1 := run_step r ev in run_events r1 evs'
  end.

(** ** What becomes of the connections *)

Definition conn_of (ev : RunEv) : option nat := match ev with RvAccept (AcceptConn cfd _ _ _ _) => Some cfd | _ => None end.
Definition handed (f : Fate) : option nat := match f with Handed c => Some c | _ => None end.
Definition refused (f : Fate) : option nat := match f with Refused c _ => Some c | _ => None end.

(** A transition of a worker does not depend on the history. *)
Lemma worker_step p w ev w1 :
  by_worker ev = true → pool w = p → Pool.step (start p) ev = Some w1 →
  ∃ w', Pool.step w ev = Some w' ∧ pool w' = pool w1 ∧ accepted w' = accepted w ∧ stop (pool w1) = stop p.
Proof.
  intros Hb <-. destruct ev as [? ?|i|i|i|]; try done; simpl.
  - destruct (thr (pool w) !! i) as [[]|]; try done. intros [= <-]. eexists. split; [done|]. simpl. split_and!; try done.
    unfold wrk_lock. by destruct (jobs (pool w)).
  - destruct (thr (pool w) !! i) as [[]|]; try done. intros [= <-]. by eexists.
  - destruct (thr (pool w) !! i) as [[]|]; try done. intros [= <-]. by eexists.
Qed.

Record run_inv (s0 : Srv) (r : Run) : Prop := {
  ri_pool : ∃ w, pool w = srv_apip (r_srv r) ∧ pool_ok w ∧ accepted w = omap handed (r_fates r);
  ri_stop : srv_stopped (r_srv r) = true → stop (srv_apip (r_srv r)) = true;
  ri_503 : status_503 (srv_stats (r_srv r)) = wrap64 (status_503 (srv_stats s0) + Z.of_nat (length (omap refused (r_fates r))));
  ri_kept : srv_db (r_srv r) = srv_db s0 ∧ srv_cache (r_srv r) = srv_cache s0;
}.

(** The outcome of one connection. *)
Lemma take_conn_spec s cfd conn_ok job_ok sig evs w :
  pool w = srv_apip s → pool_ok w → may_signal (thr (srv_apip s)) sig = true →
  ∃ s1 f, take_conn s cfd conn_ok job_ok sig evs = Some (s1, f) ∧ fd_of f = cfd ∧
    srv_db s1 = srv_db s ∧ srv_cache s1 = srv_cache s ∧ srv_stopped s1 = srv_stopped s ∧ stop (srv_apip s1) = stop (srv_apip s) ∧
    srv_stats s1 = match f with Refused _ _ => api_stats_note_immediate_503 (srv_stats s) | _ => srv_stats s end ∧
    (handed f = Some cfd → stop (srv_apip s) = false) ∧
    ∃ w1, pool w1 = srv_apip s1 ∧ pool_ok w1 ∧ accepted w1 = accepted w ++ option_list (handed f).
Proof.
  intros Hp Hok Hsig. unfold take_conn. destruct conn_ok; cbn [negb].
  2:{ eexists s, _. split; [done|]. split_and!; try done. exists w. by rewrite app_nil_r. }
  assert (∀ s1 : Srv, ∃ sent, send_res evs full_res true ≫= (λ x : list Z * list SendEv, let '(sent, _) := x in Some (s1, Refused cfd sent)) = Some (s1, Refused cfd sent)) as Hsend.
  { intros s1. unfold send_res. rewrite (proj2 (Nat.ltb_ge _ _)) by (vm_compute; lia).
    destruct (write_all evs _) as [[? sent1] evs1]. destruct (body full_res) as [|c0 b0]; [by eexists|].
    destruct (write_all evs1 (c0 :: b0)) as [[? sent2] evs2]. by eexists. }
  pose proof (λ w1, step_add_ok w cfd sig w1 Hok) as Hadd. cbn [Pool.step] in Hadd. rewrite Hp, Hsig in Hadd.
  unfold pool_add in *. destruct job_ok; cbn [negb] in *.
  2:{ destruct (Hsend (with_stats (with_apip s (srv_apip s)) api_stats_note_immediate_503)) as (sent & E).
      eexists _, _. split; [exact E|]. split_and!; try done. exists w. by rewrite app_nil_r. }
  destruct (stop (srv_apip s)) eqn:Est.
  { destruct (Hsend (with_stats (with_apip s (srv_apip s)) api_stats_note_immediate_503)) as (sent & E).
    eexists _, _. split; [exact E|]. split_and!; try done. exists w. by rewrite app_nil_r. }
  destruct (qmax (srv_apip s) <=? queued (srv_apip s)).
  { destruct (Hsend (with_stats (with_apip s (srv_apip s)) api_stats_note_immediate_503)) as (sent & E).
    eexists _, _. split; [exact E|]. split_and!; try done. exists w. by rewrite app_nil_r. }
  simpl in *. eexists _, _. split; [done|]. split_and!; try done. eexists. split; [|split; [by apply Hadd|done]]. done.
Qed.

Lemma omap_snoc {A B} (f : A → option B) l x : omap f (l ++ [x]) = omap f l ++ option_list (f x).
Proof. rewrite omap_app. simpl. by destruct (f x). Qed.

Lemma run_step_inv s0 r ev r1 :
  run_inv s0 r → run_step r ev = Some r1 →
  run_inv s0 r1 ∧ map fd_of (r_fates r1) = map fd_of (r_fates r) ++ option_list (conn_of ev) ∧
  (srv_stopped (r_srv r) = true ∨ ev = RvSignal → srv_stopped (r_srv r1) = true).
Proof.
  intros [(w & Hw & Hok & Hacc) H2 H3 H4]. destruct ev as [|a| |e|e]; simpl.
  - destruct (r_phase r); try done. intros [= <-]. rewrite app_nil_r. split_and!; [|done|by intros [?|?]].
    split; try done. by exists w.
  - destruct (r_phase r); try done. destruct a as [|cfd conn_ok job_ok sig evs]; simpl.
    { intros [= <-]. rewrite app_nil_r. split_and!; [|done|by intros [?|?]]. split; try done. by exists w. }
    destruct (may_signal _ sig) eqn:Es; [|done].
    destruct (take_conn_spec (r_srv r) cfd conn_ok job_ok sig evs w Hw Hok Es) as
      (s1 & f & -> & Hfd & Hdb & Hca & Hst & Hps & Hstat & Hh & w1 & Hw1 & Hok1 & Hacc1).
    simpl. intros [= <-]. split_and!; simpl.
    + split; simpl.
      * exists w1. split_and!; [done|done|]. by rewrite omap_snoc, Hacc1, Hacc.
      * rewrite Hst, Hps. done.
      * rewrite Hstat, omap_snoc, length_app. destruct f; simpl; rewrite ?Nat.add_0_r; try done.
        rewrite H3, wrap64_succ. f_equal. lia.
      * by rewrite Hdb, Hca.
    + rewrite map_app. simpl. by rewrite Hfd.
    + intros [?|?]; [by rewrite Hst|done].
  - intros [= <-]. rewrite app_nil_r. split_and!; [|done|done]. split; simpl; try done.
    eexists. split; [|split; [by eapply (step_ok w EvStop)|done]]. simpl. by rewrite Hw.
  - destruct (by_worker e) eqn:Eb; [|done]. destruct (Pool.step (start (srv_apip (r_srv r))) e) as [w1|] eqn:E1; [|done].
    simpl. intros [= <-]. rewrite app_nil_r. destruct (worker_step _ w e w1 Eb Hw E1) as (w' & E' & Hp' & Ha' & Hs').
    split_and!; [|done|by intros [?|?]]. split; simpl; try done.
    + exists w'. split_and!; [done|by eapply step_ok|congruence].
    + by rewrite Hs'.
  - destruct (by_worker e) eqn:Eb; [|done]. destruct (Pool.step _ e) as [w1|] eqn:E1; [|done].
    simpl. intros [= <-]. rewrite app_nil_r. split_and!; [|done|by intros [?|?]]. split; try done. by exists w.
Qed.

Lemma run_events_inv s0 r evs r1 :
  run_inv s0 r → run_events r evs = Some r1 →
  run_inv s0 r1 ∧ map fd_of (r_fates r1) = map fd_of (r_fates r) ++ omap conn_of evs ∧
  (srv_stopped (r_srv r) = true ∨ RvSignal ∈ evs → srv_stopped (r_srv r1) = true).
Proof.
  revert r; induction evs as [|ev evs IH]; intros r Hi; simpl.
  { intros [= <-]. rewrite app_nil_r. split_and!; [done|done|]. by intros [?|?%not_elem_of_nil]. }
  destruct (run_step r ev) as [r2|] eqn:E; [|done]. simpl. intros Hr.
  destruct (run_step_inv _ _ _ _ Hi E) as (Hi2 & Hf & Hs). destruct (IH r2 Hi2 Hr) as (Hi1 & Hf1 & Hs1).
  split_and!; [done| |].
  - rewrite Hf1, Hf, <- (assoc_L (++)). by destruct (conn_of ev).
  - intros H. apply Hs1. destruct H as [H|[<-|H]%elem_of_cons]; [left; apply Hs; by left|left; apply Hs; by right|by right].
Qed.

(** Once stopped, the loop takes at most the connection [accept] is about to return. *)
Definition may_take (p : Phase) : nat := match p with InAccept => 1 | _ => 0 end.

Lemma run_step_stopped s0 r ev r1 :
  run_inv s0 r → srv_stopped (r_srv r) = true → run_step r ev = Some r1 →
  omap handed (r_fates r1) = omap handed (r_fates r) ∧
  (length (r_fates r1) + may_take (r_phase r1) ≤ length (r_fates r) + may_take (r_phase r))%nat.
Proof.
  intros [(w & Hw & Hok & Hacc) H2 H3 H4] Hst. destruct ev as [|a| |e|e]; simpl.
  - destruct (r_phase r); try done. rewrite Hst. intros [= <-]. by split.
  - destruct (r_phase r); try done. destruct a as [|cfd conn_ok job_ok sig evs]; simpl.
    { rewrite Hst. intros [= <-]. simpl. split; [done|lia]. }
    destruct (may_signal _ sig) eqn:Es; [|done].
    destruct (take_conn_spec (r_srv r) cfd conn_ok job_ok sig evs w Hw Hok Es) as
      (s1 & f & -> & Hfd & _ & _ & _ & _ & _ & Hh & _).
    simpl. intros [= <-]. simpl. rewrite omap_snoc, length_app. simpl. split; [|lia].
    destruct f as [c|c|c sent]; simpl in *; rewrite ?app_nil_r; try done. subst c.
    specialize (Hh eq_refl). by rewrite (H2 Hst) in Hh.
  - intros [= <-]. by split.
  - destruct (by_worker e); [|done]. destruct (Pool.step _ e); [|done]. simpl. intros [= <-]. by split.
  - destruct (by_worker e); [|done]. destruct (Pool.step _ e); [|done]. simpl. intros [= <-]. by split.
Qed.

Lemma run_events_stopped s0 r evs r1 :
  run_inv s0 r → srv_stopped (r_srv r) = true → run_events r evs = Some r1 →
  omap handed (r_fates r1) = omap handed (r_fates r) ∧
  (length (r_fates r1) + may_take (r_phase r1) ≤ length (r_fates r) + may_take (r_phase r))%nat.
Proof.
  revert r; induction evs as [|ev evs IH]; intros r Hi Hst; simpl; [by intros [= <-]|].
  destruct (run_step r ev) as [r2|] eqn:E; [|done]. simpl. intros Hr.
  destruct (run_step_stopped _ _ _ _ Hi Hst E) as [H1 H2]. destruct (run_step_inv _ _ _ _ Hi E) as (Hi2 & _ & Hs).
  destruct (IH r2 Hi2) as [H3 H4]; [auto|done|]. split; [congruence|lia].
Qed.


Definition small_cfg : SrvCfg := mkSrvCfg (db_open ∅ (lit "data") 0 0) 8080 1 1 1 0 0 0.
Definition good_pool : PoolEnv := mkPoolEnv true (λ _, true).

(** One worker and room for one: the third connection is refused, the fourth comes
    after the signal. *)
Definition small_run1 : list RunEv :=
  [RvApi (EvLock 0); RvHead; RvAccept (AcceptConn 10 true true (Some 0%nat) []); RvApi (EvLock 0);
   RvHead; RvAccept (AcceptConn 11 true true None []); RvHead; RvAccept (AcceptConn 12 true true None [SBytes 500; SBytes 500]);
   RvHead; RvSignal].
Definition small_run2 : list RunEv := [RvAccept (AcceptConn 13 true true None [])].

