(* ===== verification/LegacyRow.v ===== *)
(** Rows as text in the stand-alone executor, [src/legacy/executor.c]: fields,
    WHERE conditions, the choice of an index, and the row an INSERT builds.

    A table is here what its header says ([Header]); what its indexes hold is an
    argument of the functions that ask them. *)

From Stdlib Require Import String.
From S2P Require Import Prelude CString Parser Values Table Store.
From stdpp Require Import base numbers list option.
Local Open Scope Z_scope.

(** The part of [TableCache] that the header fills. *)
Record Header := mkHeader {
  h_cols : list ColumnInfo;
  h_pk : option nat;
  h_uks : list nat;
}.

Definition col_count (h : Header) : nat := length (h_cols h).

(** ** Fields *)

(** The same code as [trim_uq] of [src/db/dbapi.c]. *)
Definition trim_and_unquote (s : cstr) : cstr := trim_uq s.

Definition compare_value (field search_val : cstr) : bool :=
  streq (trim_and_unquote (strcpy_sz 256 field)) (trim_and_unquote (strcpy_sz 256 search_val)).

Definition normalize_value (src : cstr) (dest_size : nat) : cstr := trim_and_unquote (strcpy_sz dest_size src).

(** [start] is the text of the range. *)
Definition copy_csv_field_range (start : cstr) (dest_size : nat) : cstr :=
  if (dest_size =? 0)%nat then []
  else trim_and_unquote (take (if (dest_size <=? length start)%nat then dest_size - 1 else length start) start).

(** The scan of [row_field_equals]: the range of field [col], from the current
    one on. *)
Fixpoint scan_field (col : nat) (in_quotes : bool) (p : cstr) : option cstr :=
  match p with
  | [] => if (col =? 0)%nat then Some [] else None
  | c :: p' =>
      let q := if c =? QUOTE then negb in_quotes else in_quotes in
      let eol := (c =? CR) || (c =? NL) in
      if ((c =? COMMA) && negb q) || eol then
        if (col =? 0)%nat then Some [] else if eol then None else scan_field (col - 1) q p'
      else if (col =? 0)%nat then cons c <$> scan_field 0 q p'
      else scan_field col q p'
  end.

Definition row_field_equals (row : cstr) (col_idx : nat) (search_val : cstr) : bool :=
  match scan_field col_idx false row with
  | Some f => streq (copy_csv_field_range f RECORD_SIZE) (normalize_value search_val RECORD_SIZE)
  | None => false
  end.

(** The same loop as [split_csv] of [src/db/dbapi.c]. *)
Definition parse_csv_row (row : cstr) : list cstr := split_csv row MAX_COLS RECORD_SIZE.

(** A field that is not there is NULL, which every reader takes for the empty text. *)
Definition field_at (fields : list cstr) (i : nat) : cstr := default [] (fields !! i).

Definition get_col_idx (h : Header) (col_name : cstr) : option nat :=
  match col_name with
  | [] => None
  | _ => find_index (fun c => streq (Table.col_name c) col_name) 0 (h_cols h)
  end.

Definition get_uk_slot (h : Header) (col_idx : nat) : option nat := find_index (Nat.eqb col_idx) 0 (h_uks h).

(** Unlike [parse_l] of the server it takes numbers out of range, clamped, and
    refuses NULL. *)
Definition parse_long_value (value : cstr) : option Z :=
  match trim_and_unquote (strcpy_sz 256 value) with
  | [] => None
  | buf =>
      if streq buf (lit "NULL") then None
      else
        let r := strtol buf in
        if st_conv r && match st_rest r with [] => true | _ => false end then Some (st_val r) else None
  end.

Definition get_row_pk_value (h : Header) (row : cstr) : option Z :=
  match h_pk h with
  | None => None
  | Some p => parse_long_value (field_at (parse_csv_row row) p)
  end.

(** ** Conditions *)

Definition condition_column_index (h : Header) (cond : WhereCondition) : option nat :=
  match wc_type cond with
  | WHERE_NONE => None
  | _ => get_col_idx h (wc_col cond)
  end.

Definition compare_range_value (h : Header) (col_idx : nat) (field : option cstr) (cond : WhereCondition) : bool :=
  match field with
  | None => false
  | Some field =>
      if bool_decide (h_pk h = Some col_idx) then
        match parse_long_value field, parse_long_value (wc_val cond), parse_long_value (wc_end_val cond) with
        | Some k, Some a, Some b => (a <=? k) && (k <=? b)
        | _, _, _ => false
        end
      else
        str_le (normalize_value (wc_val cond) RECORD_SIZE) (normalize_value field RECORD_SIZE) &&
        str_le (normalize_value field RECORD_SIZE) (normalize_value (wc_end_val cond) RECORD_SIZE)
  end.

Definition cond_holds (h : Header) (fields : list cstr) (cond : WhereCondition) : bool :=
  match condition_column_index h cond with
  | None => false
  | Some col_idx =>
      match wc_type cond with
      | WHERE_EQ => compare_value (field_at fields col_idx) (wc_val cond)
      | WHERE_BETWEEN => compare_range_value h col_idx (fields !! col_idx) cond
      | WHERE_NONE => false
      end
  end.

Definition row_fields_match_statement (h : Header) (stmt : Statement) (fields : list cstr) : bool :=
  forallb (cond_holds h fields) (where_conditions stmt).

Definition row_matches_statement (h : Header) (stmt : Statement) (row : cstr) : bool :=
  match where_conditions stmt with
  | [] => true
  | [cond] =>
      match wc_type cond with
      | WHERE_EQ =>
          match condition_column_index h cond with
          | None => false
          | Some col_idx => row_field_equals row col_idx (wc_val cond)
          end
      | _ => row_fields_match_statement h stmt (parse_csv_row row)
      end
  | _ => row_fields_match_statement h stmt (parse_csv_row row)
  end.

Definition validate_where_columns (h : Header) (stmt : Statement) : bool :=
  forallb (fun c => match condition_column_index h c with Some _ => true | None => false end) (where_conditions stmt).

(** [choose_index_condition]: the score of a condition, *)
Definition cond_score (h : Header) (allow_range : bool) (cond : WhereCondition) : Z :=
  match condition_column_index h cond with
  | None => 0
  | Some col_idx =>
      let pk := bool_decide (h_pk h = Some col_idx) in
      let uk := match get_uk_slot h col_idx with Some _ => true | None => false end in
      match wc_type cond with
      | WHERE_EQ => if pk then 100 else if uk then 90 else 0
      | WHERE_BETWEEN => if negb allow_range then 0 else if pk then 80 else if uk then 70 else 0
      | WHERE_NONE => 0
      end
  end.

(** and its loop: the index of the first condition with the best score. *)
Fixpoint best_condition (h : Header) (allow_range : bool) (i : nat) (conds : list WhereCondition) (best_score : Z)
    (best : option nat) : option nat :=
  match conds with
  | [] => best
  | c :: cs =>
      let score := cond_score h allow_range c in
      if best_score <? score then best_condition h allow_range (S i) cs score (Some i)
      else best_condition h allow_range (S i) cs best_score best
  end.

Definition choose_index_condition (h : Header) (stmt : Statement) (allow_range : bool) : option (nat * nat) :=
  i ← best_condition h allow_range 0 (where_conditions stmt) 0 None;
  c ← where_conditions stmt !! i;
  col ← condition_column_index h c;
  Some (i, col).

(** The line [emit_selected_row] prints; [sel] are the columns, [None] for all. *)
Definition emit_selected_row (row : cstr) (sel : option (list nat)) : cstr :=
  match sel with
  | None => row
  | Some idxs =>
      let fields := parse_csv_row row in
      concat (imap (fun j i => (if (0 <? j)%nat then [COMMA] else []) ++ field_at fields i) idxs)
  end.

(** ** The header *)

Definition write_table_header (h : Header) : cstr :=
  concat (imap (fun i c => col_text c ++ [if (i =? col_count h - 1)%nat then NL else COMMA]) (h_cols h)).

(** [strtok(header, ",\r\n")]: the pieces that are not empty. *)
Fixpoint tokens (cur : cstr) (s : cstr) : list cstr :=
  match s with
  | [] => match cur with [] => [] | _ => [cur] end
  | c :: s' =>
      if (c =? COMMA) || (c =? CR) || (c =? NL) then
        match cur with [] => tokens [] s' | _ => cur :: tokens [] s' end
      else tokens (cur ++ [c]) s'
  end.

Definition header_col (token : cstr) : ColumnInfo :=
  match strchr token LPAREN with
  | Some k =>
      let paren := drop k token in
      mkCol (take (if (COL_SIZE <=? k)%nat then COL_SIZE - 1 else k) token)
        (if has_tag paren (lit "(PK)") then COL_PK
         else if has_tag paren (lit "(UK)") then COL_UK
         else if has_tag paren (lit "(NN)") then COL_NN
         else COL_NORMAL)
  | None => mkCol (strcpy_sz COL_SIZE token) COL_NORMAL
  end.

(** The first line of the file, read by [fgets] into [header]. *)
Definition parse_header (line : cstr) : Header :=
  let line := match line with
              | 239 :: 187 :: 191 :: rest => rest
              | _ => line
              end in
  let cs := map header_col (take MAX_COLS (tokens [] line)) in
  mkHeader cs (last_pk 0 cs None) (take MAX_UKS (uk_columns 0 cs)).

(** ** The row of an INSERT *)

(** [snprintf(formatted, RECORD_SIZE, "'%.*s'", RECORD_SIZE - 3, source)] when the
    text has a comma. *)
Definition format_field (source : cstr) : cstr :=
  match strchr source COMMA with
  | Some _ => QUOTE :: take (RECORD_SIZE - 3) source ++ [QUOTE]
  | None => source
  end.

(** [row] is what stands before [offset]; [None] when the field does not fit. *)
Definition append_csv_field (row : cstr) (row_size : nat) (value : cstr) (is_last : bool) : option cstr :=
  let out := row ++ format_field value ++ (if is_last then [] else [COMMA]) in
  if (length out <? row_size)%nat then Some out else None.

Inductive InsertErr :=
| InsTooMany | InsPkNotInt | InsDupPk | InsNN | InsPkEmpty | InsNoIndex | InsDupUk | InsTooLong.

Section insert.
(** What the indexes say: is a row with this key active, is this value in the
    index of this UK slot. *)
Context (pk_taken : Z → bool) (uk_taken : nat → cstr → bool).

(** Does the table give the key itself? *)
Definition auto_id (h : Header) (vals : list cstr) : bool :=
  match h_pk h with
  | None => false
  | Some p =>
      ((length vals =? col_count h - 1)%nat && (p =? 0)%nat) ||
      match vals !! p with
      | None | Some [] => true
      | Some v => compare_value v (lit "NULL")
      end
  end.

(** The normalised text of column [i]. *)
Definition insert_source (h : Header) (vals : list cstr) (auto : bool) (id_value : Z) (i : nat) : cstr :=
  if auto && bool_decide (h_pk h = Some i) then print_Z id_value
  else
    let source := if auto && bool_decide (h_pk h = Some 0%nat) then match i with O => None | S k => vals !! k end else vals !! i in
    trim_and_unquote (strcpy_sz RECORD_SIZE (default [] source)).

(** The constraints of column [i]: the first one that [source] breaks. *)
Definition insert_check (h : Header) (i : nat) (c : ColumnInfo) (source : cstr) : option InsertErr :=
  if bool_decide (col_type c = COL_NN) && bool_decide (source = []) then Some InsNN
  else if bool_decide (h_pk h = Some i) && bool_decide (source = []) then Some InsPkEmpty
  else if bool_decide (col_type c = COL_UK) && negb (bool_decide (source = [])) then
    match get_uk_slot h i with
    | None => Some InsNoIndex
    | Some slot => if uk_taken slot source then Some InsDupUk else None
    end
  else None.

(** The loop over the columns, from column [i] on. *)
Fixpoint insert_cols (h : Header) (vals : list cstr) (auto : bool) (id_value : Z) (line_size : nat) (row : cstr) (i : nat)
    (cs : list ColumnInfo) : InsertErr + cstr :=
  match cs with
  | [] => inr row
  | c :: cs' =>
      let source := insert_source h vals auto id_value i in
      match insert_check h i c source with
      | Some err => inl err
      | None =>
          match append_csv_field row line_size source (match cs' with [] => true | _ => false end) with
          | None => inl InsTooLong
          | Some row' => insert_cols h vals auto id_value line_size row' (S i) cs'
          end
      end
  end.

(** The id and the row. *)
Definition build_insert_row (h : Header) (next_auto_id : Z) (vals : list cstr) (line_size : nat) : InsertErr + (Z * cstr) :=
  if (col_count h <? length vals)%nat then inl InsTooMany
  else
    let auto := auto_id h vals in
    let key := match h_pk h with
               | None => Some 0
               | Some p => if auto then Some next_auto_id else parse_long_value (field_at vals p)
               end in
    match key with
    | None => inl InsPkNotInt
    | Some id_value =>
        if match h_pk h with Some _ => pk_taken id_value | None => false end then inl InsDupPk
        else
          match insert_cols h vals auto id_value line_size [] 0 (h_cols h) with
          | inl err => inl err
          | inr row => inr (id_value, row)
          end
    end.
End insert.
