(* ===== verification/LegacyRowProofs.v ===== *)
(** Rows of the stand-alone executor: the two ways to match a row agree, and the
    row an INSERT builds is read back. *)

From Stdlib Require Import String.
From S2P Require Import Prelude CString Parser Values Table InsertProofs Store StoreProofs LegacyRow.
From stdpp Require Import base numbers list option.
Local Open Scope Z_scope.

(** ** Matching *)

(** [row_field_equals] finds the fields of [parse_csv_row]. *)
Lemma scan_field_split s col room q :
  forallb line_char s = true → (col < room)%nat →
  scan_field col q s = (fst (split_loop room q s) :: snd (split_loop room q s)) !! col.
Proof.
  revert col room q; induction s as [|c s IH]; intros col [|r] q Hl Hr; try lia.
  { by destruct col. }
  simpl in Hl. apply andb_true_iff in Hl as [Hc Hl]. unfold line_char in Hc.
  apply andb_true_iff in Hc as [H1%negb_true_iff H2%negb_true_iff].
  cbn [scan_field split_loop]. rewrite H1, H2. cbn [orb]. rewrite orb_false_r.
  set (q' := if c =? QUOTE then negb q else q). destruct ((c =? COMMA) && negb q').
  - destruct col as [|k]; [by destruct (split_loop r q' s)|]. cbn [Nat.eqb].
    rewrite (IH (S k - 1)%nat r q') by (done || lia). rewrite Nat.sub_succ, Nat.sub_0_r.
    by destruct (split_loop r q' s).
  - pose proof (IH col (S r) q' Hl Hr) as H. destruct (split_loop (S r) q' s) as [p ps].
    destruct col; cbn [Nat.eqb]; by rewrite H.
Qed.

Lemma row_scan row col :
  forallb line_char row = true → (length row < RECORD_SIZE)%nat → (S col < MAX_COLS)%nat →
  scan_field col false row = parse_csv_row row !! col.
Proof.
  intros Hl Hn Hc. rewrite (scan_field_split _ _ (MAX_COLS - 1)) by (done || lia).
  unfold parse_csv_row, split_csv, strcpy_sz. rewrite (take_ge row) by lia.
  by destruct (split_loop (MAX_COLS - 1) false row).
Qed.

Lemma copy_range_norm f : copy_csv_field_range f RECORD_SIZE = norm_v f RECORD_SIZE.
Proof.
  unfold copy_csv_field_range, norm_v, strcpy_sz. change ((RECORD_SIZE =? 0)%nat) with false. cbv iota.
  destruct (RECORD_SIZE <=? length f)%nat eqn:E; [done|]. apply Nat.leb_gt in E.
  by rewrite !take_ge by lia.
Qed.

Lemma compare_value_cmp f v :
  (length f < 256)%nat → (length v < 256)%nat → compare_value f v = cmp_v f v.
Proof.
  intros Hf Hv. unfold compare_value, cmp_v, trim_and_unquote.
  rewrite !norm_short by (unfold RECORD_SIZE; lia). unfold strcpy_sz. by rewrite !take_ge by lia.
Qed.

Lemma find_index_lt {A} (p : A → bool) i l k : find_index p i l = Some k → (i ≤ k < i + length l)%nat.
Proof.
  revert i; induction l as [|x l IH]; intros i; simpl; [done|].
  destruct (p x); [intros [= <-]; lia|]. intros H%IH. lia.
Qed.

Lemma get_col_idx_lt h nm i : get_col_idx h nm = Some i → (i < col_count h)%nat.
Proof. destruct nm; [done|]. intros H%find_index_lt. unfold col_count. lia. Qed.

Lemma condition_column_index_lt h c i : condition_column_index h c = Some i → (i < col_count h)%nat.
Proof. unfold condition_column_index. destruct (wc_type c); [done|apply get_col_idx_lt..]. Qed.

(** A row of as many fields as the table has columns (at most 14 of them, each
    shorter than 256 bytes) matches a statement with a single equality, which is
    tested on the text of the row without splitting it, exactly when its split
    fields do; every other statement is tested on the split fields anyway. *)
Theorem row_matches_as_fields (h : Header) (stmt : Statement) (row : cstr) :
  forallb line_char row = true → (length row < RECORD_SIZE)%nat → (col_count h < MAX_COLS)%nat →
  length (parse_csv_row row) = col_count h → Forall (fun f => (length f < 256)%nat) (parse_csv_row row) →
  Forall (fun c => (length (wc_val c) < 256)%nat) (where_conditions stmt) →
  row_matches_statement h stmt row = row_fields_match_statement h stmt (parse_csv_row row).
Proof.
  intros Hl Hn Hc Hlen Hf Hv. unfold row_matches_statement, row_fields_match_statement.
  destruct (where_conditions stmt) as [|c [|c' cs]]; [done| |done]. apply Forall_cons_1 in Hv as [Hv _].
  destruct (wc_type c) eqn:Et; [done| |done]. cbn [forallb]. rewrite andb_true_r. unfold cond_holds.
  destruct (condition_column_index h c) as [i|] eqn:Ei; [|done]. rewrite Et.
  pose proof (condition_column_index_lt _ _ _ Ei) as Hi. unfold row_field_equals. rewrite row_scan by (done || lia).
  destruct (lookup_lt_is_Some_2 (parse_csv_row row) i) as [f Ef]; [lia|]. unfold field_at. rewrite Ef. simpl.
  assert (length f < 256)%nat as Hfl by exact (Forall_lookup_1 _ _ _ _ Hf Ef).
  rewrite compare_value_cmp by done. by rewrite copy_range_norm.
Qed.

(** ** The row of an INSERT *)

Definition insert_sources (h : Header) (vals : list cstr) (id : Z) : list cstr :=
  map (insert_source h vals (auto_id h vals) id) (seq 0 (col_count h)).

Section insert.
Context (pk_taken : Z → bool) (uk_taken : nat → cstr → bool) (h : Header).

(** Why the text [source] of column [i] is refused before it is written. *)
Definition refused (i : nat) (c : ColumnInfo) (source : cstr) (err : InsertErr) : Prop :=
  match err with
  | InsNN => col_type c = COL_NN ∧ source = []
  | InsPkEmpty => h_pk h = Some i ∧ source = []
  | InsNoIndex => col_type c = COL_UK ∧ source ≠ [] ∧ get_uk_slot h i = None
  | InsDupUk => col_type c = COL_UK ∧ source ≠ [] ∧ ∃ slot, get_uk_slot h i = Some slot ∧ uk_taken slot source = true
  | _ => False
  end.

Lemma insert_check_spec i c source :
  match insert_check uk_taken h i c source with
  | Some err => refused i c source err
  | None => ∀ err, ¬ refused i c source err
  end.
Proof.
  unfold insert_check.
  destruct (bool_decide_reflect (col_type c = COL_NN)) as [Enn|Enn];
    destruct (bool_decide_reflect (source = [])) as [Es|Es];
    destruct (bool_decide_reflect (h_pk h = Some i)) as [Ep|Ep];
    destruct (bool_decide_reflect (col_type c = COL_UK)) as [Eu|Eu];
    cbn [andb negb]; try (by split).
  all: try (intros err Hr; destruct err; simpl in Hr; try done; first [destruct Hr as (? & ? & ? & ? & ?) | destruct Hr as (? & ? & ?) | destruct Hr]; congruence).
  all: destruct (get_uk_slot h i) as [slot|] eqn:Esl; [|by split].
  all: destruct (uk_taken slot source) eqn:Etk; [simpl; by eauto|].
  all: intros err Hr; destruct err; simpl in Hr; try done; first [destruct Hr as (? & ? & ? & ? & ?) | destruct Hr as (? & ? & ?) | destruct Hr]; congruence.
Qed.

Lemma join_fields_cons f fs : join_fields (f :: fs) = f ++ match fs with [] => [] | _ => COMMA :: join_fields fs end.
Proof. destruct fs; simpl; by rewrite ?app_nil_r. Qed.

Lemma append_csv_field_spec row size v is_last :
  match append_csv_field row size v is_last with
  | Some out => out = row ++ format_field v ++ (if is_last : bool then [] else [COMMA]) ∧ (length out < size)%nat
  | None => (size ≤ length (row ++ format_field v ++ (if is_last then [] else [COMMA])))%nat
  end.
Proof. unfold append_csv_field. cbv zeta. case_if; bool_to_prop; [by split|done]. Qed.

(** What the loop over the columns returns. *)
Lemma insert_cols_spec vals auto id size row i cs :
  let srcs := map (insert_source h vals auto id) (seq i (length cs)) in
  (length row < size)%nat →
  match insert_cols uk_taken h vals auto id size row i cs with
  | inr out =>
      out = row ++ join_fields (map format_field srcs) ∧ (length out < size)%nat ∧
      ∀ k c err, cs !! k = Some c → ¬ refused (i + k) c (insert_source h vals auto id (i + k)) err
  | inl err =>
      (∃ k c, cs !! k = Some c ∧ refused (i + k) c (insert_source h vals auto id (i + k)) err) ∨
      err = InsTooLong ∧ (size ≤ length row + length (join_fields (map format_field srcs)))%nat
  end.
Proof.
  cbv zeta. revert row i; induction cs as [|c cs IH]; intros row i Hrow.
  { simpl. split_and!; [by rewrite app_nil_r|done|]. intros k c err Hk. by rewrite lookup_nil in Hk. }
  cbn [insert_cols length seq map]. set (src := insert_source h vals auto id i).
  pose proof (insert_check_spec i c src) as Hck. destruct (insert_check uk_taken h i c src) as [err|].
  { left. exists 0%nat, c. by rewrite Nat.add_0_r. }
  pose proof (append_csv_field_spec row size src (match cs with [] => true | _ => false end)) as Hap.
  rewrite join_fields_cons.
  destruct (append_csv_field row size src _) as [out|].
  2:{ right. split; [done|]. destruct cs; simpl in *; rewrite !length_app in *; simpl in *; lia. }
  destruct Hap as [Eout Hlt]. specialize (IH out (S i) Hlt).
  assert (row ++ format_field src ++ (match map format_field (map (insert_source h vals auto id) (seq (S i) (length cs))) with
    [] => [] | _ => COMMA :: join_fields (map format_field (map (insert_source h vals auto id) (seq (S i) (length cs)))) end)
    = out ++ join_fields (map format_field (map (insert_source h vals auto id) (seq (S i) (length cs))))) as ->.
  { rewrite Eout. destruct cs; simpl; [by rewrite !app_nil_r|]. by rewrite <- !app_assoc. }
  destruct (insert_cols _ _ _ _ _ _ out _ _) as [err|out'].
  - destruct IH as [(k & c' & Hk & Hr)|[-> Hge]]; [left|right].
    + exists (S k), c'. by rewrite Nat.add_succ_r.
    + split; [done|]. rewrite <- length_app in Hge. clear -Eout Hge. subst out.
      destruct cs; simpl in *; rewrite !length_app in *; simpl in *; rewrite ?length_app in *; simpl in *; lia.
  - destruct IH as (-> & Hlt' & Hno). split_and!; [done|done|].
    intros [|k] c' err Hk; [injection Hk as <-; rewrite Nat.add_0_r; apply Hck|].
    rewrite Nat.add_succ_r. by apply Hno.
Qed.
End insert.

(** The key an INSERT asks for. *)
Definition wants_key (h : Header) (nid : Z) (vals : list cstr) (p : nat) : option Z :=
  if auto_id h vals then Some nid else parse_long_value (field_at vals p).

(** The shape of the row that an INSERT builds. *)
Lemma insert_row_checked_aux pk_taken uk_taken h nid vals id row :
  build_insert_row pk_taken uk_taken h nid vals RECORD_SIZE = inr (id, row) →
  row = join_fields (map format_field (insert_sources h vals id)) ∧ (length row < RECORD_SIZE)%nat ∧
  ∀ p, h_pk h = Some p → wants_key h nid vals p = Some id.
Proof.
  unfold build_insert_row. case_if; [done|]. unfold wants_key.
  destruct (match h_pk h with None => _ | _ => _ end) as [id'|] eqn:Ek; [|done]. case_if; [done|].
  pose proof (insert_cols_spec uk_taken h vals (auto_id h vals) id' RECORD_SIZE [] 0 (h_cols h)) as H.
  specialize (H ltac:(simpl; unfold RECORD_SIZE; lia)).
  destruct (insert_cols _ _ _ _ _ _ _ _ _) as [err|row']; [done|]. intros [= -> ->].
  destruct H as (-> & Hl & _). split_and!; [done|done|]. intros p Hp. by rewrite Hp in Ek.
Qed.

(** The key and the unique values of an INSERT that is accepted are free. *)
Lemma insert_row_free pk_taken uk_taken h nid vals id row :
  build_insert_row pk_taken uk_taken h nid vals RECORD_SIZE = inr (id, row) →
  (∀ p, h_pk h = Some p → pk_taken id = false) ∧
  ∀ i c source, h_cols h !! i = Some c → insert_sources h vals id !! i = Some source →
    col_type c = COL_UK → source ≠ [] → ∃ slot, get_uk_slot h i = Some slot ∧ uk_taken slot source = false.
Proof.
  unfold build_insert_row. case_if; [done|]. destruct (match h_pk h with None => _ | _ => _ end) as [id'|]; [|done].
  destruct (match h_pk h with Some _ => pk_taken id' | None => false end) eqn:Et; [done|].
  pose proof (insert_cols_spec uk_taken h vals (auto_id h vals) id' RECORD_SIZE [] 0 (h_cols h)) as H.
  specialize (H ltac:(simpl; unfold RECORD_SIZE; lia)).
  destruct (insert_cols _ _ _ _ _ _ _ _ _) as [err|row']; [done|]. intros [= -> ->].
  destruct H as (_ & _ & Hno). split; [intros p Hp; by rewrite Hp in Et|].
  intros i c source Hc Hs Ht He. unfold insert_sources in Hs. rewrite list_lookup_fmap in Hs.
  apply fmap_Some in Hs as (j & Hj & ->). apply lookup_seq in Hj as [-> _]. simpl in *. specialize (Hno i c). simpl in Hno.
  destruct (get_uk_slot h i) as [slot|] eqn:Esl; [|by destruct (Hno InsNoIndex Hc)].
  exists slot. split; [done|]. destruct (uk_taken slot _) eqn:Etk; [|done].
  destruct (Hno InsDupUk Hc). split_and!; [done|done|by exists slot].
Qed.

(** What an INSERT of the stand-alone executor does with its values: it builds
    the line of the normalised values only when there are no more values than
    columns, the key is an integer (or is given by the table) that no row has, no
    NOT NULL column is empty, no value of a unique column is taken and the line
    fits; each refusal has the reason it reports. *)
Theorem insert_row_checked (pk_taken : Z → bool) (uk_taken : nat → cstr → bool) (h : Header) (nid : Z)
    (vals : list cstr) :
  match build_insert_row pk_taken uk_taken h nid vals RECORD_SIZE with
  | inr (id, row) =>
      (length vals ≤ col_count h)%nat ∧ row = join_fields (map format_field (insert_sources h vals id)) ∧
      (length row < RECORD_SIZE)%nat ∧
      (∀ p, h_pk h = Some p → wants_key h nid vals p = Some id ∧ pk_taken id = false) ∧
      ∀ i c source, h_cols h !! i = Some c → insert_sources h vals id !! i = Some source →
        (col_type c = COL_NN → source ≠ []) ∧
        (col_type c = COL_UK → source ≠ [] → ∃ slot, get_uk_slot h i = Some slot ∧ uk_taken slot source = false)
  | inl InsTooMany => (col_count h < length vals)%nat
  | inl InsPkNotInt => ∃ p, h_pk h = Some p ∧ wants_key h nid vals p = None
  | inl InsDupPk => ∃ p id, h_pk h = Some p ∧ wants_key h nid vals p = Some id ∧ pk_taken id = true
  | inl err =>
      ∃ id, (∃ i c, h_cols h !! i = Some c ∧
               refused uk_taken h i c (insert_source h vals (auto_id h vals) id i) err) ∨
            err = InsTooLong ∧ (RECORD_SIZE ≤ length (join_fields (map format_field (insert_sources h vals id))))%nat
  end.
Proof.
  unfold build_insert_row. destruct (col_count h <? length vals)%nat eqn:En; [by apply Nat.ltb_lt|].
  apply Nat.ltb_ge in En.
  set (key := match h_pk h with None => Some 0 | Some p => if auto_id h vals then Some nid else parse_long_value (field_at vals p) end).
  assert (∀ p, h_pk h = Some p → wants_key h nid vals p = key) as Hkey by (intros p Hp; unfold key; by rewrite Hp).
  destruct key as [id|] eqn:Ek.
  2:{ destruct (h_pk h) as [p|] eqn:Ep; [|done]. exists p. split; [done|by apply Hkey]. }
  destruct (match h_pk h with Some _ => pk_taken id | None => false end) eqn:Et.
  { destruct (h_pk h) as [p|] eqn:Ep; [|done]. exists p, id. split_and!; [done|by apply Hkey|done]. }
  pose proof (insert_cols_spec uk_taken h vals (auto_id h vals) id RECORD_SIZE [] 0 (h_cols h)) as H.
  cbv zeta in H. specialize (H ltac:(simpl; unfold RECORD_SIZE; lia)).
  change (map (insert_source h vals (auto_id h vals) id) (seq 0 (length (h_cols h)))) with (insert_sources h vals id) in H.
  destruct (insert_cols _ _ _ _ _ _ _ _ _) as [err|row]; cbn [app length] in H.
  - assert (∃ id0, (∃ i c, h_cols h !! i = Some c ∧
               refused uk_taken h i c (insert_source h vals (auto_id h vals) id0 i) err) ∨
            err = InsTooLong ∧ (RECORD_SIZE ≤ length (join_fields (map format_field (insert_sources h vals id0))))%nat) as Hx
      by (exists id; destruct H as [(k & c & Hk & Hr)|H]; [left; by exists k, c|by right]).
    destruct err; try done.
    all: destruct Hx as (? & [(? & ? & ? & [])|[? ?]]); done.
  - destruct H as (-> & Hl & Hno). split_and!; [done|done|done| |].
    + intros p Hp. split; [by apply Hkey|]. by rewrite Hp in Et.
    + intros i c source Hc Hs. unfold insert_sources in Hs. rewrite list_lookup_fmap in Hs.
      apply fmap_Some in Hs as (j & Hj & ->). apply lookup_seq in Hj as [-> _]. simpl.
      specialize (Hno i c). simpl in Hno. split.
      * intros Ht He. by apply (Hno InsNN Hc).
      * intros Ht He. destruct (get_uk_slot h i) as [slot|] eqn:Esl; [|by destruct (Hno InsNoIndex Hc)].
        exists slot. split; [done|]. destruct (uk_taken slot _) eqn:Etk; [|done].
        destruct (Hno InsDupUk Hc). split_and!; [done|done|by exists slot].
Qed.

(** ** The row is read back *)

Lemma parse_long_norm a b :
  (length a < 256)%nat → (length b < 256)%nat → trim_uq a = trim_uq b → parse_long_value a = parse_long_value b.
Proof.
  intros Ha Hb E. unfold parse_long_value, trim_and_unquote, strcpy_sz. rewrite !take_ge by lia. by rewrite E.
Qed.

Lemma parse_long_print n : LONG_MIN ≤ n ≤ LONG_MAX → parse_long_value (print_Z n) = Some n.
Proof.
  intros Hn. unfold parse_long_value, trim_and_unquote, strcpy_sz.
  rewrite take_ge by (pose proof (print_Z_length n Hn); lia). rewrite trim_print_Z.
  pose proof (strtol_print n Hn) as Hs.
  destruct (print_Z n) as [|c s] eqn:E; [by destruct (print_Z_shape n) as (? & ? & ? & _); congruence|].
  assert (streq (c :: s) (lit "NULL") = false) as ->.
  { apply streq_false. intros E'. rewrite E' in Hs. by vm_compute in Hs. }
  by rewrite Hs.
Qed.

Lemma format_val_text v : (length v ≤ RECORD_SIZE - 3)%nat → format_field v = val_text v.
Proof. intros H. unfold format_field, val_text. destruct (strchr v COMMA); [|done]. by rewrite take_ge by lia. Qed.

Lemma val_text_length v : (length (val_text v) ≤ length v + 2)%nat.
Proof. unfold val_text. destruct (strchr v COMMA); simpl; rewrite ?length_app; simpl; lia. Qed.

(** The texts an INSERT writes can be told apart in the file: no quote or line end
    inside, trimmed unless there is a comma, at most 1021 bytes. *)
Definition plain_sources (h : Header) (vals : list cstr) (id : Z) : Prop :=
  Forall (fun v => storable_val v = true ∧ (length v ≤ RECORD_SIZE - 3)%nat) (insert_sources h vals id).

#[global] Instance plain_sources_dec h vals id : Decision (plain_sources h vals id).
Proof. unfold plain_sources. apply _. Defined.

Lemma insert_source_auto h vals id p :
  h_pk h = Some p → auto_id h vals = true → insert_source h vals true id p = print_Z id.
Proof. intros Hp _. unfold insert_source. rewrite Hp. by rewrite bool_decide_eq_true_2. Qed.

Lemma insert_source_given h vals id p :
  insert_source h vals false id p = trim_uq (strcpy_sz RECORD_SIZE (field_at vals p)).
Proof. done. Qed.

(** The line splits into the values, and its key is the key it was given. *)
Lemma built_row_reads_back pk_taken uk_taken h nid vals id row :
  build_insert_row pk_taken uk_taken h nid vals RECORD_SIZE = inr (id, row) →
  (0 < col_count h ≤ MAX_COLS)%nat → plain_sources h vals id →
  LONG_MIN ≤ nid ≤ LONG_MAX →
  (∀ p, h_pk h = Some p → (p < col_count h)%nat ∧ (length (field_at vals p) < 254)%nat) →
  parse_csv_row row = map val_text (insert_sources h vals id) ∧
  map trim_and_unquote (parse_csv_row row) = insert_sources h vals id ∧
  (∀ p, h_pk h = Some p → get_row_pk_value h row = Some id).
Proof.
  intros Hb Hc Hst Hnid Hpk. pose proof (insert_row_checked_aux pk_taken uk_taken h nid vals id row Hb) as (Hrow & Hlen & Hkey).
  assert (map format_field (insert_sources h vals id) = map val_text (insert_sources h vals id)) as Efmt.
  { apply map_ext_in. intros v Hv. apply format_val_text. unfold plain_sources in Hst.
    rewrite Forall_forall in Hst. by destruct (Hst v Hv). }
  rewrite Efmt in Hrow.
  assert (Forall (fun v => storable_val v = true) (insert_sources h vals id)) as Hst'
    by exact (List.Forall_impl _ (fun v H => proj1 H) Hst).
  assert (length (insert_sources h vals id) = col_count h) as Hn
    by (unfold insert_sources; by rewrite length_map, length_seq).
  assert (parse_csv_row row = map val_text (insert_sources h vals id)) as Hsplit.
  { subst row. unfold parse_csv_row.
    pose proof (split_csv_join (map val_text (insert_sources h vals id)) []) as H.
    rewrite app_nil_r, app_last_nil in H. apply H.
    - destruct (insert_sources h vals id); simpl in *; [lia|done].
    - apply Forall_map_list. exact (List.Forall_impl _ field_ok_val Hst').
    - rewrite length_map. lia.
    - done.
    - done. }
  split; [done|]. split; [rewrite Hsplit; by apply map_trim_text|]. intros p Hp. destruct (Hpk p Hp) as [Hlt Hshort].
  specialize (Hkey p Hp). unfold get_row_pk_value. rewrite Hp, Hsplit.
  assert (insert_sources h vals id !! p = Some (insert_source h vals (auto_id h vals) id p)) as Hsrc.
  { unfold insert_sources. rewrite list_lookup_fmap, lookup_seq_lt by done. done. }
  set (src := insert_source h vals (auto_id h vals) id p) in *.
  unfold field_at. rewrite list_lookup_fmap, Hsrc. simpl.
  assert (trim_uq (val_text src) = src) as Etrim by (apply trim_val_text; by eapply Forall_lookup_1 in Hst').
  unfold wants_key in Hkey. destruct (auto_id h vals) eqn:Ea.
  - injection Hkey as ->. subst src. rewrite insert_source_auto in * by done.
    rewrite (parse_long_norm _ (print_Z id)); [by apply parse_long_print| | |].
    + pose proof (val_text_length (print_Z id)). pose proof (print_Z_length id Hnid). lia.
    + pose proof (print_Z_length id Hnid). lia.
    + by rewrite Etrim, trim_print_Z.
  - subst src. rewrite insert_source_given in *. unfold strcpy_sz in *.
    rewrite (take_ge (field_at vals p)) in * by (unfold RECORD_SIZE; lia).
    rewrite (parse_long_norm _ (field_at vals p)); [done| | |by rewrite Etrim].
    + pose proof (val_text_length (trim_uq (field_at vals p))). pose proof (trim_uq_length (field_at vals p)). lia.
    + lia.
Qed.

(** Round trip of a row through the file of the stand-alone executor: splitting
    the line that an INSERT built gives back the values, trimmed and unquoted, and
    the primary key read from the line is the key the row was inserted under. *)
Theorem inserted_row_reads_back (pk_taken : Z → bool) (uk_taken : nat → cstr → bool) (h : Header) (nid : Z)
    (vals : list cstr) (id : Z) (row : cstr) :
  build_insert_row pk_taken uk_taken h nid vals RECORD_SIZE = inr (id, row) →
  (0 < col_count h ≤ MAX_COLS)%nat → plain_sources h vals id →
  LONG_MIN ≤ nid ≤ LONG_MAX →
  (∀ p, h_pk h = Some p → (p < col_count h)%nat ∧ (length (field_at vals p) < 254)%nat) →
  map trim_and_unquote (parse_csv_row row) = insert_sources h vals id ∧
  (∀ p, h_pk h = Some p → get_row_pk_value h row = Some id).
Proof. intros H1 H2 H3 H4 H5. by destruct (built_row_reads_back _ _ _ _ _ _ _ H1 H2 H3 H4 H5). Qed.

(** ** The header is read back *)

(** A header that the first line of a file can give, with names that survive. *)
Definition header_ok (h : Header) : Prop :=
  h_pk h = last_pk 0 (h_cols h) None ∧ h_uks h = take MAX_UKS (uk_columns 0 (h_cols h)) ∧
  (0 < col_count h ≤ MAX_COLS)%nat ∧
  Forall (fun c => storable_name (col_name c) = true ∧ col_name c ≠ []) (h_cols h) ∧
  take 3 (write_table_header h) ≠ [239; 187; 191].

#[global] Instance header_ok_dec h : Decision (header_ok h).
Proof. unfold header_ok. apply _. Defined.

Definition sep_free (s : cstr) : Prop := Forall (fun c => c ≠ COMMA ∧ c ≠ CR ∧ c ≠ NL) s.

Lemma tokens_text cur t c rest :
  sep_free t → cur ++ t ≠ [] → c = COMMA ∨ c = NL → tokens cur (t ++ c :: rest) = (cur ++ t) :: tokens [] rest.
Proof.
  revert cur; induction t as [|x t IH]; intros cur Ht Hne Hc; simpl.
  - rewrite app_nil_r in *. assert ((c =? COMMA) || (c =? CR) || (c =? NL) = true) as -> by (by destruct Hc as [->| ->]).
    by destruct cur.
  - apply Forall_cons_1 in Ht as [(H1 & H2 & H3) Ht].
    rewrite (proj2 (Z.eqb_neq x COMMA)), (proj2 (Z.eqb_neq x CR)), (proj2 (Z.eqb_neq x NL)) by done.
    simpl. rewrite IH; [by rewrite <- app_assoc|done|by destruct cur|done].
Qed.

Lemma col_text_sep_free c : storable_name (col_name c) = true → sep_free (col_text c).
Proof.
  intros Hn. pose proof (col_text_scan c Hn) as [_ Hl]. apply storable_name_inv in Hn as (_ & Hc & _).
  apply Forall_forall. intros x Hx. split.
  - intros ->. unfold col_text in Hx. apply in_app_or in Hx as [Hx|Hx].
    + apply strchr_None in Hc. rewrite Forall_forall in Hc. by apply (Hc _ Hx).
    + by destruct (col_type c); simpl in Hx; intuition.
  - rewrite forallb_forall in Hl. specialize (Hl x Hx). unfold line_char in Hl.
    apply andb_true_iff in Hl as [H1%negb_true_iff%Z.eqb_neq H2%negb_true_iff%Z.eqb_neq]. done.
Qed.

Lemma tokens_line cs :
  Forall (fun c => storable_name (col_name c) = true ∧ col_name c ≠ []) cs →
  tokens [] (join_line (map col_text cs)) = map col_text cs.
Proof.
  induction 1 as [|c cs [Hn Hne] Hcs IH]; [done|].
  assert ([] ++ col_text c ≠ []) as Hne' by (unfold col_text; by destruct (col_name c)).
  destruct cs as [|c' cs].
  - change (join_line (map col_text [c])) with (col_text c ++ NL :: []).
    rewrite tokens_text; [done|by apply col_text_sep_free|done|by right].
  - change (join_line (map col_text (c :: c' :: cs))) with (col_text c ++ COMMA :: join_line (map col_text (c' :: cs))).
    rewrite tokens_text; [by rewrite IH|by apply col_text_sep_free|done|by left].
Qed.

Lemma header_col_text c : storable_name (col_name c) = true → header_col (col_text c) = c.
Proof.
  intros (Hp & Hcm & Hlp & Hs & Hr & Hlen)%storable_name_inv. unfold header_col, col_text.
  rewrite strchr_app_None by done. destruct c as [nm ty]. cbn [col_name col_type] in *.
  destruct ty; cbn [tag_text strchr fmap option_fmap option_map].
  1:{ rewrite app_nil_r. unfold strcpy_sz. by rewrite take_ge by (unfold COL_SIZE in *; lia). }
  all: match goal with |- context [strchr (lit ?s) LPAREN] => change (strchr (lit s) LPAREN) with (Some 0%nat) end.
  all: cbn [fmap option_fmap option_map]; rewrite Nat.add_0_r, (proj2 (Nat.leb_gt _ _) Hlen).
  all: by rewrite take_app_length, drop_app_length.
Qed.

Lemma write_cols_line n k cs :
  n = (k + length cs)%nat →
  concat (imap (fun i c => col_text c ++ [if (k + i =? n - 1)%nat then NL else COMMA]) cs) = join_line (map col_text cs).
Proof.
  revert k; induction cs as [|c cs IH]; intros k Hn; [done|]. destruct cs as [|c' cs].
  - simpl in *. rewrite (proj2 (Nat.eqb_eq (k + 0) (n - 1))) by lia. by rewrite app_nil_r.
  - simpl in Hn. specialize (IH (S k) ltac:(simpl; lia)).
    change (join_line (map col_text (c :: c' :: cs))) with (col_text c ++ COMMA :: join_line (map col_text (c' :: cs))).
    rewrite <- IH. set (l := c' :: cs). cbn [imap concat].
    rewrite (proj2 (Nat.eqb_neq (k + 0) (n - 1))) by lia. rewrite <- app_assoc. cbn [app]. do 3 f_equal.
    apply imap_ext. intros i x _. simpl. by rewrite Nat.add_succ_r.
Qed.

(** The header line that the stand-alone executor writes gives back the columns,
    their types, the primary key and the unique columns when the table is loaded
    again. *)
Theorem header_roundtrip (h : Header) : header_ok h → parse_header (write_table_header h) = h.
Proof.
  intros (Hpk & Huk & Hc & Hn & Hbom). unfold parse_header.
  assert (match write_table_header h with 239 :: 187 :: 191 :: rest => rest | _ => write_table_header h end =
    write_table_header h) as ->.
  { destruct (write_table_header h) as [|a [|b [|c s]]]; try done; repeat (case_match; try done); subst.
    all: by destruct (Hbom eq_refl). }
  assert (write_table_header h = join_line (map col_text (h_cols h))) as -> by (by apply (write_cols_line _ 0)).
  rewrite tokens_line by done. rewrite take_ge by (rewrite length_map; unfold col_count in Hc; lia).
  assert (map header_col (map col_text (h_cols h)) = h_cols h) as ->.
  { rewrite map_map. rewrite <- (map_id (h_cols h)) at 2. apply map_ext_in. intros c Hin.
    apply header_col_text. rewrite Forall_forall in Hn. by destruct (Hn c Hin). }
  rewrite <- Hpk, <- Huk. by destruct h.
Qed.

(** ** Samples *)

(** The header of [JUNGLE_BENCHMARK_HEADER]. *)
Definition jungle_header : Header :=
  parse_header (lit "id(PK),email(UK),phone(UK),name,track(NN),background,history,pretest,github,status,round" ++ [NL]).

Definition jungle_vals : list cstr :=
  map lit ["kim@jungle.kr"; "010-1"; " kim "; "game, lab"; "cs"; "none"; "70"; "git"; "new"; "1"]%string.

Definition sample_row (vals : list cstr) : InsertErr + (Z * cstr) :=
  build_insert_row (fun k => k =? 3) (fun _ v => streq v (lit "lee@jungle.kr")) jungle_header 7 vals RECORD_SIZE.

Definition jungle_row : cstr := lit "7,kim@jungle.kr,010-1,kim,'game, lab',cs,none,70,git,new,1".

Definition legacy_stmt (sql : string) : Statement := default (stmt0 STMT_UNRECOGNIZED) (parse_statement (lit sql)).

Lemma row_matches_as_fields_witness :
  let stmt := legacy_stmt "SELECT * FROM j WHERE track = 'game, lab'" in
  length (where_conditions stmt) = 1%nat ∧
  row_matches_statement jungle_header stmt jungle_row = row_fields_match_statement jungle_header stmt (parse_csv_row jungle_row) ∧
  row_matches_statement jungle_header stmt jungle_row = true.
Proof.
  split; [vm_compute; reflexivity|]. split; [|vm_compute; reflexivity]. apply (row_matches_as_fields jungle_header).
  - vm_compute; reflexivity.
  - apply Nat.ltb_lt. vm_compute; reflexivity.
  - apply Nat.ltb_lt. vm_compute; reflexivity.
  - vm_compute; reflexivity.
  - apply (bool_decide_unpack _). vm_compute; reflexivity.
  - apply (bool_decide_unpack _). vm_compute; reflexivity.
Defined.

Lemma inserted_row_reads_back_witness :
  sample_row jungle_vals = inr (7, jungle_row) ∧
  map trim_and_unquote (parse_csv_row jungle_row) = insert_sources jungle_header jungle_vals 7 ∧
  (∀ p, h_pk jungle_header = Some p → get_row_pk_value jungle_header jungle_row = Some 7).
Proof.
  assert (sample_row jungle_vals = inr (7, jungle_row)) as H by (vm_compute; reflexivity).
  split; [exact H|]. apply (inserted_row_reads_back _ _ jungle_header 7 jungle_vals 7 jungle_row H).
  - split; [apply Nat.ltb_lt|apply Nat.leb_le]; vm_compute; reflexivity.
  - apply (bool_decide_unpack _). vm_compute; reflexivity.
  - unfold LONG_MIN, LONG_MAX. lia.
  - intros p Hp. vm_compute in Hp. injection Hp as <-. split; apply Nat.ltb_lt; vm_compute; reflexivity.
Defined.

Lemma header_roundtrip_witness : header_ok jungle_header ∧ parse_header (write_table_header jungle_header) = jungle_header.
Proof.
  assert (header_ok jungle_header) as H by (apply (bool_decide_unpack _); vm_compute; reflexivity).
  split; [exact H|exact (header_roundtrip jungle_header H)].
Defined.

(** Each refusal happens. *)
Example sample_rows :
  sample_row (map lit ["kim@jungle.kr"; "010-1"; "kim"; " "; "cs"; "none"; "70"; "git"; "new"; "1"]%string) = inl InsNN ∧
  sample_row (map lit ["lee@jungle.kr"; "010-1"; "kim"; "g"; "cs"; "none"; "70"; "git"; "new"; "1"]%string) = inl InsDupUk ∧
  sample_row (map lit ["3"; "a"; "b"; "kim"; "g"]%string) = inl InsDupPk ∧
  sample_row (map lit ["3x"; "a"; "b"; "kim"; "g"]%string) = inl InsPkNotInt ∧
  sample_row (replicate 12 (lit "1")) = inl InsTooMany ∧
  sample_row (map lit ["1"; "a"; "b"; "kim"; "g"]%string ++ replicate 3 (replicate 400 65)) = inl InsTooLong.
Proof. vm_compute. split_and!; reflexivity. Qed.

(** When the key is given as NULL next to a value for every column, the values
    move by one column: the NULL lands in the second column and the last value is
    lost. *)
Lemma null_key_shifts_values :
  let h := parse_header (lit "id(PK),name,city" ++ [NL]) in
  build_insert_row (fun _ => false) (fun _ _ => false) h 1 (map lit ["NULL"; "kim"; "seoul"]%string) RECORD_SIZE =
    inr (1, lit "1,NULL,kim").
Proof. vm_compute. reflexivity. Qed.

(** With two conditions a field is compared by its first 255 bytes, with one by
    1023, so a condition written twice matches a row that it does not match alone. *)
Lemma repeated_condition_matches_more :
  let h := parse_header (lit "id(PK),note" ++ [NL]) in
  let cond := mkCond WHERE_EQ (lit "note") (replicate 255 65) [] in
  let stmt cs := mkStmt STMT_SELECT (lit "t") [] true [] [] [] cs WHERE_EQ [] [] [] in
  let row := lit "1," ++ replicate 300 65 in
  row_matches_statement h (stmt [cond]) row = false ∧ row_matches_statement h (stmt [cond; cond]) row = true.
Proof. vm_compute. split; reflexivity. Qed.
