(* ===== verification/LegacyCache.v ===== *)
(** Where the stand-alone executor keeps its rows, [src/legacy/executor.c]: slots
    that hold a row or say where it stands in the CSV file, the cache of rows and
    the cache of pages in front of the file, the free list, and the sorted index
    of the rows beyond the limit.

    Memory is given and the file can be read, sought and flushed. *)

From Stdlib Require Import String.
From S2P Require Import Prelude CString Parser Values Table Store LegacyRow.
From stdpp Require Import base numbers list option.
Local Open Scope Z_scope.

Definition INITIAL_RECORD_CAPACITY : Z := 1024.
Definition ROW_CACHE_LIMIT : Z := 65536.
Definition PAGE_CACHE_PAGE_SIZE : Z := 65536.
Definition PAGE_CACHE_LIMIT : nat := 2048.

(** ** Data *)

Inductive RowStoreType := ROW_STORE_NONE | ROW_STORE_CSV | ROW_STORE_MEMORY.

#[global] Instance RowStoreType_eq_dec : EqDecision RowStoreType.
Proof. solve_decision. Defined.

(** One entry of [records], [record_active], [row_ids], [row_store] with
    [row_refs[].store], [row_offsets] with [row_refs[].offset] (the source always
    sets them together), [row_cached] and [row_cache_seq]. *)
Record Slot := mkSlot {
  s_row : option cstr;
  s_active : bool;
  s_id : Z;
  s_store : RowStoreType;
  s_offset : Z;
  s_cached : bool;
  s_seq : Z;
}.

Definition slot0 : Slot := mkSlot None false 0 ROW_STORE_NONE 0 false 0.

(** The arrays by slot, [record_count] of which are in use, with their counters;
    the top of [free_slots] is its last element. *)
Record Slots := mkSlots {
  slots : list Slot;
  record_capacity : Z;
  active_count : Z;
  cached_record_count : Z;
  row_cache_clock : Z;
  row_cache_evict_cursor : nat;
  free_slots : list Z;
  free_capacity : Z;
}.

Definition record_count (s : Slots) : Z := Z.of_nat (length (slots s)).

Definition slots0 : Slots := mkSlots [] 0 0 0 0 0 [] 0.

(** An entry of [page_cache]; [bytes] is the length of [data]. *)
Record Page := mkPage { page_start : Z; page_data : cstr; last_used : Z }.

(** An entry that is not [valid] is [None]. *)
Record Pages := mkPages {
  page_cache : list (option Page);
  page_cache_count : nat;
  page_cache_clock : Z;
}.

Definition clear_page_cache : Pages := mkPages (replicate PAGE_CACHE_LIMIT None) 0 0.

(** [tail_pk_ids] and [tail_offsets]. *)
Record Tail := mkTail { tail_entries : list (Z * Z); tail_capacity : Z }.

Definition slot_at (s : Slots) (i : Z) : Slot := default slot0 (slots s !! Z.to_nat i).

Definition set_slot (s : Slots) (i : Z) (sl : Slot) : Slots :=
  mkSlots (<[Z.to_nat i := sl]> (slots s)) (record_capacity s) (active_count s) (cached_record_count s) (row_cache_clock s)
    (row_cache_evict_cursor s) (free_slots s) (free_capacity s).
Definition set_counts (s : Slots) (active cached : Z) : Slots :=
  mkSlots (slots s) (record_capacity s) active cached (row_cache_clock s) (row_cache_evict_cursor s) (free_slots s)
    (free_capacity s).
Definition set_clock (s : Slots) (clock : Z) : Slots :=
  mkSlots (slots s) (record_capacity s) (active_count s) (cached_record_count s) clock (row_cache_evict_cursor s)
    (free_slots s) (free_capacity s).
Definition set_cursor (s : Slots) (cur : nat) : Slots :=
  mkSlots (slots s) (record_capacity s) (active_count s) (cached_record_count s) (row_cache_clock s) cur (free_slots s)
    (free_capacity s).
Definition set_free (s : Slots) (fr : list Z) (cap : Z) : Slots :=
  mkSlots (slots s) (record_capacity s) (active_count s) (cached_record_count s) (row_cache_clock s)
    (row_cache_evict_cursor s) fr cap.
Definition set_arrays (s : Slots) (l : list Slot) (cap : Z) : Slots :=
  mkSlots l cap (active_count s) (cached_record_count s) (row_cache_clock s) (row_cache_evict_cursor s) (free_slots s)
    (free_capacity s).

(** ** Capacities *)

(** [while (new_capacity < required)] of [ensure_record_capacity]. *)
Fixpoint grow_records (fuel : nat) (cap required : Z) : Z :=
  if required <=? cap then cap
  else match fuel with
       | O => cap
       | S f => if MAX_RECORDS / 2 <? cap then MAX_RECORDS else grow_records f (cap * 2) required
       end.

(** The capacity doubles, so 32 rounds pass [MAX_RECORDS]. *)
Definition ensure_record_capacity (s : Slots) (required : Z) : option Slots :=
  if required <=? record_capacity s then Some s
  else
    let cap := grow_records 32 (if 0 <? record_capacity s then record_capacity s else INITIAL_RECORD_CAPACITY) required in
    if cap <? required then None else Some (set_arrays s (slots s) cap).

(** [while (new_capacity < required) new_capacity *= 2] of the free list and of the
    tail index. *)
Fixpoint grow_double (fuel : nat) (cap required : Z) : Z :=
  if required <=? cap then cap
  else match fuel with
       | O => cap
       | S f => grow_double f (cap * 2) required
       end.

Definition grown (cap required : Z) : Z :=
  if required <=? cap then cap else grow_double 32 (if 0 <? cap then cap else INITIAL_RECORD_CAPACITY) required.

Definition ensure_free_slot_capacity (s : Slots) (required : Z) : Slots :=
  set_free s (free_slots s) (grown (free_capacity s) required).

Definition push_free_slot (s : Slots) (slot_id : Z) : Slots :=
  let s1 := ensure_free_slot_capacity s (Z.of_nat (length (free_slots s)) + 1) in
  set_free s1 (free_slots s1 ++ [slot_id]) (free_capacity s1).

(** The slot taken: the top of the free list, or the next one of the arrays. *)
Definition take_record_slot (s : Slots) (allow_reuse : bool) : option (Z * Slots) :=
  if allow_reuse && (0 <? length (free_slots s))%nat then
    Some (List.last (free_slots s) 0, set_free s (removelast (free_slots s)) (free_capacity s))
  else if MAX_RECORDS <=? record_count s then None
  else
    s1 ← ensure_record_capacity s (record_count s + 1);
    Some (record_count s, set_arrays s1 (slots s1 ++ [slot0]) (record_capacity s1)).

(** ** The tail index *)

(** The shifting loop, which goes from the last entry down. *)
Fixpoint tail_shift (e : Z * Z) (es : list (Z * Z)) : list (Z * Z) :=
  match es with
  | x :: es' => if e.1 <? x.1 then x :: tail_shift e es' else e :: es
  | [] => [e]
  end.

Definition append_tail_pk_offset (t : Tail) (id_value offset : Z) : Tail :=
  mkTail (rev (tail_shift (id_value, offset) (rev (tail_entries t))))
    (grown (tail_capacity t) (Z.of_nat (length (tail_entries t)) + 1)).

(** The binary search; [hi - lo + 1] shrinks in every round. *)
Fixpoint find_tail (fuel : nat) (es : list (Z * Z)) (id_value lo hi : Z) : option Z :=
  match fuel with
  | O => None
  | S f =>
      if hi <? lo then None
      else
        let mid := lo + (hi - lo) / 2 in
        e ← es !! Z.to_nat mid;
        if e.1 =? id_value then Some e.2
        else if e.1 <? id_value then find_tail f es id_value (mid + 1) hi
        else find_tail f es id_value lo (mid - 1)
  end.

Definition find_tail_pk_offset (t : Tail) (id_value : Z) : option Z :=
  find_tail (S (length (tail_entries t))) (tail_entries t) id_value 0 (Z.of_nat (length (tail_entries t)) - 1).

(** ** Pages *)

(** The loop for an entry with this page. *)
Fixpoint find_page (start : Z) (i : nat) (ps : list (option Page)) : option nat :=
  match ps with
  | [] => None
  | Some p :: ps' => if page_start p =? start then Some i else find_page start (S i) ps'
  | None :: ps' => find_page start (S i) ps'
  end.

(** The entry to fill: the first that is not valid, else the one used longest ago. *)
Fixpoint page_target (i : nat) (ps : list (option Page)) (best : option (nat * Z)) : option nat :=
  match ps with
  | [] => fst <$> best
  | None :: _ => Some i
  | Some p :: ps' =>
      page_target (S i) ps'
        (match best with
         | Some (_, oldest) => if last_used p <? oldest then Some (i, last_used p) else best
         | None => Some (i, last_used p)
         end)
  end.

Definition get_page_cache_entry (file : cstr) (pc : Pages) (offset : Z) : option Page * Pages :=
  let start := offset / PAGE_CACHE_PAGE_SIZE * PAGE_CACHE_PAGE_SIZE in
  let clock := page_cache_clock pc + 1 in
  match find_page start 0 (page_cache pc) with
  | Some i =>
      match page_cache pc !! i with
      | Some (Some p) =>
          let p' := mkPage (page_start p) (page_data p) clock in
          (Some p', mkPages (<[i := Some p']> (page_cache pc)) (page_cache_count pc) clock)
      | _ => (None, pc)
      end
  | None =>
      match page_target 0 (page_cache pc) None with
      | None => (None, pc)
      | Some i =>
          let p := mkPage start (take (Z.to_nat PAGE_CACHE_PAGE_SIZE) (drop (Z.to_nat start) file)) clock in
          (Some p, mkPages (<[i := Some p]> (page_cache pc))
                     (if (page_cache_count pc <? PAGE_CACHE_LIMIT)%nat then S (page_cache_count pc) else page_cache_count pc)
                     clock)
      end
  end.

(** The row that begins at [offset]; [None] when it does not end within a full page. *)
Definition read_row_from_page_cache (file : cstr) (pc : Pages) (offset : Z) : option cstr * Pages :=
  let '(entry, pc') := get_page_cache_entry file pc offset in
  match entry with
  | None => (None, pc')
  | Some p =>
      let in_page := Z.to_nat (offset - page_start p) in
      let bytes := length (page_data p) in
      if (offset <? page_start p) || (bytes <=? in_page)%nat then (None, pc')
      else
        let row := cut_nl (drop in_page (page_data p)) in
        let len := length row in
        if (bytes <=? in_page + len)%nat && (Z.of_nat len =? PAGE_CACHE_PAGE_SIZE - Z.of_nat in_page) then (None, pc')
        else (Some row, pc')
  end.

(** The row as read through [fgets] when the page does not hold it. *)
Definition read_row_line (file : cstr) (offset : Z) : option cstr :=
  match fgets (RECORD_SIZE - 1) (drop (Z.to_nat offset) file) with
  | ([], _) => None
  | (line, _) => Some (cut_nl line)
  end.

Definition read_row (file : cstr) (pc : Pages) (offset : Z) : option cstr * Pages :=
  match read_row_from_page_cache file pc offset with
  | (Some row, pc') => (Some row, pc')
  | (None, pc') => (read_row_line file offset, pc')
  end.

(** ** Rows in memory *)

Definition slot_is_active (s : Slots) (slot_id : Z) : bool :=
  (0 <=? slot_id) && (slot_id <? record_count s) && s_active (slot_at s slot_id).

(** The inner loop of [evict_row_cache_if_needed], [n] more slots to look at: the
    slots, and whether all of them were looked at. *)
Fixpoint evict_scan (n : nat) (s : Slots) : Slots * bool :=
  match n with
  | O => (s, true)
  | S n' =>
      let i := row_cache_evict_cursor s in
      let s1 := set_cursor s (if (length (slots s) <=? S i)%nat then 0%nat else S i) in
      let sl := slot_at s (Z.of_nat i) in
      if negb (s_cached sl) || match s_row sl with None => true | Some _ => false end ||
         bool_decide (s_store sl = ROW_STORE_MEMORY)
      then evict_scan n' s1
      else
        (set_counts (set_slot s1 (Z.of_nat i) (mkSlot None (s_active sl) (s_id sl) (s_store sl) (s_offset sl) false 0))
           (active_count s1) (cached_record_count s1 - 1),
         (n' =? 0)%nat)
  end.

(** Every round but the last takes one row out of the count; [None] when the fuel
    is gone. *)
Fixpoint evict_loop (fuel : nat) (s : Slots) : option Slots :=
  if cached_record_count s <? ROW_CACHE_LIMIT then Some s
  else match fuel with
       | O => None
       | S f =>
           if record_count s <=? 0 then Some s
           else match evict_scan (length (slots s)) s with
                | (s', true) => Some s'
                | (s', false) => evict_loop f s'
                end
       end.

Definition evict_row_cache_if_needed (s : Slots) : option Slots :=
  evict_loop (S (Z.to_nat (cached_record_count s - ROW_CACHE_LIMIT + 1))) s.

(** The row of a slot, read from the file when it is not in memory. *)
Definition slot_row (file : option cstr) (pc : Pages) (s : Slots) (slot_id : Z) : option (option cstr * Pages * Slots) :=
  if negb (slot_is_active s slot_id) then Some (None, pc, s)
  else
    let sl := slot_at s slot_id in
    match s_row sl with
    | Some row =>
        if bool_decide (s_store sl = ROW_STORE_MEMORY) then Some (Some row, pc, s)
        else
          let clock := row_cache_clock s + 1 in
          Some (Some row, pc,
                set_clock (set_slot s slot_id (mkSlot (Some row) (s_active sl) (s_id sl) (s_store sl) (s_offset sl) true clock)) clock)
    | None =>
        match file with
        | Some f =>
            if bool_decide (s_store sl = ROW_STORE_CSV) && (0 <=? s_offset sl) then
              s1 ← evict_row_cache_if_needed s;
              match read_row f pc (s_offset sl) with
              | (None, pc') => Some (None, pc', s1)
              | (Some row, pc') =>
                  let clock := row_cache_clock s1 + 1 in
                  Some (Some row, pc',
                        set_counts (set_clock (set_slot s1 slot_id
                          (mkSlot (Some row) (s_active sl) (s_id sl) (s_store sl) (s_offset sl) true clock)) clock)
                          (active_count s1) (cached_record_count s1 + 1))
              end
            else Some (None, pc, s)
        | None => Some (None, pc, s)
        end
    end.

(** The same without keeping the row. *)
Definition slot_row_scan (file : option cstr) (pc : Pages) (s : Slots) (slot_id : Z) : option cstr * Pages :=
  if negb (slot_is_active s slot_id) then (None, pc)
  else
    let sl := slot_at s slot_id in
    match s_row sl with
    | Some row => (Some row, pc)
    | None =>
        match file with
        | Some f =>
            if bool_decide (s_store sl = ROW_STORE_CSV) && (0 <=? s_offset sl) then read_row f pc (s_offset sl) else (None, pc)
        | None => (None, pc)
        end
    end.

(** [if (cached && cached_record_count > 0) cached_record_count--]. *)
Definition uncount (s : Slots) (sl : Slot) : Z :=
  if s_cached sl && (0 <? cached_record_count s) then cached_record_count s - 1 else cached_record_count s.

Definition assign_slot_row (s : Slots) (slot_id : Z) (row : cstr) (store_type : RowStoreType) (offset : Z)
    (cache_row : bool) : option (bool * Slots) :=
  if (slot_id <? 0) || (record_capacity s <=? slot_id) then Some (false, s)
  else
    let sl := slot_at s slot_id in
    let s1 := set_counts (set_slot s slot_id (mkSlot None (s_active sl) (s_id sl) store_type offset false 0))
                (active_count s) (uncount s sl) in
    if negb cache_row then Some (true, s1)
    else if bool_decide (store_type = ROW_STORE_MEMORY) then
      Some (true, set_slot s1 slot_id (mkSlot (Some row) (s_active sl) (s_id sl) store_type offset false 0))
    else
      s2 ← evict_row_cache_if_needed s1;
      let clock := row_cache_clock s2 + 1 in
      Some (true, set_counts (set_clock (set_slot s2 slot_id (mkSlot (Some row) (s_active sl) (s_id sl) store_type offset true clock)) clock)
                    (active_count s2) (cached_record_count s2 + 1)).

Definition deactivate_slot (s : Slots) (slot_id : Z) (add_to_free_list : bool) : bool * Slots :=
  if negb (slot_is_active s slot_id) then (false, s)
  else
    let s0 := if add_to_free_list then ensure_free_slot_capacity s (Z.of_nat (length (free_slots s)) + 1) else s in
    let sl := slot_at s slot_id in
    let s1 := set_counts (set_slot s0 slot_id (mkSlot None false 0 ROW_STORE_NONE 0 false 0)) (active_count s - 1) (uncount s sl) in
    (true, if add_to_free_list then set_free s1 (free_slots s1 ++ [slot_id]) (free_capacity s1) else s1).

(** The new text of an active slot. *)
Definition replace_record_at (s : Slots) (row_index : Z) (row : cstr) : bool * Slots :=
  if negb (slot_is_active s row_index) then (false, s)
  else
    let sl := slot_at s row_index in
    (true, set_counts (set_slot s row_index (mkSlot (Some row) (s_active sl) (s_id sl) ROW_STORE_MEMORY (-1) false 0))
             (active_count s) (uncount s sl)).

Definition delete_record_at (s : Slots) (row_index : Z) : bool * Slots := deactivate_slot s row_index true.

(** The slot of a row of the file becomes active with the row id [row_id]. *)
Definition activate (s : Slots) (slot_id row_id : Z) : Slots :=
  let sl := slot_at s slot_id in
  set_counts (set_slot s slot_id (mkSlot (s_row sl) true row_id (s_store sl) (s_offset sl) (s_cached sl) (s_seq sl)))
    (active_count s + 1) (cached_record_count s).

(** [None] in the second place: the row was not taken. *)
Definition append_record_raw_memory (s : Slots) (row : cstr) (row_id row_offset : Z) : option (option Z * Slots) :=
  match take_record_slot s false with
  | None => Some (None, s)
  | Some (slot_id, s1) =>
      '(ok, s2) ← assign_slot_row s1 slot_id row ROW_STORE_CSV row_offset false;
      Some (if (ok : bool) then (Some slot_id, activate s2 slot_id row_id) else (None, push_free_slot s2 slot_id))
  end.

(** [append_record_file] on an open file; [append_offset] moves when it is known. *)
Definition append_record_file (file : cstr) (append_offset : Z) (row : cstr) : cstr * Z :=
  (file ++ row ++ [NL], if 0 <=? append_offset then append_offset + Z.of_nat (length row) + 1 else append_offset).

(** The slot part of [append_record_csv_indexed]: the slot and the slots. *)
Definition append_record_csv (s : Slots) (row : cstr) (row_id row_offset : Z) : option (option Z * Slots) :=
  match take_record_slot s true with
  | None => Some (None, s)
  | Some (slot_id, s1) =>
      '(ok, s2) ← assign_slot_row s1 slot_id row ROW_STORE_CSV row_offset false;
      Some (if (ok : bool) then (Some slot_id, activate s2 slot_id row_id) else (None, push_free_slot s2 slot_id))
  end.

(** ** The row store as a whole *)

Record RowStore := mkRowStore { rs_file : cstr; rs_pages : Pages; rs_slots : Slots }.

(** What the statements do to it: read a row, keeping it in memory or not, append a
    row to the file, give a slot another row, free a slot. *)
Inductive RowOp :=
| ORead (slot_id : Z) | OScan (slot_id : Z) | OAppend (row : cstr) (row_id : Z) | OReplace (slot_id : Z) (row : cstr)
| ODelete (slot_id : Z).

Inductive RowOut := OutRow (row : option cstr) | OutSlot (slot_id : option Z) | OutOk (ok : bool).

Definition row_op (st : RowStore) (op : RowOp) : option (RowOut * RowStore) :=
  let f := rs_file st in
  match op with
  | ORead i =>
      '(r, pc, s) ← slot_row (Some f) (rs_pages st) (rs_slots st) i;
      Some (OutRow r, mkRowStore f pc s)
  | OScan i =>
      let '(r, pc) := slot_row_scan (Some f) (rs_pages st) (rs_slots st) i in
      Some (OutRow r, mkRowStore f pc (rs_slots st))
  | OAppend row row_id =>
      '(r, s) ← append_record_csv (rs_slots st) row row_id (Z.of_nat (length f));
      Some (OutSlot r, mkRowStore (match r with Some _ => (append_record_file f (-1) row).1 | None => f end) (rs_pages st) s)
  | OReplace i row =>
      let '(ok, s) := replace_record_at (rs_slots st) i row in
      Some (OutOk ok, mkRowStore f (rs_pages st) s)
  | ODelete i =>
      let '(ok, s) := delete_record_at (rs_slots st) i in
      Some (OutOk ok, mkRowStore f (rs_pages st) s)
  end.

Fixpoint run_ops (st : RowStore) (ops : list RowOp) : option (list RowOut * RowStore) :=
  match ops with
  | [] => Some ([], st)
  | op :: ops' =>
      '(out, st1) ← row_op st op;
      '(outs, st2) ← run_ops st1 ops';
      Some (out :: outs, st2)
  end.

(** Just after a table of only a header was opened. *)
Definition empty_store (header : cstr) : RowStore := mkRowStore (header ++ [NL]) clear_page_cache slots0.
