(* ===== verification/LegacyCacheProofs.v ===== *)
(** The caches of the stand-alone executor are transparent: slots, row cache, page
    cache and the growing file behave as a list of rows. *)

From Stdlib Require Import String.
From S2P Require Import Prelude CString Parser Values Table Store StoreProofs LegacyRow LegacyCache.
From stdpp Require Import base numbers list sorting option.
Local Open Scope Z_scope.

(** ** Lines of a file *)

Definition line_at (f : cstr) (off : Z) : cstr := cut_nl (drop (Z.to_nat off) f).

(** The file ends with a line end. *)
Definition ends_nl (f : cstr) : Prop := f = [] ∨ ∃ g, f = g ++ [NL].

Lemma cut_nl_length s : (length (cut_nl s) ≤ length s)%nat.
Proof. induction s as [|c s IH]; simpl; [lia|]. case_if; simpl; lia. Qed.

Lemma cut_nl_app s t : (length (cut_nl s) < length s)%nat → cut_nl (s ++ t) = cut_nl s.
Proof.
  induction s as [|c s IH]; simpl; [lia|]. destruct ((c =? CR) || (c =? NL)); [done|].
  simpl. intros H. rewrite IH by lia. done.
Qed.

Lemma cut_nl_snoc_nl s : (length (cut_nl (s ++ [NL])) < length (s ++ [NL]))%nat.
Proof.
  induction s as [|c s IH]; [simpl; lia|]. simpl app. cbn [cut_nl]. destruct ((c =? CR) || (c =? NL)); simpl in *; lia.
Qed.

Lemma drop_snoc {A} n (l : list A) x : (n < length (l ++ [x]))%nat → drop n (l ++ [x]) = drop n l ++ [x].
Proof.
  rewrite length_app. simpl. intros H. rewrite drop_app_le by lia. done.
Qed.

Lemma line_at_app f g off :
  ends_nl f → 0 ≤ off < Z.of_nat (length f) → line_at (f ++ g) off = line_at f off.
Proof.
  intros [->|[f' ->]] Hoff; [simpl in Hoff; lia|]. unfold line_at.
  rewrite drop_app_le by lia. rewrite drop_snoc by lia. apply cut_nl_app, cut_nl_snoc_nl.
Qed.

Lemma line_at_end f row :
  forallb line_char row = true → line_at (f ++ row ++ [NL]) (Z.of_nat (length f)) = row.
Proof. intros H. unfold line_at. rewrite Nat2Z.id, drop_app_length. by apply cut_nl_line. Qed.

Lemma ends_nl_append f row : ends_nl (f ++ row ++ [NL]).
Proof. right. exists (f ++ row). by rewrite app_assoc. Qed.

Lemma fgets_cut n s l r :
  fgets n s = (l, r) → (length (cut_nl s) < n)%nat → cut_nl l = cut_nl s ∧ (s ≠ [] → l ≠ []).
Proof.
  revert s l r; induction n as [|n IH]; intros s l r; [lia|]. destruct s as [|c s]; simpl; [intros [= <- <-]; done|].
  destruct (c =? NL) eqn:E; [intros [= <- <-] _; simpl; by rewrite E, !orb_true_r|].
  destruct (fgets n s) as [l' r'] eqn:Ef. intros [= <- <-]. simpl. rewrite E.
  destruct (c =? CR); [done|]. simpl. intros H.
  destruct (IH s l' r' Ef ltac:(lia)) as [-> _]. done.
Qed.

Lemma read_row_line_at f off :
  0 ≤ off < Z.of_nat (length f) → (length (line_at f off) < RECORD_SIZE - 1)%nat →
  read_row_line f off = Some (line_at f off).
Proof.
  intros Hoff Hl. unfold read_row_line, line_at in *.
  destruct (fgets (RECORD_SIZE - 1) (drop (Z.to_nat off) f)) as [l r] eqn:E.
  destruct (fgets_cut _ _ _ _ E Hl) as [Hc Hne].
  assert (drop (Z.to_nat off) f ≠ []) as H.
  { intros H. apply (f_equal length) in H. rewrite length_drop in H. simpl in H. lia. }
  specialize (Hne H). destruct l; [done|]. by rewrite Hc.
Qed.

(** ** The page cache *)

Definition PS : nat := Z.to_nat PAGE_CACHE_PAGE_SIZE.

(** A page holds what stands in the file from its start on, up to the end of the page
    or up to where the file ended when it was read, which was the end of a line. *)
Definition page_ok (f : cstr) (p : Page) : Prop :=
  0 ≤ page_start p ∧ ∃ rest, drop (Z.to_nat (page_start p)) f = page_data p ++ rest ∧
  (length (page_data p) ≤ PS)%nat ∧ (length (page_data p) = PS ∨ ends_nl (page_data p)).

Definition pages_ok (f : cstr) (pc : Pages) : Prop :=
  length (page_cache pc) = PAGE_CACHE_LIMIT ∧
  Forall (fun e => match e with Some p => page_ok f p | None => True end) (page_cache pc).

Lemma ends_nl_drop n f : ends_nl f → ends_nl (drop n f).
Proof.
  intros [->|[g ->]]; [left; apply drop_nil|]. destruct (decide (n < length (g ++ [NL]))%nat).
  - rewrite drop_snoc by done. right. by eexists.
  - left. apply drop_ge. lia.
Qed.

Lemma page_ok_app f g p : page_ok f p → page_ok (f ++ g) p.
Proof.
  intros (H0 & rest & H1 & H2 & H3). split; [done|].
  destruct (decide (Z.to_nat (page_start p) ≤ length f)%nat).
  - exists (rest ++ g). rewrite drop_app_le by done. rewrite H1, <- app_assoc. done.
  - rewrite drop_ge in H1 by lia. symmetry in H1. apply app_eq_nil in H1 as [H1 ->].
    exists (drop (Z.to_nat (page_start p)) (f ++ g)). by rewrite H1 in *.
Qed.

Lemma pages_ok_app f g pc : pages_ok f pc → pages_ok (f ++ g) pc.
Proof.
  intros [Hl H]. split; [done|]. eapply List.Forall_impl; [|exact H]. intros [p|]; [apply page_ok_app|done].
Qed.

Lemma pages_ok_clear f : pages_ok f clear_page_cache.
Proof. split; [by apply length_replicate|]. by apply Forall_replicate. Qed.

Lemma find_page_lookup start i ps k :
  find_page start i ps = Some k → ∃ p, ps !! (k - i)%nat = Some (Some p) ∧ (i ≤ k)%nat ∧ page_start p = start.
Proof.
  revert i; induction ps as [|[p|] ps IH]; intros i; simpl; [done| |].
  - destruct (Z.eqb_spec (page_start p) start) as [E|E].
    + intros [= ->]. exists p. by rewrite Nat.sub_diag.
    + intros H. destruct (IH _ H) as (q & Hq & Hle & Hs). exists q.
      replace (k - i)%nat with (S (k - S i)) by lia. split_and!; [done|lia|done].
  - intros H. destruct (IH _ H) as (q & Hq & Hle & Hs). exists q.
    replace (k - i)%nat with (S (k - S i)) by lia. split_and!; [done|lia|done].
Qed.

Lemma page_target_bound i ps best :
  (∀ b, best = Some b → (b.1 < i + length ps)%nat) → (ps ≠ [] ∨ best ≠ None) →
  ∃ k, page_target i ps best = Some k ∧ (k < i + length ps)%nat.
Proof.
  revert i best; induction ps as [|[p|] ps IH]; intros i best Hb Hne; simpl.
  - destruct best as [[k o]|]; [|by destruct Hne]. exists k. split; [done|]. apply (Hb _ eq_refl).
  - match goal with |- context [page_target (S i) ps ?b] => destruct (IH (S i) b) as (k & Hk & Hlt) end.
    + destruct best as [[k o]|]; [destruct (last_used p <? o)|]; intros b [= <-]; simpl; try lia.
      specialize (Hb _ eq_refl). simpl in *. lia.
    + right. destruct best as [[k o]|]; [by destruct (last_used p <? o)|done].
    + exists k. split; [done|lia].
  - exists i. split; [done|lia].
Qed.

Lemma pages_ok_insert f l n c i p :
  pages_ok f (mkPages l n c) → page_ok f p → ∀ n' c', pages_ok f (mkPages (<[i := Some p]> l) n' c').
Proof.
  intros [Hl H] Hp n' c'. split; simpl in *; [by rewrite length_insert|]. by apply Forall_insert.
Qed.

Lemma page_entry_ok f pc off :
  pages_ok f pc → ends_nl f → 0 ≤ off →
  ∃ p pc', get_page_cache_entry f pc off = (Some p, pc') ∧ page_ok f p ∧ pages_ok f pc' ∧
    page_start p = off / PAGE_CACHE_PAGE_SIZE * PAGE_CACHE_PAGE_SIZE.
Proof.
  intros Hok Hnl Hoff. unfold get_page_cache_entry. destruct pc as [l n c]. simpl.
  set (start := off / PAGE_CACHE_PAGE_SIZE * PAGE_CACHE_PAGE_SIZE).
  assert (0 ≤ start) as Hst by (unfold start, PAGE_CACHE_PAGE_SIZE; apply Z.mul_nonneg_nonneg; [apply Z.div_pos|]; lia).
  destruct (find_page start 0 l) as [i|] eqn:E.
  - apply find_page_lookup in E as (p & Hp & _ & Hs). rewrite Nat.sub_0_r in Hp. rewrite Hp.
    assert (page_ok f p) as Hpok by (destruct Hok as [_ H]; exact (Forall_lookup_1 _ _ _ _ H Hp)).
    eexists _, _. split; [reflexivity|]. split; [exact Hpok|]. split; [by eapply pages_ok_insert|done].
  - destruct (page_target_bound 0 l None) as (k & -> & Hk).
    { done. }
    { left. destruct Hok as [Hl _]. by destruct l. }
    assert (page_ok f (mkPage start (take PS (drop (Z.to_nat start) f)) (c + 1))) as Hpok.
    { split; [done|]. simpl. exists (drop PS (drop (Z.to_nat start) f)). rewrite take_drop, length_take. split_and!; [done|lia|].
      destruct (decide (PS ≤ length (drop (Z.to_nat start) f))%nat); [left; lia|right].
      rewrite take_ge by lia. by apply ends_nl_drop. }
    eexists _, _. split; [reflexivity|]. split; [exact Hpok|]. split; [|done].
    by eapply pages_ok_insert.
Qed.

Lemma page_row_ok f pc off :
  pages_ok f pc → ends_nl f → 0 ≤ off →
  ∃ r pc', read_row_from_page_cache f pc off = (r, pc') ∧ pages_ok f pc' ∧ (r = None ∨ r = Some (line_at f off)).
Proof.
  intros Hok Hnl Hoff. unfold read_row_from_page_cache.
  destruct (page_entry_ok f pc off Hok Hnl Hoff) as (p & pc' & -> & Hp & Hok' & Hs).
  assert (page_start p ≤ off) as Hle
    by (rewrite Hs; unfold PAGE_CACHE_PAGE_SIZE; pose proof (Z.mul_div_le off 65536); lia).
  set (in_page := Z.to_nat (off - page_start p)). rewrite (proj2 (Z.ltb_ge off (page_start p))) by done. simpl.
  destruct (length (page_data p) <=? in_page)%nat eqn:Ein; [by eexists _, _; eauto|]. apply Nat.leb_gt in Ein.
  destruct Hp as (H0 & rest & Hd & Hlen & Hend).
  assert (drop (Z.to_nat off) f = drop in_page (page_data p) ++ rest) as Hf.
  { replace (Z.to_nat off) with (Z.to_nat (page_start p) + in_page)%nat by (unfold in_page; lia).
    rewrite <- drop_drop, Hd. by rewrite drop_app_le by lia. }
  set (row := cut_nl (drop in_page (page_data p))). pose proof (cut_nl_length (drop in_page (page_data p))) as Hcl.
  fold row in Hcl. rewrite length_drop in Hcl.
  destruct (decide (length row < length (drop in_page (page_data p)))%nat) as [Hlt|Hge].
  - rewrite length_drop in Hlt.
    rewrite (proj2 (Nat.leb_gt (length (page_data p)) (in_page + length row))) by lia. simpl.
    exists (Some row), pc'. split; [done|]. split; [done|]. right. unfold line_at. rewrite Hf. f_equal. symmetry.
    apply cut_nl_app. fold row. rewrite length_drop. lia.
  - assert (length (page_data p) = PS) as Hps.
    { destruct Hend as [?|[E|[g E]]]; [done|rewrite E in Ein; simpl in Ein; lia|].
      exfalso. apply Hge. unfold row. rewrite E in *. rewrite drop_snoc by lia. apply cut_nl_snoc_nl. }
    rewrite length_drop in Hge. rewrite (proj2 (Nat.leb_le (length (page_data p)) (in_page + length row))) by lia.
    assert (Z.of_nat (length row) =? PAGE_CACHE_PAGE_SIZE - Z.of_nat in_page = true) as ->
      by (apply Z.eqb_eq; unfold PS, PAGE_CACHE_PAGE_SIZE in *; lia).
    simpl. by eexists _, _; eauto.
Qed.

(** Through the page cache or not, the row at an offset is the line of the file. *)
Lemma read_row_ok f pc off :
  pages_ok f pc → ends_nl f → 0 ≤ off < Z.of_nat (length f) → (length (line_at f off) < RECORD_SIZE - 1)%nat →
  ∃ pc', read_row f pc off = (Some (line_at f off), pc') ∧ pages_ok f pc'.
Proof.
  intros Hok Hnl Hoff Hl. unfold read_row.
  destruct (page_row_ok f pc off Hok Hnl ltac:(lia)) as (r & pc' & -> & Hok' & [->| ->]); exists pc'; [|done].
  by rewrite read_row_line_at.
Qed.

(** ** Counting *)

Fixpoint countb {A} (P : A → bool) (l : list A) : Z :=
  match l with [] => 0 | x :: l' => Z.b2z (P x) + countb P l' end.

Lemma countb_insert {A} (P : A → bool) l i x y :
  l !! i = Some x → countb P (<[i := y]> l) = countb P l - Z.b2z (P x) + Z.b2z (P y).
Proof.
  revert i; induction l as [|z l IH]; intros [|i]; simpl; try done.
  - intros [= ->]. lia.
  - intros H. rewrite (IH _ H). lia.
Qed.

Lemma countb_app {A} (P : A → bool) l l' : countb P (l ++ l') = countb P l + countb P l'.
Proof. induction l; simpl; lia. Qed.

Lemma countb_pos {A} (P : A → bool) l : 0 < countb P l → ∃ i x, l !! i = Some x ∧ P x = true.
Proof.
  induction l as [|x l IH]; simpl; [lia|]. destruct (P x) eqn:E; [intros _; by exists 0%nat, x|].
  intros H. destruct IH as (i & y & Hi & Hy); [simpl in H; lia|]. by exists (S i), y.
Qed.

Lemma countb_nonneg {A} (P : A → bool) l : 0 ≤ countb P l.
Proof. induction l; simpl; [lia|]. destruct (P a); simpl; lia. Qed.

Lemma countb_le {A} (P : A → bool) l : countb P l ≤ Z.of_nat (length l).
Proof. induction l; simpl; [lia|]. destruct (P a); simpl; lia. Qed.

(** ** Slots *)

(** The row of a slot, wherever it is. *)
Definition slot_text (f : cstr) (sl : Slot) : option cstr :=
  if s_active sl then
    match s_row sl with
    | Some row => Some row
    | None => Some (line_at f (s_offset sl))
    end
  else None.

(** What a slot says is there is there. *)
Record slot_ok (f : cstr) (sl : Slot) : Prop := {
  so_file : s_active sl = true → s_store sl = ROW_STORE_CSV →
    0 ≤ s_offset sl < Z.of_nat (length f) ∧ (length (line_at f (s_offset sl)) < RECORD_SIZE - 1)%nat ∧
    (∀ row, s_row sl = Some row → row = line_at f (s_offset sl));
  so_store : s_active sl = true → s_store sl ≠ ROW_STORE_NONE;
  so_memory : s_active sl = true → s_store sl = ROW_STORE_MEMORY → s_row sl ≠ None;
  so_idle : s_active sl = false → s_row sl = None;
  so_cached : s_cached sl = true ↔ s_row sl ≠ None ∧ s_store sl ≠ ROW_STORE_MEMORY;
}.

(** The counters count, the free list is the slots not in use. *)
Record slots_ok (f : cstr) (s : Slots) : Prop := {
  ss_slots : Forall (slot_ok f) (slots s);
  ss_cached : cached_record_count s = countb s_cached (slots s);
  ss_limit : cached_record_count s ≤ ROW_CACHE_LIMIT;
  ss_active : active_count s = countb s_active (slots s);
  ss_cursor : (row_cache_evict_cursor s < length (slots s))%nat ∨ row_cache_evict_cursor s = 0%nat;
  ss_capacity : record_count s ≤ record_capacity s;
  ss_max : record_count s ≤ MAX_RECORDS;
  ss_free : Forall (fun i => 0 ≤ i < record_count s ∧ s_active (slot_at s i) = false) (free_slots s);
  ss_nodup : NoDup (free_slots s);
  ss_idle : Z.of_nat (length (free_slots s)) + active_count s = record_count s;
  ss_free_capacity : Z.of_nat (length (free_slots s)) ≤ free_capacity s;
}.

Definition texts (f : cstr) (s : Slots) : list (option cstr) := map (slot_text f) (slots s).

Lemma slot_at_lookup s i :
  0 ≤ i < record_count s → slots s !! Z.to_nat i = Some (slot_at s i).
Proof.
  intros H. unfold slot_at, record_count in *. destruct (lookup_lt_is_Some_2 (slots s) (Z.to_nat i)) as [x ->]; [lia|done].
Qed.

Lemma slot_is_active_spec s i :
  slot_is_active s i = true ↔ 0 ≤ i < record_count s ∧ s_active (slot_at s i) = true.
Proof. unfold slot_is_active. rewrite !andb_true_iff, Z.leb_le, Z.ltb_lt. tauto. Qed.

Lemma texts_lookup f s i :
  0 ≤ i < record_count s → texts f s !! Z.to_nat i = Some (slot_text f (slot_at s i)).
Proof. intros H. unfold texts. by rewrite list_lookup_fmap, slot_at_lookup. Qed.

(** ** Eviction *)

Definition evictable (sl : Slot) : bool :=
  s_cached sl && match s_row sl with None => false | Some _ => true end && negb (bool_decide (s_store sl = ROW_STORE_MEMORY)).

Lemma evictable_cached f sl : slot_ok f sl → evictable sl = s_cached sl.
Proof.
  intros H. unfold evictable. destruct (s_cached sl) eqn:E; [|done].
  destruct (proj1 (so_cached f sl H) E) as [H1 H2]. destruct (s_row sl); [|done]. by rewrite bool_decide_eq_false_2.
Qed.

(** The slot without its row. *)
Definition dropped (sl : Slot) : Slot := mkSlot None (s_active sl) (s_id sl) (s_store sl) (s_offset sl) false 0.

Lemma dropped_ok f sl : slot_ok f sl → evictable sl = true → slot_ok f (dropped sl) ∧ slot_text f (dropped sl) = slot_text f sl.
Proof.
  intros H He. pose proof He as Hc. rewrite (evictable_cached f) in Hc by done.
  destruct (proj1 (so_cached f sl H) Hc) as [H1 H2].
  assert (s_active sl = true → s_store sl = ROW_STORE_CSV) as Hcsv.
  { intros Ha. pose proof (so_store f sl H Ha). destruct (s_store sl); done. }
  split.
  - constructor; simpl.
    + intros Ha Hs. destruct (so_file f sl H Ha Hs) as (? & ? & _). split; [done|]. by split.
    + apply (so_store f sl H).
    + intros Ha Hs. by rewrite Hcsv in Hs.
    + done.
    + split; [done|]. by intros [? _].
  - unfold slot_text. simpl. destruct (s_active sl) eqn:Ha; [|done].
    destruct (so_file f sl H Ha (Hcsv eq_refl)) as (_ & _ & Hr).
    destruct (s_row sl) as [row|]; [|done]. by rewrite (Hr row).
Qed.

Lemma evict_scan_step n s :
  evict_scan (S n) s =
    let i := row_cache_evict_cursor s in
    let s1 := set_cursor s (if (length (slots s) <=? S i)%nat then 0%nat else S i) in
    let sl := slot_at s (Z.of_nat i) in
    if evictable sl then
      (set_counts (set_slot s1 (Z.of_nat i) (dropped sl)) (active_count s1) (cached_record_count s1 - 1), (n =? 0)%nat)
    else evict_scan n s1.
Proof.
  cbn [evict_scan]. cbv zeta. unfold evictable. set (sl := slot_at s (Z.of_nat (row_cache_evict_cursor s))).
  destruct (s_cached sl); [|done]. destruct (s_row sl); [|done]. destruct (bool_decide (s_store sl = ROW_STORE_MEMORY)); done.
Qed.

(** What one pass of the eviction does: nothing else than dropping one row. *)
Inductive evict_res (s : Slots) : Slots → bool → Prop :=
| EvictNone cur : (cur < length (slots s))%nat → evict_res s (set_cursor s cur) true
| EvictOne cur i b : (cur < length (slots s))%nat → (i < length (slots s))%nat →
    evictable (slot_at s (Z.of_nat i)) = true →
    evict_res s (set_counts (set_slot (set_cursor s cur) (Z.of_nat i) (dropped (slot_at s (Z.of_nat i))))
                   (active_count s) (cached_record_count s - 1)) b.

Lemma evict_res_cursor s c s' b : evict_res (set_cursor s c) s' b → evict_res s s' b.
Proof. intros [cur Hlt|cur i b' Hlt Hi He]; [exact (EvictNone s cur Hlt)|exact (EvictOne s cur i b' Hlt Hi He)]. Qed.

Lemma evict_scan_spec n s :
  let N := length (slots s) in
  (row_cache_evict_cursor s < N)%nat →
  evict_res s (fst (evict_scan n s)) (snd (evict_scan n s)) ∧
  ((∃ k, (k < n)%nat ∧ evictable (slot_at s (Z.of_nat ((row_cache_evict_cursor s + k) mod N))) = true) →
   cached_record_count (fst (evict_scan n s)) = cached_record_count s - 1).
Proof.
  cbv zeta. revert s; induction n as [|n IH]; intros s Hcur.
  { split; [|intros (k & Hk & _); lia]. assert (s = set_cursor s (row_cache_evict_cursor s)) as E by by destruct s.
    simpl. rewrite E at 2. by apply EvictNone. }
  rewrite evict_scan_step. cbv zeta. set (c := row_cache_evict_cursor s) in *. set (N := length (slots s)) in *.
  set (c' := if (N <=? S c)%nat then 0%nat else S c).
  assert ((c' < N)%nat ∧ c' = (S c mod N)%nat) as [Hc' Em].
  { unfold c'. destruct (N <=? S c)%nat eqn:E; [apply Nat.leb_le in E|apply Nat.leb_gt in E].
    - replace (S c) with N by lia. rewrite Nat.Div0.mod_same. lia.
    - rewrite Nat.mod_small by lia. lia. }
  destruct (evictable (slot_at s (Z.of_nat c))) eqn:Ee.
  { cbn [fst snd]. split; [|done]. exact (EvictOne s c' c _ Hc' Hcur Ee). }
  specialize (IH (set_cursor s c') Hc'). destruct IH as [IH1 IH2]. split.
  - by apply evict_res_cursor in IH1.
  - intros (k & Hk & Hev). apply IH2. destruct k as [|k].
    { rewrite Nat.add_0_r, Nat.mod_small in Hev by done. congruence. }
    exists k. split; [lia|]. change (row_cache_evict_cursor (set_cursor s c')) with c'.
    change (length (slots (set_cursor s c'))) with N. rewrite Em, Nat.Div0.add_mod_idemp_l.
    rewrite Nat.add_succ_r in Hev. exact Hev.
Qed.

(** Same rows, and the slots without a row in memory are as they were. *)
Record evicted (f : cstr) (s s' : Slots) : Prop := {
  ev_ok : slots_ok f s';
  ev_texts : texts f s' = texts f s;
  ev_length : length (slots s') = length (slots s);
  ev_capacity : record_capacity s' = record_capacity s;
  ev_free : free_slots s' = free_slots s;
  ev_active : active_count s' = active_count s;
  ev_same : ∀ i, s_row (slot_at s i) = None → slot_at s' i = slot_at s i;
}.

Lemma evicted_refl f s : slots_ok f s → evicted f s s.
Proof. intros H. by split. Qed.

Lemma evict_res_ok f s s' b : slots_ok f s → evict_res s s' b → evicted f s s'.
Proof.
  intros Hok H. pose proof Hok as [H1 H2 H3 H4 H5 H6 H7 H8 H9 H10 H11]. destruct H as [cur Hcur|cur i b Hcur Hi He].
  { split; [|done|done|done|done|done|done]. split; try done. by left. }
  assert (0 ≤ Z.of_nat i < record_count s) as Hr by (unfold record_count; lia).
  pose proof (slot_at_lookup s _ Hr) as Hl. rewrite Nat2Z.id in Hl.
  set (sl := slot_at s (Z.of_nat i)) in *.
  assert (slot_ok f sl) as Hsl by exact (Forall_lookup_1 _ _ _ _ H1 Hl).
  destruct (dropped_ok f sl Hsl He) as [Hd Ht].
  assert (s_cached sl = true) as Hc by (by rewrite <- (evictable_cached f sl)).
  assert (∀ j, s_active (slot_at (set_slot s (Z.of_nat i) (dropped sl)) j) = s_active (slot_at s j)) as Hact.
  { intros j. unfold slot_at at 1. simpl. rewrite Nat2Z.id. destruct (decide (i = Z.to_nat j)) as [->|Hne].
    - rewrite list_lookup_insert_eq by lia. simpl. unfold sl. f_equal. unfold slot_at. by rewrite Nat2Z.id.
    - by rewrite list_lookup_insert_ne by done. }
  split; try done.
  - split; simpl; rewrite ?Nat2Z.id; try done.
    + by apply Forall_insert.
    + rewrite (countb_insert _ _ _ _ _ Hl), Hc. simpl. lia.
    + lia.
    + rewrite (countb_insert _ _ _ _ _ Hl). simpl. lia.
    + left. by rewrite length_insert.
    + unfold record_count in *. simpl. by rewrite length_insert.
    + unfold record_count in *. simpl. by rewrite length_insert.
    + eapply List.Forall_impl; [|exact H8]. intros j [Hj Ha]. split.
      * unfold record_count in *. simpl. by rewrite length_insert.
      * by rewrite <- Ha, <- Hact.
    + unfold record_count in *. simpl. by rewrite length_insert.
  - unfold texts. simpl. rewrite Nat2Z.id. change (map (slot_text f)) with (fmap (M:=list) (slot_text f)).
    rewrite list_fmap_insert, Ht. apply list_insert_id. rewrite list_lookup_fmap, Hl. done.
  - simpl. by rewrite length_insert.
  - intros j Hj. unfold slot_at at 1. simpl. rewrite Nat2Z.id. destruct (decide (i = Z.to_nat j)) as [E|Hne].
    + exfalso. unfold evictable in He. assert (slot_at s j = sl) as Hs by (unfold sl, slot_at; by rewrite Nat2Z.id, <- E).
      rewrite Hs in Hj. rewrite Hj in He. by rewrite andb_false_r in He.
    + by rewrite list_lookup_insert_ne by done.
Qed.

(** The eviction returns, with room for one row more. *)
Lemma evict_ok f s :
  slots_ok f s → ∃ s', evict_row_cache_if_needed s = Some s' ∧ evicted f s s' ∧ cached_record_count s' < ROW_CACHE_LIMIT.
Proof.
  intros Hok. unfold evict_row_cache_if_needed. cbn [evict_loop].
  destruct (cached_record_count s <? ROW_CACHE_LIMIT) eqn:E; bool_to_prop.
  { exists s. split; [done|]. split; [by apply evicted_refl|done]. }
  pose proof (ss_limit f s Hok) as Hlim. pose proof (ss_cached f s Hok) as Hcc.
  replace (Z.to_nat (cached_record_count s - ROW_CACHE_LIMIT + 1)) with 1%nat by lia.
  destruct (countb_pos s_cached (slots s)) as (i & sl & Hi & Hc); [unfold ROW_CACHE_LIMIT in *; lia|].
  pose proof (lookup_lt_Some _ _ _ Hi) as HiN.
  rewrite (proj2 (Z.leb_gt (record_count s) 0)) by (unfold record_count; lia).
  assert (row_cache_evict_cursor s < length (slots s))%nat as Hcur by (destruct (ss_cursor f s Hok); lia).
  destruct (evict_scan_spec (length (slots s)) s Hcur) as [Hres Hdec].
  assert (cached_record_count (fst (evict_scan (length (slots s)) s)) = cached_record_count s - 1) as Hcount.
  { apply Hdec. set (c := row_cache_evict_cursor s) in *. set (N := length (slots s)) in *.
    exists ((i + N - c) mod N)%nat. split; [apply Nat.mod_upper_bound; lia|].
    rewrite Nat.Div0.add_mod_idemp_r. replace (c + (i + N - c))%nat with (i + 1 * N)%nat by lia.
    rewrite Nat.Div0.mod_add, Nat.mod_small by lia.
    assert (slot_at s (Z.of_nat i) = sl) as -> by (unfold slot_at; by rewrite Nat2Z.id, Hi).
    rewrite (evictable_cached f); [done|]. exact (Forall_lookup_1 _ _ _ _ (ss_slots f s Hok) Hi). }
  destruct (evict_scan (length (slots s)) s) as [s' b]. cbn [fst snd] in *.
  assert (cached_record_count s' < ROW_CACHE_LIMIT) as Hlt by lia.
  pose proof (evict_res_ok f s s' b Hok Hres) as Hev. exists s'. split; [|done].
  destruct b; [done|]. cbn [evict_loop]. by rewrite (proj2 (Z.ltb_lt _ _) Hlt).
Qed.

(** ** Changing one slot *)

Lemma length_slots_set s i sl : length (slots (set_slot s i sl)) = length (slots s).
Proof. simpl. by rewrite length_insert. Qed.

Lemma texts_insert f s i sl : map (slot_text f) (<[Z.to_nat i := sl]> (slots s)) = <[Z.to_nat i := slot_text f sl]> (texts f s).
Proof. unfold texts. change (map (slot_text f)) with (fmap (M:=list) (slot_text f)). by rewrite list_fmap_insert. Qed.

(** The slots with slot [i] replaced, its share of the counters exchanged, and
    another clock and free list. *)
Definition put (s : Slots) (i : Z) (sl : Slot) (clock : Z) (fr : list Z) (fcap : Z) : Slots :=
  mkSlots (<[Z.to_nat i := sl]> (slots s)) (record_capacity s)
    (active_count s - Z.b2z (s_active (slot_at s i)) + Z.b2z (s_active sl))
    (cached_record_count s - Z.b2z (s_cached (slot_at s i)) + Z.b2z (s_cached sl))
    clock (row_cache_evict_cursor s) fr fcap.

Lemma put_ok f s i sl clock fr fcap :
  slots_ok f s → 0 ≤ i < record_count s → slot_ok f sl →
  cached_record_count s - Z.b2z (s_cached (slot_at s i)) + Z.b2z (s_cached sl) ≤ ROW_CACHE_LIMIT →
  Forall (fun j => 0 ≤ j < record_count s ∧ s_active (if decide (j = i) then sl else slot_at s j) = false) fr →
  NoDup fr → Z.of_nat (length fr) + (active_count s - Z.b2z (s_active (slot_at s i)) + Z.b2z (s_active sl)) = record_count s →
  Z.of_nat (length fr) ≤ fcap →
  slots_ok f (put s i sl clock fr fcap) ∧ texts f (put s i sl clock fr fcap) = <[Z.to_nat i := slot_text f sl]> (texts f s).
Proof.
  intros [H1 H2 H3 H4 H5 H6 H7 H8 H9 H10 H11] Hi Hsl Hlim Hfr Hnd Hidle Hcap.
  pose proof (slot_at_lookup s i Hi) as Hl. split; [|apply texts_insert].
  assert (record_count (put s i sl clock fr fcap) = record_count s) as Erc
    by (unfold record_count; simpl; by rewrite length_insert).
  constructor; rewrite ?Erc; unfold put; cbn [slots record_capacity active_count cached_record_count row_cache_clock
    row_cache_evict_cursor free_slots free_capacity]; try done.
  - by apply Forall_insert.
  - rewrite (countb_insert _ _ _ _ _ Hl). lia.
  - rewrite (countb_insert _ _ _ _ _ Hl). lia.
  - by rewrite length_insert.
  - eapply List.Forall_impl; [|exact Hfr]. intros j [Hj Ha]. split; [done|]. unfold slot_at. cbn [slots].
    destruct (decide (j = i)) as [->|Hne].
    + rewrite list_lookup_insert_eq; [done|]. by eapply lookup_lt_Some.
    + rewrite list_lookup_insert_ne by lia. done.
Qed.

(** The same slots in use, the same free list. *)
Lemma put_same_ok f s i sl clock :
  slots_ok f s → 0 ≤ i < record_count s → slot_ok f sl → s_active sl = s_active (slot_at s i) →
  cached_record_count s - Z.b2z (s_cached (slot_at s i)) + Z.b2z (s_cached sl) ≤ ROW_CACHE_LIMIT →
  slots_ok f (put s i sl clock (free_slots s) (free_capacity s)) ∧
  texts f (put s i sl clock (free_slots s) (free_capacity s)) = <[Z.to_nat i := slot_text f sl]> (texts f s).
Proof.
  intros Hok Hi Hsl Ha Hlim. pose proof Hok as [H1 H2 H3 H4 H5 H6 H7 H8 H9 H10 H11].
  apply put_ok; try done.
  - eapply List.Forall_impl; [|exact H8]. intros j [Hj Hja]. split; [done|]. destruct (decide (j = i)) as [->|]; [by rewrite Ha|done].
  - rewrite Ha. lia.
Qed.

Lemma uncount_ok f s i :
  slots_ok f s → 0 ≤ i < record_count s → uncount s (slot_at s i) = cached_record_count s - Z.b2z (s_cached (slot_at s i)).
Proof.
  intros Hok Hi. unfold uncount. destruct (s_cached (slot_at s i)) eqn:E; simpl; [|lia].
  assert (0 < cached_record_count s) as H; [|by rewrite (proj2 (Z.ltb_lt _ _) H)].
  rewrite (ss_cached f s Hok). pose proof (slot_at_lookup s i Hi) as Hl.
  pose proof (countb_insert s_cached _ _ _ slot0 Hl) as Hc. rewrite E in Hc. simpl in Hc.
  pose proof (countb_nonneg s_cached (<[Z.to_nat i := slot0]> (slots s))). lia.
Qed.

Lemma slot_at_ok f s i : slots_ok f s → 0 ≤ i < record_count s → slot_ok f (slot_at s i).
Proof. intros Hok Hi. exact (Forall_lookup_1 _ _ _ _ (ss_slots f s Hok) (slot_at_lookup s i Hi)). Qed.

(** ** Reading a row *)

Definition row_of (f : cstr) (s : Slots) (i : Z) : option cstr := if slot_is_active s i then slot_text f (slot_at s i) else None.

Lemma texts_same f s i : 0 ≤ i < record_count s → <[Z.to_nat i := slot_text f (slot_at s i)]> (texts f s) = texts f s.
Proof. intros H. apply list_insert_id. by apply texts_lookup. Qed.

Lemma slot_row_ok f pc s i :
  slots_ok f s → pages_ok f pc → ends_nl f →
  ∃ pc' s', slot_row (Some f) pc s i = Some (row_of f s i, pc', s') ∧
    slots_ok f s' ∧ pages_ok f pc' ∧ texts f s' = texts f s ∧ free_slots s' = free_slots s ∧ length (slots s') = length (slots s).
Proof.
  intros Hok Hpg Hnl. unfold slot_row, row_of. destruct (slot_is_active s i) eqn:Ea; cbn [negb].
  2:{ by exists pc, s. }
  apply slot_is_active_spec in Ea as [Hi Ha]. pose proof (slot_at_ok f s i Hok Hi) as Hsl.
  unfold slot_text. rewrite Ha. set (sl := slot_at s i) in *. destruct (s_row sl) as [row|] eqn:Er.
  - destruct (bool_decide_reflect (s_store sl = ROW_STORE_MEMORY)) as [Em|Em]; [by exists pc, s|].
    assert (s_cached sl = true) as Hc by (apply (so_cached f sl Hsl); by rewrite Er).
    set (sl' := mkSlot (Some row) true (s_id sl) (s_store sl) (s_offset sl) true (row_cache_clock s + 1)).
    assert (slot_ok f sl') as Hsl'.
    { destruct Hsl as [P1 P2 P3 P4 P5]. constructor; simpl; try done.
      - intros _ Hs. rewrite Er in P1. by apply P1.
      - intros _. by apply P2. }
    destruct (put_same_ok f s i sl' (row_cache_clock s + 1) Hok Hi Hsl') as [Hput Htx].
    { simpl. fold sl. by rewrite Ha. }
    { fold sl. rewrite Hc. simpl. pose proof (ss_limit f s Hok). lia. }
    eexists pc, _. split; [reflexivity|]. unfold put in Hput, Htx. fold sl in Hput, Htx.
    rewrite Ha, Hc in Hput, Htx. simpl Z.b2z in Hput, Htx. rewrite !Z.sub_add in Hput, Htx.
    split; [exact Hput|]. split; [done|]. split; [|split; [done|apply length_slots_set]].
    etrans; [exact Htx|]. rewrite <- (texts_same f s i Hi) at 2. fold sl. f_equal. unfold slot_text, sl'. simpl. by rewrite Ha, Er.
  - assert (s_store sl = ROW_STORE_CSV) as Hs.
    { pose proof (so_store f sl Hsl Ha). pose proof (so_memory f sl Hsl Ha). destruct (s_store sl); [done|done|]. by destruct (H0 eq_refl). }
    destruct (so_file f sl Hsl Ha Hs) as (Hoff & Hlen & _).
    rewrite bool_decide_eq_true_2 by done. rewrite (proj2 (Z.leb_le 0 (s_offset sl))) by lia. cbn [andb].
    destruct (evict_ok f s Hok) as (s1 & -> & [E1 E2 E3 E4 E5 E6 E7] & Hlt). simpl.
    destruct (read_row_ok f pc (s_offset sl) Hpg Hnl Hoff Hlen) as (pc' & -> & Hpg').
    assert (slot_at s1 i = sl) as Hs1 by (apply E7; exact Er).
    assert (record_count s1 = record_count s) as Erc by (unfold record_count; by rewrite E3).
    set (sl' := mkSlot (Some (line_at f (s_offset sl))) true (s_id sl) (s_store sl) (s_offset sl) true (row_cache_clock s1 + 1)).
    assert (slot_ok f sl') as Hsl'.
    { constructor; simpl; try done.
      - intros _ _. split; [done|]. split; [done|]. by intros row [= <-].
      - intros _. by rewrite Hs.
      - by rewrite Hs. }
    assert (s_cached sl = false) as Hc.
    { destruct (s_cached sl) eqn:E; [|done]. destruct (proj1 (so_cached f sl Hsl) E) as [H _]. by rewrite Er in H. }
    destruct (put_same_ok f s1 i sl' (row_cache_clock s1 + 1) E1 ltac:(lia) Hsl') as [Hput Htx].
    { by rewrite Hs1, Ha. }
    { rewrite Hs1, Hc. simpl. lia. }
    eexists pc', _. split; [reflexivity|]. unfold put in Hput, Htx. rewrite Hs1, Hc, Ha in Hput, Htx. simpl in Hput, Htx.
    rewrite Z.sub_add, Z.sub_0_r in Hput, Htx.
    split; [exact Hput|]. split; [done|]. split; [|split; [done|]].
    + etrans; [exact Htx|]. rewrite E2. rewrite <- (texts_same f s i Hi) at 2. fold sl. f_equal.
      unfold slot_text, sl'. simpl. by rewrite Ha, Er.
    + simpl. by rewrite length_insert.
Qed.

(** ** The other operations *)

Lemma slot_text_row_of f s i : row_of f s i = mjoin (if (0 <=? i) then texts f s !! Z.to_nat i else None).
Proof.
  unfold row_of, slot_is_active. destruct (0 <=? i) eqn:E0; [|done]. apply Z.leb_le in E0. cbn [andb].
  destruct (i <? record_count s) eqn:E1; bool_to_prop.
  - rewrite texts_lookup by lia. cbn [andb mjoin option_join]. unfold slot_text.
    by destruct (s_active (slot_at s i)).
  - cbn [andb]. rewrite lookup_ge_None_2; [done|]. unfold texts, record_count in *. rewrite length_map. lia.
Qed.

Lemma slot_row_scan_ok f pc s i :
  slots_ok f s → pages_ok f pc → ends_nl f →
  ∃ pc', slot_row_scan (Some f) pc s i = (row_of f s i, pc') ∧ pages_ok f pc'.
Proof.
  intros Hok Hpg Hnl. unfold slot_row_scan, row_of. destruct (slot_is_active s i) eqn:Ea; cbn [negb]; [|by exists pc].
  apply slot_is_active_spec in Ea as [Hi Ha]. pose proof (slot_at_ok f s i Hok Hi) as Hsl.
  unfold slot_text. rewrite Ha. set (sl := slot_at s i) in *. destruct (s_row sl) as [row|] eqn:Er; [by exists pc|].
  assert (s_store sl = ROW_STORE_CSV) as Hs.
  { pose proof (so_store f sl Hsl Ha). pose proof (so_memory f sl Hsl Ha). destruct (s_store sl); [done|done|]. by destruct (H0 eq_refl). }
  destruct (so_file f sl Hsl Ha Hs) as (Hoff & Hlen & _).
  rewrite bool_decide_eq_true_2 by done. rewrite (proj2 (Z.leb_le 0 (s_offset sl))) by lia. cbn [andb].
  destruct (read_row_ok f pc (s_offset sl) Hpg Hnl Hoff Hlen) as (pc' & -> & Hpg'). by exists pc'.
Qed.

(** The file grows. *)
Lemma slot_ok_app f g sl : ends_nl f → slot_ok f sl → slot_ok (f ++ g) sl ∧ slot_text (f ++ g) sl = slot_text f sl.
Proof.
  intros Hnl Hsl. pose proof Hsl as [P1 P2 P3 P4 P5]. split.
  - constructor; try done. intros Ha Hs. destruct (P1 Ha Hs) as (Ho & Hl & Hr).
    rewrite line_at_app by done. split; [rewrite length_app; lia|]. by split.
  - unfold slot_text. destruct (s_active sl) eqn:Ha; [|done]. destruct (s_row sl) eqn:Er; [done|].
    assert (s_store sl = ROW_STORE_CSV) as Hs.
    { pose proof (P2 eq_refl). pose proof (P3 eq_refl). destruct (s_store sl); [done|done|]. by destruct (H0 eq_refl). }
    destruct (P1 eq_refl Hs) as (Ho & _ & _). by rewrite line_at_app.
Qed.

Lemma slots_ok_app f g s : ends_nl f → slots_ok f s → slots_ok (f ++ g) s ∧ texts (f ++ g) s = texts f s.
Proof.
  intros Hnl [H1 H2 H3 H4 H5 H6 H7 H8 H9 H10 H11]. split.
  - constructor; try done. eapply List.Forall_impl; [|exact H1]. intros sl Hsl. by apply slot_ok_app.
  - unfold texts. apply map_ext_in. intros sl Hin. apply slot_ok_app; [done|].
    apply list_elem_of_In in Hin. by eapply List.Forall_forall in H1; [|apply list_elem_of_In].
Qed.

Lemma grow_double_ok fuel cap required :
  0 < cap → required ≤ cap * 2 ^ Z.of_nat fuel → required ≤ grow_double fuel cap required.
Proof.
  revert cap; induction fuel as [|fuel IH]; intros cap Hc Hr; simpl; case_if; bool_to_prop; try lia.
  apply IH; [lia|]. rewrite Nat2Z.inj_succ, Z.pow_succ_r in Hr by lia. lia.
Qed.

Lemma grown_ok cap required : required ≤ MAX_RECORDS + 1 → required ≤ grown cap required ∧ cap ≤ grown cap required.
Proof.
  unfold grown, MAX_RECORDS. intros Hr. case_if; bool_to_prop; [lia|].
  set (c0 := if 0 <? cap then cap else INITIAL_RECORD_CAPACITY).
  assert (0 < c0) by (unfold c0, INITIAL_RECORD_CAPACITY; case_if; bool_to_prop; lia).
  pose proof (grow_double_ok 32 c0 required). change (2 ^ Z.of_nat 32) with 4294967296 in *. nia.
Qed.

Lemma grow_records_ok fuel cap required :
  0 < cap → required ≤ MAX_RECORDS → required ≤ cap * 2 ^ Z.of_nat fuel → required ≤ grow_records fuel cap required.
Proof.
  revert cap; induction fuel as [|fuel IH]; intros cap Hc Hm Hr; simpl; case_if; bool_to_prop; try lia.
  case_if; [done|]. apply IH; [lia|done|]. rewrite Nat2Z.inj_succ, Z.pow_succ_r in Hr by lia. lia.
Qed.

(** The capacity always reaches what is asked for up to [MAX_RECORDS]. *)
Lemma ensure_record_capacity_ok s required :
  required ≤ MAX_RECORDS → ∃ cap, ensure_record_capacity s required = Some (set_arrays s (slots s) cap) ∧ required ≤ cap.
Proof.
  intros Hm. unfold ensure_record_capacity. destruct (required <=? record_capacity s) eqn:E; bool_to_prop.
  { exists (record_capacity s). split; [by destruct s|done]. }
  set (c0 := if 0 <? record_capacity s then record_capacity s else INITIAL_RECORD_CAPACITY).
  assert (0 < c0) by (unfold c0, INITIAL_RECORD_CAPACITY; case_if; bool_to_prop; lia).
  assert (required ≤ grow_records 32 c0 required) as Hg
    by (apply grow_records_ok; [done|done|change (2 ^ Z.of_nat 32) with 4294967296; unfold MAX_RECORDS in *; nia]).
  rewrite (proj2 (Z.ltb_ge _ _)) by done. by eexists.
Qed.

(** ** The contract *)

(** Rows by slot and the stack of free slots. *)
Record RowSpec := mkRowSpec { sp_rows : list (option cstr); sp_free : list Z }.

Definition spec_row (sp : RowSpec) (i : Z) : option cstr := mjoin (if 0 <=? i then sp_rows sp !! Z.to_nat i else None).

Definition spec_op (sp : RowSpec) (op : RowOp) : RowOut * RowSpec :=
  match op with
  | ORead i | OScan i => (OutRow (spec_row sp i), sp)
  | OAppend row _ =>
      match reverse (sp_free sp) with
      | i :: rest => (OutSlot (Some i), mkRowSpec (<[Z.to_nat i := Some row]> (sp_rows sp)) (reverse rest))
      | [] =>
          if MAX_RECORDS <=? Z.of_nat (length (sp_rows sp)) then (OutSlot None, sp)
          else (OutSlot (Some (Z.of_nat (length (sp_rows sp)))), mkRowSpec (sp_rows sp ++ [Some row]) [])
      end
  | OReplace i row =>
      match spec_row sp i with
      | Some _ => (OutOk true, mkRowSpec (<[Z.to_nat i := Some row]> (sp_rows sp)) (sp_free sp))
      | None => (OutOk false, sp)
      end
  | ODelete i =>
      match spec_row sp i with
      | Some _ => (OutOk true, mkRowSpec (<[Z.to_nat i := None]> (sp_rows sp)) (sp_free sp ++ [i]))
      | None => (OutOk false, sp)
      end
  end.

Definition rows_of (st : RowStore) : RowSpec := mkRowSpec (texts (rs_file st) (rs_slots st)) (free_slots (rs_slots st)).

Record store_ok (st : RowStore) : Prop := {
  st_slots_ok : slots_ok (rs_file st) (rs_slots st);
  st_pages_ok : pages_ok (rs_file st) (rs_pages st);
  st_ends : ends_nl (rs_file st);
}.

(** Rows that can stand in the file. *)
Definition op_plain (op : RowOp) : bool :=
  match op with
  | OAppend row _ => forallb line_char row && (length row <? RECORD_SIZE - 1)%nat
  | _ => true
  end.

Lemma spec_row_of st i : spec_row (rows_of st) i = row_of (rs_file st) (rs_slots st) i.
Proof. by rewrite slot_text_row_of. Qed.

(** The slot of a row that was just written at [off]. *)
Definition new_slot (row_id off : Z) : Slot := mkSlot None true row_id ROW_STORE_CSV off false 0.

Lemma new_slot_ok f row row_id :
  forallb line_char row = true → (length row < RECORD_SIZE - 1)%nat →
  slot_ok (f ++ row ++ [NL]) (new_slot row_id (Z.of_nat (length f))) ∧
  slot_text (f ++ row ++ [NL]) (new_slot row_id (Z.of_nat (length f))) = Some row.
Proof.
  intros Hr Hl. unfold slot_text. simpl. rewrite line_at_end by done. split; [|done].
  constructor; simpl; try done.
  - intros _ _. rewrite line_at_end by done. split; [rewrite !length_app; simpl; lia|]. by split.
  - split; [done|]. by intros [? _].
Qed.

Lemma list_insert_twice {A} (l : list A) i (x y : A) : <[i := x]> (<[i := y]> l) = <[i := x]> l.
Proof. apply list_insert_insert_eq. Qed.

Lemma slot_at_set s i sl : 0 ≤ i < record_count s → slot_at (set_slot s i sl) i = sl.
Proof. intros H. unfold slot_at. simpl. rewrite list_lookup_insert_eq; [done|]. unfold record_count in H. lia. Qed.

(** Taking a slot, giving it the place of the row, and activating it. *)
Lemma fill_slot s1 i row row_id off :
  0 ≤ i < record_count s1 → i < record_capacity s1 → s_active (slot_at s1 i) = false → s_cached (slot_at s1 i) = false →
  ∃ s2, assign_slot_row s1 i row ROW_STORE_CSV off false = Some (true, s2) ∧
    activate s2 i row_id = put s1 i (new_slot row_id off) (row_cache_clock s1) (free_slots s1) (free_capacity s1).
Proof.
  intros Hi Hc Ha Hca. unfold assign_slot_row. rewrite (proj2 (Z.ltb_ge i 0)), (proj2 (Z.leb_gt _ i)) by lia. cbn [orb negb].
  eexists. split; [reflexivity|]. unfold activate.
  match goal with |- context [slot_at (set_counts (set_slot s1 i ?x) ?a ?b) i] =>
    change (slot_at (set_counts (set_slot s1 i x) a b) i) with (slot_at (set_slot s1 i x) i) end.
  rewrite slot_at_set by done. unfold put, uncount. rewrite Ha, Hca. unfold set_counts, set_slot. simpl.
  rewrite list_insert_twice. f_equal; lia.
Qed.

(** A row that stands at [off], in a slot of its own ... *)
Lemma append_grow_ok g s row row_id off :
  slots_ok g s → slot_ok g (new_slot row_id off) → slot_text g (new_slot row_id off) = Some row →
  free_slots s = [] →
  ∃ r s', append_record_csv s row row_id off = Some (r, s') ∧
    match r with
    | Some i => slots_ok g s' ∧
        spec_op (mkRowSpec (texts g s) (free_slots s)) (OAppend row row_id) = (OutSlot (Some i), mkRowSpec (texts g s') (free_slots s'))
    | None => s' = s ∧ spec_op (mkRowSpec (texts g s) (free_slots s)) (OAppend row row_id) = (OutSlot None, mkRowSpec (texts g s) (free_slots s))
    end.
Proof.
  intros Hok Hn Hnt E. pose proof Hok as [H1 H2 H3 H4 H5 H6 H7 H8 H9 H10 H11].
  unfold append_record_csv, take_record_slot. cbn [andb spec_op sp_free sp_rows].
  rewrite E. cbn [length Nat.ltb Nat.leb]. change (reverse (@nil Z)) with (@nil Z). cbv iota.
  assert (Z.of_nat (length (texts g s)) = record_count s) as Erc by (unfold texts, record_count; by rewrite length_map).
  rewrite Erc. destruct (MAX_RECORDS <=? record_count s) eqn:Em; bool_to_prop.
  { by eexists None, s. }
  destruct (ensure_record_capacity_ok s (record_count s + 1)) as (cap & -> & Hcap); [lia|]. simpl.
  set (s1 := set_arrays s (slots s ++ [slot0]) cap).
  assert (record_count s1 = record_count s + 1) as Erc1 by (unfold record_count; simpl; rewrite length_app; simpl; lia).
  assert (slot_at s1 (record_count s) = slot0) as Esl.
  { unfold slot_at, record_count. simpl. rewrite Nat2Z.id, lookup_app_r, Nat.sub_diag by lia. done. }
  destruct (fill_slot s1 (record_count s) row row_id off) as (s2 & Hf1 & Hf2).
  { unfold record_count in *. lia. } { simpl. lia. } { by rewrite Esl. } { by rewrite Esl. }
  unfold s1 in Hf1. unfold set_arrays in Hf1 |- *. simpl in Hf1 |- *. rewrite Hf1. simpl.
  eexists (Some (record_count s)), _. split; [reflexivity|]. rewrite Hf2.
  assert (slots (put s1 (record_count s) (new_slot row_id off) (row_cache_clock s1) (free_slots s1) (free_capacity s1))
    = slots s ++ [new_slot row_id off]) as Esl2.
  { unfold put, record_count. simpl. rewrite Nat2Z.id. by rewrite insert_app_r_alt, Nat.sub_diag by lia. }
  split.
  + assert (record_count (put s1 (record_count s) (new_slot row_id off) (row_cache_clock s1) (free_slots s1) (free_capacity s1))
      = record_count s + 1) as Erc2 by (unfold record_count at 1; rewrite Esl2, length_app; simpl; unfold record_count; lia).
    constructor; rewrite ?Erc2, ?Esl2.
    * apply Forall_app. split; [exact H1|]. by constructor.
    * rewrite countb_app. unfold put. simpl. rewrite Esl. simpl. lia.
    * unfold put. simpl. rewrite Esl. simpl. lia.
    * rewrite countb_app. unfold put. simpl. rewrite Esl. simpl. lia.
    * rewrite length_app. simpl. lia.
    * simpl. lia.
    * lia.
    * simpl. rewrite E. constructor.
    * simpl. rewrite E. constructor.
    * unfold put. simpl. rewrite Esl, E in *. simpl in *. lia.
    * simpl. rewrite E in *. simpl in *. lia.
  + f_equal. unfold texts at 2. rewrite Esl2, map_app. change (map (slot_text g) (slots s)) with (texts g s).
    simpl. by rewrite Hnt, E.
Qed.

(** ... or in one that was freed. *)
Lemma append_reuse_ok g s row row_id off fr i :
  slots_ok g s → slot_ok g (new_slot row_id off) → slot_text g (new_slot row_id off) = Some row →
  free_slots s = fr ++ [i] →
  ∃ r s', append_record_csv s row row_id off = Some (r, s') ∧
    match r with
    | Some i => slots_ok g s' ∧
        spec_op (mkRowSpec (texts g s) (free_slots s)) (OAppend row row_id) = (OutSlot (Some i), mkRowSpec (texts g s') (free_slots s'))
    | None => s' = s ∧ spec_op (mkRowSpec (texts g s) (free_slots s)) (OAppend row row_id) = (OutSlot None, mkRowSpec (texts g s) (free_slots s))
    end.
Proof.
  intros Hok' Hn Hnt E. pose proof Hok' as [H1 H2 H3 H4 H5 H6 H7 H8 H9 H10 H11].
  unfold append_record_csv, take_record_slot. cbn [andb spec_op sp_free sp_rows].
  assert (reverse (free_slots s) = i :: reverse fr) as Er by (rewrite E, reverse_app; done).
  rewrite Er, reverse_involutive. cbv iota.
  rewrite (proj2 (Nat.ltb_lt 0 (length (free_slots s)))) by (rewrite E, length_app; simpl; lia).
  rewrite E, List.last_last, removelast_snoc.
  pose proof H8 as Hfr. rewrite E in Hfr. apply Forall_app in Hfr as [Hfr Hi]. apply Forall_cons_1 in Hi as [[Hi Hia] _].
  assert (s_cached (slot_at s i) = false) as Hca.
  { pose proof (slot_at_ok _ s i Hok' Hi) as Hsl. destruct (s_cached (slot_at s i)) eqn:Ec; [|done].
    destruct (proj1 (so_cached _ _ Hsl) Ec) as [H _]. by destruct H; apply (so_idle _ _ Hsl). }
  destruct (fill_slot (set_free s fr (free_capacity s)) i row row_id off) as (s2 & Hf1 & Hf2);
    [exact Hi|simpl; lia|exact Hia|exact Hca|].
  cbn [mbind option_bind]. rewrite Hf1. cbn [mbind option_bind].
  eexists (Some i), _. split; [reflexivity|]. rewrite Hf2.
  pose proof H9 as Hnd. rewrite E in Hnd. apply list.NoDup_app in Hnd as (Hnd & Hdis & _).
  destruct (put_ok g s i (new_slot row_id off) (row_cache_clock s) fr (free_capacity s) Hok' Hi Hn)
    as [Hput Hptx].
  + rewrite Hca. simpl. lia.
  + apply Forall_forall. intros j Hj. assert (j ∈ fr) as Hj' by by apply list_elem_of_In.
    destruct (decide (j = i)) as [->|]; [by destruct (Hdis i Hj'); apply list_elem_of_singleton|].
    rewrite Forall_forall in Hfr. by apply Hfr.
  + done.
  + rewrite Hia. simpl. rewrite E, length_app in H10. simpl in H10. lia.
  + rewrite E, length_app in H11. simpl in H11. lia.
  + split; [exact Hput|]. f_equal. f_equal. unfold set_free in *. etrans; [|symmetry; exact Hptx]. by rewrite Hnt.
Qed.

Lemma append_at_ok g s row row_id off :
  slots_ok g s → slot_ok g (new_slot row_id off) → slot_text g (new_slot row_id off) = Some row →
  ∃ r s', append_record_csv s row row_id off = Some (r, s') ∧
    match r with
    | Some i => slots_ok g s' ∧
        spec_op (mkRowSpec (texts g s) (free_slots s)) (OAppend row row_id) = (OutSlot (Some i), mkRowSpec (texts g s') (free_slots s'))
    | None => s' = s ∧ spec_op (mkRowSpec (texts g s) (free_slots s)) (OAppend row row_id) = (OutSlot None, mkRowSpec (texts g s) (free_slots s))
    end.
Proof.
  intros Hok Hn Hnt. destruct (decide (free_slots s = [])) as [E|Hne]; [by apply append_grow_ok|].
  destruct (exists_last Hne) as (fr & i & E). by eapply append_reuse_ok.
Qed.

Lemma append_csv_ok f s row row_id :
  slots_ok f s → ends_nl f → forallb line_char row = true → (length row < RECORD_SIZE - 1)%nat →
  let f' := f ++ row ++ [NL] in
  ∃ r s', append_record_csv s row row_id (Z.of_nat (length f)) = Some (r, s') ∧
    match r with
    | Some i => slots_ok f' s' ∧
        spec_op (mkRowSpec (texts f s) (free_slots s)) (OAppend row row_id) = (OutSlot (Some i), mkRowSpec (texts f' s') (free_slots s'))
    | None => s' = s ∧ spec_op (mkRowSpec (texts f s) (free_slots s)) (OAppend row row_id) = (OutSlot None, mkRowSpec (texts f s) (free_slots s))
    end.
Proof.
  cbv zeta. intros Hok Hnl Hr Hl. destruct (new_slot_ok f row row_id Hr Hl) as [Hn Hnt].
  destruct (slots_ok_app f (row ++ [NL]) s Hnl Hok) as [Hok' Htx].
  destruct (append_at_ok _ s row row_id _ Hok' Hn Hnt) as (r & s' & E & Hres). exists r, s'. by rewrite <- Htx.
Qed.

Lemma replace_ok f s i row :
  slots_ok f s →
  let '(ok, s') := replace_record_at s i row in
  slots_ok f s' ∧ spec_op (mkRowSpec (texts f s) (free_slots s)) (OReplace i row) = (OutOk ok, mkRowSpec (texts f s') (free_slots s')).
Proof.
  intros Hok. unfold replace_record_at. cbn [spec_op sp_rows sp_free].
  assert (spec_row (mkRowSpec (texts f s) (free_slots s)) i = row_of f s i) as -> by by rewrite slot_text_row_of.
  unfold row_of. destruct (slot_is_active s i) eqn:Ea; cbn [negb]; [|done].
  apply slot_is_active_spec in Ea as [Hi Ha]. pose proof (slot_at_ok f s i Hok Hi) as Hsl.
  set (sl' := mkSlot (Some row) (s_active (slot_at s i)) (s_id (slot_at s i)) ROW_STORE_MEMORY (-1) false 0).
  assert (slot_ok f sl') as Hsl'.
  { constructor; simpl; try done; [by rewrite Ha|]. split; [done|]. by intros [_ H]. }
  destruct (put_same_ok f s i sl' (row_cache_clock s) Hok Hi Hsl') as [Hput Htx]; [done| |].
  { simpl. pose proof (ss_limit f s Hok). destruct (s_cached (slot_at s i)); simpl; lia. }
  rewrite (uncount_ok f s i Hok Hi). unfold put in Hput, Htx. simpl in Hput, Htx.
  rewrite Z.sub_add, Z.add_0_r in Hput, Htx. split; [exact Hput|].
  unfold slot_text at 1. rewrite Ha. destruct (s_row (slot_at s i)); f_equal; f_equal; symmetry; (etrans; [exact Htx|]).
  all: unfold slot_text, sl'; simpl; by rewrite Ha.
Qed.

Lemma delete_ok f s i :
  slots_ok f s →
  let '(ok, s') := delete_record_at s i in
  slots_ok f s' ∧ spec_op (mkRowSpec (texts f s) (free_slots s)) (ODelete i) = (OutOk ok, mkRowSpec (texts f s') (free_slots s')).
Proof.
  intros Hok. unfold delete_record_at, deactivate_slot. cbn [spec_op sp_rows sp_free].
  assert (spec_row (mkRowSpec (texts f s) (free_slots s)) i = row_of f s i) as -> by by rewrite slot_text_row_of.
  unfold row_of. destruct (slot_is_active s i) eqn:Ea; cbn [negb]; [|done].
  apply slot_is_active_spec in Ea as [Hi Ha]. pose proof Hok as [H1 H2 H3 H4 H5 H6 H7 H8 H9 H10 H11].
  assert (slot_ok f slot0) as Hs0 by (constructor; simpl; try done; split; [done|]; by intros [? _]).
  destruct (grown_ok (free_capacity s) (Z.of_nat (length (free_slots s)) + 1)) as [Hg1 Hg2].
  { pose proof (countb_nonneg s_active (slots s)). lia. }
  destruct (put_ok f s i slot0 (row_cache_clock s) (free_slots s ++ [i]) (grown (free_capacity s) (Z.of_nat (length (free_slots s)) + 1)) Hok Hi Hs0)
    as [Hput Htx].
  - simpl. destruct (s_cached (slot_at s i)); simpl; lia.
  - apply Forall_app. split.
    + eapply List.Forall_impl; [|exact H8]. intros j [Hj Hja]. split; [done|]. by destruct (decide (j = i)).
    + apply Forall_singleton. split; [done|]. by rewrite decide_True.
  - apply list.NoDup_app. split; [done|]. split; [|apply NoDup_singleton]. intros j Hj ->%list_elem_of_singleton.
    rewrite List.Forall_forall in H8. apply list_elem_of_In in Hj. destruct (H8 _ Hj). congruence.
  - rewrite Ha, length_app. simpl. lia.
  - rewrite length_app. simpl. lia.
  - rewrite (uncount_ok f s i Hok Hi). unfold put in Hput, Htx. rewrite Ha in Hput, Htx. simpl in Hput, Htx.
    rewrite !Z.add_0_r in Hput, Htx. split; [exact Hput|].
    unfold slot_text at 1. rewrite Ha. destruct (s_row (slot_at s i)); f_equal; f_equal; symmetry; exact Htx.
Qed.

Lemma row_op_refines (st : RowStore) (op : RowOp) :
  store_ok st → op_plain op = true →
  ∃ out st', row_op st op = Some (out, st') ∧ store_ok st' ∧ spec_op (rows_of st) op = (out, rows_of st').
Proof.
  intros [Hs Hp He] Hpl. destruct st as [f pc s]. unfold rows_of, row_op in *. cbn [rs_file rs_pages rs_slots] in *.
  destruct op as [i|i|row row_id|i row|i].
  - destruct (slot_row_ok f pc s i Hs Hp He) as (pc' & s' & -> & Hs' & Hp' & Ht & Hf & _).
    eexists _, _. split; [reflexivity|]. split; [by split|]. cbn. rewrite Ht, Hf. f_equal. f_equal.
    apply (spec_row_of (mkRowStore f pc s)).
  - destruct (slot_row_scan_ok f pc s i Hs Hp He) as (pc' & -> & Hp').
    eexists _, _. split; [reflexivity|]. split; [by split|]. cbn. f_equal. f_equal.
    apply (spec_row_of (mkRowStore f pc s)).
  - cbn [op_plain] in Hpl. apply andb_true_iff in Hpl as [Hr Hl%Nat.ltb_lt].
    destruct (append_csv_ok f s row row_id Hs He Hr Hl) as (r & s' & -> & Hres). destruct r as [i|].
    + destruct Hres as [Hs' Hsp]. eexists _, _. split; [reflexivity|]. split; [|exact Hsp].
      split; cbn; [exact Hs'|by apply pages_ok_app|by apply ends_nl_append].
    + destruct Hres as [-> Hsp]. eexists _, _. split; [reflexivity|]. split; [by split|exact Hsp].
  - pose proof (replace_ok f s i row Hs) as H. destruct (replace_record_at s i row) as [ok s']. destruct H as [Hs' Hsp].
    eexists _, _. split; [reflexivity|]. by split.
  - pose proof (delete_ok f s i Hs) as H. destruct (delete_record_at s i) as [ok s']. destruct H as [Hs' Hsp].
    eexists _, _. split; [reflexivity|]. by split.
Qed.

Fixpoint run_spec (sp : RowSpec) (ops : list RowOp) : list RowOut * RowSpec :=
  match ops with
  | [] => ([], sp)
  | op :: ops' =>
      let '(out, sp1) := spec_op sp op in
      let '(outs, sp2) := run_spec sp1 ops' in
      (out :: outs, sp2)
  end.

(** C30. Refinement: the row store of the stand-alone executor (slots, cached rows
    with their eviction, cached pages that are older than the file, the file that
    only grows, the reuse of freed slots) answers every
    sequence of reads, insertions, replacements and deletions as the plain list of
    rows does, without running out of
    fuel, and keeps the invariant that makes this so: at most 65,536 rows of the
    file are held in memory, the counters count, and the free list holds exactly the
    slots without a row. *)
Theorem row_store_refines (st : RowStore) (ops : list RowOp) :
  store_ok st → forallb op_plain ops = true →
  ∃ outs st', run_ops st ops = Some (outs, st') ∧ store_ok st' ∧ run_spec (rows_of st) ops = (outs, rows_of st').
Proof.
  revert st; induction ops as [|op ops IH]; intros st Hst Hops; [by exists [], st|].
  cbn [forallb] in Hops. apply andb_true_iff in Hops as [Hop Hops].
  destruct (row_op_refines st op Hst Hop) as (out & st1 & E1 & Hst1 & Hsp1).
  destruct (IH st1 Hst1 Hops) as (outs & st2 & E2 & Hst2 & Hsp2).
  exists (out :: outs), st2. cbn [run_ops run_spec]. rewrite E1, Hsp1. cbn [mbind option_bind]. rewrite E2, Hsp2. done.
Qed.

Lemma empty_store_ok header : store_ok (empty_store header).
Proof.
  split; [|apply pages_ok_clear|right; by eexists].
  constructor; unfold ROW_CACHE_LIMIT, record_count, MAX_RECORDS; simpl;
    [constructor|done|lia|done|by right|lia|lia|constructor|constructor|lia|lia].
Qed.

Definition sample_ops : list RowOp :=
  [OAppend (lit "1,kim") 1; OAppend (lit "2,lee") 2; ORead 0; OReplace 1 (lit "2,park"); ODelete 0; ORead 0;
   OAppend (lit "3,choi") 3; OScan 0; ORead 1; ORead 0; ODelete 7].

Lemma row_store_refines_witness :
  (∃ outs st', run_ops (empty_store (lit "id(PK),name")) sample_ops = Some (outs, st') ∧ store_ok st' ∧
     run_spec (rows_of (empty_store (lit "id(PK),name"))) sample_ops = (outs, rows_of st')) ∧
  (run_spec (mkRowSpec [] []) sample_ops).1 =
    [OutSlot (Some 0); OutSlot (Some 1); OutRow (Some (lit "1,kim")); OutOk true; OutOk true; OutRow None;
     OutSlot (Some 0); OutRow (Some (lit "3,choi")); OutRow (Some (lit "2,park")); OutRow (Some (lit "3,choi")); OutOk false].
Proof.
  split; [|vm_compute; reflexivity].
  apply (row_store_refines (empty_store (lit "id(PK),name")) sample_ops (empty_store_ok (lit "id(PK),name"))).
  vm_compute; reflexivity.
Defined.

(** The code computes these answers. *)
Example sample_ops_run :
  (fst <$> run_ops (empty_store (lit "id(PK),name")) sample_ops) = Some (run_spec (mkRowSpec [] []) sample_ops).1.
Proof. vm_compute. reflexivity. Qed.

(** ** The tail index *)

Definition le_fst (x y : Z * Z) : Prop := x.1 ≤ y.1.

#[global] Instance le_fst_trans : Transitive le_fst.
Proof. unfold le_fst. intros x y z. lia. Qed.

Definition tail_ok (t : Tail) : Prop :=
  StronglySorted le_fst (tail_entries t) ∧ Z.of_nat (length (tail_entries t)) ≤ tail_capacity t.

Lemma tail_shift_perm e es : tail_shift e es ≡ₚ e :: es.
Proof.
  induction es as [|x es IH]; simpl; [done|]. destruct (e.1 <? x.1); [|done]. rewrite IH. apply Permutation_swap.
Qed.

Lemma tail_shift_sorted e es :
  StronglySorted (flip le_fst) es → StronglySorted (flip le_fst) (tail_shift e es).
Proof.
  induction es as [|x es IH]; simpl; intros H; [by repeat constructor|].
  apply StronglySorted_inv in H as [H Hx]. destruct (e.1 <? x.1) eqn:E; bool_to_prop.
  - constructor; [by apply IH|]. rewrite tail_shift_perm. constructor; [unfold flip, le_fst; lia|done].
  - constructor; [by constructor|]. constructor; [unfold flip, le_fst; lia|].
    eapply List.Forall_impl; [|exact Hx]. unfold flip, le_fst. intros y. lia.
Qed.

Lemma StronglySorted_rev {A} (R : A → A → Prop) l : StronglySorted R l → StronglySorted (flip R) (rev l).
Proof.
  induction 1 as [|x l Hl IH Hx]; simpl; [constructor|]. apply StronglySorted_app_iff; [split_and!; [done|by repeat constructor|]].
  intros y z Hy Hz. apply list_elem_of_singleton in Hz as ->. apply list_elem_of_In, in_rev in Hy.
  rewrite List.Forall_forall in Hx. by apply Hx.
Qed.

Lemma append_tail_ok t id off :
  tail_ok t → Z.of_nat (length (tail_entries t)) ≤ MAX_RECORDS →
  tail_ok (append_tail_pk_offset t id off) ∧ tail_entries (append_tail_pk_offset t id off) ≡ₚ (id, off) :: tail_entries t.
Proof.
  intros [Hs Hc] Hm. assert (tail_entries (append_tail_pk_offset t id off) ≡ₚ (id, off) :: tail_entries t) as Hp.
  { simpl. rewrite <- Permutation_rev, tail_shift_perm, <- Permutation_rev. done. }
  split; [split|done].
  - simpl. apply (StronglySorted_rev (flip le_fst)). apply tail_shift_sorted. by apply (StronglySorted_rev le_fst).
  - rewrite (Permutation_length Hp). simpl. destruct (grown_ok (tail_capacity t) (Z.of_nat (length (tail_entries t)) + 1)); lia.
Qed.

(** The binary search finds an entry with the key whenever there is one. *)
Lemma find_tail_ok fuel es id lo hi :
  StronglySorted le_fst es → 0 ≤ lo → hi < Z.of_nat (length es) → hi - lo < Z.of_nat fuel →
  (∀ i e, es !! i = Some e → e.1 = id → lo ≤ Z.of_nat i ≤ hi) →
  match find_tail fuel es id lo hi with
  | Some off => (id, off) ∈ es
  | None => id ∉ es.*1
  end.
Proof.
  intros Hs. revert lo hi; induction fuel as [|fuel IH]; intros lo hi Hlo Hhi Hf Hin; cbn [find_tail].
  all: assert (hi < lo → id ∉ es.*1) as Hempty by
    (intros Hlt [e [-> He]]%list_elem_of_fmap; apply list_elem_of_lookup in He as [i Hi]; specialize (Hin i e Hi eq_refl); lia).
  { apply Hempty. lia. }
  destruct (hi <? lo) eqn:E; bool_to_prop; [by apply Hempty|].
  set (mid := lo + (hi - lo) / 2). assert (lo ≤ mid ≤ hi) as Hmid.
  { unfold mid. pose proof (Z.div_pos (hi - lo) 2). pose proof (Z.div_le_upper_bound (hi - lo) 2 (hi - lo)). lia. }
  destruct (lookup_lt_is_Some_2 es (Z.to_nat mid)) as [[k o] Hk]; [lia|]. rewrite Hk. cbn [mbind option_bind fst snd].
  destruct (Z.eqb_spec k id) as [->|Hne]; [by eapply list_elem_of_lookup_2|].
  assert (∀ i e, es !! i = Some e → (i < Z.to_nat mid)%nat → e.1 ≤ k) as Hbelow.
  { intros i e Hi Hlt. exact (StronglySorted_lookup le_fst es i (Z.to_nat mid) e (k, o) Hs Hlt Hi Hk). }
  assert (∀ i e, es !! i = Some e → (Z.to_nat mid < i)%nat → k ≤ e.1) as Habove.
  { intros i e Hi Hlt. exact (StronglySorted_lookup le_fst es (Z.to_nat mid) i (k, o) e Hs Hlt Hk Hi). }
  destruct (k <? id) eqn:Ek; bool_to_prop; apply IH; try lia.
  - intros i e Hi He. specialize (Hin i e Hi He). destruct (decide (Z.to_nat mid < i)%nat); [lia|].
    destruct (decide (i = Z.to_nat mid)) as [->|]; [rewrite Hk in Hi; injection Hi as <-; simpl in He; lia|].
    pose proof (Hbelow i e Hi ltac:(lia)). lia.
  - intros i e Hi He. specialize (Hin i e Hi He). destruct (decide (i < Z.to_nat mid)%nat); [lia|].
    destruct (decide (i = Z.to_nat mid)) as [->|]; [rewrite Hk in Hi; injection Hi as <-; simpl in He; lia|].
    pose proof (Habove i e Hi ltac:(lia)). lia.
Qed.

(** The offset index of the rows beyond the limit answers a key with the offset of a
    row inserted under it, and with nothing only when there is none. *)
Lemma tail_index_finds t id :
  tail_ok t →
  match find_tail_pk_offset t id with
  | Some off => (id, off) ∈ tail_entries t
  | None => id ∉ (tail_entries t).*1
  end.
Proof.
  intros [Hs _]. apply find_tail_ok; [done|lia|lia|lia|]. intros i e Hi _. apply lookup_lt_Some in Hi. lia.
Qed.
