(* ===== verification/LegacyIndex.v ===== *)
(** The indexes of the stand-alone executor over its rows, [src/legacy/executor.c]:
    lookups, putting a row into the trees and taking it out, rebuilding them, rows
    that are inserted, and the application of logged changes.

    A function returns [None] where the C code would use a tree that was freed or a
    row that was evicted while it is in use. *)

From Stdlib Require Import String.
From S2P Require Import Prelude CString BPTree BPTreeString BPTreeIndex Parser Values Table Store LegacyRow LegacyCache.
From stdpp Require Import base numbers list option.
Local Open Scope Z_scope.

(** ** Trees that entries can be taken out of, and that are built in one go *)

Class EditableIndex (K T : Type) `{!KeyOrder K} := {
  ix_delete : T → K → Z * T;
  ix_build : T → list (K * Z) → bool * T;
}.

#[global] Instance long_editable : EditableIndex Z (tree Z) := {|
  ix_delete := bptree_delete;
  ix_build := bptree_build_from_sorted always_ok;
|}.

#[global] Instance string_editable : EditableIndex cstr (tree cstr) := {|
  ix_delete := bptree_string_delete;
  ix_build := bptree_string_build_from_sorted always_ok;
|}.

(** [qsort] by the key. *)
Fixpoint sort_insert {K} `{!KeyOrder K} (e : K * Z) (es : list (K * Z)) : list (K * Z) :=
  match es with
  | [] => [e]
  | x :: es' => if kleb e.1 x.1 then e :: es else x :: sort_insert e es'
  end.

Definition qsort_pairs {K} `{!KeyOrder K} (es : list (K * Z)) : list (K * Z) := foldr sort_insert [] es.

(** ** The table *)

(** The part of [TableCache] that holds rows and indexes; a tree of [c_uks] that was
    freed is [None]. *)
Record Cache := mkCache {
  c_hdr : Header;
  c_file : option cstr;
  c_pages : Pages;
  c_slots : Slots;
  c_id : tree Z;
  c_uks : list (option (tree cstr));
  next_auto_id : Z;
  next_row_id : Z;
}.

Definition set_store (c : Cache) (pc : Pages) (s : Slots) : Cache :=
  mkCache (c_hdr c) (c_file c) pc s (c_id c) (c_uks c) (next_auto_id c) (next_row_id c).
Definition set_slots (c : Cache) (s : Slots) : Cache := set_store c (c_pages c) s.
Definition set_id (c : Cache) (t : tree Z) : Cache :=
  mkCache (c_hdr c) (c_file c) (c_pages c) (c_slots c) t (c_uks c) (next_auto_id c) (next_row_id c).
Definition set_uks (c : Cache) (ts : list (option (tree cstr))) : Cache :=
  mkCache (c_hdr c) (c_file c) (c_pages c) (c_slots c) (c_id c) ts (next_auto_id c) (next_row_id c).
Definition set_next (c : Cache) (auto row : Z) : Cache :=
  mkCache (c_hdr c) (c_file c) (c_pages c) (c_slots c) (c_id c) (c_uks c) auto row.

Definition cache_row (c : Cache) (slot_id : Z) : option (option cstr * Cache) :=
  '(row, pc, s) ← slot_row (c_file c) (c_pages c) (c_slots c) slot_id;
  Some (row, set_store c pc s).

Definition uk_tree_at (c : Cache) (uk_slot : nat) : option (tree cstr) := mjoin (c_uks c !! uk_slot).

Definition set_uk (c : Cache) (uk_slot : nat) (t : tree cstr) : Cache := set_uks c (<[uk_slot := Some t]> (c_uks c)).

(** ** Lookups *)

Definition get_row_index_key (c : Cache) (row : cstr) (slot_id : Z) : option Z :=
  match h_pk (c_hdr c) with
  | Some _ => get_row_pk_value (c_hdr c) row
  | None =>
      let id := s_id (slot_at (c_slots c) slot_id) in
      if (0 <=? slot_id) && (slot_id <? record_count (c_slots c)) && (0 <? id) then Some id else None
  end.

(** The scan over the slots, [n] more from [i] on. *)
Fixpoint find_scan (n : nat) (i : Z) (id_value : Z) (c : Cache) : option (option Z * Cache) :=
  match n with
  | O => Some (None, c)
  | S n' =>
      '(row, c1) ← cache_row c i;
      if match row with
         | Some r => bool_decide (get_row_index_key c1 r i = Some id_value)
         | None => false
         end then Some (Some i, c1)
      else find_scan n' (i + 1) id_value c1
  end.

Definition find_record_index_by_key (c : Cache) (id_value : Z) : option (option Z * Cache) :=
  let scan := find_scan (length (slots (c_slots c))) 0 id_value c in
  match ix_search (c_id c) id_value with
  | Some i => if slot_is_active (c_slots c) i then Some (Some i, c) else scan
  | None => scan
  end.

Definition find_pk_row (c : Cache) (value : cstr) : option Z :=
  match h_pk (c_hdr c) with
  | None => None
  | Some _ =>
      key ← parse_long_value value;
      i ← ix_search (c_id c) key;
      if slot_is_active (c_slots c) i then Some i else None
  end.

Definition unique_index_find (c : Cache) (t : tree cstr) (key : cstr) : option Z :=
  match key with
  | [] => None
  | _ => i ← ix_search t key; if slot_is_active (c_slots c) i then Some i else None
  end.

(** [Some None] is not found. *)
Definition find_uk_row (c : Cache) (col_idx : nat) (value : cstr) : option (option Z) :=
  match get_uk_slot (c_hdr c) col_idx with
  | None => Some None
  | Some slot =>
      match normalize_value value RECORD_SIZE with
      | [] => Some None
      | key => t ← uk_tree_at c slot; Some (unique_index_find c t key)
      end
  end.

(** ** Rebuilding *)

(** The fields of every row that can be read, with its slot. *)
Fixpoint collect_rows (n : nat) (i : Z) (c : Cache) : option (list (Z * cstr) * Cache) :=
  match n with
  | O => Some ([], c)
  | S n' =>
      '(row, c1) ← cache_row c i;
      '(rest, c2) ← collect_rows n' (i + 1) c1;
      Some (match row with Some r => (i, r) :: rest | None => rest end, c2)
  end.

Fixpoint id_pairs (c : Cache) (rows : list (Z * cstr)) : option (list (Z * Z)) :=
  match rows with
  | [] => Some []
  | (i, r) :: rows' => k ← get_row_index_key c r i; ps ← id_pairs c rows'; Some ((k, i) :: ps)
  end.

(** [next_auto_id], started at 1. *)
Definition next_after (ps : list (Z * Z)) : Z := foldl (fun n p => if n <=? p.1 then p.1 + 1 else n) 1 ps.

Definition rebuild_id_index (c : Cache) : option (bool * Cache) :=
  '(rows, c1) ← collect_rows (length (slots (c_slots c))) 0 c;
  match id_pairs c1 rows with
  | None => Some (false, c1)
  | Some ps =>
      t ← bptree_create always_ok;
      let ps' := if strictly_sorted ps then ps else qsort_pairs ps in
      match ix_build t ps' with
      | (false, _) => Some (false, c1)
      | (true, t') =>
          Some (true, set_next (set_id c1 t') (match h_pk (c_hdr c) with Some _ => next_after ps | None => next_auto_id c1 end)
                        (next_row_id c1))
      end
  end.

(** The pairs of a unique column. *)
Definition uk_pairs (col : nat) (rows : list (Z * cstr)) : list (cstr * Z) :=
  omap (fun p => match normalize_value (field_at (parse_csv_row p.2) col) RECORD_SIZE with
                 | [] => None
                 | key => Some (key, p.1)
                 end) rows.

(** The loop that builds the trees of the unique columns and puts them in place;
    when one is refused, those put in place before it are freed with it. *)
Fixpoint rebuild_uks (cols : list nat) (rows : list (Z * cstr)) (old : list (option (tree cstr)))
    : option (bool * list (option (tree cstr))) :=
  match cols, old with
  | [], _ => Some (true, old)
  | col :: cols', _ :: old' =>
      t ← bptree_string_create always_ok;
      match ix_build t (qsort_pairs (uk_pairs col rows)) with
      | (false, _) => Some (false, old)
      | (true, t') =>
          '(ok, rest) ← rebuild_uks cols' rows old';
          Some (ok, (if (ok : bool) then Some t' else None) :: rest)
      end
  | _, [] => None
  end.

Definition rebuild_uk_indexes (c : Cache) : option (bool * Cache) :=
  '(rows, c1) ← collect_rows (length (slots (c_slots c))) 0 c;
  '(ok, ts) ← rebuild_uks (h_uks (c_hdr c)) rows (c_uks c1);
  Some (ok, set_uks c1 ts).

(** ** Putting rows in and taking them out *)

Definition uk_insert (c : Cache) (uk_slot : nat) (key : cstr) (row_index : Z) : option (Z * Cache) :=
  t ← uk_tree_at c uk_slot;
  '(rc, t') ← ix_insert t key row_index;
  Some (rc, set_uk c uk_slot t').

Definition unique_index_insert (c : Cache) (uk_slot : nat) (key : cstr) (row_index : Z) : option (Z * Cache) :=
  match key with
  | [] => Some (1, c)
  | _ =>
      t ← uk_tree_at c uk_slot;
      match ix_search t key with
      | None => uk_insert c uk_slot key row_index
      | Some existing =>
          if negb (existing =? row_index) && slot_is_active (c_slots c) existing then Some (0, c)
          else
            let '(rc, t') := ix_delete t key in
            if negb (rc =? 0) then uk_insert (set_uk c uk_slot t') uk_slot key row_index
            else
              '(ok, c1) ← rebuild_uk_indexes c;
              if (ok : bool) then
                match get_uk_slot (c_hdr c) (default 0%nat (h_uks (c_hdr c) !! uk_slot)) with
                | Some slot => uk_insert c1 slot key row_index
                | None => Some (0, c1)
                end
              else Some (0, c1)
      end
  end.

(** The loop over the unique columns, from slot [k] on. *)
Fixpoint index_uk_fields (cols : list nat) (k : nat) (fields : list cstr) (row_index : Z) (c : Cache) : option (bool * Cache) :=
  match cols with
  | [] => Some (true, c)
  | col :: cols' =>
      match normalize_value (field_at fields col) RECORD_SIZE with
      | [] => index_uk_fields cols' (S k) fields row_index c
      | key =>
          '(rc, c1) ← unique_index_insert c k key row_index;
          if rc =? 1 then index_uk_fields cols' (S k) fields row_index c1 else Some (false, c1)
      end
  end.

Definition index_record_uks_from_row (c : Cache) (row : cstr) (row_index : Z) : option (bool * Cache) :=
  index_uk_fields (h_uks (c_hdr c)) 0 (parse_csv_row row) row_index c.

Definition index_record_uks (c : Cache) (row_index : Z) : option (bool * Cache) :=
  match h_uks (c_hdr c) with
  | [] => Some (true, c)
  | _ =>
      '(row, c1) ← cache_row c row_index;
      match row with
      | None => Some (true, c1)
      | Some r => index_uk_fields (h_uks (c_hdr c)) 0 (parse_csv_row r) row_index c1
      end
  end.

(** The loop over the unique columns that deletes the keys of a row. *)
Fixpoint remove_uk_fields (cols : list nat) (fields : list cstr) (c : Cache) : option (bool * Cache) :=
  match cols with
  | [] => Some (true, c)
  | col :: cols' =>
      match get_uk_slot (c_hdr c) col with
      | None => Some (false, c)
      | Some slot =>
          match normalize_value (field_at fields col) RECORD_SIZE with
          | [] => remove_uk_fields cols' fields c
          | key =>
              t ← uk_tree_at c slot;
              let '(rc, t') := ix_delete t key in
              if rc =? 0 then Some (false, set_uk c slot t') else remove_uk_fields cols' fields (set_uk c slot t')
          end
      end
  end.

(** Without a primary key, the loop that looks for the slot whose row is this very
    string, which stands in slot [slot_id]. *)
Fixpoint find_own_slot (n : nat) (i slot_id : Z) (c : Cache) : option (option Z * Cache) :=
  match n with
  | O => Some (None, c)
  | S n' =>
      if i =? slot_id then
        match s_row (slot_at (c_slots c) slot_id) with
        | None => None
        | Some r =>
            '(_, c1) ← cache_row c i;
            match get_row_index_key c1 r i with
            | Some k => Some (Some k, c1)
            | None => find_own_slot n' (i + 1) slot_id c1
            end
        end
      else '(_, c1) ← cache_row c i; find_own_slot n' (i + 1) slot_id c1
  end.

(** [row] is the row of slot [slot_id]. *)
Definition remove_record_indexes (c : Cache) (slot_id : Z) (row : cstr) : option (bool * Cache) :=
  let fields := parse_csv_row row in
  '(key, c1) ← (match h_pk (c_hdr c) with
                | Some p => Some (parse_long_value (field_at fields p), c)
                | None => find_own_slot (length (slots (c_slots c))) 0 slot_id c
                end);
  match key with
  | None => Some (false, c1)
  | Some k =>
      let '(rc, t) := ix_delete (c_id c1) k in
      if rc =? 0 then Some (false, set_id c1 t)
      else remove_uk_fields (h_uks (c_hdr c1)) fields (set_id c1 t)
  end.

Definition restore_record_indexes (c : Cache) (slot_id : Z) : option (bool * Cache) :=
  if negb (slot_is_active (c_slots c) slot_id) then Some (false, c)
  else
    '(row, c1) ← cache_row c slot_id;
    match (r ← row; get_row_index_key c1 r slot_id) with
    | None => Some (false, c1)
    | Some k =>
        '(rc, t) ← ix_insert (c_id c1) k slot_id;
        if negb (rc =? 1) then Some (false, set_id c1 t) else index_record_uks (set_id c1 t) slot_id
    end.

(** ** New rows *)

(** The slot of a new row was just activated: an entry left under its key by a row
    that is gone is removed first; [None] when the row is refused. *)
Definition claim_key (c : Cache) (index_key slot_id : Z) : option (bool * Cache) :=
  match ix_search (c_id c) index_key with
  | None => Some (true, c)
  | Some existing =>
      if negb (existing =? slot_id) && slot_is_active (c_slots c) existing then Some (false, c)
      else
        let '(rc, t) := ix_delete (c_id c) index_key in
        if negb (rc =? 0) then Some (true, set_id c t) else rebuild_id_index (set_id c t)
  end.

Definition give_up_slot (c : Cache) (slot_id : Z) : Cache := set_slots c (deactivate_slot (c_slots c) slot_id true).2.

Definition bump_auto_id (c : Cache) (id_value : Z) : Cache :=
  match h_pk (c_hdr c) with
  | Some _ => if next_auto_id c <=? id_value then set_next c (id_value + 1) (next_row_id c) else c
  | None => c
  end.

Definition append_record_csv_indexed (c : Cache) (row : cstr) (id_value row_offset : Z) : option (option Z * Cache) :=
  '(taken, s) ← append_record_csv (c_slots c) row (next_row_id c) row_offset;
  match taken with
  | None => Some (None, set_slots c s)
  | Some slot_id =>
      let c1 := set_next (set_slots c s) (next_auto_id c) (next_row_id c + 1) in
      let index_key := match h_pk (c_hdr c) with Some _ => id_value | None => next_row_id c end in
      '(ok, c2) ← claim_key c1 index_key slot_id;
      if negb (ok : bool) then Some (None, give_up_slot c2 slot_id)
      else
        '(rc, t) ← ix_insert (c_id c2) index_key slot_id;
        let c3 := set_id c2 t in
        if negb (rc =? 1) then Some (None, give_up_slot c3 slot_id)
        else
          '(ok4, c4) ← index_record_uks_from_row c3 row slot_id;
          Some (if (ok4 : bool) then (Some slot_id, bump_auto_id c4 id_value) else (None, give_up_slot c4 slot_id))
  end.

(** ** Logged changes *)

Inductive DeltaOp := DeltaUpdate (id : Z) (row : cstr) | DeltaDelete (id : Z).

Definition delta_id (op : DeltaOp) : Z := match op with DeltaUpdate id _ | DeltaDelete id => id end.

(** One round of [apply_delta_ops]. *)
Definition apply_delta_op (op : DeltaOp) (c : Cache) : option (bool * Cache) :=
  '(found, c1) ← find_record_index_by_key c (delta_id op);
  match found with
  | None => Some (true, c1)
  | Some i =>
      '(old_row, c2) ← cache_row c1 i;
      '(ok, c3) ← (match old_row with
                   | Some r => remove_record_indexes c2 i r
                   | None => Some (true, c2)
                   end);
      if negb (ok : bool) then Some (false, c3)
      else
        match op with
        | DeltaUpdate _ row =>
            let '(ok4, s) := replace_record_at (c_slots c3) i row in
            if negb ok4 then Some (false, c3) else restore_record_indexes (set_slots c3 s) i
        | DeltaDelete _ =>
            let '(ok4, s) := delete_record_at (c_slots c3) i in
            Some (ok4, set_slots c3 s)
        end
  end.

Fixpoint apply_delta_ops (ops : list DeltaOp) (c : Cache) : option (bool * Cache) :=
  match ops with
  | [] => Some (true, c)
  | op :: ops' =>
      '(ok, c1) ← apply_delta_op op c;
      if (ok : bool) then apply_delta_ops ops' c1 else Some (false, c1)
  end.
