(* ===== verification/LegacyIndexProofs.v ===== *)
(** The indexes of the stand-alone executor hold exactly the keys of the rows, and
    applying logged changes does what it does on the list of rows. *)

From Stdlib Require Import String.
From S2P Require Import Prelude CString BPTree BPTreeProofs BPTreeSpec BPTreeScan BPTreeString BPTreeIndex Parser Values Table InsertProofs Store.
From S2P Require Import LegacyRow LegacyRowProofs LegacyCache LegacyCacheProofs LegacyIndex.
From stdpp Require Import base numbers list sorting option.
Local Open Scope Z_scope.

(** ** What a tree promises to the tables *)

Class EditableIndexLaws (K T : Type) `{!KeyOrder K, !OrderedIndex K T, !EditableIndex K T} : Prop := {
  ix_delete_elems : ∀ (t : T) (key : K), ix_ok t → ix_valid key →
    ix_ok (ix_delete t key).2 ∧ ix_elems (ix_delete t key).2 = assoc_del key (ix_elems t) ∧
    (ix_delete t key).1 = match assoc_get key (ix_elems t) with Some _ => 1 | None => 0 end;
  ix_build_elems : ∀ (t : T) (ps : list (K * Z)), StronglySorted klt ps.*1 →
    ∃ t' : T, ix_build t ps = (true, t') ∧ ix_ok t' ∧ ix_elems t' = ps;
}.

#[global] Instance long_editable_laws : EditableIndexLaws Z (tree Z).
Proof.
  split; simpl.
  - intros t key Ht _. pose proof (delete_refines t key Ht) as H. by destruct (bptree_delete t key).
  - intros t ps Hs. by apply build_refines.
Qed.

#[global] Instance string_editable_laws : EditableIndexLaws cstr (tree cstr).
Proof.
  split; simpl.
  - intros t key Ht Hk. pose proof (delete_refines t key Ht) as H. destruct key as [|c key]; [done|]. simpl.
    by destruct (bptree_delete t (c :: key)).
  - intros t ps Hs. by apply string_build_refines.
Qed.

Section index_of.
Context {K T : Type} `{!KeyOrder K, !KeyOrderLaws K, !OrderedIndex K T, !OrderedIndexLaws K T, !EditableIndex K T,
  !EditableIndexLaws K T}.
Implicit Types (t : T) (f : Z → option K).

(** The tree holds the key of every slot that has one. *)
Definition index_of t f : Prop := ix_ok t ∧ ∀ k i, assoc_get k (ix_elems t) = Some i ↔ f i = Some k.

Lemma index_of_ext t f g : (∀ i, f i = g i) → index_of t f → index_of t g.
Proof using Type. intros E [H1 H2]. split; [done|]. intros k i. by rewrite <- E. Qed.

Lemma index_search t f k i : index_of t f → ix_search t k = Some i ↔ f i = Some k.
Proof using All. intros [H1 H2]. by rewrite ix_search_get. Qed.

Lemma index_search_None t f k : index_of t f → (∀ i, f i ≠ Some k) → ix_search t k = None.
Proof using All.
  intros Hi Hn. destruct (ix_search t k) as [i|] eqn:E; [|done]. apply (index_search t f) in E; [|done]. by destruct (Hn i).
Qed.

Lemma index_delete t f k i :
  index_of t f → ix_valid k → f i = Some k →
  (ix_delete t k).1 = 1 ∧ index_of (ix_delete t k).2 (fun j => if decide (j = i) then None else f j).
Proof using All.
  intros [Hok Hf] Hv Hi. pose proof (proj2 (Hf k i) Hi) as Hg.
  destruct (ix_delete_elems t k Hok Hv) as (Hok' & He & Hrc). rewrite Hg in Hrc. split; [done|]. split; [done|].
  intros k' j. pose proof (ix_sorted _ Hok') as Hs'. pose proof (ix_sorted _ Hok) as Hs.
  rewrite assoc_get_Some by done. rewrite He. unfold assoc_del.
  rewrite list_elem_of_In, filter_In, <- list_elem_of_In. simpl.
  rewrite <- (assoc_get_Some k' j (ix_elems t) Hs). rewrite Hf. rewrite negb_true_iff.
  destruct (decide (j = i)) as [->|Hne].
  - split; [|done]. intros [H1 H2]. rewrite Hi in H1. injection H1 as ->.
    assert (keqb k' k' = true) by by apply keqb_true. congruence.
  - split; [tauto|]. intros H. split; [done|]. destruct (keqb k' k) eqn:E; [|done]. apply keqb_true in E as ->.
    apply Hf in H. rewrite Hg in H. by injection H as ->.
Qed.

Lemma index_delete_None t f k : index_of t f → ix_valid k → (∀ i, f i ≠ Some k) → (ix_delete t k).1 = 0.
Proof using All.
  intros [Hok Hf] Hv Hn. destruct (ix_delete_elems t k Hok Hv) as (_ & _ & ->).
  destruct (assoc_get k (ix_elems t)) as [i|] eqn:E; [|done]. apply Hf in E. by destruct (Hn i).
Qed.

Lemma index_insert t f k i :
  index_of t f → ix_valid k → f i = None → (∀ j, f j ≠ Some k) →
  ∃ t', ix_insert t k i = Some (1, t') ∧ index_of t' (fun j => if decide (j = i) then Some k else f j).
Proof using All.
  intros [Hok Hf] Hv Hi Hn.
  assert (assoc_get k (ix_elems t) = None) as Hg.
  { destruct (assoc_get k (ix_elems t)) as [j|] eqn:E; [|done]. apply Hf in E. by destruct (Hn j). }
  destruct (ix_insert_new t k i Hok Hv Hg) as (t' & Ht' & Hok' & He). exists t'. split; [done|]. split; [done|].
  intros k' j. pose proof (ix_sorted _ Hok') as Hs'. pose proof (ix_sorted _ Hok) as Hs.
  rewrite assoc_get_Some by done. rewrite He, assoc_put_perm, elem_of_cons.
  rewrite <- (assoc_get_Some k' j (ix_elems t) Hs), Hf. destruct (decide (j = i)) as [->|Hne].
  - rewrite Hi. naive_solver.
  - naive_solver.
Qed.
End index_of.

(** ** A well-formed table *)

(** The row in slot [i]. *)
Definition at_slot (l : list (option cstr)) (i : Z) : option cstr := mjoin (if 0 <=? i then l !! Z.to_nat i else None).

Lemma at_slot_insert l i x j :
  0 ≤ i < Z.of_nat (length l) → at_slot (<[Z.to_nat i := x]> l) j = if decide (j = i) then x else at_slot l j.
Proof.
  intros Hi. unfold at_slot. destruct (decide (j = i)) as [->|Hne].
  - rewrite (proj2 (Z.leb_le 0 i)) by lia. by rewrite list_lookup_insert_eq by lia.
  - destruct (0 <=? j) eqn:E; [|done]. apply Z.leb_le in E. by rewrite list_lookup_insert_ne by lia.
Qed.

Lemma at_slot_bound l i r : at_slot l i = Some r → 0 ≤ i < Z.of_nat (length l).
Proof.
  unfold at_slot. destruct (0 <=? i) eqn:E; [|done]. apply Z.leb_le in E.
  destruct (l !! Z.to_nat i) eqn:El; [|done]. intros _. apply lookup_lt_Some in El. lia.
Qed.

Section table.
Context (h : Header) (p : nat) (Hpk : h_pk h = Some p) (Huks : NoDup (h_uks h)).

(** The keys of the row in a slot. *)
Definition id_key (l : list (option cstr)) (i : Z) : option Z := r ← at_slot l i; get_row_pk_value h r.

Definition uk_text (col : nat) (row : cstr) : cstr := normalize_value (field_at (parse_csv_row row) col) RECORD_SIZE.

Definition uk_key (col : nat) (l : list (option cstr)) (i : Z) : option cstr :=
  r ← at_slot l i; match uk_text col r with [] => None | k => Some k end.

(** The trees are those of the rows [l]. *)
Record trees_of (l : list (option cstr)) (t : tree Z) (ts : list (option (tree cstr))) : Prop := {
  tr_id : index_of t (id_key l);
  tr_keys : ∀ i r, at_slot l i = Some r → get_row_pk_value h r ≠ None;
  tr_length : length ts = length (h_uks h);
  tr_uks : ∀ k col, h_uks h !! k = Some col → ∃ u, ts !! k = Some (Some u) ∧ index_of u (uk_key col l);
}.

(** The table holds the rows [l] and its trees those of [l']. *)
Record table_at (c : Cache) (l l' : list (option cstr)) : Prop := {
  ta_hdr : c_hdr c = h;
  ta_file : ∃ f, c_file c = Some f ∧ store_ok (mkRowStore f (c_pages c) (c_slots c)) ∧ texts f (c_slots c) = l;
  ta_trees : trees_of l' (c_id c) (c_uks c);
}.

Definition table_ok (c : Cache) (l : list (option cstr)) : Prop := table_at c l l.

Lemma row_of_at_slot f s i : row_of f s i = at_slot (texts f s) i.
Proof. apply slot_text_row_of. Qed.

Lemma table_length c l l' : table_at c l l' → Z.of_nat (length l) = record_count (c_slots c).
Proof. intros [_ (f & _ & _ & <-) _]. unfold texts, record_count. by rewrite length_map. Qed.

Lemma slot_active_at c l l' i : table_at c l l' → slot_is_active (c_slots c) i = match at_slot l i with Some _ => true | None => false end.
Proof.
  intros [_ (f & _ & [Hs _ _] & <-) _]. rewrite <- row_of_at_slot. unfold row_of.
  destruct (slot_is_active (c_slots c) i) eqn:E; [|done]. apply slot_is_active_spec in E as [_ Ha].
  unfold slot_text. rewrite Ha. by destruct (s_row _).
Qed.

(** Reading a row changes nothing but the caches. *)
Lemma cache_row_at c l l' i :
  table_at c l l' →
  ∃ c', cache_row c i = Some (at_slot l i, c') ∧ table_at c' l l' ∧ c_id c' = c_id c ∧ c_uks c' = c_uks c ∧
    free_slots (c_slots c') = free_slots (c_slots c) ∧ length (slots (c_slots c')) = length (slots (c_slots c)) ∧
    next_auto_id c' = next_auto_id c.
Proof.
  intros [H1 (f & H2 & [Hs Hp He] & H3) H4]. unfold cache_row. rewrite H2.
  destruct (slot_row_ok f (c_pages c) (c_slots c) i Hs Hp He) as (pc & s & -> & Hs' & Hp' & Ht & Hf & Hl).
  rewrite row_of_at_slot. cbn [mbind option_bind]. cbn [rs_file rs_pages rs_slots] in *. rewrite H3 in *.
  eexists. split; [reflexivity|]. split; [|done]. split; [done| |done].
  exists f. split; [done|]. by split.
Qed.

Lemma row_key c row i : c_hdr c = h → get_row_index_key c row i = get_row_pk_value h row.
Proof. intros E. unfold get_row_index_key. by rewrite E, Hpk. Qed.

(** ** Finding the row of a key *)

Lemma find_scan_at n i id c l l' :
  table_at c l l' → (∀ j r, at_slot l j = Some r → get_row_pk_value h r ≠ Some id) →
  ∃ c', find_scan n i id c = Some (None, c') ∧ table_at c' l l' ∧ free_slots (c_slots c') = free_slots (c_slots c).
Proof using Hpk.
  intros Hc Hn. revert i c Hc; induction n as [|n IH]; intros i c Hc; cbn [find_scan]; [by exists c|].
  destruct (cache_row_at c l l' i Hc) as (c1 & -> & Hc1 & _ & _ & Hf & _). cbn [mbind option_bind].
  destruct (IH (i + 1) c1 Hc1) as (c2 & E2 & Hc2 & Hf2).
  exists c2. split; [|by rewrite Hf2]. destruct (at_slot l i) as [r|] eqn:Er; [|done].
  rewrite (row_key c1) by apply Hc1. by rewrite bool_decide_eq_false_2 by by eapply Hn.
Qed.

(** The slot of a key. *)
Definition key_slot (l : list (option cstr)) (id : Z) (i : Z) : Prop := id_key l i = Some id.

Lemma find_record_at c l id :
  table_ok c l →
  ∃ o c', find_record_index_by_key c id = Some (o, c') ∧ table_ok c' l ∧ free_slots (c_slots c') = free_slots (c_slots c) ∧
    match o with Some i => id_key l i = Some id | None => ∀ i, id_key l i ≠ Some id end.
Proof using Hpk.
  intros Hc. unfold find_record_index_by_key. pose proof (tr_id _ _ _ (ta_trees _ _ _ Hc)) as Hid.
  destruct (ix_search (c_id c) id) as [i|] eqn:E.
  - apply (index_search _ (id_key l)) in E; [|done]. rewrite (slot_active_at c l l i Hc).
    assert (∃ r, at_slot l i = Some r) as [r Hr].
    { unfold id_key in E. destruct (at_slot l i) as [r|]; [by exists r|done]. }
    rewrite Hr. by exists (Some i), c.
  - assert (∀ i, id_key l i ≠ Some id) as Hn.
    { intros i Hi. apply (index_search (c_id c) _ id i Hid) in Hi. congruence. }
    destruct (find_scan_at (length (slots (c_slots c))) 0 id c l l Hc) as (c' & -> & Hc' & Hf).
    { intros j r Hr Hk. apply (Hn j). unfold id_key. by rewrite Hr. }
    by exists None, c'.
Qed.

(** ** Taking a row out of the trees *)

Definition without (l : list (option cstr)) (i : Z) : list (option cstr) := <[Z.to_nat i := None]> l.

Lemma id_key_without l i j : 0 ≤ i < Z.of_nat (length l) → id_key (without l i) j = if decide (j = i) then None else id_key l j.
Proof. intros Hi. unfold id_key, without. rewrite at_slot_insert by done. by destruct (decide (j = i)). Qed.

Lemma uk_key_without col l i j :
  0 ≤ i < Z.of_nat (length l) → uk_key col (without l i) j = if decide (j = i) then None else uk_key col l j.
Proof. intros Hi. unfold uk_key, without. rewrite at_slot_insert by done. by destruct (decide (j = i)). Qed.

Lemma find_index_nodup k (l : list nat) (col : nat) (n : nat) :
  NoDup l → l !! k = Some col → find_index (Nat.eqb col) n l = Some (n + k)%nat.
Proof.
  intros Hnd. revert k n; induction Hnd as [|x l Hx Hnd IH]; intros [|k] n Hk; simpl in *; try done.
  - injection Hk as ->. by rewrite Nat.eqb_refl, Nat.add_0_r.
  - assert (col ≠ x) as Hne by (intros ->; apply Hx; by eapply list_elem_of_lookup_2).
    rewrite (proj2 (Nat.eqb_neq col x)) by done. rewrite (IH k (S n) Hk). f_equal. lia.
Qed.

Lemma get_uk_slot_at k col : h_uks h !! k = Some col → get_uk_slot h col = Some k.
Proof using Huks. intros Hk. unfold get_uk_slot. by rewrite (find_index_nodup k). Qed.

(** The trees of the unique columns, the first [n] of them after the row of slot [i]
    was taken out, or before slot [i] was put in. *)
Definition uks_upto (n : nat) (l' l : list (option cstr)) (ts : list (option (tree cstr))) : Prop :=
  length ts = length (h_uks h) ∧
  ∀ k col, h_uks h !! k = Some col →
    ∃ u, ts !! k = Some (Some u) ∧ index_of u (uk_key col (if (k <? n)%nat then l' else l)).

Lemma uks_upto_step n l' l ts col u :
  uks_upto n l' l ts → h_uks h !! n = Some col → index_of u (uk_key col l') → uks_upto (S n) l' l (<[n := Some u]> ts).
Proof.
  intros [Hl Hts] Hn Hu. split; [by rewrite length_insert|]. intros k col' Hk.
  destruct (decide (k = n)) as [->|Hne].
  - rewrite Hn in Hk. injection Hk as <-. exists u. rewrite list_lookup_insert_eq by (rewrite Hl; by eapply lookup_lt_Some).
    by rewrite (proj2 (Nat.ltb_lt n (S n))) by lia.
  - destruct (Hts k col' Hk) as (u' & Hu' & Hi). exists u'. rewrite list_lookup_insert_ne by done. split; [done|].
    assert ((k <? S n)%nat = (k <? n)%nat) as -> by (destruct (Nat.ltb_spec k (S n)), (Nat.ltb_spec k n); lia). done.
Qed.

Lemma uks_upto_skip n l' l ts col :
  uks_upto n l' l ts → h_uks h !! n = Some col → (∀ j, uk_key col l' j = uk_key col l j) → uks_upto (S n) l' l ts.
Proof.
  intros [Hl Hts] Hn He. split; [done|]. intros k col' Hk. destruct (Hts k col' Hk) as (u & Hu & Hi).
  exists u. split; [done|]. destruct (decide (k = n)) as [->|Hne].
  - rewrite Hn in Hk. injection Hk as <-. rewrite (proj2 (Nat.ltb_ge n n)) in Hi by lia.
    rewrite (proj2 (Nat.ltb_lt n (S n))) by lia. eapply index_of_ext; [|exact Hi]. intros j. by rewrite He.
  - assert ((k <? S n)%nat = (k <? n)%nat) as -> by (destruct (Nat.ltb_spec k (S n)), (Nat.ltb_spec k n); lia). done.
Qed.

Lemma remove_uk_fields_ok cols n c l i r :
  c_hdr c = h → at_slot l i = Some r → drop n (h_uks h) = cols → uks_upto n (without l i) l (c_uks c) →
  ∃ ts, remove_uk_fields cols (parse_csv_row r) c = Some (true, set_uks c ts) ∧ uks_upto (length (h_uks h)) (without l i) l ts.
Proof using Huks.
  revert n c; induction cols as [|col cols IH]; intros n c Hh Hr Hd Hu; cbn [remove_uk_fields].
  - exists (c_uks c). split; [by destruct c|]. assert (length (h_uks h) ≤ n)%nat as Hn.
    { apply (f_equal length) in Hd. rewrite length_drop in Hd. simpl in Hd. lia. }
    destruct Hu as [Hl Hts]. split; [done|]. intros k col Hk. destruct (Hts k col Hk) as (u & Hu & Hi). exists u. split; [done|].
    apply lookup_lt_Some in Hk. rewrite (proj2 (Nat.ltb_lt k n)) in Hi by lia. by rewrite (proj2 (Nat.ltb_lt k _)) by lia.
  - assert (h_uks h !! n = Some col) as Hn by (rewrite <- (Nat.add_0_r n), <- lookup_drop, Hd; done).
    assert (drop (S n) (h_uks h) = cols) as Hd' by (rewrite <- Nat.add_1_r, <- drop_drop, Hd; done).
    rewrite Hh, (get_uk_slot_at n col Hn). pose proof (at_slot_bound l i r Hr) as Hi.
    fold (uk_text col r). destruct (uk_text col r) as [|b key] eqn:Ek.
    + apply (IH (S n)); [done|done|done|]. apply (uks_upto_skip _ _ _ _ col); [done|done|].
      intros j. rewrite uk_key_without by done. destruct (decide (j = i)) as [->|]; [|done].
      unfold uk_key. rewrite Hr. simpl. by rewrite Ek.
    + destruct (proj2 Hu n col Hn) as (u & Hun & Hiu). rewrite (proj2 (Nat.ltb_ge n n)) in Hiu by lia.
      unfold uk_tree_at. rewrite Hun. cbn [mjoin option_join mbind option_bind].
      destruct (index_delete u (uk_key col l) (b :: key) i Hiu) as [Hrc Hiu'].
      { done. } { unfold uk_key. rewrite Hr. simpl. by rewrite Ek. }
      destruct (ix_delete u (b :: key)) as [rc u'] eqn:Ed. cbn [fst snd] in *. subst rc. cbn [Z.eqb].
      destruct (IH (S n) (set_uk c n u')) as (ts & E & Hts); [done|done|done| |].
      * apply (uks_upto_step _ _ _ _ col); [done|done|]. eapply index_of_ext; [|exact Hiu'].
        intros j. simpl. by rewrite uk_key_without.
      * exists ts. split; [|done]. by rewrite E.
Qed.

Lemma trees_of_uks l' l t ts :
  index_of t (id_key l') → (∀ i r, at_slot l' i = Some r → get_row_pk_value h r ≠ None) →
  uks_upto (length (h_uks h)) l' l ts → trees_of l' t ts.
Proof.
  intros H1 H2 [H3 H4]. split; [done|done|done|]. intros k col Hk. destruct (H4 k col Hk) as (u & Hu & Hi). exists u.
  split; [done|]. apply lookup_lt_Some in Hk. by rewrite (proj2 (Nat.ltb_lt k _)) in Hi by done.
Qed.

Lemma remove_record_indexes_ok c l0 l i r :
  table_at c l0 l → at_slot l i = Some r →
  ∃ c', remove_record_indexes c i r = Some (true, c') ∧ table_at c' l0 (without l i) ∧ c_slots c' = c_slots c.
Proof using Hpk Huks.
  intros [Hh (f & Hf & Hst & Htx) [Hid Hk Hl Hu]] Hr. unfold remove_record_indexes. rewrite Hh, Hpk.
  cbn [mbind option_bind]. pose proof (Hk i r Hr) as Hkr. pose proof (at_slot_bound l i r Hr) as Hi.
  unfold get_row_pk_value in Hkr. rewrite Hpk in Hkr.
  destruct (parse_long_value (field_at (parse_csv_row r) p)) as [k|] eqn:Ek; [|done].
  destruct (index_delete (c_id c) (id_key l) k i Hid I) as [Hrc Hid'].
  { unfold id_key. rewrite Hr. simpl. unfold get_row_pk_value. by rewrite Hpk. }
  destruct (ix_delete (c_id c) k) as [rc t] eqn:Ed. cbn [fst snd] in *. subst rc. cbn [Z.eqb].
  destruct (remove_uk_fields_ok (h_uks h) 0 (set_id c t) l i r Hh Hr (drop_0 _)) as (ts & E & Hts).
  { split; [done|]. intros n col Hn. destruct (Hu n col Hn) as (u & Hun & Hiu). by exists u. }
  change (c_hdr (set_id c t)) with (c_hdr c). rewrite Hh. eexists. split; [exact E|]. split; [|done]. split; [done|by exists f|]. simpl.
  apply (trees_of_uks _ l); [|  |exact Hts].
  - eapply index_of_ext; [|exact Hid']. intros j. simpl. by rewrite id_key_without.
  - intros j r' Hj. unfold without in Hj. rewrite at_slot_insert in Hj by done. destruct (decide (j = i)); [done|]. by eapply Hk.
Qed.

(** ** Putting a row into the trees *)

(** No other row has a key of [r], the row of slot [i]. *)
Definition fresh_keys (l : list (option cstr)) (i : Z) (r : cstr) : Prop :=
  ∀ j r', j ≠ i → at_slot l j = Some r' →
    get_row_pk_value h r' ≠ get_row_pk_value h r ∧
    Forall (fun col => uk_text col r = [] ∨ uk_text col r' ≠ uk_text col r) (h_uks h).

Lemma index_uk_fields_ok cols n c l i r :
  at_slot l i = Some r → fresh_keys l i r → drop n (h_uks h) = cols → uks_upto n l (without l i) (c_uks c) →
  ∃ ts, index_uk_fields cols n (parse_csv_row r) i c = Some (true, set_uks c ts) ∧ uks_upto (length (h_uks h)) l (without l i) ts.
Proof.
  revert n c; induction cols as [|col cols IH]; intros n c Hr Hfr Hd Hu; cbn [index_uk_fields].
  - exists (c_uks c). split; [by destruct c|]. assert (length (h_uks h) ≤ n)%nat as Hn.
    { apply (f_equal length) in Hd. rewrite length_drop in Hd. simpl in Hd. lia. }
    destruct Hu as [Hl Hts]. split; [done|]. intros k col Hk. destruct (Hts k col Hk) as (u & Hu & Hi). exists u. split; [done|].
    apply lookup_lt_Some in Hk. rewrite (proj2 (Nat.ltb_lt k n)) in Hi by lia. by rewrite (proj2 (Nat.ltb_lt k _)) by lia.
  - assert (h_uks h !! n = Some col) as Hn by (rewrite <- (Nat.add_0_r n), <- lookup_drop, Hd; done).
    assert (drop (S n) (h_uks h) = cols) as Hd' by (rewrite <- Nat.add_1_r, <- drop_drop, Hd; done).
    pose proof (at_slot_bound l i r Hr) as Hi. fold (uk_text col r). destruct (uk_text col r) as [|b key] eqn:Ek.
    + apply (IH (S n)); [done|done|done|]. apply (uks_upto_skip _ _ _ _ col); [done|done|].
      intros j. rewrite uk_key_without by done. destruct (decide (j = i)) as [->|]; [|done].
      unfold uk_key. rewrite Hr. simpl. by rewrite Ek.
    + destruct (proj2 Hu n col Hn) as (u & Hun & Hiu). rewrite (proj2 (Nat.ltb_ge n n)) in Hiu by lia.
      assert (∀ j, uk_key col (without l i) j ≠ Some (b :: key)) as Hno.
      { intros j. rewrite uk_key_without by done. destruct (decide (j = i)) as [|Hne]; [done|]. unfold uk_key.
        destruct (at_slot l j) as [r'|] eqn:Er'; [|done]. simpl. destruct (Hfr j r' Hne Er') as [_ Hf].
        rewrite Forall_forall in Hf. assert (col ∈ h_uks h) as Hin by (by eapply list_elem_of_lookup_2).
        destruct (Hf col ltac:(by apply list_elem_of_In)) as [H|H]; [congruence|].
        destruct (uk_text col r'); [done|]. intros [= <- <-]. by rewrite Ek in H. }
      unfold unique_index_insert, uk_insert, uk_tree_at. rewrite Hun. cbn [mjoin option_join mbind option_bind].
      rewrite (index_search_None u _ _ Hiu Hno).
      destruct (index_insert u _ (b :: key) i Hiu) as (u' & -> & Hiu').
      { done. } { rewrite uk_key_without by done. by rewrite decide_True. } { exact Hno. }
      cbn [mbind option_bind]. cbn [Z.eqb].
      destruct (IH (S n) (set_uk c n u')) as (ts & E & Hts); [done|done|done| |].
      * apply (uks_upto_step _ _ _ _ col); [done|done|]. eapply index_of_ext; [|exact Hiu'].
        intros j. simpl. rewrite uk_key_without by done. destruct (decide (j = i)) as [->|]; [|done].
        unfold uk_key. rewrite Hr. simpl. by rewrite Ek.
      * exists ts. split; [|done]. change (1 =? 1) with true. cbv iota. by rewrite E.
Qed.

(** A row that comes into the empty slot [i], with keys of its own, is taken by every tree. *)
Lemma index_new_row t0 us l0 l i r k :
  trees_of l0 t0 us → (∀ j, at_slot l0 j = at_slot (without l i) j) →
  at_slot l i = Some r → get_row_pk_value h r = Some k → fresh_keys l i r →
  ix_search t0 k = None ∧
  ∃ t, ix_insert t0 k i = Some (1, t) ∧
    ∀ c, c_uks c = us → ∃ ts, index_uk_fields (h_uks h) 0 (parse_csv_row r) i c = Some (true, set_uks c ts) ∧ trees_of l t ts.
Proof.
  intros [Hid Hk Hl Hu] Hl0 Hr Ek Hfr. pose proof (at_slot_bound l i r Hr) as Hi.
  assert (∀ j, id_key l0 j = if decide (j = i) then None else id_key l j) as Hid0.
  { intros j. rewrite <- (id_key_without l i) by done. unfold id_key. by rewrite Hl0. }
  assert (∀ j, id_key l0 j ≠ Some k) as Hno.
  { intros j. rewrite Hid0. destruct (decide (j = i)) as [|Hne]; [done|]. unfold id_key.
    destruct (at_slot l j) as [r'|] eqn:Er'; [|done]. simpl. destruct (Hfr j r' Hne Er') as [H _]. by rewrite Ek in H. }
  split; [by apply (index_search_None t0 _ _ Hid)|].
  destruct (index_insert t0 _ k i Hid) as (t & -> & Hid').
  { done. } { rewrite Hid0. by rewrite decide_True. } { exact Hno. }
  exists t. split; [done|]. intros c Hc.
  assert (uks_upto 0 l (without l i) (c_uks c)) as Hu0.
  { rewrite Hc. split; [done|]. intros n col Hn. destruct (Hu n col Hn) as (u & Hun & Hiu). exists u. split; [done|].
    eapply index_of_ext; [|exact Hiu]. intros j. unfold uk_key. by rewrite Hl0. }
  destruct (index_uk_fields_ok (h_uks h) 0 c l i r Hr Hfr (drop_0 _) Hu0) as (ts & E & Hts). exists ts. split; [done|].
  apply (trees_of_uks l (without l i)); [| |done].
  - eapply index_of_ext; [|exact Hid']. intros j. simpl. rewrite Hid0.
    destruct (decide (j = i)) as [->|]; [|done]. unfold id_key. rewrite Hr. simpl. by rewrite Ek.
  - intros j r' Hj. destruct (decide (j = i)) as [->|Hne]; [rewrite Hr in Hj; injection Hj as <-; by rewrite Ek|].
    apply (Hk j). rewrite Hl0. unfold without. rewrite at_slot_insert by done. by rewrite decide_False.
Qed.

Lemma restore_record_indexes_ok c l i r :
  table_at c l (without l i) → at_slot l i = Some r → get_row_pk_value h r ≠ None → fresh_keys l i r →
  ∃ c', restore_record_indexes c i = Some (true, c') ∧ table_ok c' l ∧ free_slots (c_slots c') = free_slots (c_slots c).
Proof using Hpk Huks.
  intros Hc Hr Hkr Hfr. unfold restore_record_indexes. rewrite (slot_active_at c _ _ i Hc), Hr. cbn [negb].
  destruct (cache_row_at c _ _ i Hc) as (c1 & -> & Hc1 & E1 & E2 & E3 & E4 & _). rewrite Hr. cbn [mbind option_bind].
  rewrite (row_key c1) by apply Hc1. destruct (get_row_pk_value h r) as [k|] eqn:Ek; [|done].
  destruct (index_new_row _ _ _ l i r k (ta_trees _ _ _ Hc1)) as (_ & t & -> & Hts); [done|done|done|done|].
  cbn [mbind option_bind]. change (negb (1 =? 1)) with false. cbv iota. unfold index_record_uks.
  assert (c_hdr (set_id c1 t) = h) as Hh by apply Hc1. rewrite Hh.
  destruct (Hts (set_id c1 t) eq_refl) as (ts0 & E0 & Hts0).
  destruct (h_uks h) as [|col cols] eqn:Euk.
  { exists (set_id c1 t). split; [done|]. split; [|done]. destruct Hc1 as [H1 H2 H3]. split; [done|done|].
    cbn in E0. by injection E0 as <-. }
  rewrite <- Euk in *.
  destruct Hc1 as [H1 (f & H2 & [Hs Hp He] & H3) H4]. unfold cache_row. change (c_file (set_id c1 t)) with (c_file c1).
  change (c_pages (set_id c1 t)) with (c_pages c1). change (c_slots (set_id c1 t)) with (c_slots c1). rewrite H2.
  destruct (slot_row_ok f (c_pages c1) (c_slots c1) i Hs Hp He) as (pc & s & -> & Hs' & Hp' & Ht & Hf & _).
  cbn [rs_file rs_pages rs_slots] in *. rewrite row_of_at_slot, H3, Hr. cbn [mbind option_bind].
  destruct (Hts (set_store (set_id c1 t) pc s) eq_refl) as (ts & -> & Htr). eexists. split; [reflexivity|]. split.
  - split; [done| |done]. exists f. split; [done|]. split; [by split|]. simpl. by rewrite Ht.
  - simpl. by rewrite Hf, E3.
Qed.

(** ** Logged changes *)

(** The first slot whose row has the key [id]. *)
Definition find_key (id : Z) (l : list (option cstr)) : option nat :=
  find_index (fun o => match o with Some r => bool_decide (get_row_pk_value h r = Some id) | None => false end) 0 l.

(** A logged change, on the rows. *)
Definition delta_rows (op : DeltaOp) (l : list (option cstr)) : list (option cstr) :=
  match find_key (delta_id op) l with
  | None => l
  | Some i => <[i := match op with DeltaUpdate _ row => Some row | DeltaDelete _ => None end]> l
  end.

(** An update keeps the key of its row and takes no unique value of another row. *)
Definition delta_valid (op : DeltaOp) (l : list (option cstr)) : Prop :=
  match op with
  | DeltaUpdate id row =>
      get_row_pk_value h row = Some id ∧
      Forall (fun o => match o with
                       | Some r' => get_row_pk_value h r' = Some id ∨
                           Forall (fun col => uk_text col row = [] ∨ uk_text col r' ≠ uk_text col row) (h_uks h)
                       | None => True
                       end) l
  | DeltaDelete _ => True
  end.

(** Keys are unique in a well-formed table. *)
Lemma id_key_inj c l i j k : table_ok c l → id_key l i = Some k → id_key l j = Some k → i = j.
Proof.
  intros Hc Hi Hj. destruct (tr_id _ _ _ (ta_trees _ _ _ Hc)) as [_ Hf].
  apply Hf in Hi, Hj. rewrite Hi in Hj. by injection Hj.
Qed.

Lemma find_key_at l id i : id_key l i = Some id → (∀ j, id_key l j = Some id → j = i) → find_key id l = Some (Z.to_nat i).
Proof.
  intros Hi Hone. assert (∃ r, at_slot l i = Some r ∧ get_row_pk_value h r = Some id) as (r & Hr & Hk).
  { unfold id_key in Hi. destruct (at_slot l i) as [r|] eqn:E; [|done]. by exists r. }
  pose proof (at_slot_bound l i r Hr) as Hb.
  assert (l !! Z.to_nat i = Some (Some r)) as Hl.
  { unfold at_slot in Hr. rewrite (proj2 (Z.leb_le 0 i)) in Hr by lia. destruct (l !! Z.to_nat i) as [[r'|]|]; simpl in Hr; congruence. }
  unfold find_key. destruct (find_index _ 0 l) as [n|] eqn:E.
  - apply find_index_Some in E as (o & _ & Ho & Hp). rewrite Nat.sub_0_r in Ho. destruct o as [r'|]; [|done].
    apply bool_decide_eq_true in Hp. f_equal. assert (Z.of_nat n = i) as <-; [|lia]. apply Hone.
    unfold id_key, at_slot. rewrite (proj2 (Z.leb_le 0 _)) by lia. by rewrite Nat2Z.id, Ho.
  - apply find_index_None in E. pose proof (Forall_lookup_1 _ _ _ _ E Hl) as Hf. simpl in Hf. by rewrite bool_decide_eq_true_2 in Hf.
Qed.

Lemma find_key_spec c l id i : table_ok c l → id_key l i = Some id → find_key id l = Some (Z.to_nat i).
Proof. intros Hc Hi. apply find_key_at; [done|]. intros j Hj. exact (id_key_inj c l j i id Hc Hj Hi). Qed.

Lemma find_key_none l id : (∀ i, id_key l i ≠ Some id) → find_key id l = None.
Proof.
  intros Hn. unfold find_key. destruct (find_index _ 0 l) as [n|] eqn:E; [|done].
  apply find_index_Some in E as (o & _ & Ho & Hp). rewrite Nat.sub_0_r in Ho. destruct o as [r|]; [|done].
  apply bool_decide_eq_true in Hp. destruct (Hn (Z.of_nat n)). unfold id_key, at_slot.
  rewrite (proj2 (Z.leb_le 0 _)) by lia. by rewrite Nat2Z.id, Ho.
Qed.

Lemma spec_row_at_slot l fr i : spec_row (mkRowSpec l fr) i = at_slot l i.
Proof. done. Qed.

Lemma apply_delta_op_ok c l op :
  table_ok c l → delta_valid op l → ∃ c', apply_delta_op op c = Some (true, c') ∧ table_ok c' (delta_rows op l).
Proof using Hpk Huks.
  intros Hc Hv. unfold apply_delta_op, delta_rows.
  destruct (find_record_at c l (delta_id op) Hc) as (o & c1 & -> & Hc1 & _ & Ho). cbn [mbind option_bind].
  destruct o as [i|]; [|rewrite find_key_none by done; by exists c1].
  rewrite (find_key_spec c1 l _ i Hc1 Ho).
  assert (∃ r, at_slot l i = Some r ∧ get_row_pk_value h r = Some (delta_id op)) as (r & Hr & Hk).
  { unfold id_key in Ho. destruct (at_slot l i) as [r|] eqn:E; [|done]. by exists r. }
  pose proof (at_slot_bound l i r Hr) as Hi.
  destruct (cache_row_at c1 l l i Hc1) as (c2 & -> & Hc2 & _). rewrite Hr. cbn [mbind option_bind].
  destruct (remove_record_indexes_ok c2 l l i r Hc2 Hr) as (c3 & -> & Hc3 & Hs3). cbn [mbind option_bind negb].
  pose proof Hc3 as [Hh (f & Hf & [Hs Hp He] & Htx) Htr]. cbn [rs_file rs_pages rs_slots] in *.
  assert (record_count (c_slots c3) = Z.of_nat (length l)) as Hrc by (by rewrite (table_length c3 l (without l i))).
  assert (at_slot (texts f (c_slots c3)) i = Some r) as Hr3 by by rewrite Htx.
  destruct op as [id row|id].
  - pose proof (replace_ok f (c_slots c3) i row Hs) as Hrep. destruct (replace_record_at (c_slots c3) i row) as [ok s].
    destruct Hrep as [Hs' Hsp]. cbn [spec_op] in Hsp. rewrite spec_row_at_slot, Hr3 in Hsp. injection Hsp as <- Ht' Hfr'.
    cbn [negb]. simpl in Ht'. rewrite Htx in Ht'. set (l2 := <[Z.to_nat i := Some row]> l).
    assert (without l2 i = without l i) as Hwo by (unfold without, l2; apply list_insert_insert_eq).
    destruct Hv as [Hkr Hv]. simpl in Hk.
    destruct (restore_record_indexes_ok (set_slots c3 s) l2 i row) as (c4 & E4 & Hc4 & _).
    + split; [done| |by rewrite Hwo]. exists f. split; [done|]. split; [by split|]. simpl. by rewrite <- Ht'.
    + unfold l2. rewrite at_slot_insert by done. by rewrite decide_True.
    + by rewrite Hkr.
    + intros j r' Hne Hj. unfold l2 in Hj. rewrite at_slot_insert in Hj by done. rewrite decide_False in Hj by done.
      assert (get_row_pk_value h r' ≠ Some id) as Hd.
      { intros Hd. apply Hne. apply (id_key_inj c1 l _ _ id Hc1); unfold id_key; [by rewrite Hj|by rewrite Hr]. }
      split; [by rewrite Hkr|]. rewrite Forall_forall in Hv.
      assert (Some r' ∈ l) as Hin.
      { unfold at_slot in Hj. destruct (0 <=? j); [|done]. destruct (l !! Z.to_nat j) as [[x|]|] eqn:E; simpl in Hj; try done.
        injection Hj as ->. by eapply list_elem_of_lookup_2. }
      by destruct (Hv (Some r') ltac:(by apply list_elem_of_In)).
    + by exists c4.
  - pose proof (delete_ok f (c_slots c3) i Hs) as Hdel. destruct (delete_record_at (c_slots c3) i) as [ok s].
    destruct Hdel as [Hs' Hsp]. cbn [spec_op] in Hsp. rewrite spec_row_at_slot, Hr3 in Hsp. injection Hsp as <- Ht' Hfr'.
    simpl in Ht'. rewrite Htx in Ht'. eexists. split; [reflexivity|]. fold (without l i). split; [done| |done].
    exists f. split; [done|]. split; [by split|]. simpl. by rewrite <- Ht'.
Qed.

Fixpoint delta_rows_all (ops : list DeltaOp) (l : list (option cstr)) : list (option cstr) :=
  match ops with
  | [] => l
  | op :: ops' => delta_rows_all ops' (delta_rows op l)
  end.

Fixpoint delta_valid_all (ops : list DeltaOp) (l : list (option cstr)) : Prop :=
  match ops with
  | [] => True
  | op :: ops' => delta_valid op l ∧ delta_valid_all ops' (delta_rows op l)
  end.

Lemma apply_delta_ops_ok ops c l :
  table_ok c l → delta_valid_all ops l →
  ∃ c', apply_delta_ops ops c = Some (true, c') ∧ table_ok c' (delta_rows_all ops l).
Proof using Hpk Huks.
  revert c l; induction ops as [|op ops IH]; intros c l Hc Hv; [by exists c|]. destruct Hv as [Hv Hvs].
  destruct (apply_delta_op_ok c l op Hc Hv) as (c1 & E1 & Hc1). destruct (IH c1 _ Hc1 Hvs) as (c2 & E2 & Hc2).
  exists c2. cbn [apply_delta_ops]. rewrite E1. cbn [mbind option_bind]. by rewrite E2.
Qed.
End table.
