(* ===== verification/DeltaLog.v ===== *)
(** The delta log of the stand-alone executor, [src/legacy/executor.c]: how changes
    are appended to [<table>.delta] and how they are replayed when a table is
    loaded. *)

From Stdlib Require Import String.
From S2P Require Import Prelude CString BPTree BPTreeIndex Parser Values Table Store LegacyRow LegacyCache LegacyIndex.
From stdpp Require Import base numbers list option.
Local Open Scope Z_scope.

Definition TAB : Z := 9.
Definition DELTA_LINE_SIZE : nat := RECORD_SIZE + 128.
Definition DELTA_COMPACT_CHECK_INTERVAL : Z := 4096.
Definition DELTA_COMPACT_BYTES : Z := 256 * 1024 * 1024.

(** ** Writing *)

(** The log file: [None] when there is none. [log_text] is what was written to it,
    of which [log_flushed] bytes are known to be on the disk; the other fields are
    those of [TableCache]. *)
Record Delta := mkDelta {
  log_text : option cstr;
  log_flushed : nat;
  delta_file : bool;
  delta_batch_open : bool;
  delta_ops_since_compact_check : Z;
  delta_bytes_since_compact : Z;
}.

Definition delta_log_exists (d : Delta) : bool := match log_text d with Some _ => true | None => false end.

(** [fopen(filename, "a")], when it succeeds. *)
Definition get_delta_writer (d : Delta) : Delta :=
  if delta_file d then d
  else mkDelta (Some (default [] (log_text d))) (length (default [] (log_text d))) true (delta_batch_open d)
         (delta_ops_since_compact_check d) (delta_bytes_since_compact d).

(** [fprintf] to the log, with [track_delta_write]. *)
Definition track_delta_write (d : Delta) (text : cstr) : Delta :=
  mkDelta (Some (default [] (log_text d) ++ text)) (log_flushed d) (delta_file d) (delta_batch_open d)
    (delta_ops_since_compact_check d) (delta_bytes_since_compact d + Z.of_nat (length text)).

Definition set_batch_open (d : Delta) (b : bool) : Delta :=
  mkDelta (log_text d) (log_flushed d) (delta_file d) b (delta_ops_since_compact_check d) (delta_bytes_since_compact d).

Definition flush_log (d : Delta) : Delta :=
  mkDelta (log_text d) (length (default [] (log_text d))) (delta_file d) (delta_batch_open d)
    (delta_ops_since_compact_check d) (delta_bytes_since_compact d).

(** [io] says which of the writes of a call succeed. *)
Definition begin_delta_batch (io : nat → bool) (d : Delta) : bool * Delta :=
  if delta_batch_open d then (true, d)
  else
    let d1 := get_delta_writer d in
    if io 0%nat then (true, set_batch_open (track_delta_write d1 [66; NL]) true) else (false, d1).

Definition close_delta_batch (io : nat → bool) (d : Delta) : bool * Delta :=
  if negb (delta_file d) || negb (delta_batch_open d) then (true, d)
  else if io 0%nat then
    let d1 := set_batch_open (track_delta_write d [69; NL]) false in
    if io 1%nat then (true, flush_log d1) else (false, d1)
  else (false, d).

Definition clear_delta_log (io : nat → bool) (d : Delta) : Delta := mkDelta None 0 false false 0 0.

(** [U\t%ld\t%s\n] and [D\t%ld\n]. *)
Definition op_line (op : DeltaOp) : cstr :=
  match op with
  | DeltaUpdate id row => 85 :: TAB :: print_Z id ++ TAB :: row
  | DeltaDelete id => 68 :: TAB :: print_Z id
  end.

(** [append_delta_update_key] and [append_delta_delete_key]. *)
Definition append_delta_key (io : nat → bool) (op : DeltaOp) (d : Delta) : bool * Delta :=
  let d1 := get_delta_writer d in
  match begin_delta_batch io d1 with
  | (false, d2) => (false, d2)
  | (true, d2) => if io 1%nat then (true, track_delta_write d2 (op_line op ++ [NL])) else (false, d2)
  end.

Definition append_delta_update_slot (io : nat → bool) (c : Cache) (slot_id : Z) (new_record : cstr) (d : Delta) : bool * Delta :=
  if negb (slot_is_active (c_slots c) slot_id) then (false, d)
  else match get_row_index_key c new_record slot_id with
       | None => (false, d)
       | Some id => append_delta_key io (DeltaUpdate id new_record) d
       end.

Definition append_delta_delete_slot (io : nat → bool) (c : Cache) (slot_id : Z) (old_record : cstr) (d : Delta) : bool * Delta :=
  if (slot_id <? 0) || (record_count (c_slots c) <=? slot_id) then (false, d)
  else match get_row_index_key c old_record slot_id with
       | None => (false, d)
       | Some id => append_delta_key io (DeltaDelete id) d
       end.

(** The lines of a loop, the batch being open; writes [k], [k + 1], ... *)
Fixpoint append_lines (io : nat → bool) (k : nat) (ops : list (option DeltaOp)) (d : Delta) : bool * Delta :=
  match ops with
  | [] => (true, d)
  | None :: _ => (false, d)
  | Some op :: ops' => if io k then append_lines io (S k) ops' (track_delta_write d (op_line op ++ [NL])) else (false, d)
  end.

(** The loops of [append_delta_updates] and [append_delta_deletes] over the slots
    that changed, with the row each is logged with; a row without a key ends them. *)
Definition append_delta_changes (io : nat → bool) (ops : list (option DeltaOp)) (d : Delta) : bool * Delta :=
  match begin_delta_batch io (get_delta_writer d) with
  | (false, d1) => (false, d1)
  | (true, d1) => append_lines io 1 ops d1
  end.

Definition append_delta_updates (io : nat → bool) (c : Cache) (changed : list (Z * cstr)) (d : Delta) : bool * Delta :=
  append_delta_changes io (map (fun p => (fun id => DeltaUpdate id p.2) <$> get_row_index_key c p.2 p.1)
    (List.filter (fun p => slot_is_active (c_slots c) p.1) changed)) d.

Definition append_delta_deletes (io : nat → bool) (c : Cache) (removed : list (Z * cstr)) (d : Delta) : bool * Delta :=
  append_delta_changes io (map (fun p => DeltaDelete <$> get_row_index_key c p.2 p.1) removed) d.

(** The part of [maybe_compact_delta_log] before [rewrite_file]: is it time? *)
Definition compaction_due (io : nat → bool) (truncated : bool) (d : Delta) : bool * Delta :=
  if truncated then (false, d)
  else
    let n := delta_ops_since_compact_check d + 1 in
    let reset k := mkDelta (log_text d) (log_flushed d) (delta_file d) (delta_batch_open d) k (delta_bytes_since_compact d) in
    if n <? DELTA_COMPACT_CHECK_INTERVAL then (false, reset n)
    else if delta_bytes_since_compact d <? DELTA_COMPACT_BYTES then (false, reset 0)
    else
      match close_delta_batch io (reset 0) with
      | (false, d1) => (false, d1)
      | (true, d1) => (DELTA_COMPACT_BYTES <=? Z.of_nat (length (default [] (log_text d1))), d1)
      end.

(** ** Reading *)

(** No line end. *)
Definition line_end_free (c : Z) : bool := negb (c =? NL) && negb (c =? CR).

(** A line, without its end. *)
Definition parse_delta_line (line : cstr) : option DeltaOp :=
  match line with
  | c :: t :: rest =>
      if (c =? 85) && (t =? TAB) then
        k ← strchr rest TAB;
        id ← parse_long_value (take k rest);
        Some (DeltaUpdate id (drop (S k) rest))
      else if (c =? 68) && (t =? TAB) then id ← parse_long_value rest; Some (DeltaDelete id)
      else None
  | _ => None
  end.

Section replay.
(** What applying a batch does: success, and the table. *)
Context {T : Type} (apply : list DeltaOp → T → option (bool * T)).

(** The loop of [replay_delta_log]: the batch being read, [None] outside one. Every
    round reads at least one character. *)
Fixpoint replay (fuel : nat) (batch : option (list DeltaOp)) (text : cstr) (c : T) : option (bool * T) :=
  match text with
  | [] => Some (true, c)
  | _ =>
      match fuel with
      | O => None
      | S f =>
          let '(line, rest) := fgets (DELTA_LINE_SIZE - 1) text in
          if forallb line_end_free line && (length line =? DELTA_LINE_SIZE - 1)%nat then Some (false, c)
          else
            let line := cut_nl line in
            if streq line [66] then replay f (Some []) rest c
            else if streq line [69] then
              match batch with
              | None => replay f None rest c
              | Some ops =>
                  '(ok, c1) ← apply ops c;
                  if (ok : bool) then replay f None rest c1 else Some (false, c1)
              end
            else
              match batch with
              | None => replay f None rest c
              | Some ops =>
                  replay f (Some (match parse_delta_line line with Some op => ops ++ [op] | None => ops end)) rest c
              end
      end
  end.
End replay.

Definition replay_delta_log (log : option cstr) (c : Cache) : option (bool * Cache) :=
  match log with
  | None => Some (true, c)
  | Some text => replay apply_delta_ops (length text) None text c
  end.
