(* ===== verification/DeltaLogProofs.v ===== *)
(** Recovery of the stand-alone executor: after a crash the delta log gives back the
    changes of the batches that were closed, and nothing of the one that was not. The
    lines of the log and their replay; then the abstract log of batches, the writers of
    [DeltaLog] as its implementation, and what a crash at any byte leaves. *)

From Stdlib Require Import String.
From S2P Require Import Prelude CString BPTree BPTreeProofs BPTreeSpec BPTreeIndex Parser Values Table Store StoreProofs.
From S2P Require Import LegacyRow LegacyRowProofs LegacyCache LegacyCacheProofs LegacyIndex LegacyIndexProofs DeltaLog.
From stdpp Require Import base numbers list sorting option.
Local Open Scope Z_scope.

(** ** Lines of the log *)

(** A change that fits a line of the log. *)
Definition op_ok (op : DeltaOp) : Prop :=
  LONG_MIN ≤ delta_id op ≤ LONG_MAX ∧
  match op with
  | DeltaUpdate _ row => forallb line_char row = true ∧ (length row < RECORD_SIZE)%nat
  | DeltaDelete _ => True
  end.

#[global] Instance op_ok_dec op : Decision (op_ok op).
Proof. destruct op; unfold op_ok; apply _. Defined.

(** A batch in the log: its start, its changes, its end. *)
Definition op_lines (ops : list DeltaOp) : cstr := concat (map (fun op => op_line op ++ [NL]) ops).
Definition batch_tail (ops : list DeltaOp) : cstr := op_lines ops ++ [69; NL].
Definition batch_text (ops : list DeltaOp) : cstr := [66; NL] ++ batch_tail ops.

Lemma print_pos_digits fuel n acc : 0 ≤ n → forallb isdigit acc = true → forallb isdigit (print_pos fuel n acc) = true.
Proof.
  revert n acc; induction fuel as [|fuel IH]; intros n acc Hn Ha; simpl; [done|].
  assert (isdigit (48 + n mod 10) = true) as Hd by (apply isdigit_range; pose proof (Z.mod_pos_bound n 10); lia).
  case_if; [simpl; by rewrite Hd|]. apply IH; [apply Z.div_pos; lia|]. simpl. by rewrite Hd.
Qed.

(** A digit or a minus sign. *)
Definition num_char (c : Z) : bool := isdigit c || (c =? 45).

Lemma print_Z_chars n : forallb num_char (print_Z n) = true.
Proof.
  assert (∀ s, forallb isdigit s = true → forallb num_char s = true) as H.
  { intros s Hs. apply forallb_forall. intros c Hc. rewrite forallb_forall in Hs. unfold num_char. by rewrite Hs. }
  unfold print_Z. destruct (n <? 0) eqn:E; bool_to_prop.
  - cbn [forallb]. rewrite H; [done|]. apply print_pos_digits; [lia|done].
  - apply H, print_pos_digits; [lia|done].
Qed.

Lemma num_char_spec c : num_char c = true → c ≠ TAB ∧ line_char c = true.
Proof.
  unfold num_char, line_char. intros [H|H]%orb_true_iff.
  - apply isdigit_range in H. unfold TAB, NL, CR. split; [lia|]. rewrite !(proj2 (Z.eqb_neq _ _)) by lia. done.
  - apply Z.eqb_eq in H as ->. done.
Qed.

Lemma print_Z_line n : forallb line_char (print_Z n) = true ∧ strchr (print_Z n) TAB = None.
Proof.
  pose proof (print_Z_chars n) as H. rewrite forallb_forall in H. split.
  - apply forallb_forall. intros c Hc. by apply num_char_spec, H.
  - apply strchr_None, Forall_forall. intros c Hc. by apply num_char_spec, H.
Qed.

Lemma op_line_ok op : op_ok op → forallb line_char (op_line op) = true ∧ (length (op_line op) < DELTA_LINE_SIZE - 1)%nat.
Proof.
  intros [Hid Hop]. pose proof (print_Z_length _ Hid) as Hl. destruct (print_Z_line (delta_id op)) as [Hc _].
  destruct op as [id row|id]; cbn [delta_id op_line] in *; unfold DELTA_LINE_SIZE, RECORD_SIZE in *.
  - destruct Hop as [Hr Hrl]. split; [|simpl; rewrite length_app; simpl; lia].
    simpl. rewrite forallb_app, Hc. simpl. done.
  - split; [simpl; done|simpl; lia].
Qed.

Lemma parse_op_line op : op_ok op → parse_delta_line (op_line op) = Some op.
Proof.
  intros [Hid Hop]. destruct (print_Z_line (delta_id op)) as [_ Ht].
  destruct op as [id row|id]; cbn [delta_id op_line parse_delta_line] in *.
  - rewrite !Z.eqb_refl. cbn [andb]. rewrite strchr_app_None by done. cbn [strchr]. rewrite Z.eqb_refl.
    cbn [fmap option_fmap option_map mbind option_bind]. rewrite Nat.add_0_r, take_app_length.
    rewrite parse_long_print by done. cbn [mbind option_bind].
    f_equal. f_equal. replace (S (length (print_Z id))) with (length (print_Z id) + 1)%nat by lia.
    rewrite <- drop_drop, drop_app_length. done.
  - cbn [Z.eqb andb]. rewrite parse_long_print by done. done.
Qed.

(** ** Replaying *)

Section replay.
Context {T : Type} (apply : list DeltaOp → T → option (bool * T)).

(** What one line does. *)
Definition line_step (f : nat) (batch : option (list DeltaOp)) (line rest : cstr) (c : T) : option (bool * T) :=
  if streq line [66] then replay apply f (Some []) rest c
  else if streq line [69] then
    match batch with
    | None => replay apply f None rest c
    | Some ops => '(ok, c1) ← apply ops c; if (ok : bool) then replay apply f None rest c1 else Some (false, c1)
    end
  else
    match batch with
    | None => replay apply f None rest c
    | Some ops => replay apply f (Some (match parse_delta_line line with Some op => ops ++ [op] | None => ops end)) rest c
    end.

Lemma replay_line f batch l rest c :
  forallb line_char l = true → (length l < DELTA_LINE_SIZE - 1)%nat →
  replay apply (S f) batch (l ++ NL :: rest) c = line_step f batch l rest c.
Proof.
  intros Hl Hn. unfold line_step. destruct (l ++ NL :: rest) as [|x s] eqn:E; [by destruct l|]. cbn [replay]. rewrite <- E.
  rewrite fgets_line by done.
  assert (forallb line_end_free (l ++ [NL]) = false) as ->.
  { rewrite forallb_app. simpl. by rewrite andb_false_r. }
  cbn [andb]. by rewrite cut_nl_line.
Qed.

Lemma fgets_whole n s : forallb line_char s = true → (length s < n)%nat → fgets n s = (s, []).
Proof.
  revert n; induction s as [|c s IH]; intros [|n] Hs Hn; simpl in *; try lia; try done.
  apply andb_true_iff in Hs as [Hc Hs]. unfold line_char in Hc. apply andb_true_iff in Hc as [Hc%negb_true_iff _].
  rewrite Hc, IH; [done|done|lia].
Qed.

Lemma cut_nl_whole s : forallb line_char s = true → cut_nl s = s.
Proof.
  induction s as [|c s IH]; simpl; [done|]. intros [Hc Hs]%andb_true_iff. unfold line_char in Hc.
  apply andb_true_iff in Hc as [H1%negb_true_iff H2%negb_true_iff]. rewrite H1, H2. simpl. by rewrite IH.
Qed.

(** A last line without its end. *)
Lemma replay_torn f batch l c :
  l ≠ [] → forallb line_char l = true → (length l < DELTA_LINE_SIZE - 1)%nat →
  replay apply (S f) batch l c = line_step f batch l [] c.
Proof.
  intros Hne Hl Hn. unfold line_step. destruct l as [|x s] eqn:E; [done|]. cbn [replay]. rewrite <- E in *.
  rewrite fgets_whole by done. rewrite (proj2 (Nat.eqb_neq _ _)) by lia. rewrite andb_false_r. by rewrite cut_nl_whole.
Qed.

Lemma replay_nil f batch c : replay apply f batch [] c = Some (true, c).
Proof. by destruct f. Qed.

(** The batches one after the other, until one fails. *)
Fixpoint apply_batches (bs : list (list DeltaOp)) (c : T) : option (bool * T) :=
  match bs with
  | [] => Some (true, c)
  | b :: bs' => '(ok, c1) ← apply b c; if (ok : bool) then apply_batches bs' c1 else Some (false, c1)
  end.

Lemma op_line_tag op : ∃ c s, op_line op = c :: TAB :: s ∧ (c = 85 ∨ c = 68).
Proof. destruct op; simpl; eexists _, _; (split; [reflexivity|auto]). Qed.

(** A line of a change, or a beginning of one, opens and closes no batch. *)
Lemma op_prefix_step f acc op k rest c :
  (0 < k)%nat →
  line_step f (Some acc) (take k (op_line op)) rest c =
    replay apply f (Some (match parse_delta_line (take k (op_line op)) with Some op => acc ++ [op] | None => acc end)) rest c.
Proof.
  intros Hk. unfold line_step. destruct (op_line_tag op) as (x & s & -> & Hx). destruct k as [|k]; [lia|].
  change (take (S k) (x :: TAB :: s)) with (x :: take k (TAB :: s)).
  assert (streq (x :: take k (TAB :: s)) [66] = false) as -> by (apply streq_false; destruct Hx as [->| ->]; done).
  assert (streq (x :: take k (TAB :: s)) [69] = false) as -> by (apply streq_false; destruct Hx as [->| ->]; done).
  done.
Qed.

Lemma forallb_take {A} (P : A → bool) n l : forallb P l = true → forallb P (take n l) = true.
Proof. revert n; induction l; intros [|n]; simpl; auto. intros [H1 H2]%andb_true_iff. by rewrite H1, IHl. Qed.

Lemma replay_op f acc op rest c :
  op_ok op → replay apply (S f) (Some acc) ((op_line op ++ [NL]) ++ rest) c = replay apply f (Some (acc ++ [op])) rest c.
Proof.
  intros Hop. destruct (op_line_ok op Hop) as [Hl Hn]. rewrite <- app_assoc. change ([NL] ++ rest) with (NL :: rest).
  rewrite replay_line by done.
  pose proof (op_prefix_step f acc op (length (op_line op)) rest c) as H. rewrite take_ge in H by lia.
  rewrite H, parse_op_line; [done|done|]. destruct (op_line_tag op) as (x & s & -> & _). simpl. lia.
Qed.

Lemma replay_ops f acc ops rest c :
  Forall op_ok ops →
  replay apply (length ops + f) (Some acc) (op_lines ops ++ rest) c =
    replay apply f (Some (acc ++ ops)) rest c.
Proof.
  intros H. revert acc; induction H as [|op ops Hop Hops IH]; intros acc; [simpl; by rewrite app_nil_r|].
  unfold op_lines in *. cbn [length map concat Nat.add]. rewrite <- app_assoc, replay_op, IH by done. by rewrite <- app_assoc.
Qed.

Lemma replay_batch f batch ops rest c :
  Forall op_ok ops →
  replay apply (S (length ops + S f)) batch (batch_text ops ++ rest) c =
    ('(ok, c1) ← apply ops c; if (ok : bool) then replay apply f None rest c1 else Some (false, c1)).
Proof.
  intros Hops. unfold batch_text, batch_tail. rewrite <- !app_assoc.
  change ([66; NL] ++ ?x) with ([66] ++ NL :: x). rewrite replay_line by (done || (unfold DELTA_LINE_SIZE, RECORD_SIZE; simpl; lia)).
  unfold line_step at 1. change (streq [66] [66]) with true. cbv iota. rewrite replay_ops by done.
  change ([69; NL] ++ rest) with ([69] ++ NL :: rest). rewrite replay_line by (done || (unfold DELTA_LINE_SIZE, RECORD_SIZE; simpl; lia)).
  done.
Qed.

(** What was written of a batch that was not closed is not applied. *)
Lemma replay_open f acc ops k c :
  Forall op_ok ops → (length ops < f)%nat →
  (k < length (batch_tail ops) - 1)%nat →
  replay apply f (Some acc) (take k (batch_tail ops)) c = Some (true, c).
Proof.
  intros H. revert acc k f; induction H as [|op ops Hop Hops IH]; intros acc k f Hf Hk.
  { simpl in *. assert (k = 0)%nat as -> by lia. apply replay_nil. }
  destruct f as [|f]; [lia|]. change (batch_tail (op :: ops)) with (((op_line op ++ [NL]) ++ op_lines ops) ++ [69; NL]) in *. rewrite <- app_assoc in *.
  destruct (op_line_ok op Hop) as [Hl Hn]. fold (batch_tail ops) in *.
  destruct (decide (k ≤ length (op_line op))%nat) as [Hle|Hgt].
  - rewrite <- app_assoc, take_app_le by done. destruct k as [|k]; [apply replay_nil|].
    rewrite replay_torn.
    + rewrite op_prefix_step by lia. apply replay_nil.
    + destruct (op_line_tag op) as (x & s & -> & _). done.
    + by apply forallb_take.
    + rewrite length_take. lia.
  - rewrite take_app_ge by (rewrite length_app; simpl; lia). rewrite replay_op by done.
    simpl in Hf. apply IH; [lia|]. rewrite !length_app in Hk. simpl in Hk. rewrite length_app in *. simpl in *. lia.
Qed.

Lemma replay_torn_batch f batch ops k c :
  Forall op_ok ops → (k < length (batch_text ops) - 1)%nat → (S (length ops) < f)%nat →
  replay apply f batch (take k (batch_text ops)) c = Some (true, c).
Proof.
  intros Hops Hk Hf. destruct k as [|[|k]]; [apply replay_nil| |].
  - destruct f as [|f]; [lia|]. change (take 1 (batch_text ops)) with [66].
    rewrite replay_torn by (done || (unfold DELTA_LINE_SIZE, RECORD_SIZE; simpl; lia)). apply replay_nil.
  - destruct f as [|f]; [lia|]. unfold batch_text in *.
    change (take (S (S k)) ([66; NL] ++ ?x)) with ([66] ++ NL :: take k x).
    rewrite replay_line by (done || (unfold DELTA_LINE_SIZE, RECORD_SIZE; simpl; lia)).
    unfold line_step. change (streq [66] [66]) with true. cbv iota. apply replay_open; [done|lia|].
    simpl in Hk. lia.
Qed.

Lemma length_batch_text ops : (S (S (length ops)) ≤ length (batch_text ops) - 1)%nat.
Proof.
  unfold batch_text, batch_tail. rewrite !length_app. simpl. assert (length ops ≤ length (op_lines ops))%nat; [|lia].
  unfold op_lines. induction ops as [|op ops IH]; simpl; [lia|]. rewrite !length_app. simpl. lia.
Qed.

(** Whole batches and a beginning of another one. *)
Lemma replay_log f batch bs ops k c :
  Forall (Forall op_ok) bs → Forall op_ok ops → (k < length (batch_text ops) - 1)%nat →
  (length (concat (map batch_text bs) ++ take k (batch_text ops)) + length ops + 2 ≤ f)%nat →
  replay apply f batch (concat (map batch_text bs) ++ take k (batch_text ops)) c = apply_batches bs c.
Proof.
  intros Hbs Hops Hk. revert f batch c; induction Hbs as [|b bs Hb Hbs IH]; intros f batch c Hf.
  - simpl. apply replay_torn_batch; [done|done|]. simpl in Hf. lia.
  - cbn [map concat apply_batches] in *. rewrite <- app_assoc in *.
    pose proof (length_batch_text b) as Hlb. rewrite length_app in Hf.
    replace f with (S (length b + S (f - length b - 2))) by lia. rewrite replay_batch by done.
    destruct (apply b c) as [[[] c1]|]; simpl; [|done|done]. apply IH. lia.
Qed.
End replay.

(** * The abstract log *)

(** ** The fuel of a replay *)

Section fuel.
Context {T : Type} (apply : list DeltaOp → T → option (bool * T)).

Lemma fgets_consumes n s l r : (0 < n)%nat → s ≠ [] → fgets n s = (l, r) → (length r < length s)%nat.
Proof.
  revert s l r; induction n as [|n IH]; intros [|c s] l r Hn Hs; simpl; try done; try lia.
  destruct (c =? NL); [intros [= <- <-]; lia|]. destruct (fgets n s) as [l' r'] eqn:E. intros [= <- <-].
  destruct n as [|n]; [simpl in E; injection E as <- <-; lia|].
  destruct s as [|x s]; [simpl in E; injection E as <- <-; simpl; lia|].
  specialize (IH (x :: s) l' r' ltac:(lia) ltac:(done) E). lia.
Qed.

(** As much fuel as there are characters is enough. *)
Lemma replay_fuel f f' batch text c :
  (length text ≤ f)%nat → (length text ≤ f')%nat → replay apply f batch text c = replay apply f' batch text c.
Proof.
  revert f' batch text c; induction f as [|f IH]; intros [|f'] batch [|x text] c Hf Hf'; simpl in Hf, Hf'; try lia; try done.
  cbn [replay]. destruct (fgets (DELTA_LINE_SIZE - 1) (x :: text)) as [line rest] eqn:E.
  assert (length rest < length (x :: text))%nat as Hr.
  { eapply fgets_consumes; [|done|exact E]. unfold DELTA_LINE_SIZE, RECORD_SIZE. lia. }
  simpl in Hr.
  assert (∀ b c', replay apply f b rest c' = replay apply f' b rest c') as H by (intros b c'; apply IH; lia).
  rewrite !H. destruct batch as [ops|]; [|reflexivity]. by destruct (apply ops c) as [[[] c1]|]; simpl; rewrite ?H.
Qed.

(** ** A crash at any byte *)

(** The end of the log: the batch that is open, if one is. *)
Definition open_text (o : option (list DeltaOp)) : cstr :=
  match o with None => [] | Some ops => [66; NL] ++ op_lines ops end.

Definition batches_text (bs : list (list DeltaOp)) : cstr := concat (map batch_text bs).

Lemma open_text_prefix ops : open_text (Some ops) = take (length (batch_text ops) - 2) (batch_text ops).
Proof.
  unfold open_text, batch_text, batch_tail. rewrite (app_assoc [66; NL]).
  rewrite (take_app_le _ [69; NL]); [|rewrite !length_app; simpl; lia].
  rewrite take_ge; [done|]. rewrite !length_app. simpl. lia.
Qed.

(** All of a batch but its last line end: it counts as closed. *)
Lemma replay_closed_torn f batch ops c :
  Forall op_ok ops → (length (batch_text ops) ≤ f)%nat →
  replay apply f batch (take (length (batch_text ops) - 1) (batch_text ops)) c = ('(ok, c1) ← apply ops c; Some (ok, c1)).
Proof.
  intros Hops Hf.
  assert (take (length (batch_text ops) - 1) (batch_text ops) = [66] ++ NL :: op_lines ops ++ [69]) as ->.
  { unfold batch_text, batch_tail. change (op_lines ops ++ [69; NL]) with (op_lines ops ++ [69] ++ [NL]).
    rewrite !(app_assoc _ _ [NL]). rewrite length_app. simpl length at 2. rewrite Nat.add_sub.
    rewrite take_app_le by lia. rewrite take_ge by lia. done. }
  rewrite (replay_fuel f (S (length ops + S (length (batch_text ops)))) batch).
  2, 3: revert Hf; unfold batch_text, batch_tail; rewrite !length_app; simpl; rewrite ?length_app; simpl; lia.
  rewrite replay_line by (done || (unfold DELTA_LINE_SIZE, RECORD_SIZE; simpl; lia)).
  unfold line_step at 1. change (streq [66] [66]) with true. cbv iota. rewrite replay_ops by done.
  rewrite replay_torn by (done || (unfold DELTA_LINE_SIZE, RECORD_SIZE; simpl; lia)).
  unfold line_step. change (streq [69] [66]) with false. change (streq [69] [69]) with true. cbv iota. simpl app.
  by destruct (apply ops c) as [[[] c1]|].
Qed.

Lemma apply_batches_one ops c : apply_batches apply [ops] c = ('(ok, c1) ← apply ops c; Some (ok, c1)).
Proof. simpl. by destruct (apply ops c) as [[[] c1]|]. Qed.

(** Whatever part of the log is left, a whole number of batches is applied: no less
    than those that are there in full. *)
Lemma replay_any_prefix bs o k :
  Forall (Forall op_ok) bs → (∀ ops, o = Some ops → Forall op_ok ops) →
  ∃ m, (m ≤ length bs)%nat ∧
    (∀ n, (n ≤ length bs)%nat → (length (batches_text (take n bs)) ≤ k)%nat → (n ≤ m)%nat) ∧
    ∀ f batch c, (length (batches_text bs ++ open_text o) ≤ f)%nat →
      replay apply f batch (take k (batches_text bs ++ open_text o)) c = apply_batches apply (take m bs) c.
Proof.
  intros Hbs Ho. revert k; induction Hbs as [|b bs Hb Hbs IH]; intros k.
  - exists 0%nat. split; [done|]. split; [done|]. intros f batch c Hf. simpl in *. destruct o as [ops|].
    + rewrite open_text_prefix, take_take in *. pose proof (length_batch_text ops) as Hl.
      rewrite (replay_fuel f (f + S (S (S (length ops))))) by (rewrite length_take; rewrite length_take in Hf; lia).
      apply replay_torn_batch; [by apply Ho|lia|lia].
    + unfold open_text. rewrite take_nil. apply replay_nil.
  - pose proof (length_batch_text b) as Hl. change (batches_text (b :: bs)) with (batch_text b ++ batches_text bs).
    rewrite <- app_assoc. set (rest := batches_text bs ++ open_text o) in *.
    assert (∀ n, (length (batch_text b) ≤ length (batches_text (take (S n) (b :: bs))))%nat) as Hn.
    { intros n. unfold batches_text. cbn [take map concat]. rewrite length_app. lia. }
    destruct (decide (length (batch_text b) ≤ k)%nat) as [Hk|Hk]; [|destruct (decide (k = length (batch_text b) - 1)%nat) as [->|Hk1]].
    + destruct (IH (k - length (batch_text b))%nat) as (m & Hm & Hmin & Hrep). exists (S m). split; [simpl; lia|]. split.
      * intros [|n] Hle Hlen; [lia|]. simpl in Hle. specialize (Hmin n ltac:(lia)).
        unfold batches_text in Hlen, Hmin. cbn [take map concat] in Hlen. rewrite length_app in Hlen. lia.
      * intros f batch c Hf. rewrite length_app in Hf. rewrite take_app_ge by done.
        rewrite (replay_fuel f (S (length b + S f))) by (rewrite length_app, ?length_take; lia).
        rewrite replay_batch by done. cbn [take apply_batches].
        destruct (apply b c) as [[[] c1]|]; simpl; [|done|done]. apply Hrep. lia.
    + exists 1%nat. split; [simpl; lia|]. split.
      * intros [|n] Hle Hlen; [lia|]. specialize (Hn n). lia.
      * intros f batch c Hf. rewrite length_app in Hf. rewrite take_app_le by lia.
        rewrite replay_closed_torn by (done || lia). rewrite <- apply_batches_one. done.
    + exists 0%nat. split; [lia|]. split.
      * intros [|n] Hle Hlen; [lia|]. specialize (Hn n). lia.
      * intros f batch c Hf. rewrite length_app in Hf. rewrite take_app_le by lia.
        rewrite (replay_fuel f (f + S (S (S (length b))))) by (rewrite length_take; lia).
        apply replay_torn_batch; [done|lia|lia].
Qed.
End fuel.

(** ** The abstract log *)

(** Batches that were closed, the one that is open, and how many of the closed ones
    are known to be on the disk. *)
Record LogSpec := mkLogSpec { ls_closed : list (list DeltaOp); ls_open : option (list DeltaOp); ls_synced : nat }.

(** A call of the log, with [io], which of its writes succeed. *)
Inductive LogCall := LogChange (op : DeltaOp) | LogChanges (ops : list (option DeltaOp)) | LogClose.

Definition log_call (io : nat → bool) (call : LogCall) (d : Delta) : bool * Delta :=
  match call with
  | LogChange op => append_delta_key io op d
  | LogChanges ops => append_delta_changes io ops d
  | LogClose => close_delta_batch io d
  end.

(** The batch a change goes to. *)
Definition spec_begin (io : nat → bool) (s : LogSpec) : option (list DeltaOp) :=
  match ls_open s with Some ops => Some ops | None => if io 0%nat then Some [] else None end.

(** The changes a loop writes, and whether it gets to its end. *)
Fixpoint spec_lines (io : nat → bool) (k : nat) (ops : list (option DeltaOp)) : bool * list DeltaOp :=
  match ops with
  | [] => (true, [])
  | Some op :: ops' => if io k then let '(ok, w) := spec_lines io (S k) ops' in (ok, op :: w) else (false, [])
  | None :: _ => (false, [])
  end.

Definition spec_call (io : nat → bool) (call : LogCall) (s : LogSpec) : bool * LogSpec :=
  let in_batch (ops : list DeltaOp) := mkLogSpec (ls_closed s) (Some ops) (ls_synced s) in
  match call with
  | LogChange op =>
      match spec_begin io s with
      | None => (false, s)
      | Some ops => if io 1%nat then (true, in_batch (ops ++ [op])) else (false, in_batch ops)
      end
  | LogChanges l =>
      match spec_begin io s with
      | None => (false, s)
      | Some ops => let '(ok, w) := spec_lines io 1 l in (ok, in_batch (ops ++ w))
      end
  | LogClose =>
      match ls_open s with
      | None => (true, s)
      | Some ops =>
          if io 0%nat then
            let closed := ls_closed s ++ [ops] in
            (io 1%nat, mkLogSpec closed None (if io 1%nat then length closed else ls_synced s))
          else (false, s)
      end
  end.

Definition run_calls {S} (step : (nat → bool) → LogCall → S → bool * S) (h : list ((nat → bool) * LogCall)) (s : S) : S :=
  foldl (fun s p => (step p.1 p.2 s).2) s h.

(** ** The writers implement it *)

Record log_rep (d : Delta) (s : LogSpec) : Prop := {
  lr_text : default [] (log_text d) = batches_text (ls_closed s) ++ open_text (ls_open s);
  lr_open : delta_batch_open d = bool_decide (ls_open s ≠ None);
  lr_file : ls_open s ≠ None → delta_file d = true;
  lr_synced : (ls_synced s ≤ length (ls_closed s))%nat;
  lr_flushed : (length (batches_text (take (ls_synced s) (ls_closed s))) ≤ log_flushed d)%nat;
}.

Lemma batches_text_app a b : batches_text (a ++ b) = batches_text a ++ batches_text b.
Proof. unfold batches_text. by rewrite map_app, concat_app. Qed.

Lemma batches_text_take n bs : (length (batches_text (take n bs)) ≤ length (batches_text bs))%nat.
Proof. rewrite <- (take_drop n bs) at 2. rewrite batches_text_app, length_app. lia. Qed.

Lemma op_lines_app a b : op_lines (a ++ b) = op_lines a ++ op_lines b.
Proof. unfold op_lines. by rewrite map_app, concat_app. Qed.

Lemma writer_rep d s : log_rep d s → log_rep (get_delta_writer d) s ∧ delta_file (get_delta_writer d) = true.
Proof.
  intros [H1 H2 H3 H4 H5]. unfold get_delta_writer. destruct (delta_file d) eqn:E; [done|]. split; [|done].
  split; try done. simpl. rewrite H1, length_app. pose proof (batches_text_take (ls_synced s) (ls_closed s)). lia.
Qed.

Lemma begin_rep io d s :
  log_rep d s → delta_file d = true →
  match spec_begin io s with
  | None => begin_delta_batch io d = (false, d)
  | Some ops => ∃ d', begin_delta_batch io d = (true, d') ∧ delta_file d' = true ∧ log_rep d' (mkLogSpec (ls_closed s) (Some ops) (ls_synced s))
  end.
Proof.
  intros Hr Hf. pose proof Hr as [H1 H2 H3 H4 H5]. unfold spec_begin, begin_delta_batch, get_delta_writer. rewrite H2, Hf.
  destruct s as [bs [ops|] n]; simpl in *; [by exists d|].
  destruct (io 0%nat); [|done]. eexists. split; [done|]. split; [done|]. split; simpl; try done.
  rewrite H1. unfold op_lines. by rewrite !app_nil_r.
Qed.

Lemma track_rep d bs ops n op :
  delta_file d = true → log_rep d (mkLogSpec bs (Some ops) n) →
  log_rep (track_delta_write d (op_line op ++ [NL])) (mkLogSpec bs (Some (ops ++ [op])) n).
Proof.
  intros Hf [H1 H2 H3 H4 H5]. split; simpl in *; try done.
  rewrite H1, op_lines_app, <- app_assoc. unfold op_lines at 3. simpl. by rewrite app_nil_r.
Qed.

Lemma lines_rep io k l d bs ops n :
  delta_file d = true → log_rep d (mkLogSpec bs (Some ops) n) →
  let '(ok, w) := spec_lines io k l in
  ∃ d', append_lines io k l d = (ok, d') ∧ log_rep d' (mkLogSpec bs (Some (ops ++ w)) n).
Proof.
  revert k d ops; induction l as [|[op|] l IH]; intros k d ops Hf Hr; cbn [spec_lines append_lines].
  - exists d. by rewrite app_nil_r.
  - destruct (io k); [|exists d; by rewrite app_nil_r].
    pose proof (IH (S k) (track_delta_write d (op_line op ++ [NL])) (ops ++ [op]) Hf (track_rep _ _ _ _ op Hf Hr)) as IH'.
    destruct (spec_lines io (S k) l) as [ok w]. destruct IH' as (d' & -> & Hd'). exists d'. split; [done|].
    by rewrite <- app_assoc in Hd'.
  - exists d. by rewrite app_nil_r.
Qed.

Lemma close_rep io d bs ops n :
  io 0%nat = true → delta_file d = true → log_rep d (mkLogSpec bs (Some ops) n) →
  log_rep (close_delta_batch io d).2 (mkLogSpec (bs ++ [ops]) None (if io 1%nat then length (bs ++ [ops]) else n)) ∧
  (close_delta_batch io d).1 = io 1%nat.
Proof.
  intros Hio Hf [H1 H2 H3 H4 H5]. unfold close_delta_batch. rewrite Hf, Hio, H2. simpl in *.
  assert (default [] (log_text d) ++ [69; NL] = batches_text (bs ++ [ops])) as Ht.
  { rewrite H1, batches_text_app. unfold batches_text at 3. simpl. rewrite app_nil_r. unfold batch_tail. by rewrite <- app_assoc. }
  destruct (io 1%nat); (split; [|done]); split; simpl; try done.
  - by rewrite Ht, app_nil_r.
  - rewrite take_ge by done. by rewrite Ht.
  - by rewrite Ht, app_nil_r.
  - rewrite length_app. lia.
  - by rewrite take_app_le.
Qed.

(** Every call does to the log what the abstract one does, and answers the same. *)
Lemma log_call_refines io call d s :
  log_rep d s → (log_call io call d).1 = (spec_call io call s).1 ∧ log_rep (log_call io call d).2 (spec_call io call s).2.
Proof.
  intros Hr. destruct (writer_rep d s Hr) as [Hw Hwf]. destruct call as [op|l|]; cbn [log_call spec_call].
  - unfold append_delta_key. pose proof (begin_rep io _ s Hw Hwf) as Hb. destruct (spec_begin io s) as [ops|]; [|by rewrite Hb].
    destruct Hb as (d' & -> & Hf & Hd'). destruct (io 1%nat); [|done]. split; [done|]. by apply track_rep.
  - unfold append_delta_changes. pose proof (begin_rep io _ s Hw Hwf) as Hb. destruct (spec_begin io s) as [ops|]; [|by rewrite Hb].
    destruct Hb as (d' & -> & Hf & Hd'). pose proof (lines_rep io 1 l d' _ ops _ Hf Hd') as Hl.
    destruct (spec_lines io 1 l) as [ok w]. destruct Hl as (d2 & -> & Hd2). done.
  - destruct s as [bs [ops|] n]; cbn [ls_open ls_closed ls_synced].
    + assert (delta_file d = true) as Hf by by apply (lr_file _ _ Hr).
      destruct (io 0%nat) eqn:Hio; [by destruct (close_rep io d bs ops n Hio Hf Hr)|].
      unfold close_delta_batch. rewrite Hf, (lr_open _ _ Hr), Hio. done.
    + unfold close_delta_batch. rewrite (lr_open _ _ Hr). simpl. by rewrite orb_true_r.
Qed.

Lemma run_calls_refines calls d s : log_rep d s → log_rep (run_calls log_call calls d) (run_calls spec_call calls s).
Proof.
  revert d s; induction calls as [|[io call] calls IH]; intros d s Hr; [done|].
  cbn [run_calls foldl]. apply IH. by apply log_call_refines.
Qed.

(** ** What the log holds *)

(** The changes of a call. *)
Definition call_ops (call : LogCall) : list DeltaOp :=
  match call with LogChange op => [op] | LogChanges l => omap id l | LogClose => [] end.

Definition spec_all (P : DeltaOp → Prop) (s : LogSpec) : Prop :=
  Forall (Forall P) (ls_closed s) ∧ (∀ ops, ls_open s = Some ops → Forall P ops).

Lemma spec_lines_all P io k l : Forall P (omap id l) → Forall P (spec_lines io k l).2.
Proof.
  revert k; induction l as [|[op|] l IH]; intros k H; cbn in *; [done| |done].
  apply Forall_cons_1 in H as [Hop H]. destruct (io k); [|done]. specialize (IH (S k) H).
  destruct (spec_lines io (S k) l) as [ok w]. by constructor.
Qed.

Lemma spec_begin_all P io s ops : spec_all P s → spec_begin io s = Some ops → Forall P ops.
Proof. intros [_ Ho]. unfold spec_begin. destruct (ls_open s) as [o|]; [intros [= <-]; by apply Ho|]. destruct (io 0%nat); [by intros [= <-]|done]. Qed.

Lemma spec_call_all P io call s : Forall P (call_ops call) → spec_all P s → spec_all P (spec_call io call s).2.
Proof.
  intros Hc Hs. pose proof Hs as [Hcl Ho]. destruct call as [op|l|]; cbn [spec_call call_ops] in *.
  - destruct (spec_begin io s) as [ops|] eqn:E; [|done]. pose proof (spec_begin_all P io s ops Hs E).
    destruct (io 1%nat); split; cbn; try done; intros ops' [= <-]; [|done]. apply Forall_app. by split.
  - destruct (spec_begin io s) as [ops|] eqn:E; [|done]. pose proof (spec_begin_all P io s ops Hs E).
    pose proof (spec_lines_all P io 1 l Hc) as Hl. destruct (spec_lines io 1 l) as [ok w]. split; cbn; [done|].
    intros ops' [= <-]. apply Forall_app. by split.
  - destruct (ls_open s) as [ops|] eqn:E; [|done]. destruct (io 0%nat); [|done]. split; cbn; [|done].
    apply Forall_app. split; [done|]. constructor; [by apply Ho|done].
Qed.

Lemma run_calls_all P calls s :
  Forall (fun x => Forall P (call_ops x.2)) calls → spec_all P s → spec_all P (run_calls spec_call calls s).
Proof.
  intros H. revert s; induction H as [|[io call] calls Hc Hcs IH]; intros s Hs; [done|]. cbn [run_calls foldl]. apply IH.
  by apply spec_call_all.
Qed.

(** ** Applying batches *)

Lemma apply_delta_ops_app a b c :
  apply_delta_ops (a ++ b) c = ('(ok, c1) ← apply_delta_ops a c; if (ok : bool) then apply_delta_ops b c1 else Some (false, c1)).
Proof.
  revert c; induction a as [|op a IH]; intros c; [done|]. cbn [apply_delta_ops app]. destruct (apply_delta_op op c) as [[[] c1]|]; cbn; [apply IH|done|done].
Qed.

Lemma apply_batches_concat bs c : apply_batches apply_delta_ops bs c = apply_delta_ops (concat bs) c.
Proof.
  revert c; induction bs as [|b bs IH]; intros c; [done|]. cbn [apply_batches concat]. rewrite apply_delta_ops_app.
  destruct (apply_delta_ops b c) as [[[] c1]|]; cbn; [apply IH|done|done].
Qed.

Lemma delta_valid_all_app h a b l : delta_valid_all h (a ++ b) l → delta_valid_all h a l.
Proof. revert l; induction a as [|op a IH]; intros l; [done|]. cbn. intros [H1 H2]. split; [done|by apply IH]. Qed.

#[global] Instance delta_valid_dec h op l : Decision (delta_valid h op l).
Proof.
  destruct op; unfold delta_valid; [|apply _]. apply and_dec; [apply _|]. apply list.Forall_dec. intros [r|]; apply _.
Defined.

#[global] Instance delta_valid_all_dec h ops l : Decision (delta_valid_all h ops l).
Proof. revert l; induction ops as [|op ops IH]; intros l; simpl; apply _. Defined.
