(* ===== verification/LegacyTable.v ===== *)
(** A table of the stand-alone executor as a whole, [src/legacy/executor.c]: reading
    its file when it is opened, writing the file anew, and inserting a row.

    The file is the text of [<table>.csv] as the open [FILE] holds it. Here there is no
    usable [<table>.idx]: the two functions that read it return 0, the ones that
    write or remove it do nothing to the table; [LegacySnapshot] has the case of one. *)

From Stdlib Require Import String.
From S2P Require Import Prelude CString BPTree BPTreeString BPTreeIndex Parser Values Table Store LegacyRow LegacyCache LegacyIndex DeltaLog.
From stdpp Require Import base numbers list option.
Local Open Scope Z_scope.

(** [TableCache]. *)
Record Table := mkTable {
  t_cache : Cache;
  t_tail : Tail;
  cache_truncated : bool;
  uncached_start_offset : Z;
  append_offset : Z;
  t_delta : Delta;
}.

Definition set_cache (t : Table) (c : Cache) : Table :=
  mkTable c (t_tail t) (cache_truncated t) (uncached_start_offset t) (append_offset t) (t_delta t).
Definition set_append_offset (t : Table) (o : Z) : Table :=
  mkTable (t_cache t) (t_tail t) (cache_truncated t) (uncached_start_offset t) o (t_delta t).
Definition set_delta (t : Table) (d : Delta) : Table :=
  mkTable (t_cache t) (t_tail t) (cache_truncated t) (uncached_start_offset t) (append_offset t) d.
Definition set_file (c : Cache) (f : option cstr) : Cache :=
  mkCache (c_hdr c) f (c_pages c) (c_slots c) (c_id c) (c_uks c) (next_auto_id c) (next_row_id c).

(** A row that stays in the file: the index of the tail takes its key. *)
Definition append_tail (t : Table) (key offset : Z) : Table :=
  mkTable (t_cache t) (append_tail_pk_offset (t_tail t) key offset) true
    (if cache_truncated t then uncached_start_offset t else offset) (append_offset t) (t_delta t).

(** ** Opening a table *)

(** [reset_table_cache] and the header. *)
Definition reset_table (h : Header) (file : cstr) (log : option cstr) : option Table :=
  t ← bptree_create always_ok;
  u ← bptree_string_create always_ok;
  Some (mkTable (mkCache h (Some file) clear_page_cache slots0 t (map (fun _ => Some u) (h_uks h)) 1 1) (mkTail [] 0) false 0 (-1)
          (mkDelta log (length (default [] log)) false false 0 0)).

(** The key a line of the file has; a line that is too short for one has the key 0. *)
Definition line_key (h : Header) (row : cstr) : option Z :=
  match h_pk h with
  | None => Some 0
  | Some p => match parse_csv_row row !! p with Some f => parse_long_value f | None => Some 0 end
  end.

(** A line of the file that is not empty, found at [row_offset]; the last number is
    [file_next_auto_id]. *)
Definition load_row (has_delta_log : bool) (row : cstr) (row_offset : Z) (t : Table) (file_next : Z) : option (bool * Table * Z) :=
  let c := t_cache t in
  let has_pk := match h_pk (c_hdr c) with Some _ => true | None => false end in
  match line_key (c_hdr c) row with
  | None => Some (false, t, file_next)
  | Some id_value =>
      let file_next' := if has_pk && (file_next <=? id_value) then id_value + 1 else file_next in
      let row_id := next_row_id c in
      let key := if has_pk then id_value else row_id in
      let c1 := set_next c (next_auto_id c) (row_id + 1) in
      if active_count (c_slots c) <? MAX_RECORDS then
        '(taken, s) ← append_record_raw_memory (c_slots c1) row row_id row_offset;
        let c2 := set_slots c1 s in
        match taken with
        | None => Some (false, set_cache t c2, file_next')
        | Some loaded_slot =>
            if has_delta_log then Some (true, set_cache t c2, file_next')
            else
              '(rc, tr) ← ix_insert (c_id c2) key loaded_slot;
              let c3 := set_id c2 tr in
              if negb (rc =? 1) then Some (false, set_cache t c3, file_next')
              else
                '(ok, c4) ← index_record_uks_from_row c3 row loaded_slot;
                Some (ok, set_cache t c4, file_next')
        end
      else Some (true, append_tail (set_cache t c1) key row_offset, file_next')
  end.

(** The loop over the lines; [text] is what is left of the file from [offset] on. *)
Fixpoint load_rows (fuel : nat) (has_delta_log : bool) (text : cstr) (offset : Z) (t : Table) (file_next : Z)
    : option (bool * Table * Z) :=
  match text with
  | [] => Some (true, t, file_next)
  | _ =>
      match fuel with
      | O => None
      | S f =>
          let '(line, rest) := fgets (RECORD_SIZE - 1) text in
          let next := offset + Z.of_nat (length line) in
          if forallb line_end_free line && (length line =? RECORD_SIZE - 1)%nat then Some (false, t, file_next)
          else
            match cut_nl line with
            | [] => load_rows f has_delta_log rest next t file_next
            | row =>
                '(ok, t1, n1) ← load_row has_delta_log row offset t file_next;
                if (ok : bool) then load_rows f has_delta_log rest next t1 n1 else Some (false, t1, n1)
            end
      end
  end.

Definition raise_auto_id (c : Cache) (file_next : Z) : Cache :=
  if next_auto_id c <? file_next then set_next c file_next (next_row_id c) else c.

(** What follows the loop: the log, the indexes and the first free key. *)
Definition finish_load (io : nat → bool) (t : Table) (file_next : Z) : option (bool * Table) :=
  let stale := delta_log_exists (t_delta t) && (active_count (c_slots (t_cache t)) =? 0) && (length (tail_entries (t_tail t)) =? 0)%nat in
  let t := if stale then set_delta t (clear_delta_log io (t_delta t)) else t in
  let done (c : Cache) := set_append_offset (set_cache t c) (Z.of_nat (length (default [] (c_file c)))) in
  if negb (delta_log_exists (t_delta t)) then Some (true, done (raise_auto_id (t_cache t) file_next))
  else
    '(ok, c1) ← replay_delta_log (log_text (t_delta t)) (t_cache t);
    if negb (ok : bool) then Some (false, set_cache t c1)
    else
      '(ok2, c2) ← rebuild_id_index c1;
      if negb (ok2 : bool) then Some (false, set_cache t c2)
      else
        '(ok3, c3) ← rebuild_uk_indexes c2;
        if negb (ok3 : bool) then Some (false, set_cache t c3)
        else Some (true, done (raise_auto_id c3 file_next)).

Definition load_table_contents (io : nat → bool) (file : cstr) (log : option cstr) : option (bool * Table) :=
  let '(line, rest) := fgets (RECORD_SIZE - 1) file in
  let h := match line with [] => mkHeader [] None [] | _ => parse_header line end in
  t ← reset_table h file log;
  '(ok, t1, file_next) ← load_rows (length rest) (delta_log_exists (t_delta t)) rest (Z.of_nat (length line)) t 1;
  if (ok : bool) then finish_load io t1 file_next else Some (false, t1).

(** ** Writing the file anew *)

(** The rows of the active slots, [n] slots from [i] on; [None] in the first place
    when one cannot be read. *)
Fixpoint table_rows (n : nat) (i : Z) (c : Cache) : option (option cstr * Cache) :=
  match n with
  | O => Some (Some [], c)
  | S n' =>
      if negb (slot_is_active (c_slots c) i) then table_rows n' (i + 1) c
      else
        '(row, c1) ← cache_row c i;
        match row with
        | None => Some (None, c1)
        | Some r =>
            '(rest, c2) ← table_rows n' (i + 1) c1;
            Some (match rest with Some s => Some (r ++ [NL] ++ s) | None => None end, c2)
        end
  end.

Definition table_text (c : Cache) : option (option cstr * Cache) :=
  '(rows, c1) ← table_rows (length (slots (c_slots c))) 0 c;
  Some (match rows with Some s => Some (write_table_header (c_hdr c) ++ s) | None => None end, c1).

(** The file is closed before its rows are read. *)
Definition rewrite_file (io : nat → bool) (t : Table) : option (bool * Table) :=
  let c := t_cache t in
  '(text, c1) ← table_text (set_file c None);
  match text with
  | None => Some (false, set_cache t (set_file c1 (c_file c)))
  | Some text => load_table_contents io text (log_text (clear_delta_log io (t_delta t)))
  end.

(** The text of the new file, when it could be written. The table is given up
    afterwards. *)
Definition compact_table_file_for_shutdown (t : Table) : option (option cstr) :=
  match c_file (t_cache t) with
  | None => Some None
  | Some _ => '(text, _) ← table_text (t_cache t); Some text
  end.

(** ** Inserting *)

(** The loop of [for_each_file_row_from] with [find_value_visitor]. *)
Fixpoint file_has_value (fuel : nat) (col_idx : nat) (value text : cstr) : option bool :=
  match text with
  | [] => Some false
  | _ =>
      match fuel with
      | O => None
      | S f =>
          let '(line, rest) := fgets (RECORD_SIZE - 1) text in
          if forallb line_end_free line && (length line =? RECORD_SIZE - 1)%nat then Some false
          else
            match cut_nl line with
            | [] => file_has_value f col_idx value rest
            | row => if compare_value (field_at (parse_csv_row row) col_idx) value then Some true else file_has_value f col_idx value rest
            end
      end
  end.

Definition table_file_has_value (t : Table) (col_idx : nat) (value : cstr) : option bool :=
  let start := if cache_truncated t then uncached_start_offset t else 0 in
  match c_file (t_cache t), value with
  | Some f, _ :: _ =>
      if (col_count (c_hdr (t_cache t)) <=? col_idx)%nat then Some false
      else
        let text := if 0 <? start then drop (Z.to_nat start) f else (fgets (RECORD_SIZE - 1) f).2 in
        file_has_value (length text) col_idx value text
  | _, _ => Some false
  end.

(** The loop over the unique columns: is none of their values in the file? *)
Fixpoint uks_absent (t : Table) (cols : list nat) (fields : list cstr) : option bool :=
  match cols with
  | [] => Some true
  | col :: cols' =>
      found ← table_file_has_value t col (field_at fields col);
      if (found : bool) then Some false else uks_absent t cols' fields
  end.

Definition validate_file_duplicates_for_uncached_insert (t : Table) (new_line : cstr) : option bool :=
  let c := t_cache t in
  if negb (cache_truncated t) && (active_count (c_slots c) <? MAX_RECORDS) then Some true
  else
    let fields := parse_csv_row new_line in
    dup ← (match h_pk (c_hdr c) with Some p => table_file_has_value t p (field_at fields p) | None => Some false end);
    if (dup : bool) then Some false else uks_absent t (h_uks (c_hdr c)) fields.

Definition pk_taken (c : Cache) (id_value : Z) : bool :=
  match ix_search (c_id c) id_value with Some i => slot_is_active (c_slots c) i | None => false end.

Definition uk_taken (c : Cache) (slot : nat) (source : cstr) : bool :=
  match uk_tree_at c slot with
  | Some t => match unique_index_find c t source with Some _ => true | None => false end
  | None => false
  end.

(** Where the next row goes: the end of the open file when it is not known. *)
Definition append_position (t : Table) (file : option cstr) : option Z :=
  if 0 <=? append_offset t then Some (append_offset t) else f ← file; Some (Z.of_nat (length f)).

(** The write of a row to the open file [f]. *)
Definition append_to_file (t : Table) (f row : cstr) : Table :=
  let '(f', o) := append_record_file f (append_offset t) row in
  set_append_offset (set_cache t (set_file (t_cache t) (Some f'))) o.

Inductive InsertResult := InsDone (id : Z) | InsRefused (err : InsertErr) | InsFailed.

(** The file could not take the row. *)
Definition rollback_insert (c : Cache) (slot_id : Z) : option Cache :=
  let '(ok, s) := deactivate_slot (c_slots c) slot_id true in
  if negb ok then Some c
  else
    '(ok1, c1) ← rebuild_id_index (set_slots c s);
    if (ok1 : bool) then '(_, c2) ← rebuild_uk_indexes c1; Some c2 else Some c1.

(** The row is put in: into the indexes while there is room for it in memory, else
    only into the file. *)
Definition insert_built (t : Table) (id_value : Z) (new_line : cstr) : option (InsertResult * Table) :=
  let c := t_cache t in
  o ← append_position t (c_file c);
  let t := set_append_offset t o in
  if negb (cache_truncated t) && ((active_count (c_slots c) <? MAX_RECORDS) || (0 <? length (free_slots (c_slots c)))%nat) then
    '(slot, c1) ← append_record_csv_indexed c new_line id_value o;
    match slot, c_file c with
    | None, _ => Some (InsFailed, set_cache t c1)
    | Some _, Some f => Some (InsDone id_value, append_to_file (set_cache t c1) f new_line)
    | Some i, None => c2 ← rollback_insert c1 i; Some (InsFailed, set_cache t c2)
    end
  else
    match c_file c with
    | None => Some (InsFailed, t)
    | Some f =>
        let key := match h_pk (c_hdr c) with Some _ => id_value | None => next_row_id c end in
        let c1 := match h_pk (c_hdr c) with Some _ => c | None => set_next c (next_auto_id c) (next_row_id c + 1) end in
        let t1 := append_tail (append_to_file (set_cache t c1) f new_line) key o in
        let c2 := t_cache t1 in
        Some (InsDone id_value,
              set_cache t1 (if next_auto_id c2 <=? id_value then set_next c2 (id_value + 1) (next_row_id c2) else c2))
    end.

Definition insert_row_data (io : nat → bool) (t : Table) (row_data : cstr) : option (InsertResult * Table) :=
  let c := t_cache t in
  match build_insert_row (pk_taken c) (uk_taken c) (c_hdr c) (next_auto_id c) (parse_csv_row row_data) RECORD_SIZE with
  | inl err => Some (InsRefused err, t)
  | inr (id_value, new_line) =>
      '(ok, t1) ← (if negb (cache_truncated t) && (MAX_RECORDS <=? active_count (c_slots c)) && delta_log_exists (t_delta t)
                   then rewrite_file io t else Some (true, t));
      if negb (ok : bool) then Some (InsFailed, t1)
      else
        fresh ← validate_file_duplicates_for_uncached_insert t1 new_line;
        if (fresh : bool) then insert_built t1 id_value new_line else Some (InsFailed, t1)
  end.
