(* ===== verification/LegacyTableProofs.v ===== *)
(** Correctness of [LegacyTable]: a row that is inserted, a file that is written and
    opened again. *)

From Stdlib Require Import String.
From S2P Require Import Prelude CString BPTree BPTreeProofs BPTreeSpec BPTreeIndex Parser Values Table Store StoreProofs.
From S2P Require Import LegacyRow LegacyRowProofs LegacyCache LegacyCacheProofs LegacyIndex LegacyIndexProofs DeltaLog DeltaLogProofs LegacyTable.
From stdpp Require Import base numbers list sorting option.
Local Open Scope Z_scope.

(** ** A row that is appended *)

Lemma at_slot_app l x j : at_slot (l ++ [x]) j = if decide (j = Z.of_nat (length l)) then x else at_slot l j.
Proof.
  unfold at_slot. destruct (decide (j = Z.of_nat (length l))) as [->|Hne].
  - rewrite (proj2 (Z.leb_le 0 _)), Nat2Z.id, lookup_app_r, Nat.sub_diag by lia. by destruct x.
  - destruct (0 <=? j) eqn:E; bool_to_prop; [|done]. destruct (decide (Z.to_nat j < length l)%nat).
    + by rewrite lookup_app_l.
    + rewrite lookup_app_r by lia. rewrite (lookup_ge_None_2 l) by lia. rewrite lookup_ge_None_2; [done|simpl; lia].
Qed.

Lemma at_slot_lookup l j r : at_slot l j = Some r ↔ l !! Z.to_nat j = Some (Some r) ∧ 0 ≤ j.
Proof.
  unfold at_slot. destruct (Z.leb_spec 0 j); [|split; [done|lia]]. destruct (l !! Z.to_nat j) as [[x|]|]; simpl; split; try done.
  all: try (by intros [= <-]). all: by intros [[= <-] _] || (intros [[=] _]).
Qed.

(** What appending does to the rows: a slot that had none has the new one. *)
Lemma append_spec_rows f s row rid i l' fr' :
  slots_ok f s → spec_op (mkRowSpec (texts f s) (free_slots s)) (OAppend row rid) = (OutSlot (Some i), mkRowSpec l' fr') →
  at_slot l' i = Some row ∧ (∀ j, at_slot (texts f s) j = at_slot (without l' i) j) ∧
  l' = match reverse (free_slots s) with [] => texts f s ++ [Some row] | k :: _ => <[Z.to_nat k := Some row]> (texts f s) end.
Proof.
  intros Hok. cbn [spec_op sp_free sp_rows]. assert (length (texts f s) = length (slots s)) as Hlen by apply length_map.
  destruct (reverse (free_slots s)) as [|k rest] eqn:Er.
  - case_if; [done|]. intros [= <- <- _]. assert (at_slot (texts f s) (Z.of_nat (length (texts f s))) = None) as Hn.
    { destruct (at_slot _ _) eqn:Ea; [|done]. apply at_slot_bound in Ea. lia. }
    rewrite at_slot_app, decide_True by done. split; [done|]. split; [|done]. intros j. unfold without.
    rewrite at_slot_insert by (rewrite length_app; simpl; lia). rewrite at_slot_app.
    by destruct (decide (j = _)) as [->|].
  - intros [= <- <- _]. pose proof (ss_free f s Hok) as Hf. rewrite List.Forall_forall in Hf.
    destruct (Hf k) as [Hk Ha]. { apply list_elem_of_In. apply elem_of_reverse. rewrite Er. by left. }
    unfold record_count in Hk. rewrite at_slot_insert by lia. rewrite decide_True by done. split; [done|]. split; [|done].
    intros j. unfold without. rewrite list_insert_insert_eq, at_slot_insert by lia. destruct (decide (j = k)) as [->|]; [|done].
    rewrite <- row_of_at_slot. unfold row_of. destruct (slot_is_active s k) eqn:E; [|done].
    apply slot_is_active_spec in E as [_ E]. congruence.
Qed.

Section table.
Context (h : Header) (p : nat) (Hpk : h_pk h = Some p) (Huks : NoDup (h_uks h)).

(** No row of [l] has the key [k] or a unique value of [row]. *)
Definition fresh_row (l : list (option cstr)) (k : Z) (row : cstr) : Prop :=
  Forall (fun o => match o with
                   | Some r' => get_row_pk_value h r' ≠ Some k ∧
                       Forall (fun col => uk_text col row = [] ∨ uk_text col r' ≠ uk_text col row) (h_uks h)
                   | None => True
                   end) l.

#[global] Instance fresh_row_dec l k row : Decision (fresh_row l k row).
Proof. unfold fresh_row. apply list.Forall_dec. intros [r'|]; apply _. Defined.

Lemma fresh_row_keys l l' i k row :
  fresh_row l k row → get_row_pk_value h row = Some k → (∀ j, at_slot l j = at_slot (without l' i) j) →
  at_slot l' i = Some row → fresh_keys h l' i row.
Proof.
  intros Hf Hk Hl Hr j r' Hne Hj. pose proof (at_slot_bound _ _ _ Hr) as Hi.
  assert (at_slot l j = Some r') as Hj'.
  { rewrite Hl. unfold without. rewrite at_slot_insert by done. by rewrite decide_False. }
  rewrite Hk. apply at_slot_lookup in Hj' as [Hj' _]. by pose proof (Forall_lookup_1 _ _ _ _ Hf Hj').
Qed.

(** [append_record_csv_indexed], the file being extended afterwards. *)
Lemma append_indexed_ok c l f row k :
  table_ok h c l → c_file c = Some f →
  Z.of_nat (length l) < MAX_RECORDS ∨ free_slots (c_slots c) ≠ [] →
  forallb line_char row = true → (length row < RECORD_SIZE - 1)%nat →
  get_row_pk_value h row = Some k → fresh_row l k row →
  ∃ i c' l', append_record_csv_indexed c row k (Z.of_nat (length f)) = Some (Some i, c') ∧
    table_ok h (set_file c' (Some (f ++ row ++ [NL]))) l' ∧
    l' = match reverse (free_slots (c_slots c)) with [] => l ++ [Some row] | k :: _ => <[Z.to_nat k := Some row]> l end ∧
    next_auto_id c' = (if next_auto_id c <=? k then k + 1 else next_auto_id c).
Proof using Hpk Huks.
  intros [Hh (f0 & Hf & [Hs Hp He] & Ht) Htr] Hf' Hroom Hc Hlen Hk Hfr. rewrite Hf in Hf'. injection Hf' as ->.
  cbn [rs_file rs_pages rs_slots] in *. unfold append_record_csv_indexed.
  destruct (append_csv_ok f (c_slots c) row (next_row_id c) Hs He Hc Hlen) as (r & s' & -> & Hres). cbn [mbind option_bind].
  rewrite Ht in Hres.
  destruct r as [i|].
  2: { destruct Hres as [_ Hsp]. cbn [spec_op sp_free sp_rows] in Hsp. exfalso.
       destruct (reverse (free_slots (c_slots c))) as [|x rest] eqn:Er; [|done].
       destruct Hroom as [Hm|Hm]; [rewrite (proj2 (Z.leb_gt _ _)) in Hsp by done; done|].
       apply Hm. apply (f_equal reverse) in Er. by rewrite reverse_involutive in Er. }
  destruct Hres as [Hs' Hsp]. rewrite <- Ht in Hsp.
  destruct (append_spec_rows f (c_slots c) row _ i _ _ Hs Hsp) as (Hat & Hl & Hl'). rewrite Ht in Hl, Hl'.
  set (l' := texts (f ++ row ++ [NL]) s') in *.
  destruct (index_new_row h _ _ l l' i row k Htr Hl Hat Hk (fresh_row_keys l l' i k row Hfr Hk Hl Hat)) as (Hno & t & Hins & Hix).
  rewrite Hh, Hpk. unfold claim_key. change (c_id (set_next (set_slots c s') _ _)) with (c_id c). rewrite Hno. cbn [mbind option_bind negb].
  change (c_id (set_next (set_slots c s') _ _)) with (c_id c). rewrite Hins. cbn [mbind option_bind]. change (negb (1 =? 1)) with false. cbv iota.
  unfold index_record_uks_from_row. cbn [c_hdr set_id set_next set_slots set_store]. rewrite Hh.
  match goal with |- context [index_uk_fields (h_uks h) 0 _ _ ?x] => destruct (Hix x eq_refl) as (ts & -> & Htrs) end.
  cbn [mbind option_bind]. eexists i, _, l'. split; [reflexivity|]. unfold bump_auto_id. cbn [c_hdr set_uks set_id set_next set_slots set_store].
  rewrite Hh, Hpk. cbn [next_auto_id set_uks set_id set_next set_slots set_store].
  split; [|split; [done|by destruct (next_auto_id c <=? k)]].
  destruct (next_auto_id c <=? k); (split; [exact Hh| |exact Htrs]); (eexists; split; [reflexivity|]; split; [|reflexivity]);
    (split; cbn; [exact Hs'|by apply pages_ok_app|by apply ends_nl_append]).
Qed.
End table.

(** ** INSERT *)

Lemma header_uks_NoDup h : header_ok h → NoDup (h_uks h).
Proof.
  intros (_ & -> & _). pose proof (uk_columns_NoDup 0 (h_cols h)) as H. rewrite <- (take_drop MAX_UKS) in H.
  by apply list.NoDup_app in H as [H _].
Qed.

Lemma header_uk_column h col : header_ok h → col ∈ h_uks h → ∃ c, h_cols h !! col = Some c ∧ col_type c = COL_UK.
Proof.
  intros (_ & -> & _) Hin. assert (col ∈ uk_columns 0 (h_cols h)) as (c & _ & Hc & Ht)%uk_columns_spec.
  { rewrite <- (take_drop MAX_UKS). apply elem_of_app. by left. }
  rewrite Nat.sub_0_r in Hc. by exists c.
Qed.

(** What a unique column of an inserted row is indexed by. *)
Lemma uk_text_source h vals id row col src :
  parse_csv_row row = map val_text (insert_sources h vals id) → plain_sources h vals id →
  insert_sources h vals id !! col = Some src → uk_text col row = src.
Proof.
  intros Hsplit Hpl Hs. unfold uk_text, normalize_value, field_at. rewrite Hsplit, list_lookup_fmap, Hs. simpl.
  pose proof (Forall_lookup_1 _ _ _ _ Hpl Hs) as [Hst Hlen]. simpl in Hst, Hlen. pose proof (val_text_length src).
  unfold trim_and_unquote, strcpy_sz. rewrite take_ge by (unfold RECORD_SIZE in *; lia). by apply trim_val_text.
Qed.

Section insert.
Context (h : Header) (p : nat) (Hh : header_ok h) (Hpk : h_pk h = Some p).

(** The indexes of a table say which keys and values are taken. *)
Lemma accepted_fresh c l nid vals id row :
  table_ok h c l → build_insert_row (pk_taken c) (uk_taken c) h nid vals RECORD_SIZE = inr (id, row) →
  parse_csv_row row = map val_text (insert_sources h vals id) → plain_sources h vals id → fresh_row h l id row.
Proof using Hh Hpk.
  intros Hc Hb Hsplit Hpl. apply Forall_forall. intros [r'|] Hin; [|done].
  apply list_elem_of_In, list_elem_of_lookup in Hin as [n Hn].
  assert (at_slot l (Z.of_nat n) = Some r') as Hj by (apply at_slot_lookup; rewrite Nat2Z.id; split; [done|lia]).
  set (j := Z.of_nat n) in *. destruct (insert_row_free _ _ _ _ _ _ _ Hb) as [Hfk Hfu].
  destruct (ta_trees _ _ _ _ Hc) as [Hid _ _ Hu]. pose proof (slot_active_at h c l l j Hc) as Hact. rewrite Hj in Hact.
  split.
  - intros Hk. specialize (Hfk p Hpk). unfold pk_taken in Hfk.
    assert (ix_search (c_id c) id = Some j) as Hs.
    { apply (index_search _ (id_key h l)); [done|]. unfold id_key. by rewrite Hj. }
    rewrite Hs, Hact in Hfk. done.
  - apply Forall_forall. intros col Hcol%list_elem_of_In.
    destruct (header_uk_column h col Hh Hcol) as (ci & Hci & Ht).
    destruct (lookup_lt_is_Some_2 (insert_sources h vals id) col) as [src Hsrc].
    { unfold insert_sources. rewrite length_map, length_seq. by eapply lookup_lt_Some. }
    rewrite (uk_text_source h vals id row col src Hsplit Hpl Hsrc). destruct src as [|b src]; [by left|right]. intros Heq.
    destruct (Hfu col ci _ Hci Hsrc Ht ltac:(done)) as (slot & Hslot & Htk).
    apply list_elem_of_lookup in Hcol as [k Hk]. pose proof (get_uk_slot_at h (header_uks_NoDup h Hh) k col Hk) as Hg.
    rewrite Hg in Hslot. injection Hslot as <-. destruct (Hu k col Hk) as (u & Hun & Hiu).
    assert (ix_search u (b :: src) = Some j) as Hs.
    { apply (index_search _ (uk_key col l)); [done|]. unfold uk_key. rewrite Hj. simpl. by rewrite Heq. }
    unfold uk_taken, uk_tree_at, unique_index_find in Htk. rewrite Hun in Htk. cbn [mjoin option_join mbind option_bind] in Htk.
    rewrite Hs in Htk. cbn [mbind option_bind] in Htk. by rewrite Hact in Htk.
Qed.

Lemma table_room c l : table_ok h c l → active_count (c_slots c) < MAX_RECORDS →
  Z.of_nat (length l) < MAX_RECORDS ∨ free_slots (c_slots c) ≠ [].
Proof.
  intros Hc Ha. rewrite (table_length h c l l Hc). destruct Hc as [_ (f & _ & [Hs _ _] & _) _].
  pose proof (ss_idle _ _ Hs) as Hi. cbn [rs_slots] in Hi. destruct (free_slots (c_slots c)); [left; cbn [length] in Hi; lia|by right].
Qed.
End insert.

(** Where the next row goes is known or will be asked for. *)
Definition append_ok (t : Table) (f : cstr) : Prop := append_offset t = -1 ∨ append_offset t = Z.of_nat (length f).

(** The rows with a new one: in the slot freed last, or behind the others. *)
Definition with_row (c : Cache) (l : list (option cstr)) (row : cstr) : list (option cstr) :=
  match reverse (free_slots (c_slots c)) with [] => l ++ [Some row] | k :: _ => <[Z.to_nat k := Some row]> l end.

(** An INSERT that its constraints allow, into a table that is all in memory or known by
    its place in the file. *)
Lemma insert_adds (io : nat → bool) (t : Table) (h : Header) (p : nat) (l : list (option cstr)) (f : cstr)
    (row_data : cstr) (id : Z) (row : cstr) :
  let c := t_cache t in let vals := parse_csv_row row_data in
  header_ok h → h_pk h = Some p → table_ok h c l → c_file c = Some f → append_ok t f → cache_truncated t = false →
  active_count (c_slots c) < MAX_RECORDS → LONG_MIN ≤ next_auto_id c ≤ LONG_MAX → (length (field_at vals p) < 254)%nat →
  build_insert_row (pk_taken c) (uk_taken c) h (next_auto_id c) vals RECORD_SIZE = inr (id, row) →
  plain_sources h vals id → (p < col_count h)%nat → (length row < RECORD_SIZE - 1)%nat →
  ∃ t', insert_row_data io t row_data = Some (InsDone id, t') ∧
    table_ok h (t_cache t') (with_row c l row) ∧ c_file (t_cache t') = Some (f ++ row ++ [NL]) ∧
    append_ok t' (f ++ row ++ [NL]) ∧ cache_truncated t' = false ∧
    next_auto_id (t_cache t') = (if next_auto_id c <=? id then id + 1 else next_auto_id c) ∧ get_row_pk_value h row = Some id.
Proof.
  cbv zeta. intros Hh Hpk Hc Hf Ha Htr Hact Hnid Hshort Hb Hpl Hp Hlen.
  pose proof Hh as (_ & _ & Hcols & _).
  destruct (built_row_reads_back _ _ _ _ _ _ _ Hb Hcols Hpl Hnid) as (Hsplit & _ & Hkey).
  { intros p' Hp'. rewrite Hpk in Hp'. by injection Hp' as <-. }
  specialize (Hkey p Hpk). pose proof (insert_row_checked_aux _ _ _ _ _ _ _ Hb) as (Hrow & _ & _).
  assert (forallb line_char row = true) as Hline.
  { rewrite Hrow. apply line_char_join, Forall_map_list. eapply List.Forall_impl; [|exact Hpl]. intros v [Hv Hvl].
    simpl. rewrite format_val_text by done. by apply val_text_line. }
  pose proof (accepted_fresh h p Hh Hpk _ l _ _ id row Hc Hb Hsplit Hpl) as Hfr.
  destruct (append_indexed_ok h p Hpk (header_uks_NoDup h Hh) (t_cache t) l f row id) as (i & c' & l' & E & Hc' & -> & Hn);
    [done|done|by apply (table_room h)|done|done|done|done|].
  unfold insert_row_data. rewrite (ta_hdr _ _ _ _ Hc), Hb, Htr. cbn [negb andb].
  rewrite (proj2 (Z.leb_gt MAX_RECORDS _)) by done. cbn [andb mbind option_bind negb].
  unfold validate_file_duplicates_for_uncached_insert. rewrite Htr, (proj2 (Z.ltb_lt _ MAX_RECORDS)) by done. cbn [andb negb mbind option_bind].
  unfold insert_built, append_position. rewrite Hf.
  assert ((if 0 <=? append_offset t then Some (append_offset t) else f0 ← Some f; Some (Z.of_nat (length f0))) = Some (Z.of_nat (length f))) as ->.
  { destruct Ha as [->| ->]; [done|]. by rewrite (proj2 (Z.leb_le 0 _)) by lia. }
  cbn [mbind option_bind cache_truncated set_append_offset]. rewrite Htr, (proj2 (Z.ltb_lt _ MAX_RECORDS)) by done. cbn [negb andb orb].
  rewrite E. cbn [mbind option_bind]. eexists. split; [reflexivity|]. unfold append_to_file, append_record_file. cbn.
  split; [exact Hc'|]. split; [done|]. split.
  { right. cbn. rewrite (proj2 (Z.leb_le 0 _)) by lia. rewrite !length_app. simpl. lia. }
  split; [done|]. by split.
Qed.

