(* ===== verification/LegacyLoadProofs.v ===== *)
(** Opening the table of the stand-alone executor: what is written is read back, and
    a pending log is not replayed without the indexes. *)

From Stdlib Require Import String.
From S2P Require Import Prelude CString BPTree BPTreeProofs BPTreeSpec BPTreeString BPTreeIndex Parser Values Table Store StoreProofs.
From S2P Require Import LegacyRow LegacyRowProofs LegacyCache LegacyCacheProofs LegacyIndex LegacyIndexProofs DeltaLog DeltaLogProofs LegacyTable LegacyTableProofs.
From stdpp Require Import base numbers list sorting option.
Local Open Scope Z_scope.

(** ** The rows of the file *)

Definition row_lines (rows : list cstr) : cstr := concat (map (fun r => r ++ [NL]) rows).

(** A row that its line gives back. *)
Definition plain_row (r : cstr) : Prop := forallb line_char r = true ∧ (length r < RECORD_SIZE - 1)%nat ∧ r ≠ [].

#[global] Instance plain_row_dec r : Decision (plain_row r).
Proof. unfold plain_row. apply _. Defined.

Lemma cut_nl_rest l s : forallb line_char l = true → cut_nl (l ++ NL :: s) = l.
Proof.
  induction l as [|c l IH]; simpl; [done|]. intros [Hc Hl]%andb_true_iff. unfold line_char in Hc.
  apply andb_true_iff in Hc as [H1%negb_true_iff H2%negb_true_iff]. rewrite H1, H2. simpl. by rewrite IH.
Qed.

Lemma append_raw_ok f s row row_id off :
  slots_ok f s → free_slots s = [] → 0 ≤ off < Z.of_nat (length f) → line_at f off = row → (length row < RECORD_SIZE - 1)%nat →
  record_count s < MAX_RECORDS →
  ∃ s', append_record_raw_memory s row row_id off = Some (Some (record_count s), s') ∧ slots_ok f s' ∧
    texts f s' = texts f s ++ [Some row] ∧ free_slots s' = [].
Proof.
  intros Hok Hfr Hoff Hline Hlen Hm.
  assert (append_record_raw_memory s row row_id off = append_record_csv s row row_id off) as ->.
  { unfold append_record_raw_memory, append_record_csv, take_record_slot. by rewrite Hfr. }
  assert (slot_ok f (new_slot row_id off)) as Hn.
  { constructor; simpl; try done; [|split; [done|by intros [? _]]]. intros _ _. by rewrite Hline. }
  destruct (append_at_ok f s row row_id off Hok Hn) as (r & s' & -> & Hr); [unfold slot_text; simpl; by rewrite Hline|].
  assert (Z.of_nat (length (texts f s)) = record_count s) as Hl by (unfold texts, record_count; by rewrite length_map).
  cbn [spec_op sp_free sp_rows] in Hr. rewrite Hfr in Hr. change (reverse (@nil Z)) with (@nil Z) in Hr. cbv iota in Hr.
  rewrite Hl, (proj2 (Z.leb_gt MAX_RECORDS _)) in Hr by done.
  destruct r as [i|]; [|by destruct Hr]. destruct Hr as [Hs' [= <- Ht Hf]]. exists s'. by rewrite <- Ht, <- Hf.
Qed.

(** The new slot stands behind the others. *)
Lemma append_raw_slots s row row_id off i s' :
  append_record_raw_memory s row row_id off = Some (Some i, s') → slots s' = slots s ++ [new_slot row_id off].
Proof.
  unfold append_record_raw_memory, take_record_slot. cbn [andb]. destruct (MAX_RECORDS <=? record_count s) eqn:Em; [done|]. bool_to_prop.
  destruct (ensure_record_capacity_ok s (record_count s + 1)) as (cap & -> & _); [lia|]. cbn [mbind option_bind].
  unfold assign_slot_row. cbn [record_capacity set_arrays].
  destruct (_ || _); [done|]. cbn [negb mbind option_bind]. intros [= <- <-].
  unfold activate, set_counts, set_slot, set_arrays, slot_at. cbn [slots]. unfold record_count. rewrite Nat2Z.id.
  rewrite !insert_app_r_alt by lia. rewrite Nat.sub_diag. cbn [insert list_insert].
  rewrite !lookup_app_r by lia. rewrite Nat.sub_diag. cbn. done.
Qed.

Section load.
Context (h : Header) (p : nat) (Hpk : h_pk h = Some p) (Huks : NoDup (h_uks h)).

(** While the rows are read: the trees stay empty when there is a log. *)
Record loading (f : cstr) (has : bool) (t : Table) (l : list (option cstr)) : Prop := {
  lo_table : table_at h (t_cache t) l (if has then [] else l);
  lo_file : c_file (t_cache t) = Some f;
  lo_free : free_slots (c_slots (t_cache t)) = [];
  lo_whole : cache_truncated t = false ∧ tail_entries (t_tail t) = [];
  lo_new : next_auto_id (t_cache t) = 1 ∧ next_row_id (t_cache t) = Z.of_nat (length l) + 1 ∧
           Forall (fun sl => s_store sl = ROW_STORE_CSV ∧ 0 ≤ s_id sl ≤ Z.of_nat (length l)) (slots (c_slots (t_cache t)));
}.

Lemma loading_slots f has t l :
  loading f has t l → slots_ok f (c_slots (t_cache t)) ∧ texts f (c_slots (t_cache t)) = l ∧
    pages_ok f (c_pages (t_cache t)) ∧ ends_nl f ∧ active_count (c_slots (t_cache t)) = Z.of_nat (length l).
Proof.
  intros [[H1 (f' & H2 & [Hs Hp He] & H3) H4] Hf Hfr _ _]. rewrite Hf in H2. injection H2 as <-. cbn [rs_file rs_pages rs_slots] in *.
  split_and!; try done. pose proof (ss_idle _ _ Hs) as Hi. rewrite Hfr in Hi. rewrite <- H3. unfold texts. rewrite length_map.
  unfold record_count in Hi. cbn [length] in Hi. lia.
Qed.

Lemma load_row_ok f has t l row k off n :
  loading f has t l → line_at f off = row → 0 ≤ off < Z.of_nat (length f) → (length row < RECORD_SIZE - 1)%nat →
  get_row_pk_value h row = Some k → (has = false → fresh_row h l k row) → Z.of_nat (length l) < MAX_RECORDS →
  ∃ t', load_row has row off t n = Some (true, t', if n <=? k then k + 1 else n) ∧ loading f has t' (l ++ [Some row]) ∧ t_delta t' = t_delta t.
Proof using Hpk Huks.
  intros Hlo Hline Hoff Hlen Hk Hfr Hm. destruct (loading_slots f has t l Hlo) as (Hs & Htx & Hp & He & Hact).
  destruct Hlo as [[Hh _ Htr] Hf Hfree Hwhole (Hn1 & Hn2 & Hn3)]. unfold load_row. rewrite Hh, Hpk.
  assert (line_key h row = Some k) as ->.
  { unfold line_key, get_row_pk_value, field_at in *. rewrite Hpk in *. destruct (parse_csv_row row !! p); [done|]. by vm_compute in Hk. }
  rewrite Hact, (proj2 (Z.ltb_lt _ MAX_RECORDS)) by done. cbn [andb].
  assert (record_count (c_slots (t_cache t)) = Z.of_nat (length l)) as Hrc.
  { rewrite <- Htx. unfold texts, record_count. by rewrite length_map. }
  destruct (append_raw_ok f (c_slots (t_cache t)) row (next_row_id (t_cache t)) off Hs Hfree Hoff Hline Hlen) as (s' & E & Hs' & Htx' & Hfree');
    [by rewrite Hrc|]. rewrite Htx in Htx'.
  change (c_slots (set_next (t_cache t) _ _)) with (c_slots (t_cache t)). rewrite E, Hrc. cbn [mbind option_bind].
  assert (Forall (fun sl => s_store sl = ROW_STORE_CSV ∧ 0 ≤ s_id sl ≤ Z.of_nat (length (l ++ [Some row]))) (slots s')) as Hn3'.
  { rewrite (append_raw_slots _ _ _ _ _ _ E), length_app. cbn [length]. apply Forall_app. split.
    - eapply List.Forall_impl; [|exact Hn3]. intros sl [? ?]. split; [done|lia].
    - constructor; [|constructor]. cbn. split; [done|lia]. }
  assert (next_row_id (t_cache t) + 1 = Z.of_nat (length (l ++ [Some row])) + 1) as Hn2' by (rewrite Hn2, length_app; cbn [length]; lia).
  destruct has.
  - eexists. split; [reflexivity|]. split; [|done]. split; [|exact Hf|exact Hfree'|exact Hwhole|by split_and!].
    split; [exact Hh| |exact Htr]. exists f. split; [exact Hf|]. split; [by split|exact Htx'].
  - destruct (index_new_row h _ _ l (l ++ [Some row]) (Z.of_nat (length l)) row k Htr) as (_ & tr & Hins & Hix).
    { intros j. unfold without. rewrite at_slot_insert by (rewrite length_app; simpl; lia). rewrite at_slot_app.
      destruct (decide (j = _)) as [->|]; [|done]. destruct (at_slot l _) eqn:Ea; [|done]. apply at_slot_bound in Ea. lia. }
    { rewrite at_slot_app. by rewrite decide_True. } { done. }
    { apply (fresh_row_keys h l _ _ k); [by apply Hfr|done| |rewrite at_slot_app; by rewrite decide_True].
      intros j. unfold without. rewrite at_slot_insert by (rewrite length_app; simpl; lia). rewrite at_slot_app.
      destruct (decide (j = _)) as [->|]; [|done]. destruct (at_slot l _) eqn:Ea; [|done]. apply at_slot_bound in Ea. lia. }
    change (c_id (set_slots (set_next (t_cache t) _ _) _)) with (c_id (t_cache t)). rewrite Hins. cbn [mbind option_bind].
    change (negb (1 =? 1)) with false. cbv iota. unfold index_record_uks_from_row. cbn [c_hdr set_id set_next set_slots set_store]. rewrite Hh.
    match goal with |- context [index_uk_fields (h_uks h) 0 _ _ ?x] => destruct (Hix x eq_refl) as (ts & -> & Htrs) end.
    cbn [mbind option_bind]. eexists. split; [reflexivity|]. split; [|done]. split; [|exact Hf|exact Hfree'|exact Hwhole|by split_and!].
    split; [exact Hh| |exact Htrs]. exists f. split; [exact Hf|]. split; [by split|exact Htx'].
Qed.

(** Every row has a key and takes no key or unique value of a row before it. *)
Fixpoint fresh_rows (l : list (option cstr)) (rows : list cstr) : Prop :=
  match rows with
  | [] => True
  | r :: rows' => match get_row_pk_value h r with
                  | Some k => fresh_row h l k r ∧ fresh_rows (l ++ [Some r]) rows'
                  | None => False
                  end
  end.

#[global] Instance fresh_rows_dec l rows : Decision (fresh_rows l rows).
Proof.
  revert l; induction rows as [|r rows IH]; intros l; simpl; [apply _|]. destruct (get_row_pk_value h r); apply _.
Defined.

Definition next_key (n : Z) (rows : list cstr) : Z :=
  foldl (fun n r => match get_row_pk_value h r with Some k => if n <=? k then k + 1 else n | None => n end) n rows.

Lemma load_rows_ok f has rows t l pre fuel n :
  loading f has t l → f = pre ++ row_lines rows → Forall plain_row rows →
  Forall (fun r => get_row_pk_value h r ≠ None) rows → (has = false → fresh_rows l rows) →
  Z.of_nat (length l + length rows) ≤ MAX_RECORDS → (length (row_lines rows) ≤ fuel)%nat →
  ∃ t', load_rows fuel has (row_lines rows) (Z.of_nat (length pre)) t n = Some (true, t', next_key n rows) ∧
    loading f has t' (l ++ map Some rows) ∧ t_delta t' = t_delta t.
Proof using Hpk Huks.
  intros Hlo Hf Hpl Hks. revert t l pre fuel n Hlo Hf Hks.
  induction Hpl as [|r rows (Hr & Hrl & Hrne) Hpl IH]; intros t l pre fuel n Hlo Hf Hks Hfr Hm Hfu.
  { exists t. split; [by destruct fuel|]. by rewrite app_nil_r. }
  apply Forall_cons_1 in Hks as [Hk Hks]. destruct (get_row_pk_value h r) as [k|] eqn:Ek; [|done].
  change (row_lines (r :: rows)) with ((r ++ [NL]) ++ row_lines rows) in *. rewrite <- app_assoc in *. cbn [app] in *.
  rewrite !length_app in Hfu. cbn [length] in Hfu, Hm.
  destruct fuel as [|fuel]; [lia|]. destruct (r ++ NL :: row_lines rows) as [|x s] eqn:Es; [by destruct r|].
  cbn [load_rows]. rewrite <- Es, fgets_line by (done || lia).
  assert (forallb line_end_free (r ++ [NL]) = false) as -> by (rewrite forallb_app; simpl; by rewrite andb_false_r).
  cbn [andb]. rewrite cut_nl_line by done. destruct r as [|b r0] eqn:Er; [done|]. rewrite <- Er in *. clear Hrne.
  assert (length f = length pre + (length r + S (length (row_lines rows))))%nat as Hfl.
  { rewrite Hf, length_app, <- Es, length_app. simpl. lia. }
  destruct (load_row_ok f has t l r k (Z.of_nat (length pre)) n Hlo) as (t1 & E1 & Hlo1 & Hd1).
  { unfold line_at. rewrite Nat2Z.id, Hf, drop_app_length, <- Es. by apply cut_nl_rest. }
  { rewrite Er in Hfl. simpl in Hfl. lia. } { done. } { done. }
  { intros H. specialize (Hfr H). simpl in Hfr. rewrite Ek in Hfr. apply Hfr. } { lia. }
  rewrite E1. cbn [mbind option_bind]. rewrite length_app. cbn [length].
  destruct (IH t1 (l ++ [Some r]) (pre ++ r ++ [NL]) fuel (if n <=? k then k + 1 else n) Hlo1) as (t2 & E2 & Hlo2 & Hd2).
  - rewrite Hf, <- Es, <- !app_assoc. done.
  - done.
  - intros H. specialize (Hfr H). simpl in Hfr. rewrite Ek in Hfr. apply Hfr.
  - rewrite length_app. simpl. lia.
  - lia.
  - exists t2. split; [|split; [by rewrite <- app_assoc in Hlo2|by rewrite Hd2]].
    replace (Z.of_nat (length pre) + Z.of_nat (length r + 1)) with (Z.of_nat (length (pre ++ r ++ [NL]))) by (rewrite !length_app; simpl; lia).
    rewrite E2. unfold next_key. cbn [foldl]. by rewrite Ek.
Qed.

(** ** Writing the rows *)

Definition rows_from (i : Z) (l : list (option cstr)) : list cstr := omap id (drop (Z.to_nat i) l).

Lemma rows_from_step i l :
  0 ≤ i < Z.of_nat (length l) →
  rows_from i l = match at_slot l i with Some r => r :: rows_from (i + 1) l | None => rows_from (i + 1) l end.
Proof.
  intros Hi. unfold rows_from, at_slot. rewrite (proj2 (Z.leb_le 0 i)) by lia.
  destruct (lookup_lt_is_Some_2 l (Z.to_nat i)) as [o Ho]; [lia|]. rewrite Ho, (drop_S _ _ _ Ho).
  replace (Z.to_nat (i + 1)) with (S (Z.to_nat i)) by lia. by destruct o.
Qed.

Lemma table_rows_ok n i c l l' :
  table_at h c l l' → 0 ≤ i → i + Z.of_nat n = Z.of_nat (length l) →
  ∃ c', table_rows n i c = Some (Some (row_lines (rows_from i l)), c') ∧ table_at h c' l l'.
Proof.
  intros Hc. revert i c Hc; induction n as [|n IH]; intros i c Hc Hi Hn; cbn [table_rows].
  { exists c. unfold rows_from. rewrite drop_ge by lia. done. }
  rewrite (slot_active_at h c l l' i Hc), rows_from_step by lia.
  destruct (at_slot l i) as [r|] eqn:Er; cbn [negb].
  - destruct (cache_row_at h c l l' i Hc) as (c1 & -> & Hc1 & _). rewrite Er. cbn [mbind option_bind].
    destruct (IH (i + 1) c1 Hc1) as (c2 & -> & Hc2); [lia|lia|]. cbn [mbind option_bind]. exists c2. split; [|done].
    f_equal. f_equal. f_equal. unfold row_lines. cbn [map concat]. by rewrite <- app_assoc.
  - destruct (IH (i + 1) c Hc) as (c2 & -> & Hc2); [lia|lia|]. by exists c2.
Qed.

(** The rows of a well-formed table can be inserted one after the other. *)
Lemma table_keys c l i r : table_ok h c l → at_slot l i = Some r → get_row_pk_value h r ≠ None.
Proof. intros Hc. by apply (tr_keys _ _ _ _ (ta_trees _ _ _ _ Hc)). Qed.

Lemma trees_distinct l t ts i j r r' k :
  trees_of h l t ts → at_slot l i = Some r → at_slot l j = Some r' → i ≠ j → get_row_pk_value h r = Some k →
  get_row_pk_value h r' ≠ Some k ∧ Forall (fun col => uk_text col r = [] ∨ uk_text col r' ≠ uk_text col r) (h_uks h).
Proof.
  intros Hc Hi Hj Hne Hk. split.
  - intros Hk'. apply Hne. destruct (tr_id _ _ _ _ Hc) as [_ Hf].
    assert (id_key h l i = Some k) as H1 by (unfold id_key; by rewrite Hi). assert (id_key h l j = Some k) as H2 by (unfold id_key; by rewrite Hj).
    apply Hf in H1, H2. rewrite H1 in H2. by injection H2.
  - apply Forall_forall. intros col Hcol%list_elem_of_In. apply list_elem_of_lookup in Hcol as [n Hn].
    destruct (tr_uks _ _ _ _ Hc n col Hn) as (u & _ & _ & Hu).
    destruct (uk_text col r) as [|b key] eqn:E; [by left|right]. intros E'.
    assert (uk_key col l i = Some (b :: key)) as H1 by (unfold uk_key; rewrite Hi; simpl; by rewrite E).
    assert (uk_key col l j = Some (b :: key)) as H2 by (unfold uk_key; rewrite Hj; simpl; by rewrite E').
    apply Hu in H1, H2. rewrite H1 in H2. by injection H2.
Qed.

Lemma table_distinct c l i j r r' k :
  table_ok h c l → at_slot l i = Some r → at_slot l j = Some r' → i ≠ j → get_row_pk_value h r = Some k →
  get_row_pk_value h r' ≠ Some k ∧ Forall (fun col => uk_text col r = [] ∨ uk_text col r' ≠ uk_text col r) (h_uks h).
Proof. intros Hc. exact (trees_distinct l _ _ i j r r' k (ta_trees _ _ _ _ Hc)). Qed.

Lemma table_fresh_rows c l i :
  table_ok h c l → 0 ≤ i → fresh_rows (map Some (omap id (take (Z.to_nat i) l))) (rows_from i l).
Proof.
  intros Hc. remember (length l - Z.to_nat i)%nat as n eqn:En. revert i En. induction n as [|n IH]; intros i En Hi.
  { unfold rows_from. by rewrite drop_ge by lia. }
  rewrite rows_from_step by lia. destruct (lookup_lt_is_Some_2 l (Z.to_nat i)) as [o Ho]; [lia|].
  assert (take (Z.to_nat (i + 1)) l = take (Z.to_nat i) l ++ [o]) as Et.
  { replace (Z.to_nat (i + 1)) with (S (Z.to_nat i)) by lia. by apply take_S_r. }
  specialize (IH (i + 1) ltac:(lia) ltac:(lia)). rewrite Et, omap_app, map_app in IH.
  destruct (at_slot l i) as [r|] eqn:Er.
  - pose proof Er as [Hr _]%at_slot_lookup. rewrite Ho in Hr. injection Hr as ->. simpl in IH. cbn [fresh_rows].
    destruct (get_row_pk_value h r) as [k|] eqn:Ek; [|by apply (table_keys c l i r Hc Er)]. split; [|done].
    apply Forall_forall. intros o Hin. apply in_map_iff in Hin as (r' & <- & Hin).
    apply list_elem_of_In, list_elem_of_omap in Hin as (o & Hin & Ho2). simpl in Ho2. subst o. apply list_elem_of_lookup in Hin as [j Hj].
    apply lookup_take_Some in Hj as [Hj Hlt].
    apply (table_distinct c l i (Z.of_nat j) r r' k); [done|done| |lia|done]. apply at_slot_lookup. rewrite Nat2Z.id. split; [done|lia].
  - assert (o = None) as ->.
    { destruct o as [r|]; [|done]. assert (at_slot l i = Some r) as H by by apply at_slot_lookup. congruence. }
    simpl in IH. by rewrite app_nil_r in IH.
Qed.
End load.

(** ** Opening *)

(** The first line of a file that the executor wrote. *)
Definition header_line_ok (h : Header) : Prop := header_ok h ∧ (length (write_table_header h) < RECORD_SIZE)%nat.

Lemma header_line h :
  header_line_ok h → ∃ g, write_table_header h = g ++ [NL] ∧ forallb line_char g = true ∧ (length g < RECORD_SIZE - 1)%nat ∧
    parse_header (g ++ [NL]) = h.
Proof.
  intros [Hh Hl]. pose proof (header_roundtrip h Hh) as Hrt. destruct Hh as (_ & _ & Hc & Hn & _).
  assert (write_table_header h = join_line (map col_text (h_cols h))) as E by (by apply (write_cols_line _ 0)).
  rewrite join_line_fields in E by (unfold col_count in Hc; destruct (h_cols h); simpl in *; [lia|done]).
  exists (join_fields (map col_text (h_cols h))). split; [done|]. rewrite E in Hl, Hrt. rewrite length_app in Hl. simpl in Hl.
  split; [|split; [lia|done]]. apply line_char_join, Forall_map_list. eapply List.Forall_impl; [|exact Hn].
  intros c [Hc' _]. by apply (col_text_scan c Hc').
Qed.

Lemma empty_index_long (f : Z → option Z) : (∀ i, f i = None) → ∃ t : tree Z, bptree_create always_ok = Some t ∧ index_of t f.
Proof.
  intros Hf. destruct (ix_create_ok (K := Z) (T := tree Z)) as (t & Ht & Hok & He). exists t. split; [done|]. split; [done|].
  intros k i. rewrite He, Hf. done.
Qed.

Lemma empty_index_string : ∃ u : tree cstr, bptree_string_create always_ok = Some u ∧ ∀ f : Z → option cstr, (∀ i, f i = None) → index_of u f.
Proof.
  destruct (ix_create_ok (K := cstr) (T := tree cstr)) as (u & Hu & Hok & He). exists u. split; [done|]. intros f Hf.
  split; [done|]. intros k i. rewrite He, Hf. done.
Qed.

Lemma at_slot_nil i : at_slot [] i = None.
Proof. unfold at_slot. by destruct (0 <=? i). Qed.

(** A table that was just opened. *)
Lemma reset_table_ok h f log :
  ends_nl f → ∃ t, reset_table h f log = Some t ∧ loading h f (bool_decide (log ≠ None)) t [] ∧
    t_delta t = mkDelta log (length (default [] log)) false false 0 0.
Proof.
  intros He. unfold reset_table. destruct (empty_index_long (id_key h [])) as (t & -> & Ht).
  { intros i. unfold id_key. by rewrite at_slot_nil. }
  destruct empty_index_string as (u & -> & Hu). cbn [mbind option_bind]. eexists. split; [reflexivity|]. split; [|done].
  assert (trees_of h [] t (map (fun _ => Some u) (h_uks h))) as Htr.
  { split; [done| |by rewrite length_map|].
    - intros i r. by rewrite at_slot_nil.
    - intros k col Hk. exists u. rewrite list_lookup_fmap, Hk. split; [done|]. apply Hu. intros i. unfold uk_key. by rewrite at_slot_nil. }
  split; [|done|done|done|by split_and!]. split; [done| |by destruct (bool_decide _)].
  exists f. split; [done|]. split; [|done]. pose proof (empty_store_ok []) as [[] _ _].
  split; [|apply pages_ok_clear|done]. by constructor.
Qed.

(** The loop reads the rows of a file that was written. *)
Lemma load_rows_of_text h p log rows :
  header_line_ok h → h_pk h = Some p → Forall plain_row rows → Forall (fun r => get_row_pk_value h r ≠ None) rows →
  (log = None → fresh_rows h [] rows) → Z.of_nat (length rows) ≤ MAX_RECORDS →
  let f := write_table_header h ++ row_lines rows in
  ∃ t, loading h f (bool_decide (log ≠ None)) t (map Some rows) ∧ t_delta t = mkDelta log (length (default [] log)) false false 0 0 ∧
    ∀ io, load_table_contents io f log = finish_load io t (next_key h 1 rows).
Proof.
  cbv zeta. intros Hhl Hpk Hpl Hks Hfr Hm. pose proof Hhl as [Hh _].
  destruct (header_line h Hhl) as (g & Hg & Hgl & Hgn & Hgp). set (f := write_table_header h ++ row_lines rows).
  assert (ends_nl f) as He.
  { right. unfold f. destruct rows as [|r rows _] using rev_ind; [rewrite Hg; exists g; unfold row_lines; simpl; by rewrite app_nil_r|].
    exists (write_table_header h ++ row_lines rows ++ r). unfold row_lines. rewrite map_app, concat_app. cbn [map concat].
    by rewrite app_nil_r, !app_assoc. }
  destruct (reset_table_ok h f log He) as (t & Ht & Hlo & Hd).
  destruct (load_rows_ok h p Hpk (header_uks_NoDup h Hh) f (bool_decide (log ≠ None)) rows t [] (g ++ [NL]) (length (row_lines rows)) 1)
    as (t' & E & Hlo' & Hd'); [done|by rewrite <- Hg|done|done| |done|done|].
  { intros H%bool_decide_eq_false. apply Hfr. by destruct log; [destruct H|]. }
  exists t'. split; [done|]. split; [by rewrite Hd'|]. intros io. unfold load_table_contents.
  assert (fgets (RECORD_SIZE - 1) f = (g ++ [NL], row_lines rows)) as ->.
  { unfold f. rewrite Hg, <- app_assoc. cbn [app]. by apply fgets_line. }
  assert (match g ++ [NL] with [] => mkHeader [] None [] | _ :: _ => parse_header (g ++ [NL]) end = h) as ->.
  { revert Hgp. destruct (g ++ [NL]) eqn:Eg; [by destruct g|]. done. }
  rewrite Ht. cbn [mbind option_bind]. rewrite Hd.
  assert (delta_log_exists (mkDelta log (length (default [] log)) false false 0 0) = bool_decide (log ≠ None)) as -> by (by destruct log).
  rewrite E. done.
Qed.

Lemma next_key_spec h n rows :
  n ≤ next_key h n rows ∧ Forall (fun r => ∀ k, get_row_pk_value h r = Some k → k < next_key h n rows) rows.
Proof.
  revert n; induction rows as [|r rows IH]; intros n; [split; [simpl; lia|done]|]. unfold next_key. cbn [foldl].
  set (n' := match get_row_pk_value h r with Some k => if n <=? k then k + 1 else n | None => n end).
  destruct (IH n') as [H1 H2]. unfold next_key in H1, H2.
  assert (n ≤ n' ∧ ∀ k, get_row_pk_value h r = Some k → k < n') as [Hn Hk].
  { unfold n'. destruct (get_row_pk_value h r) as [k|]; [|split; [lia|done]].
    destruct (n <=? k) eqn:E; bool_to_prop; (split; [lia|]); intros k' [= <-]; lia. }
  split; [lia|]. constructor; [|done]. intros k Ek. specialize (Hk k Ek). lia.
Qed.

Lemma fresh_rows_keys h l rows : fresh_rows h l rows → Forall (fun r => get_row_pk_value h r ≠ None) rows.
Proof.
  revert l; induction rows as [|r rows IH]; intros l Hfr; [done|]. simpl in Hfr.
  destruct (get_row_pk_value h r) eqn:E; [|done]. constructor; [by rewrite E|]. by eapply IH, Hfr.
Qed.

(** Without a log, opening the file gives its rows and exact indexes. *)
Lemma load_text_ok io h p rows :
  header_line_ok h → h_pk h = Some p → Forall plain_row rows → fresh_rows h [] rows → Z.of_nat (length rows) ≤ MAX_RECORDS →
  let f := write_table_header h ++ row_lines rows in
  ∃ t, load_table_contents io f None = Some (true, t) ∧ table_ok h (t_cache t) (map Some rows) ∧ c_file (t_cache t) = Some f ∧
    append_ok t f ∧ cache_truncated t = false ∧ log_text (t_delta t) = None ∧
    Forall (fun r => ∀ k, get_row_pk_value h r = Some k → k < next_auto_id (t_cache t)) rows ∧
    active_count (c_slots (t_cache t)) = Z.of_nat (length rows).
Proof.
  cbv zeta. intros Hhl Hpk Hpl Hfr Hm.
  pose proof (fresh_rows_keys h [] rows Hfr) as Hks.
  destruct (load_rows_of_text h p None rows Hhl Hpk Hpl Hks) as (t & Hlo & Hd & E); [done|done|]. rewrite E.
  destruct (loading_slots h _ _ _ _ Hlo) as (Hs & Htx & Hp & He & Hact). rewrite length_map in Hact.
  destruct Hlo as [[Hh Hfile Htr] Hf _ [Htr' _] _]. cbn in Htr.
  assert (delta_log_exists (t_delta t) = false) as Hno by by rewrite Hd.
  unfold finish_load. rewrite Hno. cbn [andb]. cbv iota zeta. rewrite Hno. cbn [negb]. eexists. split; [reflexivity|].
  set (c := raise_auto_id (t_cache t) (next_key h 1 rows)).
  assert (table_ok h c (map Some rows) ∧ c_file c = Some (write_table_header h ++ row_lines rows) ∧
    next_key h 1 rows ≤ next_auto_id c ∧ c_slots c = c_slots (t_cache t)) as (H1 & H2 & H3 & H4).
  { unfold c, raise_auto_id. destruct (next_auto_id (t_cache t) <? next_key h 1 rows) eqn:El; bool_to_prop.
    - split_and!; [by split|done|simpl; lia|done].
    - split_and!; [by split|done|lia|done]. }
  split; [exact H1|]. split; [exact H2|]. split; [right; unfold set_append_offset; cbn; by rewrite H2|]. split; [exact Htr'|].
  split; [cbn; by rewrite Hd|]. split; [|cbn; by rewrite H4].
  destruct (next_key_spec h 1 rows) as [_ Hn]. eapply List.Forall_impl; [|exact Hn]. intros r Hr k Hk. cbn. specialize (Hr k Hk). lia.
Qed.

(** ** A log without indexes *)

Section pending.
Context (h : Header) (p : nat) (Hpk : h_pk h = Some p).

(** The scan stops at a row with the key when there is one. *)
Lemma find_scan_hit n i k c l l' :
  table_at h c l l' → (∃ j, i ≤ j < i + Z.of_nat n ∧ id_key h l j = Some k) →
  ∃ j c', find_scan n i k c = Some (Some j, c') ∧ table_at h c' l l' ∧ id_key h l j = Some k.
Proof using Hpk.
  intros Hc. revert i c Hc; induction n as [|n IH]; intros i c Hc (j & Hj & Hk); [lia|]. cbn [find_scan].
  destruct (cache_row_at h c l l' i Hc) as (c1 & -> & Hc1 & _). cbn [mbind option_bind].
  assert (match at_slot l i with Some r => bool_decide (get_row_index_key c1 r i = Some k) | None => false end =
    bool_decide (id_key h l i = Some k)) as ->.
  { unfold id_key. destruct (at_slot l i) as [r|]; [|done]. simpl. by rewrite (row_key h p Hpk c1) by apply Hc1. }
  destruct (bool_decide_reflect (id_key h l i = Some k)) as [Hi|Hi]; [by exists i, c1|].
  apply (IH (i + 1) c1 Hc1). exists j. split; [|done]. assert (j ≠ i) by congruence. lia.
Qed.

(** A change of a row of the table, the trees being empty. *)
Lemma apply_without_index c l op :
  table_at h c l [] → (∃ j, id_key h l j = Some (delta_id op)) → ∃ c', apply_delta_op op c = Some (false, c').
Proof using Hpk.
  intros Hc (j & Hj). unfold apply_delta_op, find_record_index_by_key.
  pose proof (tr_id _ _ _ _ (ta_trees _ _ _ _ Hc)) as Hid.
  assert (∀ i k, id_key h [] i ≠ Some k) as Hno by (intros i k; unfold id_key; by rewrite at_slot_nil).
  rewrite (index_search_None _ _ (delta_id op) Hid) by done.
  pose proof (table_length h c l [] Hc) as Hlen. unfold record_count in Hlen.
  destruct (find_scan_hit (length (slots (c_slots c))) 0 (delta_id op) c l [] Hc) as (i & c1 & -> & Hc1 & Hi).
  { exists j. split; [|done]. unfold id_key in Hj. destruct (at_slot l j) as [r|] eqn:E; [|done]. apply at_slot_bound in E. lia. }
  cbn [mbind option_bind]. destruct (cache_row_at h c1 l [] i Hc1) as (c2 & -> & Hc2 & _). cbn [mbind option_bind].
  unfold id_key in Hi. destruct (at_slot l i) as [r|] eqn:Er; [|done]. simpl in Hi. unfold remove_record_indexes.
  rewrite (ta_hdr _ _ _ _ Hc2), Hpk. unfold get_row_pk_value in Hi. rewrite Hpk in Hi. cbn [mbind option_bind]. rewrite Hi.
  cbn [mbind option_bind]. pose proof (index_delete_None (c_id c2) (id_key h []) (delta_id op) (tr_id _ _ _ _ (ta_trees _ _ _ _ Hc2)) ltac:(done)) as Hd.
  destruct (ix_delete (c_id c2) (delta_id op)) as [rc t]. cbn [fst] in Hd. rewrite (Hd ltac:(by intros i'; apply Hno)). cbn. by eexists.
Qed.

Lemma load_pending io rows op ops rest :
  header_line_ok h → Forall plain_row rows → Forall (fun r => get_row_pk_value h r ≠ None) rows →
  Z.of_nat (length rows) ≤ MAX_RECORDS → Forall op_ok (op :: ops) →
  Exists (fun r => get_row_pk_value h r = Some (delta_id op)) rows →
  ∃ t, load_table_contents io (write_table_header h ++ row_lines rows) (Some (batch_text (op :: ops) ++ rest)) = Some (false, t).
Proof using Hpk.
  intros Hhl Hpl Hks Hm Hops Hex. set (log := batch_text (op :: ops) ++ rest).
  destruct (load_rows_of_text h p (Some log) rows Hhl Hpk Hpl Hks) as (t & Hlo & Hd & E); [done|done|]. rewrite E. clear E.
  destruct (loading_slots h _ _ _ _ Hlo) as (_ & _ & _ & _ & Hact). rewrite length_map in Hact.
  assert (rows ≠ []) as Hne by (intros ->; by apply Exists_nil in Hex).
  assert (delta_log_exists (t_delta t) = true) as Hyes by by rewrite Hd.
  unfold finish_load. rewrite Hyes, Hact. rewrite (proj2 (Z.eqb_neq _ 0)) by (destruct rows; [done|simpl; lia]).
  cbn [andb]. cbv iota zeta. rewrite Hyes. cbn [negb]. rewrite Hd. cbn [log_text replay_delta_log].
  destruct (apply_without_index (t_cache t) (map Some rows) op) as (c' & Hc').
  { exact (lo_table _ _ _ _ _ Hlo). }
  { apply Exists_exists in Hex as (r & Hr & Hk). apply list_elem_of_In, list_elem_of_lookup in Hr as [i Hi]. exists (Z.of_nat i).
    unfold id_key, at_slot. rewrite (proj2 (Z.leb_le 0 _)), Nat2Z.id, list_lookup_fmap, Hi by lia. done. }
  rewrite (replay_fuel apply_delta_ops (length log) (S (length (op :: ops) + S (length log)))).
  - unfold log at 2. rewrite replay_batch by done. cbn [apply_delta_ops]. rewrite Hc'. by eexists.
  - lia.
  - lia.
Qed.
End pending.

(** ** Rewriting with the file closed *)

(** Reading a slot while the file is closed. *)
Lemma closed_row c i :
  slot_is_active (c_slots c) i = true →
  ∃ c', cache_row (set_file c None) i = Some (s_row (slot_at (c_slots c) i), set_file c' None) ∧
    (∀ j, slot_is_active (c_slots c') j = slot_is_active (c_slots c) j ∧ s_row (slot_at (c_slots c') j) = s_row (slot_at (c_slots c) j)).
Proof.
  intros Ha. unfold cache_row, slot_row. cbn [c_file c_pages c_slots set_file]. rewrite Ha. cbn [negb].
  destruct (s_row (slot_at (c_slots c) i)) as [r|] eqn:Er; [|by exists c].
  case_bool_decide; [by exists c|]. cbn [mbind option_bind].
  apply slot_is_active_spec in Ha as [Hi Ha]. unfold record_count in Hi.
  match goal with |- context [set_store _ _ ?s'] => exists (set_slots c s'); split; [reflexivity|]; set (s := s') end.
  intros j. cbn [c_slots set_slots set_store]. unfold slot_is_active, record_count, slot_at, s. cbn [slots set_clock set_slot].
  rewrite length_insert. destruct (decide (Z.to_nat i = Z.to_nat j)) as [E|E]; [|by rewrite list_lookup_insert_ne].
  rewrite E, list_lookup_insert_eq by lia. fold (slot_at (c_slots c) j).
  assert (slot_at (c_slots c) j = slot_at (c_slots c) i) as -> by (unfold slot_at; by rewrite E). simpl. by rewrite Er.
Qed.

Lemma closed_rows_stop n i c j :
  i ≤ j < i + Z.of_nat n → slot_is_active (c_slots c) j = true → s_row (slot_at (c_slots c) j) = None →
  ∃ c', table_rows n i (set_file c None) = Some (None, c').
Proof.
  revert i c; induction n as [|n IH]; intros i c Hj Ha Hr; [lia|]. cbn [table_rows]. cbn [c_slots set_file].
  destruct (slot_is_active (c_slots c) i) eqn:Ei; cbn [negb].
  - destruct (closed_row c i Ei) as (c1 & -> & Hsame). cbn [mbind option_bind].
    destruct (s_row (slot_at (c_slots c) i)) as [r|] eqn:Er; [|by eexists].
    destruct (Hsame j) as [Ha' Hr']. assert (j ≠ i) by congruence.
    destruct (IH (i + 1) c1) as (c2 & ->); [lia|congruence|congruence|]. cbn. by eexists.
  - assert (j ≠ i) by congruence. apply IH; [lia|done|done].
Qed.
