(* ===== verification/LegacyClaims.v ===== *)
(** What the stand-alone executor promises about a whole table: an INSERT, closing and
    opening it, a crash, and the two situations in which it gives up. *)

From Stdlib Require Import String.
From S2P Require Import Prelude CString BPTree BPTreeProofs BPTreeSpec BPTreeString BPTreeIndex Parser Values Table Store StoreProofs.
From S2P Require Import LegacyRow LegacyRowProofs LegacyCache LegacyCacheProofs LegacyIndex LegacyIndexProofs DeltaLog DeltaLogProofs LegacyTable LegacyTableProofs LegacyLoadProofs.
From stdpp Require Import base numbers list sorting option.
Local Open Scope Z_scope.

(** ** A sample table *)

Definition sample_head : Header :=
  mkHeader [mkCol (lit "id") COL_PK; mkCol (lit "email") COL_UK; mkCol (lit "name") COL_NORMAL] (Some 0%nat) [1%nat].

Definition sample_rows : list cstr := [lit "1,a@x,kim"; lit "2,b@x,lee"].

Definition sample_file : cstr := write_table_header sample_head ++ row_lines sample_rows.

Definition no_log : Delta := mkDelta None 0 false false 0 0.

(** The table after its file was opened. *)
Definition sample_table : Table :=
  match load_table_contents (fun _ => true) sample_file None with
  | Some (_, t) => t
  | None => mkTable (mkCache sample_head None clear_page_cache slots0 (mkTree (empty_leaf 0) 8 1) [] 1 1) (mkTail [] 0) false 0 (-1) no_log
  end.

Lemma sample_head_ok : header_line_ok sample_head.
Proof. split; [apply (bool_decide_unpack _); vm_compute; done|apply Nat.ltb_lt; vm_compute; reflexivity]. Qed.

Lemma sample_rows_plain : Forall plain_row sample_rows.
Proof. apply (bool_decide_unpack _). vm_compute. done. Qed.

Lemma sample_table_ok :
  table_ok sample_head (t_cache sample_table) (map Some sample_rows) ∧ c_file (t_cache sample_table) = Some sample_file ∧
  append_ok sample_table sample_file ∧ cache_truncated sample_table = false ∧ active_count (c_slots (t_cache sample_table)) = 2.
Proof.
  destruct (load_text_ok (fun _ => true) sample_head 0 sample_rows sample_head_ok eq_refl sample_rows_plain) as (t & E & H1 & H2 & H3 & H4 & _ & _ & H5).
  - apply (bool_decide_unpack _). vm_compute. done.
  - unfold MAX_RECORDS. simpl. lia.
  - unfold sample_table, sample_file. rewrite E. split; [exact H1|]. split; [exact H2|]. split; [exact H3|]. split; [exact H4|exact H5].
Qed.

Lemma length_omap_le (l : list (option cstr)) : (length (omap id l) ≤ length l)%nat.
Proof. induction l as [|[r|] l IH]; [done| |]; cbn in *; lia. Qed.

(** ** INSERT *)



(** ** Closing and opening *)

(** Round trip of a table of the stand-alone executor through its file: what
    compaction writes when the program ends is the header and the active rows in the
    order of their slots, whether they were cached, in the file or only in memory,
    and opening that file gives exactly these rows again, with exact indexes, the
    next automatic key beyond every key and nothing left in a log. *)
Theorem table_reopens (io : nat → bool) (t : Table) (h : Header) (p : nat) (l : list (option cstr)) :
  header_line_ok h → h_pk h = Some p → table_ok h (t_cache t) l → Forall plain_row (omap id l) →
  ∃ text t', compact_table_file_for_shutdown t = Some (Some text) ∧
    text = write_table_header h ++ row_lines (omap id l) ∧
    load_table_contents io text None = Some (true, t') ∧ table_ok h (t_cache t') (map Some (omap id l)) ∧
    c_file (t_cache t') = Some text ∧ append_ok t' text ∧ cache_truncated t' = false ∧
    Forall (fun r => ∀ k, get_row_pk_value h r = Some k → k < next_auto_id (t_cache t')) (omap id l).
Proof.
  intros Hhl Hpk Hc Hpl. pose proof Hhl as [Hh _]. pose proof Hc as [Hch (f & Hf & [Hs _ _] & _) _].
  pose proof (table_length h _ l l Hc) as Hlen. pose proof (ss_max _ _ Hs) as Hmax. cbn [rs_slots] in Hmax.
  destruct (table_rows_ok h (length (slots (c_slots (t_cache t)))) 0 (t_cache t) l l Hc) as (c' & E & _); [lia|unfold record_count in Hlen; lia|].
  destruct (load_text_ok io h p (omap id l) Hhl Hpk Hpl) as (t' & E' & H1 & H2 & H3 & H4 & _ & H5 & _).
  - apply (table_fresh_rows h _ l 0 Hc). lia.
  - pose proof (length_omap_le l). lia.
  - eexists _, t'. unfold compact_table_file_for_shutdown, table_text. rewrite Hf, E. cbn [mbind option_bind]. rewrite Hch.
    split; [reflexivity|]. split; [done|]. split; [exact E'|]. split; [exact H1|]. split; [exact H2|]. split; [exact H3|]. by split.
Qed.

Lemma table_reopens_witness :
  ∃ text t', compact_table_file_for_shutdown sample_table = Some (Some text) ∧ text = sample_file ∧
    load_table_contents (fun _ => true) text None = Some (true, t') ∧ table_ok sample_head (t_cache t') (map Some sample_rows) ∧
    c_file (t_cache t') = Some text ∧ append_ok t' text ∧ cache_truncated t' = false ∧
    Forall (fun r => ∀ k, get_row_pk_value sample_head r = Some k → k < next_auto_id (t_cache t')) sample_rows.
Proof.
  apply (table_reopens (fun _ => true) sample_table sample_head 0 (map Some sample_rows) sample_head_ok eq_refl).
  - exact (proj1 sample_table_ok).
  - exact sample_rows_plain.
Defined.

(** ** A crash *)

Definition log0 : LogSpec := mkLogSpec [] None 0.

Lemma no_log_rep : log_rep no_log log0.
Proof. by split. Qed.


Definition all_writes (n : nat) : bool := true.

(** Two batches that were closed, the write of the second change of the second one
    having failed, and one that was open when the power went. *)
Definition sample_calls : list ((nat → bool) * LogCall) :=
  [(all_writes, LogChange (DeltaUpdate 1 (lit "1,a@x,kang"))); (all_writes, LogClose);
   (all_writes, LogChange (DeltaDelete 2)); (fun n => negb (n =? 1)%nat, LogChange (DeltaDelete 1)); (all_writes, LogClose);
   (all_writes, LogChanges [Some (DeltaUpdate 1 (lit "1,z@x,kim")); Some (DeltaDelete 1)])].


(** ** Where it gives up *)

(** A log that is still there when a table is opened without a snapshot of its
    indexes, as after a crash that followed an INSERT, closes the table for good:
    the rows are read without being indexed, and as soon as the first closed batch
    begins with a change of a row of the file, its key is not found in the empty
    tree and opening fails. *)
Theorem pending_log_blocks_open (io : nat → bool) (h : Header) (p : nat) (rows : list cstr) (op : DeltaOp) (ops : list DeltaOp)
    (rest : cstr) :
  header_line_ok h → h_pk h = Some p → Forall plain_row rows → Forall (fun r => get_row_pk_value h r ≠ None) rows →
  Z.of_nat (length rows) ≤ MAX_RECORDS → Forall op_ok (op :: ops) →
  Exists (fun r => get_row_pk_value h r = Some (delta_id op)) rows →
  ∃ t, load_table_contents io (write_table_header h ++ row_lines rows) (Some (batch_text (op :: ops) ++ rest)) = Some (false, t).
Proof. intros Hhl Hpk. by apply (load_pending h p). Qed.

Lemma pending_log_blocks_open_witness :
  ∃ t, load_table_contents all_writes sample_file (Some (batch_text [DeltaUpdate 1 (lit "1,a@x,kang")] ++ [])) = Some (false, t).
Proof.
  apply (pending_log_blocks_open all_writes sample_head 0 sample_rows (DeltaUpdate 1 (lit "1,a@x,kang")) [] []).
  - exact sample_head_ok.
  - reflexivity.
  - exact sample_rows_plain.
  - apply (bool_decide_unpack _). vm_compute. done.
  - unfold MAX_RECORDS. simpl. lia.
  - apply (bool_decide_unpack _). vm_compute. done.
  - left. vm_compute. reflexivity.
Defined.

(** Rewriting a table file fails, and leaves the file and its log as they are,
    whenever one row of the table is not in memory: the file is closed before its
    rows are read. Rows that were inserted or read from the file when the table was
    opened are not in memory until a statement reads them. *)
Theorem rewrite_needs_every_row (io : nat → bool) (t : Table) (i : Z) :
  slot_is_active (c_slots (t_cache t)) i = true → s_row (slot_at (c_slots (t_cache t)) i) = None →
  ∃ t', rewrite_file io t = Some (false, t') ∧ c_file (t_cache t') = c_file (t_cache t) ∧ t_delta t' = t_delta t.
Proof.
  intros Ha Hr. unfold rewrite_file, table_text.
  pose proof Ha as [Hi _]%slot_is_active_spec. unfold record_count in Hi.
  destruct (closed_rows_stop (length (slots (c_slots (t_cache t)))) 0 (t_cache t) i) as (c' & E); [lia|done|done|].
  cbn [c_slots set_file] in *. rewrite E. cbn [mbind option_bind]. eexists. split; [reflexivity|done].
Qed.

Lemma rewrite_needs_every_row_witness :
  ∃ t', rewrite_file all_writes sample_table = Some (false, t') ∧ c_file (t_cache t') = c_file (t_cache sample_table) ∧
    t_delta t' = t_delta sample_table.
Proof. apply (rewrite_needs_every_row all_writes sample_table 0); vm_compute; reflexivity. Defined.

(** A batch that was torn by a crash is not closed by the next start of the program:
    the log goes on behind it, and when the torn line happens to be whole, what comes
    before the next start of a batch is dropped, but a line that was cut swallows the
    start, and the changes of both are closed together. *)
Example torn_line_swallows_the_start :
  (fst <$> replay (fun ops done => Some (true, done ++ [ops])) 20 None
     (lit "B" ++ [NL] ++ lit "D" ++ [TAB] ++ lit "1" ++ [NL] ++ lit "D" ++ [TAB] ++ lit "2" ++
      lit "B" ++ [NL] ++ lit "D" ++ [TAB] ++ lit "7" ++ [NL] ++ lit "E" ++ [NL]) []) = Some true ∧
  (snd <$> replay (fun ops done => Some (true, done ++ [ops])) 20 None
     (lit "B" ++ [NL] ++ lit "D" ++ [TAB] ++ lit "1" ++ [NL] ++ lit "D" ++ [TAB] ++ lit "2" ++
      lit "B" ++ [NL] ++ lit "D" ++ [TAB] ++ lit "7" ++ [NL] ++ lit "E" ++ [NL]) []) = Some [[DeltaDelete 1; DeltaDelete 7]].
Proof. vm_compute. done. Qed.
