(* ===== verification/LegacySelect.v ===== *)
(** SELECT of the stand-alone executor, [src/legacy/executor.c]: by index, by a scan of
    the rows, and in the part of the file that is not in memory.

    What is printed is the list of result lines; the lines about the index that is
    used are left out. *)

From Stdlib Require Import String.
From S2P Require Import Prelude CString BPTree BPTreeString BPTreeIndex Parser Values Table Store LegacyRow LegacyCache LegacyIndex DeltaLog LegacyTable.
From stdpp Require Import base numbers list option.
Local Open Scope Z_scope.

(** [SelectExecContext]: the columns ([None] is all of them) and whether rows are
    printed. *)
Record Sel := mkSel { sel_cols : option (list nat); sel_emit : bool }.

(** [matched_rows] and the lines. *)
Definition Out : Type := Z * list cstr.

Definition emit (x : Sel) (row : cstr) (o : Out) : Out :=
  (o.1 + 1, if sel_emit x then o.2 ++ [emit_selected_row row (sel_cols x)] else o.2).

Fixpoint select_idx (h : Header) (cols : list cstr) : option (list nat) :=
  match cols with
  | [] => Some []
  | c :: cols' => i ← get_col_idx h c; rest ← select_idx h cols'; Some (i :: rest)
  end.

Definition select_columns (h : Header) (stmt : Statement) : option (option (list nat)) :=
  if select_all stmt then Some None else idxs ← select_idx h (select_cols stmt); Some (Some idxs).

(** ** Rows in memory *)

Section visitor.
Context {K : Type} (h : Header) (stmt : Statement) (x : Sel).

(** The visitor of a range; its context is the table and what was printed, [None]
    after an access that C does not define. *)
Definition print_range_row_visitor : @visitor K (option (Cache * Out)) := fun _ row_index ctx =>
  match ctx with
  | None => (false, None)
  | Some (c, o) =>
      if negb (slot_is_active (c_slots c) row_index) then (true, Some (c, o))
      else
        match cache_row c row_index with
        | None => (false, None)
        | Some (Some row, c1) => (true, Some (c1, if row_matches_statement h stmt row then emit x row o else o))
        | Some (None, c1) => (true, Some (c1, o))
        end
  end.
End visitor.

(** The loop over all slots. *)
Fixpoint scan_slots (n : nat) (i : Z) (stmt : Statement) (x : Sel) (c : Cache) (o : Out) : Cache * Out :=
  match n with
  | O => (c, o)
  | S n' =>
      let '(row, pc) := slot_row_scan (c_file c) (c_pages c) (c_slots c) i in
      let c1 := set_store c pc (c_slots c) in
      scan_slots n' (i + 1) stmt x c1
        (match row with
         | Some r => if row_fields_match_statement (c_hdr c) stmt (parse_csv_row r) then emit x r o else o
         | None => o
         end)
  end.

(** ** Rows that are only in the file *)

(** The loops of the three scans of the file, which differ in [test]. *)
Fixpoint scan_lines (fuel : nat) (test : cstr → bool) (x : Sel) (text : cstr) (o : Out) : option Out :=
  match text with
  | [] => Some o
  | _ =>
      match fuel with
      | O => None
      | S f =>
          let '(line, rest) := fgets (RECORD_SIZE - 1) text in
          if forallb line_end_free line && (length line =? RECORD_SIZE - 1)%nat then Some o
          else
            match cut_nl line with
            | [] => scan_lines f test x rest o
            | row => scan_lines f test x rest (if test row then emit x row o else o)
            end
      end
  end.

(** From [start_offset] on, or all lines but the first. *)
Definition scan_file (t : Table) (test : cstr → bool) (x : Sel) (start_offset : Z) (o : Out) : option Out :=
  match c_file (t_cache t) with
  | None => Some o
  | Some f =>
      let text := if 0 <? start_offset then drop (Z.to_nat start_offset) f else (fgets (RECORD_SIZE - 1) f).2 in
      scan_lines (length text) test x text o
  end.

Definition execute_select_file_scan (t : Table) (start_offset : Z) (stmt : Statement) (x : Sel) (o : Out) : option Out :=
  scan_file t (row_matches_statement (c_hdr (t_cache t)) stmt) x start_offset o.

Definition execute_select_file_range_scan (t : Table) (start_offset : Z) (stmt : Statement) (where_idx : nat) (x : Sel)
    (start_key end_key : Z) (o : Out) : option Out :=
  if end_key <? start_key then Some o
  else
    scan_file t (fun line =>
      let fields := parse_csv_row line in
      match parse_long_value (field_at fields where_idx) with
      | None => false
      | Some k => (start_key <=? k) && (k <=? end_key) && row_fields_match_statement (c_hdr (t_cache t)) stmt fields
      end) x start_offset o.

Definition execute_select_file_string_range_scan (t : Table) (start_offset : Z) (stmt : Statement) (where_idx : nat) (x : Sel)
    (start_key end_key : cstr) (o : Out) : option Out :=
  if negb (str_le start_key end_key) then Some o
  else
    scan_file t (fun line =>
      let fields := parse_csv_row line in
      let key := normalize_value (field_at fields where_idx) RECORD_SIZE in
      str_le start_key key && str_le key end_key && row_fields_match_statement (c_hdr (t_cache t)) stmt fields) x start_offset o.

(** The row of the file at [offset], when it has the key and matches. *)
Definition print_tail_pk_offset_row (t : Table) (offset key : Z) (stmt : Statement) (x : Sel) (o : Out) : option Out :=
  let h := c_hdr (t_cache t) in
  f ← c_file (t_cache t);
  if offset <? 0 then None
  else
    match fgets (RECORD_SIZE - 1) (drop (Z.to_nat offset) f) with
    | ([], _) => None
    | (line, _) =>
        if forallb line_end_free line && (length line =? RECORD_SIZE - 1)%nat then None
        else
          let row := cut_nl line in
          if bool_decide (get_row_pk_value h row = Some key) && row_matches_statement h stmt row then Some (emit x row o) else None
    end.

(** ** The statement *)

Definition o0 : Out := (0, []).

(** Success, the count the caller is given with what was printed, the table. *)
Definition SelRes : Type := option (bool * Out * Table).

Definition sel_done (t : Table) (o : Out) : SelRes := Some (true, o, t).
Definition sel_fail (t : Table) (o : Out) : SelRes := Some (false, (0, o.2), t).

(** A range of an index: [tree] says what to scan, [tail] what to scan in the file. *)
Definition select_range {K T} `{!KeyOrder K, !OrderedIndex K T} (t : Table) (stmt : Statement) (x : Sel) (tree : T) (start_key end_key : K)
    (tail : Table → Out → option Out) : SelRes :=
  '(ok, ctx) ← ix_range _ tree start_key end_key (print_range_row_visitor (c_hdr (t_cache t)) stmt x) (Some (t_cache t, o0));
  '(c1, o) ← ctx;
  let t1 := set_cache t c1 in
  if negb (ok : bool) then sel_fail t1 o
  else if cache_truncated t then o1 ← tail t1 o; sel_done t1 o1 else sel_done t1 o.

Definition select_between (t : Table) (stmt : Statement) (x : Sel) (cond : WhereCondition) (col : nat) : SelRes :=
  let c := t_cache t in
  if bool_decide (h_pk (c_hdr c) = Some col) then
    match parse_long_value (wc_val cond), parse_long_value (wc_end_val cond) with
    | Some a, Some b =>
        select_range t stmt x (c_id c) a b (fun t1 o => execute_select_file_range_scan t1 (uncached_start_offset t1) stmt col x a b o)
    | _, _ => sel_fail t o0
    end
  else
    match get_uk_slot (c_hdr c) col with
    | None => sel_fail t o0
    | Some slot =>
        tree ← uk_tree_at c slot;
        let a := normalize_value (wc_val cond) RECORD_SIZE in
        let b := normalize_value (wc_end_val cond) RECORD_SIZE in
        select_range t stmt x tree a b (fun t1 o => execute_select_file_string_range_scan t1 (uncached_start_offset t1) stmt col x a b o)
    end.

(** A row found by an index: without output and with this condition alone it is
    counted without being looked at. *)
Definition select_found (t : Table) (stmt : Statement) (x : Sel) (i : Z) : SelRes :=
  if negb (sel_emit x) && (length (where_conditions stmt) =? 1)%nat then sel_done t (1, [])
  else
    '(row, c1) ← cache_row (t_cache t) i;
    sel_done (set_cache t c1)
      (match row with
       | Some r => if row_matches_statement (c_hdr (t_cache t)) stmt r then emit x r o0 else o0
       | None => o0
       end).

(** The key is not in the index: it may be in the part of the file that is not in memory. *)
Definition select_tail_pk (t : Table) (stmt : Statement) (x : Sel) (key : Z) : SelRes :=
  if negb (cache_truncated t) then sel_done t o0
  else
    let rest := o ← execute_select_file_scan t (uncached_start_offset t) stmt x o0; sel_done t o in
    match find_tail_pk_offset (t_tail t) key with
    | None => rest
    | Some offset =>
        if negb (sel_emit x) && (length (where_conditions stmt) =? 1)%nat then sel_done t (1, [])
        else match print_tail_pk_offset_row t offset key stmt x o0 with
             | Some o => sel_done t o
             | None => rest
             end
    end.

Definition select_eq (t : Table) (stmt : Statement) (x : Sel) (cond : WhereCondition) (col : nat) : SelRes :=
  let c := t_cache t in
  if bool_decide (h_pk (c_hdr c) = Some col) then
    match parse_long_value (wc_val cond) with
    | None => sel_fail t o0
    | Some key =>
        match ix_search (c_id c) key with
        | Some i => select_found t stmt x i
        | None => select_tail_pk t stmt x key
        end
    end
  else
    found ← find_uk_row c col (wc_val cond);
    match found with
    | Some i => select_found t stmt x i
    | None =>
        if cache_truncated t then o ← execute_select_file_scan t (uncached_start_offset t) stmt x o0; sel_done t o
        else sel_done t o0
    end.

Definition select_scan (t : Table) (stmt : Statement) (x : Sel) : SelRes :=
  let c := t_cache t in
  let '(c1, o) := scan_slots (length (slots (c_slots c))) 0 stmt x c o0 in
  let t1 := set_cache t c1 in
  if cache_truncated t then o1 ← execute_select_file_scan t1 (uncached_start_offset t1) stmt x o; sel_done t1 o1
  else sel_done t1 o.

Definition execute_select_internal (t : Table) (stmt : Statement) (emit_results : bool) : SelRes :=
  let h := c_hdr (t_cache t) in
  if negb (validate_where_columns h stmt) then sel_fail t o0
  else
    match select_columns h stmt with
    | None => sel_fail t o0
    | Some sel =>
        let x := mkSel sel emit_results in
        match (p ← choose_index_condition h stmt true; cond ← where_conditions stmt !! p.1; Some (cond, p.2)) with
        | None => select_scan t stmt x
        | Some (cond, col) =>
            match wc_type cond with
            | WHERE_BETWEEN => select_between t stmt x cond col
            | WHERE_EQ =>
                if bool_decide (h_pk h = Some col) || match get_uk_slot h col with Some _ => true | None => false end
                then select_eq t stmt x cond col else select_scan t stmt x
            | WHERE_NONE => select_scan t stmt x
            end
        end
    end.
