(* ===== verification/LegacySelectProofs.v ===== *)
(** SELECT of the stand-alone executor returns the rows that match, whichever way it
    goes about it. *)

From Stdlib Require Import String.
From S2P Require Import Prelude CString BPTree BPTreeProofs BPTreeSpec BPTreeScan BPTreeString BPTreeIndex Parser Values Table InsertProofs Store StoreProofs.
From S2P Require Import LegacyRow LegacyRowProofs LegacyCache LegacyCacheProofs LegacyIndex LegacyIndexProofs DeltaLog LegacyTable LegacyTableProofs LegacyLoadProofs LegacyClaims LegacySelect.
From stdpp Require Import base numbers list sorting option.
Local Open Scope Z_scope.

Definition emit_all (x : Sel) (rows : list cstr) (o : Out) : Out := foldl (fun o r => emit x r o) o rows.

Lemma emit_all_app x a b o : emit_all x (a ++ b) o = emit_all x b (emit_all x a o).
Proof. apply foldl_app. Qed.

(** With output, what was printed is the line of every row. *)
Lemma emit_all_printed sel rows o :
  emit_all (mkSel sel true) rows o = (o.1 + Z.of_nat (length rows), o.2 ++ map (fun r => emit_selected_row r sel) rows).
Proof.
  revert o; induction rows as [|r rows IH]; intros [n out]; cbn [emit_all foldl]; [simpl; by rewrite Z.add_0_r, app_nil_r|].
  change (foldl _ _ rows) with (emit_all (mkSel sel true) rows (emit (mkSel sel true) r (n, out))). rewrite IH. unfold emit. cbn.
  rewrite <- app_assoc. f_equal. lia.
Qed.

Lemma emit_all_count x rows o : (emit_all x rows o).1 = o.1 + Z.of_nat (length rows).
Proof.
  revert o; induction rows as [|r rows IH]; intros o; [cbn; lia|].
  change (emit_all x (r :: rows) o) with (emit_all x rows (emit x r o)). rewrite IH. unfold emit. cbn [fst length]. lia.
Qed.

(** The rows that match a statement. *)
Definition matching (h : Header) (stmt : Statement) (rows : list cstr) : list cstr :=
  List.filter (fun r => row_fields_match_statement h stmt (parse_csv_row r)) rows.

Lemma cache_row_file c i r c' : cache_row c i = Some (r, c') → c_file c' = c_file c.
Proof. unfold cache_row. destruct (slot_row _ _ _ _) as [[[row pc] s]|]; cbn; [by intros [= <- <-]|done]. Qed.

Lemma NoDup_fst_filter {K V} (P : K * V → bool) (es : list (K * V)) : NoDup es.*1 → NoDup (List.filter P es).*1.
Proof.
  induction es as [|e es IH]; cbn; [done|]. intros [He Hes]%list.NoDup_cons. destruct (P e); cbn; [|by apply IH].
  apply list.NoDup_cons. split; [|by apply IH]. intros (e' & E & Hin)%list_elem_of_fmap. apply He, list_elem_of_fmap.
  exists e'. split; [done|]. by apply list_elem_of_In, filter_In in Hin as [Hin%list_elem_of_In _].
Qed.

Section select.
Context (h : Header) (p : nat) (Hpk : h_pk h = Some p) (Huks : NoDup (h_uks h)) (stmt : Statement).

(** The rows behind a list of index entries. *)
Definition rows_at {K} (l : list (option cstr)) (es : list (K * Z)) : list cstr := omap (fun e => at_slot l e.2) es.

(** A row is tested as its fields are. *)
Definition tested (r : cstr) : Prop := row_matches_statement h stmt r = row_fields_match_statement h stmt (parse_csv_row r).

Lemma visit_rows {K} x (es : list (K * Z)) c l o :
  table_ok h c l → Forall tested (omap id l) →
  ∃ c', visit_leaf (print_range_row_visitor h stmt x) es (Some (c, o)) =
      (true, Some (c', emit_all x (matching h stmt (rows_at l es)) o)) ∧ table_ok h c' l ∧ c_file c' = c_file c.
Proof.
  intros Hc Ht. revert c o Hc; induction es as [|[k i] es IH]; intros c o Hc; [by exists c|].
  cbn [visit_leaf print_range_row_visitor]. unfold rows_at. cbn [omap list_omap snd].
  rewrite (slot_active_at h c l l i Hc). destruct (at_slot l i) as [r|] eqn:Er; cbn [negb].
  - destruct (cache_row_at h c l l i Hc) as (c1 & E1 & Hc1 & _). pose proof (cache_row_file _ _ _ _ E1) as Hf. rewrite E1, Er.
    assert (tested r) as Htr.
    { apply at_slot_lookup in Er as [Er _]. rewrite Forall_forall in Ht. apply Ht, list_elem_of_In, list_elem_of_omap.
      exists (Some r). split; [by eapply list_elem_of_lookup_2|done]. }
    rewrite Htr. cbn [matching List.filter]. fold (matching h stmt).
    destruct (row_fields_match_statement h stmt (parse_csv_row r)); cbn [emit_all foldl]; rewrite <- Hf; by apply (IH c1).
  - by apply IH.
Qed.

(** ** The rows of a table *)

Lemma table_rows_in l r : r ∈ omap id l ↔ ∃ i, at_slot l i = Some r.
Proof.
  rewrite list_elem_of_omap. split.
  - intros (o & Ho & E). simpl in E. subst o. apply list_elem_of_lookup in Ho as [n Hn]. exists (Z.of_nat n). apply at_slot_lookup.
    rewrite Nat2Z.id. split; [done|lia].
  - intros (i & Hi). apply at_slot_lookup in Hi as [Hi _]. exists (Some r). split; [by eapply list_elem_of_lookup_2|done].
Qed.

Lemma at_slot_inj c l i j r : table_ok h c l → at_slot l i = Some r → at_slot l j = Some r → i = j.
Proof using Hpk.
  intros Hc Hi Hj. pose proof (table_keys h c l i r Hc Hi) as Hk. destruct (get_row_pk_value h r) as [k|] eqn:Ek; [|done].
  apply (id_key_inj h c l i j k Hc); unfold id_key; [by rewrite Hi|by rewrite Hj].
Qed.

Lemma table_rows_NoDup c l : table_ok h c l → NoDup (omap id l).
Proof using Hpk.
  intros Hc. apply NoDup_alt. intros n m r Hn Hm.
  assert (∀ (l0 : list (option cstr)) n r, omap id l0 !! n = Some r → ∃ i, l0 !! i = Some (Some r) ∧ length (omap id (take i l0)) = n) as H.
  { clear. induction l0 as [|[r0|] l0 IH]; intros n r; cbn; [done| |].
    - destruct n as [|n]; cbn; [intros [= ->]; by exists 0%nat|]. intros (i & Hi & Hl)%IH. exists (S i). split; [done|]. cbn. by rewrite Hl.
    - intros (i & Hi & Hl)%IH. by exists (S i). }
  destruct (H _ _ _ Hn) as (i & Hi & <-), (H _ _ _ Hm) as (j & Hj & <-).
  assert (Z.of_nat i = Z.of_nat j) as E; [|by replace i with j by lia].
  apply (at_slot_inj c l _ _ r Hc); apply at_slot_lookup; rewrite Nat2Z.id; (split; [done|lia]).
Qed.

Lemma matching_in rows r : r ∈ matching h stmt rows ↔ r ∈ rows ∧ row_fields_match_statement h stmt (parse_csv_row r) = true.
Proof. unfold matching. by rewrite list_elem_of_In, filter_In, <- list_elem_of_In. Qed.

Lemma matching_NoDup rows : NoDup rows → NoDup (matching h stmt rows).
Proof. intros H. unfold matching. by apply NoDup_ListNoDup, List.NoDup_filter, NoDup_ListNoDup. Qed.

(** The entries of an index give the matching rows when every matching row has an entry. *)
Lemma matching_entries {K T} `{!KeyOrder K, !KeyOrderLaws K, !OrderedIndex K T, !OrderedIndexLaws K T, !EditableIndex K T, !EditableIndexLaws K T}
    (t : T) f c l (es : list (K * Z)) :
  table_ok h c l → index_of t f → NoDup es.*1 → (∀ e, e ∈ es → e ∈ ix_elems t) →
  (∀ i r, at_slot l i = Some r → row_fields_match_statement h stmt (parse_csv_row r) = true → ∃ k, (k, i) ∈ es) →
  matching h stmt (rows_at l es) ≡ₚ matching h stmt (omap id l).
Proof using Hpk.
  intros Hc Hix Hnd Hsub Hall. apply NoDup_Permutation.
  - apply matching_NoDup. unfold rows_at. clear Hall. induction es as [|[k i] es IH]; cbn; [constructor|].
    apply list.NoDup_cons in Hnd as [Hk Hnd]. assert (NoDup (omap (λ e : K * Z, at_slot l e.2) es)) as IH'.
    { apply IH; [done|]. intros e He. apply Hsub. by right. }
    destruct (at_slot l i) as [r|] eqn:Er; [|done]. constructor; [|done]. intros ([k' j] & He & Hj)%list_elem_of_omap. simpl in Hj.
    pose proof (at_slot_inj c l i j r Hc Er Hj) as <-.
    assert (f i = Some k ∧ f i = Some k') as [H1 H2].
    { destruct Hix as [Hok Hf]. pose proof (ix_sorted _ Hok) as Hs. split; apply Hf, assoc_get_Some; try done.
      - apply Hsub. by left.
      - apply Hsub. by right. }
    rewrite H1 in H2. injection H2 as ->. apply Hk, list_elem_of_fmap. by exists (k', i).
  - by apply matching_NoDup, (table_rows_NoDup c).
  - intros r. rewrite !matching_in, table_rows_in. unfold rows_at. rewrite list_elem_of_omap. split.
    + intros [(e & _ & Hr) Hm]. split; [by exists e.2|done].
    + intros [(i & Hi) Hm]. split; [|done]. destruct (Hall i r Hi Hm) as [k Hk]. by exists (k, i).
Qed.

Definition sel_ok (t : Table) (l : list (option cstr)) (sel : option (list nat)) (res : SelRes) : Prop :=
  ∃ t' rows, res = Some (true, (Z.of_nat (length rows), map (fun r => emit_selected_row r sel) rows), t') ∧
    rows ≡ₚ matching h stmt (omap id l) ∧ table_ok h (t_cache t') l ∧ c_file (t_cache t') = c_file (t_cache t).

Lemma select_range_ok {K T} `{!KeyOrder K, !KeyOrderLaws K, !OrderedIndex K T, !OrderedIndexLaws K T, !EditableIndex K T, !EditableIndexLaws K T}
    (t : Table) sel (tree : T) f a b tail l :
  table_ok h (t_cache t) l → cache_truncated t = false → Forall tested (omap id l) → index_of tree f →
  (∀ i r, at_slot l i = Some r → row_fields_match_statement h stmt (parse_csv_row r) = true →
    ∃ k, f i = Some k ∧ kleb a k && kleb k b = true) →
  sel_ok t l sel (select_range t stmt (mkSel sel true) tree a b tail).
Proof using Hpk.
  intros Hc Htr Ht Hix Hall. pose proof Hix as [Hok Hf]. unfold select_range. rewrite (ta_hdr _ _ _ _ Hc).
  rewrite (ix_range_visit _ tree a b) by done. cbn [mbind option_bind].
  destruct (visit_rows (mkSel sel true) (assoc_range a b (ix_elems tree)) (t_cache t) l o0 Hc Ht) as (c' & -> & Hc' & Hfile).
  cbn [mbind option_bind negb]. rewrite Htr. rewrite emit_all_printed. cbn [o0 fst snd app]. rewrite Z.add_0_l.
  pose proof (ix_sorted _ Hok) as Hs.
  eexists (set_cache t c'), _. split; [reflexivity|]. split; [|by split].
  apply (matching_entries tree f (t_cache t)); [done|done| | |].
  - by apply NoDup_fst_filter, klt_sorted_NoDup.
  - intros e He. by apply list_elem_of_In, filter_In in He as [He%list_elem_of_In _].
  - intros i r Hi Hm. destruct (Hall i r Hi Hm) as (k & Hk & Hin). exists k. apply list_elem_of_In, filter_In. split; [|done].
    apply list_elem_of_In, assoc_get_Some; [done|]. by apply Hf.
Qed.

(** A row found through an index that every matching row would be found through. *)
Lemma select_found_ok t sel l i r :
  table_ok h (t_cache t) l → Forall tested (omap id l) → at_slot l i = Some r →
  (∀ j r', at_slot l j = Some r' → row_fields_match_statement h stmt (parse_csv_row r') = true → j = i) →
  sel_ok t l sel (select_found t stmt (mkSel sel true) i).
Proof using Hpk.
  intros Hc Ht Hr Hall. unfold select_found. cbn [sel_emit negb andb].
  destruct (cache_row_at h (t_cache t) l l i Hc) as (c1 & E & Hc1 & _). pose proof (cache_row_file _ _ _ _ E) as Hf.
  rewrite E, Hr. cbn [mbind option_bind].
  assert (tested r) as Htr by (rewrite Forall_forall in Ht; apply Ht, list_elem_of_In, table_rows_in; by exists i).
  rewrite (ta_hdr _ _ _ _ Hc), Htr. exists (set_cache t c1), (matching h stmt [r]).
  split; [|split; [|by split]].
  - unfold sel_done, matching. cbn [List.filter]. by destruct (row_fields_match_statement _ _ _).
  - apply NoDup_Permutation; [apply matching_NoDup, NoDup_singleton|by apply matching_NoDup, (table_rows_NoDup (t_cache t))|].
    intros r'. rewrite !matching_in, table_rows_in, list_elem_of_singleton. split.
    + intros [-> Hm]. split; [by exists i|done].
    + intros [(j & Hj) Hm]. pose proof (Hall j r' Hj Hm) as ->. rewrite Hr in Hj. by injection Hj.
Qed.

(** No row matches. *)
Lemma select_none_ok t sel l :
  table_ok h (t_cache t) l → (∀ j r, at_slot l j = Some r → row_fields_match_statement h stmt (parse_csv_row r) = false) →
  sel_ok t l sel (sel_done t o0).
Proof.
  intros Hc Hall. exists t, []. split; [done|]. split; [|by split]. unfold matching.
  assert (∀ rows, (∀ r, r ∈ rows → row_fields_match_statement h stmt (parse_csv_row r) = false) →
    List.filter (λ r, row_fields_match_statement h stmt (parse_csv_row r)) rows = []) as H.
  { induction rows as [|r rows IH]; intros H; [done|]. cbn. rewrite (H r) by left. apply IH. intros r' Hr'. apply H. by right. }
  rewrite H; [done|]. intros r (i & Hi)%table_rows_in. by eapply Hall.
Qed.

(** ** The scan *)

Lemma scan_slots_ok n i x c l o :
  table_ok h c l → 0 ≤ i → i + Z.of_nat n = Z.of_nat (length l) →
  ∃ c', scan_slots n i stmt x c o = (c', emit_all x (matching h stmt (rows_from i l)) o) ∧
    table_ok h c' l ∧ c_file c' = c_file c.
Proof.
  revert i c o; induction n as [|n IH]; intros i c o Hc Hi Hn; cbn [scan_slots].
  { exists c. unfold rows_from. rewrite drop_ge by lia. done. }
  pose proof Hc as [H1 (f & H2 & [Hs Hp He] & H3) H4]. cbn [rs_file rs_pages rs_slots] in *. rewrite H2.
  destruct (slot_row_scan_ok f (c_pages c) (c_slots c) i Hs Hp He) as (pc & -> & Hp'). rewrite row_of_at_slot, H3, H1.
  assert (table_ok h (set_store c pc (c_slots c)) l) as Hc'.
  { split; [done| |done]. exists f. split; [done|]. split; [by split|done]. }
  destruct (IH (i + 1) (set_store c pc (c_slots c))
    (match at_slot l i with Some r => if row_fields_match_statement h stmt (parse_csv_row r) then emit x r o else o | None => o end)
    Hc') as (c' & E & Hc2 & Hf); [lia|lia|].
  exists c'. split; [|by rewrite Hf]. rewrite E, (rows_from_step i) by lia. f_equal. destruct (at_slot l i) as [r|]; [|done].
  cbn [matching List.filter]. fold (matching h stmt). by destruct (row_fields_match_statement h stmt (parse_csv_row r)).
Qed.

Lemma select_scan_ok t sel l :
  table_ok h (t_cache t) l → cache_truncated t = false → sel_ok t l sel (select_scan t stmt (mkSel sel true)).
Proof.
  intros Hc Htr. unfold select_scan. pose proof (table_length h _ l l Hc) as Hl. unfold record_count in Hl.
  destruct (scan_slots_ok (length (slots (c_slots (t_cache t)))) 0 (mkSel sel true) (t_cache t) l o0 Hc) as (c' & -> & Hc' & Hf); [lia|lia|].
  rewrite Htr, emit_all_printed. cbn [o0 fst snd app]. rewrite Z.add_0_l.
  eexists (set_cache t c'), _. split; [reflexivity|]. split; [done|by split].
Qed.
End select.

(** ** The statement *)

(** A row as the executor writes it. *)
Definition stored_row (h : Header) (r : cstr) : Prop :=
  forallb line_char r = true ∧ (length r < RECORD_SIZE)%nat ∧ length (parse_csv_row r) = col_count h ∧
  Forall (fun f => (length f < 256)%nat) (parse_csv_row r).

#[global] Instance stored_row_dec h r : Decision (stored_row h r).
Proof. unfold stored_row. apply _. Defined.

Definition chosen (h : Header) (stmt : Statement) : option (WhereCondition * nat) :=
  p ← choose_index_condition h stmt true; cond ← where_conditions stmt !! p.1; Some (cond, p.2).

(** The condition that chooses the index has bounds of its type: integers for the
    primary key, a text that is not empty for a unique column. *)
Definition index_usable (h : Header) (stmt : Statement) : bool :=
  match chosen h stmt with
  | None => true
  | Some (cond, col) =>
      if bool_decide (h_pk h = Some col) then
        match parse_long_value (wc_val cond), wc_type cond, parse_long_value (wc_end_val cond) with
        | Some _, WHERE_BETWEEN, None => false
        | Some _, _, _ => true
        | None, _, _ => false
        end
      else match normalize_value (wc_val cond) RECORD_SIZE with [] => false | _ => true end
  end.

Lemma chosen_spec h stmt cond col :
  chosen h stmt = Some (cond, col) → cond ∈ where_conditions stmt ∧ condition_column_index h cond = Some col.
Proof.
  unfold chosen, choose_index_condition. destruct (best_condition _ _ _ _ _ _) as [i|]; [|done]. cbn.
  destruct (where_conditions stmt !! i) as [c|] eqn:E; [|done]. cbn. destruct (condition_column_index h c) as [k|] eqn:Ec; [|done]. cbn.
  rewrite E. cbn. intros [= <- <-]. split; [by eapply list_elem_of_lookup_2|done].
Qed.

Lemma matches_cond h stmt r cond :
  row_fields_match_statement h stmt (parse_csv_row r) = true → cond ∈ where_conditions stmt → cond_holds h (parse_csv_row r) cond = true.
Proof. unfold row_fields_match_statement. rewrite forallb_forall. intros H Hin. by apply H, list_elem_of_In. Qed.

Lemma compare_value_long a b : compare_value a b = true → parse_long_value a = parse_long_value b.
Proof. unfold compare_value, parse_long_value. intros E%streq_true. by rewrite E. Qed.

Lemma compare_value_text a b :
  (length a < 256)%nat → (length b < 256)%nat → compare_value a b = true → normalize_value a RECORD_SIZE = normalize_value b RECORD_SIZE.
Proof.
  unfold compare_value, normalize_value, strcpy_sz. intros Ha Hb E%streq_true.
  rewrite !take_ge in * by (unfold RECORD_SIZE; lia). done.
Qed.

Lemma uk_slot_column h col slot : get_uk_slot h col = Some slot → h_uks h !! slot = Some col.
Proof.
  unfold get_uk_slot. intros (x & _ & Hx & E)%find_index_Some. rewrite Nat.sub_0_r in Hx. apply Nat.eqb_eq in E as ->. done.
Qed.

Section statement.
Context (h : Header) (p : nat) (Hpk : h_pk h = Some p) (Huks : NoDup (h_uks h)) (stmt : Statement).
Context (t : Table) (l : list (option cstr)) (sel : option (list nat)).
Context (Hc : table_ok h (t_cache t) l) (Htr : cache_truncated t = false).
Context (Hrows : Forall (stored_row h) (omap id l)) (Hcols : (col_count h < MAX_COLS)%nat).
Context (Hvals : Forall (fun c => (length (wc_val c) < 256)%nat) (where_conditions stmt)).

Lemma rows_tested : Forall (tested h stmt) (omap id l).
Proof using Hrows Hcols Hvals.
  eapply List.Forall_impl; [|exact Hrows]. intros r (H1 & H2 & H3 & H4). by apply row_matches_as_fields.
Qed.

Lemma row_stored i r : at_slot l i = Some r → stored_row h r.
Proof using Hrows. intros Hi. rewrite Forall_forall in Hrows. apply Hrows, list_elem_of_In, table_rows_in. by exists i. Qed.

(** What an index condition says of the rows that match. *)
Lemma pk_eq_key cond i r :
  at_slot l i = Some r → cond_holds h (parse_csv_row r) cond = true → condition_column_index h cond = Some p → wc_type cond = WHERE_EQ →
  id_key h l i = parse_long_value (wc_val cond).
Proof using Hpk.
  intros Hi Hh Hcol Ht. unfold cond_holds in Hh. rewrite Hcol, Ht in Hh. apply compare_value_long in Hh.
  unfold id_key. rewrite Hi. simpl. unfold get_row_pk_value. by rewrite Hpk, Hh.
Qed.

Lemma pk_between_key cond i r a b :
  at_slot l i = Some r → cond_holds h (parse_csv_row r) cond = true → condition_column_index h cond = Some p → wc_type cond = WHERE_BETWEEN →
  parse_long_value (wc_val cond) = Some a → parse_long_value (wc_end_val cond) = Some b →
  ∃ k, id_key h l i = Some k ∧ kleb a k && kleb k b = true.
Proof using Hpk.
  intros Hi Hh Hcol Ht Ha Hb. unfold cond_holds, compare_range_value in Hh. rewrite Hcol, Ht, Hpk in Hh.
  rewrite bool_decide_eq_true_2 in Hh by done. destruct (parse_csv_row r !! p) as [f|] eqn:Ef; [|done]. rewrite Ha, Hb in Hh.
  destruct (parse_long_value f) as [k|] eqn:Ek; [|done]. exists k. split.
  - unfold id_key. rewrite Hi. simpl. unfold get_row_pk_value, field_at. by rewrite Hpk, Ef.
  - apply andb_true_iff in Hh as [H1 H2]. bool_to_prop. apply andb_true_iff. split; apply kleb_true; unfold kle, kcmp, long_order; by apply Z.compare_le_iff.
Qed.

Lemma uk_eq_key cond col i r :
  at_slot l i = Some r → cond_holds h (parse_csv_row r) cond = true → condition_column_index h cond = Some col → wc_type cond = WHERE_EQ →
  cond ∈ where_conditions stmt → normalize_value (wc_val cond) RECORD_SIZE ≠ [] →
  uk_key col l i = Some (normalize_value (wc_val cond) RECORD_SIZE).
Proof using Hcols Hrows Hvals.
  intros Hi Hh Hcol Ht Hin Hne. unfold cond_holds in Hh. rewrite Hcol, Ht in Hh. apply compare_value_text in Hh.
  - unfold uk_key. rewrite Hi. simpl. unfold uk_text. rewrite Hh. by destruct (normalize_value (wc_val cond) RECORD_SIZE).
  - destruct (row_stored i r Hi) as (_ & _ & _ & Hf). unfold field_at. destruct (parse_csv_row r !! col) as [f|] eqn:E; [|simpl; lia].
    exact (Forall_lookup_1 _ _ _ _ Hf E).
  - rewrite Forall_forall in Hvals. by apply Hvals, list_elem_of_In.
Qed.

Lemma uk_between_key cond col i r :
  at_slot l i = Some r → cond_holds h (parse_csv_row r) cond = true → condition_column_index h cond = Some col →
  wc_type cond = WHERE_BETWEEN → h_pk h ≠ Some col → normalize_value (wc_val cond) RECORD_SIZE ≠ [] →
  ∃ k, uk_key col l i = Some k ∧
    kleb (normalize_value (wc_val cond) RECORD_SIZE) k && kleb k (normalize_value (wc_end_val cond) RECORD_SIZE) = true.
Proof.
  intros Hi Hh Hcol Ht Hnp Hne. unfold cond_holds, compare_range_value in Hh. rewrite Hcol, Ht in Hh.
  destruct (parse_csv_row r !! col) as [f|] eqn:Ef; [|done]. rewrite bool_decide_eq_false_2 in Hh by done.
  assert (uk_text col r = normalize_value f RECORD_SIZE) as Eu by (unfold uk_text, field_at; by rewrite Ef).
  exists (normalize_value f RECORD_SIZE). split; [|exact Hh]. unfold uk_key. rewrite Hi. simpl. rewrite Eu.
  destruct (normalize_value f RECORD_SIZE); [|done]. exfalso. by destruct (normalize_value (wc_val cond) RECORD_SIZE).
Qed.

Lemma select_eq_ok cond col :
  cond ∈ where_conditions stmt → condition_column_index h cond = Some col → wc_type cond = WHERE_EQ →
  h_pk h = Some col ∨ get_uk_slot h col ≠ None →
  (if bool_decide (h_pk h = Some col) then parse_long_value (wc_val cond) ≠ None else normalize_value (wc_val cond) RECORD_SIZE ≠ []) →
  sel_ok h stmt t l sel (select_eq t stmt (mkSel sel true) cond col).
Proof using Hpk Huks Hc Htr Hrows Hcols Hvals.
  intros Hin Hcol Ht Hix Huse. unfold select_eq. rewrite (ta_hdr _ _ _ _ Hc). pose proof (ta_trees _ _ _ _ Hc) as [Hid _ _ Hu].
  assert (∀ i r, at_slot l i = Some r → row_fields_match_statement h stmt (parse_csv_row r) = true → cond_holds h (parse_csv_row r) cond = true)
    as Hm by (intros i r _ Hm; by eapply matches_cond).
  destruct (bool_decide_reflect (h_pk h = Some col)) as [E|E].
  - rewrite Hpk in E. injection E as <-. destruct (parse_long_value (wc_val cond)) as [key|] eqn:Ek; [|done].
    destruct (ix_search (c_id (t_cache t)) key) as [i|] eqn:Es.
    + apply (index_search _ (id_key h l)) in Es; [|done]. pose proof Es as Es'. unfold id_key in Es'.
      destruct (at_slot l i) as [r|] eqn:Er; [|done].
      apply (select_found_ok h p Hpk stmt t sel l i r Hc rows_tested Er). intros j r' Hj Hm'.
      apply (id_key_inj h (t_cache t) l j i key Hc); [|done]. rewrite <- Ek. by apply (pk_eq_key cond j r' Hj); [eapply Hm| |].
    + unfold select_tail_pk. rewrite Htr. apply select_none_ok; [done|]. intros j r Hj.
      destruct (row_fields_match_statement _ _ _) eqn:Hm'; [|done]. exfalso.
      assert (id_key h l j = Some key) as Hk by (rewrite <- Ek; by apply (pk_eq_key cond j r Hj); [eapply Hm| |]).
      apply (index_search _ _ _ _ Hid) in Hk. congruence.
  - destruct Hix as [Hix|Hix]; [done|]. unfold find_uk_row. rewrite (ta_hdr _ _ _ _ Hc).
    destruct (get_uk_slot h col) as [slot|] eqn:Esl; [|done]. pose proof (uk_slot_column h col slot Esl) as Hsc.
    destruct (Hu slot col Hsc) as (u & Hun & Hiu).
    destruct (normalize_value (wc_val cond) RECORD_SIZE) as [|b key] eqn:Ek; [done|].
    unfold uk_tree_at. rewrite Hun. cbn [mjoin option_join mbind option_bind]. unfold unique_index_find.
    assert (∀ j r, at_slot l j = Some r → row_fields_match_statement h stmt (parse_csv_row r) = true → uk_key col l j = Some (b :: key)) as Hkey.
    { intros j r Hj Hm'. rewrite <- Ek. apply (uk_eq_key cond col j r Hj); [by eapply Hm|done|done|done|by rewrite Ek]. }
    destruct (ix_search u (b :: key)) as [i|] eqn:Es; cbn [mbind option_bind].
    + apply (index_search _ (uk_key col l)) in Es; [|done]. pose proof Es as Es'. unfold uk_key in Es'.
      rewrite (slot_active_at h _ l l i Hc). destruct (at_slot l i) as [r|] eqn:Er; [|done].
      apply (select_found_ok h p Hpk stmt t sel l i r Hc rows_tested Er). intros j r' Hj Hm'.
      apply (index_search u _ _ _ Hiu) in Es. pose proof (Hkey j r' Hj Hm') as Hk. apply (index_search u _ _ _ Hiu) in Hk. congruence.
    + rewrite Htr. apply select_none_ok; [done|]. intros j r Hj.
      destruct (row_fields_match_statement _ _ _) eqn:Hm'; [|done]. exfalso.
      pose proof (Hkey j r Hj Hm') as Hk. apply (index_search u _ _ _ Hiu) in Hk. congruence.
Qed.

Lemma select_between_ok cond col :
  cond ∈ where_conditions stmt → condition_column_index h cond = Some col → wc_type cond = WHERE_BETWEEN →
  h_pk h = Some col ∨ get_uk_slot h col ≠ None →
  (if bool_decide (h_pk h = Some col) then parse_long_value (wc_val cond) ≠ None ∧ parse_long_value (wc_end_val cond) ≠ None
   else normalize_value (wc_val cond) RECORD_SIZE ≠ []) →
  sel_ok h stmt t l sel (select_between t stmt (mkSel sel true) cond col).
Proof using Hpk Huks Hc Htr Hrows Hcols Hvals.
  intros Hin Hcol Ht Hix Huse. unfold select_between. rewrite (ta_hdr _ _ _ _ Hc). pose proof (ta_trees _ _ _ _ Hc) as [Hid _ _ Hu].
  destruct (bool_decide_reflect (h_pk h = Some col)) as [E|E].
  - rewrite Hpk in E. injection E as <-. destruct Huse as [H1 H2].
    destruct (parse_long_value (wc_val cond)) as [a|] eqn:Ea, (parse_long_value (wc_end_val cond)) as [b|] eqn:Eb; try done.
    apply (select_range_ok h p Hpk stmt t sel (c_id (t_cache t)) (id_key h l)); [done|done|exact rows_tested|done|].
    intros i r Hi Hm. apply (pk_between_key cond i r a b Hi); [by eapply matches_cond|done|done|done|done].
  - destruct Hix as [Hix|Hix]; [done|]. destruct (get_uk_slot h col) as [slot|] eqn:Esl; [|done].
    destruct (Hu slot col (uk_slot_column h col slot Esl)) as (u & Hun & Hiu).
    unfold uk_tree_at. rewrite Hun. cbn [mjoin option_join mbind option_bind].
    apply (select_range_ok h p Hpk stmt t sel u (uk_key col l)); [done|done|exact rows_tested|done|].
    intros i r Hi Hm. apply (uk_between_key cond col i r Hi); [by eapply matches_cond|done|done|done|done].
Qed.
End statement.

Lemma best_condition_score h ar n conds score best i :
  best_condition h ar n conds score best = Some i →
  best = Some i ∨ (n ≤ i)%nat ∧ ∃ c, conds !! (i - n)%nat = Some c ∧ score < cond_score h ar c.
Proof.
  revert n score best; induction conds as [|c conds IH]; intros n score best; cbn; [by left|].
  assert (∀ m, (S n ≤ m)%nat → (c :: conds) !! (m - n)%nat = conds !! (m - S n)%nat) as Hsh
    by (intros m Hm; by replace (m - n)%nat with (S (m - S n)) by lia).
  destruct (score <? cond_score h ar c) eqn:E; bool_to_prop; intros [H|(Hle & c' & Hc' & Hs)]%IH.
  - injection H as <-. right. split; [done|]. exists c. by rewrite Nat.sub_diag.
  - right. split; [lia|]. exists c'. rewrite Hsh by done. split; [done|lia].
  - by left.
  - right. split; [lia|]. exists c'. rewrite Hsh by done. by split.
Qed.

Lemma chosen_indexed h stmt cond col :
  chosen h stmt = Some (cond, col) → wc_type cond ≠ WHERE_NONE ∧ (h_pk h = Some col ∨ get_uk_slot h col ≠ None).
Proof.
  intros H. pose proof (chosen_spec h stmt cond col H) as [_ Hcol]. unfold chosen, choose_index_condition in H.
  destruct (best_condition _ _ _ _ _ _) as [i|] eqn:Eb; [|done]. cbn in H. apply best_condition_score in Eb as [?|(_ & c & Hc & Hs)]; [done|].
  rewrite Nat.sub_0_r in Hc. rewrite Hc in H. cbn in H. destruct (condition_column_index h c) as [k|] eqn:Ek; [|done]. cbn in H. rewrite Hc in H.
  cbn in H. injection H as -> ->. unfold cond_score in Hs. rewrite Hcol in Hs.
  destruct (bool_decide_reflect (h_pk h = Some col)); destruct (get_uk_slot h col); destruct (wc_type cond); cbn in Hs; split; try done; auto; lia.
Qed.


(** [SELECT name FROM t WHERE id BETWEEN 1 AND 9 AND email = 'b@x'], which goes by the
    unique column. *)
Definition sample_select : Statement :=
  mkStmt STMT_SELECT (lit "t") [] false [lit "name"] [] []
    [mkCond WHERE_BETWEEN (lit "id") (lit "1") (lit "9"); mkCond WHERE_EQ (lit "email") (lit "b@x") []] WHERE_BETWEEN (lit "id") (lit "1") (lit "9").


(** The index of a unique column holds no empty text: [SELECT ... WHERE email = ''] finds
    nothing, though the scan of [WHERE email = '' AND ...] by another column would. *)
Definition empty_email : Statement :=
  mkStmt STMT_SELECT (lit "t") [] true [] [] [] [mkCond WHERE_EQ (lit "email") [] []] WHERE_EQ (lit "email") [] [].

Example empty_unique_value_not_found :
  match load_table_contents all_writes (write_table_header sample_head ++ row_lines [lit "1,,kim"]) None with
  | Some (true, t) =>
      matching sample_head empty_email [lit "1,,kim"] = [lit "1,,kim"] ∧
      ((fun r => (r.1.1, r.1.2)) <$> execute_select_internal t empty_email true) = Some (true, o0)
  | _ => False
  end.
Proof. vm_compute. done. Qed.
