(* ===== verification/LegacyWrite.v ===== *)
(** UPDATE and DELETE of the stand-alone executor, [src/legacy/executor.c].

    [can_use_delta_log] holds, since every table that is open has a tree of its keys.
    A function returns [None] where the C code would use a tree that was freed, or a
    row that was evicted while a pointer to it is kept. *)

From Stdlib Require Import String.
From S2P Require Import Prelude CString BPTree BPTreeString BPTreeIndex Parser Values Table Store LegacyRow LegacyCache LegacyIndex DeltaLog LegacyTable.
From stdpp Require Import base numbers list option.
Local Open Scope Z_scope.

(** Rows that were changed, no row matched, the statement breaks a rule, or it could
    not be carried out. *)
Inductive WriteResult := WDone (rows : Z) | WNone | WRefused | WFailed.

(** ** Rows *)

(** The loop of [build_updated_row]: the text before and behind column [set_idx]. *)
Fixpoint find_field (row : cstr) (in_quotes : bool) (current_col set_idx : nat) : option (cstr * cstr) :=
  match row with
  | [] => if (current_col =? set_idx)%nat then Some ([], []) else None
  | c :: row' =>
      let q := if c =? QUOTE then negb in_quotes else in_quotes in
      if ((c =? COMMA) && negb q) || (c =? CR) || (c =? NL) then
        if (current_col =? set_idx)%nat then Some ([], row)
        else if (c =? CR) || (c =? NL) then None
        else '(a, b) ← find_field row' q (S current_col) set_idx; Some (c :: a, b)
      else '(a, b) ← find_field row' q current_col set_idx;
           Some (if (current_col =? set_idx)%nat then a else c :: a, b)
  end.

(** The row with the value of column [set_idx] replaced in place. *)
Definition build_updated_row (h : Header) (row : cstr) (set_idx : nat) (set_value : cstr) (new_row_size : nat) : option cstr :=
  if (col_count h <=? set_idx)%nat then None
  else
    '(prefix, suffix) ← find_field row false 0 set_idx;
    let out := prefix ++ format_field set_value ++ suffix in
    if (length out <? new_row_size)%nat then Some out else None.

(** The loop that writes the row anew from its fields, column [j] first. *)
Fixpoint rebuild_row (fields : list cstr) (set_idx : nat) (set_value : cstr) (col_count j n : nat) (row : cstr) : option cstr :=
  match n with
  | O => Some row
  | S n' =>
      row' ← append_csv_field row RECORD_SIZE (if (j =? set_idx)%nat then set_value else field_at fields j) (j =? col_count - 1)%nat;
      rebuild_row fields set_idx set_value col_count (S j) n' row'
  end.

Definition rebuilt_row (h : Header) (row : cstr) (set_idx : nat) (set_value : cstr) : option cstr :=
  rebuild_row (parse_csv_row row) set_idx set_value (col_count h) 0 (col_count h) [].

(** ** One unique column *)

(** 1 for success, as in the source. *)
Definition index_record_single_uk (c : Cache) (row_index : Z) (col_idx : nat) : option (Z * Cache) :=
  match get_uk_slot (c_hdr c) col_idx with
  | None => Some (1, c)
  | Some uk_slot =>
      '(row, c1) ← cache_row c row_index;
      match row with
      | None => Some (0, c1)
      | Some r => unique_index_insert c1 uk_slot (normalize_value (field_at (parse_csv_row r) col_idx) RECORD_SIZE) row_index
      end
  end.

Definition remove_record_single_uk (c : Cache) (row : cstr) (col_idx : nat) : option (bool * Cache) :=
  match get_uk_slot (c_hdr c) col_idx with
  | None => Some (true, c)
  | Some uk_slot =>
      match normalize_value (field_at (parse_csv_row row) col_idx) RECORD_SIZE with
      | [] => Some (true, c)
      | key =>
          t ← uk_tree_at c uk_slot;
          let '(rc, t') := ix_delete t key in
          Some (negb (rc =? 0), set_uk c uk_slot t')
      end
  end.

(** The trees of all unique columns, slot [k] first. *)
Fixpoint remove_uk_slots (cols : list nat) (k : nat) (fields : list cstr) (c : Cache) : option (bool * Cache) :=
  match cols with
  | [] => Some (true, c)
  | col :: cols' =>
      match normalize_value (field_at fields col) RECORD_SIZE with
      | [] => remove_uk_slots cols' (S k) fields c
      | key =>
          t ← uk_tree_at c k;
          let '(rc, t') := ix_delete t key in
          if rc =? 0 then Some (false, set_uk c k t') else remove_uk_slots cols' (S k) fields (set_uk c k t')
      end
  end.

Definition remove_record_uk_indexes (c : Cache) (row : cstr) : option (bool * Cache) :=
  remove_uk_slots (h_uks (c_hdr c)) 0 (parse_csv_row row) c.

(** Would the value of the unique column be taken by a row other than [own]? *)
Definition uk_conflict (c : Cache) (uk_slot : nat) (set_value : cstr) (own : Z → bool) : option bool :=
  t ← uk_tree_at c uk_slot;
  Some (match set_value with
        | [] => false
        | _ => match unique_index_find c t set_value with Some i => negb (own i) | None => false end
        end).

(** ** The log *)

Definition maybe_compact_delta_log (io : nat → bool) (t : Table) : option (bool * Table) :=
  let '(due, d) := compaction_due io (cache_truncated t) (t_delta t) in
  if due then rewrite_file io (set_delta t d) else Some (true, set_delta t d).

Definition append_delta_delete_one (io : nat → bool) (c : Cache) (slot_id : Z) (old_record : cstr) (d : Delta) : bool * Delta :=
  match get_row_index_key c old_record slot_id with
  | None => (false, d)
  | Some id => append_delta_key io (DeltaDelete id) d
  end.

(** ** UPDATE *)

(** The row of a slot changes in memory; the slot is active. *)
Definition put_row (c : Cache) (i : Z) (row : cstr) : Cache := set_slots c (replace_record_at (c_slots c) i row).2.

Fixpoint put_rows (c : Cache) (rows : list (Z * cstr)) : Cache :=
  match rows with
  | [] => c
  | (i, r) :: rows' => put_rows (put_row c i r) rows'
  end.

(** The old rows come back. *)
Definition undo_update (c : Cache) (old_records : list (Z * cstr)) (rebuild_uk : bool) : option Cache :=
  let c1 := put_rows c old_records in
  if rebuild_uk then '(_, c2) ← rebuild_uk_indexes c1; Some c2 else Some c1.

Definition execute_update_single_row (io : nat → bool) (t : Table) (stmt : Statement) (where_idx : nat) (lookup_cond : WhereCondition)
    (set_idx : nat) (set_value : cstr) (uses_pk_lookup rebuild_uk_needed : bool) : option (WriteResult * Table) :=
  let c := t_cache t in
  let h := c_hdr c in
  found ← (if uses_pk_lookup then Some (find_pk_row c (wc_val lookup_cond)) else find_uk_row c where_idx (wc_val lookup_cond));
  match found with
  | None => Some (WNone, t)
  | Some target =>
      '(old, c1) ← cache_row c target;
      match old with
      | None => Some (WFailed, set_cache t c1)
      | Some old_record =>
          if negb (length (where_conditions stmt) =? 1)%nat && negb (row_matches_statement h stmt old_record) then Some (WNone, set_cache t c1)
          else
            conflict ← (if rebuild_uk_needed then
                          match get_uk_slot h set_idx with
                          | None => Some true
                          | Some uk_slot => uk_conflict c1 uk_slot set_value (Z.eqb target)
                          end
                        else Some false);
            if (conflict : bool) then Some (WRefused, set_cache t c1)
            else
              match build_updated_row h old_record set_idx set_value RECORD_SIZE with
              | None => Some (WFailed, set_cache t c1)
              | Some new_row =>
                  '(ok2, c2) ← (if rebuild_uk_needed then remove_record_single_uk c1 old_record set_idx else Some (true, c1));
                  if negb (ok2 : bool) then Some (WFailed, set_cache t c2)
                  else
                    let c3 := put_row c2 target new_row in
                    '(rc, c4) ← (if rebuild_uk_needed then index_record_single_uk c3 target set_idx else Some (1, c3));
                    if rc =? 0 then c5 ← undo_update c4 [(target, old_record)] true; Some (WFailed, set_cache t c5)
                    else
                      let '(ok5, d) :=
                        match (if uses_pk_lookup then parse_long_value (wc_val lookup_cond) else None) with
                        | Some pk_key => append_delta_key io (DeltaUpdate pk_key new_row) (t_delta t)
                        | None => append_delta_update_slot io c4 target new_row (t_delta t)
                        end in
                      if negb ok5 then c5 ← undo_update c4 [(target, old_record)] rebuild_uk_needed; Some (WFailed, set_delta (set_cache t c5) d)
                      else '(_, t6) ← maybe_compact_delta_log io (set_delta (set_cache t c4) d); Some (WDone 1, t6)
              end
      end
  end.

(** The slots whose row matches, [n] slots from [i] on. *)
Fixpoint match_rows (n : nat) (i : Z) (stmt : Statement) (c : Cache) : option (list Z * Cache) :=
  match n with
  | O => Some ([], c)
  | S n' =>
      '(row, c1) ← cache_row c i;
      '(rest, c2) ← match_rows n' (i + 1) stmt c1;
      Some (match row with
            | Some r => if row_matches_statement (c_hdr c) stmt r then i :: rest else rest
            | None => rest
            end, c2)
  end.

(** The loop that changes the rows: success, and every slot with its old and its new
    row. *)
Fixpoint update_rows (idxs : list Z) (set_idx : nat) (set_value : cstr) (c : Cache) : option (bool * Cache * list (Z * cstr * cstr)) :=
  match idxs with
  | [] => Some (true, c, [])
  | i :: idxs' =>
      '(row, c1) ← cache_row c i;
      match row with
      | None => update_rows idxs' set_idx set_value c1
      | Some r =>
          match rebuilt_row (c_hdr c) r set_idx set_value with
          | None => Some (false, c1, [])
          | Some new_row =>
              '(ok, c2, done) ← update_rows idxs' set_idx set_value (put_row c1 i new_row);
              Some (ok, c2, (i, r, new_row) :: done)
          end
      end
  end.

(** The unique column of the rows that changed. *)
Fixpoint update_uks (changed : list (Z * cstr * cstr)) (set_idx : nat) (c : Cache) : option (bool * Cache) :=
  match changed with
  | [] => Some (true, c)
  | (i, old, _) :: changed' =>
      '(ok, c1) ← remove_record_single_uk c old set_idx;
      if negb (ok : bool) then Some (false, c1)
      else
        '(rc, c2) ← index_record_single_uk c1 i set_idx;
        if rc =? 0 then Some (false, c2) else update_uks changed' set_idx c2
  end.

Definition old_rows (changed : list (Z * cstr * cstr)) : list (Z * cstr) := map (fun x => (x.1.1, x.1.2)) changed.
Definition new_rows (changed : list (Z * cstr * cstr)) : list (Z * cstr) := map (fun x => (x.1.1, x.2)) changed.

Definition update_scan (io : nat → bool) (t : Table) (stmt : Statement) (set_idx : nat) (set_value : cstr) (rebuild_uk_needed : bool)
    : option (WriteResult * Table) :=
  let c := t_cache t in
  '(matched, c1) ← match_rows (length (slots (c_slots c))) 0 stmt c;
  match matched with
  | [] => Some (WNone, set_cache t c1)
  | _ =>
      conflict ← (if rebuild_uk_needed then
                    if (1 <? length matched)%nat then Some true
                    else match get_uk_slot (c_hdr c) set_idx with
                         | None => Some true
                         | Some uk_slot => uk_conflict c1 uk_slot set_value (fun i => existsb (Z.eqb i) matched)
                         end
                  else Some false);
      if (conflict : bool) then Some (WRefused, set_cache t c1)
      else
        '(ok2, c2, changed) ← update_rows matched set_idx set_value c1;
        if negb (ok2 : bool) then Some (WFailed, set_cache t (put_rows c2 (old_rows changed)))
        else
          match changed with
          | [] => Some (WNone, set_cache t c2)
          | _ =>
              '(ok3, c3) ← (if rebuild_uk_needed then update_uks changed set_idx c2 else Some (true, c2));
              if negb (ok3 : bool) then c4 ← undo_update c3 (old_rows changed) true; Some (WFailed, set_cache t c4)
              else
                let '(ok4, d) := append_delta_updates io c3 (new_rows changed) (t_delta t) in
                if negb ok4 then c4 ← undo_update c3 (old_rows changed) rebuild_uk_needed; Some (WFailed, set_delta (set_cache t c4) d)
                else '(_, t5) ← maybe_compact_delta_log io (set_delta (set_cache t c3) d); Some (WDone (Z.of_nat (length changed)), t5)
          end
  end.

(** ** A table whose file is longer than what is in memory *)

(** The lines of the file that are not empty; a line that does not fit the buffer is
    read in pieces. *)
Fixpoint file_lines (fuel : nat) (text : cstr) : option (list cstr) :=
  match text with
  | [] => Some []
  | _ =>
      match fuel with
      | O => None
      | S f =>
          let '(line, rest) := fgets (RECORD_SIZE - 1) text in
          rows ← file_lines f rest;
          Some (match cut_nl line with [] => rows | row => row :: rows end)
      end
  end.

Definition file_text (h : Header) (lines : list cstr) : cstr := write_table_header h ++ concat (map (fun r => r ++ [NL]) lines).

(** The first line of the file is the header. *)
Definition body_lines (t : Table) : option (option (list cstr)) :=
  match c_file (t_cache t) with
  | None => Some None
  | Some f =>
      match fgets (RECORD_SIZE - 1) f with
      | ([], _) => Some None
      | (_, rest) => lines ← file_lines (length rest) rest; Some (Some lines)
      end
  end.

(** [free_table_storage] closes the log, which stays. *)
Definition reload_table_cache (io : nat → bool) (t : Table) (file : cstr) : option (bool * Table) :=
  load_table_contents io file (log_text (close_delta_batch io (t_delta t)).2).

Definition is_uk (h : Header) (col : nat) : bool :=
  match h_cols h !! col with Some ci => bool_decide (col_type ci = COL_UK) | None => false end.

Definition rewrite_truncated_update (io : nat → bool) (t : Table) (stmt : Statement) (set_idx : nat) (set_value : cstr)
    : option (WriteResult * Table) :=
  let h := c_hdr (t_cache t) in
  let m := row_matches_statement h stmt in
  lines ← body_lines t;
  match lines with
  | None => Some (WFailed, t)
  | Some lines =>
      let target_count := length (List.filter m lines) in
      let conflict := existsb (fun l => negb (m l) && is_uk h set_idx && (0 <? length set_value)%nat &&
                                 compare_value (field_at (parse_csv_row l) set_idx) set_value) lines in
      if (target_count =? 0)%nat then Some (WNone, t)
      else if is_uk h set_idx && (1 <? target_count)%nat then Some (WRefused, t)
      else if conflict then Some (WRefused, t)
      else
        match mapM (fun l => if m l then rebuilt_row h l set_idx set_value else Some l) lines with
        | None => Some (WFailed, t)
        | Some lines' =>
            '(ok, t') ← reload_table_cache io t (file_text h lines');
            Some (if (ok : bool) then WDone (Z.of_nat target_count) else WFailed, t')
        end
  end.

Definition rewrite_truncated_delete (io : nat → bool) (t : Table) (stmt : Statement) : option (WriteResult * Table) :=
  let h := c_hdr (t_cache t) in
  let m := row_matches_statement h stmt in
  lines ← body_lines t;
  match lines with
  | None => Some (WFailed, t)
  | Some lines =>
      let count := length (List.filter m lines) in
      if (count =? 0)%nat then Some (WNone, t)
      else
        '(ok, t') ← reload_table_cache io t (file_text h (List.filter (fun l => negb (m l)) lines));
        Some (if (ok : bool) then WDone (Z.of_nat count) else WFailed, t')
  end.

(** ** The statement UPDATE *)

(** The condition to look up by, with its column and whether that is the primary key. *)
Definition lookup_condition (h : Header) (stmt : Statement) : option (WhereCondition * nat * bool) :=
  '(i, col) ← choose_index_condition h stmt false;
  cond ← where_conditions stmt !! i;
  if negb (bool_decide (wc_type cond = WHERE_EQ)) then None
  else if bool_decide (h_pk h = Some col) then Some (cond, col, true)
  else match get_uk_slot h col with Some _ => Some (cond, col, false) | None => None end.

Definition execute_update (io : nat → bool) (t : Table) (stmt : Statement) : option (WriteResult * Table) :=
  let h := c_hdr (t_cache t) in
  if negb (validate_where_columns h stmt) then Some (WRefused, t)
  else if (length (where_conditions stmt) =? 0)%nat then Some (WRefused, t)
  else
    match get_col_idx h (set_col stmt) with
    | None => Some (WRefused, t)
    | Some set_idx =>
        if bool_decide (h_pk h = Some set_idx) then Some (WRefused, t)
        else
          let set_value := trim_and_unquote (strcpy_sz 256 (set_val stmt)) in
          let type := col_type <$> h_cols h !! set_idx in
          if bool_decide (type = Some COL_NN) && (length set_value =? 0)%nat then Some (WRefused, t)
          else if cache_truncated t then rewrite_truncated_update io t stmt set_idx set_value
          else
            match lookup_condition h stmt with
            | Some (cond, col, uses_pk) => execute_update_single_row io t stmt col cond set_idx set_value uses_pk (is_uk h set_idx)
            | None => update_scan io t stmt set_idx set_value (is_uk h set_idx)
            end
    end.

(** ** DELETE *)

(** [record_active] and [active_count]. *)
Definition set_active (c : Cache) (i : Z) (active : bool) : Cache :=
  let s := c_slots c in
  let sl := slot_at s i in
  set_slots c (set_counts (set_slot s i (mkSlot (s_row sl) active (s_id sl) (s_store sl) (s_offset sl) (s_cached sl) (s_seq sl)))
                 (if active then active_count s + 1 else active_count s - 1) (cached_record_count s)).

(** What becomes of the slot of a row that is gone; the slot may be one of another
    table of slots, when the file was written anew in between. *)
Definition clear_slot (c : Cache) (i : Z) : option Cache :=
  let s := c_slots c in
  let sl := slot_at s i in
  if record_capacity s <=? i then None
  else
    let s1 := set_counts (set_slot s i (mkSlot None (s_active sl) (s_id sl) ROW_STORE_NONE 0 false 0)) (active_count s) (uncount s sl) in
    Some (set_slots c (push_free_slot s1 i)).

(** The entry that led to a row that does not match is taken for stale. *)
Definition drop_stale_uk (c : Cache) (col : nat) (value : cstr) : option Cache :=
  match get_uk_slot (c_hdr c) col, normalize_value value RECORD_SIZE with
  | Some uk_slot, _ :: _ as key => u ← uk_tree_at c uk_slot; Some (set_uk c uk_slot (ix_delete u key).2)
  | _, _ => Some c
  end.

(** The row of slot [target] is out of the indexes; [pk_key] is the key to log. *)
Definition finish_delete (io : nat → bool) (t : Table) (target : Z) (old_record : cstr) (pk_key : option Z) : option (WriteResult * Table) :=
  let c1 := set_active (t_cache t) target false in
  let '(ok, d) := match pk_key with
                  | Some k => append_delta_key io (DeltaDelete k) (t_delta t)
                  | None => append_delta_delete_one io c1 target old_record (t_delta t)
                  end in
  if negb ok then
    '(_, c2) ← restore_record_indexes (set_active c1 target true) target;
    Some (WFailed, set_delta (set_cache t c2) d)
  else
    '(_, t2) ← maybe_compact_delta_log io (set_delta (set_cache t c1) d);
    c3 ← clear_slot (t_cache t2) target;
    Some (WDone 1, set_cache t2 c3).

Definition delete_single_row (io : nat → bool) (t : Table) (stmt : Statement) (cond : WhereCondition) (col : nat) (uses_pk_lookup : bool)
    : option (WriteResult * Table) :=
  let c := t_cache t in
  let h := c_hdr c in
  let alone := (length (where_conditions stmt) =? 1)%nat in
  found ← (if uses_pk_lookup then Some (find_pk_row c (wc_val cond)) else find_uk_row c col (wc_val cond));
  match found with
  | None => Some (WNone, t)
  | Some target =>
      '(old, c1) ← cache_row c target;
      match old with
      | None => Some (WFailed, set_cache t c1)
      | Some old_record =>
          match (if uses_pk_lookup && alone then parse_long_value (wc_val cond) else None) with
          | Some pk_key =>
              let '(rc, tr) := ix_delete (c_id c1) pk_key in
              let c2 := set_id c1 tr in
              if negb (row_field_equals old_record col (wc_val cond)) then Some (WNone, set_cache t c2)
              else
                '(ok, c3) ← (if rc =? 0 then Some (false, c2) else remove_record_uk_indexes c2 old_record);
                if (ok : bool) then finish_delete io (set_cache t c3) target old_record (Some pk_key) else Some (WFailed, set_cache t c3)
          | None =>
              if negb (row_matches_statement h stmt old_record) then
                c2 ← (if negb uses_pk_lookup && alone then drop_stale_uk c1 col (wc_val cond) else Some c1);
                Some (WNone, set_cache t c2)
              else
                '(ok, c2) ← remove_record_indexes c1 target old_record;
                if (ok : bool) then finish_delete io (set_cache t c2) target old_record None else Some (WFailed, set_cache t c2)
          end
      end
  end.

(** The pointers to rows that are still valid; reading a row can evict others. *)
Definition still (c : Cache) (olds : list (Z * cstr)) : list (Z * cstr) :=
  List.filter (fun p => match s_row (slot_at (c_slots c) p.1) with Some _ => true | None => false end) olds.

(** The first loop: the rows of all slots, [n] slots from [i] on. *)
Fixpoint old_records (n : nat) (i : Z) (c : Cache) (olds : list (Z * cstr)) : option (list (Z * cstr) * Cache) :=
  match n with
  | O => Some (olds, c)
  | S n' =>
      '(row, c1) ← cache_row c i;
      old_records n' (i + 1) c1 (still c1 olds ++ match row with Some r => [(i, r)] | None => [] end)
  end.

(** The second: the slots whose row matches. *)
Fixpoint delete_flags (n : nat) (i : Z) (stmt : Statement) (c : Cache) (olds : list (Z * cstr))
    : option (list Z * list (Z * cstr) * Cache) :=
  match n with
  | O => Some ([], olds, c)
  | S n' =>
      '(row, c1) ← cache_row c i;
      '(rest, olds', c2) ← delete_flags n' (i + 1) stmt c1 (still c1 olds);
      Some (match row with
            | Some r => if row_matches_statement (c_hdr c) stmt r then i :: rest else rest
            | None => rest
            end, olds', c2)
  end.

Definition old_record (olds : list (Z * cstr)) (i : Z) : option cstr := snd <$> List.find (fun p => p.1 =? i) olds.

Fixpoint restore_all (idxs : list Z) (c : Cache) : option Cache :=
  match idxs with
  | [] => Some c
  | i :: idxs' => '(_, c1) ← restore_record_indexes c i; restore_all idxs' c1
  end.

(** The third: the matching rows go out of the indexes; when one cannot, those that
    went come back. *)
Fixpoint remove_all (flagged removed : list Z) (olds : list (Z * cstr)) (c : Cache) : option (bool * list (Z * cstr) * Cache) :=
  match flagged with
  | [] => Some (true, olds, c)
  | i :: flagged' =>
      r ← old_record olds i;
      '(ok, c1) ← remove_record_indexes c i r;
      if (ok : bool) then remove_all flagged' (removed ++ [i]) (still c1 olds) c1
      else c2 ← restore_all removed c1; Some (false, olds, c2)
  end.

(** The log could not take the rows. *)
Fixpoint reactivate_all (idxs : list Z) (c : Cache) : option Cache :=
  match idxs with
  | [] => Some c
  | i :: idxs' => '(_, c1) ← restore_record_indexes (set_active c i true) i; reactivate_all idxs' c1
  end.

Fixpoint clear_slots (idxs : list Z) (c : Cache) : option Cache :=
  match idxs with
  | [] => Some c
  | i :: idxs' => c1 ← clear_slot c i; clear_slots idxs' c1
  end.

Definition delete_scan (io : nat → bool) (t : Table) (stmt : Statement) : option (WriteResult * Table) :=
  let c := t_cache t in
  let n := length (slots (c_slots c)) in
  '(olds, c1) ← old_records n 0 c [];
  '(flagged, olds1, c2) ← delete_flags n 0 stmt c1 olds;
  match flagged with
  | [] => Some (WNone, set_cache t c2)
  | _ =>
      '(ok3, olds2, c3) ← remove_all flagged [] olds1 c2;
      if negb (ok3 : bool) then Some (WFailed, set_cache t c3)
      else
        let c4 := foldl (fun c i => set_active c i false) c3 flagged in
        removed ← mapM (fun i => r ← old_record olds2 i; Some (i, r)) flagged;
        let '(ok5, d) := append_delta_deletes io c4 removed (t_delta t) in
        if negb ok5 then c5 ← reactivate_all flagged c4; Some (WFailed, set_delta (set_cache t c5) d)
        else
          '(_, t6) ← maybe_compact_delta_log io (set_delta (set_cache t c4) d);
          c7 ← clear_slots flagged (t_cache t6);
          Some (WDone (Z.of_nat (length flagged)), set_cache t6 c7)
  end.

Definition execute_delete (io : nat → bool) (t : Table) (stmt : Statement) : option (WriteResult * Table) :=
  let h := c_hdr (t_cache t) in
  if negb (validate_where_columns h stmt) then Some (WRefused, t)
  else if (length (where_conditions stmt) =? 0)%nat then Some (WRefused, t)
  else if cache_truncated t then rewrite_truncated_delete io t stmt
  else if record_count (c_slots (t_cache t)) =? 0 then Some (WNone, t)
  else
    match lookup_condition h stmt with
    | Some (cond, col, uses_pk) => delete_single_row io t stmt cond col uses_pk
    | None => delete_scan io t stmt
    end.
