(* ===== verification/LegacyWriteProofs.v ===== *)
(** UPDATE and DELETE of the stand-alone executor keep the table well-formed: reading
    the rows without evictions, taking them out of the indexes and of their slots,
    and the changes that are logged. *)

From Stdlib Require Import String.
From S2P Require Import Prelude CString BPTree BPTreeProofs BPTreeSpec BPTreeString BPTreeIndex Parser Values Table InsertProofs Store StoreProofs.
From S2P Require Import LegacyRow LegacyRowProofs LegacyCache LegacyCacheProofs LegacyIndex LegacyIndexProofs DeltaLog DeltaLogProofs LegacyTable LegacyTableProofs LegacyLoadProofs LegacyClaims LegacySelect LegacySelectProofs LegacyWrite.
From stdpp Require Import base numbers list sorting option.
Local Open Scope Z_scope.

(** ** Reading without evictions *)

Definition in_mem (c : Cache) (i : Z) : Prop := s_row (slot_at (c_slots c) i) ≠ None.

Lemma slot_at_insert s i x j cap a cc ck cu fr fc :
  0 ≤ i < record_count s → 0 ≤ j →
  slot_at (mkSlots (<[Z.to_nat i := x]> (slots s)) cap a cc ck cu fr fc) j = if decide (j = i) then x else slot_at s j.
Proof.
  intros Hi Hj. unfold slot_at, record_count in *. cbn [slots]. destruct (decide (j = i)) as [->|Hne].
  - by rewrite list_lookup_insert_eq by lia.
  - by rewrite list_lookup_insert_ne by lia.
Qed.

(** With at most [ROW_CACHE_LIMIT] slots a row that is not in memory leaves room for it. *)
Lemma cache_room f s i :
  slots_ok f s → record_count s ≤ ROW_CACHE_LIMIT → 0 ≤ i < record_count s → s_row (slot_at s i) = None →
  cached_record_count s < ROW_CACHE_LIMIT.
Proof.
  intros Hok Hlim Hi Hr. rewrite (ss_cached f s Hok). pose proof (slot_at_lookup s i Hi) as Hl.
  assert (s_cached (slot_at s i) = false) as Hc.
  { destruct (s_cached (slot_at s i)) eqn:E; [|done]. destruct (proj1 (so_cached f _ (slot_at_ok f s i Hok Hi)) E) as [H _]. congruence. }
  pose proof (countb_insert s_cached (slots s) (Z.to_nat i) _ (mkSlot None false 0 ROW_STORE_NONE 0 true 0) Hl) as Hins.
  rewrite Hc in Hins. simpl in Hins.
  pose proof (countb_le s_cached (<[Z.to_nat i := mkSlot None false 0 ROW_STORE_NONE 0 true 0]> (slots s))) as Hle.
  rewrite length_insert in Hle. unfold record_count in *. lia.
Qed.

Lemma slot_row_keeps f pc s i r pc' s' :
  slots_ok f s → record_count s ≤ ROW_CACHE_LIMIT → slot_row (Some f) pc s i = Some (r, pc', s') →
  (∀ j, s_row (slot_at s j) ≠ None → s_row (slot_at s' j) ≠ None) ∧ (r ≠ None → s_row (slot_at s' i) ≠ None).
Proof.
  intros Hok Hlim. unfold slot_row. destruct (slot_is_active s i) eqn:Ea; cbn [negb]; [|by intros [= <- <- <-]].
  apply slot_is_active_spec in Ea as [Hi Ha].
  assert (∀ x clock a cc cu fr fc, s_row x ≠ None →
    let s2 := mkSlots (<[Z.to_nat i := x]> (slots s)) (record_capacity s) a cc clock cu fr fc in
    (∀ j, s_row (slot_at s j) ≠ None → s_row (slot_at s2 j) ≠ None) ∧ s_row (slot_at s2 i) ≠ None) as Hput.
  { intros x clock a cc cu fr fc Hx. cbv zeta. split.
    - intros j Hj. unfold slot_at in *. cbn [slots]. destruct (decide (Z.to_nat j = Z.to_nat i)) as [->|Hne].
      + unfold record_count in Hi. rewrite list_lookup_insert_eq by lia. done.
      + by rewrite list_lookup_insert_ne.
    - rewrite slot_at_insert by lia. by rewrite decide_True. }
  destruct (s_row (slot_at s i)) as [row|] eqn:Er.
  - destruct (bool_decide _); intros [= <- <- <-]; [by rewrite Er|].
    destruct (Hput (mkSlot (Some row) (s_active (slot_at s i)) (s_id (slot_at s i)) (s_store (slot_at s i)) (s_offset (slot_at s i)) true (row_cache_clock s + 1))
      (row_cache_clock s + 1) (active_count s) (cached_record_count s) (row_cache_evict_cursor s) (free_slots s) (free_capacity s)) as [H1 H2]; done.
  - destruct (bool_decide _ && _); [|by intros [= <- <- <-]].
    assert (evict_row_cache_if_needed s = Some s) as ->.
    { unfold evict_row_cache_if_needed. cbn [evict_loop]. by rewrite (proj2 (Z.ltb_lt _ _) (cache_room f s i Hok Hlim Hi Er)). }
    cbn [mbind option_bind]. destruct (read_row f pc (s_offset (slot_at s i))) as [[row|] pc2]; intros [= <- <- <-]; [|done].
    destruct (Hput (mkSlot (Some row) (s_active (slot_at s i)) (s_id (slot_at s i)) (s_store (slot_at s i)) (s_offset (slot_at s i)) true (row_cache_clock s + 1))
      (row_cache_clock s + 1) (active_count s) (cached_record_count s + 1) (row_cache_evict_cursor s) (free_slots s) (free_capacity s)) as [H1 H2]; done.
Qed.

Section table.
Context (h : Header) (p : nat) (Hpk : h_pk h = Some p) (Huks : NoDup (h_uks h)).

Lemma cache_row_kept c l l' i :
  table_at h c l l' → Z.of_nat (length l) ≤ ROW_CACHE_LIMIT →
  ∃ c', cache_row c i = Some (at_slot l i, c') ∧ table_at h c' l l' ∧ (∀ j, in_mem c j → in_mem c' j) ∧ (at_slot l i ≠ None → in_mem c' i).
Proof.
  intros Hc Hlim. destruct (cache_row_at h c l l' i Hc) as (c' & E & Hc' & _). exists c'. split; [done|]. split; [done|].
  pose proof (table_length h c l l' Hc) as Hlen. destruct Hc as [_ (f & Hf & [Hs _ _] & _) _]. unfold cache_row in E. rewrite Hf in E.
  destruct (slot_row _ _ _ _) as [[[row pc] s]|] eqn:Es; [|done]. injection E as -> <-.
  apply (slot_row_keeps f) in Es; [|done|lia]. done.
Qed.

(** The rows of the slots from [i] on. *)
Fixpoint rows_with (i : Z) (l : list (option cstr)) : list (Z * cstr) :=
  match l with
  | [] => []
  | o :: l' => match o with Some r => [(i, r)] | None => [] end ++ rows_with (i + 1) l'
  end.

Lemma rows_with_spec i l j r : (j, r) ∈ rows_with i l ↔ ∃ k, l !! k = Some (Some r) ∧ j = i + Z.of_nat k.
Proof.
  revert i; induction l as [|o l IH]; intros i; cbn [rows_with].
  - split; [by intros ?%not_elem_of_nil|]. intros (k & Hk & _). done.
  - rewrite elem_of_app, IH. split.
    + intros [Hin|(k & Hk & ->)].
      * destruct o; [|by apply not_elem_of_nil in Hin]. apply list_elem_of_singleton in Hin as [= -> ->]. exists 0%nat. split; [done|lia].
      * exists (S k). split; [done|lia].
    + intros ([|k] & Hk & ->); cbn in Hk; [|right; exists k; split; [done|lia]].
      injection Hk as ->. left. apply list_elem_of_singleton. f_equal. lia.
Qed.

Lemma rows_with_NoDup i l : NoDup (rows_with i l).*1.
Proof.
  revert i; induction l as [|o l IH]; intros i; cbn [rows_with]; [constructor|]. rewrite fmap_app. apply list.NoDup_app.
  split; [destruct o; [apply NoDup_singleton|constructor]|]. split; [|apply IH].
  intros j Hj ([j' r] & -> & (k & _ & E)%rows_with_spec)%list_elem_of_fmap. cbn [fst] in *.
  destruct o; [|by apply not_elem_of_nil in Hj]. apply list_elem_of_singleton in Hj. cbn in Hj. lia.
Qed.

Lemma rows_with_at l j r : (j, r) ∈ rows_with 0 l ↔ at_slot l j = Some r.
Proof.
  rewrite rows_with_spec, at_slot_lookup. split.
  - intros (k & Hk & ->). rewrite Z.add_0_l, Nat2Z.id. split; [done|lia].
  - intros [Hl Hj]. exists (Z.to_nat j). split; [done|lia].
Qed.

Lemma drop_slot (l : list (option cstr)) i o rest :
  0 ≤ i → drop (Z.to_nat i) l = o :: rest → drop (Z.to_nat (i + 1)) l = rest ∧ at_slot l i = o.
Proof.
  intros Hi Ed. split; [by rewrite Z2Nat.inj_add, <- drop_drop, Ed by lia|].
  assert (l !! Z.to_nat i = Some o) as Hl by (rewrite <- (Nat.add_0_r (Z.to_nat i)), <- lookup_drop, Ed; done).
  unfold at_slot. rewrite (proj2 (Z.leb_le 0 i)), Hl by lia. by destruct o.
Qed.

Lemma still_same c olds : (∀ j r, (j, r) ∈ olds → in_mem c j) → still c olds = olds.
Proof.
  intros H. unfold still. induction olds as [|[j r] olds IH]; cbn; [done|].
  pose proof (H j r ltac:(by left)) as Hj. unfold in_mem in Hj. destruct (s_row _); [|done]. f_equal. apply IH. intros j' r' Hin.
  apply (H j' r'). by right.
Qed.

Lemma old_records_ok n i c l l' olds :
  table_at h c l l' → Z.of_nat (length l) ≤ ROW_CACHE_LIMIT → (∀ j r, (j, r) ∈ olds → in_mem c j) →
  0 ≤ i → n = length (drop (Z.to_nat i) l) →
  ∃ c', old_records n i c olds = Some (olds ++ rows_with i (drop (Z.to_nat i) l), c') ∧ table_at h c' l l' ∧
    (∀ j r, (j, r) ∈ olds ++ rows_with i (drop (Z.to_nat i) l) → in_mem c' j).
Proof.
  intros Hc Hlim. revert i c olds Hc; induction n as [|n IH]; intros i c olds Hc Holds Hi Hn; cbn [old_records].
  - destruct (drop (Z.to_nat i) l); [|done]. exists c. rewrite app_nil_r. by split.
  - destruct (cache_row_kept c l l' i Hc Hlim) as (c1 & -> & Hc1 & Hk & Hki). cbn [mbind option_bind].
    destruct (drop (Z.to_nat i) l) as [|o rest] eqn:Ed; [done|].
    destruct (drop_slot l i o rest Hi Ed) as [Ed' Ho].
    rewrite still_same by (intros j r Hin; apply Hk; by eapply Holds). cbn [rows_with]. rewrite Ho, app_assoc in *.
    rewrite <- Ed'. apply IH; [done| |lia|by rewrite Ed'; injection Hn].
    intros j r [Hin|Hin]%elem_of_app; [apply Hk; by eapply Holds|].
    destruct o as [r'|]; [|by apply not_elem_of_nil in Hin]. apply list_elem_of_singleton in Hin as [= -> ->]. by apply Hki.
Qed.

(** The slots whose row matches. *)
Definition hits (stmt : Statement) (rows : list (Z * cstr)) : list (Z * cstr) :=
  List.filter (fun x => row_matches_statement h stmt x.2) rows.

Lemma hits_in stmt rows x : x ∈ hits stmt rows ↔ x ∈ rows ∧ row_matches_statement h stmt x.2 = true.
Proof. unfold hits. by rewrite list_elem_of_In, filter_In, <- list_elem_of_In. Qed.

Lemma delete_flags_ok n i stmt c l l' olds :
  table_at h c l l' → Z.of_nat (length l) ≤ ROW_CACHE_LIMIT → (∀ j r, (j, r) ∈ olds → in_mem c j) →
  0 ≤ i → n = length (drop (Z.to_nat i) l) →
  ∃ c', delete_flags n i stmt c olds = Some ((hits stmt (rows_with i (drop (Z.to_nat i) l))).*1, olds, c') ∧ table_at h c' l l' ∧
    (∀ j r, (j, r) ∈ olds → in_mem c' j).
Proof.
  intros Hc Hlim. revert i c Hc; induction n as [|n IH]; intros i c Hc Holds Hi Hn; cbn [delete_flags].
  - destruct (drop (Z.to_nat i) l); [|done]. by exists c.
  - destruct (cache_row_kept c l l' i Hc Hlim) as (c1 & -> & Hc1 & Hk & _). cbn [mbind option_bind].
    destruct (drop (Z.to_nat i) l) as [|o rest] eqn:Ed; [done|].
    destruct (drop_slot l i o rest Hi Ed) as [Ed' Ho].
    assert (∀ j r, (j, r) ∈ olds → in_mem c1 j) as Holds1 by (intros j r Hin; apply Hk; by eapply Holds).
    rewrite still_same by done. destruct (IH (i + 1) c1 Hc1 Holds1 ltac:(lia)) as (c2 & -> & Hc2 & Holds2); [by rewrite Ed'; injection Hn|].
    cbn [mbind option_bind]. rewrite Ed', Ho, (ta_hdr _ _ _ _ Hc). exists c2. split; [|done]. cbn [rows_with]. unfold hits.
    destruct o as [r|]; cbn; [|done]. by destruct (row_matches_statement h stmt r).
Qed.

(** The row of a statement without [old_records]. *)
Lemma match_rows_ok n i stmt c l l' :
  table_at h c l l' → 0 ≤ i → n = length (drop (Z.to_nat i) l) →
  ∃ c', match_rows n i stmt c = Some ((hits stmt (rows_with i (drop (Z.to_nat i) l))).*1, c') ∧ table_at h c' l l'.
Proof.
  intros Hc. revert i c Hc; induction n as [|n IH]; intros i c Hc Hi Hn; cbn [match_rows].
  - destruct (drop (Z.to_nat i) l); [|done]. by exists c.
  - destruct (cache_row_at h c l l' i Hc) as (c1 & -> & Hc1 & _). cbn [mbind option_bind].
    destruct (drop (Z.to_nat i) l) as [|o rest] eqn:Ed; [done|].
    destruct (drop_slot l i o rest Hi Ed) as [Ed' Ho].
    destruct (IH (i + 1) c1 Hc1 ltac:(lia)) as (c2 & -> & Hc2); [by rewrite Ed'; injection Hn|].
    cbn [mbind option_bind]. rewrite Ed', Ho, (ta_hdr _ _ _ _ Hc). exists c2. split; [|done]. cbn [rows_with]. unfold hits.
    destruct o as [r|]; cbn; [|done]. by destruct (row_matches_statement h stmt r).
Qed.

(** ** The slot of a row that is gone *)

Lemma cleared_slots c i :
  0 ≤ i < record_count (c_slots c) → record_count (c_slots c) ≤ record_capacity (c_slots c) → s_active (slot_at (c_slots c) i) = true →
  let s := c_slots c in
  clear_slot (set_active c i false) i = Some (set_slots c
    (mkSlots (<[Z.to_nat i := mkSlot None false (s_id (slot_at s i)) ROW_STORE_NONE 0 false 0]> (slots s)) (record_capacity s) (active_count s - 1)
       (uncount s (slot_at s i)) (row_cache_clock s) (row_cache_evict_cursor s) (free_slots s ++ [i])
       (grown (free_capacity s) (Z.of_nat (length (free_slots s)) + 1)))).
Proof.
  intros Hi Hcap Ha. cbv zeta. unfold clear_slot, set_active. set (s := c_slots c) in *. cbn [c_slots set_slots set_store].
  unfold set_counts, set_slot. cbn [record_capacity]. rewrite (proj2 (Z.leb_gt _ _)) by lia. unfold set_slots, set_store. cbn.
  rewrite slot_at_insert by lia. rewrite decide_True by done. cbn. rewrite list_insert_insert_eq. done.
Qed.

Lemma clear_slot_ok c l l' i r :
  table_at h c l l' → at_slot l i = Some r → ∃ c', clear_slot (set_active c i false) i = Some c' ∧ table_at h c' (without l i) l'.
Proof.
  intros Hc Hr. pose proof (at_slot_bound l i r Hr) as Hib. rewrite (table_length h c l l' Hc) in Hib.
  pose proof (slot_active_at h c l l' i Hc) as Hact. rewrite Hr in Hact. apply slot_is_active_spec in Hact as [_ Ha].
  destruct Hc as [Hh (f & Hf & [Hs Hp He] & Ht) Htr]. cbn [rs_file rs_pages rs_slots] in *. set (s := c_slots c) in *.
  pose proof Hs as [H1 H2 H3 H4 H5 H6 H7 H8 H9 H10 H11].
  rewrite cleared_slots by done. eexists. split; [reflexivity|]. set (x := mkSlot None false _ _ _ _ _).
  assert (slot_ok f x) as Hx by (constructor; simpl; try done; split; [done|]; by intros [? _]).
  destruct (grown_ok (free_capacity s) (Z.of_nat (length (free_slots s)) + 1)) as [Hg1 Hg2].
  { pose proof (countb_nonneg s_active (slots s)). lia. }
  destruct (put_ok f s i x (row_cache_clock s) (free_slots s ++ [i]) (grown (free_capacity s) (Z.of_nat (length (free_slots s)) + 1)) Hs Hib Hx)
    as [Hput Htx].
  - simpl. destruct (s_cached (slot_at s i)); simpl; lia.
  - apply Forall_app. split.
    + eapply List.Forall_impl; [|exact H8]. intros j [Hj Hja]. split; [done|]. by destruct (decide (j = i)).
    + apply Forall_singleton. split; [done|]. by rewrite decide_True.
  - apply list.NoDup_app. split; [done|]. split; [|apply NoDup_singleton]. intros j Hj ->%list_elem_of_singleton.
    rewrite List.Forall_forall in H8. apply list_elem_of_In in Hj. destruct (H8 _ Hj). congruence.
  - rewrite Ha, length_app. simpl. lia.
  - rewrite length_app. simpl. lia.
  - fold s. rewrite (uncount_ok f s i Hs Hib). unfold put in Hput, Htx. rewrite Ha in Hput, Htx. simpl in Hput, Htx. rewrite !Z.add_0_r in Hput, Htx.
    split; [exact Hh| |exact Htr]. exists f. split; [done|]. split; [split; [exact Hput|exact Hp|exact He]|].
    etrans; [exact Htx|]. by rewrite Ht.
Qed.

(** Clearing a slot and switching off another one commute. *)
Lemma clear_slot_active c c1 i j b :
  0 ≤ i → 0 ≤ j → i ≠ j → clear_slot c i = Some c1 → clear_slot (set_active c j b) i = Some (set_active c1 j b).
Proof.
  intros Hi Hj Hne. unfold clear_slot, set_active. cbn [c_slots set_slots set_store set_counts set_slot record_capacity].
  destruct (record_capacity (c_slots c) <=? i); [done|]. intros [= <-]. f_equal.
  assert (∀ x y s, slot_at (set_counts (set_slot s j x) y (cached_record_count s)) i = slot_at s i) as E1.
  { intros x y s. unfold slot_at. cbn. by rewrite list_lookup_insert_ne by lia. }
  rewrite E1. unfold push_free_slot, ensure_free_slot_capacity, set_slots, set_store, set_free, set_counts, set_slot, uncount, slot_at. cbn.
  rewrite (list_lookup_insert_ne _ (Z.to_nat i) (Z.to_nat j)) by lia. f_equal. f_equal. rewrite list_insert_insert_ne by lia. done.
Qed.

Definition set_inactive (c : Cache) (idxs : list Z) : Cache := foldl (fun c i => set_active c i false) c idxs.

Lemma clear_slot_inactive idxs c c1 i :
  0 ≤ i → Forall (fun j => 0 ≤ j) idxs → i ∉ idxs → clear_slot c i = Some c1 → clear_slot (set_inactive c idxs) i = Some (set_inactive c1 idxs).
Proof.
  intros Hi Hpos. revert c c1; induction Hpos as [|j idxs Hj Hpos IH]; intros c c1 Hnin Hcl; [done|].
  apply not_elem_of_cons in Hnin as [Hne Hnin]. cbn. apply IH; [done|]. by apply clear_slot_active.
Qed.

Definition without_all (l : list (option cstr)) (idxs : list Z) : list (option cstr) := foldl without l idxs.

Lemma at_slot_without l i j : at_slot (without l i) j = if decide (Z.to_nat j = Z.to_nat i) then None else at_slot l j.
Proof.
  unfold at_slot, without. destruct (0 <=? j); [|by case_decide]. case_decide as E.
  - rewrite E. destruct (decide (Z.to_nat i < length l)%nat).
    + by rewrite list_lookup_insert_eq.
    + by rewrite lookup_ge_None_2 by (rewrite length_insert; lia).
  - by rewrite list_lookup_insert_ne.
Qed.

Lemma at_slot_without_ne l i j : 0 ≤ i → j ≠ i → at_slot (without l i) j = at_slot l j.
Proof.
  intros Hi Hne. rewrite at_slot_without. case_decide as E; [|done]. unfold at_slot. destruct (0 <=? j) eqn:Ej; [|done].
  apply Z.leb_le in Ej. lia.
Qed.

Lemma clear_slots_ok idxs c l l' :
  NoDup idxs → (∀ i, i ∈ idxs → at_slot l i ≠ None) → table_at h c l l' →
  ∃ c', clear_slots idxs (set_inactive c idxs) = Some c' ∧ table_at h c' (without_all l idxs) l'.
Proof.
  intros Hnd. revert c l; induction Hnd as [|i idxs Hi Hnd IH]; intros c l Hact Hc; [by exists c|].
  assert (∀ j, j ∈ i :: idxs → 0 ≤ j) as Hpos.
  { intros j Hj. destruct (at_slot l j) as [r|] eqn:E; [by apply at_slot_bound in E as [? _]|by destruct (Hact j Hj)]. }
  destruct (at_slot l i) as [r|] eqn:Er; [|by destruct (Hact i ltac:(by left))].
  destruct (clear_slot_ok c l l' i r Hc Er) as (c1 & E1 & Hc1).
  assert (clear_slot (set_inactive c (i :: idxs)) i = Some (set_inactive c1 idxs)) as E2.
  { change (set_inactive c (i :: idxs)) with (set_inactive (set_active c i false) idxs). apply clear_slot_inactive; [by apply Hpos; left| |done|done]. apply Forall_forall. intros j Hj. apply Hpos. right. by apply list_elem_of_In. }
  cbn [clear_slots]. rewrite E2. cbn [mbind option_bind]. apply IH; [|done].
  intros j Hj. rewrite at_slot_without_ne; [apply Hact; by right|by apply Hpos; left|]. by intros ->.
Qed.
End table.

(** ** The log *)

(** The changes go to the batch that is open. *)
Definition log_add (s : LogSpec) (ops : list DeltaOp) : LogSpec :=
  mkLogSpec (ls_closed s) (Some (default [] (ls_open s) ++ ops)) (ls_synced s).

(** The next change is not the one after which the log is looked at for compaction. *)
Definition no_check_due (d : Delta) : Prop := delta_ops_since_compact_check d + 1 < DELTA_COMPACT_CHECK_INTERVAL.

#[global] Instance no_check_due_dec d : Decision (no_check_due d).
Proof. unfold no_check_due. apply _. Defined.

Lemma spec_lines_all_ok io k ops : (∀ n, io n = true) → spec_lines io k (map Some ops) = (true, ops).
Proof. intros Hio. revert k; induction ops as [|op ops IH]; intros k; cbn; [done|]. by rewrite Hio, IH. Qed.

Lemma begin_checks io d : delta_ops_since_compact_check (begin_delta_batch io (get_delta_writer d)).2 = delta_ops_since_compact_check d.
Proof.
  unfold begin_delta_batch, get_delta_writer. destruct (delta_file d) eqn:Ef; cbn; rewrite ?Ef; destruct (delta_batch_open d); cbn; try done; by destruct (io 0%nat).
Qed.

Lemma append_lines_checks io k ops d : delta_ops_since_compact_check (append_lines io k ops d).2 = delta_ops_since_compact_check d.
Proof. revert k d; induction ops as [|[op|] ops IH]; intros k d; cbn; [done| |done]. destruct (io k); [|done]. by rewrite IH. Qed.

Lemma log_change_ok io d s op :
  (∀ n, io n = true) → log_rep d s →
  ∃ d', append_delta_key io op d = (true, d') ∧ log_rep d' (log_add s [op]) ∧ delta_ops_since_compact_check d' = delta_ops_since_compact_check d.
Proof.
  intros Hio Hr. pose proof (log_call_refines io (LogChange op) d s Hr) as [H1 H2]. cbn [log_call spec_call] in *.
  assert (delta_ops_since_compact_check (append_delta_key io op d).2 = delta_ops_since_compact_check d) as H3.
  { unfold append_delta_key. pose proof (begin_checks io d) as H. destruct (begin_delta_batch _ _) as [[] d1]; [|done]. by destruct (io 1%nat). }
  unfold spec_begin in *. rewrite !Hio in *. destruct (append_delta_key io op d) as [ok d']. exists d'. unfold log_add.
  destruct (ls_open s); cbn in *; subst ok; done.
Qed.

Lemma log_changes_ok io d s ops :
  (∀ n, io n = true) → log_rep d s →
  ∃ d', append_delta_changes io (map Some ops) d = (true, d') ∧ log_rep d' (log_add s ops) ∧
    delta_ops_since_compact_check d' = delta_ops_since_compact_check d.
Proof.
  intros Hio Hr. pose proof (log_call_refines io (LogChanges (map Some ops)) d s Hr) as [H1 H2]. cbn [log_call spec_call] in *.
  assert (delta_ops_since_compact_check (append_delta_changes io (map Some ops) d).2 = delta_ops_since_compact_check d) as H3.
  { unfold append_delta_changes. pose proof (begin_checks io d) as H. destruct (begin_delta_batch _ _) as [[] d1]; [|done]. cbn in H. rewrite <- H. apply append_lines_checks. }
  unfold spec_begin in *. rewrite Hio, !spec_lines_all_ok in * by done. destruct (append_delta_changes _ _ _) as [ok d']. exists d'. unfold log_add.
  destruct (ls_open s); cbn in *; subst ok; done.
Qed.

Lemma compact_not_due io t d s :
  cache_truncated t = false → no_check_due d → log_rep d s →
  ∃ d', maybe_compact_delta_log io (set_delta t d) = Some (true, set_delta t d') ∧ log_rep d' s.
Proof.
  intros Htr Hd [H1 H2 H3 H4 H5]. unfold maybe_compact_delta_log, compaction_due. cbn [cache_truncated set_delta t_delta]. rewrite Htr.
  unfold no_check_due in Hd. rewrite (proj2 (Z.ltb_lt _ _)) by done. eexists. split; [reflexivity|]. by split.
Qed.

Section delete.
Context (h : Header) (p : nat) (Hpk : h_pk h = Some p) (Huks : NoDup (h_uks h)) (io : nat → bool) (Hio : ∀ n, io n = true).

(** ** DELETE of one row *)

Lemma remove_uk_slots_fields cols n fields c :
  c_hdr c = h → drop n (h_uks h) = cols → remove_uk_slots cols n fields c = remove_uk_fields cols fields c.
Proof using Huks.
  revert n c; induction cols as [|col cols IH]; intros n c Hh Hd; cbn [remove_uk_slots remove_uk_fields]; [done|].
  assert (h_uks h !! n = Some col) as Hn by (rewrite <- (Nat.add_0_r n), <- lookup_drop, Hd; done).
  assert (drop (S n) (h_uks h) = cols) as Hd' by (rewrite <- Nat.add_1_r, <- drop_drop, Hd; done).
  rewrite Hh, (get_uk_slot_at h Huks n col Hn). destruct (normalize_value _ _); [by apply IH|].
  destruct (uk_tree_at c n) as [u|]; [|done]. cbn [mbind option_bind]. destruct (ix_delete u _) as [rc u']. destruct (rc =? 0); [done|]. by apply (IH (S n)).
Qed.

(** The key the statement gives, when it is that of the row, serves as well as the one
    read from the row. *)
Lemma remove_by_key c i r k :
  c_hdr c = h → get_row_pk_value h r = Some k →
  remove_record_indexes c i r =
    (let '(rc, tr) := ix_delete (c_id c) k in
     if rc =? 0 then Some (false, set_id c tr) else remove_record_uk_indexes (set_id c tr) r).
Proof using Hpk Huks.
  intros Hh Hk. unfold remove_record_indexes. unfold get_row_pk_value in Hk. rewrite Hpk in Hk. rewrite Hh, Hpk. cbn [mbind option_bind].
  rewrite Hk. destruct (ix_delete (c_id c) k) as [rc tr]. destruct (rc =? 0); [done|]. unfold remove_record_uk_indexes. cbn [c_hdr set_id].
  rewrite Hh. symmetry. by apply remove_uk_slots_fields.
Qed.

Lemma finish_delete_ok t l i r k o s :
  table_at h (t_cache t) l (without l i) → at_slot l i = Some r → get_row_pk_value h r = Some k → o = Some k ∨ o = None →
  cache_truncated t = false → no_check_due (t_delta t) → log_rep (t_delta t) s →
  ∃ t', finish_delete io t i r o = Some (WDone 1, t') ∧ table_ok h (t_cache t') (without l i) ∧ log_rep (t_delta t') (log_add s [DeltaDelete k]) ∧
    cache_truncated t' = false.
Proof using Hpk Huks Hio.
  intros Hc Hr Hk Ho Htr Hdue Hlog. unfold finish_delete.
  destruct (log_change_ok io _ s (DeltaDelete k) Hio Hlog) as (d & E & Hd & Hch).
  assert ((match o with
           | Some k => append_delta_key io (DeltaDelete k) (t_delta t)
           | None => append_delta_delete_one io (set_active (t_cache t) i false) i r (t_delta t)
           end) = (true, d)) as ->.
  { destruct Ho as [->| ->]; [done|]. unfold append_delta_delete_one.
    rewrite (row_key h p Hpk (set_active (t_cache t) i false)) by apply Hc. by rewrite Hk. }
  cbn [negb]. destruct (compact_not_due io (set_cache t (set_active (t_cache t) i false)) d (log_add s [DeltaDelete k])) as (d' & -> & Hd');
    [done|by unfold no_check_due; rewrite Hch|done|].
  cbn [mbind option_bind t_cache set_delta set_cache]. destruct (clear_slot_ok h _ l _ i r Hc Hr) as (c' & -> & Hc').
  cbn [mbind option_bind]. eexists. split; [reflexivity|]. by split.
Qed.
End delete.

(** ** Looking up the row of a condition *)

Lemma eq_condition_score h cond : 0 < cond_score h false cond → wc_type cond = WHERE_EQ.
Proof. unfold cond_score. destruct (condition_column_index h cond); [|done]. by destruct (wc_type cond). Qed.

Lemma lookup_condition_spec h stmt cond col pk :
  lookup_condition h stmt = Some (cond, col, pk) →
  cond ∈ where_conditions stmt ∧ condition_column_index h cond = Some col ∧ wc_type cond = WHERE_EQ ∧
  (if pk then h_pk h = Some col else h_pk h ≠ Some col ∧ get_uk_slot h col ≠ None).
Proof.
  unfold lookup_condition, choose_index_condition. destruct (best_condition _ _ _ _ _ _) as [i|]; [|done]. cbn.
  destruct (where_conditions stmt !! i) as [c|] eqn:E; [|done]. cbn. destruct (condition_column_index h c) as [k|] eqn:Ec; [|done]. cbn.
  rewrite E. cbn. destruct (bool_decide_reflect (wc_type c = WHERE_EQ)); cbn; [|done].
  destruct (bool_decide_reflect (h_pk h = Some k)).
  - intros [= <- <- <-]. split; [by eapply list_elem_of_lookup_2|done].
  - destruct (get_uk_slot h k) eqn:Eu; [|done]. intros [= <- <- <-]. split; [by eapply list_elem_of_lookup_2|]. by rewrite Eu.
Qed.

(** A lookup by the primary key alone finds no row whose key only reads the same, and
    one by a unique column has a text. *)
Definition lookup_exact (h : Header) (stmt : Statement) (l : list (option cstr)) : bool :=
  match lookup_condition h stmt with
  | None => true
  | Some (cond, col, true) =>
      negb (length (where_conditions stmt) =? 1)%nat ||
      forallb (fun o => match o with
                        | Some r => negb (bool_decide (get_row_pk_value h r = parse_long_value (wc_val cond))) || row_field_equals r col (wc_val cond)
                        | None => true
                        end) l
  | Some (cond, col, false) => match normalize_value (wc_val cond) RECORD_SIZE with [] => false | _ => true end
  end.

Section lookup.
Context (h : Header) (p : nat) (Hpk : h_pk h = Some p) (stmt : Statement) (c : Cache) (l : list (option cstr)).
Context (Hc : table_ok h c l) (Hrows : Forall (stored_row h) (omap id l)) (Hcols : (col_count h < MAX_COLS)%nat).
Context (Hvals : Forall (fun c => (length (wc_val c) < 256)%nat) (where_conditions stmt)).

(** What a lookup by the condition finds. *)
Definition found_row (cond : WhereCondition) (col : nat) (pk : bool) : option (option Z) :=
  if pk then Some (find_pk_row c (wc_val cond)) else find_uk_row c col (wc_val cond).

(** The one row that can match, when it is there. *)
Lemma lookup_row cond col pk :
  lookup_condition h stmt = Some (cond, col, pk) → lookup_exact h stmt l = true →
  ∃ found, found_row cond col pk = Some found ∧
    match found with
    | Some i => ∃ r, at_slot l i = Some r ∧ (pk = true → get_row_pk_value h r = parse_long_value (wc_val cond)) ∧
        (pk = false → uk_text col r = normalize_value (wc_val cond) RECORD_SIZE) ∧
        (∀ j r', at_slot l j = Some r' → row_matches_statement h stmt r' = true → j = i)
    | None => ∀ j r', at_slot l j = Some r' → row_matches_statement h stmt r' = false
    end.
Proof using Hpk Hc Hrows Hcols Hvals.
  intros Hlk Hex. pose proof (lookup_condition_spec h stmt cond col pk Hlk) as (Hin & Hcol & Hty & Hpk').
  pose proof (ta_trees _ _ _ _ Hc) as [Hid _ _ Hu].
  assert (∀ j r, at_slot l j = Some r → row_matches_statement h stmt r = row_fields_match_statement h stmt (parse_csv_row r)) as Htst.
  { intros j r Hj. pose proof (rows_tested h stmt l Hrows Hcols Hvals) as H. rewrite Forall_forall in H. apply H, list_elem_of_In, table_rows_in. by exists j. }
  unfold lookup_exact in Hex. rewrite Hlk in Hex. destruct pk; unfold found_row.
  - rewrite Hpk in Hpk'. injection Hpk' as <-. eexists. split; [reflexivity|]. unfold find_pk_row. rewrite (ta_hdr _ _ _ _ Hc), Hpk.
    assert (∀ j r, at_slot l j = Some r → row_matches_statement h stmt r = true → id_key h l j = parse_long_value (wc_val cond)) as Hkey.
    { intros j r Hj Hm. rewrite (Htst j r Hj) in Hm. apply (pk_eq_key h p Hpk l cond j r Hj); [by eapply matches_cond|done|done]. }
    destruct (parse_long_value (wc_val cond)) as [key|] eqn:Ek; cbn [mbind option_bind].
    + destruct (ix_search (c_id c) key) as [i|] eqn:Es; cbn [mbind option_bind].
      * apply (index_search _ (id_key h l)) in Es; [|done]. pose proof Es as Es'. unfold id_key in Es'. rewrite (slot_active_at h _ l l i Hc).
        destruct (at_slot l i) as [r|] eqn:Er; [|done]. exists r. split; [done|]. split; [done|]. split; [done|]. intros j r' Hj Hm.
        apply (id_key_inj h c l j i key Hc); [|done]. by rewrite (Hkey j r' Hj Hm).
      * intros j r Hj. destruct (row_matches_statement h stmt r) eqn:Hm; [|done]. exfalso. pose proof (Hkey j r Hj Hm) as Hk.
        apply (index_search _ _ _ _ Hid) in Hk. congruence.
    + intros j r Hj. destruct (row_matches_statement h stmt r) eqn:Hm; [|done]. exfalso. pose proof (Hkey j r Hj Hm) as Hk.
      apply (tr_keys _ _ _ _ (ta_trees _ _ _ _ Hc) j r Hj). unfold id_key in Hk. by rewrite Hj in Hk.
  - destruct Hpk' as [_ Hsl]. unfold find_uk_row. rewrite (ta_hdr _ _ _ _ Hc). destruct (get_uk_slot h col) as [slot|] eqn:Esl; [|done].
    destruct (Hu slot col (uk_slot_column h col slot Esl)) as (u & Hun & Hiu).
    assert (∀ j r, at_slot l j = Some r → row_matches_statement h stmt r = true → uk_key col l j = Some (normalize_value (wc_val cond) RECORD_SIZE)) as Hkey.
    { intros j r Hj Hm. rewrite (Htst j r Hj) in Hm. apply (uk_eq_key h stmt l Hrows Hcols Hvals cond col j r Hj); [by eapply matches_cond|done|done|done|].
      by destruct (normalize_value (wc_val cond) RECORD_SIZE). }
    destruct (normalize_value (wc_val cond) RECORD_SIZE) as [|b key] eqn:Ek; [done|].
    unfold uk_tree_at. rewrite Hun. cbn [mjoin option_join mbind option_bind]. unfold unique_index_find. eexists. split; [reflexivity|].
    destruct (ix_search u (b :: key)) as [i|] eqn:Es; cbn [mbind option_bind].
    + pose proof Es as Es0. apply (index_search _ (uk_key col l)) in Es; [|done]. unfold uk_key in Es.
      rewrite (slot_active_at h _ l l i Hc). destruct (at_slot l i) as [r|] eqn:Er; [|done]. exists r. split; [done|]. split; [done|]. split.
      { intros _. cbn in Es. destruct (uk_text col r); [done|by injection Es as <- <-]. }
      intros j r' Hj Hm. pose proof (Hkey j r' Hj Hm) as Hk. apply (index_search u _ _ _ Hiu) in Hk. congruence.
    + intros j r Hj. destruct (row_matches_statement h stmt r) eqn:Hm; [|done]. exfalso. pose proof (Hkey j r Hj Hm) as Hk.
      apply (index_search u _ _ _ Hiu) in Hk. congruence.
Qed.

(** Alone, the condition of the primary key is tested on the text of the row. *)
Lemma alone_matches cond col r :
  lookup_condition h stmt = Some (cond, col, true) → length (where_conditions stmt) = 1%nat →
  row_matches_statement h stmt r = row_field_equals r col (wc_val cond).
Proof using Type.
  clear Hvals. intros Hlk Hlen. pose proof (lookup_condition_spec h stmt cond col true Hlk) as (Hin & Hcol & Hty & _). unfold row_matches_statement.
  destruct (where_conditions stmt) as [|c0 [|]]; [done| |done]. apply list_elem_of_singleton in Hin as <-. by rewrite Hty, Hcol.
Qed.

Lemma compare_value_norm a b :
  (length a < 256)%nat → (length b < 256)%nat → normalize_value a RECORD_SIZE = normalize_value b RECORD_SIZE → compare_value a b = true.
Proof.
  unfold compare_value, normalize_value, strcpy_sz. intros Ha Hb E. rewrite !take_ge in * by (unfold RECORD_SIZE; lia). rewrite E. by apply streq_true.
Qed.

Lemma alone_found cond col pk i r :
  lookup_condition h stmt = Some (cond, col, pk) → lookup_exact h stmt l = true → length (where_conditions stmt) = 1%nat →
  at_slot l i = Some r → (pk = true → get_row_pk_value h r = parse_long_value (wc_val cond)) →
  (pk = false → uk_text col r = normalize_value (wc_val cond) RECORD_SIZE) → row_matches_statement h stmt r = true.
Proof using Hrows Hcols Hvals.
  intros Hlk Hex Hlen Hr Hk Hu. unfold lookup_exact in Hex. rewrite Hlk, Hlen in Hex. destruct pk.
  - rewrite (alone_matches cond col) by done. cbn in Hex. rewrite forallb_forall in Hex.
    apply at_slot_lookup in Hr as [Hl _]. specialize (Hex (Some r) ltac:(apply list_elem_of_In; by eapply list_elem_of_lookup_2)). cbn in Hex.
    by rewrite bool_decide_eq_true_2 in Hex by by apply Hk.
  - pose proof (rows_tested h stmt l Hrows Hcols Hvals) as H. rewrite Forall_forall in H.
    rewrite H by (apply list_elem_of_In, table_rows_in; by exists i). clear H.
    pose proof (lookup_condition_spec h stmt cond col false Hlk) as (Hin & Hcol & Hty & _). unfold row_fields_match_statement.
    destruct (where_conditions stmt) as [|c0 [|]] eqn:Ew; [done| |done]. apply list_elem_of_singleton in Hin as <-. cbn. rewrite andb_true_r.
    unfold cond_holds. rewrite Hcol, Hty. apply compare_value_norm; [| |by apply Hu].
    + destruct (row_stored h l Hrows i r Hr) as (_ & _ & _ & Hf). unfold field_at. destruct (parse_csv_row r !! col) as [f|] eqn:E; [|simpl; lia].
      exact (Forall_lookup_1 _ _ _ _ Hf E).
    + by apply Forall_cons_1 in Hvals as [Hv _].
Qed.
End lookup.

(** ** DELETE *)

Lemma nodup_single (l : list (Z * cstr)) i r : NoDup l.*1 → (i, r) ∈ l → (∀ x, x ∈ l → x = (i, r)) → l = [(i, r)].
Proof.
  intros Hnd Hin Hall. destruct l as [|x [|y l]]; [by apply not_elem_of_nil in Hin|by rewrite (Hall x ltac:(by left))|].
  rewrite (Hall x), (Hall y) in Hnd by (by left || (right; by left)). cbn in Hnd. apply list.NoDup_cons in Hnd as [Hn _]. destruct Hn. by left.
Qed.

Section delete_rows.
Context (h : Header) (p : nat) (Hpk : h_pk h = Some p) (Huks : NoDup (h_uks h)) (io : nat → bool) (Hio : ∀ n, io n = true).
Context (stmt : Statement) (t : Table) (l : list (option cstr)) (s : LogSpec).
Context (Hc : table_ok h (t_cache t) l) (Hrows : Forall (stored_row h) (omap id l)) (Hcols : (col_count h < MAX_COLS)%nat).
Context (Hvals : Forall (fun c => (length (wc_val c) < 256)%nat) (where_conditions stmt)).
Context (Htr : cache_truncated t = false) (Hdue : no_check_due (t_delta t)) (Hlog : log_rep (t_delta t) s).

(** The slots whose row matches, with the row. *)
Definition hit_rows : list (Z * cstr) := hits h stmt (rows_with 0 l).

Definition key_of (r : cstr) : Z := default 0 (get_row_pk_value h r).

Lemma hit_rows_in i r : (i, r) ∈ hit_rows ↔ at_slot l i = Some r ∧ row_matches_statement h stmt r = true.
Proof. unfold hit_rows. by rewrite hits_in, rows_with_at. Qed.

Lemma hit_rows_NoDup : NoDup hit_rows.*1.
Proof. unfold hit_rows, hits. apply NoDup_fst_filter, rows_with_NoDup. Qed.

Lemma hit_rows_none : (∀ j r, at_slot l j = Some r → row_matches_statement h stmt r = false) → hit_rows = [].
Proof.
  intros H. destruct hit_rows as [|[i r] rest] eqn:E; [done|]. assert ((i, r) ∈ hit_rows) as [H1 H2]%hit_rows_in by (rewrite E; by left).
  by rewrite (H i r) in H2.
Qed.

Lemma hit_rows_one i r :
  at_slot l i = Some r → (∀ j r', at_slot l j = Some r' → row_matches_statement h stmt r' = true → j = i) →
  hit_rows = if row_matches_statement h stmt r then [(i, r)] else [].
Proof.
  intros Hr Hone. destruct (row_matches_statement h stmt r) eqn:Hm.
  - apply nodup_single; [apply hit_rows_NoDup|by apply hit_rows_in|]. intros [j r'] [Hj Hm']%hit_rows_in.
    pose proof (Hone j r' Hj Hm') as ->. rewrite Hr in Hj. by injection Hj as ->.
  - apply hit_rows_none. intros j r' Hj. destruct (row_matches_statement h stmt r') eqn:Hm'; [|done].
    pose proof (Hone j r' Hj Hm') as ->. rewrite Hr in Hj. injection Hj as ->. congruence.
Qed.

(** What DELETE promises of its result. *)
Definition deleted (res : option (WriteResult * Table)) : Prop :=
  ∃ t', res = Some (match hit_rows with [] => WNone | _ => WDone (Z.of_nat (length hit_rows)) end, t') ∧
    table_ok h (t_cache t') (without_all l hit_rows.*1) ∧ cache_truncated t' = false ∧
    log_rep (t_delta t') (match hit_rows with [] => s | _ => log_add s (map (fun x => DeltaDelete (key_of x.2)) hit_rows) end).

Lemma deleted_none c : table_ok h c l → hit_rows = [] → deleted (Some (WNone, set_cache t c)).
Proof. intros Hc' E. unfold deleted. rewrite E. eexists. split; [reflexivity|]. by split. Qed.

Lemma deleted_same : hit_rows = [] → deleted (Some (WNone, t)).
Proof. intros E. unfold deleted. rewrite E. exists t. by split. Qed.

Lemma delete_found c1 i r o :
  table_at h c1 l (without l i) → at_slot l i = Some r → o = get_row_pk_value h r ∨ o = None → hit_rows = [(i, r)] →
  deleted (finish_delete io (set_cache t c1) i r o).
Proof.
  intros Hc1 Hr Ho E. destruct (get_row_pk_value h r) as [k|] eqn:Ek; [|by destruct (tr_keys _ _ _ _ (ta_trees _ _ _ _ Hc) i r Hr)].
  destruct (finish_delete_ok h p Hpk Huks io Hio (set_cache t c1) l i r k o s) as (t' & -> & H1 & H2 & H3); [done..|].
  unfold deleted. rewrite E. eexists. split; [reflexivity|]. unfold key_of. cbn. by rewrite Ek.
Qed.

Lemma delete_single_ok cond col pk :
  lookup_condition h stmt = Some (cond, col, pk) → lookup_exact h stmt l = true → deleted (delete_single_row io t stmt cond col pk).
Proof.
  intros Hlk Hex. destruct (lookup_row h p Hpk stmt (t_cache t) l Hc Hrows Hcols Hvals cond col pk Hlk Hex) as (found & Ef & Hf).
  unfold delete_single_row. unfold found_row in Ef. rewrite Ef. cbn [mbind option_bind].
  destruct found as [i|]; [|by apply deleted_same, hit_rows_none]. destruct Hf as (r & Hr & Hk & Hu & Hone).
  pose proof (hit_rows_one i r Hr Hone) as Ehit. destruct (cache_row_at h _ l l i Hc) as (c1 & -> & Hc1 & _). cbn [mbind option_bind]. rewrite Hr.
  destruct (remove_record_indexes_ok h p Hpk Huks c1 l l i r Hc1 Hr) as (c2 & Erem & Hc2 & _).
  assert (length (where_conditions stmt) = 1%nat → row_matches_statement h stmt r = true) as Hal
    by (intros Hlen; by apply (alone_found h stmt l Hrows Hcols Hvals cond col pk i)).
  destruct (if pk && (length (where_conditions stmt) =? 1)%nat then parse_long_value (wc_val cond) else None) as [key|] eqn:Ekey.
  - destruct pk; [|done]. cbn [andb] in Ekey. destruct (Nat.eqb_spec (length (where_conditions stmt)) 1) as [Hlen|]; [|done].
    rewrite (Hal Hlen) in Ehit. rewrite <- (alone_matches h stmt cond col) by done. rewrite (Hal Hlen). cbn [negb].
    rewrite (remove_by_key h p Hpk Huks c1 i r key) in Erem; [|by apply Hc1|by rewrite Hk].
    destruct (ix_delete (c_id c1) key) as [rc tr]. rewrite Erem. cbn [mbind option_bind].
    apply delete_found; [done|done|left; by rewrite Hk|done].
  - rewrite (ta_hdr _ _ _ _ Hc). destruct (row_matches_statement h stmt r) eqn:Hm; cbn [negb].
    + rewrite Erem. cbn [mbind option_bind]. apply delete_found; [done|done|by right|done].
    + assert ((length (where_conditions stmt) =? 1)%nat = false) as -> by (apply Nat.eqb_neq; intros Hlen; by apply Hal in Hlen).
      rewrite andb_false_r. cbn [mbind option_bind]. by apply deleted_none.
Qed.

Lemma old_record_find olds i r : NoDup olds.*1 → (i, r) ∈ olds → old_record olds i = Some r.
Proof.
  intros Hnd Hin. unfold old_record. induction olds as [|[j r'] olds IH]; [by apply not_elem_of_nil in Hin|]. cbn in *.
  apply list.NoDup_cons in Hnd as [Hj Hnd]. apply elem_of_cons in Hin as [[= -> ->]|Hin]; [by rewrite Z.eqb_refl|].
  destruct (Z.eqb_spec j i) as [->|]; [|by apply IH]. destruct Hj. apply list_elem_of_fmap. by exists (i, r).
Qed.

Lemma remove_all_ok rows removed olds c l' :
  NoDup rows.*1 → NoDup olds.*1 → (∀ x, x ∈ rows → x ∈ olds ∧ at_slot l' x.1 = Some x.2) →
  table_at h c l l' → (∀ j r, (j, r) ∈ olds → in_mem c j) →
  ∃ c', remove_all rows.*1 removed olds c = Some (true, olds, c') ∧ table_at h c' l (without_all l' rows.*1).
Proof.
  intros Hnd Hndo. revert removed c l'; induction rows as [|[i r] rows IH]; intros removed c l' Hall Hc' Hmem; [by exists c|].
  cbn in Hnd. apply list.NoDup_cons in Hnd as [Hi Hnd]. destruct (Hall (i, r) ltac:(by left)) as [Hin Hr]. cbn in Hr.
  cbn [fmap list_fmap remove_all fst]. rewrite (old_record_find olds i r) by done. cbn [mbind option_bind].
  destruct (remove_record_indexes_ok h p Hpk Huks c l l' i r Hc' Hr) as (c1 & -> & Hc1 & Es). cbn [mbind option_bind].
  assert (∀ j r', (j, r') ∈ olds → in_mem c1 j) as Hmem1 by (intros j r' Hj; unfold in_mem; rewrite Es; by eapply Hmem).
  rewrite still_same by done. apply (IH Hnd _ c1 (without l' i)); [|done|done].
  intros [j r'] Hj. destruct (Hall (j, r') ltac:(by right)) as [H1 H2]. split; [done|]. rewrite at_slot_without_ne; [done|apply at_slot_bound in Hr; lia|].
  cbn. intros ->. apply Hi, list_elem_of_fmap. by exists (i, r').
Qed.

Lemma delete_scan_ok : Z.of_nat (length l) ≤ ROW_CACHE_LIMIT → deleted (delete_scan io t stmt).
Proof.
  intros Hlim. unfold delete_scan.
  assert (length (slots (c_slots (t_cache t))) = length l) as -> by (pose proof (table_length h _ l l Hc); unfold record_count in *; lia).
  destruct (old_records_ok h (length l) 0 (t_cache t) l l [] Hc Hlim) as (c1 & -> & Hc1 & Hmem); [by intros ? ? ?%not_elem_of_nil|lia|done|].
  cbn [mbind option_bind]. rewrite drop_0. cbn [app] in *.
  destruct (delete_flags_ok h (length l) 0 stmt c1 l l (rows_with 0 l) Hc1 Hlim) as (c2 & -> & Hc2 & Hmem2); [exact Hmem|lia|done|].
  cbn [mbind option_bind]. rewrite drop_0. fold hit_rows.
  destruct hit_rows as [|x rest] eqn:Ehit; [by apply deleted_none|]. rewrite <- Ehit.
  assert (hit_rows.*1 ≠ []) as Hne by by rewrite Ehit.
  destruct (remove_all_ok hit_rows [] (rows_with 0 l) c2 l) as (c3 & E3 & Hc3);
    [apply hit_rows_NoDup|apply rows_with_NoDup| |done|done|].
  { intros [i r] Hin. pose proof Hin as [Hr _]%hit_rows_in. split; [by apply rows_with_at|done]. }
  destruct (hit_rows.*1) as [|i0 idxs0] eqn:Eidx; [done|]. rewrite <- Eidx in *. rewrite E3. cbn [mbind option_bind negb].
  fold (set_inactive c3 hit_rows.*1).
  assert (mapM (fun i => r ← old_record (rows_with 0 l) i; Some (i, r)) hit_rows.*1 = Some hit_rows) as ->.
  { assert (∀ x, x ∈ hit_rows → old_record (rows_with 0 l) x.1 = Some x.2) as H.
    { intros [i r] [Hr _]%hit_rows_in. apply old_record_find; [apply rows_with_NoDup|by apply rows_with_at]. }
    clear -H. induction hit_rows as [|[i r] rows IH]; cbn; [done|]. pose proof (H (i, r) ltac:(by left)) as H1. cbn in H1. rewrite H1. cbn. rewrite IH; [done|].
    intros x Hx. apply H. by right. }
  cbn [mbind option_bind]. unfold append_delta_deletes.
  assert (c_hdr (set_inactive c3 hit_rows.*1) = h) as Hh4.
  { assert (∀ idxs c, c_hdr (set_inactive c idxs) = c_hdr c) as H by (induction idxs as [|i idxs IH]; intros c; [done|exact (IH (set_active c i false))]).
    rewrite H. by apply Hc3. }
  assert (map (fun p0 => DeltaDelete <$> get_row_index_key (set_inactive c3 hit_rows.*1) p0.2 p0.1) hit_rows =
    map Some (map (fun x => DeltaDelete (key_of x.2)) hit_rows)) as ->.
  { rewrite map_map. apply map_ext_in. intros [i r] Hin. rewrite (row_key h p Hpk) by done. cbn. unfold key_of.
    apply list_elem_of_In, hit_rows_in in Hin as [Hr _]. pose proof (tr_keys _ _ _ _ (ta_trees _ _ _ _ Hc) i r Hr) as Hk.
    by destruct (get_row_pk_value h r). }
  destruct (log_changes_ok io _ s (map (fun x => DeltaDelete (key_of x.2)) hit_rows) Hio Hlog) as (d & -> & Hd & Hch). cbn [negb].
  destruct (compact_not_due io (set_cache t (set_inactive c3 hit_rows.*1)) d _ Htr ltac:(by unfold no_check_due; rewrite Hch) Hd) as (d' & -> & Hd').
  cbn [mbind option_bind t_cache set_delta set_cache].
  destruct (clear_slots_ok h hit_rows.*1 c3 l (without_all l hit_rows.*1) hit_rows_NoDup) as (c7 & -> & Hc7); [|exact Hc3|].
  { intros i ([i' r] & -> & [Hr _]%hit_rows_in)%list_elem_of_fmap. cbn. by rewrite Hr. }
  cbn [mbind option_bind]. eexists. split; [rewrite length_fmap; by rewrite Ehit|]. rewrite Ehit in Hd', Hc7 |- *. split; [exact Hc7|]. split; [exact Htr|exact Hd'].
Qed.
End delete_rows.
