(* ===== verification/LegacyUpdateProofs.v ===== *)
(** UPDATE of the stand-alone executor: what becomes of the text of a row, of its keys,
    of the indexes and of the slots. *)

From Stdlib Require Import String.
From S2P Require Import Prelude CString BPTree BPTreeProofs BPTreeSpec BPTreeString BPTreeIndex Parser Values Table InsertProofs Store StoreProofs.
From S2P Require Import LegacyRow LegacyRowProofs LegacyCache LegacyCacheProofs LegacyIndex LegacyIndexProofs DeltaLog DeltaLogProofs LegacyTable LegacyTableProofs LegacyLoadProofs LegacyClaims LegacySelect LegacySelectProofs LegacyWrite LegacyWriteProofs.
From stdpp Require Import base numbers list sorting option.
Local Open Scope Z_scope.

(** ** Rows as the program writes them *)

Definition csv_row (vals : list cstr) : cstr := join_fields (map val_text vals).

(** The values of a row. *)
Definition row_vals (r : cstr) : list cstr := map trim_and_unquote (parse_csv_row r).

(** Values that a row can hold: no quote or line end, trimmed unless there is a comma. *)
Record vals_ok (h : Header) (vals : list cstr) : Prop := {
  vo_cols : length vals = col_count h;
  vo_vals : Forall (fun v => storable_val v = true ∧ (length v ≤ 253)%nat) vals;
  vo_row : (length (csv_row vals) < RECORD_SIZE - 1)%nat;
}.

#[global] Instance vals_ok_dec h vals : Decision (vals_ok h vals).
Proof.
  refine (cast_if_and3 (decide (length vals = col_count h)) (decide (Forall (fun v => storable_val v = true ∧ (length v ≤ 253)%nat) vals))
    (decide (length (csv_row vals) < RECORD_SIZE - 1)%nat)); [by split|by intros []..].
Defined.

Definition written_row (h : Header) (r : cstr) : Prop := r = csv_row (row_vals r) ∧ vals_ok h (row_vals r).

#[global] Instance written_row_dec h r : Decision (written_row h r).
Proof. unfold written_row. apply _. Defined.

(** The row with another value in column [k]. *)
Definition set_field (k : nat) (v r : cstr) : cstr := csv_row (<[k := v]> (row_vals r)).

Lemma join_fields_cons_cons f g fs : join_fields (f :: g :: fs) = f ++ COMMA :: join_fields (g :: fs).
Proof. done. Qed.

Section text.
Context (h : Header) (Hcols : (0 < col_count h < MAX_COLS)%nat).

Lemma vals_storable vals : vals_ok h vals → Forall (fun v => storable_val v = true) vals.
Proof. intros [_ H _]. eapply List.Forall_impl; [|exact H]. by intros v [? _]. Qed.

Lemma parse_csv_vals vals : vals_ok h vals → parse_csv_row (csv_row vals) = map val_text vals.
Proof using Hcols.
  intros Hv. pose proof Hv as [H1 H2 H3]. unfold parse_csv_row.
  pose proof (split_csv_join (map val_text vals) []) as H. rewrite app_nil_r, app_last_nil in H. apply H.
  - destruct vals; simpl in *; [lia|done].
  - apply Forall_map_list. exact (List.Forall_impl _ field_ok_val (vals_storable vals Hv)).
  - rewrite length_map. lia.
  - done.
  - fold (csv_row vals). lia.
Qed.

Lemma row_vals_csv vals : vals_ok h vals → row_vals (csv_row vals) = vals.
Proof using Hcols. intros Hv. unfold row_vals. rewrite parse_csv_vals by done. by apply map_trim_text, vals_storable. Qed.

Lemma csv_written vals : vals_ok h vals → written_row h (csv_row vals).
Proof using Hcols. intros Hv. unfold written_row. by rewrite row_vals_csv. Qed.

Lemma csv_line vals : vals_ok h vals → forallb line_char (csv_row vals) = true.
Proof.
  intros Hv. unfold csv_row. apply line_char_join, Forall_map_list. eapply List.Forall_impl; [|exact (vals_storable vals Hv)]. apply val_text_line.
Qed.

Lemma written_stored r : written_row h r → stored_row h r.
Proof using Hcols.
  intros [E Hv]. rewrite E. unfold stored_row. rewrite parse_csv_vals by done. pose proof Hv as [H1 H2 H3].
  split; [by apply csv_line|]. split; [lia|]. split; [by rewrite length_map|]. apply Forall_map_list.
  eapply List.Forall_impl; [|exact H2]. intros v [_ Hl]. pose proof (val_text_length v). simpl. lia.
Qed.

(** ** The field that is replaced *)

Lemma find_field_text f q rest m k :
  field_scan q f = Some false → forallb line_char f = true → (rest = [] ∨ ∃ rest', rest = COMMA :: rest') →
  find_field (f ++ rest) q m k =
    if (m =? k)%nat then Some ([], rest)
    else match rest with
         | [] => None
         | _ :: rest' => '(a, b) ← find_field rest' false (S m) k; Some (f ++ COMMA :: a, b)
         end.
Proof.
  intros Hf Hl Hr. revert q Hf Hl; induction f as [|c f IH]; intros q Hf Hl; cbn [field_scan] in Hf.
  - injection Hf as ->. destruct Hr as [->|[rest' ->]]; cbn [app find_field]; [by destruct (m =? k)%nat|].
    change (COMMA =? QUOTE) with false. cbv iota. cbn [negb andb orb]. rewrite Z.eqb_refl. cbn [andb orb]. destruct (m =? k)%nat; [done|].
    change ((COMMA =? CR) || (COMMA =? NL)) with false. cbv iota. by destruct (find_field rest' false (S m) k) as [[a b]|].
  - cbn [forallb] in Hl. apply andb_true_iff in Hl as [Hc Hl]. unfold line_char in Hc. apply andb_true_iff in Hc as [Hnl Hcr].
    apply negb_true_iff in Hnl, Hcr. cbn [app find_field]. set (q' := if c =? QUOTE then negb q else q) in *.
    destruct ((c =? COMMA) && negb q'); [done|]. rewrite Hcr, Hnl. cbn [orb]. rewrite (IH q') by done.
    destruct (m =? k)%nat; [done|]. destruct rest as [|x rest']; [done|]. by destruct (find_field rest' false (S m) k) as [[a b]|].
Qed.

Lemma find_field_join fs m k :
  Forall (fun f => field_ok f ∧ forallb line_char f = true) fs → (m ≤ k < m + length fs)%nat →
  ∃ a b, find_field (join_fields fs) false m k = Some (a, b) ∧ ∀ x, join_fields (<[(k - m)%nat := x]> fs) = a ++ x ++ b.
Proof.
  revert m; induction fs as [|f fs IH]; intros m Hfs Hk; [simpl in Hk; lia|]. apply Forall_cons_1 in Hfs as [[Hf Hl] Hfs].
  assert (∃ rest, join_fields (f :: fs) = f ++ rest ∧ rest = match fs with [] => [] | _ => COMMA :: join_fields fs end) as (rest & -> & Erest).
  { destruct fs as [|g fs]; [exists []; by rewrite app_nil_r|]. by eexists. }
  rewrite find_field_text; [|done|done|destruct fs; [by left|right; by eexists]].
  destruct (Nat.eqb_spec m k) as [->|Hne].
  - exists [], rest. split; [done|]. intros x. rewrite Nat.sub_diag. cbn [list_insert insert app]. subst rest. destruct fs; [by rewrite app_nil_r|done].
  - destruct fs as [|g fs]; [simpl in Hk; lia|]. subst rest. destruct (IH (S m) Hfs) as (a & b & -> & Hab); [simpl in *; lia|]. cbn [mbind option_bind].
    eexists _, b. split; [reflexivity|]. intros x. replace (k - m)%nat with (S (k - S m)) by lia. cbn [insert list_insert].
    specialize (Hab x). destruct (<[(k - S m)%nat:=x]> (g :: fs)) as [|g' fs'] eqn:Ei.
    { apply (f_equal length) in Ei. by rewrite length_insert in Ei. }
    rewrite join_fields_cons_cons, Hab, <- app_assoc. done.
Qed.

(** The row of an UPDATE by a key. *)
Lemma build_updated_ok r k v :
  written_row h r → (k < col_count h)%nat → vals_ok h (<[k := v]> (row_vals r)) → build_updated_row h r k v RECORD_SIZE = Some (set_field k v r).
Proof using Hcols.
  intros [E Hv] Hk Hv'. unfold build_updated_row. rewrite (proj2 (Nat.leb_gt _ _)) by done. rewrite E at 1. unfold csv_row.
  pose proof Hv as [H1 H2 H3].
  destruct (find_field_join (map val_text (row_vals r)) 0 k) as (a & b & -> & Hab).
  - apply Forall_map_list. eapply List.Forall_impl; [|exact (vals_storable _ Hv)]. intros w Hw. split; [by apply field_ok_val|by apply val_text_line].
  - rewrite length_map. lia.
  - cbn [mbind option_bind]. pose proof Hv' as [_ H2' H3'].
    assert (storable_val v = true ∧ (length v ≤ 253)%nat) as [Hst Hlen].
    { apply (Forall_lookup_1 _ _ k v H2'). rewrite list_lookup_insert_eq by lia. done. }
    rewrite format_val_text by (unfold RECORD_SIZE; lia).
    assert (a ++ val_text v ++ b = set_field k v r) as Ea.
    { rewrite <- Hab. rewrite Nat.sub_0_r. unfold set_field, csv_row. f_equal.
      change (map val_text) with (fmap (M:=list) val_text). by rewrite list_fmap_insert. }
    rewrite Ea. unfold set_field in *. by rewrite (proj2 (Nat.ltb_lt _ _)) by lia.
Qed.

(** The row of an UPDATE that goes over all rows is put together anew from its fields. *)
Lemma rebuild_row_ok fields k v j m row :
  (j + m = length fields)%nat → length fields = col_count h →
  (length (row ++ join_fields (map format_field (drop j (<[k := v]> fields)))) < RECORD_SIZE)%nat →
  rebuild_row fields k v (col_count h) j m row = Some (row ++ join_fields (map format_field (drop j (<[k := v]> fields)))).
Proof.
  intros Hm Hn. revert j row Hm; induction m as [|m IH]; intros j row Hm Hlen; cbn [rebuild_row].
  - rewrite drop_ge by (rewrite length_insert; lia). by rewrite app_nil_r.
  - destruct (lookup_lt_is_Some_2 (<[k := v]> fields) j) as [x Hx]; [rewrite length_insert; lia|].
    assert ((if (j =? k)%nat then v else field_at fields j) = x) as ->.
    { destruct (Nat.eqb_spec j k) as [->|Hne].
      - rewrite list_lookup_insert_eq in Hx by lia. by injection Hx.
      - rewrite list_lookup_insert_ne in Hx by done. unfold field_at. by rewrite Hx. }
    rewrite (drop_S _ x j Hx) in *. cbn [map] in *. unfold append_csv_field.
    destruct (Nat.eqb_spec j (col_count h - 1)) as [Hl|Hl].
    + assert (m = 0%nat) as -> by lia. rewrite (drop_ge _ (S j)) in * by (rewrite length_insert; lia). cbn [map join_fields] in *.
      rewrite app_nil_r in *. rewrite (proj2 (Nat.ltb_lt _ _)) by done. done.
    + destruct (drop (S j) (<[k:=v]> fields)) as [|y rest] eqn:Ed.
      { apply (f_equal length) in Ed. rewrite length_drop, length_insert in Ed. simpl in Ed. lia. }
      rewrite <- Ed in *. assert (join_fields (format_field x :: map format_field (drop (S j) (<[k:=v]> fields))) =
        format_field x ++ [COMMA] ++ join_fields (map format_field (drop (S j) (<[k:=v]> fields)))) as Ej by (by rewrite Ed).
      rewrite Ej in *. rewrite !app_assoc in *. rewrite <- (app_assoc row) in *.
      assert (length (row ++ format_field x ++ [COMMA]) < RECORD_SIZE)%nat as Hl1 by (rewrite length_app in Hlen; lia).
      rewrite (proj2 (Nat.ltb_lt _ _) Hl1). cbn [mbind option_bind]. apply IH; [lia|done].
Qed.

(** Without a comma in the row this is the same row; with one, the quotes would be
    quoted again. *)
Lemma rebuilt_row_ok r k v :
  written_row h r → (k < col_count h)%nat → vals_ok h (<[k := v]> (row_vals r)) →
  Forall (fun w => strchr w COMMA = None) (row_vals r) → rebuilt_row h r k v = Some (set_field k v r).
Proof using Hcols.
  intros [E Hv] Hk Hv' Hplain. unfold rebuilt_row. pose proof Hv as [H1 H2 H3]. pose proof Hv' as [H1' H2' H3'].
  assert (parse_csv_row r = row_vals r) as Ep.
  { rewrite E, parse_csv_vals by done. rewrite row_vals_csv by done. rewrite <- (map_id (row_vals r)) at 2. apply map_ext_in. intros w Hw.
    rewrite List.Forall_forall in Hplain. unfold val_text. by rewrite (Hplain w Hw). }
  assert (map format_field (<[k := v]> (row_vals r)) = map val_text (<[k := v]> (row_vals r))) as Ef.
  { apply map_ext_in. intros w Hw. rewrite List.Forall_forall in H2'. destruct (H2' w Hw). apply format_val_text. unfold RECORD_SIZE. lia. }
  rewrite Ep, rebuild_row_ok; [|lia|lia|]; rewrite drop_0, Ef; cbn [app]; [done|]. fold (csv_row (<[k := v]> (row_vals r))). lia.
Qed.

(** ** The keys of the row *)

Lemma parse_set_field r k v :
  written_row h r → vals_ok h (<[k := v]> (row_vals r)) → parse_csv_row (set_field k v r) = <[k := val_text v]> (parse_csv_row r).
Proof using Hcols.
  intros [E Hv] Hv'. unfold set_field. rewrite parse_csv_vals by done. rewrite E at 2. rewrite parse_csv_vals by done.
  change (map val_text) with (fmap (M:=list) val_text). by rewrite list_fmap_insert.
Qed.

Lemma field_set_other r k v col :
  written_row h r → vals_ok h (<[k := v]> (row_vals r)) → col ≠ k → field_at (parse_csv_row (set_field k v r)) col = field_at (parse_csv_row r) col.
Proof using Hcols. intros Hr Hv' Hne. unfold field_at. rewrite parse_set_field by done. by rewrite list_lookup_insert_ne. Qed.

Lemma pk_set_other r k v p :
  h_pk h = Some p → p ≠ k → written_row h r → vals_ok h (<[k := v]> (row_vals r)) → get_row_pk_value h (set_field k v r) = get_row_pk_value h r.
Proof using Hcols.
  intros Hpk Hne Hr Hv'. unfold get_row_pk_value. by rewrite Hpk, field_set_other.
Qed.

Lemma uk_set_other r k v col :
  written_row h r → vals_ok h (<[k := v]> (row_vals r)) → col ≠ k → uk_text col (set_field k v r) = uk_text col r.
Proof using Hcols. intros Hr Hv' Hne. unfold uk_text. by rewrite field_set_other. Qed.

Lemma uk_set_same r k v :
  written_row h r → vals_ok h (<[k := v]> (row_vals r)) → (k < col_count h)%nat → uk_text k (set_field k v r) = v.
Proof using Hcols.
  intros Hr Hv' Hk. pose proof Hr as [E Hv]. pose proof Hv as [H1 _ _]. pose proof Hv' as [_ H2' _].
  assert (storable_val v = true ∧ (length v ≤ 253)%nat) as [Hst Hlen].
  { apply (Forall_lookup_1 _ _ k v H2'). rewrite list_lookup_insert_eq by lia. done. }
  unfold uk_text, field_at. rewrite parse_set_field by done. rewrite list_lookup_insert_eq.
  2: { rewrite E, parse_csv_vals by done. rewrite length_map. lia. }
  simpl. pose proof (val_text_length v). unfold normalize_value, trim_and_unquote, strcpy_sz. rewrite take_ge by (unfold RECORD_SIZE; lia). by apply trim_val_text.
Qed.
End text.

(** ** Rows and trees apart *)

Section store.
Context (h : Header) (p : nat) (Hpk : h_pk h = Some p).

Definition store_at (c : Cache) (l : list (option cstr)) : Prop :=
  c_hdr c = h ∧ ∃ f, c_file c = Some f ∧ store_ok (mkRowStore f (c_pages c) (c_slots c)) ∧ texts f (c_slots c) = l.

Lemma table_at_store c l l' : table_at h c l l' ↔ store_at c l ∧ trees_of h l' (c_id c) (c_uks c).
Proof. split; [by intros [H1 H2 H3]|intros [[H1 H2] H3]; by split]. Qed.

Lemma cache_row_store c l i :
  store_at c l → ∃ c', cache_row c i = Some (at_slot l i, c') ∧ store_at c' l ∧ c_id c' = c_id c ∧ c_uks c' = c_uks c.
Proof.
  intros [H1 (f & H2 & [Hs Hp He] & H3)]. unfold cache_row. rewrite H2.
  destruct (slot_row_ok f (c_pages c) (c_slots c) i Hs Hp He) as (pc & s & -> & Hs' & Hp' & Ht & Hf & Hl).
  rewrite row_of_at_slot. cbn [mbind option_bind]. cbn [rs_file rs_pages rs_slots] in *. rewrite H3 in *.
  eexists. split; [reflexivity|]. split; [|done]. split; [done|]. exists f. split; [done|]. by split.
Qed.

Lemma store_active c l i : store_at c l → slot_is_active (c_slots c) i = match at_slot l i with Some _ => true | None => false end.
Proof.
  intros [_ (f & _ & [Hs _ _] & <-)]. rewrite <- row_of_at_slot. unfold row_of.
  destruct (slot_is_active (c_slots c) i) eqn:E; [|done]. apply slot_is_active_spec in E as [_ Ha].
  unfold slot_text. rewrite Ha. by destruct (s_row _).
Qed.

Lemma put_row_store c l i r new :
  store_at c l → at_slot l i = Some r → store_at (put_row c i new) (<[Z.to_nat i := Some new]> l).
Proof.
  intros [Hh (f & Hf & [Hs Hp He] & Ht)] Hr. cbn [rs_file rs_pages rs_slots] in *.
  pose proof (replace_ok f (c_slots c) i new Hs) as Hrep. unfold put_row. destruct (replace_record_at (c_slots c) i new) as [ok s].
  destruct Hrep as [Hs' Hsp]. cbn [spec_op] in Hsp. rewrite spec_row_at_slot, Ht, Hr in Hsp. injection Hsp as _ Ht' _. simpl in Ht'.
  split; [done|]. exists f. split; [done|]. split; [by split|]. simpl. by rewrite <- Ht'.
Qed.

(** Trees only know the keys. *)
Lemma trees_of_ext l l' t ts :
  (∀ j r', at_slot l' j = Some r' → at_slot l j ≠ None) → (∀ j, id_key h l' j = id_key h l j) →
  (∀ col j, col ∈ h_uks h → uk_key col l' j = uk_key col l j) → trees_of h l t ts → trees_of h l' t ts.
Proof.
  intros Hact Hid Huk [H1 H2 H3 H4]. split; [eapply index_of_ext; [|exact H1]; done| |done|].
  - intros i r Hr Hk. pose proof (Hact i r Hr) as Ha. destruct (at_slot l i) as [r0|] eqn:E; [|done]. apply (H2 i r0 E).
    specialize (Hid i). unfold id_key in Hid. rewrite Hr, E in Hid. cbn in Hid. congruence.
  - intros n col Hn. destruct (H4 n col Hn) as (u & Hu & Hi). exists u. split; [done|].
    eapply index_of_ext; [|exact Hi]. intros j. symmetry. apply Huk. by eapply list_elem_of_lookup_2.
Qed.

(** ** One unique column *)

Section column.
Context (k n : nat) (Hn : h_uks h !! n = Some k) (Huks : NoDup (h_uks h)).

(** The trees of [l], but for that of column [k], which is the one of [lk]. *)
Record trees_mid (l lk : list (option cstr)) (t : tree Z) (ts : list (option (tree cstr))) : Prop := {
  tm_id : index_of t (id_key h l);
  tm_keys : ∀ i r, at_slot l i = Some r → get_row_pk_value h r ≠ None;
  tm_length : length ts = length (h_uks h);
  tm_uks : ∀ m col, h_uks h !! m = Some col → ∃ u, ts !! m = Some (Some u) ∧ index_of u (uk_key col (if decide (col = k) then lk else l));
}.

Lemma trees_mid_of l t ts : trees_of h l t ts → trees_mid l l t ts.
Proof. intros [H1 H2 H3 H4]. split; [done..|]. intros m col Hm. destruct (H4 m col Hm) as (u & Hu & Hi). exists u. by destruct (decide (col = k)). Qed.

Lemma trees_mid_to l l' t ts :
  (∀ j r', at_slot l' j = Some r' → at_slot l j ≠ None) → (∀ j, id_key h l' j = id_key h l j) →
  (∀ col j, col ∈ h_uks h → col ≠ k → uk_key col l' j = uk_key col l j) → trees_mid l l' t ts → trees_of h l' t ts.
Proof.
  intros Hact Hid Huk [H1 H2 H3 H4]. split; [eapply index_of_ext; [|exact H1]; done| |done|].
  - intros i r Hr Hk. pose proof (Hact i r Hr) as Ha. destruct (at_slot l i) as [r0|] eqn:E; [|done]. apply (H2 i r0 E).
    specialize (Hid i). unfold id_key in Hid. rewrite Hr, E in Hid. cbn in Hid. congruence.
  - intros m col Hm. destruct (H4 m col Hm) as (u & Hu & Hi). exists u. split; [done|]. destruct (decide (col = k)); [done|].
    eapply index_of_ext; [|exact Hi]. intros j. symmetry. apply Huk; [by eapply list_elem_of_lookup_2|done].
Qed.

Lemma trees_mid_put l lk lk' t ts u :
  trees_mid l lk t ts → index_of u (uk_key k lk') → trees_mid l lk' t (<[n := Some u]> ts).
Proof using Hn Huks.
  intros [H1 H2 H3 H4] Hu. split; [done|done|by rewrite length_insert|]. intros m col Hm. destruct (decide (m = n)) as [->|Hne].
  - rewrite Hn in Hm. injection Hm as <-. exists u. rewrite list_lookup_insert_eq by (rewrite H3; by eapply lookup_lt_Some).
    split; [done|]. by rewrite decide_True.
  - destruct (H4 m col Hm) as (u' & Hu' & Hi). exists u'. rewrite list_lookup_insert_ne by done. split; [done|].
    destruct (decide (col = k)) as [->|]; [|done]. destruct Hne. exact (NoDup_lookup _ _ _ _ Huks Hm Hn).
Qed.

Lemma remove_single_ok c l i r :
  c_hdr c = h → trees_mid l l (c_id c) (c_uks c) → at_slot l i = Some r →
  ∃ ts, remove_record_single_uk c r k = Some (true, set_uks c ts) ∧ trees_mid l (without l i) (c_id c) ts.
Proof using Hn Huks.
  intros Hh Hm Hr. unfold remove_record_single_uk. rewrite Hh, (get_uk_slot_at h Huks n k Hn). fold (uk_text k r).
  pose proof (at_slot_bound l i r Hr) as Hi. destruct (tm_uks _ _ _ _ Hm n k Hn) as (u & Hu & Hiu). rewrite decide_True in Hiu by done.
  destruct (uk_text k r) as [|b key] eqn:Ek.
  - exists (c_uks c). split; [by destruct c|].
    assert (c_uks c = <[n := Some u]> (c_uks c)) as -> by (symmetry; by apply list_insert_id).
    apply (trees_mid_put l l); [done|]. eapply index_of_ext; [|exact Hiu]. intros j. rewrite uk_key_without by done.
    destruct (decide (j = i)) as [->|]; [|done]. unfold uk_key. rewrite Hr. cbn. by rewrite Ek.
  - unfold uk_tree_at. rewrite Hu. cbn [mjoin option_join mbind option_bind].
    destruct (index_delete u (uk_key k l) (b :: key) i Hiu) as [Hrc Hiu'].
    { done. } { unfold uk_key. rewrite Hr. simpl. by rewrite Ek. }
    destruct (ix_delete u (b :: key)) as [rc u'] eqn:Ed. cbn [fst snd] in *. subst rc. cbn [negb Z.eqb].
    exists (<[n := Some u']> (c_uks c)). split; [done|]. apply (trees_mid_put l l); [done|].
    eapply index_of_ext; [|exact Hiu']. intros j. simpl. by rewrite uk_key_without.
Qed.

Lemma index_single_ok c l l2 i new :
  store_at c l2 → trees_mid l (without l i) (c_id c) (c_uks c) → at_slot l2 i = Some new → 0 ≤ i < Z.of_nat (length l) →
  (∀ j, j ≠ i → uk_key k l2 j = uk_key k l j) → (∀ j, j ≠ i → uk_key k l j ≠ Some (uk_text k new)) →
  ∃ c', index_record_single_uk c i k = Some (1, c') ∧ store_at c' l2 ∧ trees_mid l l2 (c_id c') (c_uks c').
Proof using Hn Huks.
  intros Hst Hm Hnew Hi Hother Hfree. unfold index_record_single_uk. rewrite (proj1 Hst), (get_uk_slot_at h Huks n k Hn).
  destruct (cache_row_store c l2 i Hst) as (c1 & -> & Hst1 & E1 & E2). rewrite Hnew. cbn [mbind option_bind]. fold (uk_text k new).
  rewrite <- E1, <- E2 in Hm. destruct (tm_uks _ _ _ _ Hm n k Hn) as (u & Hu & Hiu). rewrite decide_True in Hiu by done.
  unfold unique_index_insert. destruct (uk_text k new) as [|b key] eqn:Ek.
  - exists c1. split; [done|]. split; [done|].
    assert (c_uks c1 = <[n := Some u]> (c_uks c1)) as -> by (symmetry; by apply list_insert_id).
    apply (trees_mid_put l (without l i)); [done|]. eapply index_of_ext; [|exact Hiu]. intros j. rewrite uk_key_without by done.
    destruct (decide (j = i)) as [->|Hne]; [|by rewrite Hother]. unfold uk_key. rewrite Hnew. cbn. by rewrite Ek.
  - unfold uk_tree_at. rewrite Hu. cbn [mjoin option_join mbind option_bind].
    assert (∀ j, uk_key k (without l i) j ≠ Some (b :: key)) as Hno.
    { intros j. rewrite uk_key_without by done. destruct (decide (j = i)); [done|by apply Hfree]. }
    rewrite (index_search_None u _ _ Hiu Hno). unfold uk_insert, uk_tree_at. rewrite Hu. cbn [mjoin option_join mbind option_bind].
    destruct (index_insert u _ (b :: key) i Hiu) as (u' & -> & Hiu').
    { done. } { rewrite uk_key_without by done. by rewrite decide_True. } { exact Hno. }
    cbn [mbind option_bind]. eexists. split; [reflexivity|]. split; [done|]. cbn. apply (trees_mid_put l (without l i)); [done|].
    eapply index_of_ext; [|exact Hiu']. intros j. simpl. rewrite uk_key_without by done.
    destruct (decide (j = i)) as [->|Hne]; [|by rewrite Hother]. unfold uk_key. rewrite Hnew. cbn. by rewrite Ek.
Qed.
End column.
End store.

(** ** UPDATE *)

(** The rows with the values of some slots replaced. *)
Definition put_all (k : nat) (v : cstr) (l : list (option cstr)) (rows : list (Z * cstr)) : list (option cstr) :=
  foldl (fun l x => <[Z.to_nat x.1 := Some (set_field k v x.2)]> l) l rows.

Lemma at_slot_put l i x j : 0 ≤ i → at_slot l i ≠ None → at_slot (<[Z.to_nat i := x]> l) j = if decide (j = i) then x else at_slot l j.
Proof. intros Hi Ha. destruct (at_slot l i) as [r|] eqn:E; [|done]. apply at_slot_insert. by apply at_slot_bound in E. Qed.

(** Slot [j] after [rows] were changed. *)
Lemma put_all_at k v rows l j :
  NoDup rows.*1 → (∀ x, x ∈ rows → at_slot l x.1 = Some x.2) →
  at_slot (put_all k v l rows) j =
    match List.find (fun x => x.1 =? j) rows with Some x => Some (set_field k v x.2) | None => at_slot l j end.
Proof.
  revert l; induction rows as [|[i r] rows IH]; intros l Hnd Hall; [done|]. cbn in Hnd. apply list.NoDup_cons in Hnd as [Hi Hnd].
  pose proof (Hall (i, r) ltac:(by left)) as Hr. cbn in Hr. pose proof (at_slot_bound _ _ _ Hr) as Hb.
  assert (∀ j, at_slot (<[Z.to_nat i := Some (set_field k v r)]> l) j = if decide (j = i) then Some (set_field k v r) else at_slot l j) as Hput
    by (intros j'; by rewrite at_slot_insert).
  cbn [put_all foldl fst snd]. change (foldl _ ?a rows) with (put_all k v a rows). rewrite IH; [|done|].
  - cbn [List.find fst]. destruct (Z.eqb_spec i j) as [->|Hne].
    + destruct (List.find _ rows) as [[i' r']|] eqn:Ef.
      * apply find_some in Ef as [Hin Ei]. cbn in Ei. apply Z.eqb_eq in Ei as ->. destruct Hi. apply list_elem_of_fmap. exists (j, r'). split; [done|by apply list_elem_of_In].
      * rewrite Hput. by rewrite decide_True.
    + destruct (List.find _ rows); [done|]. rewrite Hput. rewrite decide_False by congruence. done.
  - intros [i' r'] Hin. cbn. rewrite Hput. rewrite decide_False; [by apply (Hall (i', r')); right|]. intros ->.
    apply Hi, list_elem_of_fmap. by exists (i, r').
Qed.

Section update.
Context (h : Header) (p : nat) (Hh : header_ok h) (Hpk : h_pk h = Some p) (Hcols : (0 < col_count h < MAX_COLS)%nat).
Context (io : nat → bool) (Hio : ∀ n, io n = true) (stmt : Statement) (t : Table) (l : list (option cstr)) (s : LogSpec).
Context (Hc : table_ok h (t_cache t) l) (Hrows : Forall (written_row h) (omap id l)).
Context (Htr : cache_truncated t = false) (Hdue : no_check_due (t_delta t)) (Hlog : log_rep (t_delta t) s).
Context (k : nat) (v : cstr) (Hk : (k < col_count h)%nat) (Hkp : p ≠ k).

Lemma slot_written i r : at_slot l i = Some r → written_row h r.
Proof using Hrows. intros Hi. rewrite Forall_forall in Hrows. apply Hrows, list_elem_of_In, table_rows_in. by exists i. Qed.

Lemma update_stored : Forall (stored_row h) (omap id l).
Proof using Hrows Hcols. eapply List.Forall_impl; [|exact Hrows]. intros r. by apply written_stored. Qed.

(** Rows to be changed, whose new text fits. *)
Definition to_change (rows : list (Z * cstr)) : Prop :=
  NoDup rows.*1 ∧ ∀ i r, (i, r) ∈ rows → at_slot l i = Some r ∧ vals_ok h (<[k := v]> (row_vals r)).

Section rows.
Context (rows : list (Z * cstr)) (Hch : to_change rows).

Lemma change_at j :
  at_slot (put_all k v l rows) j = match List.find (fun x => x.1 =? j) rows with Some x => Some (set_field k v x.2) | None => at_slot l j end.
Proof using Hch. destruct Hch as [Hnd Hall]. apply put_all_at; [done|]. intros [i r] Hin. by apply Hall. Qed.

Lemma changed_cases j r' :
  at_slot (put_all k v l rows) j = Some r' →
  ∃ r, at_slot l j = Some r ∧ (r' = r ∨ (j, r) ∈ rows ∧ r' = set_field k v r ∧ written_row h r ∧ vals_ok h (<[k := v]> (row_vals r))).
Proof using Hch Hrows.
  rewrite change_at. destruct (List.find _ rows) as [[i r]|] eqn:Ef.
  - apply find_some in Ef as [Hin Ei]. cbn in Ei. apply Z.eqb_eq in Ei as ->. apply list_elem_of_In in Hin.
    destruct (proj2 Hch j r Hin) as [Hr Hv]. intros [= <-]. exists r. split; [done|right]. split; [done|]. split; [done|]. split; [by eapply slot_written|done].
  - intros Hr. exists r'. split; [done|by left].
Qed.

Lemma changed_active j : at_slot (put_all k v l rows) j = None ↔ at_slot l j = None.
Proof using Hch.
  rewrite change_at. destruct (List.find _ rows) as [[i r]|] eqn:Ef; [|done]. apply find_some in Ef as [Hin Ei]. cbn in Ei.
  apply Z.eqb_eq in Ei as ->. apply list_elem_of_In in Hin. destruct (proj2 Hch j r Hin) as [Hr _]. by rewrite Hr.
Qed.

Lemma changed_id j : id_key h (put_all k v l rows) j = id_key h l j.
Proof using Hch Hcols Hpk Hkp Hrows.
  unfold id_key. destruct (at_slot (put_all k v l rows) j) as [r'|] eqn:E; [|by rewrite (proj1 (changed_active j) E)].
  destruct (changed_cases j r' E) as (r & Hr & [->|(_ & -> & Hw & Hv)]); rewrite Hr; [done|]. cbn. by apply (pk_set_other h Hcols r k v p).
Qed.

Lemma changed_uk col j : col ≠ k → uk_key col (put_all k v l rows) j = uk_key col l j.
Proof using Hch Hcols Hrows.
  intros Hne. unfold uk_key. destruct (at_slot (put_all k v l rows) j) as [r'|] eqn:E; [|by rewrite (proj1 (changed_active j) E)].
  destruct (changed_cases j r' E) as (r & Hr & [->|(_ & -> & Hw & Hv)]); rewrite Hr; [done|]. cbn. by rewrite (uk_set_other h Hcols).
Qed.

(** What is logged for a row. *)
Definition upd_op (x : Z * cstr) : DeltaOp := DeltaUpdate (key_of h x.2) (set_field k v x.2).

Lemma row_key_of i r : at_slot l i = Some r → get_row_pk_value h r = Some (key_of h r).
Proof using Hc. intros Hr. pose proof (tr_keys _ _ _ _ (ta_trees _ _ _ _ Hc) i r Hr) as H. unfold key_of. by destruct (get_row_pk_value h r). Qed.

Lemma changed_row_key i r : (i, r) ∈ rows → get_row_pk_value h (set_field k v r) = Some (key_of h r).
Proof using Hch Hcols Hpk Hkp Hrows Hc.
  intros Hin. destruct (proj2 Hch i r Hin) as [Hr Hv]. rewrite (pk_set_other h Hcols r k v p Hpk Hkp (slot_written i r Hr) Hv). by apply row_key_of with i.
Qed.

(** The table after its rows were changed and its trees brought up to date. *)
Lemma finish_update c d :
  store_at h c (put_all k v l rows) → trees_of h (put_all k v l rows) (c_id c) (c_uks c) → log_rep d (log_add s (map upd_op rows)) →
  delta_ops_since_compact_check d = delta_ops_since_compact_check (t_delta t) →
  ∃ t', maybe_compact_delta_log io (set_delta (set_cache t c) d) = Some (true, t') ∧
    table_ok h (t_cache t') (put_all k v l rows) ∧ cache_truncated t' = false ∧ log_rep (t_delta t') (log_add s (map upd_op rows)).
Proof using Htr Hdue.
  intros Hst Htrees Hd Hchk.
  destruct (compact_not_due io (set_cache t c) d _ Htr ltac:(by unfold no_check_due; rewrite Hchk) Hd) as (d' & -> & Hd').
  eexists. split; [reflexivity|]. split; [by apply table_at_store|done].
Qed.
End rows.

(** ** The unique column *)

(** The value is in a slot that is not one of [own]. *)
Definition taken (own : Z → bool) : bool :=
  match v with [] => false | _ => existsb (fun x => streq (uk_text k x.2) v && negb (own x.1)) (rows_with 0 l) end.

Lemma taken_ext own own' : (∀ j, own j = own' j) → taken own = taken own'.
Proof. intros E. unfold taken. destruct v; [done|]. induction (rows_with 0 l) as [|x rows IH]; cbn; [done|]. by rewrite E, IH. Qed.

Lemma uk_conflict_ok c n own : table_ok h c l → h_uks h !! n = Some k → uk_conflict c n v own = Some (taken own).
Proof.
  intros Hc' Hn. unfold uk_conflict, taken. destruct (tr_uks _ _ _ _ (ta_trees _ _ _ _ Hc') n k Hn) as (u & Hu & Hiu).
  unfold uk_tree_at. rewrite Hu. cbn [mjoin option_join mbind option_bind]. f_equal. destruct v as [|b v'] eqn:Ev; [done|].
  rewrite <- Ev in *. assert (v ≠ []) as Hne by by rewrite Ev. unfold unique_index_find. rewrite Ev at 1.
  assert (∀ j r, at_slot l j = Some r → streq (uk_text k r) v = true → ix_search u v = Some j) as Hsearch.
  { intros j r Hj E%streq_true. apply (index_search u _ _ _ Hiu). unfold uk_key. rewrite Hj. cbn. rewrite E. by destruct v. }
  destruct (ix_search u v) as [i|] eqn:Es; cbn [mbind option_bind].
  - pose proof Es as Es0. apply (index_search u _ _ _ Hiu) in Es. unfold uk_key in Es. rewrite (slot_active_at h c l l i Hc').
    destruct (at_slot l i) as [r|] eqn:Er; [|done]. cbn in Es.
    assert (uk_text k r = v) as Et by (destruct (uk_text k r); [done|by injection Es]).
    destruct (own i) eqn:Eo; cbn [negb].
    + symmetry. apply Bool.not_true_iff_false. intros ([j r'] & Hin & [E1 E2]%andb_true_iff)%existsb_exists. cbn in *.
      apply list_elem_of_In, rows_with_at in Hin. pose proof (Hsearch j r' Hin E1) as E. injection E as <-. by rewrite Eo in E2.
    + symmetry. apply existsb_exists. exists (i, r). split; [by apply list_elem_of_In, rows_with_at|]. cbn. rewrite Eo, Et. by rewrite (proj2 (streq_true v v)).
  - symmetry. apply Bool.not_true_iff_false. intros ([j r'] & Hin & [E1 E2]%andb_true_iff)%existsb_exists. cbn in *.
    apply list_elem_of_In, rows_with_at in Hin. by pose proof (Hsearch j r' Hin E1).
Qed.

Lemma not_taken_free own i : taken own = false → (∀ j, own j = true → j = i) → ∀ j, j ≠ i → uk_key k l j ≠ Some v.
Proof.
  intros Hf Hown j Hne Hj. unfold uk_key in Hj. destruct (at_slot l j) as [r|] eqn:Er; [|done]. cbn in Hj.
  assert (uk_text k r = v ∧ v ≠ []) as [Et Hv] by (destruct (uk_text k r); [done|by injection Hj as <-]).
  unfold taken in Hf. destruct v as [|b v'] eqn:Ev; [done|]. rewrite <- Ev in *. apply Bool.not_true_iff_false in Hf. apply Hf.
  apply existsb_exists. exists (j, r). split; [by apply list_elem_of_In, rows_with_at|]. cbn. rewrite Et, (proj2 (streq_true v v)) by done. cbn.
  destruct (own j) eqn:Eo; [|done]. by apply Hown in Eo.
Qed.

(** The trees follow the change of one row, whether its slot changes before its old
    value is taken out or after. *)
Lemma change_one c i r n :
  let l2 := put_all k v l [(i, r)] in
  c_hdr c = h → trees_of h l (c_id c) (c_uks c) → to_change [(i, r)] → h_uks h !! n = Some k → (∀ j, j ≠ i → uk_key k l j ≠ Some v) →
  ∃ ts, remove_record_single_uk c r k = Some (true, set_uks c ts) ∧
    ∀ c3, store_at h c3 l2 → c_id c3 = c_id c → c_uks c3 = ts →
      ∃ c4, index_record_single_uk c3 i k = Some (1, c4) ∧ store_at h c4 l2 ∧ trees_of h l2 (c_id c4) (c_uks c4).
Proof using Hh Hcols Hpk Hkp Hrows Hk.
  cbv zeta. intros Hhc Htrees Hch Hn Hfree. destruct (proj2 Hch i r ltac:(by left)) as [Hr Hv].
  pose proof (header_uks_NoDup h Hh) as Hnd.
  destruct (remove_single_ok h k n Hn Hnd c l i r Hhc (trees_mid_of h k l _ _ Htrees) Hr) as (ts & -> & Hmid).
  exists ts. split; [done|]. intros c3 Hst3 E1 E2. pose proof (at_slot_bound l i r Hr) as Hb. rewrite <- E1, <- E2 in Hmid.
  assert (at_slot (put_all k v l [(i, r)]) i = Some (set_field k v r)) as Hnew by (rewrite (change_at _ Hch); cbn; by rewrite Z.eqb_refl).
  assert (uk_text k (set_field k v r) = v) as Et by (apply (uk_set_same h Hcols); [by eapply slot_written|done|done]).
  destruct (index_single_ok h k n Hn Hnd c3 l (put_all k v l [(i, r)]) i (set_field k v r) Hst3 Hmid Hnew Hb) as (c4 & -> & Hst4 & Hmid4).
  - intros j Hne. unfold uk_key. rewrite (change_at _ Hch). cbn. by rewrite (proj2 (Z.eqb_neq i j)) by congruence.
  - rewrite Et. exact Hfree.
  - exists c4. split; [done|]. split; [done|]. apply (trees_mid_to h k l); [| |intros col j _; by apply changed_uk|done].
    + intros j r' Hj E. apply (changed_active _ Hch) in E. congruence.
    + intros j. by apply changed_id.
Qed.

(** A column that is not unique is in no tree. *)
Lemma change_plain rows c : is_uk h k = false → to_change rows → trees_of h l (c_id c) (c_uks c) → trees_of h (put_all k v l rows) (c_id c) (c_uks c).
Proof using Hh Hcols Hpk Hkp Hrows.
  intros Hu Hch Htrees. apply (trees_of_ext h l); [| | |done].
  - intros j r' Hj E. apply (changed_active _ Hch) in E. congruence.
  - intros j. by apply changed_id.
  - intros col j Hcol. apply changed_uk; [done|]. intros ->. destruct (header_uk_column h k Hh Hcol) as (ci & Hci & Ht).
    unfold is_uk in Hu. rewrite Hci in Hu. by rewrite bool_decide_eq_true_2 in Hu.
Qed.

(** ** The statement *)

Context (Hvals : Forall (fun c => (length (wc_val c) < 256)%nat) (where_conditions stmt)).
Context (Hfit : ∀ i r, (i, r) ∈ hit_rows h stmt l → vals_ok h (<[k := v]> (row_vals r))).
Context (Huk : is_uk h k = true → get_uk_slot h k ≠ None).

Let rows : list (Z * cstr) := hit_rows h stmt l.

(** Two rows would share a unique value. *)
Definition refused : bool := is_uk h k && ((1 <? length rows)%nat || taken (fun j => existsb (Z.eqb j) rows.*1)).

(** What UPDATE promises of its result. *)
Definition updated (res : option (WriteResult * Table)) : Prop :=
  match rows with
  | [] => ∃ t', res = Some (WNone, t') ∧ table_ok h (t_cache t') l ∧ cache_truncated t' = false ∧ log_rep (t_delta t') s
  | _ =>
      if refused then ∃ t', res = Some (WRefused, t') ∧ table_ok h (t_cache t') l ∧ cache_truncated t' = false ∧ log_rep (t_delta t') s
      else ∃ t', res = Some (WDone (Z.of_nat (length rows)), t') ∧ table_ok h (t_cache t') (put_all k v l rows) ∧
        cache_truncated t' = false ∧ log_rep (t_delta t') (log_add s (map upd_op rows))
  end.

Lemma hits_to_change : to_change rows.
Proof using Hfit.
  split; [apply hit_rows_NoDup|]. intros i r Hin. split; [|by apply (Hfit i)]. by apply hit_rows_in in Hin as [Hr _].
Qed.

Lemma uk_slot_column_k : is_uk h k = true → ∃ n, get_uk_slot h k = Some n ∧ h_uks h !! n = Some k.
Proof using Huk. intros Hu. specialize (Huk Hu). destruct (get_uk_slot h k) as [n|] eqn:E; [|done]. exists n. split; [done|by apply uk_slot_column]. Qed.

(** The row is changed and the trees follow it, whether the column is unique or not. *)
Lemma update_one c i r :
  table_ok h c l → rows = [(i, r)] → refused = false →
  ∃ c2 c4, (if is_uk h k then remove_record_single_uk c r k else Some (true, c)) = Some (true, c2) ∧
    (if is_uk h k then index_record_single_uk (put_row c2 i (set_field k v r)) i k else Some (1, put_row c2 i (set_field k v r))) = Some (1, c4) ∧
    store_at h c4 (put_all k v l rows) ∧ trees_of h (put_all k v l rows) (c_id c4) (c_uks c4).
Proof using Hh Hcols Hpk Hkp Hrows Hk Hfit Huk.
  intros Hc' E Href. pose proof hits_to_change as Hch. rewrite E in Hch |- *. unfold refused in Href. rewrite E in Href. cbn in Href.
  destruct (proj2 Hch i r ltac:(by left)) as [Hr _]. pose proof uk_slot_column_k as Hslot. destruct (is_uk h k) eqn:Eu.
  - destruct (Hslot eq_refl) as (n & _ & Hn). cbn in Href.
    pose proof Hc' as [Hst Htrees]%(table_at_store h).
    destruct (change_one c i r n (proj1 Hst) Htrees Hch Hn) as (ts & -> & Hindex).
    { apply (not_taken_free (fun j => (j =? i) || false)); [done|]. intros j. rewrite orb_false_r. by apply Z.eqb_eq. }
    destruct (Hindex (put_row (set_uks c ts) i (set_field k v r))) as (c4 & E4 & Hst4 & Htr4); [|done..|exists (set_uks c ts), c4; by rewrite E4].
    by apply (put_row_store h (set_uks c ts) l i r).
  - exists c, (put_row c i (set_field k v r)). split; [done|]. split; [done|]. pose proof Hc' as [Hst Htrees]%(table_at_store h).
    split; [by apply (put_row_store h c l i r)|]. unfold put_row, set_slots, set_store. cbn [c_id c_uks]. by apply (change_plain [(i, r)] c).
Qed.

Lemma update_single_ok cond col pk :
  lookup_condition h stmt = Some (cond, col, pk) → lookup_exact h stmt l = true →
  updated (execute_update_single_row io t stmt col cond k v pk (is_uk h k)).
Proof using All.
  intros Hlk Hex. assert (col_count h < MAX_COLS)%nat as Hc2 by lia. pose proof update_stored as Hstored.
  destruct (lookup_row h p Hpk stmt (t_cache t) l Hc Hstored Hc2 Hvals cond col pk Hlk Hex) as (found & Ef & Hf).
  unfold execute_update_single_row. unfold found_row in Ef. rewrite Ef. cbn [mbind option_bind]. unfold updated.
  destruct found as [i|]; [|unfold rows; rewrite hit_rows_none by done; by exists t]. destruct Hf as (r & Hr & Hkey & Hu & Hone).
  pose proof (hit_rows_one h stmt l i r Hr Hone) as Ehit. fold rows in Ehit.
  destruct (cache_row_at h _ l l i Hc) as (c1 & -> & Hc1 & _). cbn [mbind option_bind]. rewrite Hr, (ta_hdr _ _ _ _ Hc).
  assert (length (where_conditions stmt) = 1%nat → row_matches_statement h stmt r = true) as Hal
    by (intros Hlen; by apply (alone_found h stmt l Hstored Hc2 Hvals cond col pk i)).
  destruct (row_matches_statement h stmt r) eqn:Hm; cbn [negb].
  2: { assert ((length (where_conditions stmt) =? 1)%nat = false) as -> by (apply Nat.eqb_neq; intros Hlen; by apply Hal in Hlen).
       cbn [negb andb]. rewrite Ehit. by eexists. }
  rewrite andb_false_r, Ehit.
  assert ((if is_uk h k then match get_uk_slot h k with None => Some true | Some uk_slot => uk_conflict c1 uk_slot v (Z.eqb i) end else Some false) = Some refused) as ->.
  { unfold refused. pose proof uk_slot_column_k as Hslot. destruct (is_uk h k) eqn:Eu; [|done]. destruct (Hslot eq_refl) as (n & -> & Hn). rewrite (uk_conflict_ok c1 n) by done.
    rewrite Ehit. cbn. f_equal. apply taken_ext. intros j. by rewrite orb_false_r, Z.eqb_sym. }
  cbn [mbind option_bind]. destruct refused eqn:Eref; [by eexists|].
  destruct (proj2 hits_to_change i r ltac:(rewrite Ehit; by left)) as [_ Hfit1].
  rewrite (build_updated_ok h Hcols r k v (slot_written i r Hr) Hk Hfit1).
  destruct (update_one c1 i r Hc1 Ehit Eref) as (c2 & c4 & -> & E4 & Hst4 & Htr4). cbn [mbind option_bind negb]. rewrite E4. cbn [mbind option_bind].
  change (1 =? 0) with false. cbv iota.
  destruct (log_change_ok io _ s (upd_op (i, r)) Hio Hlog) as (d & Elog & Hd & Hchk).
  assert ((match (if pk then parse_long_value (wc_val cond) else None) with
           | Some pk_key => append_delta_key io (DeltaUpdate pk_key (set_field k v r)) (t_delta t)
           | None => append_delta_update_slot io c4 i (set_field k v r) (t_delta t)
           end) = (true, d)) as ->.
  { rewrite <- Elog. unfold upd_op. cbn [fst snd]. destruct (if pk then parse_long_value (wc_val cond) else None) as [key|] eqn:Ekey.
    - destruct pk; [|done]. specialize (Hkey eq_refl). rewrite Ekey, (row_key_of i r Hr) in Hkey. by injection Hkey as ->.
    - unfold append_delta_update_slot. rewrite (store_active h c4 _ i Hst4). rewrite Ehit, (change_at [(i, r)]) by (rewrite <- Ehit; apply hits_to_change).
      cbn [List.find fst snd]. rewrite Z.eqb_refl. cbn [negb]. rewrite (row_key h p Hpk c4) by apply Hst4.
      by rewrite (changed_row_key rows hits_to_change i r) by (rewrite Ehit; by left). }
  cbn [negb]. destruct (finish_update rows c4 d Hst4 Htr4) as (t' & -> & H1 & H2 & H3); [by rewrite Ehit|done|].
  cbn [mbind option_bind]. exists t'. rewrite <- Ehit. split; [by rewrite Ehit|done].
Qed.

(** The loop over the rows that match. *)
Lemma update_rows_ok todo c l0 :
  NoDup todo.*1 → (∀ i r, (i, r) ∈ todo → at_slot l0 i = Some r ∧ rebuilt_row h r k v = Some (set_field k v r)) → store_at h c l0 →
  ∃ c', update_rows todo.*1 k v c = Some (true, c', map (fun x => (x.1, x.2, set_field k v x.2)) todo) ∧ store_at h c' (put_all k v l0 todo) ∧
    c_id c' = c_id c ∧ c_uks c' = c_uks c.
Proof using Type.
  revert c l0; induction todo as [|[i r] todo IH]; intros c l0 Hnd Hall Hst; [by exists c|]. cbn in Hnd. apply list.NoDup_cons in Hnd as [Hi Hnd].
  destruct (Hall i r ltac:(by left)) as [Hr Hb]. cbn [fmap list_fmap update_rows fst].
  destruct (cache_row_store h c l0 i Hst) as (c1 & -> & Hst1 & E1 & E2). rewrite Hr. cbn [mbind option_bind]. rewrite (proj1 Hst), Hb.
  pose proof (put_row_store h c1 l0 i r (set_field k v r) Hst1 Hr) as Hst2.
  destruct (IH (put_row c1 i (set_field k v r)) (<[Z.to_nat i := Some (set_field k v r)]> l0) Hnd) as (c3 & E & Hst3 & E3 & E4); [|exact Hst2|].
  - intros j r' Hin. destruct (Hall j r' ltac:(by right)) as [Hj Hb']. split; [|done]. rewrite at_slot_insert by (by apply at_slot_bound in Hr).
    rewrite decide_False; [done|]. intros ->. apply Hi, list_elem_of_fmap. by exists (i, r').
  - change (fun x : Z * cstr => x.1) with (@fst Z cstr) in *. fold (fmap (M:=list) (@fst Z cstr)). rewrite E. cbn [mbind option_bind]. exists c3.
    split; [done|]. split; [exact Hst3|]. unfold put_row, set_slots, set_store in E3, E4. cbn in E3, E4. by rewrite E3, E4, E1, E2.
Qed.

(** The loop over the unique column of the rows that were changed. *)
Lemma update_trees_ok c :
  store_at h c (put_all k v l rows) → trees_of h l (c_id c) (c_uks c) → refused = false →
  ∃ c3, (if is_uk h k then update_uks (map (fun x => (x.1, x.2, set_field k v x.2)) rows) k c else Some (true, c)) = Some (true, c3) ∧
    store_at h c3 (put_all k v l rows) ∧ trees_of h (put_all k v l rows) (c_id c3) (c_uks c3).
Proof using Hh Hcols Hpk Hkp Hrows Hk Hfit Huk.
  intros Hst Htrees Eref. pose proof hits_to_change as Hch. pose proof uk_slot_column_k as Hslot. unfold refused in Eref. destruct (is_uk h k) eqn:Eu.
  - apply orb_false_iff in Eref as [Hlen Htk]. destruct (Hslot eq_refl) as (n & _ & Hn).
    destruct rows as [|[i r] [|]] eqn:Er; [by exists c| |done]. cbn [map fst snd update_uks].
    destruct (change_one c i r n (proj1 Hst) Htrees Hch Hn) as (ts & -> & Hindex).
    { apply (not_taken_free _ i Htk). intros j. cbn. rewrite orb_false_r. by apply Z.eqb_eq. }
    cbn [mbind option_bind negb]. destruct (Hindex (set_uks c ts)) as (c4 & -> & Hst4 & Htr4); [done..|]. by exists c4.
  - exists c. split; [done|]. split; [done|]. by apply change_plain.
Qed.

(** The log takes the new rows. *)
Lemma update_log_ok c :
  store_at h c (put_all k v l rows) →
  append_delta_updates io c (new_rows (map (fun x => (x.1, x.2, set_field k v x.2)) rows)) (t_delta t) =
    append_delta_changes io (map Some (map upd_op rows)) (t_delta t).
Proof using Hc Hpk Hkp Hcols Hrows Hfit.
  intros Hst. pose proof hits_to_change as Hch. unfold append_delta_updates. f_equal. set (ch := map _ rows).
  assert (List.filter (fun x => slot_is_active (c_slots c) x.1) (new_rows ch) = new_rows ch) as ->.
  { apply forallb_filter_id, forallb_forall. intros y (z & <- & Hz)%in_map_iff. apply in_map_iff in Hz as ([i r] & <- & Hin). cbn.
    rewrite (store_active h c _ i Hst). apply list_elem_of_In in Hin. destruct (proj2 Hch i r Hin) as [Hr _].
    destruct (at_slot (put_all k v l rows) i) eqn:E; [done|]. apply (changed_active _ Hch) in E. congruence. }
  unfold new_rows, ch. rewrite !map_map. apply map_ext_in. intros [i r] Hin. cbn. rewrite (row_key h p Hpk c) by apply Hst.
  by rewrite (changed_row_key rows Hch i r) by by apply list_elem_of_In.
Qed.

Lemma update_scan_ok :
  (∀ i r, (i, r) ∈ rows → Forall (fun w => strchr w COMMA = None) (row_vals r)) → updated (update_scan io t stmt k v (is_uk h k)).
Proof using All.
  intros Hplain. unfold update_scan, updated. rewrite (ta_hdr _ _ _ _ Hc). pose proof hits_to_change as Hch.
  assert (length (slots (c_slots (t_cache t))) = length l) as -> by (pose proof (table_length h _ l l Hc); unfold record_count in *; lia).
  destruct (match_rows_ok h (length l) 0 stmt (t_cache t) l l Hc) as (c1 & -> & Hc1); [lia|done|].
  rewrite drop_0. fold (hit_rows h stmt l). fold rows. cbn [mbind option_bind].
  destruct rows as [|x0 rest] eqn:Erows; [by eexists|]. rewrite <- Erows in *. assert (rows ≠ []) as Hne by by rewrite Erows.
  assert (∃ i0 is0, rows.*1 = i0 :: is0) as (i0 & is0 & Eidx) by (rewrite Erows; by eexists _, _). rewrite Eidx. rewrite <- Eidx.
  assert ((if is_uk h k then
             if (1 <? length rows.*1)%nat then Some true
             else match get_uk_slot h k with
                  | None => Some true
                  | Some uk_slot => uk_conflict c1 uk_slot v (fun i => existsb (Z.eqb i) rows.*1)
                  end
           else Some false) = Some refused) as ->.
  { unfold refused. rewrite length_fmap. pose proof uk_slot_column_k as Hslot. destruct (is_uk h k); [|done].
    destruct (1 <? length rows)%nat; [done|]. destruct (Hslot eq_refl) as (n & -> & Hn). by rewrite (uk_conflict_ok c1 n). }
  cbn [mbind option_bind]. destruct refused eqn:Eref; [by eexists|].
  pose proof Hc1 as [Hst1 Htrees1]%(table_at_store h).
  destruct (update_rows_ok rows c1 l (proj1 Hch)) as (c2 & -> & Hst2 & E1 & E2); [|exact Hst1|].
  { intros i r Hin. destruct (proj2 Hch i r Hin) as [Hr Hfit1]. split; [done|]. apply rebuilt_row_ok; [done|by eapply slot_written|done|done|by apply (Hplain i)]. }
  cbn [mbind option_bind negb]. set (ch := map _ rows). assert (∃ x xs, ch = x :: xs) as (x & xs & Ech) by (unfold ch; rewrite Erows; by eexists _, _).
  rewrite Ech. rewrite <- Ech. rewrite <- E1, <- E2 in Htrees1.
  destruct (update_trees_ok c2 Hst2 Htrees1 Eref) as (c3 & E3 & Hst3 & Htrees3). fold ch in E3. rewrite E3. cbn [mbind option_bind negb].
  pose proof (update_log_ok c3 Hst3) as Elog. fold ch in Elog. rewrite Elog.
  destruct (log_changes_ok io _ s (map upd_op rows) Hio Hlog) as (d & -> & Hd & Hchk). cbn [negb].
  destruct (finish_update rows c3 d Hst3 Htrees3 Hd Hchk) as (t' & -> & H1 & H2 & H3). cbn [mbind option_bind].
  assert (length ch = length rows) as -> by (unfold ch; apply length_map). rewrite Erows. exists t'. rewrite <- Erows. done.
Qed.
End update.
