(* ===== verification/LegacyWriteClaims.v ===== *)
(** What UPDATE and DELETE of the stand-alone executor promise about the table and the
    log, and where they break the promise. *)

From Stdlib Require Import String.
From S2P Require Import Prelude CString BPTree BPTreeProofs BPTreeSpec BPTreeString BPTreeIndex Parser Values Table InsertProofs Store StoreProofs.
From S2P Require Import LegacyRow LegacyRowProofs LegacyCache LegacyCacheProofs LegacyIndex LegacyIndexProofs DeltaLog DeltaLogProofs LegacyTable LegacyTableProofs LegacyLoadProofs LegacyClaims LegacySelect LegacySelectProofs LegacyWrite LegacyWriteProofs LegacyUpdateProofs.
From stdpp Require Import base numbers list sorting option.
Local Open Scope Z_scope.

(** ** The statements on the rows *)

(** The rows that do not match. *)
Definition delete_rows (h : Header) (stmt : Statement) (l : list (option cstr)) : list (option cstr) :=
  map (fun o => match o with
                | Some r => if row_fields_match_statement h stmt (parse_csv_row r) then None else Some r
                | None => None
                end) l.

(** The rows that match have the value [v] in column [k]. *)
Definition update_rows_with (h : Header) (stmt : Statement) (k : nat) (v : cstr) (l : list (option cstr)) : list (option cstr) :=
  map (fun o => match o with
                | Some r => Some (if row_fields_match_statement h stmt (parse_csv_row r) then set_field k v r else r)
                | None => None
                end) l.

Lemma at_slot_ext l l' : length l = length l' → (∀ j, at_slot l j = at_slot l' j) → l = l'.
Proof.
  intros Hlen H. apply list_eq. intros i. specialize (H (Z.of_nat i)). unfold at_slot in H. rewrite (proj2 (Z.leb_le 0 _)), Nat2Z.id in H by lia.
  destruct (l !! i) as [o|] eqn:E1, (l' !! i) as [o'|] eqn:E2; cbn in H; [by subst| | |done].
  - apply lookup_lt_Some in E1. apply lookup_ge_None_1 in E2. lia.
  - apply lookup_lt_Some in E2. apply lookup_ge_None_1 in E1. lia.
Qed.

Lemma at_slot_map (f : option cstr → option cstr) l j :
  f None = None → at_slot (map f l) j = match at_slot l j with Some r => f (Some r) | None => None end.
Proof.
  intros Hf. unfold at_slot. destruct (0 <=? j); [|done]. change (map f) with (fmap (M:=list) f). rewrite list_lookup_fmap.
  destruct (l !! Z.to_nat j) as [[r|]|]; cbn; [by destruct (f (Some r))|by rewrite Hf|done].
Qed.

Lemma at_slot_without_all l idxs j :
  Forall (fun i => 0 ≤ i) idxs → at_slot (without_all l idxs) j = if bool_decide (j ∈ idxs) then None else at_slot l j.
Proof.
  intros Hpos. revert l; induction Hpos as [|i idxs Hi Hpos IH]; intros l; [done|]. cbn [without_all foldl]. fold (without_all (without l i) idxs).
  rewrite IH. destruct (bool_decide_reflect (j ∈ idxs)); [by rewrite bool_decide_eq_true_2 by by right|].
  destruct (decide (j = i)) as [->|Hne].
  - rewrite bool_decide_eq_true_2 by by left. rewrite at_slot_without. by rewrite decide_True.
  - rewrite at_slot_without_ne by done. rewrite bool_decide_eq_false_2; [done|]. by intros [->|]%elem_of_cons.
Qed.

Lemma length_without_all l idxs : length (without_all l idxs) = length l.
Proof.
  revert l; induction idxs as [|i idxs IH]; intros l; [done|]. cbn [without_all foldl]. fold (without_all (without l i) idxs). rewrite IH. apply length_insert.
Qed.

Lemma length_put_all k v l rows : length (put_all k v l rows) = length l.
Proof.
  revert l; induction rows as [|x rows IH]; intros l; [done|]. cbn [put_all foldl]. fold (put_all k v (<[Z.to_nat x.1 := Some (set_field k v x.2)]> l) rows).
  rewrite IH. apply length_insert.
Qed.

Section rows.
Context (h : Header) (stmt : Statement) (l : list (option cstr)).
Context (Htst : Forall (tested h stmt) (omap id l)).

Lemma slot_tested j r : at_slot l j = Some r → row_matches_statement h stmt r = row_fields_match_statement h stmt (parse_csv_row r).
Proof using Htst. intros Hj. rewrite Forall_forall in Htst. apply Htst, list_elem_of_In, table_rows_in. by exists j. Qed.

Lemma hit_spec j r : at_slot l j = Some r → j ∈ (hit_rows h stmt l).*1 ↔ row_fields_match_statement h stmt (parse_csv_row r) = true.
Proof using Htst.
  intros Hj. rewrite <- (slot_tested j r Hj), list_elem_of_fmap. split.
  - intros ([j' r'] & -> & Hin). cbn in Hj. apply hit_rows_in in Hin as [Hr Hm]. rewrite Hj in Hr. by injection Hr as ->.
  - intros Hm. exists (j, r). split; [done|]. by apply hit_rows_in.
Qed.

Lemma delete_rows_hits : without_all l (hit_rows h stmt l).*1 = delete_rows h stmt l.
Proof using Htst.
  apply at_slot_ext; [rewrite length_without_all; unfold delete_rows; by rewrite length_map|]. intros j. unfold delete_rows. rewrite at_slot_map by done.
  rewrite at_slot_without_all.
  - destruct (at_slot l j) as [r|] eqn:Ej; [|by destruct (bool_decide _)]. pose proof (hit_spec j r Ej) as H.
    destruct (row_fields_match_statement h stmt (parse_csv_row r)).
    + by rewrite bool_decide_eq_true_2 by by apply H.
    + rewrite bool_decide_eq_false_2; [done|]. intros Hin. by apply H in Hin.
  - apply Forall_forall. intros i Hin%list_elem_of_In. apply list_elem_of_fmap in Hin as ([i' r] & -> & Hin). apply hit_rows_in in Hin as [Hr _].
    apply at_slot_bound in Hr. cbn. lia.
Qed.

Lemma update_rows_hits k v : put_all k v l (hit_rows h stmt l) = update_rows_with h stmt k v l.
Proof using Htst.
  apply at_slot_ext; [rewrite length_put_all; unfold update_rows_with; by rewrite length_map|]. intros j. unfold update_rows_with. rewrite at_slot_map by done.
  rewrite put_all_at; [|apply hit_rows_NoDup|by intros [i r] [Hr _]%hit_rows_in].
  destruct (List.find (fun x => x.1 =? j) (hit_rows h stmt l)) as [[i r]|] eqn:Ef.
  - apply find_some in Ef as [Hin Ei]. cbn in Ei. apply Z.eqb_eq in Ei as ->. apply list_elem_of_In, hit_rows_in in Hin as [Hr Hm].
    rewrite Hr. cbn. rewrite <- (slot_tested j r Hr). by rewrite Hm.
  - destruct (at_slot l j) as [r|] eqn:Ej; [|done]. destruct (row_fields_match_statement h stmt (parse_csv_row r)) eqn:Hm; [|done].
    apply (hit_spec j r Ej) in Hm. apply list_elem_of_fmap in Hm as (x & -> & Hin). apply list_elem_of_In in Hin.
    pose proof (find_none _ _ Ef x Hin) as Hf. cbn in Hf. by rewrite Z.eqb_refl in Hf.
Qed.
End rows.

(** ** What is logged replays to the same rows *)

Section replay.
Context (h : Header) (p : nat) (Hpk : h_pk h = Some p).

Lemma delta_rows_at op l i : id_key h l i = Some (delta_id op) → (∀ j, id_key h l j = Some (delta_id op) → j = i) →
  delta_rows h op l = <[Z.to_nat i := match op with DeltaUpdate _ row => Some row | DeltaDelete _ => None end]> l.
Proof. intros Hi Hone. unfold delta_rows. by rewrite (find_key_at h l _ i Hi Hone). Qed.

Lemma deletes_replay rows l :
  NoDup rows.*1 → (∀ i r, (i, r) ∈ rows → at_slot l i = Some r ∧ get_row_pk_value h r = Some (key_of h r)) →
  (∀ i j k, id_key h l i = Some k → id_key h l j = Some k → i = j) →
  delta_rows_all h (map (fun x => DeltaDelete (key_of h x.2)) rows) l = without_all l rows.*1.
Proof.
  revert l; induction rows as [|[i r] rows IH]; intros l Hnd Hall Hinj; [done|]. cbn in Hnd. apply list.NoDup_cons in Hnd as [Hi Hnd].
  destruct (Hall i r ltac:(by left)) as [Hr Hk]. pose proof (at_slot_bound l i r Hr) as Hb.
  assert (id_key h l i = Some (key_of h r)) as Hid by (unfold id_key; by rewrite Hr).
  cbn [map delta_rows_all fmap list_fmap without_all foldl fst snd].
  rewrite (delta_rows_at _ l i) by (done || (intros j Hj; by apply (Hinj j i (key_of h r)))). fold (without l i). apply IH; [done| |].
  - intros j r' Hin. destruct (Hall j r' ltac:(by right)) as [Hj Hk']. split; [|done]. rewrite at_slot_without_ne; [done|lia|].
    intros ->. apply Hi, list_elem_of_fmap. by exists (i, r').
  - intros j j' k. rewrite !id_key_without by done. destruct (decide (j = i)), (decide (j' = i)); try done. apply Hinj.
Qed.

Lemma updates_replay k v rows l :
  NoDup rows.*1 → (∀ i r, (i, r) ∈ rows → at_slot l i = Some r ∧ get_row_pk_value h r = Some (key_of h r) ∧ get_row_pk_value h (set_field k v r) = Some (key_of h r)) →
  (∀ i j k, id_key h l i = Some k → id_key h l j = Some k → i = j) →
  delta_rows_all h (map (upd_op h k v) rows) l = put_all k v l rows.
Proof.
  revert l; induction rows as [|[i r] rows IH]; intros l Hnd Hall Hinj; [done|]. cbn in Hnd. apply list.NoDup_cons in Hnd as [Hi Hnd].
  destruct (Hall i r ltac:(by left)) as (Hr & Hk & Hk'). pose proof (at_slot_bound l i r Hr) as Hb.
  assert (id_key h l i = Some (key_of h r)) as Hid by (unfold id_key; by rewrite Hr).
  cbn [map delta_rows_all put_all foldl fst snd].
  rewrite (delta_rows_at _ l i) by (done || (intros j Hj; by apply (Hinj j i (key_of h r)))). cbn [upd_op fst snd].
  assert (∀ j, id_key h (<[Z.to_nat i := Some (set_field k v r)]> l) j = id_key h l j) as Hsame.
  { intros j. unfold id_key. rewrite at_slot_insert by done. destruct (decide (j = i)) as [->|]; [|done]. rewrite Hr. cbn. by rewrite Hk, Hk'. }
  apply IH; [done| |].
  - intros j r' Hin. destruct (Hall j r' ltac:(by right)) as (Hj & H1 & H2). split; [|done]. rewrite at_slot_insert by done. rewrite decide_False; [done|].
    intros ->. apply Hi, list_elem_of_fmap. by exists (i, r').
  - intros j j' k0. rewrite !Hsame. apply Hinj.
Qed.

Lemma deletes_valid (rows : list (Z * cstr)) l : delta_valid_all h (map (fun x => DeltaDelete (key_of h x.2)) rows) l.
Proof. revert l; induction rows as [|x rows IH]; intros l; [done|]. split; [done|apply IH]. Qed.
End replay.

Section valid.
Context (h : Header) (p : nat) (Hh : header_ok h) (Hpk : h_pk h = Some p) (Hcols : (0 < col_count h < MAX_COLS)%nat).
Context (t : Table) (l : list (option cstr)) (Hc : table_ok h (t_cache t) l) (Hrows : Forall (written_row h) (omap id l)).
Context (k : nat) (v : cstr) (Hk : (k < col_count h)%nat) (Hkp : p ≠ k).

(** A row that keeps the texts of its keys, or takes a new one that is free. *)
Lemma valid_step l' tr ts i r :
  trees_of h l' tr ts → at_slot l' i = Some r → get_row_pk_value h (set_field k v r) = Some (key_of h r) → get_row_pk_value h r = Some (key_of h r) →
  (∀ col j r', col ∈ h_uks h → j ≠ i → at_slot l' j = Some r' →
    uk_text col (set_field k v r) = [] ∨ uk_text col r' ≠ uk_text col (set_field k v r)) →
  delta_valid h (upd_op h k v (i, r)) l'.
Proof using Type.
  clear Hcols Hk Hkp. intros Htr Hr Hk1 Hk2 Hcol. cbn. split; [done|]. apply Forall_forall. intros [r'|] Hin; [|done].
  apply list_elem_of_In, list_elem_of_lookup in Hin as [n Hn].
  assert (at_slot l' (Z.of_nat n) = Some r') as Hj by (apply at_slot_lookup; rewrite Nat2Z.id; split; [done|lia]).
  destruct (decide (Z.of_nat n = i)) as [<-|Hne].
  - rewrite Hj in Hr. injection Hr as ->. by left.
  - right. apply Forall_forall. intros col Hin%list_elem_of_In. by apply (Hcol col (Z.of_nat n)).
Qed.

Lemma change_facts rows i r :
  to_change h l k v rows → (i, r) ∈ rows →
  at_slot l i = Some r ∧ get_row_pk_value h r = Some (key_of h r) ∧ get_row_pk_value h (set_field k v r) = Some (key_of h r).
Proof using Hpk Hcols Hc Hrows Hkp.
  intros Hch Hin. destruct (proj2 Hch i r Hin) as [Hr _]. split; [done|]. split; [by apply (row_key_of h t l Hc i)|].
  by apply (changed_row_key h p Hpk Hcols t l Hc Hrows k v Hkp rows Hch i r).
Qed.

Lemma put_all_snoc l0 rows x : put_all k v l0 (rows ++ [x]) = <[Z.to_nat x.1 := Some (set_field k v x.2)]> (put_all k v l0 rows).
Proof using Type. unfold put_all. by rewrite foldl_app. Qed.

Lemma plain_updates_valid pre rest :
  is_uk h k = false → to_change h l k v (pre ++ rest) → delta_valid_all h (map (upd_op h k v) rest) (put_all k v l pre).
Proof using Hh Hpk Hcols Hc Hrows Hkp.
  intros Hu. revert pre; induction rest as [|[i r] rest IH]; intros pre Hch; [done|].
  destruct (change_facts _ i r Hch ltac:(apply elem_of_app; right; by left)) as (Hr & Hk1 & Hk2).
  assert (to_change h l k v pre) as Hpre.
  { destruct Hch as [Hnd Hall]. rewrite fmap_app in Hnd. apply list.NoDup_app in Hnd as (Hnd & _ & _). split; [done|]. intros j r' Hin.
    apply Hall, elem_of_app. by left. }
  assert (trees_of h (put_all k v l pre) (c_id (t_cache t)) (c_uks (t_cache t))) as Htrees.
  { apply (change_plain h p Hh Hpk Hcols l Hrows k v Hkp pre (t_cache t) Hu Hpre). apply Hc. }
  assert (i ∉ pre.*1) as Hnin.
  { destruct Hch as [Hnd _]. rewrite fmap_app in Hnd. apply list.NoDup_app in Hnd as (_ & Hd & _). intros Hin. apply (Hd i Hin). by left. }
  assert (at_slot (put_all k v l pre) i = Some r) as Hri.
  { rewrite (change_at h l k v pre Hpre). destruct (List.find _ pre) as [[i' r']|] eqn:Ef; [|done]. apply find_some in Ef as [Hin Ei]. cbn in Ei.
    apply Z.eqb_eq in Ei as ->. destruct Hnin. apply list_elem_of_fmap. exists (i, r'). split; [done|by apply list_elem_of_In]. }
  assert (∀ col, col ∈ h_uks h → uk_text col (set_field k v r) = uk_text col r) as Huk.
  { intros col Hcol. apply (uk_set_other h Hcols); [by apply (slot_written h l Hrows i)|by apply (proj2 Hch i r); apply elem_of_app; right; left|].
    intros ->. destruct (header_uk_column h k Hh Hcol) as (ci & Hci & Ht). unfold is_uk in Hu. rewrite Hci in Hu. by rewrite bool_decide_eq_true_2 in Hu. }
  cbn [map delta_valid_all]. split.
  - apply (valid_step _ _ _ i r Htrees Hri Hk2 Hk1). intros col j r' Hcol Hne Hj. rewrite Huk by done.
    destruct (trees_distinct h _ _ _ i j r r' _ Htrees Hri Hj ltac:(done) Hk1) as [_ Hd]. rewrite Forall_forall in Hd. by apply Hd, list_elem_of_In.
  - rewrite (delta_rows_at h _ _ i).
    + pose proof (put_all_snoc l pre (i, r)) as Es. cbn [fst snd] in Es. cbn [upd_op fst snd]. rewrite <- Es. apply IH. by rewrite <- app_assoc.
    + unfold id_key. by rewrite Hri.
    + intros j Hj. destruct (tr_id _ _ _ _ Htrees) as [_ Hf]. assert (id_key h (put_all k v l pre) i = Some (key_of h r)) as H1 by (unfold id_key; by rewrite Hri).
      apply Hf in Hj, H1. cbn [upd_op delta_id fst snd] in Hj. rewrite Hj in H1. by injection H1.
Qed.

Lemma unique_update_valid i r :
  to_change h l k v [(i, r)] → (∀ j, j ≠ i → uk_key k l j ≠ Some v) → delta_valid_all h (map (upd_op h k v) [(i, r)]) l.
Proof using Hpk Hcols Hc Hrows Hk Hkp.
  intros Hch Hfree. destruct (change_facts _ i r Hch ltac:(by left)) as (Hr & Hk1 & Hk2). pose proof (ta_trees _ _ _ _ Hc) as Htrees.
  destruct (proj2 Hch i r ltac:(by left)) as [_ Hv]. pose proof (slot_written h l Hrows i r Hr) as Hw. split; [|done].
  apply (valid_step l _ _ i r Htrees Hr Hk2 Hk1). intros col j r' Hcol Hne Hj. destruct (decide (col = k)) as [->|Hck].
  - rewrite (uk_set_same h Hcols) by done. specialize (Hfree j Hne). unfold uk_key in Hfree. rewrite Hj in Hfree. cbn in Hfree.
    destruct v as [|b v'] eqn:Ev; [by left|right]. intros E. by rewrite E in Hfree.
  - rewrite (uk_set_other h Hcols) by done.
    destruct (trees_distinct h _ _ _ i j r r' _ Htrees Hr Hj ltac:(done) Hk1) as [_ Hd]. rewrite Forall_forall in Hd. by apply Hd, list_elem_of_In.
Qed.
End valid.

(** ** DELETE *)


(** [DELETE FROM t WHERE name = 'kim']. *)
Definition sample_delete : Statement :=
  mkStmt STMT_DELETE (lit "t") [] false [] [] [] [mkCond WHERE_EQ (lit "name") (lit "kim") []] WHERE_EQ (lit "name") (lit "kim") [].

Lemma sample_log_rep : log_rep (t_delta sample_table) log0.
Proof. assert (t_delta sample_table = no_log) as -> by (vm_compute; reflexivity). exact no_log_rep. Qed.


(** ** UPDATE *)

(** A unique value would be in two rows. *)
Definition value_clash (h : Header) (stmt : Statement) (k : nat) (v : cstr) (l : list (option cstr)) : bool :=
  is_uk h k &&
  ((1 <? length (matching h stmt (omap id l)))%nat ||
   match v with
   | [] => false
   | _ => existsb (fun r => streq (uk_text k r) v && negb (row_fields_match_statement h stmt (parse_csv_row r))) (omap id l)
   end).

Lemma rows_with_snd i l : (rows_with i l).*2 = omap id l.
Proof. revert i; induction l as [|[r|] l IH]; intros i; cbn; [done| |apply IH]. f_equal. apply IH. Qed.

Lemma matching_hits h stmt l : Forall (tested h stmt) (omap id l) → matching h stmt (omap id l) = (hit_rows h stmt l).*2.
Proof.
  intros Htst. unfold matching, hit_rows, hits. rewrite <- (rows_with_snd 0 l) in *. induction (rows_with 0 l) as [|[i r] rows IH]; [done|].
  cbn in *. apply Forall_cons_1 in Htst as [Hr Htst]. rewrite Hr. destruct (row_fields_match_statement _ _ _); cbn; by rewrite IH.
Qed.

Lemma refused_clash h stmt l k v : Forall (tested h stmt) (omap id l) → refused h stmt l k v = value_clash h stmt k v l.
Proof.
  intros Htst. unfold refused, value_clash, taken. f_equal. rewrite matching_hits, length_fmap by done. f_equal. destruct v as [|b v]; [done|].
  rewrite <- (rows_with_snd 0 l). apply eq_true_iff_eq. rewrite !existsb_exists. split.
  - intros ([i r] & Hin & [E1 E2]%andb_true_iff). exists r. split.
    + apply list_elem_of_In, list_elem_of_fmap. exists (i, r). split; [done|by apply list_elem_of_In].
    + cbn in *. rewrite E1. cbn. destruct (row_fields_match_statement h stmt (parse_csv_row r)) eqn:Hm; [|done].
      apply list_elem_of_In, rows_with_at in Hin. apply (hit_spec h stmt l Htst i r Hin) in Hm.
      apply negb_true_iff, Bool.not_true_iff_false in E2. destruct E2. apply existsb_exists. exists i. split; [by apply list_elem_of_In|by apply Z.eqb_eq].
  - intros (r & Hin & [E1 E2]%andb_true_iff). apply list_elem_of_In, list_elem_of_fmap in Hin as ([i r'] & -> & Hin). exists (i, r').
    split; [by apply list_elem_of_In|]. cbn in *. rewrite E1. cbn. apply negb_true_iff, Bool.not_true_iff_false. intros (j & Hj & Ej%Z.eqb_eq)%existsb_exists.
    subst j. apply list_elem_of_In in Hj. apply rows_with_at in Hin. apply (hit_spec h stmt l Htst i r' Hin) in Hj. by rewrite Hj in E2.
Qed.

(** The guards let the statement through to one of its two ways. *)
Lemma execute_update_updated io h p k stmt t l s :
  let v := trim_and_unquote (strcpy_sz 256 (set_val stmt)) in
  (∀ n, io n = true) → header_ok h → h_pk h = Some p → (0 < col_count h < MAX_COLS)%nat → table_ok h (t_cache t) l → cache_truncated t = false →
  Forall (written_row h) (omap id l) → Forall (fun c => (length (wc_val c) < 256)%nat) (where_conditions stmt) →
  no_check_due (t_delta t) → log_rep (t_delta t) s →
  validate_where_columns h stmt = true → where_conditions stmt ≠ [] → lookup_exact h stmt l = true →
  get_col_idx h (set_col stmt) = Some k → p ≠ k → (col_type <$> h_cols h !! k = Some COL_NN → v ≠ []) → (is_uk h k = true → get_uk_slot h k ≠ None) →
  (∀ i r, (i, r) ∈ hit_rows h stmt l → vals_ok h (<[k := v]> (row_vals r))) →
  (lookup_condition h stmt = None → ∀ i r, (i, r) ∈ hit_rows h stmt l → Forall (fun w => strchr w COMMA = None) (row_vals r)) →
  updated h stmt l s k v (execute_update io t stmt).
Proof.
  cbv zeta. intros Hio Hh Hpk Hcols Hc Htr Hrows Hvals Hdue Hlog Hval Hne Hex Hset Hkp Hnn Huk Hfit Hplain.
  set (v := trim_and_unquote (strcpy_sz 256 (set_val stmt))) in *. pose proof (get_col_idx_lt h (set_col stmt) k Hset) as Hk.
  unfold execute_update. rewrite (ta_hdr _ _ _ _ Hc), Hval, Hset, Htr. cbn [negb].
  assert ((length (where_conditions stmt) =? 0)%nat = false) as -> by (by destruct (where_conditions stmt)).
  rewrite bool_decide_eq_false_2 by (rewrite Hpk; congruence). fold v.
  assert (bool_decide (col_type <$> h_cols h !! k = Some COL_NN) && (length v =? 0)%nat = false) as ->.
  { destruct (bool_decide_reflect (col_type <$> h_cols h !! k = Some COL_NN)) as [E|]; [|done]. specialize (Hnn E). by destruct v. }
  destruct (lookup_condition h stmt) as [[[cond col] pk]|] eqn:Elk.
  - by apply (update_single_ok h p Hh Hpk Hcols io Hio stmt t l s Hc Hrows Htr Hdue Hlog k v Hk Hkp Hvals Hfit Huk).
  - apply (update_scan_ok h p Hh Hpk Hcols io Hio stmt t l s Hc Hrows Htr Hdue Hlog k v Hk Hkp Hvals Hfit Huk). by apply Hplain.
Qed.


(** [UPDATE t SET email = 'c@x' WHERE id = 2]. *)
Definition sample_update : Statement :=
  mkStmt STMT_UPDATE (lit "t") [] false [] (lit "email") (lit "'c@x'") [mkCond WHERE_EQ (lit "id") (lit "2") []] WHERE_EQ (lit "id") (lit "2") [].


(** A scan takes the quotes of a field for part of it and puts new ones around: the row
    then has a field too many. *)
Definition quoted_file : cstr := write_table_header sample_head ++ row_lines [lit "1,a@x,'kim, jr'"].

Definition quoted_update : Statement :=
  mkStmt STMT_UPDATE (lit "t") [] false [] (lit "email") (lit "z@x") [mkCond WHERE_EQ (lit "name") (lit "kim, jr") []] WHERE_EQ (lit "name") (lit "kim, jr") [].

Example update_quotes_again :
  match load_table_contents all_writes quoted_file None with
  | Some (true, t) =>
      match execute_update all_writes t quoted_update with
      | Some (WDone 1, t') => (fun r => (r.1, length (parse_csv_row (default [] r.1)))) <$> cache_row (t_cache t') 0 = Some (Some (lit "1,z@x,''kim, jr''"), 4%nat)
      | _ => False
      end
  | _ => False
  end.
Proof. vm_compute. reflexivity. Qed.

(** ** A key that is spelled otherwise *)

(** DELETE by the primary key alone takes the entry of the index away before it
    compares texts: when the row it finds has the same number in another spelling
    ([WHERE id = 07] and a row 7), it reports that no row matched and leaves the row,
    but the key is no longer known to be taken, so an INSERT may use it again. *)
Theorem delete_other_spelling_unindexes (io : nat → bool) (h : Header) (p : nat) (stmt : Statement) (t : Table) (l : list (option cstr))
    (cond : WhereCondition) (i key : Z) (r : cstr) :
  h_pk h = Some p → table_ok h (t_cache t) l → cache_truncated t = false →
  where_conditions stmt = [cond] → wc_type cond = WHERE_EQ → condition_column_index h cond = Some p → parse_long_value (wc_val cond) = Some key →
  at_slot l i = Some r → get_row_pk_value h r = Some key → row_field_equals r p (wc_val cond) = false →
  ∃ t', execute_delete io t stmt = Some (WNone, t') ∧ store_at h (t_cache t') l ∧ t_delta t' = t_delta t ∧
    pk_taken (t_cache t) key = true ∧ pk_taken (t_cache t') key = false.
Proof.
  intros Hpk Hc Htr Hw Hty Hcol Hkey Hr Hk Hne.
  assert (validate_where_columns h stmt = true) as Hval by (unfold validate_where_columns; rewrite Hw; cbn; by rewrite Hcol).
  assert (lookup_condition h stmt = Some (cond, p, true)) as Hlk.
  { unfold lookup_condition, choose_index_condition. rewrite Hw. cbn [best_condition]. unfold cond_score. rewrite Hcol, Hty.
    rewrite bool_decide_eq_true_2 by done. cbn. rewrite Hcol. cbn. rewrite Hty. by rewrite (bool_decide_eq_true_2 (h_pk h = Some p)). }
  unfold execute_delete. rewrite (ta_hdr _ _ _ _ Hc), Hval, Htr, Hlk, Hw. cbn [negb length Nat.eqb].
  pose proof (at_slot_bound l i r Hr) as Hb. rewrite <- (table_length h _ l l Hc). rewrite (proj2 (Z.eqb_neq _ 0)) by lia.
  pose proof (tr_id _ _ _ _ (ta_trees _ _ _ _ Hc)) as Hid.
  assert (id_key h l i = Some key) as Hki by (unfold id_key; by rewrite Hr).
  assert (ix_search (c_id (t_cache t)) key = Some i) as Hs by by apply (index_search _ (id_key h l)).
  assert (slot_is_active (c_slots (t_cache t)) i = true) as Hact by (rewrite (slot_active_at h _ l l i Hc); by rewrite Hr).
  unfold delete_single_row. unfold find_pk_row. rewrite (ta_hdr _ _ _ _ Hc), Hpk, Hkey, Hw. cbn [mbind option_bind length Nat.eqb andb].
  rewrite Hs. cbn [mbind option_bind]. rewrite Hact.
  pose proof Hc as [Hst _]%(table_at_store h). destruct (cache_row_store h (t_cache t) l i Hst) as (c1 & -> & Hst1 & E1 & E2). rewrite Hr. cbn [mbind option_bind].
  rewrite E1. destruct (index_delete (c_id (t_cache t)) (id_key h l) key i Hid I Hki) as [_ Hid'].
  destruct (ix_delete (c_id (t_cache t)) key) as [rc tr] eqn:Ed. rewrite Hne. cbn [negb snd] in *.
  eexists. split; [reflexivity|]. split; [exact Hst1|]. split; [done|]. split; [unfold pk_taken; by rewrite Hs|].
  unfold pk_taken. cbn [t_cache set_cache c_id set_id]. rewrite (index_search_None tr _ key Hid'); [done|]. intros j. cbn. destruct (decide (j = i)) as [|Hji]; [done|].
  intros Hj. apply Hji. by apply (id_key_inj h (t_cache t) l j i key).
Qed.

(** [DELETE FROM t WHERE id = 01]. *)
Definition padded_delete : Statement :=
  mkStmt STMT_DELETE (lit "t") [] false [] [] [] [mkCond WHERE_EQ (lit "id") (lit "01") []] WHERE_EQ (lit "id") (lit "01") [].

Lemma delete_other_spelling_unindexes_witness :
  ∃ t', execute_delete all_writes sample_table padded_delete = Some (WNone, t') ∧ store_at sample_head (t_cache t') (map Some sample_rows) ∧
    t_delta t' = t_delta sample_table ∧ pk_taken (t_cache sample_table) 1 = true ∧ pk_taken (t_cache t') 1 = false.
Proof.
  destruct sample_table_ok as (H1 & _ & _ & H2 & _).
  apply (delete_other_spelling_unindexes all_writes sample_head 0 padded_delete sample_table (map Some sample_rows) (mkCond WHERE_EQ (lit "id") (lit "01") []) 0 1 (lit "1,a@x,kim")).
  - reflexivity.
  - exact H1.
  - exact H2.
  - reflexivity.
  - reflexivity.
  - vm_compute. reflexivity.
  - vm_compute. reflexivity.
  - vm_compute. reflexivity.
  - vm_compute. reflexivity.
  - vm_compute. reflexivity.
Defined.
