(* ===== verification/Scanf.v ===== *)
(** [printf] and [sscanf] for the formats of [src/legacy/executor.c]: a format is read
    into directives, and one reading of the directives prints, the other scans. *)

From Stdlib Require Import String Ascii.
From S2P Require Import Prelude CString.
From stdpp Require Import base numbers list option.
Local Open Scope Z_scope.

(** A character of the format, [%d], [%ld], and [%s] or [%<n>s] (at most [n]
    characters when scanning). *)
Inductive Directive := DChar (c : Z) | DInt | DLong | DStr (limit : nat).

Inductive Arg := ANum (n : Z) | AText (s : cstr).

(** The format as the source writes it, with its escapes [\t] and [\n]; a width is a
    number of at most three digits. *)
Fixpoint fmt (f : string) : list Directive :=
  match f with
  | EmptyString => []
  | String "%" (String "d" f') => DInt :: fmt f'
  | String "%" (String "l" (String "d" f')) => DLong :: fmt f'
  | String "%" (String "s" f') => DStr 0 :: fmt f'
  | String "%" (String "2" (String "5" (String "5" (String "s" f')))) => DStr 255 :: fmt f'
  | String "\" (String "t" f') => DChar 9 :: fmt f'
  | String "\" (String "n" f') => DChar 10 :: fmt f'
  | String a f' => DChar (Z.of_N (N_of_ascii a)) :: fmt f'
  end.

(** [snprintf] into a buffer that is large enough. *)
Fixpoint sprintf (ds : list Directive) (args : list Arg) : cstr :=
  match ds with
  | [] => []
  | DChar c :: ds' => c :: sprintf ds' args
  | (DInt | DLong) :: ds' => match args with ANum n :: args' => print_Z n ++ sprintf ds' args' | _ => [] end
  | DStr _ :: ds' => match args with AText s :: args' => s ++ sprintf ds' args' | _ => [] end
  end.

(** A [long] stored in an [int]. *)
Definition to_int (n : Z) : Z := (n + 2 ^ 31) mod 2 ^ 32 - 2 ^ 31.

Definition atoi (s : cstr) : Z := to_int (st_val (strtol s)).

(** The characters of [%<n>s]. *)
Fixpoint scan_word (n : nat) (s : cstr) : cstr * cstr :=
  match n, s with
  | S n', c :: s' => if isspace c then ([], s) else let '(w, r) := scan_word n' s' in (c :: w, r)
  | _, _ => ([], s)
  end.

(** The values that are stored before the first directive that fails; their number is
    the answer of [sscanf]. *)
Fixpoint sscanf (ds : list Directive) (s : cstr) : list Arg :=
  match ds with
  | [] => []
  | DChar c :: ds' =>
      if isspace c then sscanf ds' (skip_space s)
      else match s with
           | x :: s' => if x =? c then sscanf ds' s' else []
           | [] => []
           end
  | (DInt | DLong) as d :: ds' =>
      let r := strtol s in
      if st_conv r then ANum (match d with DInt => to_int (st_val r) | _ => st_val r end) :: sscanf ds' (st_rest r) else []
  | DStr n :: ds' =>
      let '(w, r) := scan_word (if (n =? 0)%nat then length s else n) (skip_space s) in
      match w with
      | [] => []
      | _ => AText w :: sscanf ds' r
      end
  end.

(** ** What is printed is scanned back *)

Definition INT_MIN : Z := - 2 ^ 31.

Lemma to_int_id n : INT_MIN ≤ n ≤ INT_MAX → to_int n = n.
Proof. unfold to_int, INT_MIN, INT_MAX. intros H. rewrite Z.mod_small by lia. lia. Qed.

(** Something that no number goes on into. *)
Definition number_ends (s : cstr) : Prop := match s with [] => True | c :: _ => isdigit c = false end.

Lemma digits_split s acc : ∃ ds, s = ds ++ (digits acc s).2 ∧ forallb isdigit ds = true ∧ number_ends (digits acc s).2.
Proof.
  revert acc; induction s as [|c s IH]; intros acc; simpl; [by exists []|].
  destruct (isdigit c) eqn:E; [|by exists []].
  destruct (IH (acc * 10 + (c - 48))) as (ds & E1 & E2 & E3). exists (c :: ds). simpl. rewrite <- E1, E. by rewrite E2.
Qed.

(** [strtol] stops at the end of the number. *)
Lemma strtol_app a s v :
  strtol a = {| st_val := v; st_rest := []; st_conv := true; st_erange := false |} → number_ends s →
  strtol (a ++ s) = {| st_val := v; st_rest := s; st_conv := true; st_erange := false |}.
Proof.
  intros H Hs. unfold strtol in *. cbv zeta in *.
  destruct (skip_space_suffix a) as (w & Ea & Hw).
  pose proof (skip_space_idem a) as Hi. destruct (skip_space a) as [|c a1] eqn:Es; [done|].
  assert (isspace c = false) as Hc.
  { simpl in Hi. destruct (isspace c); [|done]. pose proof (skip_space_length a1). apply (f_equal length) in Hi. simpl in Hi. lia. }
  assert (skip_space (a ++ s) = c :: a1 ++ s) as ->.
  { rewrite Ea. rewrite <- app_assoc, skip_space_app_space by done. cbn [app]. by apply skip_space_nonspace. }
  assert (∀ x : cstr, x ≠ [] → (let '(m, rest) := digits 0 x in rest = []) → digits 0 (x ++ s) = ((digits 0 x).1, s)) as Hd.
  { intros x _ Hx. pose proof (digits_split x 0) as (ds & E1 & E2 & _). destruct (digits 0 x) as [m rest] eqn:Ed. subst rest.
    simpl in E1. rewrite app_nil_r in E1. subst ds. rewrite digits_app by done. by rewrite Ed. }
  set (ns := if c =? 45 then (true, a1) else if c =? 43 then (false, a1) else (false, c :: a1)) in *.
  assert ((if c =? 45 then (true, a1 ++ s) else if c =? 43 then (false, a1 ++ s) else (false, c :: a1 ++ s)) = (ns.1, ns.2 ++ s)) as ->.
  { unfold ns. destruct (c =? 45); [done|]. by destruct (c =? 43). }
  destruct ns as [neg s2]. cbn [fst snd]. destruct s2 as [|d s2]; [done|]. cbn [app].
  destruct (isdigit d) eqn:Ed; [|done]. specialize (Hd (d :: s2)). cbn [app] in Hd.
  destruct (digits 0 (d :: s2)) as [m rest] eqn:Edd. set (n := if neg then - m else m) in *.
  rewrite Hd; [|done|]; cbn [fst]; try fold n; destruct (n <? LONG_MIN), (LONG_MAX <? n); by simplify_eq.
Qed.

Lemma strtol_print_app n s :
  LONG_MIN ≤ n ≤ LONG_MAX → number_ends s →
  strtol (print_Z n ++ s) = {| st_val := n; st_rest := s; st_conv := true; st_erange := false |}.
Proof. intros. by apply strtol_app; [apply strtol_print|]. Qed.

Lemma scan_word_whole n w s :
  forallb (fun c => negb (isspace c)) w = true → (length w ≤ n)%nat → match s with [] => True | c :: _ => isspace c = true end →
  scan_word n (w ++ s) = (w, s).
Proof.
  revert n; induction w as [|c w IH]; intros n Hw Hn Hs.
  - simpl. destruct n; [done|]. destruct s as [|c s]; [done|]. simpl. by rewrite Hs.
  - destruct n as [|n]; simpl in *; [lia|]. bool_to_prop. rewrite H. rewrite IH by (done || lia). done.
Qed.

(** The directives and the arguments fit: numbers in range, each followed by the end
    or by a character that is neither a digit nor a sign, words without white space, each
    followed by the end or by white space. *)
Definition separator (ds : list Directive) (white : bool) : bool :=
  match ds with
  | [] => true
  | DChar c :: _ => if white then isspace c else negb (isdigit c)
  | _ => false
  end.

(** After white space of the format the input goes on with something else. *)
Definition solid (s : cstr) : bool := match s with [] => true | c :: _ => negb (isspace c) end.

Fixpoint fits (ds : list Directive) (args : list Arg) : Prop :=
  match ds with
  | [] => args = []
  | DChar c :: ds' => (isspace c = true → solid (sprintf ds' args) = true) ∧ fits ds' args
  | DInt :: ds' => match args with
                   | ANum n :: args' => INT_MIN ≤ n ≤ INT_MAX ∧ separator ds' false = true ∧ fits ds' args'
                   | _ => False
                   end
  | DLong :: ds' => match args with
                    | ANum n :: args' => LONG_MIN ≤ n ≤ LONG_MAX ∧ separator ds' false = true ∧ fits ds' args'
                    | _ => False
                    end
  | DStr k :: ds' => match args with
                     | AText w :: args' => w ≠ [] ∧ forallb (fun c => negb (isspace c)) w = true ∧
                                           (k = 0 ∨ length w ≤ k)%nat ∧ separator ds' true = true ∧ fits ds' args'
                     | _ => False
                     end
  end.

Lemma separator_ends ds args : separator ds false = true → number_ends (sprintf ds args).
Proof. destruct ds as [|[c| | |k] ds]; simpl; try done. intros H. by apply negb_true_iff in H. Qed.

Lemma separator_white ds args : separator ds true = true → match sprintf ds args with [] => True | c :: _ => isspace c = true end.
Proof. by destruct ds as [|[c| | |k] ds]. Qed.

Lemma skip_space_solid s : solid s = true → skip_space s = s.
Proof. destruct s as [|c s]; [done|]. simpl. intros H. apply negb_true_iff in H. by rewrite H. Qed.

Lemma sscanf_sprintf ds args : fits ds args → sscanf ds (sprintf ds args) = args.
Proof.
  revert args; induction ds as [|d ds IH]; intros args H; simpl in *; [done|].
  destruct d as [c| | |k].
  - destruct H as [Hw H]. destruct (isspace c) eqn:Ec.
    + cbn [skip_space]. rewrite Ec, skip_space_solid by by apply Hw. by apply IH.
    + rewrite Z.eqb_refl. by apply IH.
  - destruct args as [|[n|] args]; try done. destruct H as (Hn & Hs & H). unfold INT_MIN, INT_MAX in Hn.
    rewrite strtol_print_app; [|unfold LONG_MIN, LONG_MAX; lia|by apply separator_ends].
    cbn [st_conv st_val st_rest]. rewrite to_int_id by done. by rewrite IH.
  - destruct args as [|[n|] args]; try done. destruct H as (Hn & Hs & H).
    rewrite strtol_print_app; [|done|by apply separator_ends]. cbn [st_conv st_val st_rest]. by rewrite IH.
  - destruct args as [|[|w] args]; try done. destruct H as (Hne & Hw & Hk & Hs & H).
    rewrite skip_space_solid; [|destruct w as [|x w]; [done|]; cbn [forallb] in Hw; by apply andb_true_iff in Hw as [? _]].
    rewrite scan_word_whole; [|done| |by apply separator_white].
    + destruct w; [done|]. by rewrite IH.
    + rewrite length_app. destruct Hk as [->|Hk]; [simpl; lia|]. destruct (k =? 0)%nat; lia.
Qed.

(** What is printed never begins with white space. *)
Lemma print_Z_head n : ∃ c s, print_Z n = c :: s ∧ (isdigit c = true ∨ c = 45).
Proof.
  unfold print_Z. destruct (n <? 0) eqn:Hn; [by eexists _, _; split; [|by right]|]. bool_to_prop.
  assert (∀ fuel m acc, 0 ≤ m → ∃ c s, print_pos (S fuel) m acc = c :: s ∧ (isdigit c = true)) as H.
  { intros fuel; induction fuel as [|fuel IH]; intros m acc Hm; cbn [print_pos]; destruct (m / 10 =? 0) eqn:E.
    - eexists _, _. split; [done|]. apply isdigit_range. pose proof (Z.mod_pos_bound m 10). lia.
    - eexists _, _. split; [done|]. apply isdigit_range. pose proof (Z.mod_pos_bound m 10). lia.
    - eexists _, _. split; [done|]. apply isdigit_range. pose proof (Z.mod_pos_bound m 10). lia.
    - apply IH. apply Z.div_pos; lia. }
  destruct (H (Z.to_nat (Z.log2 n)) n [] Hn) as (c & s & E & Hc). exists c, s. split; [exact E|by left].
Qed.
