(* ===== verification/LegacySnapshot.v ===== *)
(** The index snapshot of the stand-alone executor, [src/legacy/executor.c]: the text
    [save_index_snapshot] writes to [<table>.idx], the two readers of it, and opening a
    table with them.

    A file is its text; what [stat] says of it is its length and a time that is an
    argument. Memory is given; [io] says which writes succeed. *)

From Stdlib Require Import String.
From S2P Require Import Prelude CString Scanf BPTree BPTreeString BPTreeIndex Parser Values Table Store LegacyRow LegacyCache LegacyIndex DeltaLog LegacyTable.
From stdpp Require Import base numbers list option.
Local Open Scope Z_scope.

(** ** What the snapshot is valid for *)

Record FileStamp := mkStamp { fs_exists : Z; fs_size : Z; fs_mtime : Z }.

Definition get_file_stamp (file : option cstr) (mtime : Z) : FileStamp :=
  match file with
  | Some text => mkStamp 1 (Z.of_nat (length text)) mtime
  | None => mkStamp 0 0 0
  end.

Definition stamp_args (st : FileStamp) : list Arg := [ANum (fs_exists st); ANum (fs_size st); ANum (fs_mtime st)].

(** What [stat] finds: the times of [<table>.csv] and [<table>.delta], and the former
    itself when the table does not hold it open. *)
Record Times := mkTimes { csv_closed : option cstr; csv_mtime : Z; delta_mtime : Z }.

Definition csv_stamp (tm : Times) (t : Table) : FileStamp :=
  get_file_stamp (match c_file (t_cache t) with Some f => Some f | None => csv_closed tm end) (csv_mtime tm).
Definition delta_stamp (tm : Times) (t : Table) : FileStamp := get_file_stamp (log_text (t_delta t)) (delta_mtime tm).

(** [table_name], the file [<table>.idx] and the two flags. *)
Record Snap := mkSnap { table_name : cstr; idx_file : option cstr; snapshot_loaded : bool; snapshot_dirty : bool }.

Definition remove_index_snapshot (s : Snap) : Snap := mkSnap (table_name s) None false true.

(** ** Writing *)

(** [pk_idx], -1 without a key. *)
Definition pk_number (h : Header) : Z := match h_pk h with Some p => Z.of_nat p | None => -1 end.

Definition bit (b : bool) : Z := if b then 1 else 0.

Definition store_number (r : RowStoreType) : Z :=
  match r with ROW_STORE_NONE => 0 | ROW_STORE_CSV => 1 | ROW_STORE_MEMORY => 2 end.

Definition uk_number (u : nat) : cstr := sprintf (fmt " %d") [ANum (Z.of_nat u)].

Definition slot_line (delta_exists : bool) (i : Z) (sl : Slot) : cstr :=
  sprintf (fmt "%d\t%d\t%ld\t%d\t%ld\n")
    [ANum i; ANum (bit (s_active sl)); ANum (s_id sl); ANum (store_number (s_store sl));
     ANum (if bool_decide (s_store sl = ROW_STORE_MEMORY) && delta_exists then -1 else s_offset sl)].

Definition write_active_id_pair (s : Slots) : @visitor Z cstr := fun key row_index out =>
  (true, if slot_is_active s row_index then out ++ sprintf (fmt "%ld\t%d\n") [ANum key; ANum row_index] else out).

Definition count_active_string_pair (s : Slots) : @visitor cstr Z := fun _ row_index n =>
  (true, if slot_is_active s row_index then n + 1 else n).

Definition write_active_string_pair (s : Slots) : @visitor cstr cstr := fun key row_index out =>
  (true, if slot_is_active s row_index then out ++ sprintf (fmt "%d\t%s\n") [ANum row_index; AText key] else out).

(** The sections of the unique columns; [None] in the second place: a tree is missing. *)
Fixpoint write_uk_sections (s : Slots) (cols : list nat) (ts : list (option (tree cstr))) : option (option cstr) :=
  match cols with
  | [] => Some (Some [])
  | col :: cols' =>
      match ts with
      | Some t :: ts' =>
          '(_, n) ← bptree_string_visit_pairs t (count_active_string_pair s) 0;
          '(_, pairs) ← bptree_string_visit_pairs t (write_active_string_pair s) [];
          rest ← write_uk_sections s cols' ts';
          Some (match rest with
                | Some r => Some (sprintf (fmt "UK %d %d\n") [ANum (Z.of_nat col); ANum n] ++ pairs ++ r)
                | None => None
                end)
      | _ => Some None
      end
  end.

Definition write_index_snapshot_pairs (c : Cache) : option (option cstr) :=
  let s := c_slots c in
  '(_, ids) ← bptree_visit_pairs (c_id c) (write_active_id_pair s) [];
  uks ← write_uk_sections s (h_uks (c_hdr c)) (c_uks c);
  Some (match uks with
        | Some u => Some (sprintf (fmt "ID %d\n") [ANum (active_count s)] ++ ids ++
                          sprintf (fmt "UKSECTIONS %d\n") [ANum (Z.of_nat (length (h_uks (c_hdr c))))] ++ u)
        | None => None
        end).

(** The lines before the slots. *)
Definition snapshot_head (name : cstr) (csv delta : FileStamp) (t : Table) : cstr :=
  let c := t_cache t in let h := c_hdr c in let s := c_slots c in
  sprintf (fmt "SQLPROC_IDX_V2\n") [] ++
  sprintf (fmt "TABLE %s\n") [AText name] ++
  sprintf (fmt "CSV %d %ld %ld\n") (stamp_args csv) ++
  sprintf (fmt "DELTA %d %ld %ld\n") (stamp_args delta) ++
  sprintf (fmt "SCHEMA %d %d %d") [ANum (Z.of_nat (col_count h)); ANum (pk_number h); ANum (Z.of_nat (length (h_uks h)))] ++
  concat (map uk_number (h_uks h)) ++ [NL] ++
  sprintf (fmt "ROWS %d %d %d %d %ld %ld\n")
    [ANum (record_count s); ANum (active_count s); ANum (bit (cache_truncated t)); ANum (Z.of_nat (length (tail_entries (t_tail t))));
     ANum (next_auto_id c); ANum (next_row_id c)] ++
  sprintf (fmt "SLOTS %d\n") [ANum (record_count s)].

Definition snapshot_text (name : cstr) (csv delta : FileStamp) (t : Table) : option (option cstr) :=
  pairs ← write_index_snapshot_pairs (t_cache t);
  Some (match pairs with
        | Some p =>
            Some (snapshot_head name csv delta t ++
                  concat (imap (fun i sl => slot_line (fs_exists delta =? 1) (Z.of_nat i) sl) (slots (c_slots (t_cache t)))) ++
                  p ++ sprintf (fmt "END\n") [])
        | None => None
        end).

(** [io] 0 and 1 are the writes of [close_delta_batch], [io] 2 is the new file, which
    replaces the old one when it is complete. *)
Definition save_index_snapshot (io : nat → bool) (tm : Times) (t : Table) (s : Snap) : option (bool * Table * Snap) :=
  if match table_name s with [] => true | _ => cache_truncated t end then Some (true, t, remove_index_snapshot s)
  else if snapshot_loaded s && negb (snapshot_dirty s) then Some (true, t, s)
  else
    let '(ok, d) := close_delta_batch io (t_delta t) in
    let t1 := set_delta t d in
    if negb ok then Some (false, t1, s)
    else
      text ← snapshot_text (table_name s) (csv_stamp tm t1) (delta_stamp tm t1) t1;
      match text with
      | Some x => if io 2%nat then Some (true, t1, mkSnap (table_name s) (Some x) true false) else Some (false, t1, s)
      | None => Some (false, t1, s)
      end.

(** ** Reading *)

Definition read_expected_line (text : cstr) : option (cstr * cstr) :=
  match text with
  | [] => None
  | _ => let '(line, rest) := fgets (DELTA_LINE_SIZE - 1) text in Some (cut_nl line, rest)
  end.

(** A line that [sscanf] reads with the format. *)
Definition scan_line (f : string) (text : cstr) : option (list Arg * cstr) :=
  '(line, rest) ← read_expected_line text;
  Some (sscanf (fmt f) line, rest).

Definition read_stamp (f : string) (text : cstr) : option (FileStamp * cstr) :=
  '(args, rest) ← scan_line f text;
  match args with
  | [ANum e; ANum size; ANum mtime] => Some (mkStamp e size mtime, rest)
  | _ => None
  end.

#[global] Instance FileStamp_eq_dec : EqDecision FileStamp.
Proof. solve_decision. Defined.

(** The version line; the first bool: it is version 2. *)
Definition read_version (text : cstr) : option (bool * cstr) :=
  '(line, rest) ← read_expected_line text;
  if streq line (lit "SQLPROC_IDX_V2") then Some (true, rest)
  else if streq line (lit "SQLPROC_IDX_V1") then Some (false, rest)
  else None.

Definition read_table (name text : cstr) : option cstr :=
  '(args, rest) ← scan_line "TABLE %255s" text;
  match args with
  | [AText x] => if streq x name then Some rest else None
  | _ => None
  end.

(** The two loops that step over a word and the white space after it. *)
Fixpoint skip_word (p : cstr) : cstr :=
  match p with
  | c :: p' => if isspace c then skip_space p else skip_word p'
  | [] => []
  end.

(** The loop for the unique columns. *)
Fixpoint read_columns (n : nat) (p : cstr) : option (list Z) :=
  match n with
  | O => Some []
  | S n' =>
      match sscanf (fmt "%d") p with
      | [ANum u] => us ← read_columns n' (skip_word p); Some (u :: us)
      | _ => None
      end
  end.

(** The schema line must be the one of the header. *)
Definition read_schema (h : Header) (text : cstr) : option cstr :=
  '(line, rest) ← read_expected_line text;
  if negb (is_prefix (lit "SCHEMA ") line) then None
  else
    let p := drop 7 line in
    match sscanf (fmt "%d %d %d") p with
    | [ANum cols; ANum pk; ANum uks] =>
        us ← read_columns (Nat.min (Z.to_nat uks) MAX_UKS) (skip_word (skip_word (skip_word p)));
        if (cols =? Z.of_nat (col_count h)) && (pk =? pk_number h) && (uks =? Z.of_nat (length (h_uks h))) &&
           bool_decide (us = map Z.of_nat (h_uks h)) then Some rest else None
    | _ => None
    end.

(** The numbers of the ROWS line. *)
Record Rows := mkRows { r_count : Z; r_active : Z; r_truncated : Z; r_tail : Z; r_auto : Z; r_row : Z }.

Definition read_rows (text : cstr) : option (Rows * cstr) :=
  '(args, rest) ← scan_line "ROWS %d %d %d %d %ld %ld" text;
  match args with
  | [ANum a; ANum b; ANum c; ANum d; ANum e; ANum f] => Some (mkRows a b c d e f, rest)
  | _ => None
  end.

(** A line with one number. *)
Definition read_number (f : string) (text : cstr) : option (Z * cstr) :=
  '(args, rest) ← scan_line f text;
  match args with
  | [ANum n] => Some (n, rest)
  | _ => None
  end.

(** The lines of the slots, skipped. *)
Fixpoint skip_lines (n : nat) (text : cstr) : option cstr :=
  match n with
  | O => Some text
  | S n' => '(_, rest) ← read_expected_line text; skip_lines n' rest
  end.

(** The pairs of the id index, of active slots. *)
Fixpoint read_id_pairs (s : Slots) (n : nat) (text : cstr) : option (list (Z * Z) * cstr) :=
  match n with
  | O => Some ([], text)
  | S n' =>
      '(args, rest) ← scan_line "%ld\t%d" text;
      match args with
      | [ANum key; ANum row_index] =>
          if slot_is_active s row_index then '(ps, rest') ← read_id_pairs s n' rest; Some ((key, row_index) :: ps, rest') else None
      | _ => None
      end
  end.

(** The section of the ids. *)
Definition read_ids (s : Slots) (active : Z) (text : cstr) : option (list (Z * Z) * cstr) :=
  '(id_count, rest) ← read_number "ID %d" text;
  if id_count =? active then read_id_pairs s (Z.to_nat id_count) rest else None.

Fixpoint read_uk_pairs (s : Slots) (n : nat) (text : cstr) : option (list (cstr * Z) * cstr) :=
  match n with
  | O => Some ([], text)
  | S n' =>
      '(line, rest) ← read_expected_line text;
      tab ← strchr line TAB;
      let row_index := atoi (take tab line) in
      if slot_is_active s row_index then
        '(ps, rest') ← read_uk_pairs s n' rest;
        Some ((drop (S tab) line, row_index) :: ps, rest')
      else None
  end.

(** The loop over the unique columns: their trees. *)
Fixpoint read_uk_trees (s : Slots) (active : Z) (cols : list nat) (text : cstr) : option (list (tree cstr) * cstr) :=
  match cols with
  | [] => Some ([], text)
  | col :: cols' =>
      '(args, rest) ← scan_line "UK %d %d" text;
      match args with
      | [ANum col_idx; ANum count] =>
          if negb (col_idx =? Z.of_nat col) || (count <? 0) || (active <? count) then None
          else
            t ← bptree_string_create always_ok;
            '(pairs, rest1) ← read_uk_pairs s (Z.to_nat count) rest;
            match ix_build t pairs with
            | (false, _) => None
            | (true, t') => '(ts, rest2) ← read_uk_trees s active cols' rest1; Some (t' :: ts, rest2)
            end
      | _ => None
      end
  end.

Definition read_uks (s : Slots) (active : Z) (cols : list nat) (text : cstr) : option (list (tree cstr) * cstr) :=
  '(n, rest) ← read_number "UKSECTIONS %d" text;
  if n =? Z.of_nat (length cols) then read_uk_trees s active cols rest else None.

Definition read_end (text : cstr) : option unit :=
  '(line, _) ← read_expected_line text;
  if streq line (lit "END") then Some tt else None.

(** *** The indexes of a table whose rows were read *)

(** The lines up to the rows; [delta_counts]: the stamp of the log must be the same. *)
Definition read_head (v1 : bool) (delta_counts : bool) (tm : Times) (t : Table) (name text : cstr) : option (bool * Rows * cstr) :=
  '(v2, text) ← read_version text;
  if negb (v2 || v1) then None
  else
    text ← read_table name text;
    '(csv, text) ← read_stamp "CSV %d %ld %ld" text;
    '(delta, text) ← read_stamp "DELTA %d %ld %ld" text;
    if bool_decide (csv = csv_stamp tm t) && (negb delta_counts || bool_decide (delta = delta_stamp tm t)) then
      text ← read_schema (c_hdr (t_cache t)) text;
      '(rows, text) ← read_rows text;
      Some (v2, rows, text)
    else None.

(** What the whole snapshot says. *)
Definition read_snapshot (tm : Times) (t : Table) (name text : cstr) : option (Rows * list (Z * Z) * list (tree cstr)) :=
  let c := t_cache t in let s := c_slots c in
  '(v2, rows, text) ← read_head true true tm t name text;
  if negb ((r_count rows =? record_count s) && (r_active rows =? active_count s) && (r_truncated rows =? bit (cache_truncated t)) &&
           (r_tail rows =? Z.of_nat (length (tail_entries (t_tail t))))) then None
  else
    text ← (if (v2 : bool) then
              '(n, rest) ← read_number "SLOTS %d" text;
              if n =? record_count s then skip_lines (Z.to_nat n) rest else None
            else Some text);
    '(ids, text) ← read_ids s (active_count s) text;
    '(ts, text) ← read_uks s (active_count s) (h_uks (c_hdr c)) text;
    _ ← read_end text;
    Some (rows, ids, ts).

(** Without a primary key a row gets the id it is listed with. *)
Fixpoint set_row_ids (ids : list (Z * Z)) (s : Slots) : Slots :=
  match ids with
  | [] => s
  | (key, i) :: ids' =>
      let sl := slot_at s i in
      set_row_ids ids' (set_slot s i (mkSlot (s_row sl) (s_active sl) key (s_store sl) (s_offset sl) (s_cached sl) (s_seq sl)))
  end.

Definition load_index_snapshot (tm : Times) (t : Table) (s : Snap) : bool * Table * Snap :=
  let c := t_cache t in
  if match table_name s with [] => true | _ => cache_truncated t end then (false, t, s)
  else
    match (text ← idx_file s; read_snapshot tm t (table_name s) text) with
    | None => (false, t, s)
    | Some (rows, ids, ts) =>
        match ix_build (c_id c) ids with
        | (false, id') => (false, set_cache t (set_id c id'), s)
        | (true, id') =>
            let c1 := set_slots c (match h_pk (c_hdr c) with None => set_row_ids ids (c_slots c) | Some _ => c_slots c end) in
            (true, set_cache t (set_next (set_uks (set_id c1 id') (map Some ts)) (r_auto rows) (r_row rows)),
             mkSnap (table_name s) (idx_file s) true false)
        end
    end.

(** *** The slots and the indexes of a table whose header was read *)

(** A slot as its line gives it. *)
Definition loaded_slot (active row_id offset : Z) : Slot :=
  if active =? 0 then mkSlot None false row_id ROW_STORE_NONE 0 false 0
  else mkSlot None true row_id ROW_STORE_CSV offset false 0.

(** The loop over the slots, [n] more from [i] on; the bool says whether every line was
    good, the number counts the active ones. *)
Fixpoint load_slots (n : nat) (i : Z) (text : cstr) (s : Slots) (seen : Z) : bool * Slots * Z * cstr :=
  match n with
  | O => (true, s, seen, text)
  | S n' =>
      match scan_line "%d\t%d\t%ld\t%d\t%ld" text with
      | Some ([ANum slot_id; ANum active; ANum row_id; ANum store; ANum offset], rest) =>
          if negb (slot_id =? i) then (false, s, seen, text)
          else
            let s1 := set_slot s i (loaded_slot active row_id offset) in
            if active =? 0 then load_slots n' (i + 1) rest (push_free_slot s1 i) seen
            else load_slots n' (i + 1) rest s1 (seen + 1)
      | _ => (false, s, seen, text)
      end
  end.

(** [tc->record_count = record_count; tc->active_count = 0;], the arrays being cleared
    where they are new. *)
Definition set_record_count (s : Slots) (n : Z) : Slots :=
  set_counts (set_arrays s (take (Z.to_nat n) (slots s ++ replicate (Z.to_nat n) slot0)) (record_capacity s)) 0 (cached_record_count s).

(** From the line of the slots on; what it did stays when a later line is wrong. *)
Definition load_from_slots (rows : Rows) (text : cstr) (t : Table) (s : Snap) : bool * Table * Snap :=
  let c := t_cache t in
  match ensure_record_capacity (c_slots c) (r_count rows) with
  | None => (false, t, s)
  | Some s0 =>
      let put (sl : Slots) := mkTable (set_slots c sl) (mkTail [] (tail_capacity (t_tail t))) false (uncached_start_offset t) (append_offset t) (t_delta t) in
      let s1 := set_record_count s0 (r_count rows) in
      match read_number "SLOTS %d" text with
      | None => (false, put s1, s)
      | Some (slot_count, text) =>
          if negb (slot_count =? r_count rows) then (false, put s1, s)
          else
            let '(ok, s2, seen, text) := load_slots (Z.to_nat slot_count) 0 text s1 0 in
            if negb (ok && (seen =? r_active rows)) then (false, put s2, s)
            else
              let s3 := set_counts s2 seen (cached_record_count s2) in
              match read_ids s3 (r_active rows) text with
              | None => (false, put s3, s)
              | Some (ids, text) =>
                  let '(built, id') := ix_build (c_id c) ids in
                  let t3 := put s3 in let t4 := set_cache t3 (set_id (t_cache t3) id') in
                  if negb built then (false, t4, s)
                  else
                    match ('(ts, text) ← read_uks s3 (r_active rows) (h_uks (c_hdr c)) text; _ ← read_end text; Some ts) with
                    | None => (false, t4, s)
                    | Some ts =>
                        (true,
                         set_append_offset (set_cache t4 (set_next (set_uks (t_cache t4) (map Some ts)) (r_auto rows) (r_row rows)))
                           (Z.of_nat (length (default [] (c_file c)))),
                         mkSnap (table_name s) (idx_file s) true false)
                    end
              end
      end
  end.

Definition load_table_parse_snapshot (tm : Times) (t : Table) (s : Snap) : bool * Table * Snap :=
  match table_name s with
  | [] => (false, t, s)
  | name =>
      match (text ← idx_file s; read_head false (negb (delta_log_exists (t_delta t))) tm t name text) with
      | None => (false, t, s)
      | Some (_, rows, text) =>
          if (r_count rows <? 0) || (MAX_RECORDS <? r_count rows) || (r_active rows <? 0) || negb (r_truncated rows =? 0) ||
             negb (r_tail rows =? 0) then (false, t, s)
          else load_from_slots rows text t s
      end
  end.

(** ** Opening a table *)

(** What follows the loop over the lines. A snapshot that cannot be saved is only
    reported. *)
Definition finish_open (io : nat → bool) (tm : Times) (t : Table) (s : Snap) (file_next : Z) : option (bool * Table * Snap) :=
  let has_delta_log := delta_log_exists (t_delta t) in
  let no_rows := active_count (c_slots (t_cache t)) =? 0 in
  let stale := has_delta_log && no_rows && (length (tail_entries (t_tail t)) =? 0)%nat in
  let t := if stale then set_delta t (clear_delta_log io (t_delta t)) else t in
  let s := if stale then remove_index_snapshot s else s in
  let done (t : Table) := set_append_offset t (Z.of_nat (length (default [] (c_file (t_cache t))))) in
  let raise (t : Table) := set_cache t (raise_auto_id (t_cache t) file_next) in
  if negb (delta_log_exists (t_delta t)) then
    '(t1, s1) ← (if active_count (c_slots (t_cache t)) =? 0 then Some (t, remove_index_snapshot s)
                 else
                   let '(ok, t1, s1) := load_index_snapshot tm t s in
                   if (ok : bool) then Some (t1, s1) else '(_, t2, s2) ← save_index_snapshot io tm t1 s1; Some (t2, s2));
    Some (true, done (raise t1), s1)
  else
    '(ok, c1) ← replay_delta_log (log_text (t_delta t)) (t_cache t);
    let t1 := set_cache t c1 in
    if negb (ok : bool) then Some (false, t1, s)
    else
      let '(ok2, t2, s2) := load_index_snapshot tm t1 s in
      if (ok2 : bool) then Some (true, done t2, s2)
      else
        '(ok3, c3) ← rebuild_id_index (t_cache t2);
        if negb (ok3 : bool) then Some (false, set_cache t2 c3, s2)
        else
          '(ok4, c4) ← rebuild_uk_indexes c3;
          if negb (ok4 : bool) then Some (false, set_cache t2 c4, s2)
          else
            '(_, t5, s5) ← save_index_snapshot io tm (raise (set_cache t2 c4)) s2;
            Some (true, done t5, s5).

(** [load_table_contents] with the snapshot that stands beside the file. *)
Definition open_table (io : nat → bool) (tm : Times) (name file : cstr) (log idx : option cstr) : option (bool * Table * Snap) :=
  let '(line, rest) := fgets (RECORD_SIZE - 1) file in
  let h := match line with [] => mkHeader [] None [] | _ => parse_header line end in
  t ← reset_table h file log;
  let '(ok, t1, s1) := load_table_parse_snapshot tm t (mkSnap (strcpy_sz 256 name) idx false false) in
  if (ok : bool) then
    '(ok2, c2) ← (match log with
                  | Some _ => replay_delta_log log (t_cache t1)
                  | None => Some (true, t_cache t1)
                  end);
    Some (ok2, set_cache t1 c2, s1)
  else
    '(ok2, t2, file_next) ← load_rows (length rest) (delta_log_exists (t_delta t)) rest (Z.of_nat (length line)) t1 1;
    if (ok2 : bool) then finish_open io tm t2 s1 file_next else Some (false, t2, s1).
