(* ===== verification/Executor.v ===== *)
(** The open tables of the stand-alone executor, [src/legacy/executor.c]: opening a
    table by its name, closing one and closing all, and the four statements.

    What stands in the directory is a map from table names to the files of a table;
    while a table is open its files are those that [Table] and [Snap] hold. [io] says
    which writes succeed, [mt] what times [stat] finds on the two files of a table. *)

From Stdlib Require Import String.
From S2P Require Import Prelude CString Lexer Parser Values Table Store LegacyRow LegacyCache LegacyIndex DeltaLog LegacyTable LegacySelect LegacyWrite LegacySnapshot.
From stdpp Require Import base numbers list option gmap.
Local Open Scope Z_scope.

Definition MAX_TABLES : nat := 1.

(** [<table>.csv], [<table>.delta] and [<table>.idx]. *)
Record Files := mkFiles { csv : option cstr; delta : option cstr; idx : option cstr }.

(** An entry of [open_tables]. *)
Record Open := mkOpen { o_table : Table; o_snap : Snap; last_used_seq : Z }.

(** [open_table_count] is the length of [open_tables]. *)
Record Exec := mkExec { open_tables : list Open; g_table_access_seq : Z; disk : gmap cstr Files }.

Definition o_name (o : Open) : cstr := LegacySnapshot.table_name (o_snap o).

Definition files_of (d : gmap cstr Files) (name : cstr) : Files := default (mkFiles None None None) (d !! name).

Section executor.
Context (io : nat → bool) (mt : cstr → Z * Z).

(** What [stat] finds while the table [o] is open. *)
Definition times (d : gmap cstr Files) (name : cstr) : Times := mkTimes (csv (files_of d name)) (mt name).1 (mt name).2.

(** ** Closing *)

(** The log is closed: its batch too, when that can be written. *)
Definition close_log (d : Delta) : Delta := if delta_file d then (close_delta_batch io d).2 else d.

(** [free_table_storage]: the directory afterwards. The arrays of the slots are there
    once a row was. *)
Definition free_table_storage (d : gmap cstr Files) (o : Open) : option (gmap cstr Files) :=
  let t := o_table o in let name := o_name o in
  '(_, t1, s1) ← (if (0 <? col_count (c_hdr (t_cache t)))%nat && (0 <? record_capacity (c_slots (t_cache t)))
                  then save_index_snapshot io (times d name) t (o_snap o)
                  else Some (true, t, o_snap o));
  Some (<[name := mkFiles (match c_file (t_cache t1) with Some f => Some f | None => csv (files_of d name) end)
                    (log_text (close_log (t_delta t1))) (idx_file s1)]> d).

(** [compact_table_file_for_shutdown] as a whole: the file is written anew, the log and
    the snapshot are removed, the table lets go of its file. The slots stay as they are. *)
Definition compact_for_shutdown (d : gmap cstr Files) (o : Open) : option (bool * gmap cstr Files * Open) :=
  let t := o_table o in
  match c_file (t_cache t) with
  | None => Some (true, d, o)
  | Some _ =>
      '(text, c1) ← table_text (t_cache t);
      let t1 := set_cache t c1 in
      match text with
      | None => Some (false, d, mkOpen t1 (o_snap o) (last_used_seq o))
      | Some x =>
          let '(ok, dl) := if delta_file (t_delta t1) then close_delta_batch io (t_delta t1) else (true, t_delta t1) in
          if negb ok then Some (false, d, mkOpen (set_delta t1 dl) (o_snap o) (last_used_seq o))
          else
            let t2 := set_delta (set_cache t1 (set_file c1 None)) (mkDelta None 0 false false 0 0) in
            let s2 := remove_index_snapshot (o_snap o) in
            Some (true, <[o_name o := mkFiles (Some x) None None]> d, mkOpen t2 s2 (last_used_seq o))
      end
  end.

(** One round of [close_all_tables]. *)
Definition close_table (d : gmap cstr Files) (o : Open) : option (gmap cstr Files) :=
  let t := o_table o in
  '(d1, o1) ← (if match c_file (t_cache t) with Some _ => true | None => false end && negb (cache_truncated t) &&
                  (active_count (c_slots (t_cache t)) <=? ROW_CACHE_LIMIT) && delta_log_exists (t_delta t)
               then '(_, d1, o1) ← compact_for_shutdown d o; Some (d1, o1)
               else Some (d, o));
  free_table_storage d1 o1.

Fixpoint close_tables (os : list Open) (d : gmap cstr Files) : option (gmap cstr Files) :=
  match os with
  | [] => Some d
  | o :: os' => d1 ← close_table d o; close_tables os' d1
  end.

Definition close_all_tables (e : Exec) : option Exec :=
  d ← close_tables (open_tables e) (disk e);
  Some (mkExec [] (g_table_access_seq e) d).

(** ** Opening *)

Definition touch_table (e : Exec) (i : nat) (o : Open) : Exec :=
  let seq := g_table_access_seq e + 1 in
  mkExec (<[i := mkOpen (o_table o) (o_snap o) seq]> (open_tables e)) seq (disk e).

(** The table used longest ago: the loop from entry [i] on. *)
Fixpoint lru_from (os : list Open) (i best : nat) (oldest : Z) : nat :=
  match os with
  | [] => best
  | o :: os' => if last_used_seq o <? oldest then lru_from os' (S i) i (last_used_seq o) else lru_from os' (S i) best oldest
  end.

Definition find_lru_table_index (os : list Open) : nat :=
  match os with
  | [] => 0
  | o :: os' => lru_from os' 1 0 (last_used_seq o)
  end.

Fixpoint find_open (name : cstr) (i : nat) (os : list Open) : option (nat * Open) :=
  match os with
  | [] => None
  | o :: os' => if streq (o_name o) name then Some (i, o) else find_open name (S i) os'
  end.

(** [load_table_contents] into the entry [i], which is new or was freed. When it fails
    the entry is freed, and given up if it is the last one; an entry that is freed and
    stays (there can be none with one table) is not modelled. *)
Definition load_into (i : nat) (name file : cstr) (e : Exec) : option (option nat * Exec) :=
  let fs := files_of (disk e) name in
  let seq := g_table_access_seq e + 1 in
  '(ok, t, s) ← open_table io (times (disk e) name) name file (delta fs) (idx fs);
  let o := mkOpen t s seq in
  if (ok : bool) then Some (Some i, mkExec (take i (open_tables e) ++ o :: drop (S i) (open_tables e)) seq (disk e))
  else
    d ← free_table_storage (disk e) o;
    if (length (open_tables e) <=? S i)%nat then Some (None, mkExec (take i (open_tables e)) seq d) else None.

Definition get_table (name : cstr) (e : Exec) : option (option nat * Exec) :=
  match find_open name 0 (open_tables e) with
  | Some (i, o) => Some (Some i, touch_table e i o)
  | None =>
      match csv (files_of (disk e) name) with
      | None => Some (None, e)
      | Some file =>
          if (length (open_tables e) <? MAX_TABLES)%nat then load_into (length (open_tables e)) name file e
          else
            let i := find_lru_table_index (open_tables e) in
            o ← open_tables e !! i;
            d ← free_table_storage (disk e) o;
            load_into i name file (mkExec (open_tables e) (g_table_access_seq e) d)
      end
  end.

(** ** The statements *)

Inductive Reply :=
| NoTable | Inserted (r : InsertResult) | Written (r : WriteResult) | Selected (ok : bool) (o : Out) | BadSql | TooLong.

(** What the snapshot of a table is after its file was written anew and loaded: the
    table [t'] is as it was loaded, from a directory without a snapshot. *)
Definition snap_reloaded (tm : Times) (t' : Table) (s : Snap) : Snap :=
  match c_file (t_cache t') with
  | Some f => match open_table io tm (LegacySnapshot.table_name s) f (log_text (t_delta t')) None with Some (_, _, s') => s' | None => s end
  | None => s
  end.

(** [insert_row_data] loads the table anew when it is full and has a log. *)
Definition snap_inserted (tm : Times) (t : Table) (r : InsertResult) (s : Snap) : Snap :=
  let s1 :=
    if negb (cache_truncated t) && (MAX_RECORDS <=? active_count (c_slots (t_cache t))) && delta_log_exists (t_delta t) then
      match r, rewrite_file io t with
      | InsRefused _, _ | _, None => s
      | _, Some (_, t1) => if delta_log_exists (t_delta t1) then s else snap_reloaded tm t1 s
      end
    else s in
  match r with
  | InsDone _ => mkSnap (LegacySnapshot.table_name s1) (idx_file s1) (snapshot_loaded s1) true
  | _ => s1
  end.

(** An UPDATE or DELETE that changed rows has left a log, or has written the file anew:
    when the log grew too long, or when not all rows are in memory. *)
Definition snap_written (tm : Times) (t t' : Table) (r : WriteResult) (s : Snap) : Snap :=
  match r with
  | WDone _ => if cache_truncated t || negb (delta_log_exists (t_delta t')) then snap_reloaded tm t' s else s
  | _ => s
  end.

(** A statement on the open table [o]. *)
Definition run_on (d : gmap cstr Files) (stmt : Statement) (o : Open) : option (Reply * Open) :=
  let t := o_table o in let s := o_snap o in let tm := times d (o_name o) in
  match stype stmt with
  | STMT_INSERT =>
      '(r, t') ← insert_row_data io t (row_data stmt);
      Some (Inserted r, mkOpen t' (snap_inserted tm t r s) (last_used_seq o))
  | STMT_SELECT =>
      '(ok, out, t') ← execute_select_internal t stmt true;
      Some (Selected ok out, mkOpen t' s (last_used_seq o))
  | STMT_DELETE =>
      '(r, t') ← execute_delete io t stmt;
      Some (Written r, mkOpen t' (snap_written tm t t' r s) (last_used_seq o))
  | STMT_UPDATE =>
      '(r, t') ← execute_update io t stmt;
      Some (Written r, mkOpen t' (snap_written tm t t' r s) (last_used_seq o))
  | STMT_UNRECOGNIZED => Some (BadSql, o)
  end.

(** [execute_insert], [execute_select], [execute_delete] and [execute_update]. *)
Definition execute_statement (stmt : Statement) (e : Exec) : option (Reply * Exec) :=
  '(found, e1) ← get_table (Parser.table_name stmt) e;
  match found with
  | None => Some (NoTable, e1)
  | Some i =>
      o ← open_tables e1 !! i;
      '(r, o') ← run_on (disk e1) stmt o;
      Some (r, mkExec (<[i := o']> (open_tables e1)) (g_table_access_seq e1) (disk e1))
  end.
End executor.
