(* ===== verification/Jungle.v ===== *)
(** The data set of applicants of the stand-alone executor and the two benchmarks,
    [src/legacy/executor.c]: [build_jungle_*], [generate_jungle_dataset],
    [run_jungle_benchmark] and [run_bplus_benchmark]. The numbers of rows are positive;
    writes to new files succeed. *)

From Stdlib Require Import String.
From S2P Require Import Prelude CString BPTreeIndex Parser Values Table Store LegacyRow LegacyCache LegacyIndex DeltaLog LegacyTable LegacySelect LegacyWrite LegacySnapshot Executor.
From stdpp Require Import base numbers list option gmap.
Local Open Scope Z_scope.

(** ** The fields *)

(** [%0<width>d] of a number that is not negative. *)
Definition print_pad (width : nat) (n : Z) : cstr := replicate (width - length (print_Z n)) 48 ++ print_Z n.

(** An entry of a static array. *)
Definition entry (xs : list string) (i : Z) : cstr := lit (nth (Z.to_nat i) xs EmptyString).

Definition jungle_track_for_id (id : Z) : cstr := entry ["sw_ai_lab"; "game_lab"; "game_tech_lab"]%string (Z.rem (id - 1) 3).

Inductive Background := student | newgrad | incumbent | switcher | selftaught.

Definition background_text (b : Background) : cstr :=
  lit (match b with
       | student => "student" | newgrad => "newgrad" | incumbent => "incumbent" | switcher => "switcher" | selftaught => "selftaught"
       end).

Definition jungle_background_for_id (id : Z) : Background :=
  let bucket := Z.rem (id - 1) 100 in
  if bucket <? 62 then student
  else if bucket <? 74 then newgrad
  else if bucket <? 86 then incumbent
  else if bucket <? 95 then switcher
  else selftaught.

Definition jungle_pretest_for_id (id : Z) : Z :=
  let mixed := id * 73 + Z.rem (id - 1) 97 * 19 + 17 in 35 + Z.rem mixed 66.

Definition majors : list string :=
  ["cs"; "software"; "ai"; "game"; "math"; "physics"; "stats"; "design"; "ee"; "business"; "english"; "biology"]%string.
Definition incumbent_roles : list string := ["backend"; "frontend"; "data"; "infra"; "qa"; "game_client"; "game_server"]%string.
Definition switcher_roles : list string := ["designer"; "teacher"; "marketer"; "pm"; "sales"; "mechanical"; "accounting"]%string.
Definition selftaught_routes : list string := ["selftaught"; "bootcamp"; "indie"; "academy"]%string.

Definition count_of (xs : list string) : Z := Z.of_nat (length xs).

Definition build_jungle_history (id : Z) (background : Background) (buffer_size : nat) : cstr :=
  let major := entry majors (Z.rem (Z.quot (id - 1) 3) (count_of majors)) in
  strcpy_sz buffer_size
    match background with
    | student => lit "major_" ++ major ++ lit "_grade_" ++ print_Z (Z.rem (Z.quot (id - 1) 7) 4 + 1)
    | newgrad => lit "major_" ++ major ++ lit "_graduate"
    | incumbent =>
        entry incumbent_roles (Z.rem (Z.quot (id - 1) 5) (count_of incumbent_roles)) ++ lit "_" ++
        print_Z (Z.rem (Z.quot (id - 1) 11) 6 + 1) ++ lit "y"
    | switcher =>
        entry switcher_roles (Z.rem (Z.quot (id - 1) 9) (count_of switcher_roles)) ++ lit "_" ++
        print_Z (Z.rem (Z.quot (id - 1) 13) 8 + 1) ++ lit "y"
    | selftaught =>
        entry selftaught_routes (Z.rem (Z.quot (id - 1) 17) (count_of selftaught_routes)) ++ lit "_" ++
        print_Z ((Z.rem (Z.quot (id - 1) 19) 9 + 1) * 6) ++ lit "m"
    end.

Definition build_jungle_github (id : Z) (background : Background) (buffer_size : nat) : cstr :=
  let bucket := Z.rem (id * 29 + 7) 100 in
  strcpy_sz buffer_size
    (if match background with
        | student => bucket <? 18 | newgrad => bucket <? 8 | switcher => bucket <? 10 | selftaught => bucket <? 6 | incumbent => false
        end
     then lit "none" else lit "gh_" ++ print_pad 7 id).

Definition jungle_status_for_id (id pretest : Z) : cstr :=
  lit (if Z.rem id 113 =? 0 then "withdrawn"
       else if 98 <=? pretest then "final_pass"
       else if 90 <=? pretest then "final_wait"
       else if 80 <=? pretest then "interview_wait"
       else if 65 <=? pretest then "pretest_pass"
       else if 50 <=? pretest then "submitted"
       else "rejected").

Definition build_jungle_email (id : Z) (buffer_size : nat) : cstr := strcpy_sz buffer_size (lit "jungle" ++ print_pad 7 id ++ lit "@apply.kr").

Definition build_jungle_phone (id : Z) (buffer_size : nat) : cstr :=
  strcpy_sz buffer_size (lit "010-" ++ print_pad 4 (Z.quot id 10000) ++ lit "-" ++ print_pad 4 (Z.rem id 10000)).

Definition surnames : list string :=
  ["김"; "이"; "박"; "최"; "정"; "강"; "조"; "윤"; "장"; "임"; "한"; "오"; "서"; "신"; "권"; "황"; "안"; "송"; "전"; "홍"]%string.

Definition first_syllables : list string :=
  ["민"; "서"; "지"; "도"; "하"; "수"; "예"; "시"; "현"; "준"; "유"; "주"; "다"; "윤"; "태"; "선";
   "건"; "채"; "승"; "정"; "호"; "은"; "재"; "가"; "나"; "라"; "마"; "소"; "아"; "연"; "원"; "진";
   "혜"; "규"; "한"; "슬"; "보"; "새"; "강"; "온"; "루"; "단"; "류"; "리"; "해"; "별"; "솔"; "율"]%string.

Definition second_syllables : list string :=
  ["준"; "연"; "후"; "윤"; "린"; "민"; "아"; "우"; "서"; "진"; "수"; "영"; "원"; "호"; "혜"; "현";
   "지"; "인"; "온"; "별"; "율"; "나"; "리"; "빈"; "솔"; "람"; "훈"; "석"; "비"; "담"; "새"; "균";
   "채"; "한"; "태"; "경"; "슬"; "주"; "재"; "강"; "선"; "도"; "희"; "휘"; "록"; "봄"; "혁"; "화"]%string.

Definition build_jungle_name (id : Z) (buffer_size : nat) : cstr :=
  let surname_idx := Z.rem (id - 1) (count_of surnames) in
  let given_combo := Z.rem (Z.quot (id - 1) (count_of surnames)) (count_of first_syllables * count_of second_syllables) in
  strcpy_sz buffer_size
    (entry surnames surname_idx ++ entry first_syllables (Z.quot given_combo (count_of second_syllables)) ++
     entry second_syllables (Z.rem given_combo (count_of second_syllables))).

(** The texts that both kinds of row have, in order. *)
Definition jungle_fields (id : Z) : list cstr :=
  let background := jungle_background_for_id id in
  let pretest := jungle_pretest_for_id id in
  [build_jungle_email id 64; build_jungle_phone id 32; build_jungle_name id 64; jungle_track_for_id id; background_text background;
   build_jungle_history id background 64; print_Z pretest; build_jungle_github id background 32; jungle_status_for_id id pretest; lit "2026_spring"].

(** The texts with commas between them. *)
Definition commas (fs : list cstr) : cstr := match fs with [] => [] | f :: fs' => f ++ concat (map (fun g => COMMA :: g) fs') end.

Definition build_jungle_row_data (id : Z) (buffer_size : nat) : cstr := strcpy_sz buffer_size (commas (jungle_fields id)).

Definition build_jungle_csv_record (id : Z) (buffer_size : nat) : cstr := strcpy_sz buffer_size (commas (print_Z id :: jungle_fields id)).

(** ** The data set *)

Definition JUNGLE_BENCHMARK_TABLE : cstr := lit "jungle_benchmark_users".

Definition JUNGLE_BENCHMARK_HEADER : cstr :=
  lit "id(PK),email(UK),phone(UK),name,track(NN),background,history,pretest,github,status,round" ++ [NL].

Definition clamp_record_count (record_count minimum : Z) : Z :=
  let record_count := if record_count <? minimum then minimum else record_count in
  if MAX_RECORDS <? record_count then MAX_RECORDS else record_count.

(** The rows from [i] on. *)
Fixpoint jungle_lines (n : nat) (i : Z) : cstr :=
  match n with
  | O => []
  | S n' => build_jungle_csv_record i 512 ++ [NL] ++ jungle_lines n' (i + 1)
  end.

(** The text of the new file; nothing is done when there is a file already. *)
Definition generate_jungle_dataset (record_count : Z) (path_exists : bool) : option cstr :=
  let record_count := clamp_record_count (if record_count <=? 0 then 1000000 else record_count) 1 in
  if path_exists then None else Some (JUNGLE_BENCHMARK_HEADER ++ jungle_lines (Z.to_nat record_count) 1).

(** ** The benchmark *)

Definition init_eq_select_statement (table where_col : cstr) : Statement :=
  mkStmt STMT_SELECT (strcpy_sz TABLE_SIZE table) [] true [] [] [] [mkCond WHERE_EQ (strcpy_sz COL_SIZE (strcpy_sz COL_SIZE where_col)) [] []]
    WHERE_EQ (strcpy_sz COL_SIZE where_col) [] [].

Definition set_eq_select_value (st : Statement) (value : cstr) : Statement :=
  let v := strcpy_sz VAL_SIZE value in
  mkStmt (stype st) (Parser.table_name st) (row_data st) (select_all st) (select_cols st) (set_col st) (set_val st)
    (match where_conditions st with
     | c :: cs => mkCond (wc_type c) (wc_col c) (strcpy_sz VAL_SIZE v) [] :: cs
     | [] => []
     end) (where_type st) (where_col st) v (where_end_val st).

Definition ensure_jungle_benchmark_artifacts_absent (d : gmap cstr Files) : bool :=
  match files_of d JUNGLE_BENCHMARK_TABLE with mkFiles None None None => true | _ => false end.

(** The key of query [i]; the product is in the range of an int. *)
Definition query_key (record_count i : Z) : Z := Z.rem (i * 7919) record_count + 1.

Inductive BenchResult := BenchStopped | BenchFailed | BenchDone (matched_checks : Z).

Section benchmark.
Context (io : nat → bool) (mt : cstr → Z * Z).

(** [execute_select_internal] on the table that the statement names, without output. *)
Definition select_quietly (stmt : Statement) (e : Exec) : option (bool * Out * Exec) :=
  '(found, e1) ← get_table io mt (Parser.table_name stmt) e;
  match found with
  | None => Some (false, o0, e1)
  | Some k =>
      o ← open_tables e1 !! k;
      '(ok, out, t1) ← execute_select_internal (o_table o) stmt false;
      Some (ok, out, mkExec (<[k := mkOpen t1 (o_snap o) (last_used_seq o)]> (open_tables e1)) (g_table_access_seq e1) (disk e1))
  end.

(** The loop over the queries of one kind, [n] more from [i] on, and how many found a
    row; [false]: one found none, or failed. *)
Fixpoint run_queries (n : nat) (i : Z) (target : Z → cstr) (stmt : Statement) (e : Exec) (matched_checks : Z) : option (bool * Z * Exec) :=
  match n with
  | O => Some (true, matched_checks, e)
  | S n' =>
      '(ok, out, e1) ← select_quietly (set_eq_select_value stmt (target i)) e;
      if negb (ok : bool) || ((out : Out).1 <=? 0) then Some (false, matched_checks, e1)
      else run_queries n' (i + 1) target stmt e1 (matched_checks + 1)
  end.

(** The four kinds: their numbers, columns and values. *)
Definition jungle_queries (record_count : Z) : list (nat * cstr * (Z → cstr)) :=
  [(Z.to_nat 100000, lit "id", fun i => print_Z (query_key record_count i));
   (Z.to_nat 100000, lit "email", fun i => build_jungle_email (query_key record_count i) 64);
   (Z.to_nat 100000, lit "phone", fun i => build_jungle_phone (query_key record_count i) 32);
   (30%nat, lit "name", fun i => build_jungle_name (query_key record_count i) 64)].

Fixpoint run_query_kinds (qs : list (nat * cstr * (Z → cstr))) (e : Exec) (matched_checks : Z) : option (bool * Z * Exec) :=
  match qs with
  | [] => Some (true, matched_checks, e)
  | (n, col, target) :: qs' =>
      '(ok, checks, e1) ← run_queries n 0 target (init_eq_select_statement JUNGLE_BENCHMARK_TABLE col) e matched_checks;
      if (ok : bool) then run_query_kinds qs' e1 checks else Some (false, checks, e1)
  end.

(** The loop that inserts the rows, [n] more from [i] on. *)
Fixpoint insert_rows (tm : Times) (n : nat) (i : Z) (t : Table) (s : Snap) : option (bool * Table * Snap) :=
  match n with
  | O => Some (true, t, s)
  | S n' =>
      '(r, t1) ← insert_row_data io t (build_jungle_row_data i 512);
      let s1 := snap_inserted io tm t r s in
      match r with
      | InsDone _ => insert_rows tm n' (i + 1) t1 s1
      | _ => Some (false, t1, s1)
      end
  end.

Definition run_jungle_benchmark (record_count : Z) (e : Exec) : option (BenchResult * Exec) :=
  let name := JUNGLE_BENCHMARK_TABLE in
  let record_count := clamp_record_count (if record_count <=? 0 then 1000000 else record_count) 1000000 in
  e1 ← close_all_tables io mt e;
  if negb (ensure_jungle_benchmark_artifacts_absent (disk e1)) then Some (BenchStopped, e1)
  else
    '(found, e2) ← get_table io mt name (mkExec [] (g_table_access_seq e1) (<[name := mkFiles (Some JUNGLE_BENCHMARK_HEADER) None None]> (disk e1)));
    match found with
    | None => Some (BenchFailed, e2)
    | Some k =>
        o ← open_tables e2 !! k;
        '(ok, t1, s1) ← insert_rows (times mt (disk e2) name) (Z.to_nat record_count) 1 (o_table o) (o_snap o);
        let e3 := mkExec (<[k := mkOpen t1 s1 (last_used_seq o)]> (open_tables e2)) (g_table_access_seq e2) (disk e2) in
        if negb (ok : bool) then Some (BenchFailed, e3)
        else
          '(ok2, checks, e4) ← run_query_kinds (jungle_queries record_count) e3 0;
          Some (if (ok2 : bool) then BenchDone checks else BenchFailed, e4)
    end.
End benchmark.

(** ** The benchmark of the trees *)

Definition PERF_TABLE : cstr := lit "bptree_perf_users".
Definition PERF_HEADER : cstr := lit "id(PK),email(UK),payload(NN),name" ++ [NL].

Definition perf_email (i : Z) : cstr := strcpy_sz 64 (lit "user" ++ print_pad 7 i ++ lit "@test.com").

(** The row [i] with the name [User] or [Updated]. *)
Definition perf_line (name : string) (i : Z) : cstr :=
  strcpy_sz RECORD_SIZE (print_Z i ++ [COMMA] ++ perf_email i ++ lit ",payload" ++ print_Z i ++ [COMMA] ++ lit name ++ print_Z i).

(** The rows go to the file and into slots, not into the trees: the loop from row [i] on,
    [n] rows, and the pairs for the trees. [None]: the table has no file. *)
Fixpoint bulk_rows (n : nat) (i : Z) (t : Table) : option (bool * Table * list (Z * Z) * list (cstr * Z)) :=
  match n with
  | O => Some (true, t, [], [])
  | S n' =>
      let line := perf_line "User" i in
      f ← c_file (t_cache t);
      row_offset ← append_position t (Some f);
      let t1 := append_to_file (set_append_offset t row_offset) f line in
      let c := t_cache t1 in
      '(slot, s) ← append_record_raw_memory (c_slots c) line (next_row_id c) row_offset;
      let t2 := set_cache t1 (set_slots (set_next c (next_auto_id c) (next_row_id c + 1)) s) in
      match slot with
      | None => Some (false, t2, [], [])
      | Some k =>
          '(ok, t3, id_pairs, uk_pairs) ← bulk_rows n' (i + 1) t2;
          Some (ok, t3, (i, k) :: id_pairs, (perf_email i, k) :: uk_pairs)
      end
  end.

(** The trees of the [n] rows; that of the one unique column is there since the table
    was opened. *)
Definition bulk_trees (n : Z) (id_pairs : list (Z * Z)) (uk_pairs : list (cstr * Z)) (t : Table) : option (bool * Table) :=
  let c := set_next (t_cache t) (n + 1) (next_row_id (t_cache t)) in
  let '(ok, tr) := ix_build (c_id c) id_pairs in
  let c1 := set_id c tr in
  if negb ok || negb (length (h_uks (c_hdr c1)) =? 1)%nat then Some (false, set_cache t c1)
  else
    u ← uk_tree_at c1 0;
    let '(ok, u') := ix_build u uk_pairs in
    Some (ok, set_cache t (set_uk c1 0 u')).

(** A loop of [n] lookups from [i] on: how many find a slot. *)
Fixpoint count_found (n : nat) (i : Z) (search : Z → option (option Z)) (found : Z) : option Z :=
  match n with
  | O => Some found
  | S n' =>
      r ← search i;
      count_found n' (i + 1) search (match r with Some row_index => if 0 <=? row_index then found + 1 else found | None => found end)
  end.

(** The one query by name, over the names that were kept. *)
Definition linear_found (n : Z) : Z :=
  let name_values := map (fun i => strcpy_sz 32 (lit "User" ++ print_Z i)) (seqZ 1 n) in
  let target := strcpy_sz 64 (lit "User" ++ print_Z (n - Z.rem 0 n)) in
  if existsb (fun v => streq v target) name_values then 1 else 0.

Definition perf_lookups (n : Z) (c : Cache) : option Z :=
  found ← count_found (Z.to_nat 50000) 0 (fun i => Some (ix_search (c_id c) (query_key n i))) 0;
  found ← count_found (Z.to_nat 50000) 0 (fun i => find_uk_row c 1 (perf_email (query_key n i))) found;
  Some (found + linear_found n).

Section perf.
Context (io : nat → bool) (mt : cstr → Z * Z).

(** The loop of the changes. [None]: the tree gives a slot that there is not. *)
Fixpoint perf_updates (n : nat) (i : Z) (t : Table) : option (bool * Table) :=
  match n with
  | O => Some (true, t)
  | S n' =>
      let c := t_cache t in let s := c_slots c in
      match ix_search (c_id c) i with
      | None => Some (false, t)
      | Some k =>
          if (k <? 0) || (record_count s <=? k) then None
          else
            let sl := slot_at s k in
            let put row := set_cache t (set_slots c (set_slot s k (mkSlot row (s_active sl) (s_id sl) ROW_STORE_MEMORY (-1) false 0))) in
            let '(ok, d) := append_delta_key io (DeltaUpdate i (perf_line "Updated" i)) (t_delta t) in
            if (ok : bool) then perf_updates n' (i + 1) (set_delta (put (Some (perf_line "Updated" i))) d) else Some (false, set_delta (put None) d)
      end
  end.

(** The loop of the removals; the trees keep their entries. *)
Fixpoint perf_deletes (n : nat) (i : Z) (t : Table) : bool * Table :=
  match n with
  | O => (true, t)
  | S n' =>
      let c := t_cache t in let s := c_slots c in let k := i - 1 in
      if negb (slot_is_active s k) then (false, t)
      else
        let '(ok, d) := append_delta_key io (DeltaDelete i) (t_delta t) in
        if negb (ok : bool) then (false, set_delta t d)
        else
          let sl := slot_at s k in
          let s1 := set_counts (set_slot s k (mkSlot None false (s_id sl) ROW_STORE_NONE 0 false 0)) (active_count s - 1) (uncount s sl) in
          perf_deletes n' (i + 1) (set_delta (set_cache t (set_slots c (push_free_slot s1 k))) d)
  end.

(** [maybe_compact_delta_log]: the file may be written anew and loaded. *)
Definition perf_compact (tm : Times) (t : Table) (s : Snap) : option (bool * Table * Snap) :=
  '(ok, t1) ← maybe_compact_delta_log io t;
  Some (ok, t1, if (ok : bool) && negb (delta_log_exists (t_delta t1)) then snap_reloaded io tm t1 s else s).

(** What follows the lookups. *)
Definition perf_changes (tm : Times) (n : nat) (t : Table) (s : Snap) : option (bool * Table * Snap) :=
  '(ok, t1) ← perf_updates n 1 t;
  if negb (ok : bool) then Some (false, t1, s)
  else
    '(ok, t2, s2) ← perf_compact tm t1 s;
    if negb (ok : bool) then Some (false, t2, s2)
    else
      let '(ok, t3) := perf_deletes n 1 t2 in
      if negb ok then Some (false, t3, s2) else perf_compact tm t3 s2.

(** Stopped by an error, or finished: the matched checks and the rows that are left. *)
Inductive PerfResult := PerfFailed | PerfDone (found active : Z).

(** What is done with the open table. *)
Definition perf_table (tm : Times) (n : Z) (t : Table) (s : Snap) : option (PerfResult * Table * Snap) :=
  '(ok, t1, id_pairs, uk_pairs) ← bulk_rows (Z.to_nat n) 1 t;
  if negb (ok : bool) then Some (PerfFailed, t1, s)
  else
    '(ok, t2) ← bulk_trees n id_pairs uk_pairs t1;
    if negb (ok : bool) then Some (PerfFailed, t2, s)
    else
      found ← perf_lookups n (t_cache t2);
      '(ok, t3, s3) ← perf_changes tm (Z.to_nat n) t2 s;
      Some (if (ok : bool) then PerfDone found (active_count (c_slots (t_cache t3))) else PerfFailed, t3, s3).

Definition perf_count (record_count : Z) : Z :=
  let record_count := if record_count <=? 0 then 1 else record_count in
  if MAX_RECORDS <? record_count then MAX_RECORDS else record_count.

Definition run_bplus_benchmark (record_count : Z) (e : Exec) : option (PerfResult * Exec) :=
  let name := PERF_TABLE in
  e1 ← close_all_tables io mt e;
  let files := mkFiles (Some PERF_HEADER) None (idx (files_of (disk e1) name)) in
  '(found, e2) ← get_table io mt name (mkExec [] (g_table_access_seq e1) (<[name := files]> (disk e1)));
  match found with
  | None => Some (PerfFailed, e2)
  | Some k =>
      o ← open_tables e2 !! k;
      '(r, t, s) ← perf_table (times mt (disk e2) name) (perf_count record_count) (o_table o) (o_snap o);
      Some (r, mkExec (<[k := mkOpen t s (last_used_seq o)]> (open_tables e2)) (g_table_access_seq e2) (disk e2))
  end.
End perf.
