(* ===== verification/LegacySnapshotProofs.v ===== *)
(** The snapshot of a table is read back as it was written, and what a table loaded
    from it holds. *)

From Stdlib Require Import String.
From S2P Require Import Prelude CString Scanf BPTree BPTreeProofs BPTreeSpec BPTreeScan BPTreeString BPTreeIndex Parser Values Table Store StoreProofs.
From S2P Require Import LegacyRow LegacyRowProofs LegacyCache LegacyCacheProofs LegacyIndex LegacyIndexProofs DeltaLog DeltaLogProofs LegacyTable LegacyTableProofs LegacyLoadProofs LegacySnapshot.
From stdpp Require Import base numbers list sorting option.
Local Open Scope Z_scope.

(** ** Lines *)

Lemma read_line l rest :
  forallb line_char l = true → (length l < DELTA_LINE_SIZE - 1)%nat → read_expected_line (l ++ NL :: rest) = Some (l, rest).
Proof.
  intros Hl Hn. unfold read_expected_line. destruct (l ++ NL :: rest) as [|x s] eqn:E; [by destruct l|]. rewrite <- E.
  rewrite fgets_line by done. by rewrite cut_nl_line.
Qed.

Definition line_fmt (ds : list Directive) : bool := forallb (fun d => match d with DChar c => line_char c | _ => true end) ds.

Definition words_length (args : list Arg) : nat := sum_list_with (fun a => match a with AText w => length w | ANum _ => 0%nat end) args.

Lemma line_char_nonspace w : forallb (fun c => negb (isspace c)) w = true → forallb line_char w = true.
Proof.
  intros H. apply forallb_forall. intros c Hc. rewrite forallb_forall in H. specialize (H c Hc). apply negb_true_iff in H.
  unfold line_char, NL, CR. unfold isspace in H. apply orb_false_iff in H as [_ H]. apply andb_false_iff in H.
  rewrite !Z.leb_gt in H. rewrite !(proj2 (Z.eqb_neq _ _)) by lia. done.
Qed.

Lemma sprintf_line ds args : fits ds args → line_fmt ds = true → forallb line_char (sprintf ds args) = true.
Proof.
  revert args; induction ds as [|d ds IH]; intros args Hf Hl; [done|]. cbn [line_fmt forallb] in Hl. apply andb_true_iff in Hl as [Hd Hl].
  destruct d as [c| | |k]; cbn [fits sprintf] in *.
  - destruct Hf as [_ Hf]. cbn [forallb]. rewrite Hd. by apply IH.
  - destruct args as [|[n|] args]; try done. destruct Hf as (_ & _ & Hf). rewrite forallb_app, (proj1 (print_Z_line n)). by apply IH.
  - destruct args as [|[n|] args]; try done. destruct Hf as (_ & _ & Hf). rewrite forallb_app, (proj1 (print_Z_line n)). by apply IH.
  - destruct args as [|[|w] args]; try done. destruct Hf as (_ & Hw & _ & _ & Hf). rewrite forallb_app, line_char_nonspace by done. by apply IH.
Qed.

(** The most a format prints, its words apart. *)
Definition width (ds : list Directive) : nat := sum_list_with (fun d => match d with DChar _ => 1 | DStr _ => 0 | _ => 65 end)%nat ds.

Lemma sprintf_length ds args : fits ds args → (length (sprintf ds args) ≤ width ds + words_length args)%nat.
Proof.
  revert args; induction ds as [|d ds IH]; intros args Hf; [simpl; lia|].
  unfold width, words_length in *. destruct d as [c| | |k]; cbn [fits sprintf sum_list_with] in *.
  - destruct Hf as [_ Hf]. specialize (IH _ Hf). simpl. lia.
  - destruct args as [|[n|] args]; try done. destruct Hf as (Hn & _ & Hf). specialize (IH _ Hf). rewrite length_app.
    assert (LONG_MIN ≤ n ≤ LONG_MAX) as Hn' by (unfold INT_MIN, INT_MAX, LONG_MIN, LONG_MAX in *; lia).
    pose proof (print_Z_length n Hn'). simpl in *. lia.
  - destruct args as [|[n|] args]; try done. destruct Hf as (Hn & _ & Hf). specialize (IH _ Hf). rewrite length_app.
    pose proof (print_Z_length n Hn). simpl in *. lia.
  - destruct args as [|[|w] args]; try done. destruct Hf as (_ & _ & _ & _ & Hf). specialize (IH _ Hf). rewrite length_app. simpl in *. lia.
Qed.

Lemma sprintf_snoc ds args c : fits ds args → sprintf (ds ++ [DChar c]) args = sprintf ds args ++ [c].
Proof.
  revert args; induction ds as [|d ds IH]; intros args Hf; [by rewrite Hf|].
  destruct d as [x| | |k]; cbn [fits sprintf app] in *.
  - destruct Hf as [_ Hf]. by rewrite IH.
  - destruct args as [|[n|] args]; try done. destruct Hf as (_ & _ & Hf). by rewrite IH, app_assoc.
  - destruct args as [|[n|] args]; try done. destruct Hf as (_ & _ & Hf). by rewrite IH, app_assoc.
  - destruct args as [|[|w] args]; try done. destruct Hf as (_ & _ & _ & _ & Hf). by rewrite IH, app_assoc.
Qed.

(** A line that was printed with the format [fn] is scanned with the format [f]. *)
Lemma scan_printed f fn args rest :
  fmt fn = fmt f ++ [DChar NL] → line_fmt (fmt f) = true → fits (fmt f) args →
  (width (fmt f) + words_length args < DELTA_LINE_SIZE - 1)%nat →
  scan_line f (sprintf (fmt fn) args ++ rest) = Some (args, rest).
Proof.
  intros E Hl Hf Hn. unfold scan_line. rewrite E, sprintf_snoc, <- app_assoc by done. cbn [app].
  pose proof (sprintf_length _ _ Hf). rewrite read_line; [|by apply sprintf_line|lia].
  cbn [mbind option_bind]. by rewrite sscanf_sprintf.
Qed.

Lemma solid_print n s : solid (print_Z n ++ s) = true.
Proof.
  pose proof (print_Z_chars n) as H. assert (print_Z n ≠ []) as Hne.
  { destruct (print_Z_shape n) as (c & x & -> & _). done. }
  destruct (print_Z n) as [|c x]; [done|]. cbn [forallb app solid] in *. apply andb_true_iff in H as [H _].
  unfold num_char in H. apply orb_true_iff in H as [H|H]; [by rewrite isspace_digit|]. apply Z.eqb_eq in H as ->. done.
Qed.

Ltac in_range := unfold INT_MIN, INT_MAX, LONG_MIN, LONG_MAX, MAX_RECORDS in *; lia.

(** Arguments that are numbers in range fit a format of numbers between separators. *)
Ltac solve_fits := cbn; repeat first [split | done | in_range | (intros _; apply solid_print) ].

Lemma print_number_scan f fn n rest :
  fmt fn = fmt f ++ [DChar NL] → line_fmt (fmt f) = true → fits (fmt f) [ANum n] → (width (fmt f) ≤ 500)%nat →
  read_number f (sprintf (fmt fn) [ANum n] ++ rest) = Some (n, rest).
Proof.
  intros E Hl Hf Hn. unfold read_number. rewrite (scan_printed f fn); [done|done|done|done|].
  change (words_length [ANum n]) with 0%nat. unfold DELTA_LINE_SIZE, RECORD_SIZE. lia.
Qed.

Lemma read_id_count n rest : INT_MIN ≤ n ≤ INT_MAX → read_number "ID %d" (sprintf (fmt "ID %d\n") [ANum n] ++ rest) = Some (n, rest).
Proof. intros. apply print_number_scan; [done|done|solve_fits|simpl; lia]. Qed.

Lemma read_uk_count n rest :
  INT_MIN ≤ n ≤ INT_MAX → read_number "UKSECTIONS %d" (sprintf (fmt "UKSECTIONS %d\n") [ANum n] ++ rest) = Some (n, rest).
Proof. intros. apply print_number_scan; [done|done|solve_fits|simpl; lia]. Qed.

Lemma read_slot_count n rest : INT_MIN ≤ n ≤ INT_MAX → read_number "SLOTS %d" (sprintf (fmt "SLOTS %d\n") [ANum n] ++ rest) = Some (n, rest).
Proof. intros. apply print_number_scan; [done|done|solve_fits|simpl; lia]. Qed.

(** ** The head *)

Definition stamp_ok (st : FileStamp) : Prop :=
  0 ≤ fs_exists st ≤ 1 ∧ LONG_MIN ≤ fs_size st ≤ LONG_MAX ∧ LONG_MIN ≤ fs_mtime st ≤ LONG_MAX.

Lemma read_stamp_printed f fn st rest :
  fmt fn = fmt f ++ [DChar NL] → line_fmt (fmt f) = true → fits (fmt f) (stamp_args st) → (width (fmt f) ≤ 500)%nat →
  read_stamp f (sprintf (fmt fn) (stamp_args st) ++ rest) = Some (st, rest).
Proof.
  intros E Hl Hf Hn. unfold read_stamp. rewrite (scan_printed f fn); [by destruct st|done|done|done|].
  change (words_length (stamp_args st)) with 0%nat. unfold DELTA_LINE_SIZE, RECORD_SIZE. lia.
Qed.

Lemma read_csv_stamp st rest : stamp_ok st → read_stamp "CSV %d %ld %ld" (sprintf (fmt "CSV %d %ld %ld\n") (stamp_args st) ++ rest) = Some (st, rest).
Proof. intros (H1 & H2 & H3). apply read_stamp_printed; [done|done|solve_fits|simpl; lia]. Qed.

Lemma read_delta_stamp st rest :
  stamp_ok st → read_stamp "DELTA %d %ld %ld" (sprintf (fmt "DELTA %d %ld %ld\n") (stamp_args st) ++ rest) = Some (st, rest).
Proof. intros (H1 & H2 & H3). apply read_stamp_printed; [done|done|solve_fits|simpl; lia]. Qed.

(** Names that [%255s] reads whole. *)
Definition name_ok (name : cstr) : Prop :=
  name ≠ [] ∧ forallb (fun c => negb (isspace c)) name = true ∧ (length name ≤ 255)%nat.

#[global] Instance name_ok_dec name : Decision (name_ok name).
Proof. unfold name_ok. apply _. Defined.

Lemma read_table_printed name rest : name_ok name → read_table name (sprintf (fmt "TABLE %s\n") [AText name] ++ rest) = Some rest.
Proof.
  intros (H1 & H2 & H3). unfold read_table.
  change (sprintf (fmt "TABLE %s\n") [AText name]) with (sprintf (fmt "TABLE %255s\n") [AText name]).
  rewrite (scan_printed "TABLE %255s" "TABLE %255s\n"); [|done|done| |].
  - cbn [mbind option_bind]. by rewrite streq_refl.
  - cbn. split; [done|]. split; [done|]. split; [done|]. split; [done|]. split; [done|]. split.
    + intros _. destruct name as [|c name]; [done|]. cbn [forallb] in H2. by apply andb_true_iff in H2 as [? _].
    + split; [done|]. split; [done|]. split; [lia|]. done.
  - change (words_length [AText name]) with (length name + 0)%nat. change (width (fmt "TABLE %255s")) with 6%nat.
    unfold DELTA_LINE_SIZE, RECORD_SIZE. lia.
Qed.

Lemma skip_word_app w c s : forallb (fun c => negb (isspace c)) w = true → isspace c = true → skip_word (w ++ c :: s) = skip_space s.
Proof.
  intros Hw Hc. induction w as [|x w IH]; cbn [app skip_word forallb] in *.
  - rewrite Hc. simpl. by rewrite Hc.
  - apply andb_true_iff in Hw as [Hx%negb_true_iff Hw]. rewrite Hx. by apply IH.
Qed.

Lemma skip_word_all w : forallb (fun c => negb (isspace c)) w = true → skip_word w = [].
Proof. induction w as [|x w IH]; cbn; [done|]. intros [Hx%negb_true_iff Hw]%andb_true_iff. rewrite Hx. by apply IH. Qed.

Lemma print_Z_nonspace n : forallb (fun c => negb (isspace c)) (print_Z n) = true.
Proof.
  pose proof (print_Z_chars n) as H. rewrite forallb_forall in H |- *. intros c Hc. specialize (H c Hc).
  unfold num_char in H. apply orb_true_iff in H as [H|H]; [by rewrite isspace_digit|]. apply Z.eqb_eq in H as ->. done.
Qed.

Definition uk_numbers (us : list nat) : cstr := concat (map uk_number us).

Lemma uk_numbers_cons u us : uk_numbers (u :: us) = 32 :: print_Z (Z.of_nat u) ++ uk_numbers us.
Proof. unfold uk_numbers, uk_number. cbn. by rewrite app_nil_r. Qed.

Lemma uk_numbers_ends us : number_ends (uk_numbers us).
Proof. by destruct us. Qed.

Lemma skip_word_print n us : skip_word (print_Z n ++ uk_numbers us) = skip_space (uk_numbers us).
Proof.
  destruct us as [|u us].
  - change (uk_numbers []) with (@nil Z). rewrite app_nil_r. simpl. apply skip_word_all, print_Z_nonspace.
  - rewrite uk_numbers_cons. rewrite skip_word_app; [done|apply print_Z_nonspace|done].
Qed.

Lemma read_columns_ok us : Forall (fun u => (u < MAX_COLS)%nat) us → read_columns (length us) (skip_space (uk_numbers us)) = Some (map Z.of_nat us).
Proof.
  induction us as [|u us IH]; intros Hu; [done|]. apply Forall_cons_1 in Hu as [Hu Hus].
  rewrite uk_numbers_cons. cbn [skip_space length read_columns]. change (isspace 32) with true. cbv iota.
  rewrite skip_space_solid by apply solid_print. cbn [fmt sscanf]. unfold MAX_COLS in Hu.
  rewrite strtol_print_app; [|in_range|apply uk_numbers_ends]. cbn [st_conv st_val].
  rewrite to_int_id by in_range. rewrite skip_word_print, IH by done. done.
Qed.

Lemma sprintf_lit s ds args : sprintf (map DChar s ++ ds) args = s ++ sprintf ds args.
Proof. induction s as [|c s IH]; [done|]. cbn [map app sprintf]. by rewrite IH. Qed.

(** A header the schema line can describe. *)
Definition schema_ok (h : Header) : Prop :=
  (col_count h ≤ MAX_COLS)%nat ∧ (∀ p, h_pk h = Some p → (p < MAX_COLS)%nat) ∧ (length (h_uks h) ≤ MAX_UKS)%nat ∧
  Forall (fun u => (u < MAX_COLS)%nat) (h_uks h).

Definition schema_args (h : Header) : list Arg := [ANum (Z.of_nat (col_count h)); ANum (pk_number h); ANum (Z.of_nat (length (h_uks h)))].

Lemma uk_numbers_line us :
  Forall (fun u => (u < MAX_COLS)%nat) us → forallb line_char (uk_numbers us) = true ∧ (length (uk_numbers us) ≤ 66 * length us)%nat.
Proof.
  induction us as [|u us IH]; intros Hu; [split; [done|simpl; lia]|]. apply Forall_cons_1 in Hu as [Hu Hus]. destruct (IH Hus) as [H1 H2].
  rewrite uk_numbers_cons. unfold MAX_COLS in Hu. assert (LONG_MIN ≤ Z.of_nat u ≤ LONG_MAX) as Hr by in_range. pose proof (print_Z_length _ Hr). split.
  - cbn [forallb]. rewrite forallb_app, (proj1 (print_Z_line _)), H1. done.
  - cbn [length]. rewrite length_app. lia.
Qed.

Lemma read_schema_printed h rest :
  schema_ok h → read_schema h (sprintf (fmt "SCHEMA %d %d %d") (schema_args h) ++ uk_numbers (h_uks h) ++ [NL] ++ rest) = Some rest.
Proof.
  intros (Hc & Hp & Hu & Hus). unfold read_schema. destruct (uk_numbers_line _ Hus) as [Hl1 Hl2].
  assert (INT_MIN ≤ pk_number h ≤ INT_MAX) as Hpk.
  { unfold pk_number. destruct (h_pk h) as [p|]; [specialize (Hp p eq_refl); unfold MAX_COLS in Hp|]; in_range. }
  unfold MAX_COLS, MAX_UKS in *.
  assert (fits (fmt "SCHEMA %d %d %d") (schema_args h)) as Hf by solve_fits.
  rewrite app_assoc. cbn [app]. rewrite read_line.
  2:{ rewrite forallb_app, Hl1, sprintf_line by done. done. }
  2:{ rewrite length_app. pose proof (sprintf_length _ _ Hf) as Hn. change (width (fmt "SCHEMA %d %d %d")) with 204%nat in Hn.
      change (words_length (schema_args h)) with 0%nat in Hn. unfold DELTA_LINE_SIZE, RECORD_SIZE. lia. }
  cbn [mbind option_bind].
  assert (sprintf (fmt "SCHEMA %d %d %d") (schema_args h) ++ uk_numbers (h_uks h) =
    lit "SCHEMA " ++ print_Z (Z.of_nat (col_count h)) ++ 32 :: print_Z (pk_number h) ++ 32 :: print_Z (Z.of_nat (length (h_uks h))) ++ uk_numbers (h_uks h)) as ->.
  { change (fmt "SCHEMA %d %d %d") with (map DChar (lit "SCHEMA ") ++ [DInt; DChar 32; DInt; DChar 32; DInt]).
    rewrite sprintf_lit. unfold schema_args. cbn [sprintf]. rewrite app_nil_r, <- !app_assoc. cbn [app]. by rewrite <- !app_assoc. }
  assert (∀ a b : cstr, is_prefix a (a ++ b) = true) as Hpre by (induction a as [|x a IH]; intros b; simpl; [done|by rewrite Z.eqb_refl, IH]).
  rewrite Hpre. cbn [negb]. change 7%nat with (length (lit "SCHEMA ")). rewrite drop_app_length.
  change (fmt "%d %d %d") with [DInt; DChar 32; DInt; DChar 32; DInt]. cbn [sscanf]. rewrite strtol_print_app; [|in_range|done]. cbn [st_conv st_val st_rest].
  change (isspace 32) with true. cbv iota. cbn [skip_space]. change (isspace 32) with true. cbv iota.
  rewrite skip_space_solid by apply solid_print. rewrite strtol_print_app; [|in_range|done]. cbn [st_conv st_val st_rest skip_space].
  change (isspace 32) with true. cbv iota. rewrite skip_space_solid by apply solid_print.
  rewrite strtol_print_app; [|in_range|apply uk_numbers_ends]. cbn [st_conv st_val st_rest]. rewrite !to_int_id by in_range.
  rewrite skip_word_app; [|apply print_Z_nonspace|done]. rewrite skip_space_solid by apply solid_print.
  rewrite skip_word_app; [|apply print_Z_nonspace|done]. rewrite skip_space_solid by apply solid_print.
  rewrite skip_word_print, Nat2Z.id, Nat.min_l by (unfold MAX_UKS; lia). rewrite read_columns_ok by done. cbn [mbind option_bind].
  rewrite !Z.eqb_refl. by rewrite bool_decide_eq_true_2.
Qed.

(** The numbers of the table. *)
Definition rows_of_table (t : Table) : Rows :=
  mkRows (record_count (c_slots (t_cache t))) (active_count (c_slots (t_cache t))) (bit (cache_truncated t))
    (Z.of_nat (length (tail_entries (t_tail t)))) (next_auto_id (t_cache t)) (next_row_id (t_cache t)).

Record counts_ok (t : Table) : Prop := {
  co_count : 0 ≤ record_count (c_slots (t_cache t)) ≤ MAX_RECORDS;
  co_active : 0 ≤ active_count (c_slots (t_cache t)) ≤ MAX_RECORDS;
  co_tail : Z.of_nat (length (tail_entries (t_tail t))) ≤ MAX_RECORDS;
  co_auto : LONG_MIN ≤ next_auto_id (t_cache t) ≤ LONG_MAX;
  co_row : LONG_MIN ≤ next_row_id (t_cache t) ≤ LONG_MAX;
}.

Definition rows_args (r : Rows) : list Arg :=
  [ANum (r_count r); ANum (r_active r); ANum (r_truncated r); ANum (r_tail r); ANum (r_auto r); ANum (r_row r)].

Lemma read_rows_printed t rest :
  counts_ok t → read_rows (sprintf (fmt "ROWS %d %d %d %d %ld %ld\n") (rows_args (rows_of_table t)) ++ rest) = Some (rows_of_table t, rest).
Proof.
  intros [H1 H2 H3 H4 H5]. unfold read_rows.
  rewrite (scan_printed "ROWS %d %d %d %d %ld %ld" "ROWS %d %d %d %d %ld %ld\n"); [done|done|done| |].
  - unfold rows_args, rows_of_table, bit. cbn [r_count r_active r_truncated r_tail r_auto r_row]. destruct (cache_truncated t); solve_fits.
  - change (words_length _) with 0%nat. change (width _) with 400%nat. unfold DELTA_LINE_SIZE, RECORD_SIZE. lia.
Qed.

Lemma read_head_printed v1 counts tm t name csv delta rest h t0 :
  name_ok name → stamp_ok csv → stamp_ok delta → schema_ok h → counts_ok t0 → c_hdr (t_cache t0) = h → c_hdr (t_cache t) = h →
  csv = csv_stamp tm t → (counts = true → delta = delta_stamp tm t) →
  read_head v1 counts tm t name (snapshot_head name csv delta t0 ++ rest) =
    Some (true, rows_of_table t0, sprintf (fmt "SLOTS %d\n") [ANum (record_count (c_slots (t_cache t0)))] ++ rest).
Proof.
  intros Hn Hcsv Hdelta Hs Hco Hh0 Hh Ec Ed. unfold read_head, snapshot_head. rewrite Hh0.
  change (sprintf (fmt "SQLPROC_IDX_V2\n") []) with (lit "SQLPROC_IDX_V2" ++ [NL]). rewrite <- !app_assoc. cbn [app].
  unfold read_version. rewrite (read_line (lit "SQLPROC_IDX_V2")) by (done || (apply Nat.ltb_lt; reflexivity)). cbn [mbind option_bind].
  change (streq (lit "SQLPROC_IDX_V2") (lit "SQLPROC_IDX_V2")) with true. cbn [orb negb].
  cbn [mbind option_bind orb negb]. rewrite read_table_printed by done. cbn [mbind option_bind].
  rewrite read_csv_stamp by done. cbn [mbind option_bind]. rewrite read_delta_stamp by done. cbn [mbind option_bind].
  rewrite (bool_decide_eq_true_2 _ Ec).
  assert (negb counts || bool_decide (delta = delta_stamp tm t) = true) as ->.
  { destruct counts; [|done]. by rewrite bool_decide_eq_true_2 by auto. }
  cbn [andb]. rewrite Hh. pose proof (read_schema_printed h) as Hrs. unfold schema_args, uk_numbers in Hrs. cbn [app] in Hrs.
  rewrite Hrs by done. cbn [mbind option_bind]. 
  lazymatch goal with |- context [sprintf (fmt "ROWS %d %d %d %d %ld %ld\n") ?a] => change a with (rows_args (rows_of_table t0)) end.
  rewrite read_rows_printed by done. done.
Qed.

(** ** The slots *)

(** The slot as it is after loading. *)
Definition reloaded (sl : Slot) : Slot := loaded_slot (bit (s_active sl)) (s_id sl) (s_offset sl).

Definition slot_in_range (sl : Slot) : Prop := LONG_MIN ≤ s_id sl ≤ LONG_MAX ∧ LONG_MIN ≤ s_offset sl ≤ LONG_MAX.

Fixpoint slot_lines (i : Z) (sls : list Slot) : cstr :=
  match sls with
  | [] => []
  | sl :: sls' => slot_line false i sl ++ slot_lines (i + 1) sls'
  end.

Lemma slot_lines_imap sls k : concat (imap (fun j sl => slot_line false (Z.of_nat (k + j)) sl) sls) = slot_lines (Z.of_nat k) sls.
Proof.
  revert k; induction sls as [|sl sls IH]; intros k; [done|]. cbn [imap slot_lines concat]. rewrite Nat.add_0_r. f_equal.
  replace (Z.of_nat k + 1) with (Z.of_nat (S k)) by lia. rewrite <- IH. f_equal. apply imap_ext. intros j x _. cbn. by rewrite Nat.add_succ_r.
Qed.

(** The numbers of the slots with a property, the first slot being number [i]. *)
Fixpoint idx_from (P : Slot → bool) (i : Z) (sls : list Slot) : list Z :=
  match sls with
  | [] => []
  | sl :: sls' => if P sl then i :: idx_from P (i + 1) sls' else idx_from P (i + 1) sls'
  end.

Definition idle (sl : Slot) : bool := negb (s_active sl).

Lemma idx_from_elem P i sls j : j ∈ idx_from P i sls ↔ ∃ sl, i ≤ j ∧ sls !! Z.to_nat (j - i) = Some sl ∧ P sl = true.
Proof.
  revert i; induction sls as [|sl sls IH]; intros i; cbn [idx_from].
  - split; [by intros ?%elem_of_nil|]. by intros (? & _ & ? & _).
  - assert (j ∈ idx_from P (i + 1) sls ↔ ∃ sl', i + 1 ≤ j ∧ (sl :: sls) !! Z.to_nat (j - i) = Some sl' ∧ P sl' = true) as H.
    { rewrite IH. split; intros (sl' & H1 & H2 & H3); exists sl'; (split; [done|]); (split; [|done]).
      - replace (Z.to_nat (j - i)) with (S (Z.to_nat (j - (i + 1)))) by lia. done.
      - replace (Z.to_nat (j - i)) with (S (Z.to_nat (j - (i + 1)))) in H2 by lia. done. }
    destruct (P sl) eqn:E.
    + rewrite elem_of_cons, H. split.
      * intros [->|(sl' & H1 & H2)]; [exists sl; rewrite Z.sub_diag; by split_and!|]. exists sl'. split; [lia|done].
      * intros (sl' & H1 & H2 & H3). destruct (decide (j = i)) as [->|]; [by left|]. right. exists sl'. split; [lia|done].
    + rewrite H. split; intros (sl' & H1 & H2 & H3); exists sl'.
      * split; [lia|done].
      * destruct (decide (j = i)) as [->|]; [|split; [lia|done]]. rewrite Z.sub_diag in H2. change (Z.to_nat 0) with 0%nat in H2. injection H2 as <-. congruence.
Qed.

Lemma idx_from_NoDup P i sls : NoDup (idx_from P i sls).
Proof.
  revert i; induction sls as [|sl sls IH]; intros i; cbn [idx_from]; [constructor|]. destruct (P sl); [|done]. constructor; [|done].
  rewrite idx_from_elem. intros (? & H & _). lia.
Qed.

Lemma idx_from_length P i sls : Z.of_nat (length (idx_from P i sls)) = countb P sls.
Proof. revert i; induction sls as [|sl sls IH]; intros i; cbn [idx_from countb]; [done|]. destruct (P sl); cbn [length Z.b2z]; rewrite ?Nat2Z.inj_succ, IH; lia. Qed.

Definition idle_from : Z → list Slot → list Z := idx_from idle.

Lemma scan_slot_line i sl rest :
  0 ≤ i ≤ MAX_RECORDS → slot_in_range sl →
  scan_line "%d\t%d\t%ld\t%d\t%ld" (slot_line false i sl ++ rest) =
    Some ([ANum i; ANum (bit (s_active sl)); ANum (s_id sl); ANum (store_number (s_store sl)); ANum (s_offset sl)], rest).
Proof.
  intros Hi [H1 H2]. unfold slot_line. rewrite andb_false_r.
  rewrite (scan_printed "%d\t%d\t%ld\t%d\t%ld" "%d\t%d\t%ld\t%d\t%ld\n"); [done|done|done| |].
  - unfold bit. destruct (s_active sl), (s_store sl); solve_fits.
  - change (words_length _) with 0%nat. change (width _) with 329%nat. unfold DELTA_LINE_SIZE, RECORD_SIZE. lia.
Qed.

(** What the loading of the slots keeps. *)
Record slots_kept (s s' : Slots) : Prop := {
  sk_capacity : record_capacity s' = record_capacity s;
  sk_active : active_count s' = active_count s;
  sk_cached : cached_record_count s' = cached_record_count s;
  sk_cursor : row_cache_evict_cursor s' = row_cache_evict_cursor s;
}.

Lemma insert_middle {A} (l : list A) (x y : A) r : <[length l := y]> (l ++ x :: r) = l ++ y :: r.
Proof. rewrite <- (Nat.add_0_r (length l)), insert_app_r. done. Qed.

Lemma load_slots_printed sls rest s pre seen :
  Forall slot_in_range sls → slots s = pre ++ replicate (length sls) slot0 →
  Z.of_nat (length pre + length sls) ≤ MAX_RECORDS → Z.of_nat (length (free_slots s)) ≤ Z.of_nat (length pre) →
  Z.of_nat (length (free_slots s)) ≤ free_capacity s →
  ∃ s', load_slots (length sls) (Z.of_nat (length pre)) (slot_lines (Z.of_nat (length pre)) sls ++ rest) s seen =
          (true, s', seen + countb s_active sls, rest) ∧
    slots s' = pre ++ map reloaded sls ∧ slots_kept s s' ∧ free_slots s' = free_slots s ++ idle_from (Z.of_nat (length pre)) sls ∧
    Z.of_nat (length (free_slots s')) ≤ free_capacity s'.
Proof.
  revert s pre seen; induction sls as [|sl sls IH]; intros s pre seen Hr Hs Hm Hf Hc.
  - exists s. cbn. rewrite Z.add_0_r, !app_nil_r. cbn in Hs. rewrite app_nil_r in Hs. by split_and!.
  - apply Forall_cons_1 in Hr as [Hsl Hr]. cbn [length slot_lines load_slots]. rewrite <- app_assoc, scan_slot_line by (done || (cbn in Hm; lia)).
    rewrite Z.eqb_refl. cbn [negb].
    set (s1 := set_slot s (Z.of_nat (length pre)) (reloaded sl)).
    assert (slots s1 = (pre ++ [reloaded sl]) ++ replicate (length sls) slot0) as Hs1.
    { unfold s1, set_slot. cbn [slots]. rewrite Nat2Z.id, Hs. cbn [length replicate]. rewrite insert_middle, <- app_assoc. done. }
    assert (Z.of_nat (length pre) + 1 = Z.of_nat (length (pre ++ [reloaded sl]))) as El by (rewrite length_app; simpl; lia).
    cbn [length] in Hm. unfold idle_from in *. cbn [idx_from]. unfold idle at 1 3. destruct (s_active sl) eqn:Ea; cbn [bit negb countb].
    + change (1 =? 0) with false. cbv iota. change (set_slot s _ (loaded_slot 1 _ _)) with (set_slot s (Z.of_nat (length pre)) (loaded_slot (bit true) (s_id sl) (s_offset sl))).
      rewrite <- Ea. change (set_slot s _ _) with s1. rewrite El.
      destruct (IH s1 (pre ++ [reloaded sl]) (seen + 1) Hr Hs1) as (s' & -> & H1 & [H2 H3 H4 H5] & H6 & H7); [rewrite length_app; simpl; lia|unfold s1; cbn; rewrite length_app; lia|done|].
      exists s'. rewrite Ea. split; [change (Z.b2z true) with 1; by rewrite Z.add_assoc|]. split; [by rewrite H1, <- app_assoc|]. by split_and!.
    + change (0 =? 0) with true. cbv iota. change (set_slot s _ (loaded_slot 0 _ _)) with (set_slot s (Z.of_nat (length pre)) (loaded_slot (bit false) (s_id sl) (s_offset sl))).
      rewrite <- Ea. change (set_slot s _ _) with s1. set (s2 := push_free_slot s1 (Z.of_nat (length pre))). rewrite El.
      assert (slots s2 = (pre ++ [reloaded sl]) ++ replicate (length sls) slot0) as Hs2 by done.
      assert (free_slots s2 = free_slots s ++ [Z.of_nat (length pre)]) as Hf2 by done.
      assert (Z.of_nat (length (free_slots s2)) ≤ free_capacity s2) as Hc2.
      { rewrite Hf2, length_app. cbn. destruct (grown_ok (free_capacity s) (Z.of_nat (length (free_slots s)) + 1)) as [Hg _]; lia. }
      destruct (IH s2 (pre ++ [reloaded sl]) seen Hr Hs2) as (s' & -> & H1 & [H2 H3 H4 H5] & H6 & H7); [rewrite length_app; simpl; lia|rewrite Hf2, !length_app; simpl; lia|done|].
      exists s'. rewrite Ea. split; [done|]. split; [by rewrite H1, <- app_assoc|]. split; [by split|].
      split; [|done]. rewrite H6, Hf2, <- El, <- app_assoc. done.
Qed.

(** ** The ids *)

Definition id_lines (es : list (Z * Z)) : cstr := concat (map (fun p => sprintf (fmt "%ld\t%d\n") [ANum p.1; ANum p.2]) es).

Definition pair_ok (s : Slots) (p : Z * Z) : Prop := LONG_MIN ≤ p.1 ≤ LONG_MAX ∧ slot_is_active s p.2 = true.

Lemma visit_ids s es out : Forall (pair_ok s) es → visit_leaf (write_active_id_pair s) es out = (true, out ++ id_lines es).
Proof.
  revert out; induction es as [|[k i] es IH]; intros out Hes; [cbn; by rewrite app_nil_r|]. apply Forall_cons_1 in Hes as [[_ Ha] Hes].
  cbn [visit_leaf]. unfold write_active_id_pair at 1. cbn [snd] in Ha. rewrite Ha, IH by done. unfold id_lines. cbn [map concat fst snd].
  by rewrite <- app_assoc.
Qed.

Lemma active_range s i : record_count s ≤ MAX_RECORDS → slot_is_active s i = true → 0 ≤ i < MAX_RECORDS.
Proof. intros Hm [Hi _]%slot_is_active_spec. lia. Qed.

Lemma read_id_pairs_printed s es rest :
  record_count s ≤ MAX_RECORDS → Forall (pair_ok s) es → read_id_pairs s (length es) (id_lines es ++ rest) = Some (es, rest).
Proof.
  intros Hm. induction es as [|[k i] es IH]; intros Hes; [done|]. apply Forall_cons_1 in Hes as [[Hk Ha] Hes]. cbn [fst snd] in *.
  pose proof (active_range s i Hm Ha). unfold id_lines. cbn [map concat length read_id_pairs fst snd]. rewrite <- app_assoc.
  rewrite (scan_printed "%ld\t%d" "%ld\t%d\n"); [|done|done|solve_fits|change (words_length _) with 0%nat; change (width _) with 131%nat; unfold DELTA_LINE_SIZE, RECORD_SIZE; lia].
  cbn [mbind option_bind]. rewrite Ha. change (concat (map _ es)) with (id_lines es). rewrite IH by done. done.
Qed.

Lemma read_ids_printed s es rest :
  record_count s ≤ MAX_RECORDS → Forall (pair_ok s) es → Z.of_nat (length es) ≤ MAX_RECORDS →
  read_ids s (Z.of_nat (length es)) (sprintf (fmt "ID %d\n") [ANum (Z.of_nat (length es))] ++ id_lines es ++ rest) = Some (es, rest).
Proof.
  intros Hm Hes Hl. unfold read_ids. rewrite read_id_count by in_range. cbn [mbind option_bind]. rewrite Z.eqb_refl, Nat2Z.id.
  by apply read_id_pairs_printed.
Qed.

(** ** The unique columns *)

Definition uk_lines (es : list (cstr * Z)) : cstr := concat (map (fun p => sprintf (fmt "%d\t%s\n") [ANum p.2; AText p.1]) es).

Definition uk_pair_ok (s : Slots) (p : cstr * Z) : Prop :=
  forallb line_char p.1 = true ∧ (length p.1 < RECORD_SIZE)%nat ∧ slot_is_active s p.2 = true.

Lemma count_uks s es n : Forall (uk_pair_ok s) es → visit_leaf (count_active_string_pair s) es n = (true, n + Z.of_nat (length es)).
Proof.
  revert n; induction es as [|[k i] es IH]; intros n Hes; [cbn; by rewrite Z.add_0_r|]. apply Forall_cons_1 in Hes as [(_ & _ & Ha) Hes].
  cbn [visit_leaf]. unfold count_active_string_pair at 1. cbn [snd] in Ha. rewrite Ha, IH by done. f_equal. simpl. lia.
Qed.

Lemma visit_uks s es out : Forall (uk_pair_ok s) es → visit_leaf (write_active_string_pair s) es out = (true, out ++ uk_lines es).
Proof.
  revert out; induction es as [|[k i] es IH]; intros out Hes; [cbn; by rewrite app_nil_r|]. apply Forall_cons_1 in Hes as [(_ & _ & Ha) Hes].
  cbn [visit_leaf]. unfold write_active_string_pair at 1. cbn [snd] in Ha. rewrite Ha, IH by done. unfold uk_lines. cbn [map concat fst snd].
  by rewrite <- app_assoc.
Qed.

Lemma atoi_print n : INT_MIN ≤ n ≤ INT_MAX → atoi (print_Z n) = n.
Proof. intros H. unfold atoi. rewrite strtol_print by in_range. by apply to_int_id. Qed.

Lemma read_uk_pairs_printed s es rest :
  record_count s ≤ MAX_RECORDS → Forall (uk_pair_ok s) es → read_uk_pairs s (length es) (uk_lines es ++ rest) = Some (es, rest).
Proof.
  intros Hm. induction es as [|[k i] es IH]; intros Hes; [done|]. apply Forall_cons_1 in Hes as [(Hk & Hl & Ha) Hes]. cbn [fst snd] in *.
  pose proof (active_range s i Hm Ha) as Hi. unfold uk_lines. cbn [map concat length read_uk_pairs fst snd].
  assert (sprintf (fmt "%d\t%s\n") [ANum i; AText k] = (print_Z i ++ TAB :: k) ++ [NL]) as ->.
  { change (fmt "%d\t%s\n") with [DInt; DChar TAB; DStr 0; DChar NL]. cbn [sprintf]. by rewrite <- app_assoc. }
  assert (LONG_MIN ≤ i ≤ LONG_MAX) as Hil by in_range. pose proof (print_Z_length i Hil).
  set (A := print_Z i ++ TAB :: k). rewrite <- !app_assoc. cbn [app]. unfold A. rewrite read_line.
  2:{ rewrite forallb_app, (proj1 (print_Z_line i)). cbn [forallb]. by rewrite Hk. }
  2:{ rewrite length_app. cbn [length]. unfold DELTA_LINE_SIZE. unfold RECORD_SIZE in *. lia. }
  cbn [mbind option_bind]. rewrite strchr_app_None by apply print_Z_line. cbn [strchr]. rewrite Z.eqb_refl.
  cbn [fmap option_fmap option_map mbind option_bind]. rewrite Nat.add_0_r, take_app_length, atoi_print by in_range. rewrite Ha.
  change (concat (map _ es)) with (uk_lines es). rewrite IH by done. cbn [mbind option_bind]. do 3 f_equal.
  replace (S (length (print_Z i))) with (length (print_Z i) + 1)%nat by lia. by rewrite <- drop_drop, drop_app_length.
Qed.

Definition uk_section (col : nat) (es : list (cstr * Z)) : cstr :=
  sprintf (fmt "UK %d %d\n") [ANum (Z.of_nat col); ANum (Z.of_nat (length es))] ++ uk_lines es.

Definition uk_sections (cols : list nat) (ess : list (list (cstr * Z))) : cstr := concat (zip_with uk_section cols ess).

Lemma write_uk_sections_text s cols us :
  length cols = length us → Forall (fun u : tree cstr => tree_ok u ∧ Forall (uk_pair_ok s) (elems u)) us →
  write_uk_sections s cols (map Some us) = Some (Some (uk_sections cols (map elems us))).
Proof.
  revert us; induction cols as [|col cols IH]; intros [|u us] Hl Hus; try done. apply Forall_cons_1 in Hus as [[Hok Hes] Hus].
  cbn [map write_uk_sections]. unfold bptree_string_visit_pairs. rewrite !visit_refines by done. cbn [mbind option_bind].
  rewrite count_uks, visit_uks by done. cbn [mbind option_bind]. rewrite IH by (done || by injection Hl). cbn [mbind option_bind].
  cbn [app map]. change (uk_sections (col :: cols) (elems u :: map elems us)) with (uk_section col (elems u) ++ uk_sections cols (map elems us)).
  unfold uk_section. rewrite Z.add_0_l. by rewrite <- app_assoc.
Qed.

Lemma read_uk_trees_printed s active cols ess rest :
  record_count s ≤ MAX_RECORDS → active ≤ MAX_RECORDS → length cols = length ess → Forall (fun u => (u < MAX_COLS)%nat) cols →
  Forall (fun es => StronglySorted klt es.*1 ∧ Forall (uk_pair_ok s) es ∧ Z.of_nat (length es) ≤ active) ess →
  ∃ us, read_uk_trees s active cols (uk_sections cols ess ++ rest) = Some (us, rest) ∧
    Forall2 (fun (u : tree cstr) es => tree_ok u ∧ elems u = es) us ess.
Proof.
  intros Hm Hact. revert ess; induction cols as [|col cols IH]; intros [|es ess] Hl Hcols Hess; try done; [by exists []|].
  apply Forall_cons_1 in Hess as [(Hs & Hes & Hn) Hess]. apply Forall_cons_1 in Hcols as [Hcol Hcols]. unfold MAX_COLS in Hcol.
  destruct (IH ess) as (us & E & Hus); [by injection Hl|done|done|].
  unfold uk_sections. cbn [zip_with concat read_uk_trees]. unfold uk_section at 1. rewrite <- !app_assoc.
  rewrite (scan_printed "UK %d %d" "UK %d %d\n"); [|done|done|solve_fits|change (words_length _) with 0%nat; change (width _) with 134%nat; unfold DELTA_LINE_SIZE, RECORD_SIZE; lia].
  cbn [mbind option_bind]. rewrite Z.eqb_refl, (proj2 (Z.ltb_ge _ 0)), (proj2 (Z.ltb_ge active _)) by lia. cbn [negb orb].
  destruct (ix_create_ok (K := cstr) (T := tree cstr)) as (t0 & Ht0 & _ & _). change (ix_create (T := tree cstr)) with (bptree_string_create always_ok) in Ht0. rewrite Ht0. cbn [mbind option_bind].
  rewrite Nat2Z.id, read_uk_pairs_printed by done. cbn [mbind option_bind].
  destruct (ix_build_elems t0 es Hs) as (u & -> & Hu & He). change (concat (zip_with uk_section cols ess)) with (uk_sections cols ess).
  rewrite E. cbn [mbind option_bind]. exists (u :: us). split; [done|]. by constructor.
Qed.
