(* ===== verification/LegacyReopenProofs.v ===== *)
(** A table that is closed and opened again with its snapshot: what the snapshot of a
    well-formed table loads as. *)

From Stdlib Require Import String.
From S2P Require Import Prelude CString Scanf BPTree BPTreeProofs BPTreeSpec BPTreeScan BPTreeString BPTreeIndex Parser Values Table InsertProofs Store StoreProofs.
From S2P Require Import LegacyRow LegacyRowProofs LegacyCache LegacyCacheProofs LegacyIndex LegacyIndexProofs DeltaLog DeltaLogProofs LegacyTable LegacyTableProofs LegacyLoadProofs LegacySnapshot LegacySnapshotProofs.
From stdpp Require Import base numbers list sorting option.
Local Open Scope Z_scope.

Section snapshot.
Context (h : Header) (name : cstr) (Hname : name_ok name) (Hschema : schema_ok h).

(** A table whose snapshot says all there is to say. *)
Record ready (t : Table) (us : list (tree cstr)) : Prop := {
  re_hdr : c_hdr (t_cache t) = h;
  re_counts : counts_ok t;
  re_whole : cache_truncated t = false ∧ tail_entries (t_tail t) = [];
  re_slots : Forall slot_in_range (slots (c_slots (t_cache t)));
  re_active : active_count (c_slots (t_cache t)) = countb s_active (slots (c_slots (t_cache t)));
  re_id : tree_ok (c_id (t_cache t));
  re_pairs : Forall (pair_ok (c_slots (t_cache t))) (elems (c_id (t_cache t)));
  re_length : Z.of_nat (length (elems (c_id (t_cache t)))) = active_count (c_slots (t_cache t));
  re_trees : c_uks (t_cache t) = map Some us;
  re_cols : length (h_uks h) = length us;
  re_uks : Forall (fun u => tree_ok u ∧ Forall (uk_pair_ok (c_slots (t_cache t))) (elems u) ∧
                            Z.of_nat (length (elems u)) ≤ active_count (c_slots (t_cache t))) us;
}.

(** What stands in the snapshot after its head. *)
Definition snapshot_body (t : Table) (us : list (tree cstr)) : cstr :=
  let c := t_cache t in
  slot_lines 0 (slots (c_slots c)) ++
  sprintf (fmt "ID %d\n") [ANum (Z.of_nat (length (elems (c_id c))))] ++ id_lines (elems (c_id c)) ++
  sprintf (fmt "UKSECTIONS %d\n") [ANum (Z.of_nat (length (h_uks h)))] ++ uk_sections (h_uks h) (map elems us) ++
  lit "END" ++ [NL].

Lemma snapshot_text_ready t us csv delta :
  ready t us → fs_exists delta = 0 →
  snapshot_text name csv delta t = Some (Some (snapshot_head name csv delta t ++ snapshot_body t us)).
Proof using Type.
  intros [] Hd. unfold snapshot_text, write_index_snapshot_pairs. rewrite visit_refines, visit_ids by done. cbn [mbind option_bind].
  rewrite re_trees0, re_hdr0, write_uk_sections_text; [|done|].
  - cbn [mbind option_bind]. do 2 f_equal. unfold snapshot_body. rewrite Hd. change (0 =? 1) with false.
    pose proof (slot_lines_imap (slots (c_slots (t_cache t))) 0) as Hi. cbn [Nat.add] in Hi. rewrite Hi, re_length0.
    change (sprintf (fmt "END\n") []) with (lit "END" ++ [NL]). by rewrite <- !app_assoc.
  - eapply List.Forall_impl; [|exact re_uks0]. tauto.
Qed.

(** A table whose header was just read. *)
Record blank_table (t0 : Table) : Prop := {
  bl_hdr : c_hdr (t_cache t0) = h;
  bl_slots : c_slots (t_cache t0) = slots0;
  bl_log : log_text (t_delta t0) = None;
}.

Lemma reloaded_active s s' : slots s' = map reloaded (slots s) → ∀ i, slot_is_active s' i = slot_is_active s i.
Proof using Type.
  intros E i. unfold slot_is_active, slot_at, record_count. rewrite E, length_map, list_lookup_fmap.
  destruct (slots s !! Z.to_nat i) as [sl|] eqn:El; cbn; [|done]. unfold reloaded, loaded_slot. by destruct (s_active sl).
Qed.

(** The table the snapshot loads as. *)
Record reopened (t t0 t1 : Table) (us : list (tree cstr)) : Prop := {
  rn_hdr : c_hdr (t_cache t1) = h;
  rn_file : c_file (t_cache t1) = c_file (t_cache t0);
  rn_pages : c_pages (t_cache t1) = c_pages (t_cache t0);
  rn_slots : slots (c_slots (t_cache t1)) = map reloaded (slots (c_slots (t_cache t)));
  rn_active : active_count (c_slots (t_cache t1)) = active_count (c_slots (t_cache t));
  rn_cached : cached_record_count (c_slots (t_cache t1)) = 0;
  rn_cursor : row_cache_evict_cursor (c_slots (t_cache t1)) = 0%nat;
  rn_capacity : record_count (c_slots (t_cache t)) ≤ record_capacity (c_slots (t_cache t1));
  rn_free : free_slots (c_slots (t_cache t1)) = idle_from 0 (slots (c_slots (t_cache t)));
  rn_free_capacity : Z.of_nat (length (free_slots (c_slots (t_cache t1)))) ≤ free_capacity (c_slots (t_cache t1));
  rn_id : tree_ok (c_id (t_cache t1)) ∧ elems (c_id (t_cache t1)) = elems (c_id (t_cache t));
  rn_uks : ∃ us', c_uks (t_cache t1) = map Some us' ∧ Forall2 (fun (u' u : tree cstr) => tree_ok u' ∧ elems u' = elems u) us' us;
  rn_auto : next_auto_id (t_cache t1) = next_auto_id (t_cache t);
  rn_row : next_row_id (t_cache t1) = next_row_id (t_cache t);
  rn_whole : cache_truncated t1 = false ∧ tail_entries (t_tail t1) = [];
  rn_offset : append_offset t1 = Z.of_nat (length (default [] (c_file (t_cache t0))));
  rn_delta : t_delta t1 = t_delta t0;
}.

Lemma set_record_count_new s n :
  slots s = [] → 0 ≤ n → slots (set_record_count s n) = replicate (Z.to_nat n) slot0.
Proof using Type. intros E Hn. unfold set_record_count, set_counts, set_arrays. cbn [slots]. rewrite E. cbn [app]. rewrite take_ge; [done|]. rewrite length_replicate. lia. Qed.

Lemma load_ready tm t us t0 csv delta snap :
  ready t us → blank_table t0 → stamp_ok csv → csv = csv_stamp tm t0 → delta = mkStamp 0 0 0 →
  LegacySnapshot.table_name snap = name → idx_file snap = Some (snapshot_head name csv delta t ++ snapshot_body t us) →
  ∃ t1, load_table_parse_snapshot tm t0 snap = (true, t1, mkSnap name (idx_file snap) true false) ∧ reopened t t0 t1 us.
Proof using Hname Hschema.
  intros Hr [Hh0 Hs0 Hlog] Hcsv Ec Ed Hn Hidx. pose proof Hr as [].
  unfold load_table_parse_snapshot. rewrite Hn. destruct name as [|c0 name0] eqn:En; [by destruct Hname|]. rewrite <- En in *.
  rewrite Hidx. cbn [mbind option_bind].
  assert (stamp_ok delta) as Hdelta by (rewrite Ed; split; [|split]; cbn; in_range).
  rewrite (read_head_printed false _ tm t0 name csv delta (snapshot_body t us) h t); [|done|done|done|done|done|done|done|done|].
  2:{ intros _. rewrite Ed. unfold delta_stamp. by rewrite Hlog. }
  cbn [rows_of_table r_count r_active r_truncated r_tail]. destruct re_whole0 as [Htr Htl]. rewrite Htr, Htl.
  destruct re_counts0 as [[Hc0 Hc1] [Ha0 Ha1] _ _ _].
  rewrite (proj2 (Z.ltb_ge _ 0)), (proj2 (Z.ltb_ge MAX_RECORDS _)), (proj2 (Z.ltb_ge _ 0)) by lia. cbn [bit length orb negb Z.of_nat Z.eqb].
  unfold load_from_slots, rows_of_table. cbn [r_count r_active r_auto r_row]. rewrite Hs0.
  set (n := record_count (c_slots (t_cache t))) in *.
  destruct (ensure_record_capacity_ok slots0 n) as (cap & -> & Hcap); [lia|]. cbn [slots0 slots].
  set (s1 := set_record_count (set_arrays slots0 [] cap) n).
  assert (slots s1 = replicate (length (slots (c_slots (t_cache t)))) slot0) as Hs1.
  { unfold s1. rewrite set_record_count_new by done. unfold n, record_count. by rewrite Nat2Z.id. }
  rewrite read_slot_count by in_range. rewrite Z.eqb_refl. cbn [negb].
  replace (Z.to_nat n) with (length (slots (c_slots (t_cache t)))) by (unfold n, record_count; by rewrite Nat2Z.id).
  unfold snapshot_body at 1.
  destruct (load_slots_printed (slots (c_slots (t_cache t))) (sprintf (fmt "ID %d\n") [ANum (Z.of_nat (length (elems (c_id (t_cache t)))))] ++ id_lines (elems (c_id (t_cache t))) ++
    sprintf (fmt "UKSECTIONS %d\n") [ANum (Z.of_nat (length (h_uks h)))] ++ uk_sections (h_uks h) (map elems us) ++ lit "END" ++ [NL]) s1 [] 0)
    as (s2 & E & Hs2 & [K1 K2 K3 K4] & Hf & Hfc); [done|by rewrite Hs1| |cbn; lia|cbn; lia|].
  { cbn [length Nat.add]. unfold n, record_count in Hc1. lia. }
  change (Z.of_nat (@length Slot [])) with 0 in E, Hf. rewrite E. clear E. cbn [app] in Hs2. rewrite Z.add_0_l, <- re_active0, !Z.eqb_refl. cbn [andb negb].
  set (s3 := set_counts s2 (active_count (c_slots (t_cache t))) (cached_record_count s2)).
  assert (slots s3 = map reloaded (slots (c_slots (t_cache t)))) as Hs3 by done.
  assert (record_count s3 ≤ MAX_RECORDS) as Hm3 by (unfold record_count; rewrite Hs3, length_map; unfold n, record_count in Hc1; lia).
  pose proof (reloaded_active _ _ Hs3) as Hact.
  replace (read_ids s3 (active_count (c_slots (t_cache t)))) with (read_ids s3 (Z.of_nat (length (elems (c_id (t_cache t)))))) by (by rewrite re_length0).
  rewrite read_ids_printed; [|done| |lia].
  2:{ eapply List.Forall_impl; [|exact re_pairs0]. intros [k i] [Hk Ha]. split; [done|]. by rewrite Hact. }
  assert (StronglySorted klt (elems (c_id (t_cache t))).*1) as Hsort by by apply tree_ok_sorted.
  destruct (ix_build_elems (c_id (t_cache t0)) (elems (c_id (t_cache t))) Hsort) as (id' & -> & Hid & Hide). cbn [negb].
  rewrite Hh0. unfold read_uks. destruct Hschema as (_ & _ & Hul & Hucols).
  rewrite read_uk_count by (unfold MAX_UKS in Hul; in_range). cbn [mbind option_bind]. rewrite Z.eqb_refl.
  destruct (read_uk_trees_printed s3 (active_count (c_slots (t_cache t))) (h_uks h) (map elems us) (lit "END" ++ [NL])) as (us' & -> & Hus');
    [done|lia|by rewrite length_map|done| |].
  { apply Forall_map_list. eapply List.Forall_impl; [|exact re_uks0]. intros u (Hu1 & Hu2 & Hu3). split; [by apply tree_ok_sorted|]. split; [|done].
    eapply List.Forall_impl; [|exact Hu2]. intros [k i] (Hk1 & Hk2 & Ha). split; [done|]. split; [done|]. by rewrite Hact. }
  cbn [mbind option_bind]. unfold read_end. pose proof (read_line (lit "END") []) as Hend. cbn [app] in Hend |- *. rewrite Hend; [|done|apply Nat.ltb_lt; reflexivity].
  cbn [mbind option_bind]. rewrite streq_refl. cbn [mbind option_bind]. rewrite ?Hn, ?Hidx. eexists. split; [reflexivity|].
  constructor; try done.
  all: cbn; rewrite ?K1, ?K3, ?K4; try done.
  exists us'. split; [done|]. by apply Forall2_fmap_r in Hus'.
Qed.
End snapshot.

(** ** A well-formed table is such a table *)

(** What holds of every character of a row holds of its values. *)
Lemma split_loop_chars (P : Z → Prop) room q s :
  Forall P s → Forall P (split_loop room q s).1 ∧ Forall (Forall P) (split_loop room q s).2.
Proof.
  revert room q; induction s as [|c s IH]; intros [|room] q Hs; cbn [split_loop]; try by split; [|constructor].
  apply Forall_cons_1 in Hs as [Hc Hs]. set (q' := if c =? QUOTE then negb q else q). destruct ((c =? COMMA) && negb q').
  - destruct (IH room q' Hs) as [H1 H2]. destruct (split_loop room q' s). split; [constructor|by constructor].
  - destruct (IH (S room) q' Hs) as [H1 H2]. destruct (split_loop (S room) q' s). split; [by constructor|done].
Qed.

Lemma skip_space_chars (P : Z → Prop) s : Forall P s → Forall P (skip_space s).
Proof. intros H. destruct (skip_space_suffix s) as (w & E & _). rewrite E in H. by apply Forall_app in H as [_ H]. Qed.

Lemma trim_uq_chars (P : Z → Prop) s : Forall P s → Forall P (trim_uq s).
Proof.
  intros H. assert (Forall P (rstrip (skip_space s))) as Hr.
  { unfold rstrip. apply Forall_reverse, skip_space_chars, Forall_reverse. by apply skip_space_chars. }
  unfold trim_uq. destruct (rstrip (skip_space s)) as [|c t]; [done|]. destruct (_ && _); [|done].
  apply Forall_cons_1 in Hr as [_ Ht]. destruct t as [|x t]; [done|].
  rewrite (app_removelast_last (l := x :: t) 0) in Ht by done. by apply Forall_app in Ht as [Ht _].
Qed.

Lemma uk_text_chars (P : Z → Prop) col row : Forall P row → Forall P (uk_text col row).
Proof.
  intros H. unfold uk_text, normalize_value, trim_and_unquote, strcpy_sz, field_at. apply trim_uq_chars, Forall_take.
  unfold parse_csv_row, split_csv. destruct (split_loop_chars P (MAX_COLS - 1) false (strcpy_sz RECORD_SIZE row)) as [H1 H2]; [by apply Forall_take|].
  destruct (split_loop _ _ _) as [p ps]. cbn [fst snd] in *. destruct ((p :: ps) !! col) as [x|] eqn:E; cbn; [|constructor].
  eapply (Forall_lookup_1 _ (p :: ps)); [|exact E]. by constructor.
Qed.

Lemma uk_text_length col row : (length (uk_text col row) < RECORD_SIZE)%nat.
Proof.
  unfold uk_text, normalize_value, trim_and_unquote. pose proof (trim_uq_length (strcpy_sz RECORD_SIZE (field_at (parse_csv_row row) col))).
  unfold strcpy_sz in *. rewrite length_take in *. unfold RECORD_SIZE in *. lia.
Qed.

Lemma parse_long_range s k : parse_long_value s = Some k → LONG_MIN ≤ k ≤ LONG_MAX.
Proof.
  unfold parse_long_value. destruct (trim_and_unquote (strcpy_sz 256 s)) as [|c b]; [done|]. destruct (streq _ _); [done|].
  destruct (_ && _); [|done]. intros [= <-]. apply strtol_range.
Qed.

Lemma last_pk_bound i cs acc p : last_pk i cs acc = Some p → acc = Some p ∨ (p < i + length cs)%nat.
Proof.
  revert i acc; induction cs as [|c cs IH]; intros i acc; cbn [last_pk length]; [by left|]. intros H. apply IH in H as [H|H]; [|right; lia].
  destruct (decide (col_type c = COL_PK)) as [E|E]; [|left]; revert H; try rewrite E.
  - intros [= <-]. right. lia.
  - by destruct (col_type c).
Qed.

Lemma header_schema h : header_ok h → schema_ok h.
Proof.
  intros Hh. pose proof Hh as (Hp & Hu & Hc & _). unfold col_count in *. split; [unfold col_count; lia|]. split; [|split].
  - intros p E. rewrite Hp in E. apply last_pk_bound in E as [E|E]; [done|]. cbn in E. lia.
  - rewrite Hu, length_take. lia.
  - apply list.Forall_forall. intros u Hin. destruct (header_uk_column h u Hh Hin) as (c & Hcol & _). apply lookup_lt_Some in Hcol. lia.
Qed.

(** Entries with different keys stand for different slots. *)
Lemma NoDup_rows {K} (es : list (K * Z)) :
  NoDup es.*1 → (∀ k k' i, (k, i) ∈ es → (k', i) ∈ es → k = k') → NoDup es.*2.
Proof.
  induction es as [|[k i] es IH]; intros Hn Hf; [constructor|]. cbn in Hn |- *. apply list.NoDup_cons in Hn as [Hk Hn]. constructor.
  - intros (p & Hi & Hin)%list_elem_of_fmap. destruct p as [k' i']. cbn in Hi. subst i'. apply Hk. apply list_elem_of_fmap. exists (k', i).
    split; [|done]. cbn. apply (Hf k k' i); [by left|by right].
  - apply IH; [done|]. intros k1 k2 j H1 H2. apply (Hf k1 k2 j); by right.
Qed.

Section ready.
Context (h : Header) (p : nat) (Hpk : h_pk h = Some p) (Hh : header_ok h).

(** The slots in use. *)
Lemma active_slot s i : slot_is_active s i = true ↔ i ∈ idx_from s_active 0 (slots s).
Proof using Type.
  rewrite idx_from_elem, slot_is_active_spec. split.
  - intros [Hi Ha]. exists (slot_at s i). split; [lia|]. rewrite Z.sub_0_r. split; [by apply slot_at_lookup|done].
  - intros (sl & Hi & Hl & Ha). rewrite Z.sub_0_r in Hl. pose proof (lookup_lt_Some _ _ _ Hl). unfold record_count. split; [lia|].
    unfold slot_at. by rewrite Hl.
Qed.

Lemma table_pairs c l :
  table_ok h c l → Forall (pair_ok (c_slots c)) (elems (c_id c)) ∧ Z.of_nat (length (elems (c_id c))) = active_count (c_slots c).
Proof using All.
  intros Hc. pose proof Hc as [Hch (f & Hf & [Hs _ _] & Ht) [[Hok Hid] Hkeys _ _]]. cbn [rs_file rs_slots] in Hs.
  assert (∀ k i, (k, i) ∈ elems (c_id c) ↔ id_key h l i = Some k) as Hin.
  { intros k i. rewrite <- (Hid k i). symmetry. apply assoc_get_Some. by apply tree_ok_sorted. }
  assert (∀ i, slot_is_active (c_slots c) i = true ↔ ∃ k, (k, i) ∈ elems (c_id c)) as Hact.
  { intros i. rewrite (slot_active_at h c l l i Hc). split.
    - destruct (at_slot l i) as [r|] eqn:E; [|done]. intros _. pose proof (Hkeys i r E) as Hk.
      destruct (get_row_pk_value h r) as [k|] eqn:Ek; [|done]. exists k. apply Hin. unfold id_key. rewrite E. exact Ek.
    - intros (k & Hk). apply Hin in Hk. unfold id_key in Hk. by destruct (at_slot l i). }
  split.
  - apply list.Forall_forall. intros [k i] Hki. split; [|apply Hact; by exists k]. apply Hin in Hki. unfold id_key in Hki.
    destruct (at_slot l i) as [r|]; [|done]. cbn in Hki. unfold get_row_pk_value in Hki. rewrite Hpk in Hki. by apply parse_long_range in Hki.
  - rewrite (ss_active _ _ Hs), <- (idx_from_length s_active 0). f_equal.
    rewrite <- (length_fmap snd (elems (c_id c))). apply Permutation_length, NoDup_Permutation.
    + apply NoDup_rows; [by apply klt_sorted_NoDup, tree_ok_sorted|]. intros k k' i H1%Hin H2%Hin. congruence.
    + apply idx_from_NoDup.
    + intros i. rewrite <- active_slot, Hact. split.
      * intros ([k j] & -> & Hp)%list_elem_of_fmap. by exists k.
      * intros (k & Hk). apply list_elem_of_fmap. by exists (k, i).
Qed.

Lemma table_uk_pairs c l col u :
  table_ok h c l → Forall plain_row (omap id l) → index_of u (uk_key col l) →
  tree_ok u ∧ Forall (uk_pair_ok (c_slots c)) (elems u) ∧ Z.of_nat (length (elems u)) ≤ active_count (c_slots c).
Proof using All.
  intros Hc Hpl [Hok Hu]. pose proof Hc as [Hch (f & Hf & [Hs _ _] & Ht) _]. cbn [rs_file rs_slots] in Hs.
  assert (∀ k i, (k, i) ∈ elems u → ∃ r, at_slot l i = Some r ∧ uk_text col r = k) as Hin.
  { intros k i Hki. apply (assoc_get_Some k i (elems u)) in Hki; [|by apply tree_ok_sorted]. apply Hu in Hki. unfold uk_key in Hki.
    destruct (at_slot l i) as [r|]; [|done]. exists r. split; [done|]. cbn in Hki. destruct (uk_text col r); [done|by injection Hki]. }
  assert (∀ k i, (k, i) ∈ elems u → slot_is_active (c_slots c) i = true) as Hact.
  { intros k i Hki. destruct (Hin k i Hki) as (r & Hr & _). by rewrite (slot_active_at h c l l i Hc), Hr. }
  split; [done|]. split.
  - apply list.Forall_forall. intros [k i] Hki. destruct (Hin k i Hki) as (r & Hr & <-). split; [|split; [apply uk_text_length|by eapply Hact]].
    assert (plain_row r) as (Hline & _).
    { eapply list.Forall_forall; [exact Hpl|]. apply list_elem_of_omap. exists (Some r). split; [|done].
      unfold at_slot in Hr. destruct (0 <=? i); [|done]. destruct (l !! Z.to_nat i) as [x|] eqn:E; [|done]. cbn in Hr. subst x. by eapply list_elem_of_lookup_2. }
    cbn [fst]. apply forallb_forall. intros x Hx. revert x Hx. apply List.Forall_forall. apply uk_text_chars. apply List.Forall_forall. by apply forallb_forall.
  - rewrite (ss_active _ _ Hs), <- (idx_from_length s_active 0). rewrite <- (length_fmap snd (elems u)). apply inj_le.
    apply submseteq_length, NoDup_submseteq.
    + apply NoDup_rows; [by apply klt_sorted_NoDup, tree_ok_sorted|]. intros k k' i H1 H2.
      destruct (Hin _ _ H1) as (r & Hr & <-), (Hin _ _ H2) as (r' & Hr' & <-). congruence.
    + intros i ([k j] & -> & Hp)%list_elem_of_fmap. apply active_slot. by eapply Hact.
Qed.

(** The numbers of a table that the snapshot prints are in range. *)
Definition numbers_ok (t : Table) : Prop :=
  Forall slot_in_range (slots (c_slots (t_cache t))) ∧ LONG_MIN ≤ next_auto_id (t_cache t) ≤ LONG_MAX ∧ LONG_MIN ≤ next_row_id (t_cache t) ≤ LONG_MAX.

Lemma all_trees (P : nat → tree cstr → Prop) (cols : list nat) ts :
  length ts = length cols → (∀ k col, cols !! k = Some col → ∃ u, ts !! k = Some (Some u) ∧ P col u) →
  ∃ us, ts = map Some us ∧ length cols = length us ∧ Forall2 P cols us.
Proof using Type.
  revert cols; induction ts as [|t ts IH]; intros [|col cols] Hl Hts; try done; [by exists []|].
  destruct (Hts 0%nat col eq_refl) as (u & [= ->] & Hu). destruct (IH cols) as (us & -> & Hlu & Hus); [by injection Hl|intros k c Hk; by apply (Hts (S k))|].
  exists (u :: us). split; [done|]. split; [cbn; by f_equal|by constructor].
Qed.

Lemma table_ready t l :
  table_ok h (t_cache t) l → Forall plain_row (omap id l) → cache_truncated t = false → tail_entries (t_tail t) = [] → numbers_ok t →
  ∃ us, ready h t us ∧ Forall2 (fun col u => index_of u (uk_key col l)) (h_uks h) us.
Proof using All.
  intros Hc Hpl Htr Htl (Hsl & Hna & Hnr). pose proof Hc as [Hch (f & Hf & [Hs _ _] & Ht) [[Hok Hid] Hkeys Hlen Huks]]. cbn [rs_file rs_slots] in Hs.
  destruct (all_trees (fun col u => index_of u (uk_key col l)) (h_uks h) (c_uks (t_cache t)) Hlen Huks) as (us & Hus & Hlu & Hf2).
  destruct (table_pairs (t_cache t) l Hc) as [Hp Hpn]. pose proof (ss_max _ _ Hs). pose proof (countb_le s_active (slots (c_slots (t_cache t)))).
  pose proof (countb_nonneg s_active (slots (c_slots (t_cache t)))). pose proof (ss_active _ _ Hs) as Ha. unfold record_count in *.
  exists us. split; [|done]. constructor; try done.
  - constructor; try done; unfold record_count; rewrite ?Htl; cbn; unfold MAX_RECORDS in *; lia.
  - eapply Forall2_Forall_r; [exact Hf2|]. apply list.Forall_forall. intros col _ u Hu. by apply (table_uk_pairs (t_cache t) l col u).
Qed.
End ready.
