(* ===== verification/ReopenClaims.v ===== *)
(** Closing and opening the tables of the stand-alone executor with their snapshots:
    what comes back, and what does not. *)

From Stdlib Require Import String.
From S2P Require Import Prelude CString Scanf BPTree BPTreeProofs BPTreeSpec BPTreeScan BPTreeString BPTreeIndex Lexer Parser Values Table InsertProofs Store StoreProofs.
From S2P Require Import LegacyRow LegacyRowProofs LegacyCache LegacyCacheProofs LegacyIndex LegacyIndexProofs DeltaLog DeltaLogProofs LegacyTable LegacyTableProofs LegacyLoadProofs LegacyClaims.
From S2P Require Import LegacySelect LegacyWrite LegacyWriteProofs LegacyUpdateProofs LegacyWriteClaims LegacySnapshot LegacySnapshotProofs LegacyReopenProofs Executor.
From stdpp Require Import base numbers list sorting option gmap.
Local Open Scope Z_scope.

(** ** A table that loads as it was saved *)

(** The slot is in the file, not only in memory. *)
Definition in_file (sl : Slot) : Prop := s_active sl = true → s_store sl = ROW_STORE_CSV.

#[global] Instance in_file_dec sl : Decision (in_file sl).
Proof. unfold in_file. apply _. Defined.

#[global] Instance numbers_ok_dec t : Decision (numbers_ok t).
Proof. unfold numbers_ok, slot_in_range. apply _. Defined.

Lemma reloaded_ok f sl : slot_ok f sl → in_file sl → slot_ok f (reloaded sl) ∧ slot_text f (reloaded sl) = slot_text f sl ∧ s_cached (reloaded sl) = false.
Proof.
  intros [H1 H2 H3 H4 H5] Hin. unfold reloaded, loaded_slot, slot_text, in_file in *. destruct (s_active sl) eqn:Ea; cbn.
  - specialize (H1 eq_refl (Hin eq_refl)) as (Ho & Hl & Hr). split; [|split; [|done]].
    + constructor; cbn; try done. split; [done|]. intros [? _]. done.
    + destruct (s_row sl) as [r|]; [|done]. by rewrite (Hr r eq_refl).
  - split; [|done]. constructor; cbn; try done. split; [done|]. intros [? _]. done.
Qed.

Lemma countb_none {A} (P : A → bool) l : Forall (fun x => P x = false) l → countb P l = 0.
Proof. induction 1 as [|x l H _ IH]; [done|]. cbn. by rewrite H, IH. Qed.

Lemma countb_idle sls : countb idle sls + countb s_active sls = Z.of_nat (length sls).
Proof. induction sls as [|sl sls IH]; [done|]. cbn [countb length]. unfold idle at 1. destruct (s_active sl); cbn [negb Z.b2z]; lia. Qed.

(** The slots that were read are well formed over the same file. *)
Lemma reopened_slots f s s1 :
  slots_ok f s → Forall in_file (slots s) → slots s1 = map reloaded (slots s) → active_count s1 = active_count s →
  cached_record_count s1 = 0 → row_cache_evict_cursor s1 = 0%nat → record_count s ≤ record_capacity s1 →
  free_slots s1 = idle_from 0 (slots s) → Z.of_nat (length (free_slots s1)) ≤ free_capacity s1 →
  slots_ok f s1 ∧ texts f s1 = texts f s.
Proof.
  intros Hs Hin E Ha Hc Hcur Hcap Hf Hfc. pose proof Hs as [].
  assert (Forall (fun sl => slot_ok f (reloaded sl) ∧ slot_text f (reloaded sl) = slot_text f sl ∧ s_cached (reloaded sl) = false) (slots s)) as Hr.
  { apply list.Forall_forall. intros sl Hsl. apply reloaded_ok; [by eapply list.Forall_forall in ss_slots|by eapply list.Forall_forall in Hin]. }
  assert (record_count s1 = record_count s) as Erc by (unfold record_count; by rewrite E, length_map).
  pose proof (countb_idle (slots s)) as Hidle. rewrite <- (idx_from_length idle 0) in Hidle. split.
  - constructor.
    + rewrite E. apply Forall_map_list. eapply List.Forall_impl; [|exact Hr]. tauto.
    + rewrite Hc, E, countb_none; [done|]. apply Forall_map_list. eapply List.Forall_impl; [|exact Hr]. tauto.
    + rewrite Hc. unfold ROW_CACHE_LIMIT. lia.
    + rewrite Ha, E, ss_active. clear. induction (slots s) as [|sl l IH]; [done|]. cbn [map countb]. rewrite IH. f_equal.
      unfold reloaded, loaded_slot. by destruct (s_active sl).
    + by right.
    + by rewrite Erc.
    + by rewrite Erc.
    + rewrite Hf. apply list.Forall_forall. intros i (sl & Hi & Hl & Hid)%idx_from_elem. rewrite Z.sub_0_r in Hl.
      pose proof (lookup_lt_Some _ _ _ Hl). rewrite Erc. unfold record_count. split; [lia|].
      unfold slot_at. rewrite E, list_lookup_fmap, Hl. cbn. unfold idle in Hid. apply negb_true_iff in Hid. unfold reloaded, loaded_slot. by rewrite Hid.
    + rewrite Hf. apply idx_from_NoDup.
    + rewrite Hf, Ha, Erc, ss_active. unfold idle_from, record_count. lia.
    + done.
  - unfold texts. rewrite E, map_map. apply map_ext_in. intros sl Hsl. apply list_elem_of_In in Hsl. eapply list.Forall_forall in Hr; [|exact Hsl]. tauto.
Qed.

(** The first line of [f] is the header. *)
Lemma header_first h body : header_line_ok h →
  ∃ g, fgets (RECORD_SIZE - 1) (write_table_header h ++ body) = (g ++ [NL], body) ∧ parse_header (g ++ [NL]) = h ∧ write_table_header h = g ++ [NL].
Proof.
  intros Hhl. destruct (header_line h Hhl) as (g & Hg & Hgl & Hgn & Hgp). exists g. split; [|by split].
  rewrite Hg, <- app_assoc. cbn [app]. by apply fgets_line.
Qed.

(** A header that was just read. *)
Lemma reset_table_new h f : ∃ t0, reset_table h f None = Some t0 ∧ blank_table h t0 ∧ c_file (t_cache t0) = Some f ∧
  c_pages (t_cache t0) = clear_page_cache ∧ t_delta t0 = no_log.
Proof.
  unfold reset_table. destruct (ix_create_ok (K := Z) (T := tree Z)) as (t & Ht & _). change (ix_create (T := tree Z)) with (bptree_create (K := Z) always_ok) in Ht. rewrite Ht.
  destruct empty_index_string as (u & -> & _). cbn [mbind option_bind]. eexists. split; [reflexivity|]. by split.
Qed.

Lemma name_copied name : name_ok name → strcpy_sz 256 name = name.
Proof. intros (_ & _ & H). unfold strcpy_sz. by rewrite take_ge by lia. Qed.

(** What [stat] says of a file. *)
Definition file_stamp (tm : Times) (f : cstr) : FileStamp := mkStamp 1 (Z.of_nat (length f)) (csv_mtime tm).

Definition stat_ok (tm : Times) (f : cstr) : Prop := Z.of_nat (length f) ≤ LONG_MAX ∧ LONG_MIN ≤ csv_mtime tm ≤ LONG_MAX.

Lemma file_stamp_ok tm f : stat_ok tm f → stamp_ok (file_stamp tm f).
Proof. intros [H1 H2]. split; [cbn; lia|]. split; [cbn; unfold LONG_MIN; lia|done]. Qed.

(** The snapshot of [t] beside the file [f], without a log. *)
Definition snapshot_of (h : Header) (tm : Times) (name f : cstr) (t : Table) (us : list (tree cstr)) : cstr :=
  snapshot_head name (file_stamp tm f) (mkStamp 0 0 0) t ++ snapshot_body h t us.

(** Opening a table whose snapshot is that of the table [t]. *)
Lemma open_with_snapshot io tm h name t us body :
  let f := write_table_header h ++ body in let text := snapshot_of h tm name f t us in
  header_line_ok h → name_ok name → ready h t us → stat_ok tm f →
  ∃ t0 t1, open_table io tm name f None (Some text) = Some (true, t1, mkSnap name (Some text) true false) ∧
    reopened h t t0 t1 us ∧ c_file (t_cache t1) = Some f ∧ c_pages (t_cache t1) = clear_page_cache ∧ t_delta t1 = no_log.
Proof.
  cbv zeta. intros Hhl Hn Hr Hst. unfold open_table. destruct (header_first h body Hhl) as (g & Hfg & Hp & _). rewrite Hfg.
  set (f := write_table_header h ++ body) in *. set (text := snapshot_of h tm name f t us).
  assert (match g ++ [NL] with [] => mkHeader [] None [] | _ :: _ => parse_header (g ++ [NL]) end = h) as ->.
  { revert Hp. destruct (g ++ [NL]) eqn:Eg; [by destruct g|]. done. }
  destruct (reset_table_new h f) as (t0 & -> & Hb & Hf0 & Hp0 & Hd0). cbn [mbind option_bind].
  rewrite name_copied by done.
  destruct (load_ready h name Hn (header_schema h (proj1 Hhl)) tm t us t0 (file_stamp tm f) (mkStamp 0 0 0) (mkSnap name (Some text) false false))
    as (t1 & E & Hre); [done|done|by apply file_stamp_ok| |done|done|done|].
  { unfold csv_stamp, file_stamp. by rewrite Hf0. }
  rewrite E. cbn [idx_file mbind option_bind]. exists t0, t1. destruct Hre. rewrite rn_file, rn_pages, rn_delta.
  split; [|by split_and!]. do 3 f_equal. destruct t1. reflexivity.
Qed.

(** It holds the same rows when each was in the file. *)
Lemma reopened_table h p t t0 t1 us f l :
  h_pk h = Some p → header_ok h → reopened h t t0 t1 us → c_file (t_cache t1) = Some f → c_pages (t_cache t1) = clear_page_cache →
  c_uks (t_cache t) = map Some us →
  table_ok h (t_cache t) l → c_file (t_cache t) = Some f → Forall in_file (slots (c_slots (t_cache t))) → table_ok h (t_cache t1) l.
Proof.
  intros Hpk Hh [] Hf1 Hp1 Hus [Hch (f' & Hf & [Hs Hpg He] & Ht) [[Hok Hid] Hkeys Hlen Huks]] Hfile Hin. cbn [rs_file rs_slots rs_pages] in *.
  rewrite Hfile in Hf. injection Hf as <-.
  destruct (reopened_slots f (c_slots (t_cache t)) (c_slots (t_cache t1))) as [Hs1 Ht1]; try done.
  constructor; [done| |].
  - exists f. split; [done|]. split; [|by rewrite Ht1]. constructor; cbn [rs_file rs_slots rs_pages]; [done| |done]. rewrite Hp1. apply pages_ok_clear.
  - destruct rn_id as [Hi1 Hi2]. destruct rn_uks as (us' & Hu1 & Hf2). constructor.
    + split; [done|]. intros k i. change (ix_elems (c_id (t_cache t1))) with (elems (c_id (t_cache t1))). rewrite Hi2. apply Hid.
    + done.
    + rewrite Hu1, length_map. rewrite Hus, length_map in Hlen. by rewrite (Forall2_length _ _ _ Hf2).
    + intros k col Hk. destruct (Huks k col Hk) as (u & Hku & Hiu). rewrite Hus, list_lookup_fmap in Hku.
      destruct (us !! k) as [u0|] eqn:Eu; [|done]. injection Hku as ->.
      destruct (Forall2_lookup_r _ _ _ _ _ Hf2 Eu) as (u' & Hu' & Hok' & He'). exists u'. rewrite Hu1, list_lookup_fmap, Hu'. split; [done|].
      destruct Hiu as [_ Hiu]. split; [done|]. intros k' i. change (ix_elems u') with (elems u'). rewrite He'. apply Hiu.
Qed.

(** A table with a key whose rows all stand in its file, with nothing pending. *)
Record settled (h : Header) (l : list (option cstr)) (body : cstr) (t : Table) : Prop := {
  se_table : table_ok h (t_cache t) l;
  se_file : c_file (t_cache t) = Some (write_table_header h ++ body);
  se_rows : Forall plain_row (omap id l);
  se_whole : cache_truncated t = false ∧ tail_entries (t_tail t) = [];
  se_slots : Forall in_file (slots (c_slots (t_cache t)));
  se_numbers : numbers_ok t;
  se_log : log_text (t_delta t) = None ∧ delta_file (t_delta t) = false;
}.

Lemma save_ready io tm t s h us f :
  ready h t us → csv_stamp tm t = file_stamp tm f → log_text (t_delta t) = None → delta_file (t_delta t) = false →
  LegacySnapshot.table_name s ≠ [] → snapshot_loaded s && negb (snapshot_dirty s) = false → io 2%nat = true →
  save_index_snapshot io tm t s =
    Some (true, t, mkSnap (LegacySnapshot.table_name s) (Some (snapshot_of h tm (LegacySnapshot.table_name s) f t us)) true false).
Proof.
  intros Hr Hf Hlog Hdf Hn Hld Hio. unfold save_index_snapshot. pose proof (re_whole _ _ _ Hr) as [-> _].
  assert (match LegacySnapshot.table_name s with [] => true | _ :: _ => false end = false) as -> by (by destruct (LegacySnapshot.table_name s)).
  rewrite Hld. unfold close_delta_batch. rewrite Hdf. cbn [negb orb].
  assert (set_delta t (t_delta t) = t) as -> by by destruct t.
  assert (delta_stamp tm t = mkStamp 0 0 0) as -> by (unfold delta_stamp; by rewrite Hlog).
  rewrite (snapshot_text_ready h (LegacySnapshot.table_name s) t us) by done. cbn [mbind option_bind]. rewrite Hio.
  unfold snapshot_of. by rewrite Hf.
Qed.

Lemma csv_stamp_open tm t f : c_file (t_cache t) = Some f → csv_stamp tm t = file_stamp tm f.
Proof. intros H. unfold csv_stamp. by rewrite H. Qed.

Lemma settled_ready h p l body t : header_ok h → h_pk h = Some p → settled h l body t → ∃ us, ready h t us.
Proof. intros Hh Hpk [H1 H2 H3 [H4 H5] H6 H7 H8]. destruct (table_ready h p Hpk Hh t l) as (us & Hus & _); [done..|]. by exists us. Qed.

(** The table that is opened is of the same kind. *)
Lemma reopened_settled h p l body t t0 t1 us :
  header_ok h → h_pk h = Some p → settled h l body t → ready h t us → reopened h t t0 t1 us →
  c_file (t_cache t1) = Some (write_table_header h ++ body) → c_pages (t_cache t1) = clear_page_cache → t_delta t1 = no_log →
  settled h l body t1 ∧ append_ok t1 (write_table_header h ++ body).
Proof.
  intros Hh Hpk [H1 H2 H3 H4 H5 (H6 & H6a & H6b) H7] Hr Hre Hf1 Hp1 Hd1. split.
  - constructor; try done.
    + by eapply (reopened_table h p t t0 t1 us); try done; apply Hr.
    + apply Hre.
    + rewrite (rn_slots _ _ _ _ _ Hre). apply Forall_map_list, List.Forall_forall. intros sl _. unfold in_file, reloaded, loaded_slot. by destruct (s_active sl).
    + split; [|by rewrite (rn_auto _ _ _ _ _ Hre), (rn_row _ _ _ _ _ Hre)]. rewrite (rn_slots _ _ _ _ _ Hre). apply Forall_map_list. eapply List.Forall_impl; [|exact H6].
      intros sl [Ha Hb]. unfold slot_in_range, reloaded, loaded_slot. destruct (s_active sl); cbn; by split.
    + by rewrite Hd1.
  - right. rewrite (rn_offset _ _ _ _ _ Hre), <- (rn_file _ _ _ _ _ Hre), Hf1. done.
Qed.

(** Saving the snapshot of such a table and opening it with it. *)
Lemma settled_reopens io tm tm' t s h p l body :
  let f := write_table_header h ++ body in let name := LegacySnapshot.table_name s in
  header_line_ok h → h_pk h = Some p → settled h l body t → name_ok name →
  snapshot_loaded s && negb (snapshot_dirty s) = false → io 2%nat = true → stat_ok tm f → csv_mtime tm' = csv_mtime tm →
  ∃ s1 t1, save_index_snapshot io tm t s = Some (true, t, s1) ∧ open_table io tm' name f None (idx_file s1) = Some (true, t1, s1) ∧
    settled h l body t1 ∧ append_ok t1 f ∧
    next_auto_id (t_cache t1) = next_auto_id (t_cache t) ∧ next_row_id (t_cache t1) = next_row_id (t_cache t).
Proof.
  cbv zeta. intros Hhl Hpk Hse Hn Hld Hio Hst Ht. pose proof (proj1 Hhl) as Hh. destruct (settled_ready h p l body t Hh Hpk Hse) as (us & Hr).
  pose proof (se_log _ _ _ _ Hse) as [H8 H9].
  rewrite (save_ready io tm t s h us (write_table_header h ++ body)); [|done|by apply csv_stamp_open, Hse|done|done|by destruct Hn|done|done].
  destruct (open_with_snapshot io tm' h (LegacySnapshot.table_name s) t us body Hhl Hn Hr) as (t0 & t1 & E & Hre & Hf1 & Hp1 & Hd1).
  { split; [apply Hst|rewrite Ht; apply Hst]. }
  assert (snapshot_of h tm' = snapshot_of h tm) as Esn by (unfold snapshot_of, file_stamp; by rewrite Ht). rewrite Esn in E.
  destruct (reopened_settled h p l body t t0 t1 us Hh Hpk Hse Hr Hre Hf1 Hp1 Hd1) as [H1 H2].
  eexists _, t1. split; [reflexivity|]. split; [exact E|]. split; [done|]. split; [done|]. split; apply Hre.
Qed.

(** ** The executor *)

Lemma files_of_insert d name x : files_of (<[name := x]> d) name = x.
Proof. unfold files_of. by rewrite lookup_insert_eq. Qed.

(** The table of a state is opened from its files. *)
Lemma get_table_closed io mt name e f d l t s :
  open_tables e = [] → files_of (disk e) name = mkFiles (Some f) d l →
  open_table io (times mt (disk e) name) name f d l = Some (true, t, s) →
  get_table io mt name e = Some (Some 0%nat, mkExec [mkOpen t s (g_table_access_seq e + 1)] (g_table_access_seq e + 1) (disk e)).
Proof.
  intros Ho Hf E. unfold get_table. rewrite Ho. cbn [find_open]. rewrite Hf. cbn [csv]. cbn [length MAX_TABLES Nat.ltb Nat.leb].
  unfold load_into. rewrite Hf. cbn [delta idx]. rewrite E. cbn [mbind option_bind]. by rewrite Ho.
Qed.

(** A table that is closed leaves its file and its snapshot. *)
Lemma close_settled io mt d o h p l body :
  let t := o_table o in let f := write_table_header h ++ body in let tm := times mt d (o_name o) in
  header_line_ok h → h_pk h = Some p → settled h l body t → name_ok (o_name o) → 0 < record_capacity (c_slots (t_cache t)) →
  snapshot_loaded (o_snap o) && negb (snapshot_dirty (o_snap o)) = false → io 2%nat = true →
  ∃ s1, save_index_snapshot io tm t (o_snap o) = Some (true, t, s1) ∧
    close_table io mt d o = Some (<[o_name o := mkFiles (Some f) None (idx_file s1)]> d).
Proof.
  cbv zeta. intros Hhl Hpk Hse Hn Hcap Hld Hio. pose proof (proj1 Hhl) as Hh. destruct (settled_ready h p l body _ Hh Hpk Hse) as (us & Hr).
  pose proof (se_log _ _ _ _ Hse) as [H8 H9]. pose proof (se_file _ _ _ _ Hse) as Hf.
  pose proof (save_ready io (times mt d (o_name o)) (o_table o) (o_snap o) h us (write_table_header h ++ body) Hr (csv_stamp_open _ _ _ Hf) H8 H9) as Hs.
  rewrite Hs by (done || by destruct Hn). eexists. split; [reflexivity|]. unfold close_table. rewrite Hf.
  assert (delta_log_exists (t_delta (o_table o)) = false) as -> by (unfold delta_log_exists; by rewrite H8). rewrite !andb_false_r. cbn [mbind option_bind].
  unfold free_table_storage. rewrite (re_hdr _ _ _ Hr). destruct Hh as (_ & _ & [Hc _] & _). rewrite (proj2 (Nat.ltb_lt 0 _)) by done.
  rewrite (proj2 (Z.ltb_lt 0 _)) by done. cbn [andb]. rewrite Hs by (done || by destruct Hn). cbn [mbind option_bind idx_file].
  rewrite Hf. unfold close_log. by rewrite H9, H8.
Qed.


(** ** The first session *)

(** Rows that were just read from the file. *)
Lemma loading_settled h p t rows :
  let f := write_table_header h ++ row_lines rows in
  h_pk h = Some p → Forall plain_row rows → Z.of_nat (length rows) ≤ MAX_RECORDS → Z.of_nat (length f) ≤ LONG_MAX →
  loading h f false t (map Some rows) → t_delta t = no_log → settled h (map Some rows) (row_lines rows) t.
Proof.
  cbv zeta. intros Hpk Hpl Hm Hlen Hlo Hd. destruct (loading_slots h _ _ _ _ Hlo) as (Hs & Htx & _).
  destruct Hlo as [Htab Hf Hfr Hw (Hn1 & Hn2 & Hn3)]. rewrite length_map in Hn2, Hn3. constructor; try done.
  - assert (omap id (map Some rows) = rows) as -> by (clear; induction rows as [|r rows IH]; cbn; [done|by f_equal]). done.
  - eapply List.Forall_impl; [|exact Hn3]. intros sl [? _]. by intros _.
  - split; [|rewrite Hn1, Hn2; unfold LONG_MIN, LONG_MAX, MAX_RECORDS in *; lia].
    apply list.Forall_forall. intros sl Hsl. assert (s_active sl = true) as Ha.
    { apply (list_elem_of_fmap_2 (slot_text (write_table_header h ++ row_lines rows))) in Hsl. change (map (slot_text _) _) with (texts (write_table_header h ++ row_lines rows) (c_slots (t_cache t))) in Hsl.
      unfold texts in Htx. change (slot_text _ <$> _) with (map (slot_text (write_table_header h ++ row_lines rows)) (slots (c_slots (t_cache t)))) in Hsl. rewrite Htx in Hsl.
      apply list_elem_of_In, in_map_iff in Hsl as (r & Hr & _). unfold slot_text in Hr. by destruct (s_active sl). }
    pose proof (ss_slots _ _ Hs) as Hok. eapply list.Forall_forall in Hok; [|exact Hsl]. eapply list.Forall_forall in Hn3; [|exact Hsl].
    destruct Hn3 as [Hst Hid]. destruct (so_file _ _ Hok Ha Hst) as [Ho _]. split; unfold LONG_MIN, LONG_MAX, MAX_RECORDS in *; lia.
  - by rewrite Hd.
Qed.

(** Opening a file without a log and without a snapshot saves one, of the table as it is
    before the next automatic key is set. *)
Lemma open_first io tm h p name rows :
  let f := write_table_header h ++ row_lines rows in
  header_line_ok h → h_pk h = Some p → Forall plain_row rows → fresh_rows h [] rows → rows ≠ [] → Z.of_nat (length rows) ≤ MAX_RECORDS →
  name_ok name → io 2%nat = true → Z.of_nat (length f) ≤ LONG_MAX →
  ∃ t t' us, settled h (map Some rows) (row_lines rows) t ∧ ready h t us ∧ next_auto_id (t_cache t) = 1 ∧
    open_table io tm name f None None = Some (true, t', mkSnap name (Some (snapshot_of h tm name f t us)) true false) ∧
    c_file (t_cache t') = Some f ∧ cache_truncated t' = false ∧ t_delta t' = no_log ∧
    Forall (fun r => ∀ k, get_row_pk_value h r = Some k → k < next_auto_id (t_cache t')) rows.
Proof.
  cbv zeta. intros Hhl Hpk Hpl Hfr Hne Hm Hn Hio Hsz. pose proof (proj1 Hhl) as Hh.
  set (f := write_table_header h ++ row_lines rows) in *.
  assert (Forall (fun r => get_row_pk_value h r ≠ None) rows) as Hks by (by apply (fresh_rows_keys h [])).
  destruct (header_first h (row_lines rows) Hhl) as (g & Hfg & Hp & Hg). fold f in Hfg.
  assert (ends_nl f) as He.
  { right. unfold f. destruct rows as [|r rows0 _] using rev_ind; [done|]. exists (write_table_header h ++ row_lines rows0 ++ r).
    unfold row_lines. rewrite map_app, concat_app. cbn [map concat]. by rewrite app_nil_r, !app_assoc. }
  destruct (reset_table_ok h f None He) as (t0 & Ht0 & Hlo0 & Hd0).
  assert (f = (g ++ [NL]) ++ row_lines rows) as Ef by (unfold f; by rewrite Hg).
  destruct (load_rows_ok h p Hpk (header_uks_NoDup h Hh) f false rows t0 [] (g ++ [NL]) (length (row_lines rows)) 1)
    as (t & E & Hlo & Hd); [done|done|done|done|done|cbn; lia|done|]. cbn [app] in Hlo.
  assert (settled h (map Some rows) (row_lines rows) t) as Hse.
  { apply (loading_settled h p); [done|done|done|done|done|]. by rewrite Hd, Hd0. }
  destruct (settled_ready h p _ _ t Hh Hpk Hse) as (us & Hr).
  destruct (loading_slots h _ _ _ _ Hlo) as (_ & _ & _ & _ & Hact). rewrite length_map in Hact.
  pose proof (se_log _ _ _ _ Hse) as [H8 H9]. pose proof (se_whole _ _ _ _ Hse) as [H4 _]. pose proof (se_file _ _ _ _ Hse) as Hf.
  assert (delta_log_exists (t_delta t) = false) as Hno by (unfold delta_log_exists; by rewrite H8).
  exists t. eexists. exists us. split; [done|]. split; [done|]. split; [apply (lo_new _ _ _ _ _ Hlo)|].
  split.
  - unfold open_table. rewrite Hfg. assert (match g ++ [NL] with [] => mkHeader [] None [] | _ :: _ => parse_header (g ++ [NL]) end = h) as ->.
    { revert Hp. destruct (g ++ [NL]) eqn:Eg; [by destruct g|]. done. }
    rewrite Ht0. cbn [mbind option_bind]. rewrite name_copied by done.
    assert (load_table_parse_snapshot tm t0 (mkSnap name None false false) = (false, t0, mkSnap name None false false)) as ->.
    { unfold load_table_parse_snapshot. cbn. by destruct name. }
    assert (delta_log_exists (t_delta t0) = false) as -> by (by rewrite Hd0). rewrite E. cbn [mbind option_bind].
    unfold finish_open. rewrite Hno. cbn [andb]. cbv iota zeta. rewrite Hno. cbn [negb].
    rewrite Hact, (proj2 (Z.eqb_neq _ 0)) by (destruct rows; [done|simpl; lia]).
    assert (load_index_snapshot tm t (mkSnap name None false false) = (false, t, mkSnap name None false false)) as ->.
    { unfold load_index_snapshot. cbn [LegacySnapshot.table_name idx_file mbind option_bind]. rewrite H4. by destruct name. }
    rewrite (save_ready io tm t (mkSnap name None false false) h us f); [|done|by apply csv_stamp_open|done|done|by destruct Hn|done|done].
    cbn [mbind option_bind LegacySnapshot.table_name]. reflexivity.
  - destruct (next_key_spec h 1 rows) as [_ Hk]. unfold raise_auto_id.
    split; [by destruct (_ <? _)|]. split; [done|]. split; [cbn; by rewrite Hd, Hd0|].
    eapply List.Forall_impl; [|exact Hk]. intros r Hrk k Ek. specialize (Hrk k Ek). cbn [t_cache set_append_offset set_cache].
    destruct (next_auto_id (t_cache t) <? next_key h 1 rows) eqn:El; bool_to_prop; cbn; lia.
Qed.

(** Closing a table whose snapshot is up to date leaves that snapshot. *)
Lemma close_saved io mt d t seq name x f :
  c_file (t_cache t) = Some f → cache_truncated t = false → t_delta t = no_log → name ≠ [] →
  close_table io mt d (mkOpen t (mkSnap name (Some x) true false) seq) = Some (<[name := mkFiles (Some f) None (Some x)]> d).
Proof.
  intros Hf Ht Hd Hn. unfold close_table. cbn [o_table o_snap]. rewrite Hf, Ht, Hd. cbn [delta_log_exists no_log log_text negb andb].
  rewrite andb_false_r. cbn [mbind option_bind]. unfold free_table_storage, o_name. cbn [o_table o_snap LegacySnapshot.table_name].
  assert (save_index_snapshot io (times mt d name) t (mkSnap name (Some x) true false) = Some (true, t, mkSnap name (Some x) true false)) as ->.
  { unfold save_index_snapshot. cbn [LegacySnapshot.table_name snapshot_loaded snapshot_dirty negb andb]. rewrite Ht. by destruct name. }
  destruct (_ && _); cbn [mbind option_bind idx_file]; by rewrite Hf, Hd.
Qed.

(** The automatic key a table would give is taken. *)
Lemma auto_insert_refused io t h p k row_data :
  h_pk h = Some p → c_hdr (t_cache t) = h → auto_id h (parse_csv_row row_data) = true →
  (length (parse_csv_row row_data) ≤ col_count h)%nat → pk_taken (t_cache t) k = true → next_auto_id (t_cache t) = k →
  insert_row_data io t row_data = Some (InsRefused InsDupPk, t).
Proof.
  intros Hpk Hh Ha Hl Ht Hn. unfold insert_row_data, build_insert_row. rewrite Hh, Hpk, Ha, Hn, Ht.
  by rewrite (proj2 (Nat.ltb_ge (col_count h) _)).
Qed.

(** What a session without changes does to the automatic keys of a table with a primary
    key: opening the table without a snapshot puts the next key beyond every key of its rows,
    but the snapshot is saved before that, so that when the table is closed and opened again
    with the snapshot it holds the same rows and its next key is 1; if a row has the key 1,
    every INSERT that leaves the key to the table is refused as a duplicate. *)
Theorem reopened_auto_key_restarts (io : nat → bool) (mt : cstr → Z * Z) (e : Exec) (h : Header) (p : nat) (name : cstr) (rows : list cstr) :
  let f := write_table_header h ++ row_lines rows in
  open_tables e = [] → files_of (disk e) name = mkFiles (Some f) None None → header_line_ok h → h_pk h = Some p →
  Forall plain_row rows → fresh_rows h [] rows → rows ≠ [] → Z.of_nat (length rows) ≤ MAX_RECORDS → name_ok name → io 2%nat = true →
  stat_ok (times mt (disk e) name) f →
  ∃ e1 o1 e2 e3 o3, get_table io mt name e = Some (Some 0%nat, e1) ∧ open_tables e1 = [o1] ∧
    Forall (fun r => ∀ k, get_row_pk_value h r = Some k → k < next_auto_id (t_cache (o_table o1))) rows ∧
    close_all_tables io mt e1 = Some e2 ∧ get_table io mt name e2 = Some (Some 0%nat, e3) ∧ open_tables e3 = [o3] ∧
    settled h (map Some rows) (row_lines rows) (o_table o3) ∧ next_auto_id (t_cache (o_table o3)) = 1 ∧
    (Exists (fun r => get_row_pk_value h r = Some 1) rows → ∀ row_data, auto_id h (parse_csv_row row_data) = true →
       (length (parse_csv_row row_data) ≤ col_count h)%nat → insert_row_data io (o_table o3) row_data = Some (InsRefused InsDupPk, o_table o3)).
Proof.
  cbv zeta. intros Ho Hfs Hhl Hpk Hpl Hfr Hne Hm Hn Hio Hst. pose proof (proj1 Hhl) as Hh.
  set (f := write_table_header h ++ row_lines rows) in *.
  destruct (open_first io (times mt (disk e) name) h p name rows Hhl Hpk Hpl Hfr Hne Hm Hn Hio) as (t & t' & us & Hse & Hr & Hauto & Hop & Hf & Htr & Hd & Hkeys); [apply Hst|]. fold f in Hop, Hf.
  pose proof (get_table_closed io mt name e f None None t' _ Ho Hfs Hop) as Hg.
  set (x := snapshot_of h (times mt (disk e) name) name f t us) in *.
  set (d1 := <[name := mkFiles (Some f) None (Some x)]> (disk e)).
  destruct (open_with_snapshot io (times mt d1 name) h name t us (row_lines rows) Hhl Hn Hr Hst) as (t0 & t1 & E & Hre & Hf1 & Hp1 & Hd1).
  destruct (reopened_settled h p _ _ t t0 t1 us Hh Hpk Hse Hr Hre Hf1 Hp1 Hd1) as [Hse1 _].
  eexists _, _, _, _, _. split; [exact Hg|]. split; [reflexivity|]. split; [exact Hkeys|]. split.
  { unfold close_all_tables. cbn [open_tables close_tables disk]. rewrite (close_saved io mt _ t' _ name x f); [|done|done|done|by destruct Hn]. reflexivity. }
  split.
  { apply (get_table_closed io mt name _ f None (Some x)); [done|apply files_of_insert|]. exact E. }
  split; [reflexivity|]. cbn [o_table]. split; [done|]. assert (next_auto_id (t_cache t1) = 1) as Hone by (by rewrite (rn_auto _ _ _ _ _ Hre)).
  split; [done|]. intros Hex row_data Ha Hl. apply (auto_insert_refused io t1 h p 1); [done|apply Hre|done|done| |done].
  apply list.Exists_exists in Hex as (r & Hrin & Hk). apply list_elem_of_lookup in Hrin as [i Hi].
  pose proof (se_table _ _ _ _ Hse1) as Htab. assert (at_slot (map Some rows) (Z.of_nat i) = Some r) as Hslot.
  { unfold at_slot. rewrite (proj2 (Z.leb_le 0 _)), Nat2Z.id, list_lookup_fmap, Hi by lia. done. }
  unfold pk_taken. rewrite (proj2 (index_search _ (id_key h (map Some rows)) 1 (Z.of_nat i) (tr_id _ _ _ _ (ta_trees _ _ _ _ Htab)))).
  - rewrite (slot_active_at h _ _ _ _ Htab). by rewrite Hslot.
  - unfold id_key. rewrite Hslot. exact Hk.
Qed.

(** ** After a shutdown that compacts *)

(** What the snapshot says of a slot besides its number. *)
Definition slot_ref (sl : Slot) : bool * Z * RowStoreType * Z := (s_active sl, s_id sl, s_store sl, s_offset sl).

Definition refs (s : Slots) : list (bool * Z * RowStoreType * Z) := map slot_ref (slots s).

Lemma refs_set s i sl : slot_ref sl = slot_ref (slot_at s i) → refs (set_slot s i sl) = refs s.
Proof.
  intros H. unfold refs, set_slot. cbn [slots]. change (map slot_ref) with (fmap (M := list) slot_ref). rewrite list_fmap_insert, H.
  destruct (decide (Z.to_nat i < length (slots s))%nat) as [Hi|Hi]; [|by rewrite list_insert_ge by (rewrite length_fmap; lia)].
  apply list_insert_id. rewrite list_lookup_fmap. unfold slot_at. by destruct (lookup_lt_is_Some_2 _ _ Hi) as [x ->].
Qed.

Lemma refs_at s s' i : refs s = refs s' → slot_ref (slot_at s i) = slot_ref (slot_at s' i).
Proof.
  intros H. apply (f_equal (fun l => l !! Z.to_nat i)) in H. unfold refs in H. change (map slot_ref) with (fmap (M := list) slot_ref) in H.
  rewrite !list_lookup_fmap in H. unfold slot_at. destruct (slots s !! Z.to_nat i), (slots s' !! Z.to_nat i); cbn in *; congruence.
Qed.

Lemma evict_scan_refs n s : refs (evict_scan n s).1 = refs s.
Proof.
  revert s; induction n as [|n IH]; intros s; [done|]. cbn [evict_scan].
  set (s1 := set_cursor s _). assert (refs s1 = refs s) as H1 by done.
  destruct (_ || _ || _); [by rewrite IH|]. cbn [fst].
  match goal with |- refs (set_counts ?x _ _) = _ => change (refs x = refs s1) end. by apply refs_set.
Qed.

Lemma evict_refs s s' : evict_row_cache_if_needed s = Some s' → refs s' = refs s.
Proof.
  unfold evict_row_cache_if_needed. generalize (S (Z.to_nat (cached_record_count s - ROW_CACHE_LIMIT + 1))) as fuel. intros fuel.
  revert s; induction fuel as [|fuel IH]; intros s; cbn [evict_loop]; (destruct (cached_record_count s <? ROW_CACHE_LIMIT); [by intros [= <-]|]); [done|].
  destruct (record_count s <=? 0); [by intros [= <-]|]. pose proof (evict_scan_refs (length (slots s)) s) as He.
  destruct (evict_scan (length (slots s)) s) as [s1 []]; cbn [fst] in He; [by intros [= <-]|]. intros H. by rewrite (IH _ H), He.
Qed.

Lemma cache_row_refs c i r c' : cache_row c i = Some (r, c') → refs (c_slots c') = refs (c_slots c) ∧ c_hdr c' = c_hdr c ∧ c_id c' = c_id c ∧ c_uks c' = c_uks c ∧
  next_auto_id c' = next_auto_id c ∧ next_row_id c' = next_row_id c.
Proof.
  unfold cache_row. destruct (slot_row (c_file c) (c_pages c) (c_slots c) i) as [[[row pc] s]|] eqn:E; [|done]. cbn [mbind option_bind]. intros [= <- <-].
  split; [|done]. cbn [c_slots set_store]. revert E. unfold slot_row. destruct (slot_is_active (c_slots c) i); cbn [negb]; [|by intros [= <- <- <-]].
  destruct (s_row (slot_at (c_slots c) i)) as [r|] eqn:Er.
  - destruct (bool_decide _); intros [= <- <- <-]; [done|].
    match goal with |- refs (set_clock ?x _) = _ => change (refs x = refs (c_slots c)) end. by apply refs_set.
  - destruct (c_file c) as [f|]; [|by intros [= <- <- <-]]. destruct (_ && _); [|by intros [= <- <- <-]].
    destruct (evict_row_cache_if_needed (c_slots c)) as [s1|] eqn:Ee; [|done]. apply evict_refs in Ee. cbn [mbind option_bind].
    destruct (read_row f (c_pages c) (s_offset (slot_at (c_slots c) i))) as [[row'|] pc']; intros [= <- <- <-]; [|done].
    match goal with |- refs (set_counts (set_clock ?x _) _ _) = _ => change (refs x = refs (c_slots c)) end. rewrite <- Ee. apply refs_set.
    apply (refs_at _ _ i) in Ee. unfold slot_ref in *. cbn. congruence.
Qed.

Lemma table_rows_refs n i c r c' :
  table_rows n i c = Some (r, c') → refs (c_slots c') = refs (c_slots c) ∧ c_hdr c' = c_hdr c ∧ c_id c' = c_id c ∧ c_uks c' = c_uks c ∧
  next_auto_id c' = next_auto_id c ∧ next_row_id c' = next_row_id c.
Proof.
  revert i c r; induction n as [|n IH]; intros i c r; cbn [table_rows]; [by intros [= <- <-]|].
  destruct (negb _); [apply IH|]. destruct (cache_row c i) as [[[row|] c1]|] eqn:E; cbn [mbind option_bind]; [| |done].
  - apply cache_row_refs in E as (E1 & E2 & E3 & E4 & E5 & E6). destruct (table_rows n (i + 1) c1) as [[rest c2]|] eqn:Et; [|done]. cbn [mbind option_bind].
    intros [= <- <-]. apply IH in Et as (-> & -> & -> & -> & -> & ->). by split_and!.
  - apply cache_row_refs in E. by intros [= <- <-].
Qed.


Lemma slot_range_refs s : Forall (fun r => LONG_MIN ≤ r.1.1.2 ≤ LONG_MAX ∧ LONG_MIN ≤ r.2 ≤ LONG_MAX) (refs s) ↔ Forall slot_in_range (slots s).
Proof. unfold refs. change (map slot_ref) with (fmap (M := list) slot_ref). by rewrite Forall_fmap. Qed.

Lemma closing_works io d : (∀ n, io n = true) → (if delta_file d then close_delta_batch io d else (true, d)).1 = true.
Proof. intros H. destruct (delta_file d) eqn:E; [|done]. unfold close_delta_batch. rewrite E, !H. by destruct (delta_batch_open d). Qed.

(** The same table with the log gone and the file let go of. *)
Definition shut (t : Table) (c : Cache) : Table := set_delta (set_cache t (set_file c None)) no_log.

(** C35. What a shutdown makes of rows that are only in memory: a table with a primary key whose
    rows are partly in memory, as those an UPDATE changed are, and that has a log, is closed
    by [close_all_tables]. Its file is then the header and all its rows; but the snapshot
    that is saved after the file was written still gives the slots the places they had
    before. So when the table is opened again, with this snapshot, a slot that was in
    memory is in use and stands in both its indexes, but its row cannot be read: no
    statement finds it. *)
Theorem shutdown_loses_rows_in_memory (io : nat → bool) (mt : cstr → Z * Z) (e : Exec) (o : Open) (h : Header) (p : nat)
    (l : list (option cstr)) (i : Z) (row : cstr) (k : Z) :
  let t := o_table o in let name := o_name o in
  let f := write_table_header h ++ row_lines (omap id l) in
  open_tables e = [o] → header_line_ok h → h_pk h = Some p → table_ok h (t_cache t) l → Forall plain_row (omap id l) →
  cache_truncated t = false → tail_entries (t_tail t) = [] → numbers_ok t → delta_log_exists (t_delta t) = true →
  active_count (c_slots (t_cache t)) ≤ ROW_CACHE_LIMIT → 0 < record_capacity (c_slots (t_cache t)) → name_ok name →
  (∀ n, io n = true) → stat_ok (mkTimes (Some f) (mt name).1 (mt name).2) f →
  at_slot l i = Some row → get_row_pk_value h row = Some k → s_offset (slot_at (c_slots (t_cache t)) i) < 0 →
  ∃ e1 e2 o2, close_all_tables io mt e = Some e1 ∧ csv (files_of (disk e1) name) = Some f ∧ delta (files_of (disk e1) name) = None ∧
    get_table io mt name e1 = Some (Some 0%nat, e2) ∧ open_tables e2 = [o2] ∧
    let c2 := t_cache (o_table o2) in
    slot_is_active (c_slots c2) i = true ∧ ix_search (c_id c2) k = Some i ∧ cache_row c2 i = Some (None, c2).
Proof.
  cbv zeta. intros Ho Hhl Hpk Hc Hpl Htr Htl Hnum Hlog Hact Hcap Hn Hio Hst Hi Hk Hoff. pose proof (proj1 Hhl) as Hh.
  set (f := write_table_header h ++ row_lines (omap id l)) in *. set (t := o_table o) in *. set (name := o_name o) in *.
  pose proof (table_length h _ l l Hc) as Hlen. pose proof Hc as [Hch (f0 & Hf0 & [Hs _ _] & Htx) _].
  assert (omap id l = rows_from 0 l) as El by (unfold rows_from; done).
  destruct (table_rows_ok h (length (slots (c_slots (t_cache t)))) 0 (t_cache t) l l Hc) as (c1 & Erows & Hc1); [lia|unfold record_count in Hlen; lia|].
  pose proof (table_rows_refs _ _ _ _ _ Erows) as (Hrefs & Hh1 & Hid1 & _ & Hna & Hnr).
  assert (numbers_ok (set_cache t c1)) as Hnum1.
  { destruct Hnum as (Hsl & Hn1 & Hn2). split; [|cbn; by rewrite Hna, Hnr]. cbn [t_cache set_cache]. by rewrite <- slot_range_refs, Hrefs, slot_range_refs. }
  destruct (table_ready h p Hpk Hh (set_cache t c1) l Hc1 Hpl Htr Htl Hnum1) as (us & Hr1 & _).
  assert (ready h (shut t c1) us) as Hr by (destruct Hr1 as [? [] ? ? ? ? ? ? ? ? ?]; constructor; done).
  assert (compact_for_shutdown io (disk e) o =
    Some (true, <[name := mkFiles (Some f) None None]> (disk e), mkOpen (shut t c1) (remove_index_snapshot (o_snap o)) (last_used_seq o))) as Ecomp.
  { unfold compact_for_shutdown. fold t name. rewrite Hf0. unfold table_text. rewrite Erows. cbn [mbind option_bind]. rewrite Hch, <- El. fold f.
    pose proof (closing_works io (t_delta t) Hio) as Hcw. cbn [t_delta set_cache]. destruct (if delta_file (t_delta t) then _ else _) as [ok dl]. cbn in Hcw. by rewrite Hcw. }
  set (d1 := <[name := mkFiles (Some f) None None]> (disk e)) in *.
  assert (0 < record_capacity (c_slots c1)) as Hcap1.
  { destruct Hc1 as [_ (f1 & _ & [Hs1 _ _] & Htx1) _]. cbn [rs_slots] in Hs1. pose proof (ss_capacity _ _ Hs1). pose proof (at_slot_bound _ _ _ Hi).
    unfold record_count in *. rewrite <- Htx1 in H0. unfold texts in H0. rewrite length_map in H0. lia. }
  set (tm1 := times mt d1 name). assert (csv_stamp tm1 (shut t c1) = file_stamp tm1 f) as Hcs.
  { unfold csv_stamp, tm1, times. unfold d1. rewrite !files_of_insert. done. }
  set (x := snapshot_of h tm1 name f (shut t c1) us).
  set (d2 := <[name := mkFiles (Some f) None (Some x)]> d1).
  assert (close_table io mt (disk e) o = Some d2) as Hcl.
  { unfold close_table. fold t. rewrite Hf0, Htr, Hlog, (proj2 (Z.leb_le _ ROW_CACHE_LIMIT)) by done. cbn [negb andb]. rewrite Ecomp. cbn [mbind option_bind].
    unfold free_table_storage. cbn [o_table o_snap]. change (o_name (mkOpen _ (remove_index_snapshot (o_snap o)) _)) with name.
    destruct Hh as (_ & _ & [Hcols _] & _). rewrite (re_hdr _ _ _ Hr). rewrite (proj2 (Nat.ltb_lt 0 _)) by done.
    change (record_capacity (c_slots (t_cache (shut t c1)))) with (record_capacity (c_slots c1)). rewrite (proj2 (Z.ltb_lt 0 _)) by done. cbn [andb].
    rewrite (save_ready io (times mt d1 name) (shut t c1) (remove_index_snapshot (o_snap o)) h us f); [|done|done|done|done|by destruct Hn|done|done].
    cbn [mbind option_bind idx_file]. unfold d2. do 3 f_equal. cbn [shut set_delta set_cache t_cache set_file c_file]. unfold d1. by rewrite files_of_insert. }
  destruct (open_with_snapshot io (times mt d2 name) h name (shut t c1) us (row_lines (omap id l)) Hhl Hn Hr) as (t0 & t1 & E & Hre & Hf1 & Hp1 & Hd1); [exact Hst|].
  eexists _, _, _. split; [unfold close_all_tables; rewrite Ho; cbn [close_tables]; rewrite Hcl; reflexivity|]. cbn [disk]. unfold d2 at 1 2. rewrite files_of_insert.
  split; [done|]. split; [done|]. split.
  { apply (get_table_closed io mt name (mkExec [] (g_table_access_seq e) d2) f None (Some x)); [done|apply files_of_insert|exact E]. }
  split; [reflexivity|]. cbn [o_table]. destruct Hre. change (c_slots (t_cache (shut t c1))) with (c_slots c1) in *. change (c_id (t_cache (shut t c1))) with (c_id c1) in *.
  assert (slot_is_active (c_slots (t_cache t1)) i = true) as Ha.
  { rewrite (reloaded_active _ _ rn_slots), (slot_active_at h _ _ _ _ Hc1). by rewrite Hi. }
  split; [exact Ha|]. split.
  - destruct rn_id as [Hok He]. change (ix_search (c_id (t_cache t1)) k) with (bptree_search (c_id (t_cache t1)) k). rewrite search_refines, He by done.
    rewrite Hid1. destruct Hc as [_ _ [[Hok' Hf'] _ _ _]]. apply Hf'. unfold id_key. rewrite Hi. exact Hk.
  - unfold cache_row, slot_row. rewrite Ha. cbn [negb]. apply slot_is_active_spec in Ha as [Hb Ha].
    assert (slot_at (c_slots (t_cache t1)) i = reloaded (slot_at (c_slots c1) i)) as Esl.
    { unfold slot_at. rewrite rn_slots, list_lookup_fmap. unfold record_count in Hb. rewrite rn_slots, length_map in Hb.
      destruct (lookup_lt_is_Some_2 (slots (c_slots c1)) (Z.to_nat i)) as [sl ->]; [lia|done]. }
    assert (s_offset (slot_at (c_slots c1) i) < 0) as Hoff1.
    { pose proof (refs_at _ _ i Hrefs) as Hri. unfold slot_ref in Hri. injection Hri as _ _ _ ->. done. }
    rewrite Esl in *. unfold reloaded, loaded_slot in *. destruct (s_active (slot_at (c_slots c1) i)) eqn:Ea; cbn in Ha |- *; [|done].
    rewrite Hf1. rewrite (proj2 (Z.leb_gt 0 _)) by done. cbn [mbind option_bind]. by destruct (t_cache t1).
Qed.

(** ** Samples *)

(** The executor with one table open. *)
Definition one_open (t : Table) : Exec :=
  mkExec [mkOpen t (mkSnap (lit "users") None false false) 1] 1 {[ lit "users" := mkFiles (Some sample_file) None None ]}.

Definition on_disk (file : cstr) : Exec := mkExec [] 0 {[ lit "users" := mkFiles (Some file) None None ]}.

Definition sample_times : cstr → Z * Z := fun _ => (5, 6).

Definition sample_updated : Table :=
  match execute_update all_writes sample_table sample_update with Some (_, t) => t | None => sample_table end.

Definition updated_rows : list cstr := [lit "1,a@x,kim"; lit "2,c@x,lee"].

Lemma sample_hits_ok i r : (i, r) ∈ hit_rows sample_head sample_update (map Some sample_rows) → vals_ok sample_head (<[1%nat := lit "c@x"]> (row_vals r)).
Proof.
  assert (hit_rows sample_head sample_update (map Some sample_rows) = [(1, lit "2,b@x,lee")]) as -> by (vm_compute; reflexivity).
  intros H%list_elem_of_singleton. injection H as -> ->. apply (bool_decide_unpack _). vm_compute. done.
Qed.

Lemma sample_updated_ok : table_ok sample_head (t_cache sample_updated) (map Some updated_rows).
Proof.
  destruct sample_table_ok as (H1 & _ & _ & H2 & _).
  assert (updated sample_head sample_update (map Some sample_rows) log0 1 (lit "c@x") (execute_update all_writes sample_table sample_update)) as H.
  { apply (execute_update_updated all_writes sample_head 0 1 sample_update sample_table (map Some sample_rows) log0).
    - reflexivity.
    - exact (proj1 sample_head_ok).
    - reflexivity.
    - split; apply Nat.ltb_lt; vm_compute; reflexivity.
    - exact H1.
    - exact H2.
    - apply (bool_decide_unpack _). vm_compute. done.
    - apply (bool_decide_unpack _). vm_compute. done.
    - apply (bool_decide_unpack _). vm_compute. done.
    - exact sample_log_rep.
    - vm_compute. reflexivity.
    - discriminate.
    - vm_compute. reflexivity.
    - vm_compute. reflexivity.
    - discriminate.
    - intros H. vm_compute in H. discriminate.
    - intros _ H. vm_compute in H. discriminate.
    - apply sample_hits_ok.
    - intros H. vm_compute in H. discriminate. }
  revert H. unfold updated, sample_updated.
  assert (hit_rows sample_head sample_update (map Some sample_rows) = [(1, lit "2,b@x,lee")]) as -> by (vm_compute; reflexivity).
  assert (refused sample_head sample_update (map Some sample_rows) 1 (lit "c@x") = false) as -> by (vm_compute; reflexivity).
  intros (t' & -> & H & _). replace (map Some updated_rows) with (put_all 1 (lit "c@x") (map Some sample_rows) [(1, lit "2,b@x,lee")]) by (vm_compute; reflexivity).
  exact H.
Qed.


Lemma reopened_auto_key_restarts_witness :
  ∃ e1 o1 e2 e3 o3, get_table all_writes sample_times (lit "users") (on_disk sample_file) = Some (Some 0%nat, e1) ∧ open_tables e1 = [o1] ∧
    Forall (fun r => ∀ k, get_row_pk_value sample_head r = Some k → k < next_auto_id (t_cache (o_table o1))) sample_rows ∧
    close_all_tables all_writes sample_times e1 = Some e2 ∧ get_table all_writes sample_times (lit "users") e2 = Some (Some 0%nat, e3) ∧ open_tables e3 = [o3] ∧
    settled sample_head (map Some sample_rows) (row_lines sample_rows) (o_table o3) ∧ next_auto_id (t_cache (o_table o3)) = 1 ∧
    insert_row_data all_writes (o_table o3) (lit "NULL,c@x,park") = Some (InsRefused InsDupPk, o_table o3).
Proof.
  destruct (reopened_auto_key_restarts all_writes sample_times (on_disk sample_file) sample_head 0 (lit "users") sample_rows)
    as (e1 & o1 & e2 & e3 & o3 & H1 & H2 & H3 & H4 & H5 & H6 & H7 & H8 & H9).
  - reflexivity.
  - vm_compute. reflexivity.
  - exact sample_head_ok.
  - reflexivity.
  - exact sample_rows_plain.
  - apply (bool_decide_unpack _). vm_compute. done.
  - discriminate.
  - apply Z.leb_le. vm_compute. reflexivity.
  - apply (bool_decide_unpack _). vm_compute. done.
  - reflexivity.
  - apply (bool_decide_unpack _). vm_compute. done.
  - exists e1, o1, e2, e3, o3. split_and!; try assumption. apply H9.
    + left. vm_compute. reflexivity.
    + vm_compute. reflexivity.
    + apply Nat.leb_le. vm_compute. reflexivity.
Defined.

Lemma shutdown_loses_rows_in_memory_witness :
  ∃ e1 e2 o2, close_all_tables all_writes sample_times (one_open sample_updated) = Some e1 ∧
    csv (files_of (disk e1) (lit "users")) = Some (write_table_header sample_head ++ row_lines updated_rows) ∧ delta (files_of (disk e1) (lit "users")) = None ∧
    get_table all_writes sample_times (lit "users") e1 = Some (Some 0%nat, e2) ∧ open_tables e2 = [o2] ∧
    let c2 := t_cache (o_table o2) in
    slot_is_active (c_slots c2) 1 = true ∧ ix_search (c_id c2) 2 = Some 1 ∧ cache_row c2 1 = Some (None, c2).
Proof.
  apply (shutdown_loses_rows_in_memory all_writes sample_times (one_open sample_updated) (mkOpen sample_updated (mkSnap (lit "users") None false false) 1)
    sample_head 0 (map Some updated_rows) 1 (lit "2,c@x,lee") 2).
  - reflexivity.
  - exact sample_head_ok.
  - reflexivity.
  - exact sample_updated_ok.
  - apply (bool_decide_unpack _). vm_compute. done.
  - vm_compute. reflexivity.
  - vm_compute. reflexivity.
  - apply (bool_decide_unpack _). vm_compute. done.
  - vm_compute. reflexivity.
  - apply Z.leb_le. vm_compute. reflexivity.
  - apply Z.ltb_lt. vm_compute. reflexivity.
  - apply (bool_decide_unpack _). vm_compute. done.
  - reflexivity.
  - apply (bool_decide_unpack _). vm_compute. done.
  - reflexivity.
  - vm_compute. reflexivity.
  - apply Z.ltb_lt. vm_compute. reflexivity.
Defined.

(** A table whose third line has no number as its key cannot be opened. But the rows before
    it are saved as its snapshot then, and the next attempt succeeds with these alone. *)
Example second_open_hides_rows :
  let f := write_table_header sample_head ++ row_lines [lit "1,a@x,kim"; lit "x,b@x,lee"; lit "3,c@x,park"] in
  (r1 ← get_table all_writes sample_times (lit "users") (on_disk f);
   r2 ← get_table all_writes sample_times (lit "users") r1.2;
   Some (r1.1, r2.1, (fun o => active_count (c_slots (t_cache (o_table o)))) <$> open_tables r2.2)) = Some (None, Some 0%nat, [1]).
Proof. vm_compute. reflexivity. Qed.
