(* ===== verification/JungleProofs.v ===== *)
(** The data set of [Jungle] and the benchmark over it. The texts are clean and short, the
    e-mail addresses and telephone numbers of two applicants differ, and the row that the
    executor builds from the values of an applicant is the line of the data set; so every
    row is inserted, the file is the data set, and every query finds its row. *)

From Stdlib Require Import String.
From S2P Require Import Prelude CString BPTreeIndex Scanf Parser Values Table InsertProofs Store StoreProofs.
From S2P Require Import LegacyRow LegacyRowProofs LegacyCache LegacyCacheProofs LegacyIndex LegacyIndexProofs DeltaLog DeltaLogProofs LegacyTable LegacyTableProofs LegacyLoadProofs LegacySelect LegacySelectProofs LegacyWrite LegacyWriteProofs LegacyUpdateProofs LegacySnapshot Executor ReopenClaims Jungle.
From stdpp Require Import base numbers list option gmap.
Local Open Scope Z_scope.

(** ** Clean texts: no white space, no quote and no comma *)

Definition clean_char (c : Z) : bool := negb (isspace c) && negb (c =? QUOTE) && negb (c =? COMMA).

Definition clean (s : cstr) : bool := forallb clean_char s.

Lemma clean_app a b : clean (a ++ b) = clean a && clean b.
Proof. apply forallb_app. Qed.

Lemma clean_take n s : clean s = true → clean (take n s) = true.
Proof. rewrite <- (take_drop n s) at 1. rewrite clean_app. by intros [H _]%andb_true_iff. Qed.

Lemma clean_digits s : forallb isdigit s = true → clean s = true.
Proof.
  unfold clean. rewrite !forallb_forall. intros H x Hx. specialize (H x Hx). unfold clean_char, isspace, QUOTE, COMMA, isdigit in *.
  bool_to_prop. lia.
Qed.

Lemma clean_head c s : clean (c :: s) = true → isspace c = false ∧ c ≠ QUOTE.
Proof. unfold clean. cbn. unfold clean_char. intros H. bool_to_prop. tauto. Qed.

Lemma clean_skip s : clean s = true → skip_space s = s.
Proof. destruct s as [|c s]; [done|]. intros H%clean_head. cbn. by destruct H as [-> _]. Qed.

Lemma clean_storable s : clean s = true → storable_val s = true ∧ val_text s = s ∧ trim_uq s = s.
Proof.
  intros H. assert (strchr s COMMA = None) as Hs.
  { apply strchr_None, List.Forall_forall. intros c Hc. unfold clean in H. rewrite forallb_forall in H. specialize (H c Hc).
    unfold clean_char in H. bool_to_prop. done. }
  assert (rstrip s = s) as Hr.
  { unfold rstrip. rewrite clean_skip; [by rewrite reverse_involutive|]. unfold clean in *. rewrite forallb_forall in *.
    intros c Hc. apply H, list_elem_of_In, elem_of_reverse, list_elem_of_In, Hc. }
  unfold storable_val, val_text. rewrite Hs, clean_skip, Hr by done. rewrite !bool_decide_eq_true_2 by done. split; [|split; [done|]].
  - rewrite !andb_true_r. unfold clean in H. rewrite forallb_forall in *. intros c Hc. specialize (H c Hc). unfold clean_char, plain_char, isspace in *.
    bool_to_prop. unfold QUOTE, NL, CR in *. lia.
  - apply trim_uq_fix; [by apply clean_skip|done|]. destruct s as [|c s]; [done|]. by destruct (clean_head _ _ H).
Qed.

(** *** Numbers *)

Lemma print_digits n : 0 ≤ n → forallb isdigit (print_Z n) = true.
Proof. intros H. unfold print_Z. rewrite (proj2 (Z.ltb_ge n 0)) by lia. by apply print_pos_digits. Qed.

Lemma print_pos_width fuel k n acc : 0 ≤ n < 10 ^ Z.of_nat (S k) → (length (print_pos fuel n acc) ≤ S k + length acc)%nat.
Proof.
  revert k n acc; induction fuel as [|fuel IH]; intros k n acc Hn; cbn [print_pos]; [lia|].
  destruct (Z.eqb_spec (n / 10) 0) as [E|E]; [cbn; lia|]. destruct k as [|k].
  - exfalso. apply E. apply Z.div_small. change (10 ^ Z.of_nat 1) with 10 in Hn. lia.
  - specialize (IH k (n / 10) (48 + n mod 10 :: acc)). cbn [length] in IH. rewrite (Nat2Z.inj_succ (S k)), Z.pow_succ_r in Hn by lia.
    assert (0 ≤ n / 10 < 10 ^ Z.of_nat (S k)) as H; [|specialize (IH H); lia].
    split; [apply Z.div_pos; lia|apply Z.div_lt_upper_bound; lia].
Qed.

Lemma print_width k n : 0 ≤ n < 10 ^ Z.of_nat (S k) → (length (print_Z n) ≤ S k)%nat.
Proof. intros H. unfold print_Z. rewrite (proj2 (Z.ltb_ge n 0)) by lia. pose proof (print_pos_width (S (Z.to_nat (Z.log2 n))) k n [] H). cbn in *. lia. Qed.

Lemma pad_width k n : 0 ≤ n < 10 ^ Z.of_nat (S k) → length (print_pad (S k) n) = S k.
Proof. intros H. pose proof (print_width k n H). unfold print_pad. rewrite length_app, length_replicate. lia. Qed.

Lemma pad_digits w n : 0 ≤ n → forallb isdigit (print_pad w n) = true.
Proof.
  intros H. unfold print_pad. rewrite forallb_app, print_digits by done. rewrite andb_true_r.
  induction (w - length (print_Z n))%nat as [|k IH]; [done|exact IH].
Qed.

Lemma digits_zeros k acc s : digits acc (replicate k 48 ++ s) = digits (acc * 10 ^ Z.of_nat k) s.
Proof.
  revert acc; induction k as [|k IH]; intros acc; [by rewrite Z.mul_1_r|]. cbn [replicate app digits].
  change (isdigit 48) with true. cbv iota. rewrite IH, Nat2Z.inj_succ, Z.pow_succ_r by lia. f_equal. lia.
Qed.

Lemma pad_value w n : 0 ≤ n → fst (digits 0 (print_pad w n)) = n.
Proof.
  intros Hn. unfold print_pad. rewrite digits_zeros, Z.mul_0_l. unfold print_Z. rewrite (proj2 (Z.ltb_ge n 0)) by lia.
  destruct (digits_print_pos (S (Z.to_nat (Z.log2 n))) n []) as (ds & -> & _ & _ & Hv); [|done|lia|].
  - split; [done|]. rewrite Nat2Z.inj_succ, Z2Nat.id by apply Z.log2_nonneg. destruct (Z.eqb_spec n 0) as [->|]; [done|]. apply Z.log2_spec. lia.
  - rewrite app_nil_r, Hv. lia.
Qed.

Lemma pad_inj w a b : 0 ≤ a → 0 ≤ b → print_pad w a = print_pad w b → a = b.
Proof. intros Ha Hb E. rewrite <- (pad_value w a), <- (pad_value w b) by done. by rewrite E. Qed.

(** *** Short clean texts *)

Definition short (b : nat) (s : cstr) : Prop := clean s = true ∧ (length s ≤ b)%nat.

Lemma short_app a b x y : short a x → short b y → short (a + b) (x ++ y).
Proof. intros [H1 H2] [H3 H4]. split; [by rewrite clean_app, H1|]. rewrite length_app. lia. Qed.

Lemma short_lit s : clean s = true → short (length s) s.
Proof. done. Qed.

Lemma short_copy n b s : short b s → short b (strcpy_sz n s).
Proof. intros [H1 H2]. split; [by apply clean_take|]. unfold strcpy_sz. rewrite length_take. lia. Qed.

Lemma short_print k n : 0 ≤ n < 10 ^ Z.of_nat (S k) → short (S k) (print_Z n).
Proof. intros H. split; [by apply clean_digits, print_digits; lia|by apply print_width]. Qed.

Lemma short_pad k n : 0 ≤ n < 10 ^ Z.of_nat (S k) → short (S k) (print_pad (S k) n).
Proof. intros H. split; [by apply clean_digits, pad_digits; lia|by rewrite pad_width]. Qed.

Lemma short_entry b xs i : forallb (fun s => clean (lit s) && (length (lit s) <=? b)%nat) xs = true → short b (entry xs i).
Proof.
  intros H. rewrite forallb_forall in H. unfold entry. destruct (nth_in_or_default (Z.to_nat i) xs EmptyString) as [Hin| ->].
  - specialize (H _ Hin). apply andb_true_iff in H as [H1 H2]. by apply Nat.leb_le in H2.
  - split; [done|]. cbn. lia.
Qed.

Lemma short_weaken a b s : short a s → (a ≤ b)%nat → short b s.
Proof. intros [H1 H2] H. split; [done|lia]. Qed.

Lemma jungle_head_eq :
  jungle_header = mkHeader
    [mkCol (lit "id") COL_PK; mkCol (lit "email") COL_UK; mkCol (lit "phone") COL_UK; mkCol (lit "name") COL_NORMAL; mkCol (lit "track") COL_NN;
     mkCol (lit "background") COL_NORMAL; mkCol (lit "history") COL_NORMAL; mkCol (lit "pretest") COL_NORMAL; mkCol (lit "github") COL_NORMAL;
     mkCol (lit "status") COL_NORMAL; mkCol (lit "round") COL_NORMAL] (Some 0%nat) [1%nat; 2%nat].
Proof. vm_compute. reflexivity. Qed.

Lemma jungle_pk : h_pk jungle_header = Some 0%nat.
Proof. by rewrite jungle_head_eq. Qed.

Lemma jungle_cols_eq : col_count jungle_header = 11%nat.
Proof. by rewrite jungle_head_eq. Qed.

Lemma jungle_uks : h_uks jungle_header = [1%nat; 2%nat].
Proof. by rewrite jungle_head_eq. Qed.

Lemma jungle_cols : (1 < col_count jungle_header < MAX_COLS)%nat.
Proof. split; apply Nat.ltb_lt; vm_compute; reflexivity. Qed.

(** The texts of an INSERT that leaves the key to the table. *)
Lemma clean_source v : clean v = true → (length v ≤ 253)%nat → trim_and_unquote (strcpy_sz RECORD_SIZE v) = v.
Proof. intros Hc Hl. unfold trim_and_unquote, strcpy_sz. rewrite (take_ge v) by (unfold RECORD_SIZE; lia). by apply clean_storable. Qed.

(** An INSERT whose key is free and whose values no column refuses. *)
Lemma built_row h p pk uk nxt vals nid srcs :
  h_pk h = Some p → (length vals ≤ col_count h)%nat → wants_key h nxt vals p = Some nid → insert_sources h vals nid = srcs → pk nid = false →
  (length (join_fields (map format_field srcs)) < RECORD_SIZE)%nat →
  (∀ err k c src, h_cols h !! k = Some c → srcs !! k = Some src → ¬ LegacyRowProofs.refused uk h k c src err) →
  build_insert_row pk uk h nxt vals RECORD_SIZE = inr (nid, join_fields (map format_field srcs)).
Proof.
  intros Hpk Hlen Hk Hs Hp Hn Hno. unfold build_insert_row. unfold wants_key in Hk.
  rewrite (proj2 (Nat.ltb_ge (col_count h) (length vals))), Hpk, Hk, Hp by done.
  pose proof (insert_cols_spec uk h vals (auto_id h vals) nid RECORD_SIZE [] 0 (h_cols h)) as H. cbv zeta in H. specialize (H ltac:(simpl; unfold RECORD_SIZE; lia)).
  unfold insert_sources, col_count in Hs. rewrite Hs in H. cbn [app length Nat.add] in H.
  destruct (insert_cols _ _ _ _ _ _ _ _ _) as [err|row]; [|by destruct H as (-> & _)].
  exfalso. destruct H as [(k & c & Hkc & Hr)|[_ Hr]]; [|lia]. revert Hr. apply Hno; [done|].
  rewrite <- Hs, list_lookup_fmap, lookup_seq_lt by (by eapply lookup_lt_Some). done.
Qed.

Section auto.
Context (h : Header) (n : nat) (Hpk : h_pk h = Some 0%nat) (Hcols : col_count h = S n).

Lemma auto_key vals : length vals = n → auto_id h vals = true.
Proof using Hpk Hcols. intros H. unfold auto_id. rewrite Hpk, Hcols, H. cbn. by rewrite Nat.sub_0_r, Nat.eqb_refl. Qed.

Lemma auto_source_val vals nid k v :
  vals !! k = Some v → clean v = true → (length v ≤ 253)%nat → insert_source h vals true nid (S k) = v.
Proof using Hpk.
  intros Hv Hc Hl. unfold insert_source. rewrite Hpk. cbn [andb].
  rewrite bool_decide_eq_false_2, bool_decide_eq_true_2, Hv by done. by apply clean_source.
Qed.

Lemma auto_sources vals nid :
  length vals = n → Forall (fun s => clean s = true) vals → Forall (fun s => (length s ≤ 253)%nat) vals →
  insert_sources h vals nid = print_Z nid :: vals.
Proof using Hpk Hcols.
  intros Hlen Hc Hl. apply list_eq. intros k. unfold insert_sources. rewrite list_lookup_fmap, auto_key, Hcols by done.
  destruct (decide (k < S n)%nat) as [Hk|Hk].
  2:{ rewrite lookup_ge_None_2 by (rewrite length_seq; lia). rewrite lookup_ge_None_2; [done|]. simpl. lia. }
  rewrite lookup_seq_lt by done. cbn [fmap option_fmap option_map Nat.add].
  destruct k as [|k]; [unfold insert_source; by rewrite Hpk|]. destruct (lookup_lt_is_Some_2 vals k) as [v Hv]; [lia|].
  rewrite (auto_source_val vals nid k v Hv); [done|exact (Forall_lookup_1 _ _ _ _ Hc Hv)|exact (Forall_lookup_1 _ _ _ _ Hl Hv)].
Qed.
End auto.

(** ** Rows of short clean values *)

Lemma length_commas bs fs : Forall2 short bs fs → (length (commas fs) ≤ sum_list bs + length bs)%nat.
Proof.
  assert (∀ bs fs, Forall2 short bs fs → (length (concat (map (fun g => COMMA :: g) fs)) ≤ sum_list bs + length bs)%nat) as Hc.
  { induction 1 as [|b s bs' fs' [_ Hs] _ IH]; simpl; [lia|]. rewrite length_app. change (sum_list_with _ bs') with (sum_list bs'). lia. }
  destruct 1 as [|b s bs' fs' [_ Hs] H]; simpl; [lia|]. specialize (Hc _ _ H). rewrite length_app. change (sum_list_with _ bs') with (sum_list bs'). pose proof (Nat.add_le_mono _ _ _ _ Hs Hc) as Hl. etrans; [exact Hl|]. lia.
Qed.

Lemma commas_join fs : commas fs = join_fields fs.
Proof.
  destruct fs as [|f fs]; [done|]. cbn [commas]. revert f; induction fs as [|g fs IH]; intros f; [by rewrite app_nil_r|].
  cbn [map concat]. change (join_fields (f :: g :: fs)) with (f ++ COMMA :: join_fields (g :: fs)). rewrite <- IH. done.
Qed.

Lemma clean_vals_text vs : Forall (fun s => clean s = true) vs → map val_text vs = vs.
Proof. induction 1 as [|v vs Hv _ IH]; [done|]. cbn [map]. rewrite IH. f_equal. by apply clean_storable. Qed.

Section clean_row.
Context (h : Header) (bs : list nat) (vals : list cstr).
Context (Hcols : (1 < col_count h < MAX_COLS)%nat) (Hlen : length vals = col_count h) (Hs : Forall2 short bs vals).
Context (Hb : (sum_list bs + length bs ≤ 253)%nat).

Lemma row_clean : Forall (fun s => clean s = true) vals.
Proof using Hs. apply list.Forall_lookup. intros k v Hv. by destruct (Forall2_lookup_r _ _ _ _ _ Hs Hv) as (b & _ & [H _]). Qed.

Lemma row_commas : commas vals = csv_row vals ∧ (length (commas vals) ≤ 253)%nat.
Proof using Hs Hb.
  split; [|etrans; [exact (length_commas _ _ Hs)|exact Hb]]. unfold csv_row. rewrite clean_vals_text by exact row_clean. apply commas_join.
Qed.

Lemma row_vals_ok : vals_ok h vals.
Proof using All.
  split; [done| |rewrite <- (proj1 row_commas); pose proof (proj2 row_commas); unfold RECORD_SIZE; lia].
  apply list.Forall_lookup. intros k v Hv. destruct (Forall2_lookup_r _ _ _ _ _ Hs Hv) as (b & Hbk & [H1 H2]).
  split; [by apply clean_storable|]. pose proof (sum_list_with_in b id bs (list_elem_of_lookup_2 _ _ _ Hbk)) as H. change (id b) with b in H. lia.
Qed.

Lemma row_fields : parse_csv_row (commas vals) = vals.
Proof using All.
  rewrite (proj1 row_commas), (parse_csv_vals h) by (exact row_vals_ok || lia). apply clean_vals_text, row_clean.
Qed.

Lemma row_uk_text k : uk_text k (commas vals) = default [] (vals !! k).
Proof using All.
  unfold uk_text, field_at. rewrite row_fields. destruct (vals !! k) as [v|] eqn:E; [|done]. simpl.
  pose proof (Forall_lookup_1 _ _ _ _ row_clean E) as Hv. pose proof (Forall_lookup_1 _ _ _ _ (vo_vals _ _ row_vals_ok) E) as [_ Hl].
  unfold normalize_value. by apply clean_source.
Qed.

Lemma row_plain : plain_row (commas vals).
Proof using All.
  split; [rewrite (proj1 row_commas); apply (csv_line h), row_vals_ok|]. split; [pose proof (proj2 row_commas); unfold RECORD_SIZE; lia|].
  intros H. pose proof row_fields as Hf. rewrite H in Hf. apply (f_equal length) in Hf. change (length (parse_csv_row [])) with 1%nat in Hf. lia.
Qed.

Lemma clean_row_key n : h_pk h = Some 0%nat → vals !! 0%nat = Some (print_Z n) → LONG_MIN ≤ n ≤ LONG_MAX → get_row_pk_value h (commas vals) = Some n.
Proof using All. intros Hp Hv Hn. unfold get_row_pk_value, field_at. rewrite Hp, row_fields, Hv. by apply parse_long_print. Qed.
End clean_row.

(** An applicant of the data set. *)
Definition applicant (id : Z) : Prop := 1 ≤ id ≤ MAX_RECORDS.

Section applicant.
Context (id : Z) (Hid : applicant id).

Lemma id_bound : 0 ≤ id < 10 ^ Z.of_nat 7.
Proof using Hid. unfold applicant, MAX_RECORDS in Hid. change (10 ^ Z.of_nat 7) with 10000000. lia. Qed.

Lemma email_whole : build_jungle_email id 64 = lit "jungle" ++ print_pad 7 id ++ lit "@apply.kr" ∧ short 22 (build_jungle_email id 64).
Proof using Hid.
  assert (short (6 + (7 + 9)) (lit "jungle" ++ print_pad 7 id ++ lit "@apply.kr")) as H.
  { apply (short_app 6); [by apply short_lit|]. apply (short_app 7); [apply short_pad, id_bound|by apply short_lit]. }
  unfold build_jungle_email, strcpy_sz. rewrite take_ge by (destruct H; lia). done.
Qed.

Lemma phone_whole :
  build_jungle_phone id 32 = lit "010-" ++ print_pad 4 (id / 10000) ++ lit "-" ++ print_pad 4 (id mod 10000) ∧ short 13 (build_jungle_phone id 32).
Proof using Hid.
  pose proof id_bound as Hb. change (10 ^ Z.of_nat 7) with 10000000 in Hb.
  assert (0 ≤ id / 10000 < 10 ^ Z.of_nat 4 ∧ 0 ≤ id mod 10000 < 10 ^ Z.of_nat 4) as [H1 H2].
  { change (10 ^ Z.of_nat 4) with 10000. pose proof (Z.mod_pos_bound id 10000 ltac:(lia)).
    split; [|lia]. split; [apply Z.div_pos; lia|apply Z.div_lt_upper_bound; lia]. }
  assert (short (4 + (4 + (1 + 4))) (lit "010-" ++ print_pad 4 (id / 10000) ++ lit "-" ++ print_pad 4 (id mod 10000))) as H.
  { apply (short_app 4); [by apply short_lit|]. apply (short_app 4); [by apply short_pad|]. apply (short_app 1); [by apply short_lit|by apply short_pad]. }
  unfold build_jungle_phone, strcpy_sz. rewrite Z.quot_div_nonneg, Z.rem_mod_nonneg by lia. rewrite take_ge by (destruct H; lia). done.
Qed.

Lemma name_short : short 9 (build_jungle_name id 64).
Proof. apply short_copy, (short_app 3); [|apply (short_app 3)]; by apply short_entry. Qed.

Lemma rem_range a b : 0 ≤ a → 0 < b → 0 ≤ Z.rem a b < b.
Proof. intros H1 H2. by apply Z.rem_bound_pos. Qed.

Lemma quot_nonneg a b : 0 ≤ a → 0 < b → 0 ≤ Z.quot a b.
Proof. intros H1 H2. by apply Z.quot_pos. Qed.

Lemma background_short b : short 10 (background_text b).
Proof. destruct b; (split; [done|apply Nat.leb_le; done]). Qed.

Lemma history_short b : short 30 (build_jungle_history id b 64).
Proof using Hid.
  assert (0 ≤ id - 1) as H by (unfold applicant in Hid; lia). unfold build_jungle_history. apply short_copy.
  destruct b.
  - pose proof (rem_range (Z.quot (id - 1) 7) 4 (quot_nonneg (id - 1) 7 H eq_refl) eq_refl).
    eapply short_weaken; [apply (short_app 6); [by apply short_lit|apply (short_app 8); [by apply short_entry|apply (short_app 7); [by apply short_lit|]]]|].
    + apply (short_print 0). cbn. lia.
    + lia.
  - eapply short_weaken; [apply (short_app 6); [by apply short_lit|apply (short_app 8); [by apply short_entry|by apply short_lit]]|cbn; lia].
  - pose proof (rem_range (Z.quot (id - 1) 11) 6 (quot_nonneg (id - 1) 11 H eq_refl) eq_refl).
    eapply short_weaken; [apply (short_app 11); [by apply short_entry|apply (short_app 1); [by apply short_lit|apply (short_app 1); [|by apply short_lit]]]|].
    + apply (short_print 0). cbn. lia.
    + cbn. lia.
  - pose proof (rem_range (Z.quot (id - 1) 13) 8 (quot_nonneg (id - 1) 13 H eq_refl) eq_refl).
    eapply short_weaken; [apply (short_app 10); [by apply short_entry|apply (short_app 1); [by apply short_lit|apply (short_app 1); [|by apply short_lit]]]|].
    + apply (short_print 0). cbn. lia.
    + cbn. lia.
  - pose proof (rem_range (Z.quot (id - 1) 19) 9 (quot_nonneg (id - 1) 19 H eq_refl) eq_refl).
    eapply short_weaken; [apply (short_app 10); [by apply short_entry|apply (short_app 1); [by apply short_lit|apply (short_app 2); [|by apply short_lit]]]|].
    + apply (short_print 1). cbn. lia.
    + cbn. lia.
Qed.

Lemma pretest_range : 35 ≤ jungle_pretest_for_id id ≤ 100.
Proof using Hid.
  unfold jungle_pretest_for_id, applicant in *. pose proof (rem_range (id - 1) 97 ltac:(lia) ltac:(lia)).
  pose proof (rem_range (id * 73 + Z.rem (id - 1) 97 * 19 + 17) 66 ltac:(lia) ltac:(lia)). lia.
Qed.

Lemma github_short b : short 10 (build_jungle_github id b 32).
Proof using Hid.
  unfold build_jungle_github. apply short_copy. destruct (match b with student => _ | _ => _ end); [split; [done|apply Nat.leb_le; done]|].
  apply (short_app 3); [by apply short_lit|apply short_pad, id_bound].
Qed.

Lemma status_short n : short 14 (jungle_status_for_id id n).
Proof. unfold jungle_status_for_id. repeat case_match; (split; [done|apply Nat.leb_le; done]). Qed.

Lemma fields_short : Forall2 short [22; 13; 9; 13; 10; 30; 3; 10; 14; 11]%nat (jungle_fields id).
Proof using Hid.
  unfold jungle_fields. cbv zeta. constructor; [apply email_whole|]. constructor; [apply phone_whole|]. constructor; [apply name_short|].
  constructor; [by apply short_entry|]. constructor; [apply background_short|]. constructor; [apply history_short|].
  constructor. { apply (short_print 2). pose proof pretest_range. change (10 ^ Z.of_nat 3) with 1000. lia. }
  constructor; [apply github_short|]. constructor; [apply status_short|]. constructor; [by apply short_lit|constructor].
Qed.

Lemma fields_clean : Forall (fun s => clean s = true) (jungle_fields id).
Proof using Hid.
  pose proof fields_short as H. induction H as [|b s bs fs [Hs _] _ IH]; constructor; [exact Hs|exact IH].
Qed.

(** ** The two rows of an applicant *)

Lemma row_data_whole : build_jungle_row_data id 512 = join_fields (jungle_fields id) ∧ (length (build_jungle_row_data id 512) < 200)%nat.
Proof using Hid.
  assert (length (commas (jungle_fields id)) ≤ 199)%nat as H.
  { etrans; [apply (length_commas _ _ fields_short)|]. apply Nat.leb_le. done. }
  unfold build_jungle_row_data, strcpy_sz. rewrite take_ge by (etrans; [exact H|apply Nat.leb_le; done]).
  split; [apply commas_join|by apply Nat.lt_succ_r].
Qed.

(** The values of the row of the applicant. *)
Definition applicant_vals : list cstr := print_Z id :: jungle_fields id.

Lemma vals_short : Forall2 short [7; 22; 13; 9; 13; 10; 30; 3; 10; 14; 11]%nat applicant_vals.
Proof using Hid. constructor; [apply (short_print 6 id id_bound)|apply fields_short]. Qed.

Lemma vals_clean : Forall (fun s => clean s = true) applicant_vals.
Proof using Hid. exact (row_clean _ _ vals_short). Qed.

Lemma record_commas : build_jungle_csv_record id 512 = commas applicant_vals.
Proof using Hid.
  unfold build_jungle_csv_record, strcpy_sz. apply take_ge. etrans; [apply (length_commas _ _ vals_short)|]. apply Nat.leb_le. done.
Qed.

Lemma csv_record_whole :
  build_jungle_csv_record id 512 = csv_row applicant_vals ∧ (length (build_jungle_csv_record id 512) < 200)%nat.
Proof using Hid.
  rewrite record_commas. split; [apply (row_commas _ _ vals_short); apply Nat.leb_le; done|].
  eapply Nat.le_lt_trans; [apply (length_commas _ _ vals_short)|]. apply Nat.ltb_lt. done.
Qed.

Lemma applicant_vals_ok : vals_ok jungle_header applicant_vals.
Proof using Hid. apply (row_vals_ok jungle_header _ applicant_vals jungle_cols (eq_sym jungle_cols_eq) vals_short). apply Nat.leb_le. done. Qed.

(** *** What the indexes take from the row *)

Definition record : cstr := build_jungle_csv_record id 512.

Lemma record_fields : parse_csv_row record = applicant_vals.
Proof using Hid. unfold record. rewrite record_commas. apply (row_fields jungle_header _ applicant_vals jungle_cols (eq_sym jungle_cols_eq) vals_short). apply Nat.leb_le. done. Qed.

Lemma data_fields : parse_csv_row (build_jungle_row_data id 512) = jungle_fields id.
Proof using Hid.
  destruct row_data_whole as [E Hl]. rewrite E in *. pose proof (split_csv_join (jungle_fields id) []) as H.
  rewrite app_nil_r, app_last_nil in H. apply H.
  - done.
  - pose proof fields_clean as Hc. eapply List.Forall_impl; [|exact Hc]. intros s Hs. destruct (clean_storable s Hs) as (H1 & H2 & _).
    rewrite <- H2. by apply field_ok_val.
  - change (length (jungle_fields id)) with 10%nat. apply Nat.leb_le. done.
  - done.
  - unfold RECORD_SIZE. lia.
Qed.

Lemma record_text k : uk_text k record = default [] (applicant_vals !! k).
Proof using Hid. unfold record. rewrite record_commas. apply (row_uk_text jungle_header _ applicant_vals jungle_cols (eq_sym jungle_cols_eq) vals_short). apply Nat.leb_le. done. Qed.

Lemma record_id : get_row_pk_value jungle_header record = Some id.
Proof using Hid.
  unfold record. rewrite record_commas. apply (clean_row_key jungle_header _ applicant_vals jungle_cols (eq_sym jungle_cols_eq) vals_short); [apply Nat.leb_le; done|exact jungle_pk|done|].
  unfold applicant, MAX_RECORDS in Hid. unfold LONG_MIN, LONG_MAX. lia.
Qed.

Lemma record_plain : plain_row record.
Proof using Hid. unfold record. rewrite record_commas. apply (row_plain jungle_header _ applicant_vals jungle_cols (eq_sym jungle_cols_eq) vals_short). apply Nat.leb_le. done. Qed.

Lemma fields_fit : Forall (fun s => (length s ≤ 253)%nat) (jungle_fields id).
Proof using Hid.
  pose proof (vo_vals _ _ applicant_vals_ok) as H. unfold applicant_vals in H. apply Forall_cons_1 in H as [_ H].
  eapply List.Forall_impl; [|exact H]. by intros v [_ Hl].
Qed.

(** The values that the INSERT writes. *)
Lemma jungle_sources : insert_sources jungle_header (jungle_fields id) id = applicant_vals.
Proof using Hid.
  unfold applicant_vals. apply (auto_sources jungle_header 10).
  - by rewrite jungle_head_eq.
  - by rewrite jungle_head_eq.
  - done.
  - apply fields_clean.
  - apply fields_fit.
Qed.

Lemma record_stored : stored_row jungle_header record.
Proof using Hid.
  unfold record. rewrite (proj1 csv_record_whole). pose proof jungle_cols. apply written_stored; [lia|]. by apply csv_written; [lia|apply applicant_vals_ok].
Qed.

Lemma track_not_empty : jungle_track_for_id id ≠ [].
Proof using Hid.
  unfold jungle_track_for_id, applicant in *. pose proof (rem_range (id - 1) 3 ltac:(lia) ltac:(lia)) as H.
  assert (Z.rem (id - 1) 3 = 0 ∨ Z.rem (id - 1) 3 = 1 ∨ Z.rem (id - 1) 3 = 2) as [-> |[-> | ->]] by lia; done.
Qed.

Lemma no_refusal uk err k c src :
  uk 0%nat (build_jungle_email id 64) = false → uk 1%nat (build_jungle_phone id 32) = false →
  h_cols jungle_header !! k = Some c → applicant_vals !! k = Some src → ¬ LegacyRowProofs.refused uk jungle_header k c src err.
Proof using Hid.
  intros He Hu Hc Hs Hr. rewrite jungle_head_eq in Hc. cbn [h_cols] in Hc.
  assert (∀ slot, get_uk_slot jungle_header k = Some slot → uk slot src = false) as Huk.
  { intros slot. unfold get_uk_slot. rewrite jungle_uks. destruct k as [|[|[|k]]]; cbn; intros [= <-]; by injection Hs as <-. }
  unfold LegacyRowProofs.refused in Hr. destruct err; try done.
  - destruct Hr as [Ht ->]. destruct k as [|[|[|[|[|[|[|[|[|[|[|k]]]]]]]]]]]; try (injection Hc as <-); try done.
    injection Hs as Hs. by apply track_not_empty.
  - destruct Hr as [Hp ->]. rewrite jungle_pk in Hp. injection Hp as <-. injection Hs as Hs. destruct (print_Z_shape id) as (? & ? & E & _). congruence.
  - destruct Hr as (Ht & _ & Hslot). destruct k as [|[|[|[|[|[|[|[|[|[|[|k]]]]]]]]]]]; try (injection Hc as <-); try done.
    all: by (unfold get_uk_slot in Hslot; rewrite jungle_uks in Hslot).
  - destruct Hr as (_ & _ & slot & Hslot & Htk). by rewrite Huk in Htk.
Qed.

Lemma record_built : join_fields (map format_field applicant_vals) = record.
Proof using Hid.
  unfold record. rewrite (proj1 csv_record_whole). unfold csv_row. f_equal. apply map_ext_in. intros v Hv. apply format_val_text.
  pose proof (vo_vals _ _ applicant_vals_ok) as Ho. rewrite List.Forall_forall in Ho. destruct (Ho v Hv). unfold RECORD_SIZE. lia.
Qed.

(** An INSERT of the applicant's values is accepted when its key, its e-mail address and its
    telephone number are free. *)
Lemma jungle_insert_built pk uk vals :
  (length vals ≤ 11)%nat → wants_key jungle_header id vals 0 = Some id → insert_sources jungle_header vals id = applicant_vals →
  pk id = false → uk 0%nat (build_jungle_email id 64) = false → uk 1%nat (build_jungle_phone id 32) = false →
  build_insert_row pk uk jungle_header id vals RECORD_SIZE = inr (id, record).
Proof using Hid.
  intros Hl Hk Hs Hp He Hu. rewrite <- record_built. apply (built_row jungle_header 0); [exact jungle_pk|by rewrite jungle_cols_eq|exact Hk|exact Hs|exact Hp| |].
  - rewrite record_built. destruct csv_record_whole as [E Hlr]. unfold record. unfold RECORD_SIZE. lia.
  - intros err k c src. by apply no_refusal.
Qed.

Lemma auto_wants : wants_key jungle_header id (jungle_fields id) 0 = Some id.
Proof. unfold wants_key. by rewrite (auto_key jungle_header 10 jungle_pk jungle_cols_eq). Qed.
End applicant.

(** * The benchmark *)

(** ** The rows *)

(** The rows of the first [n] applicants. *)
(** The lines of the numbers from 1 on. *)
Definition numbered (line : Z → cstr) (n : nat) : list cstr := line <$> seqZ 1 (Z.of_nat n).

Lemma length_numbered line n : length (numbered line n) = n.
Proof. unfold numbered. rewrite length_fmap, length_seqZ. lia. Qed.

Lemma numbered_S line n : numbered line (S n) = numbered line n ++ [line (Z.of_nat (S n))].
Proof. unfold numbered. rewrite seqZ_S, fmap_app. cbn [fmap list_fmap]. do 3 f_equal. lia. Qed.

Lemma numbered_lookup line n k r : numbered line n !! k = Some r ↔ (k < n)%nat ∧ r = line (Z.of_nat (S k)).
Proof.
  unfold numbered. rewrite list_lookup_fmap. destruct (decide (k < n)%nat) as [Hk|Hk].
  - rewrite lookup_seqZ_lt by lia. cbn. replace (1 + Z.of_nat k) with (Z.of_nat (S k)) by lia. split; [intros [= <-]|intros [_ ->]]; done.
  - rewrite lookup_seqZ_ge by lia. split; [done|intros [? _]; lia].
Qed.

Abbreviation records := (numbered record).

Lemma jungle_lines_records n i : jungle_lines n i = row_lines (record <$> seqZ i (Z.of_nat n)).
Proof.
  revert i; induction n as [|n IH]; intros i; [done|]. rewrite seqZ_cons by lia. cbn [jungle_lines]. rewrite IH.
  replace (Z.pred (Z.of_nat (S n))) with (Z.of_nat n) by lia. unfold row_lines. cbn [fmap list_fmap map concat]. by rewrite <- app_assoc, Z.add_1_r.
Qed.

Lemma email_inj i j : applicant i → applicant j → build_jungle_email i 64 = build_jungle_email j 64 → i = j.
Proof.
  intros Hi Hj. rewrite (proj1 (email_whole i Hi)), (proj1 (email_whole j Hj)). intros E%app_inv_head.
  apply app_inv_tail in E. apply pad_inj in E; unfold applicant in *; lia.
Qed.

Lemma phone_inj i j : applicant i → applicant j → build_jungle_phone i 32 = build_jungle_phone j 32 → i = j.
Proof.
  intros Hi Hj. rewrite (proj1 (phone_whole i Hi)), (proj1 (phone_whole j Hj)). intros E%app_inv_head.
  assert (∀ k, applicant k → 0 ≤ k / 10000 < 10 ^ Z.of_nat 4 ∧ 0 ≤ k mod 10000) as Hb.
  { intros k Hk. unfold applicant, MAX_RECORDS in Hk. change (10 ^ Z.of_nat 4) with 10000. pose proof (Z.mod_pos_bound k 10000 ltac:(lia)).
    split; [|lia]. split; [apply Z.div_pos; lia|apply Z.div_lt_upper_bound; lia]. }
  destruct (Hb i Hi) as [Hi1 Hi2], (Hb j Hj) as [Hj1 Hj2]. apply app_inj_1 in E as [E1 E2]; [|by rewrite !pad_width].
  apply app_inv_head in E2. apply pad_inj in E1, E2; [|lia..]. rewrite (Z.div_mod i 10000), (Z.div_mod j 10000) by lia. by rewrite E1, E2.
Qed.

(** Another applicant has another key, e-mail address and telephone number. *)
Lemma record_fresh n : applicant (Z.of_nat (S n)) → fresh_row jungle_header (map Some (records n)) (Z.of_nat (S n)) (record (Z.of_nat (S n))).
Proof.
  intros Hid. unfold fresh_row. apply list.Forall_forall. intros o (r & -> & Hr)%list_elem_of_fmap.
  apply list_elem_of_lookup in Hr as (k & Hk). apply numbered_lookup in Hk as [Hk ->].
  assert (applicant (Z.of_nat (S k))) as Hid' by (unfold applicant in *; lia). rewrite record_id by done. split; [intros [= E]; lia|].
  rewrite jungle_uks. constructor; [|constructor; [|constructor]]; right; rewrite !record_text by done; cbn.
  - intros E. apply email_inj in E; [lia|done..].
  - intros E. apply phone_inj in E; [lia|done..].
Qed.

(** ** The table *)

(** What is free of the keys and values of a row is not taken. *)
Lemma fresh_free h p c l id row :
  h_pk h = Some p → table_ok h c l → fresh_row h l id row →
  pk_taken c id = false ∧ ∀ k col, h_uks h !! k = Some col → uk_taken c k (uk_text col row) = false.
Proof.
  intros Hpk Hc Hf. pose proof (ta_trees _ _ _ _ Hc) as [Hid _ _ Hu].
  assert (∀ i r, at_slot l i = Some r → get_row_pk_value h r ≠ Some id ∧
    Forall (fun col => uk_text col row = [] ∨ uk_text col r ≠ uk_text col row) (h_uks h)) as Hfr.
  { intros i r [Hi _]%at_slot_lookup. exact (Forall_lookup_1 _ _ _ _ Hf Hi). }
  split.
  - unfold pk_taken. destruct (ix_search (c_id c) id) as [i|] eqn:E; [|done]. exfalso. apply (index_search _ _ _ _ Hid) in E.
    unfold id_key in E. destruct (at_slot l i) as [r|] eqn:Er; [|done]. by destruct (Hfr i r Er).
  - intros k col Hk. destruct (Hu k col Hk) as (u & Hun & Hiu). unfold uk_taken, uk_tree_at. rewrite Hun. cbn [mjoin option_join].
    unfold unique_index_find. destruct (uk_text col row) as [|b v] eqn:Ev; [done|].
    destruct (ix_search u (b :: v)) as [i|] eqn:E; [|done]. exfalso. apply (index_search _ _ _ _ Hiu) in E. unfold uk_key in E.
    destruct (at_slot l i) as [r|] eqn:Er; [|done]. destruct (Hfr i r Er) as [_ Hr]. rewrite list.Forall_forall in Hr.
    destruct (Hr col) as [Hx|Hx]; [by eapply list_elem_of_lookup_2|congruence|]. rewrite Ev in Hx. cbn in E.
    destruct (uk_text col r); [done|]. by injection E as E; apply Hx; f_equal.
Qed.

(** Every slot of a table has a row when none is missing. *)
Lemma all_slots_used h c rows : table_ok h c (map Some rows) → free_slots (c_slots c) = [] ∧ active_count (c_slots c) = Z.of_nat (length rows).
Proof.
  intros Hc. pose proof (table_length h c _ _ Hc) as Hl. rewrite length_map in Hl. pose proof Hc as [_ (f & _ & [Hs _ _] & _) _]. cbn [rs_slots] in Hs.
  pose proof (ss_idle _ _ Hs) as Hi. assert (free_slots (c_slots c) = []) as Hfr; [|rewrite Hfr in Hi; cbn in Hi; split; [done|lia]].
  destruct (free_slots (c_slots c)) as [|i fr] eqn:E; [done|]. exfalso. pose proof (ss_free _ _ Hs) as Hf. rewrite E in Hf.
  apply Forall_cons_1 in Hf as [[Hi1 Hi2] _]. pose proof (slot_active_at h c _ _ i Hc) as Ha.
  assert (at_slot (map Some rows) i = Some (nth (Z.to_nat i) rows [])) as Hat.
  { apply at_slot_lookup. split; [|lia]. rewrite list_lookup_fmap. destruct (lookup_lt_is_Some_2 rows (Z.to_nat i)) as [r Hr]; [lia|].
    rewrite Hr. cbn. do 2 f_equal. symmetry. by apply nth_lookup_Some. }
  rewrite Hat in Ha. apply slot_is_active_spec in Ha as [_ Ha]. congruence.
Qed.

(** The table after the first [n] rows. *)
Record holds (t : Table) (n : nat) : Prop := {
  ho_table : table_ok jungle_header (t_cache t) (map Some (records n));
  ho_file : c_file (t_cache t) = Some (JUNGLE_BENCHMARK_HEADER ++ row_lines (records n));
  ho_append : append_ok t (JUNGLE_BENCHMARK_HEADER ++ row_lines (records n));
  ho_whole : cache_truncated t = false;
}.

Lemma row_lines_app a b : row_lines (a ++ b) = row_lines a ++ row_lines b.
Proof. unfold row_lines. by rewrite map_app, concat_app. Qed.

Lemma jungle_head_ok : header_line_ok jungle_header.
Proof. split; [apply (bool_decide_unpack _); vm_compute; done|apply Nat.ltb_lt; vm_compute; reflexivity]. Qed.

(** An INSERT of the values of the next applicant, given as [row_data]. *)
Definition gives_values (row_data : cstr) (id : Z) : Prop :=
  let vals := parse_csv_row row_data in
  (length vals ≤ 11)%nat ∧ (length (field_at vals 0) < 254)%nat ∧ wants_key jungle_header id vals 0 = Some id ∧
  insert_sources jungle_header vals id = applicant_vals id.

Lemma jungle_gives id : applicant id → gives_values (build_jungle_row_data id 512) id.
Proof.
  intros Hid. unfold gives_values. cbv zeta. rewrite data_fields by done. split; [by apply Nat.leb_le|]. split; [|split; [apply auto_wants|by apply jungle_sources]].
  pose proof (fields_fit id Hid) as Hl. apply Forall_cons_1 in Hl as [Hl _]. cbn. by apply Nat.lt_succ_r.
Qed.

Lemma insert_step io t n row_data :
  holds t n → next_auto_id (t_cache t) = Z.of_nat (S n) → applicant (Z.of_nat (S n)) → gives_values row_data (Z.of_nat (S n)) →
  ∃ t', insert_row_data io t row_data = Some (InsDone (Z.of_nat (S n)), t') ∧ holds t' (S n) ∧
    next_auto_id (t_cache t') = Z.of_nat (S (S n)).
Proof.
  intros [Hc Hf Ha Htr] Hn Hid (Hv1 & Hv2 & Hv3 & Hv4). set (id := Z.of_nat (S n)) in *. pose proof (record_fresh n Hid) as Hfr. fold id in Hfr.
  destruct (fresh_free _ _ _ _ _ _ jungle_pk Hc Hfr) as [Hpk Huk]. rewrite jungle_uks in Huk.
  pose proof (Huk 0%nat 1%nat eq_refl) as He. pose proof (Huk 1%nat 2%nat eq_refl) as Hp. rewrite record_text in He, Hp by done. cbn in He, Hp.
  destruct (all_slots_used _ _ _ Hc) as [Hfree Hact]. rewrite length_numbered in Hact.
  destruct (insert_adds io t jungle_header 0 _ _ row_data id (record id) (proj1 jungle_head_ok) jungle_pk Hc Hf Ha Htr)
    as (t' & E & H1 & H2 & H3 & H4 & H5 & _).
  - rewrite Hact. unfold id, applicant in Hid. lia.
  - rewrite Hn. fold id. unfold applicant, MAX_RECORDS in Hid. unfold LONG_MIN, LONG_MAX. lia.
  - exact Hv2.
  - rewrite Hn. by apply jungle_insert_built.
  - unfold plain_sources. rewrite Hv4. pose proof (vo_vals _ _ (applicant_vals_ok id Hid)) as Hv.
    eapply List.Forall_impl; [|exact Hv]. intros v [? ?]. split; [done|]. unfold RECORD_SIZE. lia.
  - rewrite jungle_cols_eq. lia.
  - apply record_plain. done.
  - exists t'. split; [exact E|]. unfold with_row in H1. rewrite Hfree in H1. cbn [reverse rev_append] in H1.
    assert (map Some (records n) ++ [Some (record id)] = map Some (records (S n))) as El by (by rewrite numbered_S, map_app).
    assert ((JUNGLE_BENCHMARK_HEADER ++ row_lines (records n)) ++ record id ++ [NL] = JUNGLE_BENCHMARK_HEADER ++ row_lines (records (S n))) as Ef.
    { rewrite numbered_S, row_lines_app. unfold row_lines at 3. cbn [map concat]. by rewrite app_nil_r, <- !app_assoc. }
    rewrite Ef in H2, H3. rewrite Hn in H5. fold id in H5. rewrite Z.leb_refl in H5.
    split; [split; [by rewrite <- El|done|done|done]|rewrite H5; lia].
Qed.

Lemma insert_rows_done io tm m n t s :
  holds t n → next_auto_id (t_cache t) = Z.of_nat (S n) → Z.of_nat (n + m) ≤ MAX_RECORDS →
  ∃ t' s', insert_rows io tm m (Z.of_nat (S n)) t s = Some (true, t', s') ∧ holds t' (n + m) ∧ LegacySnapshot.table_name s' = LegacySnapshot.table_name s.
Proof.
  revert n t s; induction m as [|m IH]; intros n t s Hh Hn Hm; [exists t, s; by rewrite Nat.add_0_r|]. cbn [insert_rows].
  assert (applicant (Z.of_nat (S n))) as Hid by (unfold applicant; lia).
  destruct (insert_step io t n _ Hh Hn Hid (jungle_gives _ Hid)) as (t1 & E & Hh1 & Hn1). rewrite E. cbn [mbind option_bind].
  replace (Z.of_nat (S n) + 1) with (Z.of_nat (S (S n))) by lia.
  destruct (IH (S n) t1 (snap_inserted io tm t (InsDone (Z.of_nat (S n))) s) Hh1 Hn1) as (t' & s' & E' & Hh' & Hs'); [lia|].
  exists t', s'. rewrite E', Nat.add_succ_r. split; [done|]. split; [done|]. rewrite Hs'. unfold snap_inserted.
  destruct (all_slots_used _ _ _ (ho_table _ _ Hh)) as [_ Hact]. rewrite length_numbered in Hact.
  rewrite (proj2 (Z.leb_gt MAX_RECORDS _)) by lia. by rewrite andb_false_r.
Qed.

(** ** The queries *)

Section query.
Context (h : Header) (t : Table) (stmt : Statement) (col : cstr) (v : cstr) (k : nat).
Context (Hh : c_hdr (t_cache t) = h) (Hw : where_conditions stmt = [mkCond WHERE_EQ col v []]) (Hall : select_all stmt = true).
Context (Hk : get_col_idx h col = Some k).

Lemma query_plan :
  execute_select_internal t stmt false =
    if bool_decide (h_pk h = Some k) || match get_uk_slot h k with Some _ => true | None => false end
    then select_eq t stmt (mkSel None false) (mkCond WHERE_EQ col v []) k else select_scan t stmt (mkSel None false).
Proof using All.
  unfold execute_select_internal, validate_where_columns, select_columns, choose_index_condition. rewrite Hh, Hw, Hall. cbn [forallb].
  unfold condition_column_index at 1. cbn [wc_type wc_col]. rewrite Hk. cbn [andb negb]. cbn [best_condition].
  assert (cond_score h true (mkCond WHERE_EQ col v []) =
    if bool_decide (h_pk h = Some k) then 100 else if match get_uk_slot h k with Some _ => true | None => false end then 90 else 0) as ->.
  { unfold cond_score, condition_column_index. cbn [wc_type wc_col]. by rewrite Hk. }
  destruct (bool_decide (h_pk h = Some k)) eqn:E1; [|destruct (get_uk_slot h k) eqn:E2]; cbn; try done;
    unfold condition_column_index; cbn [wc_type wc_col]; rewrite Hk; cbn; by rewrite ?E1, ?E2.
Qed.

(** The row that an index finds is counted without being read. *)
Lemma query_found i :
  h_pk h = Some k ∧ (∃ key, parse_long_value v = Some key ∧ ix_search (c_id (t_cache t)) key = Some i) ∨
  h_pk h ≠ Some k ∧ get_uk_slot h k ≠ None ∧ find_uk_row (t_cache t) k v = Some (Some i) →
  execute_select_internal t stmt false = Some (true, (1, []), t).
Proof using All.
  intros H. rewrite query_plan. unfold select_eq. rewrite Hh.
  assert (select_found t stmt (mkSel None false) i = Some (true, (1, []), t)) as Hf by (unfold select_found; by rewrite Hw).
  destruct H as [(Hp & key & Hv & Hs)|(Hp & Hu & Hr)].
  - rewrite bool_decide_eq_true_2 by done. cbn [orb wc_val]. by rewrite Hv, Hs.
  - rewrite bool_decide_eq_false_2 by done. destruct (get_uk_slot h k); [|done]. cbn [orb wc_val]. by rewrite Hr.
Qed.
End query.

(** A statement of the benchmark, with a value that fits. *)
Lemma jungle_stmt col v :
  (length col < COL_SIZE)%nat → (length v < VAL_SIZE)%nat →
  let stmt := set_eq_select_value (init_eq_select_statement JUNGLE_BENCHMARK_TABLE col) v in
  where_conditions stmt = [mkCond WHERE_EQ col v []] ∧ select_all stmt = true ∧ Parser.table_name stmt = JUNGLE_BENCHMARK_TABLE.
Proof.
  intros Hc Hv. cbv zeta. unfold set_eq_select_value, init_eq_select_statement. cbn [where_conditions wc_type wc_col select_all Parser.table_name].
  unfold strcpy_sz. split; [|done]. by rewrite !(take_ge col), !(take_ge v) by lia.
Qed.

Lemma record_slot t n id : holds t n → 1 ≤ id ≤ Z.of_nat n → at_slot (map Some (records n)) (id - 1) = Some (record id).
Proof.
  intros _ Hid. apply at_slot_lookup. split; [|lia]. rewrite list_lookup_fmap.
  rewrite (proj2 (numbered_lookup _ n (Z.to_nat (id - 1)) (record id))); [done|]. split; [lia|]. f_equal. lia.
Qed.

Section queries.
Context (t : Table) (n : nat) (Hh : holds t n) (Hn : Z.of_nat n ≤ MAX_RECORDS) (id : Z) (Hid : 1 ≤ id ≤ Z.of_nat n).

Lemma queried : applicant id.
Proof using Hn Hid. unfold applicant. lia. Qed.

Lemma query_id : execute_select_internal t (set_eq_select_value (init_eq_select_statement JUNGLE_BENCHMARK_TABLE (lit "id")) (print_Z id)) false = Some (true, (1, []), t).
Proof using Hh Hn Hid.
  pose proof queried as Ha. pose proof (id_bound id Ha) as Hb. pose proof (print_width 6 id Hb) as Hl.
  destruct (jungle_stmt (lit "id") (print_Z id)) as (H1 & H2 & _); [apply Nat.ltb_lt; done|unfold VAL_SIZE; lia|].
  apply (query_found jungle_header t _ (lit "id") (print_Z id) 0 (ta_hdr _ _ _ _ (ho_table _ _ Hh)) H1 H2) with (i := id - 1); [by vm_compute|].
  left. split; [exact jungle_pk|]. exists id. split.
  - apply parse_long_print. unfold applicant, MAX_RECORDS in Ha. unfold LONG_MIN, LONG_MAX. lia.
  - pose proof (ta_trees _ _ _ _ (ho_table _ _ Hh)) as [Hix _ _ _]. apply (index_search _ _ _ _ Hix). unfold id_key.
    rewrite (record_slot t n id Hh Hid). cbn. by apply record_id.
Qed.

(** A query by a unique column. *)
Lemma query_unique col v k slot :
  (length col < COL_SIZE)%nat → get_col_idx jungle_header col = Some k → h_uks jungle_header !! slot = Some k →
  applicant_vals id !! k = Some v → v ≠ [] →
  execute_select_internal t (set_eq_select_value (init_eq_select_statement JUNGLE_BENCHMARK_TABLE col) v) false = Some (true, (1, []), t).
Proof using Hh Hn Hid.
  intros Hc Hk Hs Hv Hne. pose proof queried as Ha. pose proof (Forall_lookup_1 _ _ _ _ (vo_vals _ _ (applicant_vals_ok id Ha)) Hv) as [_ Hl].
  pose proof (Forall_lookup_1 _ _ _ _ (vals_clean id Ha) Hv) as Hcl. simpl in Hl, Hcl.
  destruct (jungle_stmt col v Hc) as (H1 & H2 & _); [unfold VAL_SIZE; lia|]. pose proof (ta_hdr _ _ _ _ (ho_table _ _ Hh)) as Hhd.
  assert (get_uk_slot jungle_header k = Some slot) as Hg by (apply get_uk_slot_at; [apply header_uks_NoDup, jungle_head_ok|done]).
  apply (query_found jungle_header t _ col v k Hhd H1 H2 Hk) with (i := id - 1). right. rewrite Hg.
  split; [|split; [done|]].
  - rewrite jungle_pk. intros [= <-]. rewrite jungle_uks in Hs. by destruct slot as [|[|slot]].
  - unfold find_uk_row. rewrite Hhd, Hg. unfold normalize_value. rewrite clean_source by done.
    destruct v as [|b v]; [done|]. pose proof (ta_trees _ _ _ _ (ho_table _ _ Hh)) as [_ _ _ Hu]. destruct (Hu slot k Hs) as (u & Hun & Hiu).
    unfold uk_tree_at. rewrite Hun. cbn [mjoin option_join mbind option_bind]. unfold unique_index_find.
    assert (uk_key k (map Some (records n)) (id - 1) = Some (b :: v)) as Hkey.
    { unfold uk_key. rewrite (record_slot t n id Hh Hid). cbn [mbind option_bind]. by rewrite record_text, Hv. }
    apply (index_search _ _ _ _ Hiu) in Hkey. rewrite Hkey. cbn [mbind option_bind].
    by rewrite (slot_active_at _ _ _ _ _ (ho_table _ _ Hh)), (record_slot t n id Hh Hid).
Qed.

(** The query by name looks at every row. *)
Lemma query_name :
  ∃ out t', execute_select_internal t (set_eq_select_value (init_eq_select_statement JUNGLE_BENCHMARK_TABLE (lit "name")) (build_jungle_name id 64)) false =
    Some (true, out, t') ∧ 0 < out.1 ∧ holds t' n.
Proof using Hh Hn Hid.
  pose proof queried as Ha. destruct (name_short id) as [Hcl Hl]. set (v := build_jungle_name id 64) in *.
  destruct (jungle_stmt (lit "name") v) as (H1 & H2 & _); [apply Nat.ltb_lt; done|unfold VAL_SIZE; lia|].
  set (stmt := set_eq_select_value _ v) in *. pose proof Hh as [Hc Hf Hap Htr]. pose proof (ta_hdr _ _ _ _ Hc) as Hhd.
  rewrite (query_plan jungle_header t stmt (lit "name") v 3 Hhd H1 H2) by (by vm_compute).
  rewrite jungle_pk, bool_decide_eq_false_2 by done. assert (get_uk_slot jungle_header 3 = None) as -> by (unfold get_uk_slot; by rewrite jungle_uks).
  cbn [orb]. unfold select_scan.
  pose proof (table_length _ _ _ _ Hc) as Hlen. unfold record_count in Hlen.
  match goal with |- context [scan_slots ?m 0 stmt ?x ?c ?o] => destruct (scan_slots_ok jungle_header stmt m 0 x c _ o Hc) as (c' & E & Hc' & Hf') end; [lia|lia|].
  rewrite E, Htr. eexists _, _. split; [reflexivity|]. split.
  - rewrite emit_all_count. cbn [fst o0]. rewrite Z.add_0_l.
    assert (record id ∈ matching jungle_header stmt (rows_from 0 (map Some (records n)))) as Hin.
    { apply matching_in. split.
      - unfold rows_from. change (Z.to_nat 0) with 0%nat. rewrite drop_0. apply table_rows_in. exists (id - 1). by apply (record_slot t n).
      - unfold row_fields_match_statement. rewrite H1. cbn [forallb]. rewrite andb_true_r. unfold cond_holds.
        assert (condition_column_index jungle_header (mkCond WHERE_EQ (lit "name") v []) = Some 3%nat) as -> by (by vm_compute).
        cbn [wc_type wc_val]. rewrite record_fields by done. apply streq_true. done. }
    apply list_elem_of_lookup in Hin as [j Hj]. apply lookup_lt_Some in Hj. lia.
  - split; [exact Hc'|by cbn; rewrite Hf'|exact Hap|exact Htr].
Qed.
End queries.

(** ** The benchmark *)

(** The one open table is the one of the benchmark, with [n] rows. *)
Definition running (e : Exec) (n : nat) : Prop :=
  ∃ o, open_tables e = [o] ∧ o_name o = JUNGLE_BENCHMARK_TABLE ∧ holds (o_table o) n.

Lemma query_key_range n i : 0 < n → 0 ≤ i → 1 ≤ query_key n i ≤ n.
Proof. intros Hn Hi. unfold query_key. pose proof (Z.rem_bound_pos (i * 7919) n ltac:(lia) ltac:(lia)). lia. Qed.

Section run.
Context (io : nat → bool) (mt : cstr → Z * Z) (n : nat).

(** A value of which the query finds a row in every such table. *)
Definition found_by (col v : cstr) : Prop :=
  ∀ t, holds t n → ∃ out t', execute_select_internal t (set_eq_select_value (init_eq_select_statement JUNGLE_BENCHMARK_TABLE col) v) false =
    Some (true, out, t') ∧ 0 < out.1 ∧ holds t' n.

Lemma run_queries_ok m i target col e checks :
  (∀ j, 0 ≤ j → found_by col (target j)) → running e n → 0 ≤ i →
  ∃ e', run_queries io mt m i target (init_eq_select_statement JUNGLE_BENCHMARK_TABLE col) e checks = Some (true, checks + Z.of_nat m, e') ∧ running e' n.
Proof.
  intros Hq. revert i e checks; induction m as [|m IH]; intros i e checks Hr Hi; [exists e; by rewrite Z.add_0_r|]. cbn [run_queries].
  destruct Hr as (o & Ho & Hname & Hh). destruct (Hq i Hi _ Hh) as (out & t' & E & Hout & Hh'). unfold select_quietly.
  set (stmt := set_eq_select_value _ (target i)) in *. change (Parser.table_name stmt) with JUNGLE_BENCHMARK_TABLE.
  unfold get_table. rewrite Ho. cbn [find_open]. rewrite Hname. assert (streq JUNGLE_BENCHMARK_TABLE JUNGLE_BENCHMARK_TABLE = true) as -> by by apply streq_true.
  cbn [mbind option_bind]. unfold touch_table. rewrite Ho. cbn [open_tables list_insert insert lookup list_lookup mbind option_bind o_table]. rewrite E.
  cbn [mbind option_bind negb orb]. rewrite (proj2 (Z.leb_gt _ 0)) by done.
  match goal with |- context [run_queries io mt m (i + 1) target _ ?e1 _] => destruct (IH (i + 1) e1 (checks + 1)) as (e' & E' & Hr') end; [|lia|].
  - eexists. split; [reflexivity|]. by split.
  - exists e'. split; [|done]. rewrite E'. do 3 f_equal. lia.
Qed.

Lemma run_kinds_ok e : 0 < Z.of_nat n ≤ MAX_RECORDS → running e n →
  ∃ e', run_query_kinds io mt (jungle_queries (Z.of_nat n)) e 0 = Some (true, 300030, e') ∧ running e' n.
Proof.
  intros Hn Hr. assert (∀ i, 0 ≤ i → 1 ≤ query_key (Z.of_nat n) i ≤ Z.of_nat n) as Hk by (intros i Hi; apply query_key_range; lia).
  unfold jungle_queries. generalize (Z.to_nat 100000) (eq_refl : Z.of_nat (Z.to_nat 100000) = 100000). intros m Hm. cbn [run_query_kinds].
  destruct (run_queries_ok m 0 (fun i => print_Z (query_key (Z.of_nat n) i)) (lit "id") e 0) as (e1 & E1 & Hr1); [|done|lia|].
  { intros i Hi t Hh. exists (1, []), t. split; [exact (query_id t n Hh (proj2 Hn) _ (Hk i Hi))|by split]. }
  rewrite E1. cbn [mbind option_bind].
  destruct (run_queries_ok m 0 (fun i => build_jungle_email (query_key (Z.of_nat n) i) 64) (lit "email") e1 (0 + Z.of_nat m)) as (e2 & E2 & Hr2); [|done|lia|].
  { intros i Hi t Hh. exists (1, []), t. split; [|by split]. apply (query_unique t n Hh (proj2 Hn) _ (Hk i Hi) (lit "email") _ 1 0).
    - apply Nat.ltb_lt. done.
    - by vm_compute.
    - by rewrite jungle_uks.
    - done.
    - rewrite (proj1 (email_whole _ (queried n (proj2 Hn) _ (Hk i Hi)))). done. }
  rewrite E2. cbn [mbind option_bind].
  destruct (run_queries_ok m 0 (fun i => build_jungle_phone (query_key (Z.of_nat n) i) 32) (lit "phone") e2 (0 + Z.of_nat m + Z.of_nat m)) as (e3 & E3 & Hr3); [|done|lia|].
  { intros i Hi t Hh. exists (1, []), t. split; [|by split]. apply (query_unique t n Hh (proj2 Hn) _ (Hk i Hi) (lit "phone") _ 2 1).
    - apply Nat.ltb_lt. done.
    - by vm_compute.
    - by rewrite jungle_uks.
    - done.
    - rewrite (proj1 (phone_whole _ (queried n (proj2 Hn) _ (Hk i Hi)))). done. }
  rewrite E3. cbn [mbind option_bind].
  destruct (run_queries_ok 30 0 (fun i => build_jungle_name (query_key (Z.of_nat n) i) 64) (lit "name") e3 (0 + Z.of_nat m + Z.of_nat m + Z.of_nat m))
    as (e4 & E4 & Hr4); [|done|lia|].
  { intros i Hi t Hh. exact (query_name t n Hh (proj2 Hn) _ (Hk i Hi)). }
  rewrite E4. cbn [mbind option_bind]. exists e4. split; [|done]. rewrite Hm. done.
Qed.
End run.

(** The file with only the header opens as a table without rows. *)
Lemma open_empty io tm name :
  open_table io tm name JUNGLE_BENCHMARK_HEADER None None =
    match load_table_contents io JUNGLE_BENCHMARK_HEADER None with
    | Some (ok, t) => Some (ok, t, mkSnap name None false true)
    | None => None
    end →
  ∃ t s, open_table io tm name JUNGLE_BENCHMARK_HEADER None None = Some (true, t, s) ∧ LegacySnapshot.table_name s = name ∧
    holds t 0 ∧ next_auto_id (t_cache t) = 1.
Proof.
  intros Ho. destruct (load_text_ok io jungle_header 0 [] jungle_head_ok jungle_pk) as (t & E & H1 & H2 & H3 & H4 & _); [constructor|done|done|].
  assert (write_table_header jungle_header ++ row_lines [] = JUNGLE_BENCHMARK_HEADER) as Hf by (vm_compute; reflexivity). rewrite Hf in *.
  assert ((fun r => next_auto_id (t_cache r.2)) <$> load_table_contents io JUNGLE_BENCHMARK_HEADER None = Some 1) as Hn by (vm_compute; reflexivity).
  rewrite E in Ho, Hn. exists t. eexists. split; [exact Ho|]. split; [done|]. split; [|by injection Hn].
  split; [exact H1|by rewrite app_nil_r|by rewrite app_nil_r|exact H4].
Qed.

(** C38. The benchmark over generated applicants runs to its end: started in a directory
    without its files, for any number of rows asked for, it creates the table, inserts
    every applicant, none of whom is refused as a duplicate or for an empty field, and each of
    its 300030 queries, by key, e-mail address, telephone number and name, finds a row; the
    table then holds exactly the records of the applicants, in order, and its file is the
    data set that [generate_jungle_dataset] writes for the same number. *)
Theorem jungle_benchmark_completes (io : nat → bool) (mt : cstr → Z * Z) (record_count : Z) (e e1 : Exec) :
  let n := clamp_record_count (if record_count <=? 0 then 1000000 else record_count) 1000000 in
  close_all_tables io mt e = Some e1 → ensure_jungle_benchmark_artifacts_absent (disk e1) = true →
  ∃ e2 o, run_jungle_benchmark io mt record_count e = Some (BenchDone 300030, e2) ∧ open_tables e2 = [o] ∧
    o_name o = JUNGLE_BENCHMARK_TABLE ∧
    table_ok jungle_header (t_cache (o_table o)) (map (fun id => Some (build_jungle_csv_record id 512)) (seqZ 1 n)) ∧
    c_file (t_cache (o_table o)) = generate_jungle_dataset n false.
Proof.
  cbv zeta. set (n := clamp_record_count _ 1000000). intros Hc Ha.
  assert (1000000 ≤ n ≤ MAX_RECORDS) as Hn.
  { unfold n, clamp_record_count, MAX_RECORDS. repeat case_if; bool_to_prop; lia. }
  unfold run_jungle_benchmark. fold n. rewrite Hc. cbn [mbind option_bind]. rewrite Ha. cbn [negb].
  set (e2 := mkExec [] _ _). set (d := disk e2).
  assert (files_of d JUNGLE_BENCHMARK_TABLE = mkFiles (Some JUNGLE_BENCHMARK_HEADER) None None) as Hd by apply files_of_insert.
  destruct (open_empty io (times mt d JUNGLE_BENCHMARK_TABLE) JUNGLE_BENCHMARK_TABLE) as (t0 & s0 & Hop & Hname & Hh0 & Hn0); [vm_compute; reflexivity|].
  rewrite (get_table_closed io mt _ e2 _ _ _ _ _ eq_refl Hd Hop). cbn [mbind option_bind open_tables lookup list_lookup o_table o_snap disk].
  destruct (insert_rows_done io (times mt d JUNGLE_BENCHMARK_TABLE) (Z.to_nat n) 0 t0 s0 Hh0 Hn0) as (t1 & s1 & E & Hh & Hs); [lia|].
  fold d. change (Z.of_nat 1) with 1 in E. rewrite E. cbn [mbind option_bind negb Nat.add] in *.
  match goal with |- context [run_query_kinds io mt _ ?e3 0] => destruct (run_kinds_ok io mt (Z.to_nat n) e3) as (e4 & E4 & o & Ho & Hnm & Hho) end.
  - lia.
  - eexists. split; [reflexivity|]. split; [unfold o_name; cbn; by rewrite Hs|exact Hh].
  - rewrite Z2Nat.id in E4 by lia. rewrite E4. exists e4, o. split; [done|]. split; [done|]. split; [done|]. pose proof Hho as [H1 H2 _ _].
    unfold numbered in H1, H2. rewrite Z2Nat.id in H1, H2 by lia. split.
    + rewrite <- (map_map record Some). exact H1.
    + rewrite H2. unfold generate_jungle_dataset. rewrite (proj2 (Z.leb_gt n 0)) by lia.
      assert (clamp_record_count n 1 = n) as ->.
      { unfold clamp_record_count. rewrite (proj2 (Z.ltb_ge n 1)), (proj2 (Z.ltb_ge MAX_RECORDS n)) by lia. done. }
      cbv zeta iota. rewrite jungle_lines_records, Z2Nat.id by lia. done.
Qed.

(** A program that starts in an empty directory, asked for no number of rows. *)
Lemma jungle_benchmark_completes_witness :
  ∃ e2 o, run_jungle_benchmark (fun _ => true) (fun _ => (0, 0)) 0 (mkExec [] 0 ∅) = Some (BenchDone 300030, e2) ∧ open_tables e2 = [o] ∧
    o_name o = JUNGLE_BENCHMARK_TABLE ∧
    table_ok jungle_header (t_cache (o_table o)) (map (fun id => Some (build_jungle_csv_record id 512)) (seqZ 1 1000000)) ∧
    c_file (t_cache (o_table o)) = generate_jungle_dataset 1000000 false.
Proof. apply (jungle_benchmark_completes (fun _ => true) (fun _ => (0, 0)) 0 (mkExec [] 0 ∅) (mkExec [] 0 ∅)); vm_compute; reflexivity. Defined.

(** The first rows of the data set. *)
Example first_applicants :
  jungle_lines 2 1 =
    lit "1,jungle0000001@apply.kr,010-0000-0001,김민준,sw_ai_lab,student,major_cs_grade_1,59,gh_0000001,submitted,2026_spring" ++ [NL] ++
    lit "2,jungle0000002@apply.kr,010-0000-0002,이민준,game_lab,student,major_cs_grade_1,85,gh_0000002,interview_wait,2026_spring" ++ [NL].
Proof. vm_compute. reflexivity. Qed.
