(* ===== verification/PerfProofs.v ===== *)
(** The benchmark of the trees of [Jungle]: its bulk load gives the table that INSERTs of
    the rows would give, its lookups find their rows, and its changes reach every row. *)

From Stdlib Require Import String.
From S2P Require Import Prelude CString BPTree BPTreeProofs BPTreeSpec BPTreeIndex Parser Values Table Store StoreProofs LegacyRow LegacyRowProofs LegacyCache LegacyCacheProofs.
From S2P Require Import LegacyIndex LegacyIndexProofs DeltaLog DeltaLogProofs LegacyTable LegacyTableProofs LegacyLoadProofs LegacySelect LegacyWrite LegacySnapshot Executor ReopenClaims Jungle JungleProofs.
From stdpp Require Import base numbers list sorting option gmap.
Local Open Scope Z_scope.

(** ** The bulk load *)

Abbreviation perf_rows := (numbered (perf_line "User")).

Section bulk.
Context (h : Header).

(** A row goes to the end of the file and into a new slot. *)
Lemma raw_row_ok f t l row :
  loading h f true t l → append_ok t f → forallb line_char row = true → (length row < RECORD_SIZE - 1)%nat → Z.of_nat (length l) < MAX_RECORDS →
  let off := Z.of_nat (length f) in let t1 := append_to_file (set_append_offset t off) f row in let c := t_cache t1 in
  ∃ s, append_position t (Some f) = Some off ∧ append_record_raw_memory (c_slots c) row (next_row_id c) off = Some (Some (Z.of_nat (length l)), s) ∧
    let t2 := set_cache t1 (set_slots (set_next c (next_auto_id c) (next_row_id c + 1)) s) in
    loading h (f ++ row ++ [NL]) true t2 (l ++ [Some row]) ∧ append_ok t2 (f ++ row ++ [NL]) ∧ t_delta t2 = t_delta t.
Proof.
  cbv zeta. intros Hlo Ha Hr Hl Hm. destruct (loading_slots h f true t l Hlo) as (Hs & Htx & Hp & He & _).
  destruct Hlo as [[Hh _ Htr] Hf Hfree Hwhole (Hn1 & Hn2 & Hn3)]. destruct (slots_ok_app f (row ++ [NL]) _ He Hs) as [Hs1 Htx1].
  assert (record_count (c_slots (t_cache t)) = Z.of_nat (length l)) as Hrc by (rewrite <- Htx; unfold texts, record_count; by rewrite length_map).
  assert (line_at (f ++ row ++ [NL]) (Z.of_nat (length f)) = row) as Hline by (unfold line_at; rewrite Nat2Z.id, drop_app_length; by apply cut_nl_line).
  destruct (append_raw_ok (f ++ row ++ [NL]) (c_slots (t_cache t)) row (next_row_id (t_cache t)) (Z.of_nat (length f)) Hs1 Hfree) as (s & E & Hs' & Htx' & Hfree');
    [rewrite !length_app; simpl; lia|exact Hline|exact Hl|by rewrite Hrc|].
  exists s. split.
  { unfold append_position. destruct Ha as [->| ->]; [done|]. by rewrite (proj2 (Z.leb_le 0 _)) by lia. }
  rewrite Hrc in E. unfold append_to_file, append_record_file. cbn [append_offset set_append_offset t_cache set_cache c_slots set_file set_store next_row_id].
  split; [exact E|]. rewrite Htx1, Htx in Htx'.
  split; [|split; [right; cbn; rewrite (proj2 (Z.leb_le 0 _)) by lia; rewrite !length_app; simpl; lia|done]].
  split; [|done|exact Hfree'|exact Hwhole|].
  - split; [exact Hh| |exact Htr]. eexists. split; [reflexivity|]. split; [|exact Htx']. split; cbn; [exact Hs'|by apply pages_ok_app|by apply ends_nl_append].
  - cbn. rewrite length_app. cbn [length]. split; [exact Hn1|]. split; [lia|]. rewrite (append_raw_slots _ _ _ _ _ _ E). apply Forall_app. split.
    + eapply List.Forall_impl; [|exact Hn3]. intros sl [? ?]. split; [done|lia].
    + constructor; [|constructor]. cbn. split; [done|lia].
Qed.

Context (Hrows : ∀ i, applicant i → plain_row (perf_line "User" i)).

Lemma bulk_rows_ok head m n t :
  loading h (head ++ row_lines (perf_rows n)) true t (map Some (perf_rows n)) → append_ok t (head ++ row_lines (perf_rows n)) →
  Z.of_nat (n + m) ≤ MAX_RECORDS →
  ∃ t', bulk_rows m (Z.of_nat (S n)) t =
      Some (true, t', map (fun i => (i, i - 1)) (seqZ (Z.of_nat (S n)) (Z.of_nat m)), map (fun i => (perf_email i, i - 1)) (seqZ (Z.of_nat (S n)) (Z.of_nat m))) ∧
    loading h (head ++ row_lines (perf_rows (n + m))) true t' (map Some (perf_rows (n + m))) ∧
    append_ok t' (head ++ row_lines (perf_rows (n + m))) ∧ t_delta t' = t_delta t.
Proof using Hrows.
  revert n t; induction m as [|m IH]; intros n t Hlo Ha Hm; [exists t; by rewrite Nat.add_0_r|]. rewrite seqZ_cons by lia.
  cbn [bulk_rows]. rewrite (lo_file _ _ _ _ _ Hlo). cbn [mbind option_bind].
  assert (applicant (Z.of_nat (S n))) as Hid by (unfold applicant; lia). destruct (Hrows _ Hid) as (Hr & Hl & _).
  assert (length (perf_rows n) = n) as Hlen by apply length_numbered.
  destruct (raw_row_ok _ t _ _ Hlo Ha Hr Hl) as (s & -> & E & Hlo' & Ha' & Hd); [rewrite length_map, Hlen; lia|].
  cbn [mbind option_bind]. rewrite E. cbn [mbind option_bind]. rewrite length_map, Hlen.
  assert (map Some (perf_rows n) ++ [Some (perf_line "User" (Z.of_nat (S n)))] = map Some (perf_rows (S n))) as El by (by rewrite numbered_S, map_app).
  assert ((head ++ row_lines (perf_rows n)) ++ perf_line "User" (Z.of_nat (S n)) ++ [NL] = head ++ row_lines (perf_rows (S n))) as Ef.
  { rewrite numbered_S, row_lines_app. unfold row_lines at 3. cbn [map concat]. by rewrite app_nil_r, <- !app_assoc. }
  rewrite El, Ef in Hlo'. rewrite Ef in Ha'. replace (Z.of_nat (S n) + 1) with (Z.of_nat (S (S n))) by lia.
  destruct (IH (S n) _ Hlo' Ha') as (t' & E' & H1 & H2 & H3); [lia|]. rewrite E'. cbn [mbind option_bind map].
  exists t'. rewrite Nat.add_succ_r. split; [|by rewrite H3].
  replace (Z.succ (Z.of_nat (S n))) with (Z.of_nat (S (S n))) by lia. replace (Z.pred (Z.of_nat (S m))) with (Z.of_nat m) by lia.
  replace (Z.of_nat (S n) - 1) with (Z.of_nat n) by lia. done.
Qed.
End bulk.

(** ** The rows of the benchmark *)

Definition perf_header : Header := parse_header PERF_HEADER.

Lemma perf_head_eq :
  perf_header = mkHeader [mkCol (lit "id") COL_PK; mkCol (lit "email") COL_UK; mkCol (lit "payload") COL_NN; mkCol (lit "name") COL_NORMAL] (Some 0%nat) [1%nat].
Proof. vm_compute. reflexivity. Qed.

Section perf_row.
Context (i : Z) (Hi : applicant i).

Lemma perf_bound : 0 ≤ i < 10 ^ Z.of_nat 7.
Proof using Hi. exact (id_bound i Hi). Qed.

Lemma perf_email_whole : perf_email i = lit "user" ++ print_pad 7 i ++ lit "@test.com" ∧ short 20 (perf_email i).
Proof using Hi.
  assert (short 20 (lit "user" ++ print_pad 7 i ++ lit "@test.com")) as H.
  { apply (short_app 4 16); [by apply short_lit|]. apply (short_app 7 9); [apply (short_pad 6 i perf_bound)|by apply short_lit]. }
  unfold perf_email, strcpy_sz. rewrite take_ge by (destruct H; lia). by split.
Qed.

Definition perf_vals : list cstr := [print_Z i; perf_email i; lit "payload" ++ print_Z i; lit "User" ++ print_Z i].

Lemma perf_vals_short : Forall2 short [7; 20; 14; 11]%nat perf_vals.
Proof using Hi.
  pose proof (short_print 6 i perf_bound) as H. constructor; [exact H|]. constructor; [apply perf_email_whole|].
  constructor; [apply (short_app 7 7); [by apply short_lit|exact H]|]. constructor; [apply (short_app 4 7); [by apply short_lit|exact H]|done].
Qed.

Lemma perf_commas : perf_line "User" i = commas perf_vals.
Proof using Hi.
  assert (perf_line "User" i = strcpy_sz RECORD_SIZE (commas perf_vals)) as ->.
  { unfold perf_line, perf_vals, commas. f_equal. cbn [map concat app]. by rewrite app_nil_r, <- !app_assoc. }
  unfold strcpy_sz. apply take_ge. etrans; [apply (length_commas _ _ perf_vals_short)|apply Nat.leb_le; done].
Qed.

Lemma perf_columns : (1 < col_count perf_header < MAX_COLS)%nat ∧ length perf_vals = col_count perf_header.
Proof using Type. rewrite perf_head_eq. split; [split; apply Nat.ltb_lt|]; done. Qed.

Lemma perf_plain : plain_row (perf_line "User" i).
Proof using Hi. rewrite perf_commas. apply (row_plain _ _ _ (proj1 perf_columns) (proj2 perf_columns) perf_vals_short). apply Nat.leb_le. done. Qed.

Lemma perf_id : get_row_pk_value perf_header (perf_line "User" i) = Some i.
Proof using Hi.
  rewrite perf_commas. apply (clean_row_key _ _ _ (proj1 perf_columns) (proj2 perf_columns) perf_vals_short); [apply Nat.leb_le; done|by rewrite perf_head_eq|done|].
  unfold applicant, MAX_RECORDS in Hi. unfold LONG_MIN, LONG_MAX. lia.
Qed.

Lemma perf_text : uk_text 1 (perf_line "User" i) = perf_email i.
Proof using Hi.
  rewrite perf_commas, (row_uk_text _ _ _ (proj1 perf_columns) (proj2 perf_columns) perf_vals_short) by (apply Nat.leb_le; done). done.
Qed.
End perf_row.

(** ** Their trees *)

(** Numbers of as many digits are in the order of their texts. *)
Lemma digits_range s a : forallb isdigit s = true → a * 10 ^ Z.of_nat (length s) ≤ fst (digits a s) < (a + 1) * 10 ^ Z.of_nat (length s).
Proof.
  revert a; induction s as [|c s IH]; intros a; [cbn; lia|]. cbn [forallb digits]. intros [Hc Hs]%andb_true_iff. rewrite Hc.
  specialize (IH (a * 10 + (c - 48)) Hs). apply isdigit_range in Hc. cbn [length]. rewrite Nat2Z.inj_succ, Z.pow_succ_r by lia. nia.
Qed.

Lemma digits_order s t x y a : forallb isdigit s = true → forallb isdigit t = true → length s = length t →
  fst (digits a s) < fst (digits a t) → strcmp (s ++ x) (t ++ y) = Lt.
Proof.
  revert t a; induction s as [|c s IH]; intros [|d t] a Hs Ht Hl Hv; try done; [cbn in Hv; lia|].
  cbn [forallb] in Hs, Ht. apply andb_true_iff in Hs as [Hc Hs], Ht as [Hd Ht]. cbn [digits] in Hv. rewrite Hc, Hd in Hv. injection Hl as Hl.
  pose proof (digits_range s (a * 10 + (c - 48)) Hs) as H1. pose proof (digits_range t (a * 10 + (d - 48)) Ht) as H2. rewrite Hl in H1.
  cbn [app strcmp]. destruct (Z.compare_spec c d) as [->|Hcd|Hcd]; [by eapply IH|done|].
  exfalso. assert (0 < 10 ^ Z.of_nat (length t)) by lia. nia.
Qed.

Lemma perf_email_order i j : applicant i → applicant j → i < j → klt (perf_email i) (perf_email j).
Proof.
  intros Hi Hj Hij. rewrite (proj1 (perf_email_whole i Hi)), (proj1 (perf_email_whole j Hj)). unfold klt, kcmp, cstr_order.
  assert (strcmp (print_pad 7 i ++ lit "@test.com") (print_pad 7 j ++ lit "@test.com") = Lt) as H.
  { pose proof (id_bound i Hi). pose proof (id_bound j Hj). apply (digits_order _ _ _ _ 0); [apply pad_digits; lia|apply pad_digits; lia| |].
    - by rewrite !(pad_width 6).
    - rewrite !pad_value by lia. done. }
  revert H. generalize (print_pad 7 i ++ lit "@test.com") (print_pad 7 j ++ lit "@test.com"). intros a b H. exact H.
Qed.

Section pairs.
Context {K : Type} `{!KeyOrder K, !KeyOrderLaws K} (g : Z → K) (n : nat).
Context (Hg : ∀ i j, 1 ≤ i → i < j → j ≤ Z.of_nat n → klt (g i) (g j)).

Abbreviation pairs := (map (fun i => (g i, i - 1)) (seqZ 1 (Z.of_nat n))).

Lemma pairs_sorted : StronglySorted klt pairs.*1.
Proof using Hg.
  assert (∀ m i, 1 ≤ i → i + Z.of_nat m - 1 ≤ Z.of_nat n → StronglySorted klt (map (fun i => (g i, i - 1)) (seqZ i (Z.of_nat m))).*1) as H;
    [|apply H; lia].
  induction m as [|m IH]; intros i Hi Hm; [constructor|]. rewrite seqZ_cons by lia. cbn [map fmap list_fmap fst].
  replace (Z.pred (Z.of_nat (S m))) with (Z.of_nat m) by lia. constructor; [apply IH; lia|].
  apply List.Forall_forall. intros k Hk. apply list_elem_of_In, list_elem_of_fmap in Hk as (x & -> & Hx).
  apply list_elem_of_In, in_map_iff in Hx as (j & <- & Hj). apply list_elem_of_In, elem_of_seqZ in Hj. apply Hg; lia.
Qed.

Lemma pairs_get k j : assoc_get k pairs = Some j ↔ 0 ≤ j < Z.of_nat n ∧ g (j + 1) = k.
Proof using All.
  rewrite assoc_get_Some by exact pairs_sorted. rewrite list_elem_of_In, in_map_iff. split.
  - intros (i & [= <- <-] & Hi). apply list_elem_of_In, elem_of_seqZ in Hi. replace (i - 1 + 1) with i by lia. split; [lia|done].
  - intros [Hj <-]. exists (j + 1). replace (j + 1 - 1) with j by lia. split; [done|]. apply list_elem_of_In, elem_of_seqZ. lia.
Qed.
End pairs.

Lemma perf_slot n j : at_slot (map Some (perf_rows n)) j = if decide (0 ≤ j < Z.of_nat n) then Some (perf_line "User" (j + 1)) else None.
Proof.
  case_decide as Hj.
  - apply at_slot_lookup. split; [|lia]. rewrite list_lookup_fmap.
    rewrite (proj2 (numbered_lookup _ n (Z.to_nat j) (perf_line "User" (j + 1)))); [done|]. split; [lia|]. f_equal. lia.
  - destruct (at_slot _ j) eqn:E; [|done]. apply at_slot_bound in E. rewrite length_map, length_numbered in E. lia.
Qed.

(** After the trees are built the table is as if the rows had been inserted. *)
Lemma bulk_trees_ok f t n :
  loading perf_header f true t (map Some (perf_rows n)) → Z.of_nat n ≤ MAX_RECORDS →
  ∃ t', bulk_trees (Z.of_nat n) (map (fun i => (i, i - 1)) (seqZ 1 (Z.of_nat n))) (map (fun i => (perf_email i, i - 1)) (seqZ 1 (Z.of_nat n))) t = Some (true, t') ∧
    table_ok perf_header (t_cache t') (map Some (perf_rows n)) ∧ c_slots (t_cache t') = c_slots (t_cache t) ∧ c_file (t_cache t') = c_file (t_cache t) ∧
    t_delta t' = t_delta t ∧ cache_truncated t' = cache_truncated t.
Proof.
  intros [[Hh Hfile Htr] Hf _ _ _] Hn. unfold bulk_trees.
  destruct (ix_build_elems (c_id (t_cache t)) (map (fun i => (i, i - 1)) (seqZ 1 (Z.of_nat n)))) as (id' & Hid & Hok & Hel).
  { apply (pairs_sorted (fun i => i)). intros i j _ Hij _. unfold klt, kcmp, long_order. by apply Z.compare_lt_iff. }
  destruct (tr_uks _ _ _ _ Htr 0%nat 1%nat) as (u & Hu & _); [by rewrite perf_head_eq|].
  destruct (ix_build_elems u (map (fun i => (perf_email i, i - 1)) (seqZ 1 (Z.of_nat n)))) as (u' & Hub & Huok & Huel).
  { apply pairs_sorted. intros i j Hi Hij Hj. apply perf_email_order; unfold applicant; lia. }
  change (c_id (set_next (t_cache t) _ _)) with (c_id (t_cache t)). rewrite Hid. cbn [c_hdr set_id set_next negb orb]. rewrite Hh.
  assert ((length (h_uks perf_header) =? 1)%nat = true) as -> by (by rewrite perf_head_eq). cbn [negb].
  unfold uk_tree_at. cbn [c_uks set_id set_next]. rewrite Hu. cbn [mjoin option_join mbind option_bind]. rewrite Hub.
  eexists. split; [reflexivity|]. split; [|done]. split; [exact Hh|destruct Hfile as (f0 & H0); exists f0; exact H0|]. cbn [t_cache set_cache c_id c_uks set_uk set_uks set_id set_next].
  split.
  - split; [exact Hok|]. intros k i. rewrite Hel, (pairs_get (fun i => i)).
    2:{ intros a b _ Hab _. unfold klt, kcmp, long_order. by apply Z.compare_lt_iff. }
    unfold id_key. rewrite perf_slot. case_decide as Hi; cbn [mbind option_bind]; [|split; [intros [? _]; lia|done]].
    rewrite perf_id by (unfold applicant; lia). split; [by intros [_ ->]|by intros [= ->]].
  - intros i r. rewrite perf_slot. case_decide as Hi; [|done]. intros [= <-]. by rewrite perf_id by (unfold applicant; lia).
  - rewrite length_insert. exact (tr_length _ _ _ _ Htr).
  - intros k col. rewrite perf_head_eq. cbn [h_uks]. destruct k as [|k]; [|by destruct k]. intros [= <-]. exists u'.
    rewrite list_lookup_insert_eq by (by eapply lookup_lt_Some). split; [done|]. split; [exact Huok|]. intros k i. rewrite Huel, pairs_get.
    2:{ intros a b Ha Hab Hb. apply perf_email_order; unfold applicant; lia. }
    unfold uk_key. rewrite perf_slot. case_decide as Hi; cbn [mbind option_bind]; [|split; [intros [? _]; lia|done]].
    rewrite perf_text by (unfold applicant; lia). rewrite (proj1 (perf_email_whole (i + 1) ltac:(unfold applicant; lia))).
    split; [by intros [_ <-]|intros [= <-]; done].
Qed.

(** ** The lookups *)

Lemma count_found_all m i search found :
  (∀ j, i ≤ j → ∃ r, search j = Some (Some r) ∧ 0 ≤ r) → count_found m i search found = Some (found + Z.of_nat m).
Proof.
  revert i found; induction m as [|m IH]; intros i found Hs; cbn [count_found]; [by rewrite Z.add_0_r|].
  destruct (Hs i (Z.le_refl i)) as (r & -> & Hr). cbn [mbind option_bind]. rewrite (proj2 (Z.leb_le 0 r)) by done.
  rewrite IH by (intros j Hj; apply Hs; lia). f_equal. lia.
Qed.

Lemma linear_found_one n : 1 ≤ n ≤ MAX_RECORDS → linear_found n = 1.
Proof.
  intros Hn. unfold linear_found. assert (existsb (fun v => streq v (strcpy_sz 64 (lit "User" ++ print_Z (n - Z.rem 0 n))))
    (map (fun i => strcpy_sz 32 (lit "User" ++ print_Z i)) (seqZ 1 n)) = true) as ->; [|done].
  apply existsb_exists. exists (strcpy_sz 32 (lit "User" ++ print_Z n)). split.
  - apply in_map_iff. exists n. split; [done|]. apply list_elem_of_In, elem_of_seqZ. lia.
  - rewrite Z.rem_0_l, Z.sub_0_r by lia. pose proof (print_width 6 n (id_bound n Hn)) as Hl. apply streq_true. unfold strcpy_sz.
    rewrite !take_ge; [done| |]; rewrite length_app; change (length (lit "User")) with 4%nat; revert Hl; clear; intros; lia.
Qed.

Lemma perf_email_found c n q : table_ok perf_header c (map Some (perf_rows n)) → 1 ≤ q ≤ Z.of_nat n → Z.of_nat n ≤ MAX_RECORDS →
  find_uk_row c 1 (perf_email q) = Some (Some (q - 1)).
Proof.
  intros Hc Hk Hn. pose proof (ta_trees _ _ _ _ Hc) as [_ _ _ Hu]. assert (applicant q) as Hq by (unfold applicant; lia).
  destruct (perf_email_whole q Hq) as [He [Hcl Hl]].
  unfold find_uk_row. rewrite (ta_hdr _ _ _ _ Hc). assert (get_uk_slot perf_header 1 = Some 0%nat) as -> by (by vm_compute).
  unfold normalize_value. rewrite clean_source by (done || lia).
  destruct (perf_email q) as [|b v] eqn:E; [done|]. destruct (Hu 0%nat 1%nat) as (u & Hun & Hiu); [by rewrite perf_head_eq|].
  unfold uk_tree_at. rewrite Hun. cbn [mjoin option_join mbind option_bind]. unfold unique_index_find.
  assert (uk_key 1 (map Some (perf_rows n)) (q - 1) = Some (b :: v)) as Hkey.
  { unfold uk_key. rewrite perf_slot, decide_True by lia. cbn [mbind option_bind]. replace (q - 1 + 1) with q by lia. by rewrite perf_text, E. }
  apply (index_search _ _ _ _ Hiu) in Hkey. rewrite Hkey. cbn [mbind option_bind].
  by rewrite (slot_active_at _ _ _ _ _ Hc), perf_slot, decide_True by lia.
Qed.

Lemma perf_lookups_ok c n : table_ok perf_header c (map Some (perf_rows n)) → 1 ≤ Z.of_nat n ≤ MAX_RECORDS → perf_lookups (Z.of_nat n) c = Some 100001.
Proof.
  intros Hc Hn. pose proof (ta_trees _ _ _ _ Hc) as [Hix _ _ _].
  assert (∀ i, 0 ≤ i → 1 ≤ query_key (Z.of_nat n) i ≤ Z.of_nat n) as Hk by (intros i Hi; apply query_key_range; lia).
  unfold perf_lookups. generalize (Z.to_nat 50000) (eq_refl : Z.of_nat (Z.to_nat 50000) = 50000). intros m Hm.
  assert (∀ i, 0 ≤ i → ∃ r, Some (ix_search (c_id c) (query_key (Z.of_nat n) i)) = Some (Some r) ∧ 0 ≤ r) as H1.
  { intros i Hi. specialize (Hk i Hi). exists (query_key (Z.of_nat n) i - 1). split; [|lia]. f_equal. apply (index_search _ _ _ _ Hix).
    unfold id_key. rewrite perf_slot, decide_True by lia. cbn [mbind option_bind]. rewrite perf_id by (unfold applicant; lia). f_equal. lia. }
  assert (∀ i, 0 ≤ i → ∃ r, find_uk_row c 1 (perf_email (query_key (Z.of_nat n) i)) = Some (Some r) ∧ 0 ≤ r) as H2.
  { intros i Hi. specialize (Hk i Hi). set (q := query_key (Z.of_nat n) i) in *. exists (q - 1). split; [|lia]. apply (perf_email_found c n q Hc); lia. }
  rewrite (count_found_all m 0 _ 0 H1). cbn [mbind option_bind]. rewrite (count_found_all m 0 _ _ H2). cbn [mbind option_bind].
  rewrite Hm, linear_found_one by done. done.
Qed.

(** ** The changes *)

Section changes.
Context (io : nat → bool) (Hio : ∀ k, io k = true).

(** The next line is put behind [text]; a log that there is not yet begins a batch. *)
Definition log_ready (d : Delta) (text : cstr) : Prop :=
  delta_file d = true ∧ delta_batch_open d = true ∧ log_text d = Some text ∨
  delta_file d = false ∧ delta_batch_open d = false ∧ log_text d = None ∧ text = [66; NL].

Lemma log_fresh : log_ready (mkDelta None 0 false false 0 0) [66; NL].
Proof using Type. by right. Qed.

Lemma append_key_ok op d text : log_ready d text →
  ∃ d', append_delta_key io op d = (true, d') ∧ log_ready d' (text ++ op_line op ++ [NL]) ∧ log_text d' = Some (text ++ op_line op ++ [NL]) ∧
    delta_ops_since_compact_check d' = delta_ops_since_compact_check d.
Proof using Hio.
  unfold append_delta_key, get_delta_writer. intros [(H1 & H2 & H3)|(H1 & H2 & H3 & ->)].
  - rewrite H1. unfold begin_delta_batch. rewrite H2, Hio. unfold track_delta_write. rewrite H3. cbn [default]. eexists. split; [reflexivity|].
    split; [left; cbn; by split_and!|by split].
  - rewrite H1, H2, H3. unfold begin_delta_batch. cbn. rewrite !Hio. cbn. eexists. split; [reflexivity|]. split; [left; by split_and!|by split].
Qed.

(** What the two loops leave alone. *)
Definition same_rest (t t' : Table) : Prop :=
  c_id (t_cache t') = c_id (t_cache t) ∧ c_file (t_cache t') = c_file (t_cache t) ∧ cache_truncated t' = cache_truncated t ∧
  length (slots (c_slots (t_cache t'))) = length (slots (c_slots (t_cache t))) ∧
  delta_ops_since_compact_check (t_delta t') = delta_ops_since_compact_check (t_delta t).

Definition update_lines (i : Z) (m : nat) : cstr :=
  concat (map (fun j => op_line (DeltaUpdate j (perf_line "Updated" j)) ++ [NL]) (seqZ i (Z.of_nat m))).
Definition delete_lines (i : Z) (m : nat) : cstr := concat (map (fun j => op_line (DeltaDelete j) ++ [NL]) (seqZ i (Z.of_nat m))).

Lemma seqZ_next i m : seqZ i (Z.of_nat (S m)) = i :: seqZ (i + 1) (Z.of_nat m).
Proof using Type. rewrite seqZ_cons by lia. by replace (Z.pred (Z.of_nat (S m))) with (Z.of_nat m) by lia. Qed.

Lemma updates_ok m i t text :
  1 ≤ i → i + Z.of_nat m - 1 ≤ record_count (c_slots (t_cache t)) →
  (∀ k, 1 ≤ k ≤ record_count (c_slots (t_cache t)) → ix_search (c_id (t_cache t)) k = Some (k - 1)) → log_ready (t_delta t) text →
  ∃ t', perf_updates io m i t = Some (true, t') ∧ same_rest t t' ∧ log_ready (t_delta t') (text ++ update_lines i m) ∧
    ((0 < m)%nat → log_text (t_delta t') = Some (text ++ update_lines i m)) ∧
    active_count (c_slots (t_cache t')) = active_count (c_slots (t_cache t)) ∧
    map s_active (slots (c_slots (t_cache t'))) = map s_active (slots (c_slots (t_cache t))).
Proof using Hio.
  revert i t text; induction m as [|m IH]; intros i t text Hi Hm Hs Hl.
  { exists t. unfold update_lines. cbn. rewrite app_nil_r. split_and!; done || lia. }
  cbn [perf_updates]. rewrite Hs by lia. rewrite (proj2 (Z.ltb_ge _ 0)), (proj2 (Z.leb_gt _ (i - 1))) by lia. cbn [orb].
  destruct (append_key_ok (DeltaUpdate i (perf_line "Updated" i)) _ _ Hl) as (d & -> & Hl' & Ht' & Ho).
  match goal with |- context [perf_updates io m (i + 1) ?t1] => set (t1' := t1) end.
  assert (record_count (c_slots (t_cache t1')) = record_count (c_slots (t_cache t))) as Hrc by (unfold record_count; cbn; by rewrite length_insert).
  destruct (IH (i + 1) t1' (text ++ op_line (DeltaUpdate i (perf_line "Updated" i)) ++ [NL])) as (t' & E & (H1 & H2 & H3 & H4 & H5) & H6 & H7 & H8 & H9).
  - lia.
  - lia.
  - intros k Hk. rewrite Hrc in Hk. by apply Hs.
  - exact Hl'.
  - assert (text ++ update_lines i (S m) = (text ++ op_line (DeltaUpdate i (perf_line "Updated" i)) ++ [NL]) ++ update_lines (i + 1) m) as ->.
    { unfold update_lines. rewrite seqZ_next. cbn [map concat]. by rewrite <- !app_assoc. }
    exists t'. rewrite E. split; [done|]. split; [|split; [done|split]].
    + split_and!; try done; [by rewrite H4; cbn; rewrite length_insert|by rewrite H5].
    + intros _. destruct m as [|m]; [|apply H7; lia]. cbn in E. injection E as <-. unfold update_lines. cbn [Z.of_nat seqZ map concat]. rewrite app_nil_r. exact Ht'.
    + split; [done|]. rewrite H9. cbn. etrans; [apply (list_fmap_insert s_active)|]. apply list_insert_id.
      destruct (lookup_lt_is_Some_2 (slots (c_slots (t_cache t))) (Z.to_nat (i - 1))) as [sl Hsl]; [unfold record_count in Hm; lia|].
      rewrite list_lookup_fmap. unfold slot_at. by rewrite Hsl.
Qed.

Lemma others_active s k sl a b j : 0 ≤ k → j ≠ k →
  slot_is_active (push_free_slot (set_counts (set_slot s k sl) a b) k) j = slot_is_active s j.
Proof using Type.
  intros Hk Hj. unfold slot_is_active, record_count, slot_at. assert (slots (push_free_slot (set_counts (set_slot s k sl) a b) k) = <[Z.to_nat k := sl]> (slots s)) as ->.
  { done. }
  rewrite length_insert. destruct (0 <=? j) eqn:E; [|done]. apply Z.leb_le in E. by rewrite list_lookup_insert_ne by lia.
Qed.

Lemma deletes_ok m i t text :
  1 ≤ i → (∀ j, i ≤ j < i + Z.of_nat m → slot_is_active (c_slots (t_cache t)) (j - 1) = true) → log_ready (t_delta t) text →
  ∃ t', perf_deletes io m i t = (true, t') ∧ same_rest t t' ∧ log_ready (t_delta t') (text ++ delete_lines i m) ∧
    ((0 < m)%nat → log_text (t_delta t') = Some (text ++ delete_lines i m)) ∧
    active_count (c_slots (t_cache t')) = active_count (c_slots (t_cache t)) - Z.of_nat m.
Proof using Hio.
  revert i t text; induction m as [|m IH]; intros i t text Hi Hs Hl.
  { exists t. unfold delete_lines. cbn. rewrite app_nil_r. split_and!; done || lia. }
  cbn [perf_deletes]. rewrite Hs by lia. cbn [negb].
  destruct (append_key_ok (DeltaDelete i) _ _ Hl) as (d & -> & Hl' & Ht' & Ho). cbn [negb].
  match goal with |- context [perf_deletes io m (i + 1) ?t1] => set (t1' := t1) end.
  assert (slots (c_slots (t_cache t1')) = <[Z.to_nat (i - 1) := mkSlot None false (s_id (slot_at (c_slots (t_cache t)) (i - 1))) ROW_STORE_NONE 0 false 0]> (slots (c_slots (t_cache t))) ∧
    active_count (c_slots (t_cache t1')) = active_count (c_slots (t_cache t)) - 1) as [Hsl Hac].
  { done. }
  destruct (IH (i + 1) t1' (text ++ op_line (DeltaDelete i) ++ [NL])) as (t' & E & (H1 & H2 & H3 & H4 & H5) & H6 & H7 & H8).
  - lia.
  - intros j Hj. unfold t1'. cbn [t_cache set_delta set_cache c_slots set_slots set_store]. rewrite others_active by lia. apply Hs. lia.
  - exact Hl'.
  - assert (text ++ delete_lines i (S m) = (text ++ op_line (DeltaDelete i) ++ [NL]) ++ delete_lines (i + 1) m) as ->.
    { unfold delete_lines. rewrite seqZ_next. cbn [map concat]. by rewrite <- !app_assoc. }
    exists t'. rewrite E. split; [done|]. split; [|split; [done|split; [|lia]]].
    + split_and!; try done; [by rewrite H4, Hsl, length_insert|by rewrite H5].
    + intros _. destruct m as [|m]; [|apply H7; lia]. cbn in E. injection E as <-. unfold delete_lines. cbn [Z.of_nat seqZ map concat]. rewrite app_nil_r. exact Ht'.
Qed.

(** The log is looked at after [DELTA_COMPACT_CHECK_INTERVAL] calls. *)
Lemma compact_idle tm t s text :
  cache_truncated t = false → log_ready (t_delta t) text → log_text (t_delta t) = Some text →
  delta_ops_since_compact_check (t_delta t) + 1 < DELTA_COMPACT_CHECK_INTERVAL →
  ∃ d, perf_compact io tm t s = Some (true, set_delta t d, s) ∧ log_ready d text ∧ log_text d = Some text ∧
    delta_ops_since_compact_check d = delta_ops_since_compact_check (t_delta t) + 1.
Proof using Type.
  intros Ht Hl Hx Ho. unfold perf_compact, maybe_compact_delta_log, compaction_due. rewrite Ht, (proj2 (Z.ltb_lt _ _) Ho). cbn [mbind option_bind andb].
  unfold delta_log_exists. cbn [t_delta set_delta log_text]. rewrite Hx. cbn [negb]. eexists. split; [reflexivity|]. split; [|by split].
  revert Hl. unfold log_ready. rewrite Hx. exact id.
Qed.

Lemma changes_ok tm t s n text :
  (0 < n)%nat → record_count (c_slots (t_cache t)) = Z.of_nat n → cache_truncated t = false → delta_ops_since_compact_check (t_delta t) = 0 →
  (∀ k, 1 ≤ k ≤ Z.of_nat n → ix_search (c_id (t_cache t)) k = Some (k - 1)) → Forall (fun sl => s_active sl = true) (slots (c_slots (t_cache t))) →
  log_ready (t_delta t) text →
  ∃ t', perf_changes io tm n t s = Some (true, t', s) ∧ c_file (t_cache t') = c_file (t_cache t) ∧
    active_count (c_slots (t_cache t')) = active_count (c_slots (t_cache t)) - Z.of_nat n ∧
    log_text (t_delta t') = Some (text ++ update_lines 1 n ++ delete_lines 1 n).
Proof using Hio.
  intros Hn Hrc Htr Hops Hs Hact Hl. unfold perf_changes.
  destruct (updates_ok n 1 t text) as (t1 & -> & (_ & Hf1 & Ht1 & Hn1 & Ho1) & Hl1 & Hx1 & Ha1 & Hm1); [lia|lia|by rewrite Hrc|done|].
  cbn [mbind option_bind negb]. destruct (compact_idle tm t1 s _ ltac:(by rewrite Ht1) Hl1 (Hx1 Hn)) as (d1 & -> & Hl2 & _ & Ho2).
  { rewrite Ho1, Hops. done. }
  cbn [mbind option_bind negb]. destruct (deletes_ok n 1 (set_delta t1 d1) (text ++ update_lines 1 n)) as (t2 & -> & (_ & Hf2 & Ht2 & _ & Ho3) & Hl3 & Hx3 & Ha3).
  - lia.
  - intros j Hj. unfold slot_is_active, record_count, slot_at. cbn [t_cache set_delta]. rewrite Hn1. fold (record_count (c_slots (t_cache t))). rewrite Hrc.
    rewrite (proj2 (Z.leb_le 0 _)), (proj2 (Z.ltb_lt _ _)) by lia. cbn [andb].
    destruct (lookup_lt_is_Some_2 (slots (c_slots (t_cache t1))) (Z.to_nat (j - 1))) as [sl Hsl]; [unfold record_count in Hrc; lia|]. rewrite Hsl. change (s_active sl = true).
    assert ((s_active <$> slots (c_slots (t_cache t1))) !! Z.to_nat (j - 1) = Some (s_active sl)) as H by (by rewrite list_lookup_fmap, Hsl).
    change (s_active <$> slots (c_slots (t_cache t1))) with (map s_active (slots (c_slots (t_cache t1)))) in H. rewrite Hm1 in H.
    change (map s_active (slots (c_slots (t_cache t)))) with (s_active <$> slots (c_slots (t_cache t))) in H. rewrite list_lookup_fmap in H.
    apply fmap_Some in H as (sl0 & Hsl0 & ->). exact (Forall_lookup_1 _ _ _ _ Hact Hsl0).
  - exact Hl2.
  - cbn [negb]. destruct (compact_idle tm t2 s _ ltac:(rewrite Ht2; cbn; by rewrite Ht1) Hl3 (Hx3 Hn)) as (d2 & -> & _ & Hx4 & _).
    { rewrite Ho3. cbn [t_delta set_delta]. rewrite Ho2, Ho1, Hops. done. }
    eexists. split; [reflexivity|]. cbn [t_cache set_delta t_delta]. split; [by rewrite Hf2; cbn; rewrite Hf1|].
    split; [rewrite Ha3; cbn [t_cache set_delta]; by rewrite Ha1|]. by rewrite Hx4, <- app_assoc.
Qed.
End changes.

(** ** The benchmark *)

Lemma perf_head_ok : header_line_ok perf_header.
Proof. split; [apply (bool_decide_unpack _); vm_compute; done|apply Nat.ltb_lt; vm_compute; reflexivity]. Qed.

(** The file with only the header opens as a table without rows and without a log. *)
Lemma perf_opens io tm :
  ∃ t s, open_table io tm PERF_TABLE PERF_HEADER None None = Some (true, t, s) ∧ LegacySnapshot.table_name s = PERF_TABLE ∧
    loading perf_header PERF_HEADER true t [] ∧ append_ok t PERF_HEADER ∧ t_delta t = mkDelta None 0 false false 0 0.
Proof.
  destruct (load_rows_of_text perf_header 0 None [] perf_head_ok ltac:(by rewrite perf_head_eq)) as (t & Hlo & Hd & E); [done|done|done|done|].
  specialize (E io). assert (write_table_header perf_header ++ row_lines [] = PERF_HEADER) as Hf by (vm_compute; reflexivity). rewrite Hf in *.
  assert (open_table io tm PERF_TABLE PERF_HEADER None None =
    match load_table_contents io PERF_HEADER None with
    | Some (ok, t) => Some (ok, t, mkSnap PERF_TABLE None false true)
    | None => None
    end) as -> by (vm_compute; reflexivity).
  destruct Hlo as [Hta Hfi Hfr Hw (Hn1 & Hn2)]. rewrite E. unfold finish_load. rewrite Hd. cbn [delta_log_exists log_text andb]. rewrite Hd. cbn [delta_log_exists log_text negb].
  unfold raise_auto_id. change (next_key perf_header 1 []) with 1. rewrite Hn1. change (1 <? 1) with false. cbv iota. rewrite Hfi.
  eexists _, _. split; [reflexivity|]. split; [done|]. split; [by split|]. split; [by right|exact Hd].
Qed.

(** The bulk load of the open table without rows. *)
Lemma perf_load_ok n t :
  (0 < n)%nat → Z.of_nat n ≤ MAX_RECORDS → loading perf_header PERF_HEADER true t [] → append_ok t PERF_HEADER →
  ∃ t1 t2 ids uks, bulk_rows n 1 t = Some (true, t1, ids, uks) ∧ bulk_trees (Z.of_nat n) ids uks t1 = Some (true, t2) ∧
    table_ok perf_header (t_cache t2) (map Some (perf_rows n)) ∧ active_count (c_slots (t_cache t2)) = Z.of_nat n ∧
    c_file (t_cache t2) = Some (PERF_HEADER ++ row_lines (perf_rows n)) ∧ t_delta t2 = t_delta t ∧ cache_truncated t2 = false.
Proof.
  generalize PERF_HEADER. intros f Hpos Hn Hlo Hap. assert (f ++ row_lines (perf_rows 0) = f) as E0 by apply app_nil_r.
  destruct (bulk_rows_ok perf_header perf_plain f n 0 t) as (t1 & E1 & Hlo1 & _ & Hd1); [by rewrite E0|by rewrite E0|done|].
  destruct (bulk_trees_ok _ t1 n Hlo1 Hn) as (t2 & E2 & Hok & Hsl & Hf2 & Hd2 & Htr).
  destruct (loading_slots _ _ _ _ _ Hlo1) as (_ & _ & _ & _ & Hac). rewrite length_map, length_numbered in Hac.
  exists t1, t2. eexists _, _. split; [exact E1|]. split; [exact E2|]. split; [exact Hok|]. split; [by rewrite Hsl|].
  split; [by rewrite Hf2, (lo_file _ _ _ _ _ Hlo1)|]. split; [by rewrite Hd2|]. rewrite Htr. apply (lo_whole _ _ _ _ _ Hlo1).
Qed.

(** From the open table without rows to the end. *)
Lemma perf_table_ok io tm n t s :
  (∀ k, io k = true) → (0 < n)%nat → Z.of_nat n ≤ MAX_RECORDS → loading perf_header PERF_HEADER true t [] → append_ok t PERF_HEADER →
  t_delta t = mkDelta None 0 false false 0 0 →
  ∃ t', perf_table io tm (Z.of_nat n) t s = Some (PerfDone 100001 0, t', s) ∧ c_file (t_cache t') = Some (PERF_HEADER ++ row_lines (perf_rows n)) ∧
    log_text (t_delta t') = Some ([66; NL] ++ update_lines 1 n ++ delete_lines 1 n).
Proof.
  intros Hio Hpos Hn Hlo Hap Hd0. destruct (perf_load_ok n t Hpos Hn Hlo Hap) as (t1 & t2 & ids & uks & E1 & E2 & Hok & Hac & Hf2 & Hd2 & Htr).
  destruct (changes_ok io Hio tm t2 s n [66; NL]) as (t3 & E3 & Hf3 & Ha3 & Hx3).
  - done.
  - rewrite <- (table_length _ _ _ _ Hok), length_map, length_numbered. done.
  - exact Htr.
  - rewrite Hd2, Hd0. reflexivity.
  - intros k Hk. pose proof (tr_id _ _ _ _ (ta_trees _ _ _ _ Hok)) as Hix. apply (index_search _ _ _ _ Hix). unfold id_key.
    rewrite perf_slot, decide_True by lia. cbn [mbind option_bind]. rewrite perf_id by (unfold applicant; lia). f_equal. lia.
  - apply list.Forall_lookup. intros k sl Hk. pose proof (slot_active_at _ _ _ _ (Z.of_nat k) Hok) as Ha.
    rewrite perf_slot, decide_True in Ha.
    + unfold slot_is_active, slot_at in Ha. rewrite Nat2Z.id, Hk in Ha. by apply andb_true_iff in Ha as [_ Ha].
    + pose proof (table_length _ _ _ _ Hok) as Hl. rewrite length_map, length_numbered in Hl. unfold record_count in Hl. apply lookup_lt_Some in Hk. lia.
  - rewrite Hd2, Hd0. exact log_fresh.
  - assert (perf_lookups (Z.of_nat n) (t_cache t2) = Some 100001) as Hlk by (apply perf_lookups_ok; [exact Hok|lia]).
    exists t3. unfold perf_table. revert Hlk. generalize perf_lookups. intros lookups Hlk.
    rewrite Nat2Z.id, E1. cbn [mbind option_bind negb]. rewrite E2. cbn [mbind option_bind negb]. rewrite Hlk. cbn [mbind option_bind]. rewrite E3. cbn [mbind option_bind].
    rewrite Ha3, Hac, Z.sub_diag, Hf3, Hf2, Hx3. by split_and!.
Qed.

(** C40. The benchmark of the trees does what it measures: started with no snapshot of its
    table, for any number of rows asked for, its rows go to the file and, by the bulk
    load, into the two trees; each of its 50000 lookups by key, its 50000 by e-mail
    address and its scan finds a row; its UPDATEs and DELETEs then go through every
    row, and leave no row in use and the log of one batch in which every row is
    changed and then removed, while the file stays what the bulk load wrote. *)
Theorem bplus_benchmark_completes (io : nat → bool) (mt : cstr → Z * Z) (rows : Z) (e e1 : Exec) :
  let numbers := seqZ 1 (perf_count rows) in
  (∀ k, io k = true) → close_all_tables io mt e = Some e1 → idx (files_of (disk e1) PERF_TABLE) = None →
  ∃ e2 o, run_bplus_benchmark io mt rows e = Some (PerfDone 100001 0, e2) ∧ open_tables e2 = [o] ∧ o_name o = PERF_TABLE ∧
    c_file (t_cache (o_table o)) = Some (PERF_HEADER ++ row_lines (map (perf_line "User") numbers)) ∧
    log_text (t_delta (o_table o)) = Some ([66; NL] ++
      concat (map (fun i => op_line (DeltaUpdate i (perf_line "Updated" i)) ++ [NL]) numbers) ++
      concat (map (fun i => op_line (DeltaDelete i) ++ [NL]) numbers)).
Proof.
  cbv zeta. intros Hio Hc Hx. assert (1 ≤ perf_count rows ≤ MAX_RECORDS) as Hn by (unfold perf_count, MAX_RECORDS; repeat case_if; bool_to_prop; lia).
  unfold run_bplus_benchmark. rewrite Hc. cbn [mbind option_bind]. rewrite Hx. generalize dependent (perf_count rows). intros n Hn.
  set (e2 := mkExec [] _ _). set (d := disk e2).
  assert (files_of d PERF_TABLE = mkFiles (Some PERF_HEADER) None None) as Hd by apply files_of_insert.
  destruct (perf_opens io (times mt d PERF_TABLE)) as (t0 & s0 & Hop & Hname & Hlo & Hap & Hd0).
  rewrite (get_table_closed io mt _ e2 _ _ _ _ _ eq_refl Hd Hop). cbn [mbind option_bind open_tables lookup list_lookup o_table o_snap disk].
  destruct (perf_table_ok io (times mt d PERF_TABLE) (Z.to_nat n) t0 s0 Hio) as (t & E & Hf & Hl); [lia|lia|done|done|done|].
  rewrite Z2Nat.id in E by lia. fold d. rewrite E. cbn [mbind option_bind].
  eexists _, _. split; [reflexivity|]. split; [reflexivity|]. split; [exact Hname|]. cbn [o_table].
  unfold update_lines, delete_lines, numbered in *. rewrite Z2Nat.id in * by lia. split; [exact Hf|exact Hl].
Qed.

(** A program that starts in an empty directory, asked for three rows. *)
Lemma bplus_benchmark_completes_witness :
  ∃ e2 o, run_bplus_benchmark (fun _ => true) (fun _ => (0, 0)) 3 (mkExec [] 0 ∅) = Some (PerfDone 100001 0, e2) ∧ open_tables e2 = [o] ∧ o_name o = PERF_TABLE ∧
    c_file (t_cache (o_table o)) = Some (PERF_HEADER ++ row_lines (map (perf_line "User") (seqZ 1 3))) ∧
    log_text (t_delta (o_table o)) = Some ([66; NL] ++
      concat (map (fun i => op_line (DeltaUpdate i (perf_line "Updated" i)) ++ [NL]) (seqZ 1 3)) ++
      concat (map (fun i => op_line (DeltaDelete i) ++ [NL]) (seqZ 1 3))).
Proof. apply (bplus_benchmark_completes (fun _ => true) (fun _ => (0, 0)) 3 (mkExec [] 0 ∅) (mkExec [] 0 ∅)); vm_compute; reflexivity. Defined.

(** A second run that finds the snapshot of the first, as when the file with only the header
    has the size and the time that the snapshot tells, fails: the new rows go behind the
    slots that the snapshot says were there, and the removal starts at the first. *)
Example second_run_fails :
  (r ← run_bplus_benchmark (fun _ => true) (fun _ => (0, 0)) 3 (mkExec [] 0 ∅);
   '(e, _) ← Some (r.2, r.1); fst <$> run_bplus_benchmark (fun _ => true) (fun _ => (0, 0)) 4 e) = Some PerfFailed.
Proof. vm_compute. reflexivity. Qed.
