(* ===== verification/Cli.v ===== *)
(** The command-line program, [src/cli/main.c]: the quick readers for INSERT, UPDATE and
    DELETE on one line, the loop that cuts a script into statements, the arguments of
    the program, and the allocator that counts bytes.

    A script is the text of its file, without NUL. *)

From Stdlib Require Import String.
From S2P Require Import Prelude CString Scanf Lexer Parser Store Executor.
From stdpp Require Import base numbers list option gmap.
Local Open Scope Z_scope.

(** ** One statement *)

Fixpoint keyword_match_ci (s kw : cstr) {struct kw} : bool :=
  match kw, s with
  | [], _ => true
  | _ :: _, [] => false
  | k :: kw', c :: s' => (tolower c =? tolower k) && keyword_match_ci s' kw'
  end.

(** [skip_sql_spaces] is [skip_space]. A keyword, white space before it skipped: what
    follows it. *)
Definition skip_keyword (kw : string) (s : cstr) : option cstr :=
  let p := skip_space s in
  if keyword_match_ci p (lit kw) then Some (drop (length (lit kw)) p) else None.

(** [p = skip_sql_spaces(p); if ( *p != c) return 0; p++;] *)
Definition skip_char (c : Z) (s : cstr) : option cstr :=
  match skip_space s with
  | d :: s' => if d =? c then Some s' else None
  | [] => None
  end.

Definition word_char (c : Z) : bool := isalnum c || (c =? 95).

(** The identifier and what follows it. *)
Definition read_sql_identifier (s : cstr) (dest_size : nat) : option (cstr * cstr) :=
  let s := skip_space s in
  match s with
  | c :: _ =>
      if negb (ident_start c) then None
      else
        let len := span_len word_char s in
        if (len =? 0)%nat || (dest_size <=? len)%nat then None else Some (take len s, drop len s)
  | [] => None
  end.

Definition read_sql_literal (s : cstr) (dest_size : nat) : option (cstr * cstr) :=
  let s := skip_space s in
  let unquoted :=
    let len := span_len (fun c => negb (isspace c)) s in
    if (len =? 0)%nat || (dest_size <=? len)%nat then None else Some (take len s, drop len s) in
  match s with
  | c :: s' =>
      if c =? QUOTE then
        let len := span_len (fun d => negb (d =? QUOTE)) s' in
        if (len <? length s')%nat then
          if (dest_size <=? len)%nat then None else Some (take len s', drop (S len) s')
        else None
      else unquoted
  | [] => unquoted
  end.

(** [finish_single_eq_where]. *)
Definition finish_single_eq_where (st : Statement) (where_col where_val : cstr) : Statement :=
  mkStmt (stype st) (table_name st) (row_data st) (select_all st) (select_cols st) (set_col st) (set_val st)
    [mkCond WHERE_EQ (strcpy_sz COL_SIZE where_col) (strcpy_sz VAL_SIZE where_val) []] WHERE_EQ
    (strcpy_sz COL_SIZE where_col) (strcpy_sz VAL_SIZE where_val) [].

(** [WHERE column = literal] up to the end of the text. *)
Definition read_where (s : cstr) : option (cstr * cstr) :=
  s ← skip_keyword "where" s;
  '(col, s) ← read_sql_identifier s COL_SIZE;
  s ← skip_char 61 s;
  '(v, s) ← read_sql_literal s VAL_SIZE;
  match skip_space s with [] => Some (col, v) | _ => None end.

(** The statement that [try_execute_insert_fast] executes; the loop that looks for the
    parenthesis is the one of the parser. *)
Definition try_execute_insert_fast (sql : cstr) : option Statement :=
  s ← skip_keyword "insert" sql;
  s ← skip_keyword "into" s;
  let s := skip_space s in
  let table_len := span_len (fun c => negb (isspace c) && negb (c =? 40)) s in
  if (table_len =? 0)%nat || (TABLE_SIZE <=? table_len)%nat then None
  else
    row ← skip_keyword "values" (drop table_len s) ≫= skip_char 40;
    row_len ← find_values_close_paren false row;
    match skip_space (drop (S row_len) row) with
    | [] =>
        if (ROW_DATA_SIZE <=? row_len)%nat then None
        else Some (mkStmt STMT_INSERT (take table_len s) (take row_len row) false [] [] [] [] WHERE_NONE [] [] [])
    | _ => None
    end.

Definition try_execute_update_fast (sql : cstr) : option Statement :=
  s ← skip_keyword "update" sql;
  '(name, s) ← read_sql_identifier s TABLE_SIZE;
  s ← skip_keyword "set" s;
  '(col, s) ← read_sql_identifier s COL_SIZE;
  s ← skip_char 61 s;
  '(v, s) ← read_sql_literal s VAL_SIZE;
  '(wcol, wval) ← read_where s;
  Some (finish_single_eq_where (mkStmt STMT_UPDATE name [] false [] col v [] WHERE_NONE [] [] []) wcol wval).

Definition try_execute_delete_fast (sql : cstr) : option Statement :=
  s ← skip_keyword "delete" sql;
  s ← skip_keyword "from" s;
  '(name, s) ← read_sql_identifier s TABLE_SIZE;
  '(wcol, wval) ← read_where s;
  Some (finish_single_eq_where (mkStmt STMT_DELETE name [] false [] [] [] [] WHERE_NONE [] [] []) wcol wval).

(** What the program does next: a statement for the executor, or a message. *)
Inductive Event := Run (st : Statement) | Invalid (s : cstr) | StatementTooLong.

(** [execute_sql_text]: nothing, a statement or a message. *)
Definition execute_sql_text (sql : cstr) : list Event :=
  let s := match sql with
           | a :: b :: c :: s' => if (a =? 239) && (b =? 187) && (c =? 191) then s' else sql
           | _ => sql
           end in
  match skip_space s with
  | [] => []
  | s =>
      match try_execute_insert_fast s with
      | Some st => [Run st]
      | None => match parse_statement s with Some st => [Run st] | None => [Invalid s] end
      end
  end.

(** Where the semicolons outside quotes are. *)
Fixpoint semicolons (i : nat) (q : bool) (s : cstr) : list nat :=
  match s with
  | [] => []
  | c :: s' =>
      let q := if c =? QUOTE then negb q else q in
      if (c =? 59) && negb q then i :: semicolons (S i) q s' else semicolons (S i) q s'
  end.

(** [execute_sql_line_fast]; [None]: the line is left to the loop over its characters. *)
Definition execute_sql_line_fast (line : cstr) : option (list Event) :=
  let s := skip_space line in
  if match s with [] => true | a :: b :: _ => (a =? 45) && (b =? 45) | _ => false end then Some []
  else
    match semicolons 0 false s with
    | [semicolon] =>
        if forallb isspace (drop (S semicolon) s) then
          let s := take semicolon s in
          Some (match try_execute_insert_fast s with
                | Some st => [Run st]
                | None =>
                    match try_execute_update_fast s with
                    | Some st => [Run st]
                    | None => match try_execute_delete_fast s with Some st => [Run st] | None => execute_sql_text s end
                    end
                end)
        else None
    | _ => None
    end.

(** ** A script *)

Definition MAX_SQL_LEN : nat := 4096.

(** [buf], its first [idx] characters, with [q] and [too_long]. *)
Record Scan := mkScan { buf : cstr; q : bool; too_long : bool }.

Definition end_statement (z : Scan) : list Event := if too_long z then [StatementTooLong] else execute_sql_text (buf z).

(** The loop over the characters of a line. *)
Fixpoint scan_chars (p : cstr) (z : Scan) : list Event * Scan :=
  match p with
  | [] => ([], z)
  | ch :: p' =>
      if (ch =? 45) && negb (q z) && match p' with c :: _ => c =? 45 | [] => false end then ([], z)
      else
        let q1 := if ch =? QUOTE then negb (q z) else q z in
        if (ch =? 59) && negb q1 then
          let '(es, z') := scan_chars p' (mkScan [] q1 false) in (end_statement z ++ es, z')
        else if (length (buf z) <? MAX_SQL_LEN - 1)%nat then scan_chars p' (mkScan (buf z ++ [ch]) q1 (too_long z))
        else scan_chars p' (mkScan (buf z) q1 true)
  end.

(** The loop over the lines; every line takes a character at least. *)
Fixpoint scan_lines (fuel : nat) (text : cstr) (z : Scan) : list Event :=
  match fuel with
  | O => []
  | S fuel' =>
      match text with
      | [] => match buf z with [] => [] | _ => end_statement z end
      | _ =>
          let '(line, rest) := fgets (MAX_SQL_LEN - 1) text in
          match (match buf z with [] => execute_sql_line_fast line | _ => None end) with
          | Some es => es ++ scan_lines fuel' rest z
          | None => let '(es, z') := scan_chars line z in es ++ scan_lines fuel' rest z'
          end
      end
  end.

(** What the program does with a script. *)
Definition script_events (text : cstr) : list Event := scan_lines (S (length text)) text (mkScan [] false false).

Section run.
Context (io : nat → bool) (mt : cstr → Z * Z).

(** The events in order. *)
Fixpoint run_events (es : list Event) (e : Exec) : option (list Reply * Exec) :=
  match es with
  | [] => Some ([], e)
  | ev :: es' =>
      '(r, e1) ← match ev with
                 | Run st => execute_statement io mt st e
                 | Invalid _ => Some (BadSql, e)
                 | StatementTooLong => Some (TooLong, e)
                 end;
      '(rs, e2) ← run_events es' e1;
      Some (r :: rs, e2)
  end.

Definition run_script (text : cstr) (e : Exec) : option (list Reply * Exec) :=
  '(rs, e1) ← run_events (script_events text) e;
  e2 ← close_all_tables io mt e1;
  Some (rs, e2).
End run.

(** ** The arguments *)

Inductive Mode :=
| GenerateJungle (count : Z) (output : option cstr) | Benchmark (count : Z) | BenchmarkJungle (count : Z)
| Script (filename : cstr) | AskForScript.

(** [--quiet], and what the program is to do; [args] is [argv] from 1 on. *)
Definition main_mode (args : list cstr) : bool * Mode :=
  let quiet := match args with a :: _ => streq a (lit "--quiet") | [] => false end in
  let args := if quiet then drop 1 args else args in
  let count (l : list cstr) := match l with n :: _ => atoi n | [] => 1000000 end in
  (quiet,
   match args with
   | [] => AskForScript
   | a :: l =>
       if streq a (lit "--generate-jungle") then GenerateJungle (count l) (l !! 1%nat)
       else if streq a (lit "--benchmark") then Benchmark (count l)
       else if streq a (lit "--benchmark-jungle") then BenchmarkJungle (count l)
       else Script (strcpy_sz 256 a)
   end).

(** ** The allocator of the memory benchmark *)

Module Memtrack.
(** The blocks in use with the sizes that were asked for, and the two counters. *)
Record Heap := mkHeap { blocks : gmap Z Z; live_requested : Z; peak_requested : Z }.

Definition HEADER : Z := 8.

Definition update_peak (h : Heap) : Heap :=
  if peak_requested h <? live_requested h then mkHeap (blocks h) (live_requested h) (live_requested h) else h.

(** [p] is the block that the system's [malloc] gives, if it gives one. *)
Definition bench_malloc (size : Z) (p : option Z) (h : Heap) : option Z * Heap :=
  if U64 - 1 - HEADER <? size then (None, h)
  else
    match p with
    | None => (None, h)
    | Some b => (Some b, update_peak (mkHeap (<[b := size]> (blocks h)) (wrap64 (live_requested h + size)) (peak_requested h)))
    end.

Definition bench_calloc (nmemb size : Z) (p : option Z) (h : Heap) : option Z * Heap :=
  if negb (nmemb =? 0) && ((U64 - 1) / nmemb <? size) then (None, h) else bench_malloc (wrap64 (nmemb * size)) p h.

(** [less n h]: the counter without [n], not below 0. *)
Definition less (n : Z) (h : Heap) : Z := if n <=? live_requested h then live_requested h - n else 0.

Definition bench_free (ptr : option Z) (h : Heap) : Heap :=
  match ptr with
  | None => h
  | Some b =>
      match blocks h !! b with
      | Some n => mkHeap (delete b (blocks h)) (less n h) (peak_requested h)
      | None => h
      end
  end.

Definition bench_realloc (ptr : option Z) (size : Z) (p : option Z) (h : Heap) : option Z * Heap :=
  match ptr with
  | None => bench_malloc size p h
  | Some b =>
      if size =? 0 then (None, mkHeap (delete b (blocks h)) (live_requested h) (peak_requested h))
      else if U64 - 1 - HEADER <? size then (None, h)
      else
        match p with
        | None => (None, h)
        | Some b' =>
            let old := default 0 (blocks h !! b) in
            (Some b', update_peak (mkHeap (<[b' := size]> (delete b (blocks h))) (wrap64 (less old h + size)) (peak_requested h)))
        end
  end.
End Memtrack.
