(* ===== verification/Workload.v ===== *)
(** The generator of the benchmark's SQL workloads, [src/tools/bench/bench_workload_generator.c],
    and what the program that runs the benchmarks, [src/tools/bench/benchmark_runner.c],
    does with texts: its arguments, the command for the generator, the workload's table,
    its short report. How it starts programs, measures them and computes the score is not
    modelled.

    Files are texts and can be written; the directory for the output is there. The file
    of the data set is [None] when it does not exist; [rand seed k] is the number that
    the [k]th call of [rand] after [srand(seed)] returns. *)

From Stdlib Require Import String.
From S2P Require Import Prelude CString Store Scanf Executor Jungle Cli.
From stdpp Require Import base numbers list option gmap.
Local Open Scope Z_scope.

Definition TABLE_NAME : cstr := lit "jungle_workload_users".
Definition SOURCE_CSV_NAME : cstr := lit "jungle_benchmark_users.csv".
Definition LINE_MAX_LEN : nat := 2048.
Definition SQL_MAX_LEN : nat := 8192.

Record GeneratorOptions := mkOptions {
  profile : cstr;
  g_rows : Z;
  g_update_rows : Z;
  g_delete_rows : Z;
  mixed_ops : Z;
  seed : Z;
  output_dir : cstr;
}.

Definition is_numeric_col (col_idx : nat) : bool := (col_idx =? 0)%nat || (col_idx =? 7)%nat.

Definition profile_rows (profile : cstr) : Z :=
  if streq profile (lit "smoke") then 10000 else if streq profile (lit "regression") then 100000 else 1000000.
Definition profile_update_rows (profile : cstr) : Z := if streq profile (lit "score") then 1000000 else profile_rows profile.
Definition profile_delete_rows (profile : cstr) : Z := if streq profile (lit "score") then 1000000 else profile_rows profile.
Definition profile_ops (profile : cstr) : Z :=
  if streq profile (lit "smoke") then 20000 else if streq profile (lit "regression") then 100000 else 500000.

(** The loop of [trim_newline] on the reversed text. *)
Fixpoint drop_line_ends (s : cstr) : cstr :=
  match s with
  | c :: s' => if (c =? NL) || (c =? CR) then drop_line_ends s' else s
  | [] => []
  end.

Definition trim_newline (s : cstr) : cstr := reverse (drop_line_ends (reverse s)).

(** ** The source *)

(** The lines that [fgets] finds; every call takes a character at least. *)
Fixpoint count_lines (fuel : nat) (text : cstr) : Z :=
  match fuel, text with
  | S fuel', _ :: _ => 1 + count_lines fuel' (fgets (LINE_MAX_LEN - 1) text).2
  | _, _ => 0
  end.

Definition count_csv_rows (file : option cstr) : Z :=
  match file with
  | None => -1
  | Some text => let lines := count_lines (length text) text in if lines <=? 0 then 0 else lines - 1
  end.

(** The arguments of the command that generates the source. *)
Definition generate_args (rows : Z) : list cstr := [lit "--generate-jungle"; print_Z rows; SOURCE_CSV_NAME].

(** What the command leaves: [main] of the command-line program, which returns 0 also when
    it does nothing. *)
Definition run_generator (args : list cstr) (source : option cstr) : option cstr :=
  match (main_mode args).2 with
  | GenerateJungle count _ =>
      match generate_jungle_dataset count (match source with Some _ => true | None => false end) with
      | Some text => Some text
      | None => source
      end
  | _ => source
  end.

(** The source afterwards. *)
Definition ensure_source_csv (rows : Z) (source : option cstr) : option cstr :=
  let header_ok :=
    match source with
    | Some text =>
        (rows <=? count_csv_rows source) &&
        match fgets (LINE_MAX_LEN - 1) text with
        | ([], _) => false
        | (line, _) => is_prefix (lit "id(PK),email(UK),phone(UK),name,track(NN),") (trim_newline line)
        end
    | None => false
    end in
  if header_ok then source else run_generator (generate_args rows) source.

(** ** A row as SQL values *)

(** The inner loop of [parse_csv_fields]: the field, at most [n] characters, and the rest. *)
Fixpoint take_field (n : nat) (p : cstr) : cstr * cstr :=
  match n, p with
  | S n', c :: p' => if c =? COMMA then ([], p) else let '(f, rest) := take_field n' p' in (c :: f, rest)
  | _, _ => ([], p)
  end.

Fixpoint parse_csv_fields (max_fields : nat) (p : cstr) : list cstr :=
  match max_fields, p with
  | S m, _ :: _ =>
      let '(f, rest) := take_field 255 p in
      f :: parse_csv_fields m (match rest with c :: r => if c =? COMMA then r else rest | [] => [] end)
  | _, _ => []
  end.

(** [dst] up to [off]. *)
Fixpoint append_sql_escaped (dst_size : nat) (dst src : cstr) : cstr :=
  match src with
  | [] => dst
  | c :: src' =>
      if (length dst + 2 <? dst_size)%nat then
        if c =? QUOTE then append_sql_escaped dst_size (dst ++ [QUOTE; QUOTE]) src'
        else append_sql_escaped dst_size (dst ++ [c]) src'
      else dst
  end.

(** The loop over the fields from column [i] on. *)
Fixpoint append_values (out_size : nat) (i : nat) (fields : list cstr) (out : cstr) : option cstr :=
  match fields with
  | [] => Some out
  | f :: fields' =>
      out1 ← (if (0 <? i)%nat then if (out_size <=? length out + 2)%nat then None else Some (out ++ [COMMA; 32]) else Some out);
      out2 ← (if is_numeric_col i then if (out_size <=? length out1 + length f + 1)%nat then None else Some (out1 ++ f)
              else if (out_size <=? length out1 + 2)%nat then None
              else
                let out2 := append_sql_escaped out_size (out1 ++ [QUOTE]) f in
                if (out_size <=? length out2 + 1)%nat then None else Some (out2 ++ [QUOTE]));
      append_values out_size (S i) fields' out2
  end.

Definition csv_row_to_sql_values (line : cstr) (out_size : nat) : option cstr :=
  match parse_csv_fields 32 line with
  | [] => None
  | fields => append_values out_size 0 fields []
  end.

(** ** Shuffling *)

Definition swap (i j : nat) (ids : list Z) : list Z :=
  match ids !! i, ids !! j with
  | Some x, Some y => <[j := x]> (<[i := y]> ids)
  | _, _ => ids
  end.

Section generator.
Context (rand : Z → nat → Z).

(** The loop from index [i] down, the next random number being the [k]th. *)
Fixpoint shuffle_down (s : Z) (i : nat) (k : nat) (ids : list Z) : list Z :=
  match i with
  | O => ids
  | S i' => shuffle_down s i' (S k) (swap i (Z.to_nat (Z.rem (rand s k) (Z.of_nat i + 1))) ids)
  end.

Definition shuffle_ids (ids : list Z) (s : Z) : list Z := shuffle_down s (length ids - 1) 0 ids.

(** ** The workloads *)

Definition insert_line (values : cstr) : cstr := lit "INSERT INTO " ++ TABLE_NAME ++ lit " VALUES (" ++ values ++ lit ");" ++ [NL].
Definition update_line (status : string) (id : Z) : cstr :=
  lit "UPDATE " ++ TABLE_NAME ++ lit " SET status = '" ++ lit status ++ lit "' WHERE id = " ++ print_Z id ++ lit ";" ++ [NL].
Definition delete_line (id : Z) : cstr := lit "DELETE FROM " ++ TABLE_NAME ++ lit " WHERE id = " ++ print_Z id ++ lit ";" ++ [NL].
Definition select_line (id : Z) : cstr :=
  lit "SELECT id, email, phone, status FROM " ++ TABLE_NAME ++ lit " WHERE id = " ++ print_Z id ++ lit ";" ++ [NL].

Definition mixed_insert_line (i : Z) : cstr :=
  let new_id := 800000000 + i in
  insert_line (print_Z new_id ++ lit ", 'bench_mix_" ++ print_Z new_id ++ lit "@apply.kr', '010-8000-" ++ print_pad 4 (Z.rem i 10000) ++
    lit "', '혼합부하', 'sw_ai_lab', 'student', 'mix_generated', 77, 'gh_mix_" ++ print_Z new_id ++ lit "', 'submitted', '2026_spring'").

(** The first line of a file; [n] is the number it speaks of. *)
Definition generated_comment (opt : GeneratorOptions) (n : Z) : cstr :=
  lit "-- generated profile=" ++ profile opt ++ lit " rows=" ++ print_Z n ++ lit " seed=" ++ print_Z (seed opt) ++ [NL].

(** The loop over the source, [rows] read so far: the ids and the INSERTs. *)
Fixpoint read_rows (fuel : nat) (opt_rows rows : Z) (text : cstr) : option (list Z * cstr) :=
  match fuel, text with
  | S fuel', _ :: _ =>
      if opt_rows <=? rows then Some ([], [])
      else
        let '(line, rest) := fgets (LINE_MAX_LEN - 1) text in
        let line := trim_newline line in
        match strchr line COMMA with
        | None => read_rows fuel' opt_rows rows rest
        | Some k =>
            values ← csv_row_to_sql_values line SQL_MAX_LEN;
            '(ids, sql) ← read_rows fuel' opt_rows (rows + 1) rest;
            Some (atoi (take k line) :: ids, insert_line values ++ sql)
        end
  | _, _ => Some ([], [])
  end.

Fixpoint mixed_lines (n : nat) (i : Z) (s : Z) (k : nat) (ids : list Z) : cstr :=
  match n with
  | O => []
  | S n' =>
      let r := Z.rem (rand s k) 100 in
      let pick := nth (Z.to_nat (Z.rem (rand s (S k)) (Z.of_nat (length ids)))) ids 0 in
      (if r <? 60 then select_line pick
       else if r <? 80 then mixed_insert_line i
       else if r <? 95 then update_line "pretest_pass" pick
       else delete_line pick) ++ mixed_lines n' (i + 1) s (S (S k)) ids
  end.

(** [write_correctness_sql]: the two scripts. *)
Definition write_correctness_sql (opt : GeneratorOptions) : cstr * cstr :=
  (lit "-- correctness success for profile=" ++ profile opt ++ [NL] ++
   delete_line 900000001 ++ delete_line 900000002 ++
   insert_line (lit "900000001, 'bench_success_1@apply.kr', '010-9000-0001', '성공테스트1', 'sw_ai_lab', 'student', 'major_cs_grade_3', 88, 'gh_bench_success1', 'submitted', '2026_spring'") ++
   insert_line (lit "900000002, 'bench_success_2@apply.kr', '010-9000-0002', '성공테스트2', 'game_lab', 'student', 'major_game_grade_3', 71, 'gh_bench_success2', 'submitted', '2026_spring'") ++
   lit "SELECT id, email, phone, name, status FROM " ++ TABLE_NAME ++ lit " WHERE id = 900000001;" ++ [NL] ++
   lit "SELECT id, email, phone, name, status FROM " ++ TABLE_NAME ++ lit " WHERE email = 'bench_success_2@apply.kr';" ++ [NL] ++
   update_line "pretest_pass" 900000001 ++ delete_line 900000002,
   lit "-- correctness failure for profile=" ++ profile opt ++ [NL] ++
   insert_line (lit "900000001, 'bench_dup_pk@apply.kr', '010-9000-1001', '중복PK', 'sw_ai_lab', 'student', 'major_ai_grade_2', 90, 'gh_dup_pk', 'submitted', '2026_spring'") ++
   insert_line (lit "900000010, 'bench_success_1@apply.kr', '010-9000-1010', '중복EMAIL', 'sw_ai_lab', 'student', 'major_ai_grade_2', 90, 'gh_dup_email', 'submitted', '2026_spring'") ++
   insert_line (lit "900000011, 'bench_dup_phone@apply.kr', '010-9000-0001', '중복PHONE', 'sw_ai_lab', 'student', 'major_ai_grade_2', 90, 'gh_dup_phone', 'submitted', '2026_spring'") ++
   insert_line (lit "900000012, 'bench_nn_fail@apply.kr', '010-9000-1012', 'NN실패', '', 'student', 'major_ai_grade_2', 90, 'gh_nn_fail', 'submitted', '2026_spring'")).

Definition quoted (s : string) : cstr := [34] ++ lit s ++ [34].

(** [write_meta_files] at the time [now]: the description of the workload and the oracle. *)
Definition write_meta_files (opt : GeneratorOptions) (generated_rows now : Z) : cstr * cstr :=
  let member (k : string) (v : cstr) (last : bool) : cstr := lit "  " ++ quoted k ++ lit ": " ++ v ++ (if last then [NL] else [COMMA; NL]) in
  let text (s : cstr) := [34] ++ s ++ [34] in
  (lit "{" ++ [NL] ++ member "profile"%string (text (profile opt)) false ++ member "seed"%string (print_Z (seed opt)) false ++
   member "row_count"%string (print_Z generated_rows) false ++ member "update_row_count"%string (print_Z (g_update_rows opt)) false ++
   member "delete_row_count"%string (print_Z (g_delete_rows opt)) false ++ member "preload"%string (print_Z (g_rows opt)) false ++
   member "op_count"%string (print_Z (mixed_ops opt)) false ++
   member "crud_ratio"%string (lit "{" ++ quoted "select" ++ lit ": 60, " ++ quoted "insert" ++ lit ": 20, " ++ quoted "update" ++ lit ": 15, " ++ quoted "delete" ++ lit ": 5}") false ++
   member "created_at_epoch"%string (print_Z now) true ++ lit "}" ++ [NL],
   lit "{" ++ [NL] ++ member "expected_failure_errors_min"%string (lit "4") false ++
   member "correctness_success_sql"%string (text (lit "jungle_correctness_success_" ++ profile opt ++ lit ".sql")) false ++
   member "correctness_failure_sql"%string (text (lit "jungle_correctness_failure_" ++ profile opt ++ lit ".sql")) true ++ lit "}" ++ [NL]).

(** The files that are written. *)
Record Workload := mkWorkload {
  workload_csv : cstr;
  insert_sql : cstr;
  update_sql : cstr;
  delete_sql : cstr;
  mixed_sql : cstr;
  correctness_sql : cstr * cstr;
  meta_files : cstr * cstr;
}.

Definition generate_sqls (opt : GeneratorOptions) (source : option cstr) (now : Z) : option Workload :=
  src ← source;
  match fgets (LINE_MAX_LEN - 1) src with
  | ([], _) => None
  | (line, rest) =>
      '(ids, inserts) ← read_rows (length rest) (g_rows opt) 0 rest;
      let rows := Z.of_nat (length ids) in
      let update_rows := if g_update_rows opt <=? rows then g_update_rows opt else rows in
      let delete_rows := if g_delete_rows opt <=? rows then g_delete_rows opt else rows in
      let ids := shuffle_ids ids (seed opt) in
      Some (mkWorkload (trim_newline line ++ [NL])
        (generated_comment opt (g_rows opt) ++ inserts)
        (generated_comment opt update_rows ++ concat (map (update_line "final_wait") (take (Z.to_nat update_rows) ids)))
        (generated_comment opt delete_rows ++ concat (map delete_line (take (Z.to_nat delete_rows) ids)))
        (lit "-- mixed workload profile=" ++ profile opt ++ lit " ops=" ++ print_Z (mixed_ops opt) ++ [NL] ++
         (if 0 <? rows then mixed_lines (Z.to_nat (mixed_ops opt)) 0 (Z.lxor (seed opt) 2654435769) 0 ids else []))
        (write_correctness_sql opt) (write_meta_files opt rows now))
  end.

(** ** The program *)

(** The loop over the arguments. *)
Fixpoint parse_options (args : list cstr) (opt : GeneratorOptions) : GeneratorOptions :=
  match args with
  | a :: ((v :: args') as next) =>
      let '(mkOptions p r u d m s o) := opt in
      if streq a (lit "--profile") then parse_options args' (mkOptions v r u d m s o)
      else if streq a (lit "--seed") then parse_options args' (mkOptions p r u d m ((strtoull v).1 mod 2 ^ 32) o)
      else if streq a (lit "--rows") || streq a (lit "--preload") then parse_options args' (mkOptions p (atoi v) u d m s o)
      else if streq a (lit "--update-rows") then parse_options args' (mkOptions p r (atoi v) d m s o)
      else if streq a (lit "--delete-rows") then parse_options args' (mkOptions p r u (atoi v) m s o)
      else if streq a (lit "--ops") then parse_options args' (mkOptions p r u d (atoi v) s o)
      else if streq a (lit "--output-dir") then parse_options args' (mkOptions p r u d m s v)
      else parse_options next opt
  | _ => opt
  end.

Definition parse_args (args : list cstr) (opt : GeneratorOptions) : GeneratorOptions :=
  let '(mkOptions p r u d m s o) := parse_options args opt in
  let r := if r <=? 0 then profile_rows p else r in
  let u := if u <=? 0 then profile_update_rows p else u in
  let d := if d <=? 0 then profile_delete_rows p else d in
  let u := if r <? u then r else u in
  let d := if r <? d then r else d in
  mkOptions p r u d (if m <=? 0 then profile_ops p else m) s o.

Definition default_options : GeneratorOptions := mkOptions (lit "score") 0 0 0 0 20260415 (lit "generated_sql").

(** [args] is [argv] from 1 on: the source and the files it leaves. *)
Definition generator_main (args : list cstr) (source : option cstr) (now : Z) : option cstr * option Workload :=
  let opt := parse_args args default_options in
  let source := ensure_source_csv (g_rows opt) source in
  (source, generate_sqls opt source now).
End generator.

(** ** The runner *)

Record RunnerOptions := mkRunner {
  r_profile : cstr;
  r_rows : Z;
  r_update_rows : Z;
  r_delete_rows : Z;
  r_mixed_ops : Z;
  r_seed : Z;
  r_repeat : Z;
  memtrack : bool;
  report_only : bool;
}.

(** The loop over the arguments of the runner. *)
Fixpoint runner_options (args : list cstr) (opt : RunnerOptions) : RunnerOptions :=
  match args with
  | [] => opt
  | a :: next =>
      let '(mkRunner p r u d m s n mt ro) := opt in
      let flag := if streq a (lit "--memtrack") then mkRunner p r u d m s n true ro
                  else if streq a (lit "--report-only") then mkRunner p r u d m s n mt true
                  else opt in
      match next with
      | [] => flag
      | v :: args' =>
          if streq a (lit "--profile") then runner_options args' (mkRunner v r u d m s n mt ro)
          else if streq a (lit "--seed") then runner_options args' (mkRunner p r u d m ((strtoull v).1 mod 2 ^ 32) n mt ro)
          else if streq a (lit "--repeat") then runner_options args' (mkRunner p r u d m s (atoi v) mt ro)
          else if streq a (lit "--rows") || streq a (lit "--preload") then runner_options args' (mkRunner p (atoi v) u d m s n mt ro)
          else if streq a (lit "--update-rows") then runner_options args' (mkRunner p r (atoi v) d m s n mt ro)
          else if streq a (lit "--delete-rows") then runner_options args' (mkRunner p r u (atoi v) m s n mt ro)
          else if streq a (lit "--ops") then runner_options args' (mkRunner p r u d (atoi v) s n mt ro)
          else runner_options next flag
      end
  end.

(** [parse_args] of the runner; its profiles have the sizes of those of the generator. *)
Definition runner_args (args : list cstr) (opt : RunnerOptions) : RunnerOptions :=
  let '(mkRunner p r u d m s n mt ro) := runner_options args opt in
  let r := if r <=? 0 then profile_rows p else r in
  let u := if u <=? 0 then profile_update_rows p else u in
  let d := if d <=? 0 then profile_delete_rows p else d in
  let u := if r <? u then r else u in
  let d := if r <? d then r else d in
  mkRunner p r u d (if m <=? 0 then profile_ops p else m) s (if n <=? 0 then 3 else n) mt ro.

Definition default_runner : RunnerOptions := mkRunner (lit "score") 0 0 0 0 20260415 3 false false.

(** The words of the command for the generator, when the profile is one word of the shell. *)
Definition generator_command (opt : RunnerOptions) : list cstr :=
  [lit "--profile"; r_profile opt; lit "--seed"; print_Z (r_seed opt); lit "--preload"; print_Z (r_rows opt);
   lit "--update-rows"; print_Z (r_update_rows opt); lit "--delete-rows"; print_Z (r_delete_rows opt);
   lit "--ops"; print_Z (r_mixed_ops opt); lit "--output-dir"; lit "generated_sql"].

(** The table of the workload without rows, log and snapshot. The table's file is emptied
    even if the source cannot be read. *)
Definition reset_workload_csv_header (source : option cstr) (d : gmap cstr Files) : bool * gmap cstr Files :=
  let fs := files_of d TABLE_NAME in
  let failed := (false, <[TABLE_NAME := mkFiles (Some []) (delta fs) (idx fs)]> d) in
  match source with
  | None => failed
  | Some text =>
      match fgets 4095 text with
      | ([], _) => failed
      | (line, _) => (true, <[TABLE_NAME := mkFiles (Some (trim_newline line ++ [NL])) None None]> d)
      end
  end.

(** [report.raw]; [score] is the score as it is printed. *)
Definition report_raw (correctness_pass : bool) (delete_mode score : cstr) (profile : cstr) (seed : Z) : cstr :=
  lit "correctness_pass=" ++ lit (if correctness_pass then "true" else "false") ++ [NL] ++
  lit "delete_mode=" ++ delete_mode ++ [NL] ++
  lit "score_total=" ++ lit (if correctness_pass then "set" else "zero") ++ [NL] ++
  lit "score_value=" ++ (if correctness_pass then score else lit "0") ++ [NL] ++
  lit "profile=" ++ profile ++ [NL] ++ lit "seed=" ++ print_Z seed ++ [NL].

(** The loop over the lines of [report.raw]: score, correctness and the mode of DELETE. *)
Fixpoint read_raw (fuel : nat) (raw score correctness delete_mode : cstr) : cstr * cstr * cstr :=
  match fuel, raw with
  | S fuel', _ :: _ =>
      let '(line, rest) := fgets 511 raw in
      let line := trim_newline line in
      if is_prefix (lit "score_total=") line then read_raw fuel' rest (take 127 (drop 12 line)) correctness delete_mode
      else if is_prefix (lit "correctness_pass=") line then read_raw fuel' rest score (take 31 (drop 17 line)) delete_mode
      else if is_prefix (lit "delete_mode=") line then read_raw fuel' rest score correctness (take 63 (drop 12 line))
      else read_raw fuel' rest score correctness delete_mode
  | _, _ => (score, correctness, delete_mode)
  end.

Definition regenerate_md_from_raw (raw : cstr) : cstr :=
  let '(score, correctness, delete_mode) := read_raw (length raw) raw (lit "N/A") (lit "false") (lit "estimated") in
  lit "# Benchmark Report" ++ [NL; NL] ++ lit "- correctness_pass: `" ++ correctness ++ lit "`" ++ [NL] ++
  lit "- delete_mode: `" ++ delete_mode ++ lit "`" ++ [NL] ++ lit "- score_total: `" ++ score ++ lit "`" ++ [NL; NL] ++
  lit "See `artifacts/bench/report.json` for full metrics." ++ [NL].
