(* ===== verification/CliProofs.v ===== *)
(** The quick readers of the command-line program against the parser: whatever both accept
    they read as the same statement. At the end, the counters of the allocator of the
    memory benchmark. *)

From Stdlib Require Import String.
From S2P Require Import Prelude CString Lexer Parser ParserProofs Store Cli.
From stdpp Require Import base numbers list option.
Local Open Scope Z_scope.

(** ** The parser in terms of the text that is left *)

(** The token at the head of a text, and what follows it. *)
Definition tok (u : cstr) : Token := fst (lex_token (skip_space u)).
Definition after (u : cstr) : cstr := drop (snd (lex_token (skip_space u))) (skip_space u).

(** The current token is the one at the head of [u]. *)
Definition at_text (p : Parser) (u : cstr) : Prop := current_token p = tok u ∧ rest (lexer p) = after u.

Lemma drop_span_space u : drop (span_len isspace u) u = skip_space u.
Proof. induction u as [|c u IH]; [done|]. cbn [span_len skip_space]. by destruct (isspace c). Qed.

Lemma next_at l : ∃ l', get_next_token l = (tok (rest l), l') ∧ rest l' = after (rest l).
Proof.
  pose proof (get_next_token_rest l) as (_ & H1 & H2). cbv zeta in H1, H2. destruct (get_next_token l) as [t l']. cbn [fst snd] in *.
  rewrite <- drop_drop, drop_span_space in H2. rewrite drop_span_space in H1. subst t. by exists l'.
Qed.

Lemma advance_at p u : at_text p u → ∃ p', advance_parser p = Some (tt, p') ∧ at_text p' (after u).
Proof.
  intros [_ Hr]. unfold advance_parser. destruct (next_at (lexer p)) as (l' & -> & E). exists (mkParser l' (tok (rest (lexer p)))).
  split; [done|]. rewrite Hr in *. by split.
Qed.

Lemma bind_inv {A B} (m : parse A) (k : A → parse B) p y p' :
  (m ≫= k) p = Some (y, p') → ∃ x p1, m p = Some (x, p1) ∧ k x p1 = Some (y, p').
Proof. unfold mbind, parse_bind. destruct (m p) as [[x p1]|]; [|done]. intros H. by exists x, p1. Qed.

Lemma advance_inv p u x p' : at_text p u → advance_parser p = Some (x, p') → at_text p' (after u).
Proof. intros Hp H. destruct (advance_at p u Hp) as (q & E & Hq). rewrite E in H. by injection H as _ <-. Qed.

Lemma guard_inv b p x p' : guardb b p = Some (x, p') → b = true ∧ p' = p.
Proof. unfold guardb. destruct b; [|done]. by intros [= _ <-]. Qed.

Lemma peek_inv p x p' : peek p = Some (x, p') → x = current_token p ∧ p' = p.
Proof. by intros [= <- <-]. Qed.

(** Takes a step of a parser that has succeeded apart. *)
Ltac step H :=
  let x := fresh "x" in let p := fresh "p" in let E := fresh "E" in
  apply bind_inv in H as (x & p & E & H);
  try (apply peek_inv in E as [-> ->]);
  try (apply guard_inv in E as [E ->]).

Lemma expect_inv ty p u x p' : at_text p u → expect_token ty p = Some (x, p') → ttype (tok u) = ty ∧ at_text p' (after u).
Proof.
  intros Hp H. unfold expect_token in H. step H. step H. split; [|by eapply advance_inv].
  rewrite (proj1 Hp) in E. by apply bool_decide_eq_true in E.
Qed.

Lemma identifier_inv sz p u x p' : at_text p u → parse_identifier sz p = Some (x, p') →
  ttype (tok u) = TOKEN_IDENTIFIER ∧ x = strcpy_sz sz (text (tok u)) ∧ at_text p' (after u).
Proof.
  intros Hp H. unfold parse_identifier in H. step H. step H. step H. injection H as <- <-. rewrite (proj1 Hp) in *.
  apply bool_decide_eq_true in E. split; [done|]. split; [done|]. by eapply advance_inv.
Qed.

Lemma literal_inv sz p u x p' : at_text p u → parse_literal sz p = Some (x, p') →
  is_literal (tok u) = true ∧ x = strcpy_sz sz (text (tok u)) ∧ at_text p' (after u).
Proof.
  intros Hp H. unfold parse_literal in H. step H. step H. step H. injection H as <- <-. rewrite (proj1 Hp) in *.
  split; [done|]. split; [done|]. by eapply advance_inv.
Qed.

(** ** Words *)

(** The upper-case spelling of a keyword. *)
Definition keyword_name (ty : SqlTokenType) : cstr :=
  match ty with
  | TOKEN_SELECT => lit "SELECT" | TOKEN_INSERT => lit "INSERT" | TOKEN_UPDATE => lit "UPDATE" | TOKEN_DELETE => lit "DELETE"
  | TOKEN_FROM => lit "FROM" | TOKEN_WHERE => lit "WHERE" | TOKEN_SET => lit "SET" | TOKEN_INTO => lit "INTO"
  | TOKEN_VALUES => lit "VALUES" | TOKEN_BETWEEN => lit "BETWEEN" | TOKEN_AND => lit "AND" | _ => []
  end.

Lemma keyword_upper t : keyword_name (keyword t) ≠ [] → map toupper t = keyword_name (keyword t).
Proof.
  unfold keyword. cbv zeta. set (u := map toupper t).
  repeat (match goal with |- context [if streq u ?k then _ else _] => destruct (streq u k) eqn:?; [intros _; by apply streq_true|] end).
  by intros [].

Qed.

Lemma toupper_lower a b : toupper a = toupper b → tolower a = tolower b.
Proof.
  unfold toupper, tolower, islower, isupper. intros H.
  destruct ((97 <=? a) && (a <=? 122)) eqn:E1, ((97 <=? b) && (b <=? 122)) eqn:E2; bool_to_prop;
    destruct ((65 <=? a) && (a <=? 90)) eqn:E3, ((65 <=? b) && (b <=? 90)) eqn:E4; bool_to_prop; lia.
Qed.

Lemma keyword_match_word w k r : map toupper w = map toupper k → keyword_match_ci (w ++ r) k = true.
Proof.
  revert w; induction k as [|x k IH]; intros [|c w]; try done. cbn [map]. intros [= H1 H2]. cbn [app keyword_match_ci].
  rewrite (toupper_lower _ _ H1), Z.eqb_refl. by apply IH.
Qed.

Lemma keyword_match_head s k x k' : keyword_match_ci s k = true → k = x :: k' → ∃ c s', s = c :: s' ∧ tolower c = tolower x.
Proof.
  intros H ->. destruct s as [|c s]; [done|]. cbn in H. apply andb_true_iff in H as [H _]. exists c, s. split; [done|]. by apply Z.eqb_eq.
Qed.

(** Only a text of letters starts with a keyword. *)
Lemma lex_word d t : keyword_name (ttype (fst (lex_token (d :: t)))) ≠ [] → ident_start d = true.
Proof.
  unfold lex_token. destruct (punct d) as [ty|] eqn:Ep.
  - unfold punct in Ep. intros H. exfalso. repeat (case_match; [injection Ep as <-; done|]). done.
  - destruct (d =? QUOTE); [done|]. destruct (ident_start d); [done|]. by destruct (isdigit d).
Qed.

Lemma keyword_not_eof t : keyword t ≠ TOKEN_EOF.
Proof. unfold keyword. cbv zeta. by repeat case_match. Qed.

Lemma tok_eof u : ttype (tok u) = TOKEN_EOF ↔ skip_space u = [].
Proof.
  unfold tok. split; [|by intros ->]. destruct (skip_space u) as [|d t]; [done|]. unfold lex_token. destruct (punct d) as [ty|] eqn:Ep.
  - unfold punct in Ep. cbn. intros ->. repeat (case_match; [done|]). done.
  - destruct (d =? QUOTE); [done|]. destruct (ident_start d).
    + cbn [fst ttype]. intros H. by apply keyword_not_eof in H.
    + by destruct (isdigit d).
Qed.

(** The parser takes a word for the keyword: the quick reader does so too, and both
    go on behind it. *)
Lemma keyword_tok u ty kw :
  ttype (tok u) = ty → keyword_name ty ≠ [] → map toupper (lit kw) = keyword_name ty → skip_keyword kw u = Some (after u).
Proof.
  intros Hty Hn Hk. unfold skip_keyword, after, tok in *. destruct (skip_space u) as [|d t] eqn:Eu; [by subst ty|].
  assert (ident_start d = true) as Hd by (apply (lex_word d t); by rewrite Hty).
  destruct (ident_start_facts d Hd) as (Hp & Hq & _). revert Hty. unfold lex_token. rewrite Hp, Hq, Hd. cbn [fst snd ttype].
  intros Hty. set (len := span_len ident_char (d :: t)) in *. set (s := d :: t) in *. clearbody s. set (w := strcpy_sz TEXT_SIZE (take len s)) in *.
  assert (map toupper w = keyword_name ty) as Hw by (rewrite <- Hty; apply keyword_upper; by rewrite Hty).
  assert (length (keyword_name ty) < 10)%nat as Hl by (destruct ty; vm_compute; lia).
  assert (take len s = w) as E.
  { apply (f_equal length) in Hw. rewrite length_map in Hw. unfold w, strcpy_sz, TEXT_SIZE in *. rewrite length_take in Hw. symmetry. apply take_ge. lia. }
  assert (len ≤ length s)%nat as Hlen by apply span_len_le.
  assert (length w = len) as Elen by (rewrite <- E, length_take; lia).
  assert (length (lit kw) = len) as Ekw.
  { rewrite <- Elen, <- (length_map toupper w), Hw, <- Hk. by rewrite length_map. }
  rewrite <- (take_drop len s), E, keyword_match_word by congruence. rewrite Ekw, <- Elen, drop_app_length. f_equal.
Qed.

Lemma char_tok u c ty : ttype (tok u) = ty → (∀ d, punct d = Some ty → d = c) → keyword_name ty = [] →
  ty ≠ TOKEN_EOF → ty ≠ TOKEN_IDENTIFIER → ty ≠ TOKEN_STRING → ty ≠ TOKEN_NUMBER → ty ≠ TOKEN_ILLEGAL → skip_char c u = Some (after u).
Proof.
  intros Hty Hc Hn H1 H2 H3 H4 H5. unfold skip_char, after, tok in *. destruct (skip_space u) as [|d t]; [done|].
  revert Hty. unfold lex_token. destruct (punct d) as [ty'|] eqn:Ep.
  - cbn. intros ->. apply Hc in Ep as ->. by rewrite Z.eqb_refl, drop_0.
  - destruct (d =? QUOTE); [done|]. destruct (ident_start d).
    + cbn [fst ttype]. intros Hk. exfalso. destruct (decide (keyword_name (keyword (strcpy_sz TEXT_SIZE (take (span_len ident_char (d :: t)) (d :: t)))) = [])) as [E|E].
      * revert Hk E. unfold keyword. cbv zeta. repeat (case_match; [done|]). intros <-. done.
      * by rewrite Hk in E.
    + destruct (isdigit d); cbn; congruence.
Qed.

Lemma punct_eq d : punct d = Some TOKEN_EQ → d = 61.
Proof. unfold punct. repeat (case_match; [try done|]; try done). bool_to_prop. lia. Qed.

Lemma punct_lparen d : punct d = Some TOKEN_LPAREN → d = 40.
Proof. unfold punct. repeat (case_match; [try done|]; try done). bool_to_prop. lia. Qed.

Lemma eq_tok u : ttype (tok u) = TOKEN_EQ → skip_char 61 u = Some (after u).
Proof. intros H. by apply (char_tok u 61 TOKEN_EQ H punct_eq). Qed.

Lemma lparen_tok u : ttype (tok u) = TOKEN_LPAREN → skip_char 40 u = Some (after u).
Proof. intros H. by apply (char_tok u 40 TOKEN_LPAREN H punct_lparen). Qed.

(** Where [=] is read, the lexer reads it too. *)
Lemma skip_char_tok u r : skip_char 61 u = Some r → ttype (tok u) = TOKEN_EQ.
Proof.
  unfold skip_char, tok. destruct (skip_space u) as [|d t]; [done|]. destruct (d =? 61) eqn:E; [|done]. apply Z.eqb_eq in E as ->. done.
Qed.

(** *** Words that both read to the same end *)

Lemma span_len_eq (p p' : Z → bool) s :
  (∀ c, p c = true → p' c = true) → match drop (span_len p s) s with c :: _ => p' c = false | [] => True end →
  span_len p s = span_len p' s.
Proof.
  intros Hp. induction s as [|c s IH]; [done|]. cbn [span_len]. destruct (p c) eqn:E; [rewrite (Hp c E); intros H; f_equal; by apply IH|].
  cbn [drop]. by intros ->.
Qed.

Lemma span_len_stop p s : match drop (span_len p s) s with c :: _ => p c = false | [] => True end.
Proof. induction s as [|c s IH]; [done|]. cbn [span_len]. by destruct (p c) eqn:E. Qed.

(** Neither of the two characters that only the lexer takes for part of a name. *)
Definition no_dash (r : cstr) : Prop := match r with c :: _ => c ≠ 45 ∧ c ≠ 46 | [] => True end.

Lemma word_char_ident c : word_char c = true → ident_char c = true.
Proof. unfold word_char, ident_char. by intros ->. Qed.

Lemma ident_not_space c : ident_char c = true → isspace c = false.
Proof. unfold ident_char, isalnum, isalpha, isupper, islower, isdigit, isspace. intros H. bool_to_prop. lia. Qed.

Lemma skip_keyword_no_dash kw r x k s : lit kw = x :: k → tolower x ≠ 45 → tolower x ≠ 46 → skip_keyword kw r = Some s → no_dash r.
Proof.
  intros Hk H1 H2. unfold skip_keyword. destruct (keyword_match_ci (skip_space r) (lit kw)) eqn:E; [|done]. intros _.
  destruct (keyword_match_head _ _ _ _ E Hk) as (c & s' & Es & Hc). destruct r as [|d r]; [done|]. cbn [skip_space no_dash] in *.
  destruct (isspace d) eqn:Ed; [unfold isspace in Ed; bool_to_prop; lia|]. injection Es as <- _. split; intros ->; cbn in Hc; congruence.
Qed.

Lemma skip_char_no_dash r s : skip_char 61 r = Some s → no_dash r.
Proof.
  unfold skip_char. destruct r as [|d r]; [done|]. cbn [skip_space no_dash]. destruct (isspace d) eqn:Ed; [unfold isspace in Ed; bool_to_prop; lia|].
  destruct (d =? 61) eqn:E; [|done]. bool_to_prop. lia.
Qed.

Lemma strcpy_take n m (s : cstr) : (n < m)%nat → strcpy_sz m (take n s) = take n s.
Proof. intros H. unfold strcpy_sz. rewrite take_take. f_equal. lia. Qed.

Lemma lex_ident c t : ident_start c = true → ∀ s, s = c :: t →
  lex_token s = (mkToken (keyword (strcpy_sz TEXT_SIZE (take (span_len ident_char s) s))) (strcpy_sz TEXT_SIZE (take (span_len ident_char s) s)), span_len ident_char s).
Proof. intros Hc s ->. destruct (ident_start_facts c Hc) as (Hp & Hq & _). unfold lex_token. by rewrite Hp, Hq, Hc. Qed.

Lemma identifier_tok u sz x r :
  read_sql_identifier u sz = Some (x, r) → (sz ≤ TEXT_SIZE)%nat → no_dash r →
  text (tok u) = x ∧ after u = r ∧ (length x < sz)%nat.
Proof.
  unfold read_sql_identifier, tok, after. cbv zeta. generalize (skip_space u). intros s. destruct s as [|c t] eqn:Es; [done|]. rewrite <- Es.
  destruct (ident_start c) eqn:Ei; [|done]. cbn [negb]. pose proof (lex_ident c t Ei s Es) as ->. clear Es t.
  destruct ((span_len word_char s =? 0)%nat || (sz <=? span_len word_char s)%nat) eqn:E; [done|].
  apply orb_false_iff in E as [_ E]. apply Nat.leb_gt in E. intros [= <- <-] Hsz Hd.
  assert (span_len word_char s = span_len ident_char s) as Es.
  { apply span_len_eq; [exact word_char_ident|]. pose proof (span_len_stop word_char s) as Hst.
    destruct (drop (span_len word_char s) s) as [|d t']; [done|]. destruct Hd as [Hd1 Hd2]. unfold word_char, ident_char in *.
    rewrite Hst. cbn [orb]. apply Z.eqb_neq in Hd1, Hd2. by rewrite Hd1, Hd2. }
  cbn [fst snd text]. rewrite <- Es. split; [apply strcpy_take; lia|]. split; [done|]. rewrite length_take. lia.
Qed.

(** What may follow a literal. *)
Definition follows (ty : SqlTokenType) : Prop := keyword_name ty ≠ [] ∨ ty = TOKEN_EOF.

Lemma follows_head d t : ident_char d = false → isspace d = false → ¬ follows (ttype (tok (d :: t))).
Proof.
  intros Hd Hs [H|H].
  - unfold tok in H. cbn [skip_space] in H. rewrite Hs in H. apply lex_word in H. unfold ident_start, ident_char, isalnum in *.
    destruct (isalpha d); [done|]. cbn [orb] in H. by rewrite H, ?orb_true_r in Hd.
  - apply tok_eof in H. cbn [skip_space] in H. by rewrite Hs in H.
Qed.

(** The lexer takes a longest run of its characters, the quick reader one of [p]; when the
    lexer can go on as the parser wants, they are the same. *)
Lemma same_word p s :
  (∀ c, ident_char c = true → p c = true) → (∀ c, p c = true → isspace c = false) →
  follows (ttype (tok (drop (span_len ident_char s) s))) → span_len ident_char s = span_len p s.
Proof.
  intros H1 H2 Hf. apply span_len_eq; [done|]. pose proof (span_len_stop ident_char s) as Hst.
  destruct (drop (span_len ident_char s) s) as [|d t]; [done|]. destruct (p d) eqn:Ep; [|done]. exfalso.
  by apply (follows_head d t Hst (H2 d Ep)).
Qed.

Lemma not_space_run s : follows (ttype (tok (drop (span_len ident_char s) s))) → span_len ident_char s = span_len (fun c => negb (isspace c)) s.
Proof. apply same_word; intros c Hc; [by rewrite (ident_not_space c Hc)|by apply negb_true_iff]. Qed.

Lemma lex_digit c t : isdigit c = true → ident_start c = false → punct c = None → (c =? QUOTE) = false → ∀ s, s = c :: t →
  lex_token s = (mkToken TOKEN_NUMBER (strcpy_sz TEXT_SIZE (take (span_len ident_char s) s)), span_len ident_char s).
Proof. intros Hc Hi Hp Hq s ->. unfold lex_token. by rewrite Hp, Hq, Hi, Hc. Qed.

Lemma punct_not_literal c ty : punct c = Some ty → is_literal (mkToken ty [c]) = false.
Proof. unfold punct. repeat (case_match; [by intros [= <-]|]). done. Qed.

Lemma literal_tok u sz x r :
  read_sql_literal u sz = Some (x, r) → (sz ≤ TEXT_SIZE)%nat → is_literal (tok u) = true → follows (ttype (tok (after u))) →
  text (tok u) = x ∧ after u = r ∧ (length x < sz)%nat.
Proof.
  unfold read_sql_literal, after. unfold tok at 1 3. cbv zeta. generalize (skip_space u). intros s. destruct s as [|c t] eqn:Es; [done|].
  destruct (c =? QUOTE) eqn:Eq.
  - apply Z.eqb_eq in Eq as ->. intros H Hsz _ _. destruct (span_len _ t <? length t)%nat eqn:El; [|done].
    destruct (sz <=? span_len _ t)%nat eqn:E; [done|]. apply Nat.leb_gt in E. injection H as <- <-.
    assert (lex_token (QUOTE :: t) = let n := span_len (fun d => negb (Z.eqb d QUOTE)) t in
      (mkToken TOKEN_STRING (strcpy_sz TEXT_SIZE (take n t)), (1 + n + (if (n <? length t)%nat then 1 else 0))%nat)) as -> by done. cbv zeta.
    rewrite El. cbn [fst snd text]. split; [apply strcpy_take; lia|]. split; [|rewrite length_take; lia].
    rewrite Nat.add_1_r. done.
  - rewrite <- Es. destruct (_ || _) eqn:E; [done|]. apply orb_false_iff in E as [_ E]. apply Nat.leb_gt in E. intros H Hsz Hl Hf. injection H as <- <-.
    assert (snd (lex_token s) = span_len ident_char s ∧ text (fst (lex_token s)) = strcpy_sz TEXT_SIZE (take (span_len ident_char s) s)) as [E1 E2].
    { destruct (ident_start c) eqn:Ei; [by rewrite (lex_ident c t Ei s Es)|]. destruct (punct c) eqn:Ep.
      - rewrite Es in Hl. unfold lex_token in Hl. rewrite Ep in Hl. cbn [fst] in Hl. by rewrite punct_not_literal in Hl.
      - destruct (isdigit c) eqn:Ed; [by rewrite (lex_digit c t Ed Ei Ep Eq s Es)|].
        rewrite Es in Hl. unfold lex_token in Hl. by rewrite Ep, Eq, Ei, Ed in Hl. }
    rewrite E1 in Hf |- *. apply not_space_run in Hf. rewrite E2, Hf.
    split; [apply strcpy_take; lia|]. split; [done|]. rewrite length_take. lia.
Qed.

(** *** The end of a quick statement *)

Lemma name_fits n x (s : cstr) : (length s < n)%nat → s = x → strcpy_sz n s = x.
Proof. intros H <-. unfold strcpy_sz. apply take_ge. lia. Qed.

Lemma parse_conditions_end fuel cs p u : at_text p u → skip_space u = [] → parse_conditions fuel cs p = Some (cs, p).
Proof.
  intros [Hp _] Hu. apply tok_eof in Hu. assert (is_type TOKEN_AND (tok u) = false) as Ht.
  { unfold is_type. rewrite Hu. done. }
  destruct fuel; cbn [parse_conditions]; unfold peek, mbind, parse_bind; by rewrite Hp, Ht.
Qed.

Lemma finish_inv {A} (m : parse A) p x p' : finish_statement m p = Some (x, p') → m p = Some (x, p') ∧ ttype (current_token p') = TOKEN_EOF.
Proof. intros H. unfold finish_statement in H. step H. step H. step H. injection H as <- <-. by apply bool_decide_eq_true in E0. Qed.

Lemma skip_keyword_lower kw u r : skip_keyword kw u = Some r → keyword_match_ci (skip_space u) (lit kw) = true.
Proof. unfold skip_keyword. by destruct (keyword_match_ci _ _). Qed.

(** Two keywords cannot both stand at the head of a text. *)
Lemma two_keywords k1 k2 u r1 r2 x y l1 l2 :
  skip_keyword k1 u = Some r1 → skip_keyword k2 u = Some r2 → lit k1 = x :: l1 → lit k2 = y :: l2 → tolower x = tolower y.
Proof.
  intros H1%skip_keyword_lower H2%skip_keyword_lower E1 E2.
  destruct (keyword_match_head _ _ _ _ H1 E1) as (c & s' & Es & Hc), (keyword_match_head _ _ _ _ H2 E2) as (c' & s'' & Es' & Hc'). congruence.
Qed.

(** The keyword that the quick reader saw is not the end of the text. *)
Lemma keyword_not_end kw u r x l : lit kw = x :: l → skip_keyword kw u = Some r → ttype (tok u) ≠ TOKEN_EOF.
Proof.
  intros E H%skip_keyword_lower Ht%tok_eof. destruct (keyword_match_head _ _ _ _ H E) as (c & s' & Es & _). by rewrite Ht in Es.
Qed.

Lemma same_keyword u ty kw r :
  ttype (tok u) = ty → skip_keyword kw u = Some r → keyword_name ty ≠ [] → map toupper (lit kw) = keyword_name ty → r = after u.
Proof. intros H1 H2 H3 H4. rewrite (keyword_tok u ty kw H1 H3 H4) in H2. by injection H2. Qed.

Lemma same_char u c r : skip_char c u = Some r → skip_char c u = Some (after u) → r = after u.
Proof. congruence. Qed.

Lemma conditions_follow fuel cs p u x p' :
  at_text p u → parse_conditions fuel cs p = Some (x, p') → ttype (tok u) = TOKEN_AND ∨ x = cs ∧ p' = p.
Proof.
  intros [Hp _] H. destruct fuel; cbn [parse_conditions] in H; unfold peek, mbind, parse_bind in H; rewrite Hp in H;
    (destruct (is_type TOKEN_AND (tok u)) eqn:E; [left; by apply bool_decide_eq_true in E|right; by injection H as <- <-]).
Qed.

Lemma where_agrees st p u st' p' wc wv :
  at_text p u → parse_where_clause st p = Some (st', p') → ttype (current_token p') = TOKEN_EOF → read_where u = Some (wc, wv) →
  st' = finish_single_eq_where st wc wv ∧ ttype (tok u) = TOKEN_WHERE.
Proof.
  intros Hp H He Hr. unfold read_where in Hr. destruct (skip_keyword "where" u) as [u1|] eqn:E1; [|done]. cbn [mbind option_bind] in Hr.
  destruct (read_sql_identifier u1 COL_SIZE) as [[col u2]|] eqn:E2; [|done]. cbn [mbind option_bind] in Hr.
  destruct (skip_char 61 u2) as [u3|] eqn:E3; [|done]. cbn [mbind option_bind] in Hr.
  destruct (read_sql_literal u3 VAL_SIZE) as [[v u4]|] eqn:E4; [|done]. cbn [mbind option_bind] in Hr.
  destruct (skip_space u4) eqn:E5; [|done]. injection Hr as <- <-.
  unfold parse_where_clause in H. step H. rewrite (proj1 Hp) in H. destruct (is_type TOKEN_WHERE (tok u)) eqn:Ew.
  2:{ exfalso. injection H as <- <-. rewrite (proj1 Hp) in He. by eapply keyword_not_end in E1. }
  apply bool_decide_eq_true in Ew. split; [|done]. assert (u1 = after u) as -> by (by apply (same_keyword u _ "where" _ Ew E1)).
  step H. apply (advance_inv _ _ _ _ Hp) in E. clear Hp. step H.
  destruct (identifier_tok _ _ _ _ E2) as (Ecol & Eu2 & Hcol); [unfold COL_SIZE, TEXT_SIZE; lia|by eapply skip_char_no_dash|]. subst u2.
  unfold parse_one_condition in E0. step E0. step E0. apply (identifier_inv _ _ _ _ _ E) in E7 as (_ & -> & Hp2). clear E.
  step E0. rewrite (proj1 Hp2) in E0. pose proof (skip_char_tok _ _ E3) as Et. unfold is_type at 1 in E0. rewrite Et in E0.
  rewrite bool_decide_eq_false_2 in E0 by done. step E0. apply (expect_inv _ _ _ _ _ Hp2) in E as [_ Hp3]. clear Hp2.
  apply eq_tok, (same_char _ _ _ E3) in Et as ->.
  step E0. apply (literal_inv _ _ _ _ _ Hp3) in E as (Hlit & -> & Hp4). clear Hp3. injection E0 as <- <-.
  step H. injection H as <- <-.
  destruct (literal_tok _ _ _ _ E4) as (Ev & Eu4 & Hv); [unfold VAL_SIZE, TEXT_SIZE; lia|done| |].
  { destruct (conditions_follow _ _ _ _ _ _ Hp4 E) as [Ha|[_ ->]]; [left; by rewrite Ha|right; by rewrite <- (proj1 Hp4)]. }
  rewrite Eu4 in Hp4. rewrite (parse_conditions_end _ _ _ _ Hp4 E5) in E. injection E as <- _.
  rewrite Ecol, Ev. unfold set_where, finish_single_eq_where. cbn [wc_type wc_col wc_val wc_end_val].
  by rewrite !(name_fits COL_SIZE col col), !(name_fits VAL_SIZE v v) by done.
Qed.

(** *** A whole statement *)

Definition bom (s : cstr) : bool := match s with a :: b :: c :: _ => (a =? 239) && (b =? 187) && (c =? 191) | _ => false end.

Lemma rest_init s : rest (init_lexer s) = if bom s then drop 3 s else s.
Proof. unfold rest, init_lexer, bom. repeat (case_match; try done). Qed.

Lemma keyword_no_bom kw s r x l : lit kw = x :: l → isupper x || islower x = true → skip_keyword kw s = Some r → bom s = false.
Proof.
  intros E Hx H%skip_keyword_lower. destruct (keyword_match_head _ _ _ _ H E) as (c & s' & Es & Hc).
  destruct (bom s) eqn:Eb; [|done]. destruct s as [|a s]; [done|]. unfold bom in Eb. repeat (case_match; try done). bool_to_prop. subst a.
  cbn in Es. injection Es as <- _. cbn in Hc. unfold tolower, isupper, islower in *. destruct ((65 <=? x) && (x <=? 90)) eqn:E1; bool_to_prop; lia.
Qed.

(** The first token decides which of the four parsers reads the statement. *)
Inductive parsed (p : Parser) (st : Statement) : SqlTokenType → Prop :=
| parsed_select : fst <$> finish_statement parse_select p = Some st → parsed p st TOKEN_SELECT
| parsed_insert : fst <$> parse_insert p = Some st → parsed p st TOKEN_INSERT
| parsed_update : fst <$> finish_statement parse_update p = Some st → parsed p st TOKEN_UPDATE
| parsed_delete : fst <$> finish_statement parse_delete p = Some st → parsed p st TOKEN_DELETE.

Lemma parse_statement_inv s st : parse_statement s = Some st → ∃ p, at_text p (rest (init_lexer s)) ∧ parsed p st (ttype (tok (rest (init_lexer s)))).
Proof.
  unfold parse_statement. destruct (next_at (init_lexer s)) as (l & -> & Hl). set (u := rest (init_lexer s)) in *. intros H.
  exists (mkParser l (tok u)). split; [done|]. destruct (ttype (tok u)); try done; by constructor.
Qed.

Lemma fst_some {A B} (x : option (A * B)) a : fst <$> x = Some a → ∃ b, x = Some (a, b).
Proof. destruct x as [[a' b]|]; [|done]. cbn. intros [= ->]. by exists b. Qed.

Lemma where_follows st p u x p' :
  at_text p u → parse_where_clause st p = Some (x, p') → ttype (current_token p') = TOKEN_EOF → follows (ttype (tok u)).
Proof.
  intros [Hp _] H He. unfold parse_where_clause in H. step H. rewrite Hp in H. destruct (is_type TOKEN_WHERE (tok u)) eqn:E.
  - apply bool_decide_eq_true in E. left. by rewrite E.
  - injection H as _ <-. right. by rewrite <- Hp.
Qed.

Lemma read_where_no_dash u x : read_where u = Some x → no_dash u.
Proof. unfold read_where. destruct (skip_keyword "where" u) eqn:E; [|done]. intros _. by eapply (skip_keyword_no_dash "where"). Qed.

Lemma update_agrees p u st st' :
  at_text p u → fst <$> finish_statement parse_update p = Some st → try_execute_update_fast u = Some st' → ttype (tok u) = TOKEN_UPDATE → st = st'.
Proof.
  intros Hp H Hf Ht. apply fst_some in H as (p' & H). apply finish_inv in H as [H He]. unfold try_execute_update_fast in Hf.
  destruct (skip_keyword "update" u) as [u1|] eqn:E1; [|done]. cbn [mbind option_bind] in Hf.
  destruct (read_sql_identifier u1 TABLE_SIZE) as [[name u2]|] eqn:E2; [|done]. cbn [mbind option_bind] in Hf.
  destruct (skip_keyword "set" u2) as [u3|] eqn:E3; [|done]. cbn [mbind option_bind] in Hf.
  destruct (read_sql_identifier u3 COL_SIZE) as [[col u4]|] eqn:E4; [|done]. cbn [mbind option_bind] in Hf.
  destruct (skip_char 61 u4) as [u5|] eqn:E5; [|done]. cbn [mbind option_bind] in Hf.
  destruct (read_sql_literal u5 VAL_SIZE) as [[v u6]|] eqn:E6; [|done]. cbn [mbind option_bind] in Hf.
  destruct (read_where u6) as [[wc wv]|] eqn:E7; [|done]. cbn [mbind option_bind] in Hf. injection Hf as <-.
  assert (u1 = after u) as -> by (by apply (same_keyword u _ "update" _ Ht E1)).
  unfold parse_update in H. step H. apply (advance_inv _ _ _ _ Hp) in E. clear Hp Ht.
  destruct (identifier_tok _ _ _ _ E2) as (Ename & Eu & Hname); [unfold TABLE_SIZE, TEXT_SIZE; lia|by eapply (skip_keyword_no_dash "set")|]. subst u2.
  step H. apply (identifier_inv _ _ _ _ _ E) in E0 as (_ & -> & Hp). clear E.
  step H. apply (expect_inv _ _ _ _ _ Hp) in E as [Ht E]. clear Hp. assert (u3 = after (after (after u))) as -> by (by apply (same_keyword _ _ "set" _ Ht E3)).
  destruct (identifier_tok _ _ _ _ E4) as (Ecol & Eu & Hcol); [unfold COL_SIZE, TEXT_SIZE; lia|by eapply skip_char_no_dash|]. subst u4.
  step H. apply (identifier_inv _ _ _ _ _ E) in E0 as (_ & -> & Hp). clear E Ht.
  step H. apply (expect_inv _ _ _ _ _ Hp) in E as [Ht E]. clear Hp. apply eq_tok, (same_char _ _ _ E5) in Ht as ->.
  step H. apply (literal_inv _ _ _ _ _ E) in E0 as (Hlit & -> & Hp). clear E.
  destruct (literal_tok _ _ _ _ E6) as (Ev & Eu & Hv); [unfold VAL_SIZE, TEXT_SIZE; lia|done|by eapply where_follows|]. rewrite Eu in Hp.
  destruct (where_agrees _ _ _ _ _ _ _ Hp H He E7) as [-> _]. rewrite Ename, Ecol, Ev.
  by rewrite (name_fits TABLE_SIZE name name), (name_fits COL_SIZE col col), (name_fits VAL_SIZE v v) by done.
Qed.

Lemma delete_agrees p u st st' :
  at_text p u → fst <$> finish_statement parse_delete p = Some st → try_execute_delete_fast u = Some st' → ttype (tok u) = TOKEN_DELETE → st = st'.
Proof.
  intros Hp H Hf Ht. apply fst_some in H as (p' & H). apply finish_inv in H as [H He]. unfold try_execute_delete_fast in Hf.
  destruct (skip_keyword "delete" u) as [u1|] eqn:E1; [|done]. cbn [mbind option_bind] in Hf.
  destruct (skip_keyword "from" u1) as [u2|] eqn:E2; [|done]. cbn [mbind option_bind] in Hf.
  destruct (read_sql_identifier u2 TABLE_SIZE) as [[name u3]|] eqn:E3; [|done]. cbn [mbind option_bind] in Hf.
  destruct (read_where u3) as [[wc wv]|] eqn:E4; [|done]. cbn [mbind option_bind] in Hf. injection Hf as <-.
  assert (u1 = after u) as -> by (by apply (same_keyword u _ "delete" _ Ht E1)).
  unfold parse_delete in H. step H. apply (advance_inv _ _ _ _ Hp) in E. clear Hp Ht.
  step H. apply (expect_inv _ _ _ _ _ E) in E0 as [Ht Hp]. clear E. assert (u2 = after (after u)) as -> by (by apply (same_keyword _ _ "from" _ Ht E2)).
  destruct (identifier_tok _ _ _ _ E3) as (Ename & Eu & Hname); [unfold TABLE_SIZE, TEXT_SIZE; lia|by eapply read_where_no_dash|]. subst u3.
  step H. apply (identifier_inv _ _ _ _ _ Hp) in E as (_ & -> & E). clear Hp Ht.
  destruct (where_agrees _ _ _ _ _ _ _ E H He E4) as [-> _]. rewrite Ename. by rewrite (name_fits TABLE_SIZE name name) by done.
Qed.

Lemma ident_tok u : ttype (tok u) = TOKEN_IDENTIFIER → ∃ c t, skip_space u = c :: t ∧ ident_start c = true.
Proof.
  unfold tok. destruct (skip_space u) as [|c t]; [done|]. intros H. exists c, t. split; [done|]. revert H. unfold lex_token.
  destruct (punct c) as [ty|] eqn:Ep.
  - cbn. intros ->. unfold punct in Ep. repeat (case_match; [done|]). done.
  - destruct (c =? QUOTE); [done|]. destruct (ident_start c); [done|]. by destruct (isdigit c).
Qed.

(** The name of the table in an INSERT, which the quick reader takes up to a space or a
    parenthesis. *)
Lemma table_tok u :
  let s := skip_space u in let len := span_len (fun c => negb (isspace c) && negb (c =? 40)) s in
  ttype (tok u) = TOKEN_IDENTIFIER → follows (ttype (tok (after u))) → (len < TABLE_SIZE)%nat → text (tok u) = take len s ∧ after u = drop len s.
Proof.
  cbv zeta. intros (c & t & Es & Hc)%ident_tok Hf Hl. unfold tok, after in *. rewrite (lex_ident c t Hc (skip_space u) Es) in *. clear Es.
  set (s := skip_space u) in *. clearbody s. cbn [fst snd text] in *.
  assert (span_len ident_char s = span_len (fun c => negb (isspace c) && negb (c =? 40)) s) as Es.
  { apply same_word; [| |done]; intros x Hx; [rewrite (ident_not_space x Hx); by destruct (Z.eqb_spec x 40) as [->|]|].
    by apply andb_true_iff in Hx as [Hx%negb_true_iff _]. }
  rewrite <- Es in *.
  split; [by apply (strcpy_take _ TABLE_SIZE)|done].
Qed.

Lemma insert_agrees p u st st' :
  at_text p u → fst <$> parse_insert p = Some st → try_execute_insert_fast u = Some st' → ttype (tok u) = TOKEN_INSERT → st = st'.
Proof.
  intros Hp H Hf Ht. apply fst_some in H as (p' & H). unfold try_execute_insert_fast in Hf. cbv zeta in Hf.
  destruct (skip_keyword "insert" u) as [u1|] eqn:E1; [|done]. cbn [mbind option_bind] in Hf.
  destruct (skip_keyword "into" u1) as [u2|] eqn:E2; [|done]. cbn [mbind option_bind] in Hf.
  assert (u1 = after u) as -> by (by apply (same_keyword u _ "insert" _ Ht E1)).
  unfold parse_insert in H. step H. apply (advance_inv _ _ _ _ Hp) in E. clear Hp Ht.
  step H. apply (expect_inv _ _ _ _ _ E) in E0 as [Ht Hp]. clear E. assert (u2 = after (after u)) as -> by (by apply (same_keyword _ _ "into" _ Ht E2)).
  step H. apply (identifier_inv _ _ _ _ _ Hp) in E as (Hid & -> & E). clear Hp Ht.
  step H. apply (expect_inv _ _ _ _ _ E) in E0 as [Ht Hp]. clear E.
  set (s := skip_space (after (after u))) in *. set (len := span_len _ s) in Hf.
  destruct ((len =? 0)%nat || (TABLE_SIZE <=? len)%nat) eqn:El; [done|]. apply orb_false_iff in El as [_ El]. apply Nat.leb_gt in El.
  destruct (table_tok (after (after u)) Hid) as [Ename Eu]; [left; by rewrite Ht|exact El|]. fold s len in Ename, Eu.
  destruct (skip_keyword "values" (drop len s)) as [u3|] eqn:E3; [|done]. rewrite <- Eu in E3.
  assert (u3 = after (after (after (after u)))) as -> by (by apply (same_keyword _ _ "values" _ Ht E3)). cbn [mbind option_bind] in Hf.
  step H. step H. rewrite (proj1 Hp) in E. apply bool_decide_eq_true, lparen_tok in E. rewrite E in Hf. cbn [mbind option_bind] in Hf. clear E.
  step H. unfold parse_values in E. rewrite (proj2 Hp) in E. set (row := after (after (after (after (after u))))) in *.
  destruct (find_values_close_paren false row) as [row_len|]; [|done]. cbn [mbind option_bind] in Hf.
  destruct (skip_space (drop (S row_len) row)); [|done]. destruct (ROW_DATA_SIZE <=? row_len)%nat eqn:Er; [done|]. apply Nat.leb_gt in Er. injection Hf as <-.
  destruct (only_trailing_space _); [|done]. injection E as <- _. step H. step H. step H. injection H as <- _. rewrite Ename.
  by rewrite !strcpy_take by done.
Qed.

(** Whatever quick reader takes a statement that the parser accepts, it reads the same. *)
Definition quick (s : cstr) : option Statement :=
  match try_execute_insert_fast s with
  | Some st => Some st
  | None => match try_execute_update_fast s with Some st => Some st | None => try_execute_delete_fast s end
  end.

Lemma quick_keyword s st' : quick s = Some st' → ∃ kw x l r, skip_keyword kw s = Some r ∧ lit kw = x :: l ∧
  ((x = 105 ∧ try_execute_insert_fast s = Some st') ∨ (x = 117 ∧ try_execute_update_fast s = Some st') ∨ (x = 100 ∧ try_execute_delete_fast s = Some st')).
Proof.
  unfold quick. intros Hq. destruct (try_execute_insert_fast s) eqn:E1.
  - injection Hq as ->. pose proof E1 as E. unfold try_execute_insert_fast in E. destruct (skip_keyword "insert" s) eqn:Ek; [|done]. eexists "insert"%string, 105, _, _. eauto.
  - destruct (try_execute_update_fast s) eqn:E2.
    + injection Hq as ->. pose proof E2 as E. unfold try_execute_update_fast in E. destruct (skip_keyword "update" s) eqn:Ek; [|done]. eexists "update"%string, 117, _, _. eauto 10.
    + pose proof Hq as E. unfold try_execute_delete_fast in E. destruct (skip_keyword "delete" s) eqn:Ek; [|done]. eexists "delete"%string, 100, _, _. eauto 10.
Qed.

Lemma quick_no_bom s st : quick s = Some st → bom s = false.
Proof. intros (kw & x & l & r & Hk & El & Hc)%quick_keyword. apply (keyword_no_bom kw s r x l El); [by destruct Hc as [[-> _]|[[-> _]|[-> _]]]|exact Hk]. Qed.

Lemma quick_agrees s st st' : parse_statement s = Some st → quick s = Some st' → st' = st.
Proof.
  intros (p & Hp & H)%parse_statement_inv Hq. pose proof (quick_no_bom _ _ Hq) as Hbom. apply quick_keyword in Hq as (kw & x & l & r & Hk & El & Hc).
  rewrite rest_init, Hbom in Hp, H.
  assert (∀ kw' y l' ty, ttype (tok s) = ty → keyword_name ty ≠ [] → map toupper (lit kw') = keyword_name ty → lit kw' = y :: l' → tolower x = tolower y) as Htwo.
  { intros kw' y l' ty H1 H2 H3 H4. exact (two_keywords _ _ _ _ _ _ _ _ _ Hk (keyword_tok s ty kw' H1 H2 H3) El H4). }
  inversion H as [Hm Ht|Hm Ht|Hm Ht|Hm Ht]; symmetry in Ht.
  - exfalso. specialize (Htwo "select"%string _ _ _ Ht ltac:(done) eq_refl eq_refl). by destruct Hc as [[-> _]|[[-> _]|[-> _]]].
  - specialize (Htwo "insert"%string _ _ _ Ht ltac:(done) eq_refl eq_refl). destruct Hc as [[-> Hc]|[[-> _]|[-> _]]]; [|done|done]. symmetry. by eapply insert_agrees.
  - specialize (Htwo "update"%string _ _ _ Ht ltac:(done) eq_refl eq_refl). destruct Hc as [[-> _]|[[-> Hc]|[-> _]]]; [done| |done]. symmetry. by eapply update_agrees.
  - specialize (Htwo "delete"%string _ _ _ Ht ltac:(done) eq_refl eq_refl). destruct Hc as [[-> _]|[[-> _]|[-> Hc]]]; [done|done|]. symmetry. by eapply delete_agrees.
Qed.

(** * The counting allocator *)

From stdpp Require Import gmap.
Local Open Scope Z_scope.
Import Cli.Memtrack.

(** The bytes that were asked for in the blocks in use. *)
Definition total (m : gmap Z Z) : Z := map_fold (fun _ n acc => n + acc) 0 m.

Lemma total_insert m b n : m !! b = None → total (<[b := n]> m) = n + total m.
Proof. intros H. unfold total. rewrite map_fold_insert_L; [done| |done]. intros. lia. Qed.

Lemma total_delete m b n : m !! b = Some n → total m = n + total (delete b m).
Proof. intros H. unfold total. rewrite (map_fold_delete_L _ _ b n m); [done| |done]. intros. lia. Qed.

Definition sizes_ok (m : gmap Z Z) : Prop := map_Forall (fun _ n => 0 ≤ n) m.

Lemma total_nonneg m : sizes_ok m → 0 ≤ total m.
Proof.
  induction m as [|b n m Hb IH] using map_ind; [done|]. intros H. rewrite total_insert by done. apply map_Forall_insert in H as [Hn Hm]; [|done].
  specialize (IH Hm). lia.
Qed.

(** The counter of the bytes in use is right, and the peak is at least that. *)
Record counted (h : Heap) : Prop := {
  co_sizes : sizes_ok (blocks h);
  co_fits : total (blocks h) < U64;
  co_live : live_requested h = total (blocks h);
  co_peak : live_requested h ≤ peak_requested h;
}.

(** The calls of the program, with what the system answers. *)
Inductive Call := Malloc (size : Z) (p : option Z) | Calloc (nmemb size : Z) (p : option Z) | Realloc (ptr : option Z) (size : Z) (p : option Z) | Free (ptr : option Z).

Definition call (c : Call) (h : Heap) : Heap :=
  match c with
  | Malloc size p => (bench_malloc size p h).2
  | Calloc nmemb size p => (bench_calloc nmemb size p h).2
  | Realloc ptr size p => (bench_realloc ptr size p h).2
  | Free ptr => bench_free ptr h
  end.

Definition in_use (h : Heap) (ptr : option Z) : Prop := match ptr with Some b => is_Some (blocks h !! b) | None => True end.
Definition fresh (m : gmap Z Z) (p : option Z) : Prop := match p with Some b => m !! b = None | None => True end.

(** What is asked for are numbers of the type size_t, pointers are of blocks in use, the
    system gives blocks that are not, and it has less than 2^64 bytes to give. *)
Definition allowed (c : Call) (h : Heap) : Prop :=
  match c with
  | Malloc size p => 0 ≤ size < U64 ∧ fresh (blocks h) p ∧ (p ≠ None → total (blocks h) + size < U64)
  | Calloc nmemb size p => 0 ≤ nmemb < U64 ∧ 0 ≤ size < U64 ∧ fresh (blocks h) p ∧ (p ≠ None → nmemb * size < U64 → total (blocks h) + nmemb * size < U64)
  | Realloc None size p => 0 ≤ size < U64 ∧ fresh (blocks h) p ∧ (p ≠ None → total (blocks h) + size < U64)
  | Realloc (Some b) size p => in_use h (Some b) ∧ 0 < size < U64 ∧ fresh (delete b (blocks h)) p ∧ (p ≠ None → total (delete b (blocks h)) + size < U64)
  | Free ptr => in_use h ptr
  end.

Lemma peak_counted m live peak : sizes_ok m → live = total m → total m < U64 → counted (update_peak (mkHeap m live peak)).
Proof. intros Hm -> Hf. unfold update_peak. cbn. destruct (Z.ltb_spec peak (total m)); constructor; cbn; try done; lia. Qed.

Lemma add_block h m b n peak :
  sizes_ok m → m !! b = None → 0 ≤ n → total m + n < U64 → h = mkHeap (<[b := n]> m) (wrap64 (total m + n)) peak → counted (update_peak h).
Proof.
  intros Hm Hb Hn Hf ->. pose proof (total_nonneg m Hm). apply peak_counted.
  - by apply map_Forall_insert_2.
  - rewrite total_insert by done. unfold wrap64. rewrite Z.mod_small by (unfold U64 in *; lia). lia.
  - rewrite total_insert by done. lia.
Qed.

Lemma malloc_counted h size p :
  counted h → 0 ≤ size → fresh (blocks h) p → (p ≠ None → total (blocks h) + size < U64) → counted (bench_malloc size p h).2.
Proof.
  intros Hc Hs Hp Hf. pose proof Hc as []. unfold bench_malloc. destruct (_ <? size); [done|]. destruct p as [b|]; [|done]. cbn [snd].
  rewrite co_live0. apply (add_block _ (blocks h) b size (peak_requested h)); [done|exact Hp|lia|by apply Hf|done].
Qed.

Lemma less_counted h b n : counted h → blocks h !! b = Some n → less n h = total (delete b (blocks h)) ∧ sizes_ok (delete b (blocks h)).
Proof.
  intros [H1 H2 H3 H4] Hb. pose proof (total_delete _ _ _ Hb) as E. assert (sizes_ok (delete b (blocks h))) as Hd by (by apply map_Forall_delete).
  split; [|done]. pose proof (total_nonneg _ Hd). unfold less. destruct (Z.leb_spec n (live_requested h)); lia.
Qed.

(** No call, successful or not, makes the counters of the allocator wrong, as long as no
    block is given back by [realloc] with the size 0: the live bytes are the sum of what
    was asked for in the blocks in use, and the peak is never below. *)
Theorem memtrack_counts (c : Call) (h : Heap) : counted h → allowed c h → counted (call c h).
Proof.
  intros Hc Ha. destruct c as [size p|nmemb size p|[b|] size p|[b|]]; cbn [call allowed] in *.
  - destruct Ha as (H1 & H2 & H3). apply malloc_counted; [done|lia|done|done].
  - destruct Ha as (H1 & H2 & H3 & H4). unfold bench_calloc. destruct (negb (nmemb =? 0) && _) eqn:E; [done|].
    assert (0 ≤ nmemb * size < U64) as Hm.
    { split; [nia|]. destruct (Z.eqb_spec nmemb 0) as [->|Hn]; [unfold U64; lia|]. cbn [negb andb] in E. apply Z.ltb_ge in E.
      pose proof (Z.mul_div_le (U64 - 1) nmemb ltac:(lia)). nia. }
    unfold wrap64. rewrite Z.mod_small by (unfold U64 in *; lia). apply malloc_counted; [done|lia|done|]. intros Hne. apply H4; [done|lia].
  - destruct Ha as ([n Hb] & Hs & Hp & Hf). unfold bench_realloc. rewrite (proj2 (Z.eqb_neq size 0)) by lia. destruct (_ <? size); [done|].
    destruct p as [b'|]; [|done]. cbn [snd]. rewrite Hb. cbn [default from_option id]. destruct (less_counted h b n Hc Hb) as [-> Hd].
    apply (add_block _ (delete b (blocks h)) b' size (peak_requested h)); [done|exact Hp|lia|by apply Hf|done].
  - destruct Ha as (H1 & H2 & H3). apply malloc_counted; [done|lia|done|done].
  - destruct Ha as [n Hb]. unfold bench_free. rewrite Hb. destruct (less_counted h b n Hc Hb) as [E Hd].
    pose proof (total_delete _ _ _ Hb). assert (0 ≤ n) as Hn by exact (co_sizes _ Hc b n Hb). destruct Hc as [H1 H2 H3 H4]. constructor; cbn; [done|lia|done|cbn in *; lia].
  - done.
Qed.

Lemma empty_counted : counted (mkHeap ∅ 0 0).
Proof. constructor; cbn; [done|unfold total; rewrite map_fold_empty; unfold U64; lia|done|done]. Qed.

(** [realloc] with the size 0 gives the block back and keeps it counted. *)
Example realloc_to_nothing_stays_counted :
  let h := (bench_realloc (Some 16) 0 None (bench_malloc 100 (Some 16) (mkHeap ∅ 0 0)).2).2 in
  blocks h = ∅ ∧ live_requested h = 100.
Proof. split; vm_compute; reflexivity. Qed.
