(* ===== verification/ScriptProofs.v ===== *)
(** How the command-line program cuts a script into statements. *)

From Stdlib Require Import String.
From S2P Require Import Prelude CString Lexer Parser ParserProofs Store StoreProofs DeltaLogProofs Executor Cli CliProofs.
From stdpp Require Import base numbers list option.
Local Open Scope Z_scope.

(** ** The parser reads only what is left of its text *)

Definition alike (p p' : Parser) : Prop := current_token p = current_token p' ∧ rest (lexer p) = rest (lexer p').

Definition stable {A} (m : parse A) : Prop := ∀ p p', alike p p' →
  match m p, m p' with
  | Some (x, q), Some (y, q') => x = y ∧ alike q q'
  | None, None => True
  | _, _ => False
  end.

Lemma stable_ret {A} (x : A) : stable (mret x).
Proof. by intros p p' H. Qed.

Lemma stable_fail {A} : stable (@pfail A).
Proof. by intros p p' H. Qed.

Lemma stable_peek : stable peek.
Proof. intros p p' H. split; [apply H|done]. Qed.

Lemma stable_guard b : stable (guardb b).
Proof. intros p p' H. unfold guardb. by destruct b. Qed.

Lemma stable_bind {A B} (m : parse A) (k : A → parse B) : stable m → (∀ x, stable (k x)) → stable (m ≫= k).
Proof.
  intros Hm Hk p p' H. specialize (Hm p p' H). unfold mbind, parse_bind. destruct (m p) as [[x q]|], (m p') as [[y q']|]; try done.
  destruct Hm as [<- Hq]. by apply Hk.
Qed.

Lemma stable_advance : stable advance_parser.
Proof.
  intros p p' [_ Hr]. unfold advance_parser. destruct (next_at (lexer p)) as (l & -> & E), (next_at (lexer p')) as (l' & -> & E').
  split; [done|]. split; cbn; congruence.
Qed.

Lemma stable_values : stable parse_values.
Proof.
  intros p p' [Ht Hr]. unfold parse_values. rewrite <- Hr. destruct (find_values_close_paren false (rest (lexer p))) as [len|]; [|done].
  destruct (only_trailing_space _); [|done]. split; [done|]. split; [done|]. unfold rest in *. cbn. rewrite <- !Nat.add_assoc, <- !drop_drop. by rewrite Hr.
Qed.

Create HintDb stable.
#[local] Hint Resolve stable_ret stable_fail stable_peek stable_guard stable_advance stable_values : stable.

Ltac stabilize := repeat first [apply stable_bind; [|intros ?] | progress auto with stable | case_match].

Lemma stable_expect ty : stable (expect_token ty).
Proof. unfold expect_token. stabilize. Qed.
Lemma stable_identifier n : stable (parse_identifier n).
Proof. unfold parse_identifier. stabilize. Qed.
Lemma stable_literal n : stable (parse_literal n).
Proof. unfold parse_literal. stabilize. Qed.
#[local] Hint Resolve stable_expect stable_identifier stable_literal : stable.

Lemma stable_condition n : stable (parse_one_condition n).
Proof. unfold parse_one_condition. stabilize. Qed.
#[local] Hint Resolve stable_condition : stable.

Lemma stable_conditions fuel cs : stable (parse_conditions fuel cs).
Proof. revert cs; induction fuel as [|fuel IH]; intros cs; cbn [parse_conditions]; stabilize. Qed.
#[local] Hint Resolve stable_conditions : stable.

Lemma stable_where st : stable (parse_where_clause st).
Proof. unfold parse_where_clause. stabilize. Qed.
#[local] Hint Resolve stable_where : stable.

Lemma stable_cols fuel cs : stable (parse_select_cols fuel cs).
Proof. revert cs; induction fuel as [|fuel IH]; intros cs; cbn [parse_select_cols]; stabilize. Qed.
#[local] Hint Resolve stable_cols : stable.

Lemma stable_select : stable (finish_statement parse_select).
Proof. unfold finish_statement, parse_select. stabilize. Qed.
Lemma stable_insert : stable parse_insert.
Proof. unfold parse_insert. stabilize. Qed.
Lemma stable_update : stable (finish_statement parse_update).
Proof. unfold finish_statement, parse_update. stabilize. Qed.
Lemma stable_delete : stable (finish_statement parse_delete).
Proof. unfold finish_statement, parse_delete. stabilize. Qed.

Lemma stable_fst {A} (m : parse A) p p' : stable m → alike p p' → fst <$> m p = fst <$> m p'.
Proof. intros Hm H. specialize (Hm p p' H). destruct (m p) as [[x q]|], (m p') as [[y q']|]; try done. by destruct Hm as [-> _]. Qed.

Lemma parsed_stable p p' st ty : alike p p' → parsed p st ty → parsed p' st ty.
Proof.
  intros H [Hm|Hm|Hm|Hm]; constructor; rewrite <- Hm; symmetry; (apply stable_fst; [|done]);
    [apply stable_select|apply stable_insert|apply stable_update|apply stable_delete].
Qed.

(** ** White space before a statement *)

(** A text that the parser reads as [st], its byte order mark aside. *)
Definition reads_as (u : cstr) (st : Statement) : Prop := ∃ p, at_text p u ∧ parsed p st (ttype (tok u)).

Lemma parse_reads s st : parse_statement s = Some st → reads_as (rest (init_lexer s)) st.
Proof. apply parse_statement_inv. Qed.

Lemma reads_parse u s st : skip_space u = skip_space s → bom s = false → reads_as u st → parse_statement s = Some st.
Proof.
  intros Es Hb (p & [Hp1 Hp2] & Hp). assert (tok u = tok s) as Et by (unfold tok; by rewrite Es). assert (after u = after s) as Ea by (unfold after; by rewrite Es).
  unfold parse_statement. destruct (next_at (init_lexer s)) as (l & -> & Hl). rewrite rest_init, Hb in *. rewrite Et in Hp.
  apply (parsed_stable p (mkParser l (tok s))) in Hp; [|split; cbn; congruence]. by inversion Hp as [Hm Ht|Hm Ht|Hm Ht|Hm Ht].
Qed.

Lemma reads_no_bom u st : reads_as u st → bom (skip_space u) = false ∧ skip_space u ≠ [].
Proof.
  intros (p & _ & H). unfold tok in H. destruct (skip_space u) as [|a s]; [by inversion H|]. split; [|done].
  destruct (bom (a :: s)) eqn:E; [|done]. unfold bom in E. repeat (case_match; try done). bool_to_prop. subst. by inversion H.
Qed.

Lemma skip_space_spaces w s : forallb isspace w = true → skip_space (w ++ s) = skip_space s.
Proof. induction w as [|c w IH]; [done|]. cbn. intros [H1 H2]%andb_true_iff. rewrite H1. by apply IH. Qed.

Lemma bom_space w s : forallb isspace w = true → w ≠ [] → bom (w ++ s) = false.
Proof.
  destruct w as [|c w]; [done|]. cbn. intros [H _]%andb_true_iff _. destruct (w ++ s) as [|b [|d x]]; try done.
  destruct (c =? 239) eqn:E; [|done]. apply Z.eqb_eq in E as ->. done.
Qed.

Lemma strip_bom b :
  match b with a :: b' :: c :: s' => if (a =? 239) && (b' =? 187) && (c =? 191) then s' else b | _ => b end = if bom b then drop 3 b else b.
Proof. by destruct b as [|a [|b' [|c s']]]. Qed.

(** What the program does with a text that is a statement behind white space. *)
Lemma text_executes w b st :
  parse_statement (w ++ b) = Some st → forallb isspace w = true → execute_sql_text b = [Run st] ∧ ∀ st', quick b = Some st' → st' = st.
Proof.
  intros Hp Hw. pose proof (parse_reads _ _ Hp) as Hr. rewrite rest_init in Hr.
  set (u := if bom b then drop 3 b else b).
  assert (∃ x, reads_as x st ∧ skip_space x = skip_space u ∧ (bom b = false ∨ x = u)) as (x & Hx & Ex & Hc).
  { destruct (decide (w = [])) as [->|Hne]; [cbn [app] in Hr; exists u; split; [exact Hr|by auto]|].
    rewrite bom_space in Hr by done. exists (w ++ b). pose proof (reads_no_bom _ _ Hr) as [Hb _].
    rewrite skip_space_spaces in Hb by done. split; [done|]. rewrite skip_space_spaces by done.
    assert (bom b = false) as Hb'.
    { destruct (bom b) eqn:E; [|done]. unfold bom in E. destruct b as [|c1 [|c2 [|c3 b]]]; try done. bool_to_prop. subst. done. }
    unfold u. rewrite Hb'. by auto. }
  pose proof (reads_no_bom _ _ Hx) as [Hb Hne]. rewrite Ex in Hb, Hne.
  assert (parse_statement (skip_space u) = Some st) as Hs by (apply (reads_parse x); [by rewrite skip_space_idem|done|done]).
  split.
  - unfold execute_sql_text. replace (match b with a :: b' :: c :: s' => if (a =? 239) && (b' =? 187) && (c =? 191) then s' else b | _ => b end) with u.
    2:{ symmetry. apply strip_bom. }
    destruct (skip_space u) as [|c t] eqn:E; [done|]. destruct (try_execute_insert_fast (c :: t)) as [st'|] eqn:Ei.
    + f_equal. f_equal. apply (quick_agrees (c :: t)); [done|]. unfold quick. by rewrite Ei.
    + by rewrite Hs.
  - intros st' Hq. assert (bom b = false) as Hb' by (by eapply quick_no_bom).
    apply (quick_agrees b); [|done]. apply (reads_parse x); [|done|done]. rewrite Ex. unfold u. by rewrite Hb'.
Qed.

(** ** Cutting a script *)

(** No semicolon and no comment outside quotes, and the quotes are closed; [q]: the text
    starts inside quotes. *)
Fixpoint plain (q : bool) (s : cstr) : bool :=
  match s with
  | [] => negb q
  | c :: s' =>
      let q1 := if c =? QUOTE then negb q else q in
      negb ((c =? 45) && negb q && match s' with d :: _ => d =? 45 | [] => false end) && negb ((c =? 59) && negb q1) && plain q1 s'
  end.

Definition script (ps : list cstr) (tail : cstr) : cstr := concat (map (fun p => p ++ [59]) ps) ++ tail.

(** A piece of a script that is the statement [st]. *)
Definition piece (p : cstr) (st : Statement) : Prop :=
  plain false p = true ∧ (length p ≤ MAX_SQL_LEN - 1)%nat ∧ parse_statement p = Some st.

(** What is left to do, with [text] unread: the statements [sts]. *)
Inductive pending (tail : cstr) : Scan → cstr → list Statement → Prop :=
| pending_end b text :
    forallb isspace b = true → forallb isspace text = true → (length (b ++ text) ≤ MAX_SQL_LEN - 1)%nat →
    pending tail (mkScan b false false) text []
| pending_piece w b q post st ps sts :
    forallb isspace w = true → (b = [] → q = false) → plain q post = true → (length (b ++ post) ≤ MAX_SQL_LEN - 1)%nat →
    parse_statement (w ++ b ++ post) = Some st → Forall2 piece ps sts →
    pending tail (mkScan b q false) (post ++ 59 :: script ps tail) (st :: sts).

Section script.
Context (tail : cstr) (Htail : forallb isspace tail = true) (Hlen : (length tail ≤ MAX_SQL_LEN - 1)%nat).

Lemma pending_script ps sts : Forall2 piece ps sts → pending tail (mkScan [] false false) (script ps tail) sts.
Proof.
  destruct 1 as [|p st ps sts (H1 & H2 & H3) H]; [by constructor|].
  unfold script. cbn [map concat]. rewrite <- !app_assoc. cbn [app]. by apply (pending_piece tail [] [] false p).
Qed.

Lemma space_facts c : isspace c = true → (c =? 45) = false ∧ (c =? QUOTE) = false ∧ (c =? 59) = false.
Proof. unfold isspace, QUOTE. intros H. bool_to_prop. lia. Qed.

Lemma plain_space w q s : forallb isspace w = true → plain q (w ++ s) = plain q s.
Proof.
  induction w as [|c w IH]; [done|]. cbn. intros [Hc Hw]%andb_true_iff. destruct (space_facts c Hc) as (-> & -> & ->). by apply IH.
Qed.

(** The loop over the characters of a line. *)
Lemma scan_chars_pending line rest z sts :
  pending tail z (line ++ rest) sts →
  ∃ sts1 sts2 z', scan_chars line z = (map Run sts1, z') ∧ sts = sts1 ++ sts2 ∧ pending tail z' rest sts2.
Proof using Htail Hlen.
  revert z sts; induction line as [|c line IH]; intros z sts H; [by exists [], sts, z|].
  inversion H as [b text Hb Htx Hl Ez Et|w b q post st ps sts' Hw Hq Hp Hl Hst Hps Ez Et]; subst.
  - cbn [app forallb] in Htx. apply andb_true_iff in Htx as [Hc Htx]. destruct (space_facts c Hc) as (E1 & E2 & E3).
    cbn [scan_chars Cli.q buf]. rewrite E1, E2, E3. cbn [andb]. cbn [app] in Hl. rewrite length_app in Hl. cbn [length] in Hl.
    rewrite (proj2 (Nat.ltb_lt _ _)) by lia. apply IH. constructor; [rewrite forallb_app, Hb; cbn; by rewrite Hc|done|].
    rewrite !length_app in *. cbn [length]. lia.
  - destruct post as [|d post].
    + cbn [app] in Et. injection Et as <- Et. cbn [plain] in Hp. apply negb_true_iff in Hp as ->.
      cbn [scan_chars Cli.q]. change (59 =? 45) with false. change (59 =? QUOTE) with false. change (59 =? 59) with true. cbn [andb negb].
      destruct (IH (mkScan [] false false) sts') as (s1 & s2 & z' & -> & -> & Hz); [rewrite <- Et; by apply pending_script|].
      exists (st :: s1), s2, z'. split; [|done]. unfold end_statement. cbn [too_long buf]. rewrite app_nil_r in Hst.
      destruct (text_executes w b st Hst Hw) as [-> _]. done.
    + cbn [app] in Et. injection Et as -> Et. cbn [plain] in Hp. apply andb_true_iff in Hp as [[H1 H2]%andb_true_iff Hp].
      cbn [scan_chars Cli.q buf too_long]. rewrite length_app in Hl. cbn [length] in Hl.
      assert ((c =? 45) && negb q && match line with d :: _ => d =? 45 | [] => false end = false) as ->.
      { apply negb_true_iff in H1. destruct ((c =? 45) && negb q); [|done]. cbn [andb] in *. destruct line as [|e line]; [done|].
        cbn [app] in Et. destruct post as [|d post]; cbn [app] in Et; injection Et as <- _; done. }
      apply negb_true_iff in H2. rewrite H2. rewrite (proj2 (Nat.ltb_lt _ _)) by lia. apply IH. rewrite <- Et.
      apply (pending_piece tail w); [done|by destruct b|done|rewrite !length_app in *; cbn [length] in *; lia| |done].
      rewrite <- app_assoc. exact Hst.
Qed.

Lemma space_prefix w post T X :
  forallb isspace w = true → post ++ 59 :: T = w ++ X → ∃ post', post = w ++ post' ∧ X = post' ++ 59 :: T.
Proof.
  revert post; induction w as [|c w IH]; intros post; [by exists post|]. cbn [forallb]. intros [Hc Hw]%andb_true_iff E.
  destruct post as [|d post]; cbn [app] in E; injection E as Ec E; [by subst c|]. subst d.
  destruct (IH post Hw E) as (post' & -> & ->). by exists post'.
Qed.

(** White space at the start of what is left, outside a statement. *)
Lemma pending_space w text sts :
  forallb isspace w = true → pending tail (mkScan [] false false) (w ++ text) sts → pending tail (mkScan [] false false) text sts.
Proof.
  intros Hw H. inversion H as [b t Hb Htx Hl Ez Et|w' b q post st ps sts' Hw' Hq Hp Hl Hst Hps Ez Et]; subst.
  - rewrite forallb_app in Htx. apply andb_true_iff in Htx as [_ Htx]. constructor; [done|done|]. rewrite !length_app in *. cbn [length] in *. lia.
  - destruct (space_prefix _ _ _ _ Hw Et) as (post' & -> & ->). rewrite plain_space in Hp by done. cbn [app] in *. rewrite length_app in Hl.
    apply (pending_piece tail (w' ++ w)); [by rewrite forallb_app, Hw'|done|done|cbn [app]; lia| |done]. cbn [app]. by rewrite <- app_assoc.
Qed.

Lemma skip_space_split s : ∃ w, s = w ++ skip_space s ∧ forallb isspace w = true.
Proof.
  induction s as [|c s (w & E & Hw)]; [by exists []|]. cbn [skip_space]. destruct (isspace c) eqn:Ec; [|by exists []].
  exists (c :: w). cbn. rewrite Ec. by rewrite <- E.
Qed.

Lemma semicolons_plain i q s x : plain q (s ++ x) = true → semicolons i q s = [].
Proof.
  revert i q; induction s as [|c s IH]; intros i q; [done|]. cbn [app plain semicolons]. intros [[_ H]%andb_true_iff Hp]%andb_true_iff.
  apply negb_true_iff in H. rewrite H. by apply (IH (S i)).
Qed.

Lemma semicolons_at i q s T : plain q s = true → semicolons i q (s ++ 59 :: T) = (i + length s)%nat :: semicolons (S (i + length s)) false T.
Proof.
  revert i q; induction s as [|c s IH]; intros i q; cbn [app plain semicolons length].
  - intros H%negb_true_iff. subst q. rewrite Nat.add_0_r. done.
  - intros [[_ H]%andb_true_iff Hp]%andb_true_iff. apply negb_true_iff in H. rewrite H, (IH (S i)) by done. by rewrite Nat.add_succ_r.
Qed.

(** The events of the text of a line before its semicolon. *)
Definition line_events (s : cstr) : list Event := match quick s with Some st => [Run st] | None => execute_sql_text s end.

(** Nothing, or a comment. *)
Definition no_statement (s : cstr) : bool := match s with [] => true | a :: b :: _ => (a =? 45) && (b =? 45) | _ => false end.

Lemma line_fast_spec line :
  execute_sql_line_fast line =
    let s := skip_space line in
    if no_statement s then Some []
    else match semicolons 0 false s with
         | [k] => if forallb isspace (drop (S k) s) then Some (line_events (take k s)) else None
         | _ => None
         end.
Proof.
  unfold execute_sql_line_fast, line_events, quick. cbv zeta. fold (no_statement (skip_space line)). case_match; [done|]. repeat (case_match; try done).
Qed.

Lemma skip_space_head s c t : skip_space s = c :: t → isspace c = false.
Proof. induction s as [|d s IH]; [done|]. cbn [skip_space]. destruct (isspace d) eqn:E; [done|]. by intros [= <- _]. Qed.

(** Where the text and a line that starts it part. *)
Lemma split_at {A} (p : list A) x T s rest : p ++ x :: T = s ++ rest →
  (∃ p', p = s ++ p' ∧ rest = p' ++ x :: T) ∨ (∃ T1, s = p ++ x :: T1 ∧ T = T1 ++ rest).
Proof.
  revert s; induction p as [|y p IH]; intros [|z s]; cbn [app]; intros E.
  - left. by exists [].
  - injection E as <- E. right. by exists s.
  - left. by exists (y :: p).
  - injection E as <- E. destruct (IH s E) as [(p' & -> & ->)|(T1 & -> & ->)]; [left; by exists p'|right; by exists T1].
Qed.

(** A line that is done at once. *)
Lemma line_fast_pending line rest es sts :
  execute_sql_line_fast line = Some es → pending tail (mkScan [] false false) (line ++ rest) sts →
  ∃ sts1 sts2, es = map Run sts1 ∧ sts = sts1 ++ sts2 ∧ pending tail (mkScan [] false false) rest sts2.
Proof using Htail Hlen.
  rewrite line_fast_spec. cbv zeta. intros He H. destruct (skip_space_split line) as (w & El & Hw). pose proof (skip_space_head line) as Hhd.
  set (s := skip_space line) in *. rewrite El, <- app_assoc in H. apply (pending_space w) in H; [|done]. clearbody s. clear El Hw w line.
  destruct s as [|c s]; [injection He as <-; by exists [], sts|]. specialize (Hhd c s eq_refl).
  inversion H as [b t Hb Htx Hl Ez Et|w b q post st ps sts' Hw Hq Hp Hl Hst Hps Ez Et]; subst.
  { cbn [app forallb] in Htx. apply andb_true_iff in Htx as [Hc _]. congruence. }
  clear H. cbn [app] in *. destruct (split_at post 59 (script ps tail) (c :: s) rest) as [(p' & -> & ->)|(T1 & Es & ET)]; [exact Et| |].
  - exfalso. cbn [app plain] in Hp. pose proof Hp as [[H1 _]%andb_true_iff _]%andb_true_iff.
    destruct s as [|d s]; [|cbn [app] in H1; rewrite andb_true_r in H1].
    + change (no_statement [c]) with false in He. by rewrite (semicolons_plain 0 false [c] p') in He by exact Hp.
    + change (no_statement (c :: d :: s)) with ((c =? 45) && (d =? 45)) in He. destruct ((c =? 45) && (d =? 45)); [done|].
      by rewrite (semicolons_plain 0 false (c :: d :: s) p') in He by exact Hp.
  - rewrite Es in He. rewrite semicolons_at in He by done. cbn [Nat.add] in He.
    assert (no_statement (post ++ 59 :: T1) = false) as Hcm.
    { destruct post as [|a [|b post]]; cbn [app]; [by destruct T1|cbn [no_statement]; by rewrite andb_false_r|]. cbn [plain] in Hp. apply andb_true_iff in Hp as [[H1 _]%andb_true_iff _].
      apply negb_true_iff in H1. rewrite andb_true_r in H1. exact H1. }
    rewrite Hcm in He. clear Hcm. destruct (semicolons _ false T1); [|done].
    rewrite drop_app_ge, take_app_length in He by lia. replace (S (length post) - length post)%nat with 1%nat in He by lia. cbn [drop] in He. rewrite drop_0 in He.
    destruct (forallb isspace T1) eqn:Hsp; [|done]. injection He as <-. exists [st], sts'. split; [|split; [done|]].
    + destruct (text_executes w post st Hst Hw) as [Hx Hqk]. unfold line_events. destruct (quick post) as [st'|]; [by rewrite (Hqk st')|exact Hx].
    + apply (pending_space T1); [done|]. rewrite <- ET. by apply pending_script.
Qed.

Lemma fgets_splits n s l r : fgets n s = (l, r) → s = l ++ r.
Proof.
  revert s l r; induction n as [|n IH]; intros s l r; [by intros [= <- <-]|]. destruct s as [|c s]; [by intros [= <- <-]|]. cbn [fgets].
  destruct (c =? NL); [by intros [= <- <-]|]. destruct (fgets n s) as [l' r'] eqn:E. intros [= <- <-]. cbn. f_equal. by apply IH.
Qed.

Lemma skip_space_all b : forallb isspace b = true → skip_space b = [].
Proof. induction b as [|c b IH]; [done|]. cbn. intros [Hc Hb]%andb_true_iff. rewrite Hc. by apply IH. Qed.

(** The whole loop. *)
Lemma scan_lines_pending fuel text z sts :
  (length text < fuel)%nat → pending tail z text sts → scan_lines fuel text z = map Run sts.
Proof using Htail Hlen.
  revert text z sts; induction fuel as [|fuel IH]; intros text z sts Hf H; [lia|]. cbn [scan_lines].
  destruct text as [|c tx] eqn:Et.
  - inversion H as [b t Hb Htx Hl Ez Et'|w b q post st ps sts' Hw Hq Hp Hl Hst Hps Ez Et']; subst; [|by destruct post].
    cbn [buf]. destruct b as [|c b2] eqn:Eb; [done|]. rewrite <- Eb in *. unfold end_statement. cbn [too_long buf]. unfold execute_sql_text.
    rewrite strip_bom. pose proof (bom_space b [] Hb ltac:(by subst)) as Hbom. rewrite app_nil_r in Hbom. rewrite Hbom. by rewrite skip_space_all.
  - assert (text ≠ []) as Hne by (by rewrite Et). rewrite <- Et in *. clear Et. assert (0 < MAX_SQL_LEN - 1)%nat as H0 by (unfold MAX_SQL_LEN; lia).
    destruct (fgets (MAX_SQL_LEN - 1) text) as [line rest] eqn:Ef.
    pose proof (fgets_consumes _ _ _ _ H0 Hne Ef) as Hr.
    rewrite (fgets_splits _ _ _ _ Ef) in H. clear Ef. destruct (match buf z with [] => _ | _ => None end) as [es|] eqn:El.
    + destruct (buf z) eqn:Eb; [|done]. assert (z = mkScan [] false false) as ->.
      { inversion H as [b t Hb Htx Hl Ez Et'|w b q post st ps sts' Hw Hq Hp Hl Hst Hps Ez Et']; subst; cbn in Eb; subst; [done|]. by rewrite Hq. }
      destruct (line_fast_pending line rest es sts El H) as (s1 & s2 & -> & -> & Hz). rewrite map_app. f_equal. apply IH; [lia|done].
    + destruct (scan_chars_pending line rest z sts H) as (s1 & s2 & z' & -> & -> & Hz). rewrite map_app. f_equal. apply IH; [lia|done].
Qed.
End script.

(** Executing such a script is executing its statements, one after the other. *)
Fixpoint execute_all (io : nat → bool) (mt : cstr → Z * Z) (sts : list Statement) (e : Exec) : option (list Reply * Exec) :=
  match sts with
  | [] => Some ([], e)
  | st :: sts' => '(r, e1) ← execute_statement io mt st e; '(rs, e2) ← execute_all io mt sts' e1; Some (r :: rs, e2)
  end.

Lemma run_events_all io mt sts e : run_events io mt (map Run sts) e = execute_all io mt sts e.
Proof.
  revert e; induction sts as [|st sts IH]; intros e; [done|]. cbn [map run_events execute_all].
  destruct (execute_statement io mt st e) as [[r e1]|]; [|done]. cbn [mbind option_bind]. by rewrite IH.
Qed.

(** C36. A script is the sequence of its statements, however it is laid out: when its text is
    a number of statements that the parser accepts, each ended by a semicolon, with
    semicolons and double hyphens only inside quotes, the program executes exactly these
    statements in this order and then closes the table, whether they stand on one line or
    over several, many on one line or one, and whether a line goes to the quick readers, to
    the parser or through the loop over its characters; also when lines are longer than the
    buffer that reads them. *)
Theorem script_runs_statements (io : nat → bool) (mt : cstr → Z * Z) (ps : list cstr) (sts : list Statement) (tail : cstr) (e : Exec) :
  Forall2 piece ps sts → forallb isspace tail = true → (length tail ≤ MAX_SQL_LEN - 1)%nat →
  script_events (script ps tail) = map Run sts ∧
  run_script io mt (script ps tail) e = ('(rs, e1) ← execute_all io mt sts e; e2 ← close_all_tables io mt e1; Some (rs, e2)).
Proof.
  intros H Ht Hl. assert (script_events (script ps tail) = map Run sts) as E.
  { unfold script_events. apply (scan_lines_pending tail Ht Hl); [lia|]. by apply pending_script. }
  split; [exact E|]. unfold run_script. by rewrite E, run_events_all.
Qed.

#[global] Instance piece_dec p st : Decision (piece p st).
Proof. unfold piece. apply _. Defined.

Definition sample_pieces : list cstr :=
  [lit "select * from users"; NL :: lit "insert into users values" ++ NL :: lit " (3,'x;y',park)"; NL :: lit "update users set name='--' where id=3"; lit " delete from users where id = 1"].

Definition sample_statements : list Statement := omap parse_statement sample_pieces.

Lemma script_runs_statements_witness :
  script_events (script sample_pieces [NL]) = map Run sample_statements ∧ length sample_statements = 4%nat ∧
  run_script (fun _ => true) (fun _ => (5, 6)) (script sample_pieces [NL]) (mkExec [] 0 ∅) =
    ('(rs, e1) ← execute_all (fun _ => true) (fun _ => (5, 6)) sample_statements (mkExec [] 0 ∅);
     e2 ← close_all_tables (fun _ => true) (fun _ => (5, 6)) e1; Some (rs, e2)).
Proof.
  destruct (script_runs_statements (fun _ => true) (fun _ => (5, 6)) sample_pieces sample_statements [NL] (mkExec [] 0 ∅)) as [H1 H2].
  - apply (bool_decide_unpack _). vm_compute. done.
  - reflexivity.
  - apply Nat.leb_le. reflexivity.
  - split; [exact H1|]. split; [reflexivity|exact H2].
Defined.

(** C37. The three ways of a statement that stands alone on its line are one: whatever text the
    parser accepts, the quick readers of the line, if one of them takes it, the quick reader
    for INSERT before the parser, and the parser itself make the same statement of it. *)
Theorem quick_readers_agree (s : cstr) (st : Statement) :
  parse_statement s = Some st → line_events s = [Run st] ∧ execute_sql_text s = [Run st].
Proof.
  intros H. destruct (text_executes [] s st H eq_refl) as [H1 H2]. split; [|exact H1].
  unfold line_events. destruct (quick s) as [st'|]; [by rewrite (H2 st')|exact H1].
Qed.

Definition quick_sample : cstr := lit "update users set name = 'kim' where id=7".

Lemma quick_readers_agree_witness :
  quick quick_sample ≠ None ∧ ∃ st, line_events quick_sample = [Run st] ∧ execute_sql_text quick_sample = [Run st].
Proof.
  split; [by vm_compute|]. destruct (parse_statement quick_sample) as [st|] eqn:E; [|by vm_compute in E]. exists st. exact (quick_readers_agree quick_sample st E).
Defined.

(** The quick readers accept more than the parser: a number with a sign or a keyword as a
    name is read when the statement stands alone on its line, not when it is laid out over
    two. *)
Example quick_readers_accept_more :
  let stmt := lit "UPDATE t SET n = -5 WHERE id = 1;" ++ [NL] in
  let broken := lit "UPDATE t SET n = -5" ++ [NL] ++ lit "WHERE id = 1;" ++ [NL] in
  map (fun ev => match ev with Run st => Some (set_val st) | _ => None end) (script_events stmt) = [Some (lit "-5")] ∧
  map (fun ev => match ev with Run st => Some (set_val st) | _ => None end) (script_events broken) = [None].
Proof. split; vm_compute; reflexivity. Qed.

(** The semicolon of a comment ends the statement before it, on a line of its own, and over
    several lines a comment is left out with the line end behind it. *)
Example comments_change_statements :
  script_events (lit "SELECT * FROM users -- all;" ++ [NL]) = [Invalid (lit "SELECT * FROM users -- all")] ∧
  script_events (lit "SELECT * FROM -- all" ++ [NL] ++ lit "users;" ++ [NL]) ≠ [] ∧
  script_events (lit "SELECT * FROM users--" ++ [NL] ++ lit "WHERE id = 1;" ++ [NL]) = [Invalid (lit "SELECT * FROM usersWHERE id = 1")].
Proof. split; [vm_compute; reflexivity|]. split; [by vm_compute|vm_compute; reflexivity]. Qed.
