(* ===== verification/WorkloadProofs.v ===== *)
(** The workloads of [Workload]: their INSERTs, run by the command-line program, rebuild
    the data set; their UPDATEs and DELETEs name every applicant once; the scripts for
    correctness get the answers that the benchmark asks for. *)

From Stdlib Require Import String.
From S2P Require Import Prelude CString BPTreeIndex Scanf Lexer Parser Values Table InsertProofs Store StoreProofs.
From S2P Require Import LegacyRow LegacyRowProofs LegacyCache LegacyCacheProofs LegacyIndex LegacyIndexProofs DeltaLog DeltaLogProofs LegacyTable LegacyTableProofs LegacyLoadProofs LegacyUpdateProofs LegacyWrite LegacySnapshot Executor ReopenClaims.
From S2P Require Import Jungle JungleProofs Cli CliProofs ScriptProofs Workload.
From stdpp Require Import base numbers list option gmap.
Local Open Scope Z_scope.

(** ** A record as SQL values *)

(** The text of a value in column [i]. *)
Definition sql_value (i : nat) (f : cstr) : cstr := if is_numeric_col i then f else QUOTE :: f ++ [QUOTE].

(** The fields of the list of values, as the executor splits it. *)
Definition raw_fields (fs : list cstr) : list cstr :=
  match fs with
  | [] => []
  | f :: fs' => sql_value 0 f :: imap (fun k g => 32 :: sql_value (S k) g) fs'
  end.

Definition values_text (fs : list cstr) : cstr := join_fields (raw_fields fs).

Definition no_commas (f : cstr) : Prop := forallb (fun c => negb (c =? COMMA)) f = true.

Lemma take_field_all n f rest :
  no_commas f → (length f ≤ n)%nat → match rest with [] => True | c :: _ => c = COMMA end → take_field n (f ++ rest) = (f, rest).
Proof.
  unfold no_commas. revert n; induction f as [|c f IH]; intros n Hf Hn Hr.
  - destruct n as [|n]; destruct rest as [|c rest]; cbn; try done. by subst c.
  - destruct n as [|n]; [simpl in Hn; lia|]. cbn in Hf. apply andb_true_iff in Hf as [Hc Hf]. apply negb_true_iff in Hc.
    cbn. rewrite Hc, IH; [done|done|simpl in Hn; lia|done].
Qed.

(** The generator splits a line without quotes into its fields; only an empty last field
    would be lost. *)
Lemma parse_fields_join m fs :
  Forall (fun f => no_commas f ∧ (length f ≤ 255)%nat) fs → (length fs ≤ m)%nat → List.last fs [] ≠ [] →
  parse_csv_fields m (join_fields fs) = fs.
Proof.
  intros Hfs. revert m; induction Hfs as [|f fs [Hf Hl] Hfs IH]; intros m Hm Hlast; [done|].
  destruct m as [|m]; [simpl in Hm; lia|]. destruct fs as [|g fs].
  - cbn [join_fields]. cbn in Hlast. rewrite <- (app_nil_r f) at 1. assert (f ++ [] ≠ []) as Hne by (by rewrite app_nil_r).
    destruct (f ++ []) as [|c r] eqn:E; [done|]. rewrite <- E. cbn [parse_csv_fields]. destruct (f ++ []) eqn:E'; [congruence|]. rewrite <- E'.
    rewrite take_field_all by done. by destruct m.
  - change (join_fields (f :: g :: fs)) with (f ++ COMMA :: join_fields (g :: fs)).
    assert (f ++ COMMA :: join_fields (g :: fs) ≠ []) as Hne by (by destruct f). cbn [parse_csv_fields].
    destruct (f ++ COMMA :: join_fields (g :: fs)) as [|c r] eqn:E; [done|]. rewrite <- E, take_field_all by done. rewrite Z.eqb_refl.
    rewrite IH; [done|simpl in *; lia|exact Hlast].
Qed.

Definition no_quotes (f : cstr) : Prop := forallb (fun c => negb (c =? QUOTE)) f = true.

Lemma append_escaped_plain size dst f : no_quotes f → (length dst + length f + 2 ≤ size)%nat → append_sql_escaped size dst f = dst ++ f.
Proof.
  unfold no_quotes. revert dst; induction f as [|c f IH]; intros dst Hf Hs; cbn [append_sql_escaped]; [by rewrite app_nil_r|].
  cbn in Hf. apply andb_true_iff in Hf as [Hc Hf]. apply negb_true_iff in Hc. simpl in Hs.
  rewrite (proj2 (Nat.ltb_lt _ _)) by lia. rewrite Hc, IH by (done || (rewrite length_app; simpl; lia)). by rewrite <- app_assoc.
Qed.

(** The bytes that the values take at most. *)
Definition room (fs : list cstr) : nat := sum_list_with (fun f => length f + 6)%nat fs.

Lemma append_values_ok size i fs out :
  Forall no_quotes fs → (length out + room fs < size)%nat →
  append_values size i fs out = Some (out ++ concat (imap (fun k f => (if (0 <? i + k)%nat then [COMMA; 32] else []) ++ sql_value (i + k) f) fs)).
Proof.
  intros Hfs. revert i out; induction Hfs as [|f fs Hf Hfs IH]; intros i out Hs; cbn [append_values]; [by rewrite app_nil_r|].
  unfold room in Hs. cbn [sum_list_with] in Hs. fold (room fs) in Hs.
  set (out1 := out ++ (if (0 <? i)%nat then [COMMA; 32] else [])). assert (length out1 ≤ length out + 2)%nat as H1.
  { unfold out1. rewrite length_app. destruct (0 <? i)%nat; simpl; lia. }
  assert ((if (0 <? i)%nat then if (size <=? length out + 2)%nat then None else Some (out ++ [COMMA; 32]) else Some out) = Some out1) as ->.
  { unfold out1. destruct (0 <? i)%nat; [|by rewrite app_nil_r]. by rewrite (proj2 (Nat.leb_gt _ _)) by lia. }
  cbn [mbind option_bind]. assert (length (sql_value i f) ≤ length f + 2)%nat as H2.
  { unfold sql_value. destruct (is_numeric_col i); [lia|]. cbn. rewrite length_app. simpl. lia. }
  assert ((if is_numeric_col i then if (size <=? length out1 + length f + 1)%nat then None else Some (out1 ++ f)
           else if (size <=? length out1 + 2)%nat then None
           else if (size <=? length (append_sql_escaped size (out1 ++ [QUOTE]) f) + 1)%nat then None
                else Some (append_sql_escaped size (out1 ++ [QUOTE]) f ++ [QUOTE])) = Some (out1 ++ sql_value i f)) as E.
  { unfold sql_value. destruct (is_numeric_col i); [by rewrite (proj2 (Nat.leb_gt _ _)) by lia|].
    rewrite (proj2 (Nat.leb_gt size (length out1 + 2))) by lia.
    rewrite append_escaped_plain by (done || (rewrite length_app; simpl; lia)).
    rewrite (proj2 (Nat.leb_gt size _)) by (rewrite !length_app; simpl; lia). by rewrite <- !app_assoc. }
  cbv zeta. rewrite E. cbn [mbind option_bind]. rewrite IH by (rewrite length_app; lia). f_equal.
  unfold out1. rewrite <- !app_assoc. f_equal. cbn [imap]. rewrite Nat.add_0_r. cbn [concat]. rewrite <- !app_assoc. do 3 f_equal.
  apply imap_ext. intros k g _. cbn. by rewrite Nat.add_succ_r.
Qed.

Lemma join_raw f fs :
  join_fields (f :: imap (fun k g => 32 :: sql_value (S k) g) fs) = f ++ concat (imap (fun k g => [COMMA; 32] ++ sql_value (S k) g) fs).
Proof.
  assert (∀ (G : nat → cstr → cstr) fs f, join_fields (f :: imap (fun k g => 32 :: G k g) fs) = f ++ concat (imap (fun k g => [COMMA; 32] ++ G k g) fs)) as H;
    [|exact (H (fun k => sql_value (S k)) fs f)].
  clear. intros G fs. revert G; induction fs as [|g fs IH]; intros G f; [cbn; by rewrite app_nil_r|].
  cbn [imap]. change (join_fields (f :: ?a :: ?b)) with (f ++ COMMA :: join_fields (a :: b)). unfold compose.
  specialize (IH (fun k => G (S k)) (32 :: G 0%nat g)). unfold compose in *. rewrite IH. cbn [concat app]. done.
Qed.

Lemma row_to_values fs size :
  fs ≠ [] → Forall (fun f => no_commas f ∧ (length f ≤ 255)%nat) fs → Forall no_quotes fs → (length fs ≤ 32)%nat → List.last fs [] ≠ [] →
  (room fs < size)%nat → csv_row_to_sql_values (join_fields fs) size = Some (values_text fs).
Proof.
  intros Hne H1 H2 H3 H4 H5. unfold csv_row_to_sql_values. rewrite parse_fields_join by done. destruct fs as [|f fs]; [done|].
  rewrite append_values_ok by (simpl; done || (simpl; lia)). f_equal. cbn [imap concat app]. rewrite Nat.add_0_l.
  change ((if (0 <? 0)%nat then [COMMA; 32] else []) ++ sql_value 0 f) with (sql_value 0 f).
  unfold values_text, raw_fields. rewrite join_raw. done.
Qed.

(** ** The values of an applicant *)

Lemma clean_marks f : clean f = true → no_commas f ∧ no_quotes f.
Proof.
  unfold clean, no_commas, no_quotes. rewrite !forallb_forall. intros H. split; intros c Hc; specialize (H c Hc); unfold clean_char in H; bool_to_prop.
  - by apply negb_true_iff, Z.eqb_neq.
  - by apply negb_true_iff, Z.eqb_neq.
Qed.

Lemma plain_field_scan q f : no_commas f → no_quotes f → field_scan q f = Some q.
Proof.
  unfold no_commas, no_quotes. induction f as [|c f IH]; [done|]. cbn. intros [Hc Hcs]%andb_true_iff [Hq Hqs]%andb_true_iff.
  apply negb_true_iff in Hc, Hq. rewrite Hq, Hc. cbn. by apply IH.
Qed.

Lemma sql_value_field i f : clean f = true → field_ok (sql_value i f).
Proof.
  intros [Hc Hq]%clean_marks. unfold field_ok, sql_value. destruct (is_numeric_col i); [by apply plain_field_scan|].
  change (field_scan false (QUOTE :: f ++ [QUOTE])) with (field_scan true (f ++ [QUOTE])). by rewrite field_scan_app, plain_field_scan.
Qed.

Lemma trim_space s : trim_uq (32 :: s) = trim_uq s.
Proof. done. Qed.

Lemma sql_value_trim i f : clean f = true → trim_uq (sql_value i f) = f.
Proof. intros H. unfold sql_value. destruct (is_numeric_col i); [by apply clean_storable|apply trim_uq_quoted]. Qed.

Lemma sql_value_length i f : (length (sql_value i f) ≤ length f + 2)%nat.
Proof. unfold sql_value. destruct (is_numeric_col i); [lia|]. cbn. rewrite length_app. simpl. lia. Qed.

Lemma raw_lookup fs k : raw_fields fs !! k = (fun f => (if (0 <? k)%nat then [32] else []) ++ sql_value k f) <$> fs !! k.
Proof.
  destruct fs as [|f fs]; [by rewrite !lookup_nil|]. destruct k as [|k]; [done|].
  change (raw_fields (f :: fs) !! S k) with (imap (fun k g => 32 :: sql_value (S k) g) fs !! k). rewrite list_lookup_imap. done.
Qed.

Lemma length_raw fs : length (raw_fields fs) = length fs.
Proof. destruct fs; [done|]. cbn. by rewrite length_imap. Qed.

Lemma raw_field_ok fs : Forall (fun f => clean f = true) fs → Forall field_ok (raw_fields fs).
Proof.
  intros H. apply list.Forall_lookup. intros k raw. rewrite raw_lookup. intros (f & Hf & ->)%fmap_Some.
  pose proof (Forall_lookup_1 _ _ _ _ H Hf) as Hc. pose proof (sql_value_field k f Hc) as Hs. by destruct (0 <? k)%nat.
Qed.

Lemma raw_trimmed fs k raw : Forall (fun f => clean f = true ∧ (length f ≤ 253)%nat) fs → raw_fields fs !! k = Some raw →
  trim_and_unquote (strcpy_sz RECORD_SIZE raw) = default [] (fs !! k).
Proof.
  intros H. rewrite raw_lookup. intros (f & Hf & ->)%fmap_Some. rewrite Hf. change (default [] (Some f)) with f. pose proof (Forall_lookup_1 _ _ _ _ H Hf) as [Hc Hl].
  pose proof (sql_value_length k f) as Hs. unfold trim_and_unquote, strcpy_sz.
  assert (length ((if (0 <? k)%nat then [32%Z] else []) ++ sql_value k f) ≤ 256)%nat as Hlen by (rewrite length_app; destruct (0 <? k)%nat; simpl; lia).
  rewrite take_ge by (etrans; [exact Hlen|apply Nat.leb_le; done]). destruct (0 <? k)%nat; [cbn [app]; rewrite trim_space|]; by apply sql_value_trim.
Qed.

(** The sources of an INSERT that gives every column a value. *)
Lemma given_sources h vals fs nid :
  (∀ p, h_pk h = Some p → auto_id h vals = false) → length fs = col_count h →
  (∀ k, (k < col_count h)%nat → trim_and_unquote (strcpy_sz RECORD_SIZE (default [] (vals !! k))) = default [] (fs !! k)) →
  (h_pk h ≠ None) → insert_sources h vals nid = fs.
Proof.
  intros Ha Hlen Hv Hp. apply list_eq. intros k. unfold insert_sources. rewrite list_lookup_fmap.
  destruct (h_pk h) as [p|] eqn:Ep; [|done]. rewrite (Ha p) by done.
  destruct (decide (k < col_count h)%nat) as [Hk|Hk].
  - rewrite lookup_seq_lt by done. cbn [fmap option_fmap option_map Nat.add]. unfold insert_source. cbn [andb]. rewrite Hv by done.
    destruct (lookup_lt_is_Some_2 fs k) as [f ->]; [lia|done].
  - rewrite lookup_ge_None_2 by (rewrite length_seq; lia). by rewrite lookup_ge_None_2 by lia.
Qed.

Lemma values_text_length fs : (length (values_text fs) ≤ room fs)%nat.
Proof.
  destruct fs as [|f fs]; [done|]. unfold values_text, raw_fields. rewrite join_raw, length_app. unfold room. cbn [sum_list_with].
  assert (∀ j, (length (concat (imap (fun k g => [COMMA; 32%Z] ++ sql_value (j + k) g) fs)) ≤ sum_list_with (fun f => length f + 6) fs)%nat) as H.
  { induction fs as [|g fs IH]; intros j; [done|]. cbn [imap concat sum_list_with]. rewrite !length_app. pose proof (sql_value_length (j + 0) g).
    specialize (IH (S j)). rewrite (imap_ext _ (fun k g => [COMMA; 32%Z] ++ sql_value (S j + k) g)) by (intros; cbn; by rewrite Nat.add_succ_r). cbn [length]. lia. }
  specialize (H 1%nat). cbn [Nat.add] in H. pose proof (sql_value_length 0 f). lia.
Qed.

Section applicant.
Context (id : Z) (Hid : applicant id).

Lemma applicant_clean : Forall (fun f => clean f = true ∧ (length f ≤ 253)%nat) (applicant_vals id).
Proof using Hid.
  apply list.Forall_lookup. intros k f Hf. split; [exact (Forall_lookup_1 _ _ _ _ (vals_clean id Hid) Hf)|].
  by destruct (Forall_lookup_1 _ _ _ _ (vo_vals _ _ (applicant_vals_ok id Hid)) Hf).
Qed.

Lemma room_short bs fs : Forall2 short bs fs → (room fs ≤ sum_list bs + 6 * length bs)%nat.
Proof. unfold room. induction 1 as [|b f bs fs [_ Hf] _ IH]; [done|]. cbn. lia. Qed.

Lemma applicant_room : (room (applicant_vals id) ≤ 208)%nat.
Proof using Hid. etrans; [apply (room_short _ _ (vals_short id Hid))|]. apply Nat.leb_le. done. Qed.

Definition applicant_values : cstr := values_text (applicant_vals id).

Lemma record_values : csv_row_to_sql_values (record id) SQL_MAX_LEN = Some applicant_values.
Proof using Hid.
  unfold record. rewrite (proj1 (csv_record_whole id Hid)). unfold csv_row. rewrite clean_vals_text by (by apply vals_clean).
  apply row_to_values.
  - done.
  - eapply list.Forall_impl; [exact applicant_clean|]. intros f [[Hc _]%clean_marks Hl]. split; [done|lia].
  - eapply list.Forall_impl; [exact applicant_clean|]. by intros f [[_ Hq]%clean_marks _].
  - change (length (applicant_vals id)) with 11%nat. lia.
  - done.
  - eapply Nat.le_lt_trans; [exact applicant_room|apply Nat.ltb_lt; vm_compute; reflexivity].
Qed.

Lemma values_length : (length applicant_values ≤ 208)%nat.
Proof using Hid. etrans; [apply values_text_length|exact applicant_room]. Qed.

Lemma values_fields : parse_csv_row applicant_values = raw_fields (applicant_vals id).
Proof using Hid.
  unfold parse_csv_row. pose proof (split_csv_join (raw_fields (applicant_vals id)) []) as H. rewrite app_nil_r, app_last_nil in H. apply H.
  - done.
  - apply raw_field_ok, vals_clean, Hid.
  - rewrite length_raw. change (length (applicant_vals id)) with 11%nat. apply Nat.leb_le. done.
  - done.
  - pose proof values_length as Hl. unfold applicant_values, values_text in Hl. unfold RECORD_SIZE. lia.
Qed.

(** The INSERT of the workload gives the values of the applicant. *)
Lemma workload_gives : gives_values applicant_values id.
Proof using Hid.
  unfold gives_values. cbv zeta. rewrite values_fields. set (raws := raw_fields (applicant_vals id)).
  assert (raws !! 0%nat = Some (print_Z id)) as H0 by done.
  assert (LONG_MIN ≤ id ≤ LONG_MAX) as Hl by (unfold applicant, MAX_RECORDS in Hid; unfold LONG_MIN, LONG_MAX; lia).
  assert (auto_id jungle_header raws = false) as Ha.
  { unfold auto_id. rewrite jungle_pk, jungle_cols_eq, H0. change (length raws =? 11 - 1)%nat with false. cbn [andb orb].
    destruct (print_Z id) as [|c s] eqn:E; [by destruct (print_Z_shape id) as (? & ? & ? & _); congruence|]. rewrite <- E.
    unfold compare_value. apply streq_false. intros En. pose proof (parse_long_print id Hl) as Hp. unfold parse_long_value in Hp. by rewrite En in Hp. }
  split; [change (length raws) with 11%nat; lia|]. split; [|split].
  - unfold field_at. rewrite H0. cbn. pose proof (print_width 6 id (id_bound id Hid)). lia.
  - unfold wants_key. rewrite Ha. unfold field_at. rewrite H0. by apply parse_long_print.
  - apply given_sources; [done|by rewrite jungle_cols_eq| |by rewrite jungle_pk]. intros k Hk. rewrite jungle_cols_eq in Hk.
    destruct (lookup_lt_is_Some_2 raws k) as [raw Hr]; [change (length raws) with 11%nat; lia|]. rewrite Hr. cbn [default].
    by apply raw_trimmed; [exact applicant_clean|].
Qed.
End applicant.

(** ** Quotes *)

(** Whether the text ends inside quotes; [None]: there is a semicolon, a hyphen or a closing
    parenthesis outside them. *)
Fixpoint inert (q : bool) (s : cstr) : option bool :=
  match s with
  | [] => Some q
  | c :: s' =>
      if c =? QUOTE then inert (negb q) s'
      else if negb q && ((c =? 59) || (c =? 45) || (c =? 41)) then None else inert q s'
  end.

Lemma inert_app q a b : inert q (a ++ b) = (q' ← inert q a; inert q' b).
Proof. revert q; induction a as [|c a IH]; intros q; [done|]. cbn. case_if; [apply IH|]. case_if; [done|apply IH]. Qed.

Lemma inert_plain q s q' t : inert q s = Some q' → plain q (s ++ t) = plain q' t.
Proof.
  revert q; induction s as [|c s IH]; intros q; cbn [inert]; [by intros [= ->]|]. cbn [app plain].
  destruct (c =? QUOTE) eqn:Eq.
  - intros H. rewrite (IH _ H). apply Z.eqb_eq in Eq as ->. done.
  - destruct q; cbn [negb andb].
    + intros H. rewrite (IH _ H). by rewrite !andb_false_r.
    + destruct (c =? 59), (c =? 45), (c =? 41); cbn [orb]; try done. intros H. by rewrite (IH _ H).
Qed.

Lemma inert_close q s q' t : inert q s = Some q' → find_values_close_paren q (s ++ t) = (fun n => length s + n)%nat <$> find_values_close_paren q' t.
Proof.
  revert q; induction s as [|c s IH]; intros q; cbn [inert].
  { intros [= ->]. cbn. by destruct (find_values_close_paren q' t). }
  cbn [app find_values_close_paren length]. destruct (c =? QUOTE).
  - intros H. rewrite (IH _ H). by destruct (find_values_close_paren q' t).
  - destruct q; cbn [negb andb].
    + rewrite andb_false_r. intros H. rewrite (IH _ H). by destruct (find_values_close_paren q' t).
    + rewrite andb_true_r. destruct (c =? 41); [by rewrite !orb_true_r|]. destruct ((c =? 59) || (c =? 45)); cbn [orb]; [done|].
      intros H. rewrite (IH _ H). by destruct (find_values_close_paren q' t).
Qed.

Lemma inert_quoted f : no_quotes f → inert true f = Some true.
Proof.
  unfold no_quotes. induction f as [|c f IH]; [done|]. cbn. intros [Hc Hf]%andb_true_iff. apply negb_true_iff in Hc. rewrite Hc. by apply IH.
Qed.

Lemma inert_digits f : forallb isdigit f = true → inert false f = Some false.
Proof.
  induction f as [|c f IH]; [done|]. cbn [forallb inert]. intros [Hc Hf]%andb_true_iff. apply isdigit_range in Hc. unfold QUOTE.
  rewrite !(proj2 (Z.eqb_neq c _)) by lia. cbn. by apply IH.
Qed.

Lemma inert_sql i f : no_quotes f → (is_numeric_col i = true → forallb isdigit f = true) → inert false (sql_value i f) = Some false.
Proof.
  intros Hq Hd. unfold sql_value. destruct (is_numeric_col i); [by apply inert_digits, Hd|].
  change (inert false (QUOTE :: f ++ [QUOTE])) with (inert true (f ++ [QUOTE])). by rewrite inert_app, inert_quoted.
Qed.

Lemma inert_values fs :
  (∀ k f, fs !! k = Some f → no_quotes f ∧ (is_numeric_col k = true → forallb isdigit f = true)) → inert false (values_text fs) = Some false.
Proof.
  intros H. destruct fs as [|f fs]; [done|]. unfold values_text, raw_fields. rewrite join_raw, inert_app.
  destruct (H 0%nat f eq_refl) as [H1 H2]. rewrite (inert_sql 0 f H1 H2). cbn [mbind option_bind].
  assert (∀ j, (∀ k g, fs !! k = Some g → no_quotes g ∧ (is_numeric_col (j + k) = true → forallb isdigit g = true)) →
    inert false (concat (imap (fun k g => [COMMA; 32] ++ sql_value (j + k) g) fs)) = Some false) as Hj.
  { clear. induction fs as [|g fs IH]; intros j H; [done|]. cbn [imap concat]. rewrite Nat.add_0_r, inert_app, inert_app.
    change (inert false [COMMA; 32]) with (Some false). cbn [mbind option_bind]. destruct (H 0%nat g eq_refl) as [H1 H2]. rewrite Nat.add_0_r in H2.
    rewrite (inert_sql j g H1 H2). cbn [mbind option_bind].
    rewrite (imap_ext _ (fun k g => [COMMA; 32] ++ sql_value (S j + k) g)) by (intros; cbn; by rewrite Nat.add_succ_r).
    apply IH. intros k g' Hk. destruct (H (S k) g' Hk) as [Ha Hb]. rewrite Nat.add_succ_r in Hb. by split. }
  apply (Hj 1%nat). intros k g Hk. exact (H (S k) g Hk).
Qed.

Lemma applicant_inert id : applicant id → inert false (applicant_values id) = Some false.
Proof.
  intros Hid. apply inert_values. intros k f Hf. split; [exact (proj2 (clean_marks f (Forall_lookup_1 _ _ _ _ (vals_clean id Hid) Hf)))|].
  unfold is_numeric_col. intros [->%Nat.eqb_eq| ->%Nat.eqb_eq]%orb_true_iff.
  - injection Hf as <-. apply print_digits. unfold applicant in Hid. lia.
  - injection Hf as <-. apply print_digits. pose proof (pretest_range id Hid). lia.
Qed.

(** ** Lines that the quick readers take *)

Definition insert_stmt (data : cstr) : Statement := mkStmt STMT_INSERT TABLE_NAME data false [] [] [] [] WHERE_NONE [] [] [].

Lemma insert_head u :
  try_execute_insert_fast (lit "INSERT INTO jungle_workload_users VALUES (" ++ u) =
    (row_len ← find_values_close_paren false u;
     match skip_space (drop (S row_len) u) with
     | [] => if (ROW_DATA_SIZE <=? row_len)%nat then None else Some (insert_stmt (take row_len u))
     | _ => None
     end).
Proof. reflexivity. Qed.

(** A number as the quick readers see it. *)
Lemma number_literal n : 0 ≤ n < 10 ^ 10 → read_sql_literal (32 :: print_Z n) VAL_SIZE = Some (print_Z n, []).
Proof.
  intros Hn. pose proof (print_digits n (proj1 Hn)) as Hd. pose proof (print_width 9 n Hn) as Hl. revert Hd Hl.
  destruct (print_Z_shape n) as (d & ds & -> & _). intros Hd Hl. pose proof Hd as Hd'. cbn [forallb] in Hd'. apply andb_true_iff in Hd' as [Hdd _].
  unfold read_sql_literal. change (skip_space (32 :: d :: ds)) with (if isspace d then skip_space ds else d :: ds). rewrite (isspace_digit d Hdd).
  apply isdigit_range in Hdd. rewrite (proj2 (Z.eqb_neq d QUOTE)) by (unfold QUOTE; lia).
  assert (span_len (fun c => negb (isspace c)) (d :: ds) = length (d :: ds)) as ->.
  { clear Hl Hdd. revert Hd. generalize (d :: ds) as s. induction s as [|c s IH]; [done|]. cbn [forallb span_len length]. intros [Hc Hs]%andb_true_iff.
    rewrite (isspace_digit c Hc). cbn [negb]. by rewrite IH. }
  cbv zeta. rewrite (proj2 (Nat.leb_gt VAL_SIZE _)) by (unfold VAL_SIZE; lia). cbn [length Nat.eqb orb]. rewrite take_ge, drop_ge by done. done.
Qed.

Definition change_stmt (ty : StatementType) (col v : string) (id : Z) : Statement :=
  mkStmt ty TABLE_NAME [] false [] (lit col) (lit v) [mkCond WHERE_EQ (lit "id") (print_Z id) []] WHERE_EQ (lit "id") (print_Z id) [].

Lemma number_where ty col v id : 0 ≤ id < 10 ^ 10 →
  finish_single_eq_where (mkStmt ty TABLE_NAME [] false [] (lit col) (lit v) [] WHERE_NONE [] [] []) (lit "id") (print_Z id) = change_stmt ty col v id.
Proof.
  intros Hn. pose proof (print_width 9 id Hn) as Hl. unfold finish_single_eq_where, change_stmt. cbn [stype table_name row_data select_all select_cols set_col set_val].
  assert (strcpy_sz VAL_SIZE (print_Z id) = print_Z id) as -> by (unfold strcpy_sz; apply take_ge; unfold VAL_SIZE; lia). done.
Qed.

(** A line whose one semicolon ends it. *)
Lemma quick_line (s : cstr) :
  plain false s = true → match s with a :: _ => isspace a = false ∧ a ≠ 45 | [] => False end →
  execute_sql_line_fast (s ++ [59; NL]) =
    Some (match try_execute_insert_fast s with
          | Some st => [Run st]
          | None => match try_execute_update_fast s with
                    | Some st => [Run st]
                    | None => match try_execute_delete_fast s with Some st => [Run st] | None => execute_sql_text s end
                    end
          end).
Proof.
  intros Hp Hne. destruct s as [|a s]; [done|]. destruct Hne as [Ha Hd]. set (t := a :: s) in *. unfold execute_sql_line_fast.
  assert (skip_space (t ++ [59; NL]) = t ++ [59; NL]) as -> by (unfold t; cbn; by rewrite Ha).
  assert (match t ++ [59; NL] with [] => true | a :: b :: _ => (a =? 45) && (b =? 45) | _ => false end = false) as ->.
  { unfold t. cbn [app]. destruct (s ++ [59; NL]); [done|]. by rewrite (proj2 (Z.eqb_neq a 45)). }
  rewrite (semicolons_at 0 false t [NL] Hp). change (semicolons _ false [NL]) with (@nil nat). cbn [Nat.add].
  assert (drop (S (length t)) (t ++ [59; NL]) = [NL]) as -> by (rewrite <- Nat.add_1_r, <- drop_drop, drop_app_length; done).
  change (forallb isspace [NL]) with true. cbv iota zeta. by rewrite take_app_length.
Qed.

Lemma quick_insert v : inert false v = Some false → (length v < ROW_DATA_SIZE)%nat → execute_sql_line_fast (insert_line v) = Some [Run (insert_stmt v)].
Proof.
  intros Hv Hl. set (head := lit "INSERT INTO jungle_workload_users VALUES (").
  assert (insert_line v = (head ++ v ++ [41]) ++ [59; NL]) as -> by (unfold insert_line, head; cbn; by rewrite <- ?app_assoc).
  rewrite quick_line; [| |done].
  2:{ rewrite (inert_plain false head false) by done. by rewrite (inert_plain false v false). }
  unfold head. rewrite insert_head, (inert_close false v false) by done. change (find_values_close_paren false [41]) with (Some 0%nat).
  cbn [fmap option_fmap option_map mbind option_bind]. rewrite Nat.add_0_r.
  rewrite drop_ge by (rewrite length_app; simpl; lia). cbn [skip_space]. rewrite (proj2 (Nat.leb_gt _ _)) by done. by rewrite take_app_length.
Qed.

Lemma plain_number (head : cstr) n : inert false head = Some false → 0 ≤ n → plain false (head ++ print_Z n) = true.
Proof. intros H Hn. rewrite (inert_plain false head false), <- (app_nil_r (print_Z n)) by done. by rewrite (inert_plain false _ false) by (by apply inert_digits, print_digits). Qed.

Lemma quick_delete id : 0 ≤ id < 10 ^ 10 → execute_sql_line_fast (delete_line id) = Some [Run (change_stmt STMT_DELETE "" "" id)].
Proof.
  intros Hn. set (head := lit "DELETE FROM jungle_workload_users WHERE id = ").
  assert (delete_line id = (head ++ print_Z id) ++ [59; NL]) as -> by (unfold delete_line, head; cbn; by rewrite <- ?app_assoc).
  rewrite quick_line; [|by apply plain_number; [|lia]|done]. do 2 f_equal.
  change (try_execute_insert_fast (head ++ print_Z id)) with (@None Statement). change (try_execute_update_fast (head ++ print_Z id)) with (@None Statement). cbv iota.
  change (try_execute_delete_fast (head ++ print_Z id)) with
    ('(c, v) ← ('(v, s) ← read_sql_literal (32 :: print_Z id) VAL_SIZE; match skip_space s with [] => Some (lit "id", v) | _ => None end);
     Some (finish_single_eq_where (mkStmt STMT_DELETE TABLE_NAME [] false [] (lit "") (lit "") [] WHERE_NONE [] [] []) c v)).
  rewrite number_literal by done. cbn [mbind option_bind skip_space]. by rewrite number_where.
Qed.

Lemma quick_update id : 0 ≤ id < 10 ^ 10 → execute_sql_line_fast (update_line "final_wait" id) = Some [Run (change_stmt STMT_UPDATE "status" "final_wait" id)].
Proof.
  intros Hn. set (head := lit "UPDATE jungle_workload_users SET status = 'final_wait' WHERE id = ").
  assert (update_line "final_wait" id = (head ++ print_Z id) ++ [59; NL]) as -> by (unfold update_line, head; cbn; by rewrite <- ?app_assoc).
  rewrite quick_line; [|by apply plain_number; [|lia]|done]. do 2 f_equal.
  change (try_execute_insert_fast (head ++ print_Z id)) with (@None Statement). cbv iota.
  change (try_execute_update_fast (head ++ print_Z id)) with
    ('(c, v) ← ('(v, s) ← read_sql_literal (32 :: print_Z id) VAL_SIZE; match skip_space s with [] => Some (lit "id", v) | _ => None end);
     Some (finish_single_eq_where (mkStmt STMT_UPDATE TABLE_NAME [] false [] (lit "status") (lit "final_wait") [] WHERE_NONE [] [] []) c v)).
  rewrite number_literal by done. cbn [mbind option_bind skip_space]. by rewrite number_where.
Qed.

(** ** Scripts of such lines *)

(** A line that [fgets] reads whole. *)
Definition whole_line (line : cstr) : Prop := ∃ l, line = l ++ [NL] ∧ forallb line_char l = true ∧ (length l < MAX_SQL_LEN - 1)%nat.

Lemma scan_quick fuel lines ess :
  Forall2 (fun line es => whole_line line ∧ execute_sql_line_fast line = Some es) lines ess → (length (concat lines) < fuel)%nat →
  scan_lines fuel (concat lines) (mkScan [] false false) = concat ess.
Proof.
  intros H. revert fuel; induction H as [|line es lines ess [(l & -> & Hl & Hn) He] _ IH]; intros [|fuel] Hf; try (simpl in *; lia); [done|].
  cbn [concat] in *. rewrite <- app_assoc in *. cbn [app] in *. cbn [scan_lines].
  assert (length (concat lines) < fuel)%nat as Hfu by (rewrite length_app in Hf; simpl in Hf; lia).
  assert (l ++ NL :: concat lines ≠ []) as Hne by (by destruct l). destruct (l ++ NL :: concat lines) as [|c t] eqn:E; [done|]. rewrite <- E.
  rewrite fgets_line by done. cbn [buf]. rewrite He. f_equal. by apply IH.
Qed.

Lemma script_quick lines ess :
  Forall2 (fun line es => whole_line line ∧ execute_sql_line_fast line = Some es) lines ess → script_events (concat lines) = concat ess.
Proof. intros H. apply scan_quick; [done|lia]. Qed.

(** ** Shuffling *)

Lemma swap_permutes i j ids : swap i j ids ≡ₚ ids.
Proof.
  unfold swap. destruct (ids !! i) as [x|] eqn:Ei; [|done]. destruct (ids !! j) as [y|] eqn:Ej; [|done].
  by apply Permutation_insert_swap.
Qed.

Lemma shuffle_permutes rand ids s : shuffle_ids rand ids s ≡ₚ ids.
Proof.
  assert (∀ i k ids, shuffle_down rand s i k ids ≡ₚ ids) as H; [|apply H].
  induction i as [|i IH]; intros k l; cbn [shuffle_down]; [done|]. rewrite IH. apply swap_permutes.
Qed.

(** ** What the generator writes *)

Lemma trim_line l : forallb line_char l = true → trim_newline (l ++ [NL]) = l.
Proof.
  intros Hl. unfold trim_newline. rewrite reverse_app. change (reverse [NL] ++ reverse l) with (NL :: reverse l). cbn [drop_line_ends].
  change ((NL =? NL) || (NL =? CR)) with true. cbv iota. rewrite <- (reverse_involutive l) at 2. f_equal.
  destruct (reverse l) as [|c r] eqn:E; [done|]. cbn [drop_line_ends]. assert (line_char c = true) as Hc.
  { rewrite forallb_forall in Hl. apply Hl, list_elem_of_In, elem_of_reverse. rewrite E. by left. }
  unfold line_char in Hc. apply andb_true_iff in Hc as [H1%negb_true_iff H2%negb_true_iff]. by rewrite H1, H2.
Qed.

Lemma record_line id s : applicant id → fgets (LINE_MAX_LEN - 1) (record id ++ NL :: s) = (record id ++ [NL], s).
Proof.
  intros Hid. destruct (csv_record_whole id Hid) as [_ Hl]. apply fgets_line; [apply (record_plain id Hid)|].
  eapply Nat.lt_le_trans; [exact Hl|apply Nat.leb_le; done].
Qed.

Lemma strchr_head f rest : no_commas f → strchr (f ++ COMMA :: rest) COMMA = Some (length f).
Proof.
  unfold no_commas. induction f as [|c f IH]; [done|]. cbn [forallb app strchr length]. intros [Hc Hf]%andb_true_iff. apply negb_true_iff in Hc.
  by rewrite Hc, IH.
Qed.

Lemma record_id_text id : applicant id → ∃ rest, record id = print_Z id ++ COMMA :: rest.
Proof.
  intros Hid. unfold record. rewrite (proj1 (csv_record_whole id Hid)). unfold csv_row. rewrite clean_vals_text by (by apply vals_clean).
  eexists. reflexivity.
Qed.

Lemma atoi_print_id n : 0 ≤ n < 2 ^ 31 → atoi (print_Z n) = n.
Proof.
  intros Hn. unfold atoi. rewrite strtol_print by (unfold LONG_MIN, LONG_MAX; lia). cbn [st_val]. unfold to_int. rewrite Z.mod_small by lia. lia.
Qed.

(** The rows of the source that are read; more may follow. *)
Lemma read_rows_records n i fuel opt_rows rows tail :
  1 ≤ i → i + Z.of_nat n - 1 ≤ MAX_RECORDS → rows + Z.of_nat n = opt_rows →
  (length (row_lines (record <$> seqZ i (Z.of_nat n)) ++ tail) ≤ fuel)%nat →
  read_rows fuel opt_rows rows (row_lines (record <$> seqZ i (Z.of_nat n)) ++ tail) =
    Some (seqZ i (Z.of_nat n), concat (map (fun id => insert_line (applicant_values id)) (seqZ i (Z.of_nat n)))).
Proof.
  revert i fuel rows; induction n as [|n IH]; intros i fuel rows Hi Hm Hr Hf.
  { assert (opt_rows <=? rows = true) as H by (apply Z.leb_le; lia). cbn. destruct fuel, tail; cbn; try done. by rewrite H. }
  rewrite seqZ_cons in * by lia.
  replace (Z.succ i) with (i + 1) in * by lia. replace (Z.pred (Z.of_nat (S n))) with (Z.of_nat n) in * by lia.
  assert (applicant i) as Hid by (unfold applicant; lia). destruct (record_id_text i Hid) as [tl Htl].
  set (rest := row_lines (record <$> seqZ (i + 1) (Z.of_nat n)) ++ tail) in *.
  assert (row_lines (record <$> i :: seqZ (i + 1) (Z.of_nat n)) ++ tail = record i ++ NL :: rest) as E.
  { unfold rest, row_lines. cbn [fmap list_fmap map concat]. by rewrite <- !app_assoc. }
  rewrite E in *. destruct fuel as [|fuel]; [rewrite length_app in Hf; simpl in Hf; lia|].
  assert (length rest ≤ fuel)%nat as Hfu by (rewrite length_app in Hf; simpl in Hf; lia). cbn [read_rows].
  assert (record i ++ NL :: rest ≠ []) as Hne by (by destruct (record i)). destruct (record i ++ NL :: rest) as [|c t] eqn:Et; [done|]. rewrite <- Et.
  rewrite (proj2 (Z.leb_gt opt_rows rows)) by lia. rewrite record_line by done. rewrite trim_line by apply (record_plain i Hid).
  rewrite Htl, strchr_head by (apply clean_marks, clean_digits, print_digits; unfold applicant in Hid; lia). rewrite <- Htl.
  rewrite record_values by done. cbn [mbind option_bind]. unfold rest. rewrite IH by (done || lia). cbn [mbind option_bind map concat]. do 3 f_equal.
  rewrite Htl, take_app_length. apply atoi_print_id. unfold applicant, MAX_RECORDS in Hid. lia.
Qed.

(** ** The lines of the workloads are whole *)

Lemma clean_line f : clean f = true → forallb line_char f = true.
Proof.
  unfold clean. rewrite !forallb_forall. intros H c Hc. specialize (H c Hc). unfold clean_char in H. bool_to_prop.
  unfold line_char. destruct (c =? NL) eqn:E1; [by apply Z.eqb_eq in E1 as ->|]. destruct (c =? CR) eqn:E2; [by apply Z.eqb_eq in E2 as ->|]. done.
Qed.

Lemma clean_number n : 0 ≤ n → clean (print_Z n) = true.
Proof. intros Hn. by apply clean_digits, print_digits. Qed.

Lemma values_line id : applicant id → forallb line_char (applicant_values id) = true.
Proof.
  intros Hid. unfold applicant_values, values_text. apply line_char_join, list.Forall_lookup. intros k raw. rewrite raw_lookup.
  intros (f & Hf & ->)%fmap_Some. pose proof (clean_line f (Forall_lookup_1 _ _ _ _ (vals_clean id Hid) Hf)) as Hl.
  rewrite forallb_app. unfold sql_value. destruct (0 <? k)%nat, (is_numeric_col k); cbn [forallb]; rewrite ?forallb_app, Hl; done.
Qed.

Lemma whole_insert id : applicant id → whole_line (insert_line (applicant_values id)).
Proof.
  intros Hid. exists (lit "INSERT INTO jungle_workload_users VALUES (" ++ applicant_values id ++ lit ");"). split; [|split].
  - unfold insert_line. cbn. by rewrite <- ?app_assoc.
  - by rewrite !forallb_app, (values_line id Hid).
  - pose proof (values_length id Hid) as Hl. rewrite !length_app. eapply Nat.le_lt_trans; [|apply (proj1 (Nat.ltb_lt 252 _)); vm_compute; reflexivity].
    change (length (lit "INSERT INTO jungle_workload_users VALUES (")) with 42%nat. change (length (lit ");")) with 2%nat.
    revert Hl. clear. lia.
Qed.

Lemma whole_change (head : cstr) id :
  forallb line_char head = true → (length head ≤ 100)%nat → 0 ≤ id < 10 ^ 10 → whole_line (head ++ print_Z id ++ lit ";" ++ [NL]).
Proof.
  intros Hh Hn Hid. exists (head ++ print_Z id ++ lit ";"). split; [by rewrite <- ?app_assoc|]. split.
  - by rewrite !forallb_app, Hh, (clean_line _ (clean_number id (proj1 Hid))).
  - pose proof (print_width 9 id Hid) as Hl. rewrite !length_app. eapply Nat.le_lt_trans; [|apply (proj1 (Nat.ltb_lt 111 _)); vm_compute; reflexivity].
    change (length (lit ";")) with 1%nat. lia.
Qed.

Lemma whole_update id : 0 ≤ id < 10 ^ 10 → whole_line (update_line "final_wait" id).
Proof. apply (whole_change (lit "UPDATE jungle_workload_users SET status = 'final_wait' WHERE id = ") id eq_refl), Nat.leb_le. done. Qed.

Lemma whole_delete id : 0 ≤ id < 10 ^ 10 → whole_line (delete_line id).
Proof. apply (whole_change (lit "DELETE FROM jungle_workload_users WHERE id = ") id eq_refl), Nat.leb_le. done. Qed.

(** A profile that keeps to its line. *)
Definition plain_profile (opt : GeneratorOptions) : Prop := forallb line_char (profile opt) = true ∧ (length (profile opt) ≤ 100)%nat.

Lemma comment_line opt n :
  plain_profile opt → 0 ≤ n < 10 ^ 10 → 0 ≤ seed opt < 10 ^ 10 →
  whole_line (generated_comment opt n) ∧ execute_sql_line_fast (generated_comment opt n) = Some [].
Proof.
  intros [Hp Hl] Hn Hs. split; [|done].
  exists (lit "-- generated profile=" ++ profile opt ++ lit " rows=" ++ print_Z n ++ lit " seed=" ++ print_Z (seed opt)). split; [|split].
  - unfold generated_comment. by rewrite <- ?app_assoc.
  - by rewrite !forallb_app, Hp, (clean_line _ (clean_number n (proj1 Hn))), (clean_line _ (clean_number _ (proj1 Hs))).
  - pose proof (print_width 9 n Hn) as H1. pose proof (print_width 9 _ Hs) as H2. rewrite !length_app.
    change (length (lit "-- generated profile=")) with 21%nat. change (length (lit " rows=")) with 6%nat. change (length (lit " seed=")) with 6%nat.
    eapply Nat.le_lt_trans; [|apply (proj1 (Nat.ltb_lt 153 _)); vm_compute; reflexivity]. revert Hl H1 H2. clear. intros. lia.
Qed.

(** A file with the comment and such lines. *)
Lemma script_lines opt n lines ess :
  plain_profile opt → 0 ≤ n < 10 ^ 10 → 0 ≤ seed opt < 10 ^ 10 →
  Forall2 (fun line es => whole_line line ∧ execute_sql_line_fast line = Some es) lines ess →
  script_events (generated_comment opt n ++ concat lines) = concat ess.
Proof.
  intros Hp Hn Hs Hl. change (generated_comment opt n ++ concat lines) with (concat (generated_comment opt n :: lines)).
  rewrite (script_quick _ ([] :: ess)); [done|]. constructor; [by apply comment_line|done].
Qed.

Lemma script_of_lines {A} opt n (line : A → cstr) (st : A → Statement) xs :
  plain_profile opt → 0 ≤ n < 10 ^ 10 → 0 ≤ seed opt < 10 ^ 10 →
  Forall (fun x => whole_line (line x) ∧ execute_sql_line_fast (line x) = Some [Run (st x)]) xs →
  script_events (generated_comment opt n ++ concat (map line xs)) = map (fun x => Run (st x)) xs.
Proof.
  intros Hp Hn Hs Hl. rewrite (script_lines opt n _ (map (fun x => [Run (st x)]) xs)) by (done || (induction Hl; by constructor)).
  clear Hl. induction xs as [|x xs IH]; [done|]. cbn. by rewrite IH.
Qed.

(** ** The source *)

Definition data_set (m : nat) : cstr := JUNGLE_BENCHMARK_HEADER ++ row_lines (records m).

Lemma data_set_text n : 1 ≤ n ≤ MAX_RECORDS → generate_jungle_dataset n false = Some (data_set (Z.to_nat n)).
Proof.
  intros Hn. unfold generate_jungle_dataset, data_set, records. rewrite (proj2 (Z.leb_gt n 0)) by lia.
  assert (clamp_record_count n 1 = n) as ->.
  { unfold clamp_record_count. rewrite (proj2 (Z.ltb_ge n 1)), (proj2 (Z.ltb_ge MAX_RECORDS n)) by lia. done. }
  cbv zeta iota. by rewrite jungle_lines_records.
Qed.

Lemma header_split : ∃ l, JUNGLE_BENCHMARK_HEADER = l ++ [NL] ∧ forallb line_char l = true ∧ (length l < LINE_MAX_LEN - 1)%nat ∧
  is_prefix (lit "id(PK),email(UK),phone(UK),name,track(NN),") l = true.
Proof.
  exists (take (length JUNGLE_BENCHMARK_HEADER - 1) JUNGLE_BENCHMARK_HEADER). split; [vm_compute; reflexivity|]. split; [vm_compute; reflexivity|].
  split; [apply Nat.ltb_lt|]; vm_compute; reflexivity.
Qed.

Lemma source_header s : fgets (LINE_MAX_LEN - 1) (JUNGLE_BENCHMARK_HEADER ++ s) = (JUNGLE_BENCHMARK_HEADER, s).
Proof. destruct header_split as (l & -> & Hl & Hn & _). rewrite <- app_assoc. by apply fgets_line. Qed.

Lemma count_records n i fuel :
  1 ≤ i → i + Z.of_nat n - 1 ≤ MAX_RECORDS → (length (row_lines (record <$> seqZ i (Z.of_nat n))) ≤ fuel)%nat →
  count_lines fuel (row_lines (record <$> seqZ i (Z.of_nat n))) = Z.of_nat n.
Proof.
  revert i fuel; induction n as [|n IH]; intros i fuel Hi Hm Hf; [by destruct fuel|]. rewrite seqZ_cons in * by lia.
  replace (Z.succ i) with (i + 1) in * by lia. replace (Z.pred (Z.of_nat (S n))) with (Z.of_nat n) in * by lia.
  assert (applicant i) as Hid by (unfold applicant; lia).
  assert (row_lines (record <$> i :: seqZ (i + 1) (Z.of_nat n)) = record i ++ NL :: row_lines (record <$> seqZ (i + 1) (Z.of_nat n))) as E.
  { unfold row_lines. cbn [fmap list_fmap map concat]. by rewrite <- app_assoc. }
  rewrite E in *. destruct fuel as [|fuel]; [rewrite length_app in Hf; simpl in Hf; lia|].
  cbn [count_lines]. destruct (record i ++ NL :: _) as [|c t] eqn:Et; [by destruct (record i)|]. rewrite <- Et. rewrite record_line by done. cbn [snd].
  rewrite IH; [lia|lia|lia|]. rewrite <- Et, length_app in Hf. simpl in Hf. lia.
Qed.

(** The source is a data set with the rows that are asked for. *)
Lemma source_kept rows m : 1 ≤ rows ≤ Z.of_nat m → Z.of_nat m ≤ MAX_RECORDS → ensure_source_csv rows (Some (data_set m)) = Some (data_set m).
Proof.
  intros Hr Hm. unfold ensure_source_csv, count_csv_rows, data_set. rewrite source_header.
  destruct header_split as (l & Hh & Hl & _ & Hp). destruct (length (JUNGLE_BENCHMARK_HEADER ++ row_lines (records m))) as [|f] eqn:Ef.
  { rewrite Hh, !length_app in Ef. simpl in Ef. lia. }
  cbn [count_lines]. rewrite source_header. cbn [snd].
  assert (JUNGLE_BENCHMARK_HEADER ++ row_lines (records m) ≠ []) as Hne by (rewrite Hh; by destruct l).
  assert (JUNGLE_BENCHMARK_HEADER ≠ []) as Hhe by (rewrite Hh; by destruct l).
  destruct (JUNGLE_BENCHMARK_HEADER ++ row_lines (records m)) as [|c t] eqn:Et; [done|]. rewrite <- Et in Ef |- *.
  unfold numbered. rewrite count_records; [|lia|lia|].
  2:{ unfold numbered in Ef. rewrite length_app, Hh, length_app in Ef. simpl in Ef. lia. }
  rewrite (proj2 (Z.leb_gt (1 + Z.of_nat m) 0)) by lia. rewrite (proj2 (Z.leb_le rows _)) by lia. cbn [andb].
  destruct JUNGLE_BENCHMARK_HEADER as [|c' t']; [done|]. rewrite Hh, trim_line, Hp by done. done.
Qed.

Lemma source_made rows : 1 ≤ rows ≤ MAX_RECORDS → ensure_source_csv rows None = Some (data_set (Z.to_nat rows)).
Proof.
  intros Hr. unfold ensure_source_csv. assert (run_generator (generate_args rows) None = generate_jungle_dataset rows false) as ->; [|by apply data_set_text].
  unfold run_generator. assert ((main_mode (generate_args rows)).2 = GenerateJungle (atoi (print_Z rows)) (Some SOURCE_CSV_NAME)) as -> by done.
  rewrite atoi_print_id by (unfold MAX_RECORDS in Hr; lia). by destruct (generate_jungle_dataset rows false).
Qed.

(** No source yet, or a data set with enough rows. *)
Definition usable_source (rows : Z) (source : option cstr) : Prop :=
  source = None ∨ ∃ m, rows ≤ m ≤ MAX_RECORDS ∧ source = generate_jungle_dataset m false.

Lemma source_ready rows source : 1 ≤ rows ≤ MAX_RECORDS → usable_source rows source →
  ∃ m, rows ≤ Z.of_nat m ≤ MAX_RECORDS ∧ ensure_source_csv rows source = Some (data_set m).
Proof.
  intros Hr [->|(m & Hm & ->)].
  - exists (Z.to_nat rows). split; [lia|by apply source_made].
  - exists (Z.to_nat m). split; [lia|]. rewrite data_set_text by lia. apply source_kept; lia.
Qed.

Lemma records_split n m : (n ≤ m)%nat → ∃ tail, row_lines (records m) = row_lines (records n) ++ tail.
Proof.
  intros H. exists (row_lines (record <$> seqZ (1 + Z.of_nat n) (Z.of_nat (m - n)))). unfold numbered. rewrite <- row_lines_app, <- fmap_app.
  do 2 f_equal. replace (Z.of_nat m) with (Z.of_nat n + Z.of_nat (m - n)) by lia. apply seqZ_app; lia.
Qed.

(** The numbers that the options hold. *)
Definition sizes_ok (opt : GeneratorOptions) : Prop :=
  1 ≤ g_rows opt ≤ MAX_RECORDS ∧ 1 ≤ g_update_rows opt ≤ g_rows opt ∧ 1 ≤ g_delete_rows opt ≤ g_rows opt.

Lemma generate_ok rand opt m now : sizes_ok opt → g_rows opt ≤ Z.of_nat m ≤ MAX_RECORDS →
  let ids := shuffle_ids rand (seqZ 1 (g_rows opt)) (seed opt) in
  ∃ w, generate_sqls rand opt (Some (data_set m)) now = Some w ∧ workload_csv w = JUNGLE_BENCHMARK_HEADER ∧
    insert_sql w = generated_comment opt (g_rows opt) ++ concat (map (fun id => insert_line (applicant_values id)) (seqZ 1 (g_rows opt))) ∧
    update_sql w = generated_comment opt (g_update_rows opt) ++ concat (map (update_line "final_wait") (take (Z.to_nat (g_update_rows opt)) ids)) ∧
    delete_sql w = generated_comment opt (g_delete_rows opt) ++ concat (map delete_line (take (Z.to_nat (g_delete_rows opt)) ids)).
Proof.
  intros (Hr & Hu & Hd) Hm. cbv zeta. unfold generate_sqls. cbn [mbind option_bind]. unfold data_set. rewrite source_header.
  destruct header_split as (l & Hh & Hl & _). assert (JUNGLE_BENCHMARK_HEADER ≠ []) as Hhe by (rewrite Hh; by destruct l).
  destruct (records_split (Z.to_nat (g_rows opt)) m) as [tail Ht]; [lia|]. rewrite Ht. unfold numbered. rewrite Z2Nat.id by lia.
  pose proof (read_rows_records (Z.to_nat (g_rows opt)) 1 (length (row_lines (record <$> seqZ 1 (g_rows opt)) ++ tail)) (g_rows opt) 0 tail) as Hrd.
  rewrite !Z2Nat.id in Hrd by lia. rewrite Hrd by (lia || done). destruct JUNGLE_BENCHMARK_HEADER as [|c t] eqn:Eh; [done|]. rewrite <- Eh in *. clear Eh.
  cbn [mbind option_bind]. rewrite length_seqZ, Z2Nat.id by lia. rewrite !(proj2 (Z.leb_le _ (g_rows opt))) by lia.
  eexists. split; [reflexivity|]. split; [|done]. cbn [workload_csv]. by rewrite Hh, trim_line.
Qed.

(** ** The options *)

Lemma seed_range args opt : 0 ≤ seed opt < 2 ^ 32 → 0 ≤ seed (parse_options args opt) < 2 ^ 32.
Proof.
  assert (∀ n args opt, (length args ≤ n)%nat → 0 ≤ seed opt < 2 ^ 32 → 0 ≤ seed (parse_options args opt) < 2 ^ 32) as H;
    [|by apply (H (length args))].
  clear. induction n as [|n IH]; intros args opt Hl Hs; destruct args as [|a [|v args]]; try done; [simpl in Hl; lia|]. simpl in Hl.
  destruct opt as [p r u d m s o]. cbn [parse_options]. cbn [seed] in Hs.
  assert (0 ≤ (strtoull v).1 mod 2 ^ 32 < 2 ^ 32) as Hv by (apply Z.mod_pos_bound; lia).
  repeat match goal with |- context [if ?b then _ else _] => destruct b; [by apply IH; [lia|]|] end. exact (IH (v :: args) (mkOptions p r u d m s o) ltac:(simpl; lia) Hs).
Qed.

Lemma profile_sizes p : 0 < profile_rows p ∧ 0 < profile_update_rows p ∧ 0 < profile_delete_rows p.
Proof. unfold profile_update_rows, profile_delete_rows, profile_rows. repeat case_if; lia. Qed.

(** Whatever the arguments, the files get rows, and not more changes than rows. *)
Lemma options_ok args : let opt := parse_args args default_options in
  g_rows opt ≤ MAX_RECORDS → sizes_ok opt ∧ 0 ≤ seed opt < 10 ^ 10.
Proof.
  cbv zeta. assert (0 ≤ seed (parse_options args default_options) < 2 ^ 32) as Hs by (apply seed_range; cbn; lia). revert Hs.
  unfold parse_args. destruct (parse_options args default_options) as [p r u d m s o]. cbn [seed g_rows]. intros Hs Hr.
  destruct (profile_sizes p) as (H1 & H2 & H3). split; [|cbn [seed]; lia].
  unfold sizes_ok. cbn [g_rows g_update_rows g_delete_rows]. repeat case_if; bool_to_prop; lia.
Qed.

(** ** Running the INSERTs *)

Section run.
Context (io : nat → bool) (mt : cstr → Z * Z).

(** The open table [o] is the one of the workload, with the first [n] rows. *)
Definition loaded (o : Open) (n : nat) : Prop :=
  o_name o = TABLE_NAME ∧ holds (o_table o) n ∧ next_auto_id (t_cache (o_table o)) = Z.of_nat (S n).

(** A statement finds this table, open or not. *)
Definition reachable (e : Exec) (n : nat) : Prop :=
  ∃ e1 o, get_table io mt TABLE_NAME e = Some (Some 0%nat, e1) ∧ open_tables e1 = [o] ∧ loaded o n.

Lemma open_reachable e o n : open_tables e = [o] → loaded o n → reachable e n.
Proof.
  intros Ho (Hn & Hh & Hx). unfold reachable, get_table. rewrite Ho. cbn [find_open]. rewrite Hn.
  assert (streq TABLE_NAME TABLE_NAME = true) as -> by by apply streq_true. unfold touch_table. rewrite Ho.
  eexists _, _. split; [reflexivity|]. split; [reflexivity|]. by split.
Qed.

Lemma closed_reachable e :
  open_tables e = [] → files_of (disk e) TABLE_NAME = mkFiles (Some JUNGLE_BENCHMARK_HEADER) None None → reachable e 0.
Proof.
  intros Ho Hf. destruct (open_empty io (times mt (disk e) TABLE_NAME) TABLE_NAME) as (t & s & E & Hs & Hh & Hn); [vm_compute; reflexivity|].
  eexists _, _. split; [exact (get_table_closed io mt _ e _ _ _ _ _ Ho Hf E)|]. split; [reflexivity|]. by split.
Qed.

Lemma insert_runs e n : reachable e n → applicant (Z.of_nat (S n)) →
  ∃ e' o, execute_statement io mt (insert_stmt (applicant_values (Z.of_nat (S n)))) e = Some (Inserted (InsDone (Z.of_nat (S n))), e') ∧
    open_tables e' = [o] ∧ loaded o (S n).
Proof.
  intros (e1 & o & E & Ho & Hn & Hh & Hx) Hid. destruct (insert_step io (o_table o) n _ Hh Hx Hid (workload_gives _ Hid)) as (t' & Ei & Hh' & Hx').
  unfold execute_statement, insert_stmt. cbn [Parser.table_name]. rewrite E. cbn [mbind option_bind]. rewrite Ho. cbn [lookup list_lookup mbind option_bind].
  unfold run_on. cbn [stype row_data]. rewrite Ei. cbn [mbind option_bind]. eexists _, _. split; [reflexivity|]. split; [reflexivity|].
  split; [|by split]. unfold o_name, snap_inserted in *. cbn [o_snap] in *. destruct (all_slots_used _ _ _ (ho_table _ _ Hh)) as [_ Hact].
  rewrite length_numbered in Hact. rewrite Hact, (proj2 (Z.leb_gt MAX_RECORDS _)) by (unfold applicant in Hid; lia). by rewrite andb_false_r.
Qed.

Lemma inserts_run m n e : (0 < m)%nat → reachable e n → Z.of_nat (n + m) ≤ MAX_RECORDS →
  ∃ e' o, run_events io mt (map (fun id => Run (insert_stmt (applicant_values id))) (seqZ (Z.of_nat (S n)) (Z.of_nat m))) e =
      Some (map (fun id => Inserted (InsDone id)) (seqZ (Z.of_nat (S n)) (Z.of_nat m)), e') ∧ open_tables e' = [o] ∧ loaded o (n + m).
Proof.
  revert n e; induction m as [|m IH]; intros n e Hpos Hr Hm; [lia|]. rewrite seqZ_cons by lia.
  destruct (insert_runs e n Hr) as (e1 & o1 & E1 & Ho1 & Hl1); [unfold applicant; lia|].
  cbn [map run_events]. rewrite E1. cbn [mbind option_bind]. replace (Z.pred (Z.of_nat (S m))) with (Z.of_nat m) by lia.
  replace (Z.succ (Z.of_nat (S n))) with (Z.of_nat (S (S n))) by lia. rewrite Nat.add_succ_r. destruct m as [|m].
  - exists e1, o1. rewrite Nat.add_0_r. by split_and!.
  - destruct (IH (S n) e1) as (e' & o & E & Ho & Hl); [lia|by apply (open_reachable _ o1)|lia|]. rewrite E. exists e', o. by split_and!.
Qed.
End run.

(** ** The runner *)

Lemma atoi_range v : - 2 ^ 31 ≤ atoi v < 2 ^ 31.
Proof. unfold atoi, to_int. pose proof (Z.mod_pos_bound (st_val (strtol v) + 2 ^ 31) (2 ^ 32) ltac:(lia)). lia. Qed.

(** The numbers of the options fit their types. *)
Definition runner_fits (o : RunnerOptions) : Prop :=
  Forall (fun n => n < 2 ^ 31) [r_rows o; r_update_rows o; r_delete_rows o; r_mixed_ops o] ∧ 0 ≤ r_seed o < 2 ^ 32.

Lemma runner_options_fit args o : runner_fits o → runner_fits (runner_options args o).
Proof.
  assert (∀ n args o, (length args ≤ n)%nat → runner_fits o → runner_fits (runner_options args o)) as H; [|by apply (H (length args))].
  clear. induction n as [|n IH]; intros args o Hl Ho; destruct args as [|a next]; try done; [simpl in Hl; lia|]. simpl in Hl.
  destruct o as [p r u d m s k mt ro]. destruct Ho as [Hf Hs]. cbn in Hf, Hs. rewrite !Forall_cons in Hf. destruct Hf as (Hr & Hu & Hd & Hm & _).
  assert (∀ p r u d m s k mt ro, r < 2 ^ 31 → u < 2 ^ 31 → d < 2 ^ 31 → m < 2 ^ 31 → 0 ≤ s < 2 ^ 32 → runner_fits (mkRunner p r u d m s k mt ro)) as Hmk.
  { intros. split; [cbn; by repeat constructor|done]. }
  set (flag := if streq a (lit "--memtrack") then mkRunner p r u d m s k true ro
               else if streq a (lit "--report-only") then mkRunner p r u d m s k mt true else mkRunner p r u d m s k mt ro).
  assert (runner_fits flag) as Hfl by (unfold flag; repeat case_if; by apply Hmk).
  destruct next as [|v args]; [exact Hfl|]. simpl in Hl. pose proof (atoi_range v) as Hv. pose proof (Z.mod_pos_bound (strtoull v).1 (2 ^ 32) ltac:(lia)) as Hv'.
  cbn [runner_options]. fold flag.
  repeat match goal with |- runner_fits (if ?b then _ else _) => destruct b; [apply IH; [lia|]; apply Hmk; lia|] end.
  exact (IH (v :: args) flag ltac:(simpl; lia) Hfl).
Qed.

Lemma strtoull_print n : 0 ≤ n < 2 ^ 32 → (strtoull (print_Z n)).1 = n.
Proof.
  intros Hn. pose proof (print_digits n (proj1 Hn)) as Hd. pose proof (pad_value 0 n (proj1 Hn)) as Hv. change (print_pad 0 n) with (print_Z n) in Hv.
  destruct (print_Z n) as [|c s] eqn:E; [by destruct (print_Z_shape n) as (? & ? & ? & _); congruence|].
  pose proof Hd as Hd'. cbn [forallb] in Hd. apply andb_true_iff in Hd as [Hc _]. pose proof (proj1 (isdigit_range c) Hc) as Hr.
  unfold strtoull. cbn [skip_space]. rewrite (isspace_digit c Hc), !(proj2 (Z.eqb_neq c _)) by lia. cbv iota. rewrite Hc.
  destruct (digits 0 (c :: s)) as [m rest]. cbn [fst] in Hv. subst m. unfold U64. by rewrite (proj2 (Z.leb_gt _ n)) by lia.
Qed.

(** The runner and the generator agree: whatever arguments the runner gets, the
    generator reads back from the command that the runner makes for it the same
    profile, numbers of rows, updates, deletes and operations, and seed. *)
Theorem runner_generator_agree (args : list cstr) :
  let o := runner_args args default_runner in
  parse_args (generator_command o) default_options =
    mkOptions (r_profile o) (r_rows o) (r_update_rows o) (r_delete_rows o) (r_mixed_ops o) (r_seed o) (lit "generated_sql").
Proof.
  cbv zeta. pose proof (runner_options_fit args default_runner) as Hf. unfold runner_args.
  destruct (runner_options args default_runner) as [p r u d m s n mt ro]. destruct Hf as [Hf Hs]; [split; [cbn; by repeat constructor|cbn; lia]|].
  cbn in Hf, Hs. rewrite !Forall_cons in Hf. destruct Hf as (Hr & Hu & Hd & Hm & _). destruct (profile_sizes p) as (H1 & H2 & H3).
  assert (0 < profile_ops p < 2 ^ 31) as H4 by (unfold profile_ops; repeat case_if; lia).
  assert (profile_rows p < 2 ^ 31 ∧ profile_update_rows p < 2 ^ 31 ∧ profile_delete_rows p < 2 ^ 31) as (H5 & H6 & H7).
  { unfold profile_update_rows, profile_delete_rows, profile_rows. repeat case_if; lia. }
  set (r' := if r <=? 0 then profile_rows p else r). set (u' := if u <=? 0 then profile_update_rows p else u). set (d' := if d <=? 0 then profile_delete_rows p else d).
  set (u2 := if r' <? u' then r' else u'). set (d2 := if r' <? d' then r' else d'). set (m' := if m <=? 0 then profile_ops p else m).
  assert (0 < r' < 2 ^ 31 ∧ 0 < m' < 2 ^ 31) as [Hr' Hm'] by (unfold r', m'; split; case_if; bool_to_prop; lia).
  assert (0 < u' ∧ 0 < d') as [Hu' Hd'] by (unfold u', d'; split; case_if; bool_to_prop; lia).
  assert (0 < u2 ≤ r' ∧ 0 < d2 ≤ r') as [Hu2 Hd2] by (unfold u2, d2; split; case_if; bool_to_prop; lia).
  clearbody r' u2 d2 m'. unfold generator_command. cbn [r_profile r_seed r_rows r_update_rows r_delete_rows r_mixed_ops].
  assert (parse_options [lit "--profile"; p; lit "--seed"; print_Z s; lit "--preload"; print_Z r'; lit "--update-rows"; print_Z u2;
      lit "--delete-rows"; print_Z d2; lit "--ops"; print_Z m'; lit "--output-dir"; lit "generated_sql"] default_options =
    mkOptions p (atoi (print_Z r')) (atoi (print_Z u2)) (atoi (print_Z d2)) (atoi (print_Z m')) ((strtoull (print_Z s)).1 mod 2 ^ 32) (lit "generated_sql")) as E
    by reflexivity.
  unfold parse_args. rewrite E, strtoull_print, !atoi_print_id, Z.mod_small by lia.
  rewrite !(proj2 (Z.leb_gt _ 0)), !(proj2 (Z.ltb_ge r' _)) by lia. done.
Qed.

(** The runner gives the workload's table the header of the source and nothing else. *)
Lemma reset_ready m d : ∃ d1, reset_workload_csv_header (Some (data_set m)) d = (true, d1) ∧
  files_of d1 TABLE_NAME = mkFiles (Some JUNGLE_BENCHMARK_HEADER) None None.
Proof.
  unfold reset_workload_csv_header, data_set. destruct header_split as (l & Hh & Hl & Hn & _).
  assert (fgets 4095 (JUNGLE_BENCHMARK_HEADER ++ row_lines (records m)) = (JUNGLE_BENCHMARK_HEADER, row_lines (records m))) as ->.
  { rewrite Hh, <- app_assoc. apply fgets_line; [done|]. etrans; [exact Hn|apply Nat.ltb_lt; vm_compute; reflexivity]. }
  destruct JUNGLE_BENCHMARK_HEADER as [|c t] eqn:E; [by destruct l|]. rewrite Hh, trim_line by done. eexists. split; [reflexivity|]. apply files_of_insert.
Qed.

Lemma applicant_number n id : n ≤ MAX_RECORDS → id ∈ seqZ 1 n → applicant id ∧ 0 ≤ id < 10 ^ 10.
Proof. intros Hn Hin%elem_of_seqZ. unfold applicant, MAX_RECORDS in *. lia. Qed.

(** C39. Round trip of the benchmark's workload: whatever arguments the generator gets, as
    long as they ask for at most [MAX_RECORDS] rows and name a profile of one line, and
    whether it has to make its source or finds a data set with enough rows, it writes its
    files; when the runner then resets the workload's table, whatever stood in the
    directory, the command-line program takes every line of the file of INSERTs as a
    statement, every one is accepted with the key of its applicant, and the table and its
    file are the data set that [generate_jungle_dataset] writes for as many rows. *)
Theorem insert_workload_rebuilds (io : nat → bool) (mt : cstr → Z * Z) (rand : Z → nat → Z) (args : list cstr) (source : option cstr) (now : Z)
    (d : gmap cstr Files) (seq : Z) :
  let opt := parse_args args default_options in let n := g_rows opt in
  n ≤ MAX_RECORDS → plain_profile opt → usable_source n source →
  ∃ src w d1 e1 o, generator_main rand args source now = (src, Some w) ∧ reset_workload_csv_header src d = (true, d1) ∧
    run_events io mt (script_events (insert_sql w)) (mkExec [] seq d1) = Some (map (fun id => Inserted (InsDone id)) (seqZ 1 n), e1) ∧
    open_tables e1 = [o] ∧ o_name o = TABLE_NAME ∧
    table_ok jungle_header (t_cache (o_table o)) (map (fun id => Some (build_jungle_csv_record id 512)) (seqZ 1 n)) ∧
    c_file (t_cache (o_table o)) = generate_jungle_dataset n false.
Proof.
  cbv zeta. intros Hn Hp Hsrc. destruct (options_ok args Hn) as [Hs Hseed]. unfold generator_main. set (opt := parse_args args default_options) in *.
  destruct (source_ready (g_rows opt) source) as (m & Hm & ->); [destruct Hs; lia|done|].
  destruct (generate_ok rand opt m now Hs Hm) as (w & E & _ & Hins & _). destruct (reset_ready m d) as (d1 & Hd & Hf).
  assert (1 ≤ g_rows opt) as H1 by (destruct Hs; lia).
  destruct (inserts_run io mt (Z.to_nat (g_rows opt)) 0 (mkExec [] seq d1)) as (e1 & o & Er & Ho1 & (Hnm & [Hc Hfile _ _] & _)); [lia|by apply closed_reachable|lia|].
  rewrite E. exists (Some (data_set m)), w, d1, e1, o. split; [done|]. split; [exact Hd|]. split; [|split; [done|]; split; [done|]].
  - rewrite Hins, (script_of_lines opt _ _ (fun id => insert_stmt (applicant_values id))); [|done|unfold MAX_RECORDS in Hn; lia|done|].
    + rewrite Z2Nat.id in Er by lia. exact Er.
    + apply list.Forall_forall. intros id Hid. destruct (applicant_number _ id Hn Hid) as [Ha _]. split; [by apply whole_insert|].
      apply quick_insert; [by apply applicant_inert|]. pose proof (values_length id Ha) as Hl. unfold ROW_DATA_SIZE. lia.
  - cbn [Nat.add] in *. rewrite data_set_text by lia. split; [|exact Hfile]. unfold numbered in Hc. rewrite Z2Nat.id in Hc by lia.
    rewrite <- (map_map record Some). exact Hc.
Qed.

(** The file of UPDATEs and the file of DELETEs are scripts of exactly the statements
    that they are to be: each names, in an order that the seed decides, as many
    different applicants as the options say, by a key that the file of INSERTs gives. *)
Theorem change_workloads_name_once (rand : Z → nat → Z) (args : list cstr) (source : option cstr) (now : Z) :
  let opt := parse_args args default_options in let n := g_rows opt in
  n ≤ MAX_RECORDS → plain_profile opt → usable_source n source →
  ∃ w ids, (generator_main rand args source now).2 = Some w ∧ ids ≡ₚ seqZ 1 n ∧
    script_events (update_sql w) = map (fun id => Run (change_stmt STMT_UPDATE "status" "final_wait" id)) (take (Z.to_nat (g_update_rows opt)) ids) ∧
    script_events (delete_sql w) = map (fun id => Run (change_stmt STMT_DELETE "" "" id)) (take (Z.to_nat (g_delete_rows opt)) ids) ∧
    1 ≤ g_update_rows opt ≤ n ∧ 1 ≤ g_delete_rows opt ≤ n.
Proof.
  cbv zeta. intros Hn Hp Hsrc. destruct (options_ok args Hn) as [Hs Hseed]. unfold generator_main. set (opt := parse_args args default_options) in *.
  destruct (source_ready (g_rows opt) source) as (m & Hm & ->); [destruct Hs; lia|done|]. cbn [snd].
  destruct (generate_ok rand opt m now Hs Hm) as (w & E & _ & _ & Hu & Hd). exists w, (shuffle_ids rand (seqZ 1 (g_rows opt)) (seed opt)).
  rewrite Hu, Hd. pose proof (shuffle_permutes rand (seqZ 1 (g_rows opt)) (seed opt)) as Hperm. split; [done|]. split; [done|].
  assert (∀ k, Forall (fun id => 0 ≤ id < 10 ^ 10) (take k (shuffle_ids rand (seqZ 1 (g_rows opt)) (seed opt)))) as Hall.
  { intros k. apply Forall_take. rewrite Hperm. apply list.Forall_forall. intros id Hid. by apply (applicant_number _ id Hn). }
  destruct Hs as (H1 & H2 & H3). unfold MAX_RECORDS in Hn. split; [|split; [|done]].
  - apply script_of_lines; [done|lia|done|]. eapply list.Forall_impl; [apply Hall|]. intros id Hid. split; [by apply whole_update|by apply quick_update].
  - apply script_of_lines; [done|lia|done|]. eapply list.Forall_impl; [apply Hall|]. intros id Hid. split; [by apply whole_delete|by apply quick_delete].
Qed.

(** ** Small runs *)

(** The options of a small run and the directory that it leaves. *)
Definition small_args : list cstr := [lit "--profile"; lit "smoke"; lit "--rows"; lit "3"; lit "--ops"; lit "5"].
Definition small_rand (s : Z) (k : nat) : Z := (Z.of_nat k * 7919 + s) mod 1000.
Definition small_start : Exec := mkExec [] 0 (<[TABLE_NAME := mkFiles (Some JUNGLE_BENCHMARK_HEADER) None None]> ∅).

Lemma insert_workload_rebuilds_witness :
  ∃ src w d1 e1 o, generator_main small_rand small_args None 77 = (src, Some w) ∧ reset_workload_csv_header src ∅ = (true, d1) ∧
    run_events (fun _ => true) (fun _ => (0, 0)) (script_events (insert_sql w)) (mkExec [] 0 d1) =
      Some (map (fun id => Inserted (InsDone id)) (seqZ 1 3), e1) ∧
    open_tables e1 = [o] ∧ o_name o = TABLE_NAME ∧
    table_ok jungle_header (t_cache (o_table o)) (map (fun id => Some (build_jungle_csv_record id 512)) (seqZ 1 3)) ∧
    c_file (t_cache (o_table o)) = generate_jungle_dataset 3 false.
Proof.
  apply (insert_workload_rebuilds (fun _ => true) (fun _ => (0, 0)) small_rand small_args None 77 ∅ 0).
  - by vm_compute.
  - split; [by vm_compute|]. apply Nat.leb_le. by vm_compute.
  - by left.
Defined.

Lemma change_workloads_name_once_witness :
  ∃ w ids, (generator_main small_rand small_args None 77).2 = Some w ∧ ids ≡ₚ seqZ 1 3 ∧
    script_events (update_sql w) = map (fun id => Run (change_stmt STMT_UPDATE "status" "final_wait" id)) (take 3 ids) ∧
    script_events (delete_sql w) = map (fun id => Run (change_stmt STMT_DELETE "" "" id)) (take 3 ids) ∧ 1 ≤ 3 ≤ 3 ∧ 1 ≤ 3 ≤ 3.
Proof.
  apply (change_workloads_name_once small_rand small_args None 77).
  - by vm_compute.
  - split; [by vm_compute|]. apply Nat.leb_le. by vm_compute.
  - by left.
Defined.

(** The scripts for correctness, one after the other on the table with only its header: the first
    inserts two rows, finds each once, changes one and deletes the other; of the four
    INSERTs of the second each is refused, for its key, its e-mail address, its telephone
    number and its empty track. *)
Example correctness_replies :
  let scripts := write_correctness_sql (parse_args small_args default_options) in
  let run text e := run_script (fun _ => true) (fun _ => (0, 0)) text e in
  let kind (r : Reply) := match r with Selected _ o => Selected true (o.1, []) | r => r end in
  ('(r1, e1) ← run scripts.1 small_start; '(r2, _) ← run scripts.2 e1; Some (map kind r1, r2)) =
    Some ([Written WNone; Written WNone; Inserted (InsDone 900000001); Inserted (InsDone 900000002);
           Selected true (1, []); Selected true (1, []); Written (WDone 1); Written (WDone 1)],
          [Inserted (InsRefused InsDupPk); Inserted (InsRefused InsDupUk); Inserted (InsRefused InsDupUk); Inserted (InsRefused InsNN)]).
Proof. vm_compute. reflexivity. Qed.

(** A source that is too short stays: the command does not write over it, and says that
    it succeeded; asked for three rows, the generator writes two INSERTs. *)
Example short_source_kept :
  ensure_source_csv 3 (generate_jungle_dataset 2 false) = generate_jungle_dataset 2 false ∧
  (length ∘ script_events ∘ insert_sql <$> (generator_main small_rand small_args (generate_jungle_dataset 2 false) 77).2) = Some 2%nat.
Proof. vm_compute. done. Qed.

(** INSERTs of the mixed workload that are 10000 operations apart have the same telephone
    number, which has to be unique: the second is refused. *)
Example mixed_phone_repeats :
  (fst <$> run_script (fun _ => true) (fun _ => (0, 0)) (mixed_insert_line 7 ++ mixed_insert_line 10007) small_start) =
    Some [Inserted (InsDone 800000007); Inserted (InsRefused InsDupUk)].
Proof. vm_compute. reflexivity. Qed.

(** The short report made anew from [report.raw] shows the word [set] for the score. *)
Example regenerated_score :
  strstr (regenerate_md_from_raw (report_raw true (lit "measured") (lit "93.500000") (lit "smoke") 7)) (lit "score_total: `set`") ≠ None ∧
  strstr (regenerate_md_from_raw (report_raw true (lit "measured") (lit "93.500000") (lit "smoke") 7)) (lit "93") = None.
Proof. vm_compute. done. Qed.
